(* ===== verification/_CoqProject ===== *)
-Q . S2P
Prelude.v
PubKey.v
SecpPrime.v
Field.v
FieldSpec.v
FieldBytes.v
Curve.v
CurveSpec.v
Opcode.v
Compress.v
ScriptNum.v
Stack.v
Wire.v
Crypto.v
Signature.v
Script.v
ScriptBuilder.v
Standard.v
SigCache.v
Engine.v
EngineSpec.v
StackSpec.v
Handlers.v
HandlerSpec.v
SigOps.v
SigSpec.v
Machine.v
MachineSpec.v
SpendSpec.v
SpendLive.v
Utxo.v
GoTime.v
Header.v
MsgBlock.v
NetMsg.v
Message.v
MessageSpec.v
Merkle.v
Database.v
Params.v
Difficulty.v
UtxoSpec.v
KeyView.v
Validate.v
ChainIO.v
ChainIOSpec.v
StateSpec.v
JournalSpec.v
ViewSpec.v
DbSpec.v
KeySpec.v
ScriptVal.v
Node.v
BlockRules.v
Chain.v
Example.v
Frame.v
ChainSpec.v
ValidateSpec.v
InputSpec.v
Treap.v
TreapSpec.v
TreapOps.v
TreapIter.v
Policy.v
PolicySpec.v
Mempool.v
MempoolSpec.v
MempoolInv.v
MempoolOps.v
