(* ===== verification/Prelude.v ===== *)
(** * A verification of a Prova node

    Prova is a permissioned block chain node written in Go.  Coins are outputs of
    transactions; a coin is spent by an input whose signature script, run with
    the script of the output, succeeds.  Beside the coins the chain keeps an
    admin state: the key sets of the admins, the keys registered under the key
    ids that outputs refer to, and the total supply.  Special transactions, each
    of them spending the tip of an admin thread, change that state.

    A peer sends messages with transactions and blocks.  A transaction goes into
    the memory pool if it follows the relay policy and the rules of the chain.  A
    block goes to the chain: its header and transactions are checked, it becomes a
    node of the tree of blocks, and when its branch has the most work the blocks of
    the old branch are disconnected and its own connected.  Connecting a block
    changes two views, of the coins and of the admin state, and writes them to the
    database together with a journal of what was spent.  Scripts are run by an
    engine, several inputs at a time.  The development follows this path, from the
    bytes of a message to the state in the database.

    ** Conventions (this file)

    A Go integer is a [Z] kept in range by [u8], [u32], [i32], [i64] and so on;
    an operation that can wrap is written with its wrap.  Bytes are [list Z].  A
    call returns a [res]: a value, an error, a panic (an index or slice expression
    out of range, a nil pointer) or [Hang], a loop that used up its fuel.  A
    method that changes a struct returns it.  Where an error leaves changes behind
    that are seen later, in the chain ([Node]) and in the memory pool ([Mempool]),
    an operation is a function [M] from the state to the new state and a result.
    Where pointers are shared, between the nodes of the chain ([Node]) and the
    nodes of a treap ([Treap]), there is a heap of addresses.  [post] and [returns]
    are the postconditions of the development, with [post_bind] as their
    composition rule.  The file also has the tactics ([go_inv], [case_if]), the
    hint database and the lemmas on lists and integers that the other files share.

    ** Files

    Keys, signatures, hashes.  [PubKey] (src/btcec/pubkey.go, pubkeyset.go,
    keyid.go, keyidmap.go), [SecpPrime] (the field prime is prime, for the square
    roots of decompression), [Field] with [FieldSpec] and [FieldBytes]
    (src/btcec/field.go), [Curve] with [CurveSpec] (points and scalars of
    src/btcec/btcec.go), [Signature] (src/btcec/signature.go), [Crypto]
    (src/chaincfg/chainhash, src/provautil/hash160.go).

    Messages.  [Wire] (src/wire/msgtx.go, common.go), [GoTime] (the time package),
    [Header] (blockheader.go), [MsgBlock] (msgblock.go, src/provautil/block.go),
    [NetMsg] (netaddress.go, invvect.go and the other msg files), [Message] with
    [MessageSpec] (message.go).

    Scripts.  [Opcode] (the table of src/txscript/opcode.go, error.go),
    [ScriptNum] (scriptnum.go), [Script] (script.go, hashcache.go), [ScriptBuilder]
    (scriptbuilder.go), [Standard] (standard.go), [SigCache] (sigcache.go,
    hashcache.go).

    The script engine.  [Stack] (stack.go), [Engine] (engine.go), [Handlers] and
    [SigOps] (the handlers of opcode.go), [Machine] (Step and Execute).  Their
    theorems are in [StackSpec], [EngineSpec], [HandlerSpec], [SigSpec],
    [MachineSpec], [SpendSpec] and [SpendLive].

    The views and the rules for transactions.  [Utxo] and [UtxoSpec]
    (src/blockchain/utxoviewpoint.go), [KeyView] and [KeySpec] (keyviewpoint.go),
    [Validate] (the rules for transactions of validate.go), [ScriptVal] and
    [ValidateSpec] (scriptval.go), [InputSpec] (the views, the script validation
    and the engine together).

    Storage.  [Database] (the contract of src/database/interface.go), [Compress]
    (src/blockchain/compress.go), [ChainIO] (chainio.go).  Their theorems are in
    [ChainIOSpec] (entries), [StateSpec] (best state and admin state),
    [JournalSpec] (spend journal), [ViewSpec] (views that are equivalent) and
    [DbSpec] (the coins of the database).  [Treap], [TreapSpec], [TreapOps] and
    [TreapIter] are the treaps of the database cache
    (src/database/internal/treap).

    The chain.  [Params] (src/chaincfg/params.go), [Merkle]
    (src/blockchain/merkle.go), [Difficulty] (difficulty.go), [Node] (the tree of
    blocks in chain.go, ratelimit.go, timesorter.go), [BlockRules] (the rules for
    blocks of validate.go, checkpoints.go), [Chain] (chain.go, accept.go,
    process.go and the start in chainio.go), [Frame] and [ChainSpec] (its
    theorems), [Example] (a chain of two blocks to evaluate the model on).

    The memory pool.  [Policy] (src/mempool/policy.go, error.go,
    src/mining/policy.go), [Mempool] (src/mempool/mempool.go), with the theorems in
    [PolicySpec], [MempoolSpec], [MempoolInv] and [MempoolOps].

    ** What the theorems show

    Spending ([InputSpec], on [SpendSpec], [SpendLive], [SigSpec]): an input of a
    Prova output or of an admin thread is accepted only with the signatures that
    the output asks for, and an input of a Prova output is accepted with them.

    Validation ([ValidateSpec]): for every interleaving of the goroutines the
    result is that of checking the inputs one by one, and the goroutines end.

    The engine ([MachineSpec], [EngineSpec]): its limits are an invariant of every
    step, and an execution returns except in the cases that are characterized: a
    signature on which a parser panics, and an empty signature for
    OP_CHECKSAFEMULTISIG, which never ends.

    The views ([UtxoSpec], [KeySpec]): connecting a transaction changes exactly
    the coins it names; disconnecting a block gives the coins and the admin state
    back, but for the last key id.

    The chain ([ChainSpec], [Merkle], [Difficulty]): after any sequence of blocks
    the database describes the tip that the chain reports, so a restart finds it; a
    block that was accepted is refused from then on; the orphans that wait for a
    block are accepted to the end; a Merkle root determines the transactions unless
    two inputs that were hashed collide; a retarget stays within its bounds.

    Storage ([ChainIOSpec], [StateSpec], [JournalSpec], [DbSpec], [TreapOps],
    [TreapIter]): what is written is read back, with the record of height 0 as an
    exception; both treaps are finite maps, a version of the immutable one does not
    change any more, and an iterator goes over the entries in order, also when
    entries are deleted, unless one has a nil key.

    The memory pool ([MempoolOps]): the pool and its indexes agree after any
    sequence of calls, so no two transactions of the pool spend the same output;
    processing a transaction returns; and a confirmed transaction leaves none that
    conflicts with it.

    Messages and other encodings ([MessageSpec], [Wire], [Compress], [ScriptNum],
    [Script], [Signature], [ScriptBuilder], [Standard], [FieldBytes]): a stream of
    messages stays in step whatever a peer sends; round trips, canonicity, sizes,
    and the inputs on which a decoder panics.

    Arithmetic ([FieldSpec], [CurveSpec]): the operations on ten words compute
    modulo the prime within their magnitudes, with the values that are normalized
    wrongly; a scalar is the sum that its halves and their digits stand for.

    Hashes and caches ([Script], [SigCache]): what a signature hash commits to, and
    that the caches never change a result.

    ** Fuel

    Where a theorem says that a call returns, the bound of its loops is proved to be
    enough.  A variable length quantity has at most ten bytes; a script number nine.  Execute takes one round
    per opcode of its scripts ([execute_fuel]).  The loop of
    OP_CHECKSAFEMULTISIG has [safe_fuel] rounds, enough whenever no signature is
    empty; with an empty one the code never ends, whatever the fuel.  The loop over
    the orphans of a chain has two rounds for each of them; removing orphans or
    transactions from the memory pool is nested no deeper than there are any, where
    spends have no cycle.  A walk in a treap has as many rounds as the heap has
    nodes.  Following the parents of the nodes or of the orphans of a chain has as
    many rounds as there are nodes or orphans, which is enough where the parents
    have no cycle; that they have none is not proved.

    ** Parameters

    RIPEMD-160 is an external package and ECDSA verification is arithmetic on
    points: they are the operations of the class [Primitives], whose law is the
    length of a digest.  The proof-of-work hash is the operation of [PowHash].  The
    entry that a full signature cache evicts is drawn from an arbitrary stream
    ([SigCache.Random]).  [Chain] and [BlockRules] take the network, the
    checkpoints, the index manager and the result of one run of the scripts as
    arguments, and [Mempool] an environment of what it reads of the chain
    ([Mempool.Env]) and the clock, the order of maps and math.Pow
    ([Mempool.Runtime]).  The priorities of treap nodes are arguments.

    ** Not modelled

    Addition and multiplication of points, signing and private keys; error texts,
    logging, disassembly and printing; locks, so an operation under a lock is one
    step; notifications.  The drivers of the database (files and the key-value
    store), the optional indexes, block templates and the CPU miner, the address
    manager and the connections, the RPC server, addresses and wallet utilities and
    the command line tools are input and output around this core. *)
From stdpp Require Export prelude strings gmap.
From Stdlib Require Export ZArith Lia.
#[local] Open Scope Z_scope.

(** * Outcomes of a Go call

    A Go function that can fail returns an error value; an index or slice
    expression out of range panics; a loop that is modelled with fuel can run
    out of it.  The four outcomes are the constructors of [res]. *)
Inductive res (E A : Type) : Type :=
  | Ok (a : A)
  | Err (e : E)
  | Panic
  | Hang.
Arguments Ok {_ _} _.
Arguments Err {_ _} _.
Arguments Panic {_ _}.
Arguments Hang {_ _}.

#[global] Instance res_ret E : MRet (res E) := fun A a => Ok a.
#[global] Instance res_bind E : MBind (res E) := fun A B f m =>
  match m with
  | Ok a => f a
  | Err e => Err e
  | Panic => Panic
  | Hang => Hang
  end.
#[global] Instance res_fmap E : FMap (res E) := fun A B f m =>
  match m with
  | Ok a => Ok (f a)
  | Err e => Err e
  | Panic => Panic
  | Hang => Hang
  end.

Definition is_ok {E A} (m : res E A) : bool :=
  match m with Ok _ => true | _ => false end.

#[global] Instance Ok_inj {E A} : Inj (=) (=) (@Ok E A).
Proof. congruence. Qed.

Lemma bind_Ok {E A B} (m : res E A) (f : A -> res E B) (b : B) :
  mbind f m = Ok b <-> exists a, m = Ok a /\ f a = Ok b.
Proof. destruct m; naive_solver. Qed.

Lemma bind_Panic {E A B} (m : res E A) (f : A -> res E B) :
  mbind f m = Panic <-> m = Panic \/ exists a, m = Ok a /\ f a = Panic.
Proof. destruct m; naive_solver. Qed.

Lemma bind_Hang {E A B} (m : res E A) (f : A -> res E B) :
  mbind f m = Hang <-> m = Hang \/ exists a, m = Ok a /\ f a = Hang.
Proof. destruct m; naive_solver. Qed.

(** [post P H Q m]: the call [m] panics only if [P], runs out of fuel only if
    [H], and returns values with [Q]; an error value is always allowed.  With
    [P] and [H] false it says that the call returns. *)
Definition post {E A} (P H : Prop) (Q : A -> Prop) (m : res E A) : Prop :=
  match m with
  | Ok a => Q a
  | Err _ => True
  | Panic => P
  | Hang => H
  end.
Abbreviation returns := (post False False).

Lemma post_bind {E A B} P H (R : A -> Prop) (Q : B -> Prop) (m : res E A) (f : A -> res E B) :
  post P H R m -> (forall a, R a -> post P H Q (f a)) -> post P H Q (mbind f m).
Proof. destruct m; simpl; auto. Qed.

Lemma post_weaken {E A} (P H P' H' : Prop) (Q Q' : A -> Prop) (m : res E A) :
  post P H Q m -> (P -> P') -> (H -> H') -> (forall a, Q a -> Q' a) -> post P' H' Q' m.
Proof. destruct m; simpl; auto. Qed.

Lemma returns_post {E A} (P H : Prop) (Q : A -> Prop) (m : res E A) : returns Q m -> post P H Q m.
Proof. intros Hr. eapply post_weaken; [exact Hr | tauto..]. Qed.

Lemma post_Ok {E A} P H (Q : A -> Prop) (m : res E A) a : post P H Q m -> m = Ok a -> Q a.
Proof. by intros Hp ->. Qed.

(** [go_inv H] splits a successful run [H : ... = Ok _] of a monadic body into
    the successful runs of its calls and the branches of its tests. *)
Ltac go_inv H :=
  repeat (simpl in H;
    match type of H with
    | mbind _ _ = Ok _ =>
        let a := fresh "v" in let H1 := fresh "Hrun" in
        apply bind_Ok in H as (a & H1 & H)
    | Ok _ = Ok _ => injection H as H; subst
    | Err _ = Ok _ => discriminate H
    | Panic = Ok _ => discriminate H
    | Hang = Ok _ => discriminate H
    | (if ?b then _ else _) = _ => let Hb := fresh "Hif" in destruct b eqn:Hb
    | (match ?x with _ => _ end) = _ => let Hm := fresh "Hmatch" in destruct x eqn:Hm
    end).

(** [case_if] splits the first test of the goal. *)
Ltac case_if :=
  match goal with
  | |- context [if ?b then _ else _] => let H := fresh "Hif" in destruct b eqn:H
  end.

Ltac case_if_as H :=
  match goal with
  | |- context [if ?b then _ else _] => destruct b eqn:H
  end.

(** * Fixed-width integers

    A Go integer of width [w] is a [Z]; every operation that can overflow is
    wrapped with the function of its type. *)
Definition wrapu (w : Z) (x : Z) : Z := x mod 2 ^ w.
Definition wraps (w : Z) (x : Z) : Z := (x + 2 ^ (w - 1)) mod 2 ^ w - 2 ^ (w - 1).
#[global] Arguments wrapu _ _ : simpl never.
#[global] Arguments wraps _ _ : simpl never.
Abbreviation u8 := (wrapu 8).
Abbreviation u16 := (wrapu 16).
Abbreviation u32 := (wrapu 32).
Abbreviation u64 := (wrapu 64).
Abbreviation i32 := (wraps 32).
Abbreviation i64 := (wraps 64).

Definition is_u (w x : Z) : Prop := 0 <= x < 2 ^ w.
Definition is_s (w x : Z) : Prop := - 2 ^ (w - 1) <= x < 2 ^ (w - 1).

Lemma wrapu_small w x : is_u w x -> wrapu w x = x.
Proof. intros H. apply Z.mod_small, H. Qed.

Lemma wrapu_range w x : 0 <= w -> is_u w (wrapu w x).
Proof. intros H. apply Z.mod_pos_bound. lia. Qed.

Lemma wraps_small w x : 0 < w -> is_s w x -> wraps w x = x.
Proof.
  intros Hw H. unfold wraps, is_s in *.
  assert (2 ^ w = 2 * 2 ^ (w - 1)) as Hp
    by (rewrite <- Z.pow_succ_r by lia; f_equal; lia).
  rewrite Z.mod_small; lia.
Qed.

Lemma wraps_range w x : 0 < w -> is_s w (wraps w x).
Proof.
  intros Hw. unfold wraps, is_s.
  assert (2 ^ w = 2 * 2 ^ (w - 1)) as Hp
    by (rewrite <- Z.pow_succ_r by lia; f_equal; lia).
  pose proof (Z.mod_pos_bound (x + 2 ^ (w - 1)) (2 ^ w)). lia.
Qed.

(** Conversions between the signed and the unsigned type of a width. *)
Lemma wraps_wrapu w x : 0 < w -> is_s w x -> wraps w (wrapu w x) = x.
Proof.
  intros Hw H. rewrite <- (wraps_small w x Hw H) at 2. unfold wraps, wrapu.
  by rewrite Zplus_mod_idemp_l.
Qed.

Lemma wrapu_wraps w x : 0 < w -> is_u w x -> wrapu w (wraps w x) = x.
Proof.
  intros Hw H. rewrite <- (wrapu_small w x H) at 2. unfold wraps, wrapu.
  rewrite Zminus_mod_idemp_l. f_equal. lia.
Qed.

Lemma wrapu_wrapu_add_r w x y : wrapu w (x + wrapu w y) = wrapu w (x + y).
Proof. apply Zplus_mod_idemp_r. Qed.

Lemma wrapu_wrapu_add_l w x y : wrapu w (wrapu w x + y) = wrapu w (x + y).
Proof. apply Zplus_mod_idemp_l. Qed.

Lemma wrapu_wrapu_sub_l w x y : wrapu w (wrapu w x - y) = wrapu w (x - y).
Proof. apply Zminus_mod_idemp_l. Qed.

(** An int64 operation on a value that was wrapped before. *)
Lemma wraps_add_wraps w x y : wraps w (wraps w x + y) = wraps w (x + y).
Proof.
  unfold wraps. f_equal.
  replace ((x + 2 ^ (w - 1)) mod 2 ^ w - 2 ^ (w - 1) + y + 2 ^ (w - 1))
    with ((x + 2 ^ (w - 1)) mod 2 ^ w + y) by lia.
  rewrite Zplus_mod_idemp_l. f_equal. lia.
Qed.

(** * Byte strings

    A byte is a [Z] in [0, 255] and a [[]byte] a list of them. *)
Abbreviation bytes := (list Z).
Definition is_byte (b : Z) : Prop := 0 <= b < 256.
Definition bytes_ok (l : bytes) : Prop := Forall is_byte l.

#[global] Instance is_byte_dec b : Decision (is_byte b).
Proof. unfold is_byte. apply _. Defined.

Definition byteb (b : Z) : bool := (0 <=? b) && (b <? 256).
Definition bytesb (l : bytes) : bool := forallb byteb l.

Lemma bytesb_ok l : bytesb l = true -> bytes_ok l.
Proof.
  unfold bytesb, bytes_ok, byteb, is_byte. rewrite forallb_forall, Forall_forall.
  intros H x Hx. apply list_elem_of_In in Hx. specialize (H x Hx). lia.
Qed.

Lemma bytes_ok_app l1 l2 : bytes_ok (l1 ++ l2) <-> bytes_ok l1 /\ bytes_ok l2.
Proof. apply Forall_app. Qed.

Lemma bytes_ok_take n l : bytes_ok l -> bytes_ok (take n l).
Proof. apply Forall_take. Qed.

Lemma bytes_ok_drop n l : bytes_ok l -> bytes_ok (drop n l).
Proof. apply Forall_drop. Qed.

(** [len] is Go's [len], a machine integer. *)
Definition len {A} (l : list A) : Z := Z.of_nat (length l).
#[global] Arguments len {_} _ : simpl never.

Lemma len_nil {A} : len (@nil A) = 0.
Proof. done. Qed.
Lemma len_cons {A} (x : A) l : len (x :: l) = 1 + len l.
Proof. unfold len. simpl. lia. Qed.
Lemma len_app {A} (l1 l2 : list A) : len (l1 ++ l2) = len l1 + len l2.
Proof. unfold len. rewrite length_app. lia. Qed.
Lemma len_nonneg {A} (l : list A) : 0 <= len l.
Proof. unfold len. lia. Qed.
Lemma len_0 {A} (l : list A) : len l = 0 -> l = [].
Proof. destruct l; [done|]. unfold len; simpl; lia. Qed.
Lemma len_reverse {A} (l : list A) : len (reverse l) = len l.
Proof. unfold len. by rewrite length_reverse. Qed.
Lemma len_replicate {A} n (x : A) : len (replicate n x) = Z.of_nat n.
Proof. unfold len. by rewrite length_replicate. Qed.

(** [idx l i] is the index expression [l[i]]. *)
Definition idx {E A} (l : list A) (i : Z) : res E A :=
  if i <? 0 then Panic
  else match l !! Z.to_nat i with Some x => Ok x | None => Panic end.

(** [set_idx l i x] is the assignment [l[i] = x]. *)
Definition set_idx {E A} (l : list A) (i : Z) (x : A) : res E (list A) :=
  if (0 <=? i) && (i <? len l) then Ok (<[Z.to_nat i := x]> l) else Panic.

(** [slice l lo hi] is [l[lo:hi]] for a slice without spare capacity. *)
Definition slice {E A} (l : list A) (lo hi : Z) : res E (list A) :=
  if (0 <=? lo) && (lo <=? hi) && (hi <=? len l)
  then Ok (take (Z.to_nat (hi - lo)) (drop (Z.to_nat lo) l))
  else Panic.

#[global] Arguments slice {_ _} _ _ _ : simpl never.

(** [copy_at dst off src] is [copy(dst[off:], src)]: it copies as many
    elements as fit and panics when [off] is past the end. *)
Definition copy_at {E A} (dst : list A) (off : Z) (src : list A) : res E (list A) :=
  if (0 <=? off) && (off <=? len dst)
  then let room := Z.to_nat (len dst - off) in
       let s := take room src in
       Ok (take (Z.to_nat off) dst ++ s ++ drop (Z.to_nat off + length s) dst)
  else Panic.

(** [copy_range dst lo hi src] is [copy(dst[lo:hi], src)]. *)
Definition copy_range {E A} (dst : list A) (lo hi : Z) (src : list A) : res E (list A) :=
  if (0 <=? lo) && (lo <=? hi) && (hi <=? len dst)
  then let s := take (Z.to_nat (hi - lo)) src in
       Ok (take (Z.to_nat lo) dst ++ s ++ drop (Z.to_nat lo + length s) dst)
  else Panic.

(** [make_bytes n] is [make([]byte, n)], which panics on a negative length. *)
Definition make_bytes {E} (n : Z) : res E bytes :=
  if n <? 0 then Panic else Ok (replicate (Z.to_nat n) 0).

(** [byte_is l i v] is the test [l[i] == v] behind a check of the length. *)
Definition byte_is (l : bytes) (i : nat) (v : Z) : bool :=
  match l !! i with Some b => b =? v | None => false end.

Lemma byte_is_Some l i v : byte_is l i v = true <-> l !! i = Some v.
Proof.
  unfold byte_is. destruct (l !! i) as [b|]; [|done]. rewrite Z.eqb_eq. naive_solver.
Qed.

Lemma copy_range_full {E A} (pre mid post src : list A) :
  length mid = length src ->
  @copy_range E A (pre ++ mid ++ post) (len pre) (len pre + len mid) src =
  Ok (pre ++ src ++ post).
Proof.
  intros Hl. unfold copy_range. rewrite !len_app.
  pose proof (len_nonneg pre). pose proof (len_nonneg mid). pose proof (len_nonneg post).
  replace (_ && _) with true by lia. unfold len.
  replace (Z.to_nat (Z.of_nat (length pre) + Z.of_nat (length mid) - Z.of_nat (length pre)))
    with (length src) by lia.
  rewrite Nat2Z.id, firstn_all, take_app_length, drop_app_add, drop_app_length' by done.
  done.
Qed.

Lemma copy_at_full {E A} (pre mid post src : list A) :
  length mid = length src ->
  @copy_at E A (pre ++ mid ++ post) (len pre) src = Ok (pre ++ src ++ post).
Proof.
  intros Hl. unfold copy_at. rewrite !len_app.
  pose proof (len_nonneg pre). pose proof (len_nonneg mid). pose proof (len_nonneg post).
  replace (_ && _) with true by lia. unfold len.
  rewrite (take_ge src) by (unfold len; lia).
  rewrite Nat2Z.id, take_app_length, drop_app_add, drop_app_length' by done.
  done.
Qed.

Lemma idx_Ok {E A} (l : list A) i (x : A) :
  @idx E A l i = Ok x <-> 0 <= i /\ l !! Z.to_nat i = Some x.
Proof.
  unfold idx. destruct (Z.ltb_spec i 0).
  - split; [done | lia].
  - destruct (l !! Z.to_nat i) eqn:Hl; naive_solver.
Qed.

Lemma idx_in_range {E A} (l : list A) i :
  0 <= i < len l -> exists x, @idx E A l i = Ok x /\ l !! Z.to_nat i = Some x.
Proof.
  intros H. destruct (lookup_lt_is_Some_2 l (Z.to_nat i)) as [x Hx].
  { unfold len in H. lia. }
  exists x. split; [|done]. apply idx_Ok. split; [lia | done].
Qed.

Lemma idx_out_of_range {E A} (l : list A) i :
  i < 0 \/ len l <= i -> @idx E A l i = Panic.
Proof.
  intros H. unfold idx. destruct (Z.ltb_spec i 0); [done|].
  rewrite lookup_ge_None_2; [done|]. unfold len in H. lia.
Qed.

Lemma set_idx_Ok {E A} (l : list A) i x :
  0 <= i < len l -> @set_idx E A l i x = Ok (<[Z.to_nat i := x]> l).
Proof. intros H. unfold set_idx. by replace ((0 <=? i) && (i <? len l)) with true by lia. Qed.

Lemma len_insert {A} (l : list A) i x : len (<[i := x]> l) = len l.
Proof. unfold len. by rewrite length_insert. Qed.

Lemma set_idx_middle {E A} (pre post : list A) x y :
  @set_idx E A (pre ++ x :: post) (len pre) y = Ok (pre ++ y :: post).
Proof.
  rewrite set_idx_Ok by (rewrite len_app, len_cons; pose proof (len_nonneg pre);
    pose proof (len_nonneg post); lia).
  unfold len. by rewrite Nat2Z.id, insert_app_r_alt, Nat.sub_diag by lia.
Qed.

Lemma idx_middle {E A} (pre post : list A) x : @idx E A (pre ++ x :: post) (len pre) = Ok x.
Proof.
  apply idx_Ok. unfold len. rewrite Nat2Z.id. split; [lia|].
  by rewrite lookup_app_r, Nat.sub_diag by lia.
Qed.

Lemma slice_Ok {E A} (l : list A) lo hi s :
  @slice E A l lo hi = Ok s <->
  0 <= lo <= hi /\ hi <= len l /\ s = take (Z.to_nat (hi - lo)) (drop (Z.to_nat lo) l).
Proof.
  unfold slice. destruct (_ && _) eqn:Hc.
  - split; [intros [= <-] | intros (? & ? & ->)]; [|done].
    split_and!; try lia; done.
  - split; [done | intros (? & ? & _)]. lia.
Qed.

Lemma idx_app_l {E A} (l1 l2 : list A) i :
  i < len l1 -> @idx E A (l1 ++ l2) i = idx l1 i.
Proof.
  intros H. unfold idx. destruct (i <? 0) eqn:?; [done|].
  rewrite lookup_app_l; [done|]. unfold len in H. lia.
Qed.

(** * Little- and big-endian numbers *)
Fixpoint le_encode (n : nat) (z : Z) : bytes :=
  match n with
  | O => []
  | S n => u8 z :: le_encode n (z ≫ 8)
  end.

Fixpoint le_decode (l : bytes) : Z :=
  match l with
  | [] => 0
  | b :: l => b + 256 * le_decode l
  end.

Definition be_encode (n : nat) (z : Z) : bytes := reverse (le_encode n z).
Definition be_decode (l : bytes) : Z := le_decode (reverse l).

Lemma length_le_encode n z : length (le_encode n z) = n.
Proof. revert z; induction n; intros; simpl; auto. Qed.

Lemma length_be_encode n z : length (be_encode n z) = n.
Proof. unfold be_encode. by rewrite length_reverse, length_le_encode. Qed.

Lemma u8_is_byte z : is_byte (u8 z).
Proof. apply (wrapu_range 8). lia. Qed.

Lemma le_encode_ok n z : bytes_ok (le_encode n z).
Proof.
  revert z; induction n as [|n IH]; intros z; simpl; constructor; [|apply IH].
  apply u8_is_byte.
Qed.

Lemma be_encode_ok n z : bytes_ok (be_encode n z).
Proof. apply Forall_reverse, le_encode_ok. Qed.

Lemma le_decode_encode n z : le_decode (le_encode n z) = z mod 256 ^ Z.of_nat n.
Proof.
  revert z; induction n as [|n IH]; intros z; simpl le_encode; simpl le_decode.
  { by rewrite Z.mod_1_r. }
  rewrite IH, Z.shiftr_div_pow2 by lia.
  unfold wrapu. change (2 ^ 8) with 256.
  rewrite Nat2Z.inj_succ, Z.pow_succ_r by lia.
  rewrite Z.rem_mul_r by lia. lia.
Qed.

Lemma le_decode_range l : bytes_ok l -> 0 <= le_decode l < 256 ^ len l.
Proof.
  induction l as [|b l IH]; intros H; [done|].
  apply Forall_cons in H as [Hb Hl]. specialize (IH Hl).
  rewrite len_cons, Z.pow_add_r by (pose proof (len_nonneg l); lia).
  unfold is_byte in Hb. simpl. lia.
Qed.

Lemma le_encode_decode l : bytes_ok l -> le_encode (length l) (le_decode l) = l.
Proof.
  induction l as [|b l IH]; intros H; [done|].
  apply Forall_cons in H as [Hb Hl]. simpl. f_equal.
  - unfold wrapu. change (2 ^ 8) with 256. unfold is_byte in Hb.
    rewrite Z.mul_comm, Z_mod_plus_full, Z.mod_small; lia.
  - transitivity (le_encode (length l) (le_decode l)); [f_equal | by apply IH].
    rewrite Z.shiftr_div_pow2 by lia. change (2 ^ 8) with 256.
    unfold is_byte in Hb. rewrite Z.mul_comm, Z.div_add, Z.div_small; lia.
Qed.

Lemma be_decode_encode n z : be_decode (be_encode n z) = z mod 256 ^ Z.of_nat n.
Proof. unfold be_decode, be_encode. rewrite reverse_involutive. apply le_decode_encode. Qed.

Lemma be_encode_decode l : bytes_ok l -> be_encode (length l) (be_decode l) = l.
Proof.
  intros H. unfold be_decode, be_encode.
  rewrite <- (length_reverse l), le_encode_decode by (by apply Forall_reverse).
  apply reverse_involutive.
Qed.

(** * Bit tests on small words *)
Lemma land_ones_mod z n : 0 <= n -> Z.land z (2 ^ n - 1) = z mod 2 ^ n.
Proof. intros H. rewrite <- Z.land_ones, Z.ones_equiv by lia. f_equal. Qed.

Lemma land_shiftl_small a b k : 0 <= k -> 0 <= b < 2 ^ k -> Z.land (a ≪ k) b = 0.
Proof.
  intros Hk Hb. apply Z.bits_inj'. intros i Hi. rewrite Z.land_spec, Z.bits_0.
  destruct (decide (i < k)).
  - by rewrite Z.shiftl_spec_low by lia.
  - rewrite <- (Z.mod_small b (2 ^ k)) by lia.
    rewrite Z.mod_pow2_bits_high by lia. apply andb_false_r.
Qed.

(** Or-ing a value below [2^k] into a word shifted by [k] adds it. *)
Lemma lor_shiftl_add a b k : 0 <= k -> 0 <= b < 2 ^ k -> Z.lor (a ≪ k) b = a * 2 ^ k + b.
Proof.
  intros Hk Hb. pose proof (land_shiftl_small a b k Hk Hb) as Hl.
  rewrite <- Z.lxor_lor, <- Z.add_nocarry_lxor by done. by rewrite Z.shiftl_mul_pow2.
Qed.

(** [byte_cases b] proves a goal about a byte by enumerating its 256 values. *)
Definition all_bytes : bytes := seqZ 0 256.

Lemma byte_forall (P : Z -> bool) :
  forallb P all_bytes = true -> forall b, is_byte b -> P b = true.
Proof.
  intros H b Hb. rewrite forallb_forall in H. apply H, list_elem_of_In.
  unfold all_bytes. apply elem_of_seqZ. unfold is_byte in Hb. lia.
Qed.

Create HintDb go.
#[export] Hint Resolve u8_is_byte le_encode_ok be_encode_ok : go.
#[export] Hint Resolve len_nonneg : go.
#[export] Hint Rewrite @len_nil @len_cons @len_app @len_reverse @len_replicate
  length_le_encode length_be_encode : go.
