(* ===== verification/PubKey.v ===== *)
(** secp256k1 public keys, key identifiers and admin key sets: the parts of
    [src/btcec] the script engine, the utxo compression and the admin state
    are built on (pubkey.go, pubkeyset.go, keyid.go, keyidmap.go and the curve
    parameters of btcec.go).

    [math/big] integers are [Z].  Errors are the message strings of the code. *)
From Stdlib Require Import Zpow_facts.
From S2P Require Import Prelude.
#[local] Open Scope Z_scope.

Module btcec.

(** * Curve parameters (btcec.go, initS256) *)
Definition P : Z := 0xFFFFFFFFFFFFFFFFFFFFFFFFFFFFFFFFFFFFFFFFFFFFFFFFFFFFFFFEFFFFFC2F.
Definition N : Z := 0xFFFFFFFFFFFFFFFFFFFFFFFFFFFFFFFEBAAEDCE6AF48A03BBFD25E8CD0364141.
Definition B : Z := 7.
Definition QPlus1Div4 : Z := (P + 1) / 4.

(** The curve equation over the integers modulo [P].  [Curve.IsOnCurve] is the code,
    which evaluates it with the field arithmetic, and [CurveSpec] proves that it
    computes this. *)
Definition IsOnCurve (x y : Z) : bool :=
  (y * y) mod P =? (x * x * x + 7) mod P.

(** * Public keys (pubkey.go) *)
Definition PubKeyBytesLenCompressed : Z := 33.
Definition PubKeyBytesLenUncompressed : Z := 65.
Definition PubKeyBytesLenHybrid : Z := 65.

Definition isOdd (a : Z) : bool := Z.testbit a 0.

Record PublicKey := mkPublicKey { X : Z; Y : Z }.

#[global] Instance PublicKey_eq_dec : EqDecision PublicKey.
Proof. solve_decision. Defined.

(** [big.Int.Bytes]: the minimal big-endian bytes of a non-negative integer. *)
Definition bigBytes (z : Z) : bytes :=
  if z <=? 0 then [] else be_encode (Z.to_nat (Z.log2 z / 8 + 1)) z.

Definition decompressPoint (x : Z) (ybit : bool) : res string Z :=
  let x3 := x * x in
  let x3 := x3 * x in
  let x3 := x3 + B in
  let y := Zpow_mod x3 QPlus1Div4 P in
  let y := if negb (Bool.eqb ybit (isOdd y)) then P - y else y in
  if negb (Bool.eqb ybit (isOdd y)) then Err "ybit doesn't match oddness"
  else Ok y.

Definition pubkeyCompressed : Z := 0x2.
Definition pubkeyUncompressed : Z := 0x4.
Definition pubkeyHybrid : Z := 0x6.

Definition checkPoint (x y : Z) : res string PublicKey :=
  if P <=? x then Err "pubkey X parameter is >= to P"
  else if P <=? y then Err "pubkey Y parameter is >= to P"
  else if negb (IsOnCurve x y) then Err "pubkey isn't on secp256k1 curve"
  else Ok (mkPublicKey x y).

Definition ParsePubKey (pubKeyStr : bytes) : res string PublicKey :=
  if len pubKeyStr =? 0 then Err "pubkey string is empty"
  else
    format0 ← idx pubKeyStr 0;
    let ybit := Z.land format0 0x1 =? 0x1 in
    let format := Z.land format0 0xfe in
    if len pubKeyStr =? PubKeyBytesLenUncompressed then
      if negb (format =? pubkeyUncompressed) && negb (format =? pubkeyHybrid)
      then Err "invalid magic in pubkey str"
      else
        xb ← slice pubKeyStr 1 33;
        yb ← slice pubKeyStr 33 (len pubKeyStr);
        let x := be_decode xb in
        let y := be_decode yb in
        if (format =? pubkeyHybrid) && negb (Bool.eqb ybit (isOdd y))
        then Err "ybit doesn't match oddness"
        else checkPoint x y
    else if len pubKeyStr =? PubKeyBytesLenCompressed then
      if negb (format =? pubkeyCompressed)
      then Err "invalid magic in compressed pubkey string"
      else
        xb ← slice pubKeyStr 1 33;
        let x := be_decode xb in
        y ← decompressPoint x ybit;
        checkPoint x y
    else Err "invalid pub key length".

Definition paddedAppend (size : Z) (dst src : bytes) : bytes :=
  dst ++ replicate (Z.to_nat (size - len src)) 0 ++ src.

Definition SerializeUncompressed (p : PublicKey) : bytes :=
  let b := [pubkeyUncompressed] in
  let b := paddedAppend 32 b (bigBytes (X p)) in
  paddedAppend 32 b (bigBytes (Y p)).

Definition SerializeCompressed (p : PublicKey) : bytes :=
  let format := if isOdd (Y p) then Z.lor pubkeyCompressed 0x1 else pubkeyCompressed in
  paddedAppend 32 [format] (bigBytes (X p)).

Definition SerializeHybrid (p : PublicKey) : bytes :=
  let format := if isOdd (Y p) then Z.lor pubkeyHybrid 0x1 else pubkeyHybrid in
  let b := paddedAppend 32 [format] (bigBytes (X p)) in
  paddedAppend 32 b (bigBytes (Y p)).

Definition IsEqual (p otherPubKey : PublicKey) : bool :=
  (X p =? X otherPubKey) && (Y p =? Y otherPubKey).

(** * Key identifiers (keyid.go) *)
Definition KeyIDSize : Z := 4.

Definition ToAddressFormat (id : Z) : bytes := le_encode 4 id.

(** [binary.LittleEndian.Uint32] reads four bytes and panics on fewer. *)
Definition KeyIDFromAddressBuffer {E} (buf : bytes) : res E Z :=
  b ← slice buf 0 4; Ok (le_decode b).

(** * Admin key sets (pubkeyset.go) *)
Inductive KeySetType :=
  | RootKeySet | ProvisionKeySet | IssueKeySet | ValidateKeySet | ASPKeySet.

#[global] Instance KeySetType_eq_dec : EqDecision KeySetType.
Proof. solve_decision. Defined.
#[global] Instance KeySetType_countable : Countable KeySetType.
Proof.
  refine (inj_countable'
    (fun t => match t with RootKeySet => 0%nat | ProvisionKeySet => 1%nat
              | IssueKeySet => 2%nat | ValidateKeySet => 3%nat | ASPKeySet => 4%nat end)
    (fun n => match n with 0%nat => RootKeySet | 1%nat => ProvisionKeySet
              | 2%nat => IssueKeySet | 3%nat => ValidateKeySet | _ => ASPKeySet end) _).
  by intros [].
Defined.

Definition KeySetType_String (kstype : KeySetType) : string :=
  match kstype with
  | RootKeySet => "ROOT"
  | ProvisionKeySet => "PROVISION"
  | IssueKeySet => "ISSUE"
  | ValidateKeySet => "VALIDATE"
  | ASPKeySet => "ASP"
  end.

(** [keys] of [ParsePubKeySet] after [hex.DecodeString]. *)
Fixpoint ParsePubKeySet (pubKeys : list bytes) : res string (list PublicKey) :=
  match pubKeys with
  | [] => Ok []
  | keyBytes :: rest =>
      key ← ParsePubKey keyBytes;
      keys ← ParsePubKeySet rest;
      Ok (key :: keys)
  end.

Abbreviation PublicKeySet := (list PublicKey).

(** A key argument is a pointer, [None] when it is nil; comparing with a nil
    key dereferences it. *)
Fixpoint Pos_from {E} (p : Z) (set : PublicKeySet) (key : option PublicKey) : res E Z :=
  match set with
  | [] => Ok (-1)
  | v :: rest =>
      match key with
      | None => Panic
      | Some k => if IsEqual v k then Ok p else Pos_from (p + 1) rest key
      end
  end.

Definition Pos {E} (set : PublicKeySet) (key : option PublicKey) : res E Z :=
  Pos_from 0 set key.

Definition Add {E} (set : PublicKeySet) (key : option PublicKey) : res E PublicKeySet :=
  pos ← Pos set key;
  if pos <? 0
  then match key with None => Panic | Some k => Ok (set ++ [k]) end
  else Ok set.

Definition Remove {E} (set : PublicKeySet) (pos : Z) : res E PublicKeySet :=
  if (pos <? 0) || (len set <=? pos) then Ok set
  else
    a ← idx set pos;
    b ← idx set (len set - 1);
    set1 ← set_idx set (len set - 1) a;
    set2 ← set_idx set1 pos b;
    slice set2 0 (len set2 - 1).

(** [None] is the nil slice, which [Equal] distinguishes from an empty one
    only when the other side has elements. *)
Fixpoint all_in (set v : PublicKeySet) : bool :=
  match v with
  | [] => true
  | k :: rest => existsb (fun x => IsEqual x k) set && all_in set rest
  end.

Definition Equal (set v : option PublicKeySet) : bool :=
  match set, v with
  | None, None => true
  | None, Some v => if negb (len v =? 0) then false else true
  | Some set, None => if negb (len set =? 0) then false else true
  | Some set, Some v => if negb (len set =? len v) then false else all_in set v
  end.

(** * Key id maps (keyidmap.go)

    A [nil] pointer stored in the map is [None]; the zero value of a missing
    key is also nil. *)
Abbreviation KeyIdMap := (gmap Z (option PublicKey)).

Definition get_key (m : KeyIdMap) (keyID : Z) : option PublicKey :=
  default None (m !! keyID).

Definition KeyIdMap_Equal (keyMap v : KeyIdMap) : bool :=
  if negb (Nat.eqb (size keyMap) (size v)) then false
  else forallb (fun kv : Z * option PublicKey =>
         match get_key keyMap kv.1, get_key v kv.1 with
         | Some a, Some b => IsEqual a b
         | _, _ => false
         end) (map_to_list keyMap).

(** A nil key in the map is dereferenced by [SerializeCompressed]; the copy of
    a key is the key its compressed serialization parses to, nil on an error. *)
Definition copy_key (pk : option PublicKey) : option PublicKey :=
  match pk with
  | Some k => match ParsePubKey (SerializeCompressed k) with Ok k' => Some k' | _ => None end
  | None => None
  end.

Definition KeyIdMap_DeepCopy {E} (keyMap : KeyIdMap) : res E KeyIdMap :=
  if forallb (fun kv : Z * option PublicKey =>
       match kv.2 with Some _ => true | None => false end) (map_to_list keyMap)
  then Ok (copy_key <$> keyMap)
  else Panic.

(** * Parsing and serialization *)

Lemma bigBytes_length z : 0 <= z < 2 ^ 256 -> len (bigBytes z) <= 32.
Proof.
  intros Hz. unfold bigBytes. destruct (Z.leb_spec z 0); [done|].
  unfold len. rewrite length_be_encode.
  assert (Z.log2 z < 256) by (apply Z.log2_lt_pow2; lia).
  pose proof (Z.log2_nonneg z).
  assert (Z.log2 z / 8 < 32) by (apply Z.div_lt_upper_bound; lia). lia.
Qed.

Lemma be_decode_bigBytes z : 0 <= z -> be_decode (bigBytes z) = z.
Proof.
  intros Hz. unfold bigBytes. destruct (Z.leb_spec z 0).
  { assert (z = 0) as -> by lia. done. }
  rewrite be_decode_encode. apply Z.mod_small. split; [lia|].
  pose proof (Z.log2_nonneg z).
  change 256 with (2 ^ 8). rewrite <- Z.pow_mul_r by lia.
  apply Z.log2_lt_pow2; [lia|].
  pose proof (Z.mul_succ_div_gt (Z.log2 z) 8). pose proof (Z.div_pos (Z.log2 z) 8). lia.
Qed.

Lemma le_decode_snoc_0 l n : le_decode (l ++ replicate n 0) = le_decode l.
Proof.
  induction l as [|b l IH]; simpl; [|by rewrite IH].
  induction n as [|n IH]; simpl; lia.
Qed.

Lemma bigBytes_ok z : bytes_ok (bigBytes z).
Proof. unfold bigBytes. destruct (z <=? 0); [constructor | apply be_encode_ok]. Qed.

(** Left padding a number's bytes to 32 gives its 32-byte big-endian form. *)
Lemma padded_bigBytes z :
  0 <= z < 2 ^ 256 ->
  replicate (Z.to_nat (32 - len (bigBytes z))) 0 ++ bigBytes z = be_encode 32 z.
Proof.
  intros Hz. pose proof (bigBytes_length z Hz) as Hl.
  set (l := replicate _ 0 ++ bigBytes z).
  assert (length l = 32%nat) as Hlen.
  { subst l. rewrite length_app, length_replicate. unfold len in *. lia. }
  assert (bytes_ok l) as Hok.
  { apply bytes_ok_app. split; [|apply bigBytes_ok].
    apply Forall_replicate. unfold is_byte. lia. }
  rewrite <- (be_encode_decode l Hok), Hlen. f_equal.
  unfold be_decode. subst l. rewrite reverse_app, reverse_replicate, le_decode_snoc_0.
  apply (be_decode_bigBytes z). lia.
Qed.

Lemma P_bound : P < 2 ^ 256.
Proof. reflexivity. Qed.

Lemma SerializeCompressed_eq k :
  0 <= X k < 2 ^ 256 ->
  SerializeCompressed k = (if isOdd (Y k) then 3 else 2) :: be_encode 32 (X k).
Proof.
  intros H. unfold SerializeCompressed, paddedAppend. rewrite padded_bigBytes by done.
  by destruct (isOdd (Y k)).
Qed.

Lemma checkPoint_Ok x y k :
  checkPoint x y = Ok k <->
  k = mkPublicKey x y /\ x < P /\ y < P /\ IsOnCurve x y = true.
Proof.
  unfold checkPoint. destruct (Z.leb_spec P x), (Z.leb_spec P y), (IsOnCurve x y);
    simpl; naive_solver lia.
Qed.

Lemma decompressPoint_Ok x b y :
  decompressPoint x b = Ok y -> isOdd y = b /\ 0 <= y.
Proof.
  unfold decompressPoint. intros H.
  set (y0 := Zpow_mod _ _ _) in H.
  assert (0 <= y0 < P) as Hy0.
  { subst y0. rewrite Zpow_mod_correct by done. by apply Z.mod_pos_bound. }
  clearbody y0.
  destruct (negb (Bool.eqb b (isOdd y0))) eqn:H1;
  [destruct (negb (Bool.eqb b (isOdd (P - y0)))) eqn:H2 | destruct (negb _) eqn:H2];
    try discriminate H; injection H as <-;
    apply negb_false_iff, Bool.eqb_prop in H2; split; try done; lia.
Qed.

(** The first byte of an accepted compressed key is 2 or 3. *)
Lemma compressed_format f :
  is_byte f -> Z.land f 0xfe = pubkeyCompressed ->
  f = if Z.land f 1 =? 1 then 3 else 2.
Proof.
  intros Hf.
  pose proof (byte_forall (fun f => negb (Z.land f 0xfe =? 2) ||
    (f =? if Z.land f 1 =? 1 then 3 else 2)) eq_refl f Hf) as H.
  unfold pubkeyCompressed. intros E. cbv beta in H. rewrite E in H. simpl in H. lia.
Qed.

Lemma ParsePubKey_compressed_inv s k :
  len s = 33 -> ParsePubKey s = Ok k ->
  exists f rest, s = f :: rest /\ length rest = 32%nat /\
    Z.land f 0xfe = pubkeyCompressed /\
    k = mkPublicKey (be_decode rest) (Y k) /\ isOdd (Y k) = (Z.land f 1 =? 1) /\
    X k < P /\ 0 <= Y k < P /\ IsOnCurve (X k) (Y k) = true.
Proof.
  intros Hl H. destruct s as [|f rest]; [done|].
  assert (length rest = 32%nat) as Hr by (unfold len in Hl; simpl in Hl; lia).
  unfold ParsePubKey in H. rewrite Hl in H. simpl in H.
  destruct (Z.land f 0xfe =? pubkeyCompressed) eqn:Hf; simpl in H; [|done].
  unfold slice in H. rewrite Hl in H. simpl in H.
  rewrite drop_0, take_ge in H by (rewrite Hr; done).
  apply bind_Ok in H as (y & Hy & H).
  apply decompressPoint_Ok in Hy as [Hodd Hy0].
  apply checkPoint_Ok in H as (-> & ? & ? & ?).
  exists f, rest. simpl. split_and!; try done. lia.
Qed.

(** ParsePubKey never panics. *)
Lemma ParsePubKey_no_panic s : ParsePubKey s <> Panic.
Proof.
  unfold ParsePubKey. destruct s as [|f rest]; [done|].
  change (len (f :: rest) =? 0) with false. change (idx (f :: rest) 0) with (@Ok string Z f).
  cbn [mbind res_bind]. set (s := f :: rest).
  assert (forall x y, checkPoint x y <> Panic) as Hc.
  { intros x y. unfold checkPoint. repeat case_if; done. }
  assert (forall x b, decompressPoint x b <> Panic) as Hd.
  { intros x b. unfold decompressPoint. case_if; done. }
  destruct (len s =? PubKeyBytesLenUncompressed) eqn:H65; [|destruct (len s =? PubKeyBytesLenCompressed) eqn:H33; [|done]].
  - case_if; [done|]. unfold slice. apply Z.eqb_eq in H65.
    unfold PubKeyBytesLenUncompressed in H65. rewrite H65. simpl. case_if; auto.
  - case_if; [done|]. unfold slice. apply Z.eqb_eq in H33.
    unfold PubKeyBytesLenCompressed in H33. rewrite H33. simpl.
    intros [H|(y & _ & H)]%bind_Panic; [by apply Hd in H | by apply Hc in H].
Qed.

Lemma ParsePubKey_no_hang s : ParsePubKey s <> Hang.
Proof.
  unfold ParsePubKey, checkPoint, decompressPoint, idx, slice. intros Hh.
  repeat (match type of Hh with
    | mbind _ _ = Hang => let a := fresh in apply bind_Hang in Hh as [Hh|(a & _ & Hh)]
    | (if ?b then _ else _) = Hang => destruct b
    | match ?x with _ => _ end = Hang => destruct x
    end); done.
Qed.

Lemma IsEqual_eq a b : IsEqual a b = true <-> a = b.
Proof.
  unfold IsEqual. destruct a, b; simpl. rewrite andb_true_iff, !Z.eqb_eq. naive_solver.
Qed.

Lemma ParsePubKey_serialize s k :
  bytes_ok s -> len s = 33 -> ParsePubKey s = Ok k -> SerializeCompressed k = s.
Proof.
  intros Hs Hl H.
  destruct (ParsePubKey_compressed_inv s k Hl H)
    as (f & rest & -> & Hr & Hf & Hk & Hodd & ? & ? & _).
  apply Forall_cons in Hs as [Hf' Hs].
  rewrite SerializeCompressed_eq.
  2: { split; [|pose proof P_bound; lia]. rewrite Hk. simpl.
       apply le_decode_range, Forall_reverse, Hs. }
  rewrite Hodd, <- compressed_format by done. f_equal.
  rewrite Hk. simpl. rewrite <- Hr. by apply be_encode_decode.
Qed.

(** * Key sets *)

Lemma Pos_from_Some {E} p set k :
  @Pos_from E p set (Some k) =
  Ok (match list_find (fun v => v = k) set with Some (i, _) => p + Z.of_nat i | None => -1 end).
Proof.
  revert p. induction set as [|v set IH]; intros p; [done|]. simpl.
  destruct (IsEqual v k) eqn:Hv.
  - apply IsEqual_eq in Hv. rewrite decide_True by done. do 2 f_equal. lia.
  - rewrite IH, decide_False by (intros ->; by rewrite (proj2 (IsEqual_eq k k)) in Hv).
    destruct (list_find _ set) as [[i v']|]; simpl; f_equal; lia.
Qed.

Lemma Pos_in {E} set k :
  k ∈ set -> exists i, @Pos E set (Some k) = Ok (Z.of_nat i) /\ set !! i = Some k.
Proof.
  intros Hk. unfold Pos. rewrite Pos_from_Some.
  destruct (list_find (fun v => v = k) set) as [[i v]|] eqn:Hf.
  - apply list_find_Some in Hf as (Hi & -> & _). exists i. split; [f_equal; lia | done].
  - apply list_find_None in Hf. rewrite Forall_forall in Hf. by destruct (Hf k Hk).
Qed.

Lemma Pos_not_in {E} set k : k ∉ set -> @Pos E set (Some k) = Ok (-1).
Proof.
  intros Hk. unfold Pos. rewrite Pos_from_Some.
  destruct (list_find (fun v => v = k) set) as [[i v]|] eqn:Hf; [|done].
  apply list_find_Some in Hf as (Hi & -> & _).
  destruct Hk. by apply list_elem_of_lookup_2 in Hi.
Qed.

Lemma Pos_neg_iff {E} set k p : @Pos E set (Some k) = Ok p -> (p < 0 <-> k ∉ set).
Proof.
  intros H. destruct (decide (k ∈ set)) as [Hk|Hk].
  - destruct (@Pos_in E _ _ Hk) as (i & Hi & _). rewrite Hi in H. injection H as <-.
    split; [lia | done].
  - rewrite (Pos_not_in _ _ Hk) in H. injection H as <-. split; [done | lia].
Qed.

Lemma Add_in {E} set k : k ∈ set -> @Add E set (Some k) = Ok set.
Proof.
  intros Hk. unfold Add. destruct (@Pos_in E _ _ Hk) as (i & -> & _). simpl.
  destruct (Z.ltb_spec (Z.of_nat i) 0); [lia | done].
Qed.

Lemma Add_not_in {E} set k : k ∉ set -> @Add E set (Some k) = Ok (set ++ [k]).
Proof. intros Hk. unfold Add. by rewrite Pos_not_in. Qed.

(** Removing by position swaps in the last element and cuts it off. *)
Lemma Remove_eq {E} (l : PublicKeySet) x i k :
  (l ++ [x]) !! i = Some k ->
  @Remove E (l ++ [x]) (Z.of_nat i) = Ok (take (length l) (<[i:=x]> (l ++ [k]))).
Proof.
  intros Hi. pose proof (lookup_lt_Some _ _ _ Hi) as Hlt.
  rewrite length_app in Hlt. simpl in Hlt.
  assert (len (l ++ [x]) = len l + 1) as Hl by (by rewrite len_app).
  unfold Remove. rewrite Hl. replace (len l + 1 - 1) with (len l) by lia.
  replace ((Z.of_nat i <? 0) || (len l + 1 <=? Z.of_nat i)) with false by (unfold len in *; lia).
  assert (@idx E _ (l ++ [x]) (Z.of_nat i) = Ok k) as ->
    by (apply idx_Ok; rewrite Nat2Z.id; split; [lia | done]).
  assert (@idx E _ (l ++ [x]) (len l) = Ok x) as ->.
  { apply idx_Ok. unfold len. rewrite Nat2Z.id. split; [lia|].
    by rewrite lookup_app_r, Nat.sub_diag by lia. }
  cbn [mbind res_bind]. rewrite set_idx_Ok by (unfold len in *; lia).
  cbn [mbind res_bind]. rewrite set_idx_Ok by (rewrite len_insert; unfold len in *; lia).
  cbn [mbind res_bind]. apply slice_Ok. rewrite !len_insert, Hl.
  split_and!; [unfold len; lia..|]. rewrite drop_0, Nat2Z.id. f_equal; [unfold len; lia|].
  f_equal. unfold len. by rewrite Nat2Z.id, insert_app_r_alt, Nat.sub_diag by lia.
Qed.

(** Removing by position takes the element out, up to the order of the set. *)
Lemma Remove_perm {E} (set : PublicKeySet) i k :
  set !! i = Some k ->
  exists set', @Remove E set (Z.of_nat i) = Ok set' /\ Permutation (k :: set') set.
Proof.
  destruct set as [|x l _] using rev_ind; [done|]. intros Hi.
  eexists. split; [by apply Remove_eq|].
  pose proof (lookup_lt_Some _ _ _ Hi) as Hlt. rewrite length_app in Hlt. simpl in Hlt.
  destruct (decide (i = length l)) as [->|Hne].
  - rewrite lookup_app_r, Nat.sub_diag in Hi by lia. injection Hi as ->.
    rewrite insert_app_r_alt, Nat.sub_diag, take_app_length by lia.
    apply Permutation_cons_append.
  - rewrite lookup_app_l in Hi by lia. rewrite insert_app_l by lia.
    rewrite take_app_length' by (by rewrite length_insert).
    rewrite insert_take_drop by lia.
    rewrite <- (take_drop_middle l i k Hi) at 3. rewrite <- app_assoc. simpl.
    rewrite Permutation_middle. apply Permutation_app_head.
    constructor. apply Permutation_cons_append.
Qed.

(** Adding a fresh key and removing it again gives the set back. *)
Lemma Remove_after_Add {E} set k :
  k ∉ set ->
  exists set1 set2 p, @Add E set (Some k) = Ok set1 /\ @Pos E set1 (Some k) = Ok p /\
    @Remove E set1 p = Ok set2 /\ Permutation set2 set.
Proof.
  intros Hk. exists (set ++ [k]).
  destruct (@Pos_in E (set ++ [k]) k) as (i & Hp & Hi); [set_solver|].
  destruct (@Remove_perm E _ _ _ Hi) as (set2 & Hr & Hperm).
  exists set2, (Z.of_nat i). split_and!; try done; [by apply Add_not_in|].
  apply Permutation_cons_inv with k. rewrite Hperm. symmetry. apply Permutation_cons_append.
Qed.

Lemma all_in_spec set v : all_in set v = true <-> v ⊆ set.
Proof.
  induction v as [|k v IH]; simpl; [set_solver|].
  rewrite andb_true_iff, IH, existsb_exists. split.
  - intros [(x & Hx & He%IsEqual_eq) H]. subst. apply list_elem_of_In in Hx. set_solver.
  - intros H. split; [|set_solver]. exists k. split; [|by apply IsEqual_eq].
    apply list_elem_of_In. set_solver.
Qed.

Lemma Equal_perm set v :
  NoDup v -> Equal (Some set) (Some v) = true <-> Permutation set v.
Proof.
  intros Hv. simpl. destruct (len set =? len v) eqn:Hl; simpl.
  - rewrite all_in_spec. split; [|intros ->; done].
    intros Hsub. symmetry. apply submseteq_length_Permutation.
    + by apply NoDup_submseteq.
    + unfold len in Hl. lia.
  - split; [done|]. intros Hp. apply Permutation_length in Hp. unfold len in Hl. lia.
Qed.

End btcec.
