(* ===== verification/SecpPrime.v ===== *)
(** The field prime of secp256k1 is prime, and square roots modulo it.

    [decompressPoint] of [src/btcec/pubkey.go] recovers a point from its x
    coordinate and the parity of y by raising to [(P+1)/4].  That this returns
    the point a key was built from rests on [P] being prime: this file proves
    it with Pocklington certificates (checked by modular exponentiation on
    [bigN]) and derives the square root fact. *)
From Bignums Require Import BigN.
From Stdlib Require Import ZArith Znumtheory Zdivisibility Zpow_facts ZmodInv.
From S2P Require Import Prelude PubKey.
#[local] Open Scope Z_scope.

Module SecpPrime.

(** * Modular exponentiation on machine words *)
Fixpoint bpow_pos (b : BigN.t) (e : positive) (n : BigN.t) : BigN.t :=
  match e with
  | xH => BigN.modulo b n
  | xO e => let r := bpow_pos b e n in BigN.modulo (BigN.mul r r) n
  | xI e => let r := bpow_pos b e n in
            BigN.modulo (BigN.mul (BigN.modulo (BigN.mul r r) n) b) n
  end.

(** [powmodZ b e n] computes [b ^ e mod n] for positive arguments. *)
Definition powmodZ (b e n : Z) : Z :=
  BigN.to_Z (bpow_pos (BigN.of_N (Z.to_N b)) (Z.to_pos e) (BigN.of_N (Z.to_N n))).

Lemma bpow_pos_spec b e n :
  0 < BigN.to_Z n ->
  BigN.to_Z (bpow_pos b e n) = BigN.to_Z b ^ Zpos e mod BigN.to_Z n.
Proof.
  intros Hn. induction e as [e IH|e IH|]; simpl bpow_pos.
  - rewrite !BigN.spec_modulo, !BigN.spec_mul, !BigN.spec_modulo, !BigN.spec_mul, IH.
    rewrite Z.mul_mod_idemp_l by lia.
    replace (Zpos (xI e)) with (Zpos e + Zpos e + 1) by lia.
    rewrite !Z.pow_add_r, Z.pow_1_r by lia.
    rewrite (Z.mul_mod (_ * _)) by lia. rewrite (Z.mul_mod (_ ^ _ * _ ^ _)) by lia.
    rewrite <- (Z.mul_mod (_ ^ _)) by lia. done.
  - rewrite !BigN.spec_modulo, !BigN.spec_mul, IH.
    replace (Zpos (xO e)) with (Zpos e + Zpos e) by lia.
    rewrite Z.pow_add_r by lia. by rewrite <- Z.mul_mod by lia.
  - by rewrite BigN.spec_modulo, Z.pow_1_r.
Qed.

Lemma powmodZ_spec b e n : 0 <= b -> 0 < e -> 0 < n -> powmodZ b e n = b ^ e mod n.
Proof.
  intros Hb He Hn. unfold powmodZ.
  assert (forall z, 0 <= z -> BigN.to_Z (BigN.of_N (Z.to_N z)) = z) as Hz.
  { intros z H. rewrite BigN.spec_of_N. by apply Z2N.id. }
  rewrite bpow_pos_spec; rewrite !Hz by lia; [|done]. by rewrite Z2Pos.id.
Qed.

(** * Pocklington's criterion *)

Lemma pow_mod_1 a k m : 1 < m -> 0 <= k -> a mod m = 1 -> a ^ k mod m = 1.
Proof. intros Hm Hk Ha. rewrite <- Z.mod_pow_l, Ha, Z.pow_1_l by lia. by apply Z.mod_1_l. Qed.

Lemma divides_mod r n x : 0 < r -> 0 < n -> (r | n) -> x mod n = 1 -> 1 < r -> x mod r = 1.
Proof.
  intros Hr Hn Hd Hx H1. rewrite (Zmod_div_mod r n x) by done. rewrite Hx. by apply Z.mod_1_l.
Qed.

(** If [a] has order a multiple of the prime [q] modulo every prime divisor
    of [n], then [q] divides [r - 1] for each such divisor [r]. *)
Lemma pocklington_divisor n q a r :
  1 < n -> Z.prime q -> (q | n - 1) ->
  a ^ (n - 1) mod n = 1 -> Z.gcd (a ^ ((n - 1) / q) - 1) n = 1 ->
  Z.prime r -> (r | n) -> (q | r - 1).
Proof.
  intros Hn Hq [k Hk] Ha Hg Hr Hrn.
  pose proof (Z.prime_ge_2 q Hq). pose proof (Z.prime_ge_2 r Hr).
  assert (0 < k) by nia.
  rewrite Hk, Z.div_mul in Hg by lia.
  destruct (Znumtheory.Zdivide_dec q (r - 1)) as [|Hnd]; [done|]. exfalso.
  assert (Z.coprime q (r - 1)) as Hc by (by apply Z.coprime_prime_l).
  apply Z.Bezout_coprime in Hc. destruct Hc as (u & v & Huv).
  assert (a ^ (n - 1) mod r = 1) as Har by (eapply (divides_mod r n); eauto; lia).
  assert (a mod r <> 0) as Hanz.
  { intros Ha0. rewrite <- Z.mod_pow_l, Ha0, Z.pow_0_l, Z.mod_0_l in Har; lia. }
  pose proof (Z.fermat_nz r a Hr Hanz) as Hf.
  (* a non-negative exponent congruent to 1 modulo r - 1 and divisible by q *)
  set (w := (Z.abs u + 1) * (r - 1)). set (u' := u + w).
  assert (1 <= u') by (subst u' w; nia).
  assert (q * u' = 1 + (r - 1) * (q * (Z.abs u + 1) - v)) as He by (subst u' w; nia).
  assert (1 <= q * u') by nia.
  assert (0 <= q * (Z.abs u + 1) - v) by (apply (Z.mul_nonneg_cancel_l (r - 1)); lia).
  clearbody u'. clear Huv w.
  assert (a ^ k mod r = 1) as Hak.
  { assert (a ^ (k * (q * u')) mod r = 1) as Hk1.
    { replace (k * (q * u')) with ((n - 1) * u') by nia.
      rewrite Z.pow_mul_r by lia. apply pow_mod_1; [lia..|done]. }
    rewrite He in Hk1.
    replace (k * (1 + (r - 1) * (q * (Z.abs u + 1) - v)))
      with (k + (r - 1) * ((q * (Z.abs u + 1) - v) * k)) in Hk1 by ring.
    assert (0 <= (q * (Z.abs u + 1) - v) * k) as Hx by (apply Z.mul_nonneg_nonneg; lia).
    assert (0 <= (r - 1) * ((q * (Z.abs u + 1) - v) * k)) by (apply Z.mul_nonneg_nonneg; lia).
    rewrite Z.pow_add_r, Z.pow_mul_r, Z.mul_mod, (pow_mod_1 (a ^ (r - 1))) in Hk1 by (done || lia).
    by rewrite Z.mul_1_r, Z.mod_mod in Hk1 by lia. }
  assert (r | a ^ k - 1) as Hd.
  { apply Z.mod_divide; [lia|]. rewrite Zminus_mod, Hak, (Z.mod_small 1) by lia. done. }
  assert (r | 1) as Hr1 by (rewrite <- Hg; by apply Z.gcd_greatest).
  apply Z.divide_pos_le in Hr1; lia.
Qed.

Lemma prime_divisor m : 1 < m -> exists r, Z.prime r /\ (r | m).
Proof.
  intros Hm. assert (0 <= m) as Hm0 by lia. revert Hm.
  pattern m. refine (Z_lt_induction _ _ m Hm0). clear m Hm0. intros m IH Hm.
  destruct (Znumtheory.prime_dec m) as [Hp|Hp].
  - exists m. split; [by apply Znumtheory.prime_alt | apply Z.divide_refl].
  - destruct (Znumtheory.not_prime_divide m Hm Hp) as (d & Hd & Hdm).
    destruct (IH d) as (r & Hr & Hrd); [lia..|]. exists r. split; [done|].
    by apply Z.divide_trans with d.
Qed.

(** A composite number has a prime divisor at most its square root. *)
Lemma small_prime_divisor n :
  1 < n -> ~ Z.prime n -> exists r, Z.prime r /\ (r | n) /\ r * r <= n.
Proof.
  intros Hn Hnp. rewrite Znumtheory.prime_alt in Hnp.
  destruct (Znumtheory.not_prime_divide n Hn Hnp) as (d & Hd & [e He]).
  assert (exists f, 1 < f /\ (f | n) /\ f * f <= n) as (f & Hf & Hfn & Hff).
  { destruct (Z_le_gt_dec d e).
    - exists d. split_and!; [lia | by exists e | nia].
    - exists e. split_and!; [nia | exists d; lia | nia]. }
  destruct (prime_divisor f Hf) as (r & Hr & Hrf). exists r. split_and!; [done | |].
  - by apply Z.divide_trans with f.
  - apply Z.divide_pos_le in Hrf; [|lia]. pose proof (Z.prime_ge_2 r Hr). nia.
Qed.

(** [pocklington] with one prime factor [q] of [n - 1] above the square root. *)
Lemma pocklington n q a :
  1 < n -> Z.prime q -> (q | n - 1) -> n < q * q ->
  a ^ (n - 1) mod n = 1 -> Z.gcd (a ^ ((n - 1) / q) - 1) n = 1 -> Z.prime n.
Proof.
  intros Hn Hq Hd Hlt Ha Hg.
  destruct (Znumtheory.prime_dec n) as [Hp|Hp]; [by apply Znumtheory.prime_alt|].
  rewrite <- Znumtheory.prime_alt in Hp.
  destruct (small_prime_divisor n Hn Hp) as (r & Hr & Hrn & Hrr). exfalso.
  pose proof (Z.prime_ge_2 r Hr).
  assert (q | r - 1) as Hqr by (by eapply pocklington_divisor).
  apply Z.divide_pos_le in Hqr; [|lia]. pose proof (Z.prime_ge_2 q Hq).
  pose proof (Z.mul_le_mono_nonneg q (r - 1) q (r - 1)). lia.
Qed.

(** The hypotheses of [pocklington] on [bigN]: [a ^ ((n-1)/q) - 1] may be
    reduced modulo [n] before taking the gcd. *)
Definition certificate (n q a : Z) : bool :=
  (powmodZ a (n - 1) n =? 1) && ((n - 1) mod q =? 0) &&
  (Z.gcd (powmodZ a ((n - 1) / q) n - 1) n =? 1).

Lemma gcd_mod_sub x n : 0 < n -> Z.gcd (x - 1) n = Z.gcd (x mod n - 1) n.
Proof.
  intros Hn. rewrite (Z.gcd_comm (x - 1)), (Z.gcd_comm (x mod n - 1)).
  rewrite <- (Z.gcd_mod (x - 1) n), <- (Z.gcd_mod (x mod n - 1) n) by lia.
  by rewrite Zminus_mod_idemp_l.
Qed.

Lemma certificate_spec n q a :
  0 <= a -> 1 < q < n -> certificate n q a = true ->
  (q | n - 1) /\ a ^ (n - 1) mod n = 1 /\ Z.gcd (a ^ ((n - 1) / q) - 1) n = 1.
Proof.
  intros Ha Hq Hc. unfold certificate in Hc.
  apply andb_true_iff in Hc as [[H1 H2]%andb_true_iff H3].
  apply Z.eqb_eq in H2. apply Z.mod_divide in H2; [|lia].
  assert (0 < (n - 1) / q) by (apply Z.div_str_pos; lia).
  rewrite powmodZ_spec in H1, H3 by lia.
  split_and!; [done | lia |].
  apply Z.eqb_eq in H3. etransitivity; [|exact H3].
  apply gcd_mod_sub. lia.
Qed.

(** * Primality of the field prime *)

(** Trial division, for the small primes at the end of the chain. *)
Fixpoint trial_loop (fuel : nat) (n d : Z) : bool :=
  match fuel with
  | O => true
  | S fuel => if n mod d =? 0 then false else trial_loop fuel n (d + 1)
  end.

Definition trial (n : Z) : bool := trial_loop (Z.to_nat (Z.sqrt n)) n 2.

Lemma trial_loop_spec fuel n d r :
  trial_loop fuel n d = true -> d <= r < d + Z.of_nat fuel -> n mod r <> 0.
Proof.
  revert d. induction fuel as [|fuel IH]; intros d H Hr; [lia|]. cbn [trial_loop] in H.
  destruct (Z.eqb_spec (n mod d) 0); [done|].
  destruct (decide (r = d)) as [->|]; [done|]. apply (IH (d + 1)); [done | lia].
Qed.

Lemma trial_prime n : 1 < n -> trial n = true -> Z.prime n.
Proof.
  intros Hn Ht. destruct (Znumtheory.prime_dec n) as [Hp|Hp]; [by apply Znumtheory.prime_alt|].
  rewrite <- Znumtheory.prime_alt in Hp. exfalso.
  destruct (small_prime_divisor n Hn Hp) as (r & Hr & Hrn & Hrr).
  pose proof (Z.prime_ge_2 r Hr).
  assert (r <= Z.sqrt n) by (apply Z.sqrt_le_square; lia).
  apply (trial_loop_spec _ _ _ r Ht); [lia|]. by apply Z.mod_divide; [lia|].
Qed.

Definition q2 : Z := 255515944373312847190720520512484175977.
Definition q1 : Z := 205115282021455665897114700593932402728804164701536103180137503955397371.


Lemma lcm_divide a b c : Z.lcm a b = a * b -> (a | c) -> (b | c) -> (a * b | c).
Proof. intros <-. apply Z.lcm_least. Qed.

(** [q2 - 1] is smooth: three of its prime factors exceed the square root of
    [q2] together. *)
Lemma q2_prime : Z.prime q2.
Proof.
  destruct (Znumtheory.prime_dec q2) as [Hp|Hp]; [by apply Znumtheory.prime_alt|].
  rewrite <- Znumtheory.prime_alt in Hp. exfalso.
  destruct (small_prime_divisor q2) as (r & Hr & Hrn & Hrr); [done..|].
  pose proof (Z.prime_ge_2 r Hr).
  assert (forall q, 1 < q < q2 -> trial q = true -> certificate q2 q 2 = true -> (q | r - 1)) as Hdiv.
  { intros q Hq Ht Hc. apply certificate_spec in Hc as (? & ? & ?); [|lia..].
    apply (pocklington_divisor q2 q 2 r); [done | | assumption..].
    apply trial_prime; [lia | done]. }
  assert (107590001 | r - 1) as H1 by (apply Hdiv; [done | vm_compute; reflexivity..]).
  assert (7240687 | r - 1) as H2 by (apply Hdiv; [done | vm_compute; reflexivity..]).
  assert (96557 | r - 1) as H3 by (apply Hdiv; [done | vm_compute; reflexivity..]).
  assert (107590001 * 7240687 | r - 1) as H12
    by (by apply lcm_divide).
  assert (107590001 * 7240687 * 96557 | r - 1) as H123
    by (by apply lcm_divide).
  apply Z.divide_pos_le in H123; [|lia].
  assert (forall F, 0 <= F <= r - 1 -> F * F <= r * r) as Hsq by (clear; intros; nia).
  specialize (Hsq _ (conj (ltac:(done) : 0 <= 107590001 * 7240687 * 96557) H123)).
  assert (q2 < 107590001 * 7240687 * 96557 * (107590001 * 7240687 * 96557)) by done. lia.
Qed.

Lemma certificate_prime n q a :
  0 <= a -> 1 < q < n -> n < q * q -> Z.prime q -> certificate n q a = true -> Z.prime n.
Proof.
  intros Ha Hq Hlt Hp Hc. apply certificate_spec in Hc as (? & ? & ?); [|done..].
  apply (pocklington n q a); try done. lia.
Qed.

Lemma q1_prime : Z.prime q1.
Proof. apply (certificate_prime q1 q2 2); [done..|apply q2_prime | vm_compute; reflexivity]. Qed.

Lemma P_prime : Z.prime btcec.P.
Proof. apply (certificate_prime btcec.P q1 2); [done..|apply q1_prime | vm_compute; reflexivity]. Qed.

(** * Square roots modulo the field prime *)

(** Fermat's little theorem in the form [y ^ P = y], with no exception at 0. *)
Lemma fermat_P y : y ^ btcec.P mod btcec.P = y mod btcec.P.
Proof. apply Z.fermat, P_prime. Qed.

Lemma square_mod_cases a b :
  0 <= a < btcec.P -> 0 <= b < btcec.P -> (a * a) mod btcec.P = (b * b) mod btcec.P ->
  a = b \/ a = btcec.P - b.
Proof.
  intros Ha Hb H.
  assert (btcec.P | (a - b) * (a + b)) as Hd.
  { apply Z.mod_divide; [done|]. replace ((a - b) * (a + b)) with (a * a - b * b) by ring.
    rewrite Zminus_mod, H, Z.sub_diag. done. }
  apply Z.divide_prime_mul in Hd as [[k Hk]|[k Hk]]; [| |apply P_prime];
    remember btcec.P as p; clear Heqp H.
  - assert (k = 0) as -> by (clear - Ha Hb Hk; nia). lia.
  - assert (k = 0 \/ k = 1) as [->| ->] by (clear - Ha Hb Hk; nia); lia.
Qed.

(** The exponent [(P+1)/4] computes a square root of every square. *)
Lemma sqrt_mod y v :
  0 <= y < btcec.P -> (y * y) mod btcec.P = v mod btcec.P ->
  let r := v ^ btcec.QPlus1Div4 mod btcec.P in r = y \/ r = btcec.P - y.
Proof.
  intros Hy Hv r. apply square_mod_cases; [by apply Z.mod_pos_bound | done |].
  subst r.
  assert (exists q, q = btcec.QPlus1Div4 /\ 0 <= q /\ 2 * (q + q) = btcec.P + 1)
    as (q & <- & Hq & H2q) by (by eexists).
  rewrite <- Z.mul_mod, <- Z.pow_add_r by (done || lia).
  rewrite <- Z.mod_pow_l, <- Hv, Z.mod_pow_l, <- Z.pow_2_r, <- Z.pow_mul_r, H2q by lia.
  rewrite Z.pow_add_r, Z.mul_mod, fermat_P, <- Z.mul_mod by done. by f_equal.
Qed.

Lemma isOdd_sub_P y : btcec.isOdd (btcec.P - y) = negb (btcec.isOdd y).
Proof.
  unfold btcec.isOdd. rewrite !Z.bit0_odd, Z.odd_sub.
  change (Z.odd btcec.P) with true. by destruct (Z.odd y).
Qed.

(** Decompression finds the point again from x and the parity of y. *)
Lemma decompressPoint_on_curve x y :
  0 <= y < btcec.P -> btcec.IsOnCurve x y = true ->
  btcec.decompressPoint x (btcec.isOdd y) = Ok y.
Proof.
  intros Hy Hc. unfold btcec.IsOnCurve in Hc. apply Z.eqb_eq in Hc.
  pose proof (sqrt_mod y _ Hy Hc) as Hr. cbv zeta in Hr.
  unfold btcec.decompressPoint. rewrite Zpow_mod_correct by done.
  change btcec.B with 7. set (r := _ ^ _ mod _) in *. clearbody r.
  destruct Hr as [->|Hr].
  - rewrite Bool.eqb_reflx. cbn [negb]. by rewrite Bool.eqb_reflx.
  - rewrite Hr, isOdd_sub_P. replace (Bool.eqb _ (negb _)) with false by (by destruct btcec.isOdd).
    cbn [negb]. replace (btcec.P - (btcec.P - y)) with y by ring. by rewrite Bool.eqb_reflx.
Qed.

(** A key on the curve, with reduced coordinates. *)
Definition valid_key (k : btcec.PublicKey) : Prop :=
  0 <= btcec.X k < btcec.P /\ 0 <= btcec.Y k < btcec.P /\
  btcec.IsOnCurve (btcec.X k) (btcec.Y k) = true.

(** Parsing the compressed serialization of a valid key gives it back. *)
Lemma SerializeCompressed_parse k :
  valid_key k -> btcec.ParsePubKey (btcec.SerializeCompressed k) = Ok k.
Proof.
  intros (Hx & Hy & Hc). pose proof btcec.P_bound.
  rewrite btcec.SerializeCompressed_eq by lia.
  set (f := if btcec.isOdd (btcec.Y k) then 3 else 2). set (s := f :: be_encode 32 (btcec.X k)).
  assert (len s = 33) as Hl by (unfold len, s; cbn [length]; by rewrite length_be_encode).
  unfold btcec.ParsePubKey. rewrite Hl. change (idx s 0) with (@Ok string Z f).
  change (33 =? 0) with false. cbn [mbind res_bind].
  change (33 =? btcec.PubKeyBytesLenUncompressed) with false.
  change (33 =? btcec.PubKeyBytesLenCompressed) with true. cbv iota.
  assert (slice s 1 33 = @Ok string _ (be_encode 32 (btcec.X k))) as ->.
  { apply slice_Ok. rewrite Hl. split_and!; [lia..|].
    unfold s. change (Z.to_nat 1) with 1%nat. cbn [drop]. symmetry. apply take_ge. rewrite length_be_encode. simpl; lia. }
  cbn [mbind res_bind]. rewrite be_decode_encode, Z.mod_small
    by (change (256 ^ Z.of_nat 32) with (2 ^ 256); lia).
  assert (Z.land f 0xfe =? btcec.pubkeyCompressed = true /\
          (Z.land f 1 =? 1) = btcec.isOdd (btcec.Y k)) as [-> ->]
    by (unfold f; by destruct (btcec.isOdd (btcec.Y k))).
  cbn [negb]. rewrite decompressPoint_on_curve by done. cbn [mbind res_bind].
  apply btcec.checkPoint_Ok. split_and!; [by destruct k | lia | lia | done].
Qed.

Lemma be_decode_range l : bytes_ok l -> length l = 32%nat -> 0 <= be_decode l < 2 ^ 256.
Proof.
  intros Hok Hl. unfold be_decode.
  pose proof (le_decode_range (reverse l) (proj2 (Forall_reverse _ _) Hok)) as H.
  rewrite len_reverse in H. unfold len in H. rewrite Hl in H. exact H.
Qed.

(** An accepted uncompressed key is the valid point its bytes spell out. *)
Lemma ParsePubKey_uncompressed_inv xb yb k :
  bytes_ok xb -> bytes_ok yb -> length xb = 32%nat -> length yb = 32%nat ->
  btcec.ParsePubKey (4 :: xb ++ yb) = Ok k ->
  k = btcec.mkPublicKey (be_decode xb) (be_decode yb) /\ valid_key k.
Proof.
  intros Hxok Hyok Hx Hy H. unfold btcec.ParsePubKey in H.
  assert (len (4 :: xb ++ yb) = 65) as Hl
    by (rewrite len_cons, len_app; unfold len; by rewrite Hx, Hy).
  rewrite Hl in H. change (idx (4 :: xb ++ yb) 0) with (@Ok string Z 4) in H.
  change (65 =? 0) with false in H. cbn [mbind res_bind] in H.
  change (65 =? btcec.PubKeyBytesLenUncompressed) with true in H.
  change (negb (Z.land 4 0xfe =? btcec.pubkeyUncompressed)) with false in H.
  change (Z.land 4 0xfe =? btcec.pubkeyHybrid) with false in H. cbn [andb] in H.
  assert (slice (4 :: xb ++ yb) 1 33 = @Ok string bytes xb) as Hs1.
  { apply slice_Ok. rewrite Hl. split_and!; [lia..|].
    change (Z.to_nat 1) with 1%nat. cbn [drop]. by rewrite drop_0, take_app_length' by lia. }
  assert (slice (4 :: xb ++ yb) 33 65 = @Ok string bytes yb) as Hs2.
  { apply slice_Ok. rewrite Hl. split_and!; [lia..|].
    change (Z.to_nat 33) with 33%nat. cbn [drop].
    by rewrite drop_app_length', take_ge by lia. }
  rewrite Hs1, Hs2 in H. cbn [mbind res_bind] in H.
  apply btcec.checkPoint_Ok in H as (-> & ? & ? & ?). split; [done|].
  pose proof (be_decode_range xb Hxok Hx). pose proof (be_decode_range yb Hyok Hy).
  split_and!; simpl; lia || done.
Qed.

Lemma SerializeUncompressed_eq k :
  valid_key k ->
  btcec.SerializeUncompressed k = 4 :: be_encode 32 (btcec.X k) ++ be_encode 32 (btcec.Y k).
Proof.
  intros (Hx & Hy & _). pose proof btcec.P_bound.
  unfold btcec.SerializeUncompressed, btcec.paddedAppend.
  rewrite !btcec.padded_bigBytes by lia. done.
Qed.

(** The parity of a number is that of its last byte. *)
Lemma isOdd_last_byte yb :
  length yb = 32%nat -> btcec.isOdd (be_decode yb) = (default 0 (yb !! 31%nat) mod 2 =? 1).
Proof.
  intros Hl. destruct yb as [|z yb _] using rev_ind; [done|].
  rewrite length_app in Hl. simpl in Hl. unfold be_decode. rewrite reverse_snoc. simpl le_decode.
  rewrite lookup_app_r by lia. replace (31 - length yb)%nat with 0%nat by lia. simpl default.
  unfold btcec.isOdd. rewrite Z.bit0_odd, Z.odd_add, Z.odd_mul, andb_false_l, xorb_false_r.
  rewrite Zmod_odd. by destruct (Z.odd z).
Qed.

(** The base point of the curve, as an example of a valid key. *)
Definition example_key : btcec.PublicKey :=
  btcec.mkPublicKey 0x79BE667EF9DCBBAC55A06295CE870B07029BFCDB2DCE28D959F2815B16F81798
                    0x483ADA7726A3C4655DA4FBFC0E1108A8FD17B448A68554199C47D08FFB10D4B8.

Lemma valid_example_key : valid_key example_key.
Proof. unfold valid_key. split_and!; vm_compute; try reflexivity; discriminate. Qed.

End SecpPrime.
