(* ===== verification/Field.v ===== *)
(** Field arithmetic modulo the prime of the curve: [src/btcec/field.go].

    A value is ten words of 26 bits with room for carries.  The words are uint32
    and wrap; the products are computed in uint64.  A sum of uint64 is written
    with one wrap around the whole sum. *)
From S2P Require Import Prelude PubKey.
#[local] Open Scope Z_scope.

Module Field.

Definition twoBitsMask : Z := 0x3.
Definition fourBitsMask : Z := 0xf.
Definition sixBitsMask : Z := 0x3f.
Definition eightBitsMask : Z := 0xff.
Definition fieldBase : Z := 26.
Definition fieldBaseMask : Z := (1 ≪ fieldBase) - 1.
Definition fieldMSBBits : Z := 256 - fieldBase * (10 - 1).
Definition fieldMSBMask : Z := (1 ≪ fieldMSBBits) - 1.
Definition fieldPrimeWordZero : Z := 0x3fffc2f.
Definition fieldPrimeWordOne : Z := 0x3ffffbf.
Definition primeLowBits : Z := 0xffffefffffc2f.

Record fieldVal := mkField { n0 : Z; n1 : Z; n2 : Z; n3 : Z; n4 : Z; n5 : Z; n6 : Z; n7 : Z; n8 : Z; n9 : Z }.

#[global] Instance fieldVal_eq_dec : EqDecision fieldVal.
Proof. solve_decision. Defined.

Definition Zero : fieldVal := mkField 0 0 0 0 0 0 0 0 0 0.
Definition SetInt (ui : Z) : fieldVal := mkField (u32 ui) 0 0 0 0 0 0 0 0 0.

(** * Bytes *)

(** The elements of a [32]byte. *)
Definition elt (b : bytes) (i : nat) : Z := default 0 (b !! i).

Definition SetBytes (b : bytes) : fieldVal :=
  mkField
    (Z.lor (Z.lor (Z.lor (elt b 31) (u32 (elt b 30 ≪ 8))) (u32 (elt b 29 ≪ 16))) (u32 (Z.land (elt b 28) twoBitsMask ≪ 24)))
    (Z.lor (Z.lor (Z.lor (elt b 28 ≫ 2) (u32 (elt b 27 ≪ 6))) (u32 (elt b 26 ≪ 14))) (u32 (Z.land (elt b 25) fourBitsMask ≪ 22)))
    (Z.lor (Z.lor (Z.lor (elt b 25 ≫ 4) (u32 (elt b 24 ≪ 4))) (u32 (elt b 23 ≪ 12))) (u32 (Z.land (elt b 22) sixBitsMask ≪ 20)))
    (Z.lor (Z.lor (Z.lor (elt b 22 ≫ 6) (u32 (elt b 21 ≪ 2))) (u32 (elt b 20 ≪ 10))) (u32 (elt b 19 ≪ 18)))
    (Z.lor (Z.lor (Z.lor (elt b 18) (u32 (elt b 17 ≪ 8))) (u32 (elt b 16 ≪ 16))) (u32 (Z.land (elt b 15) twoBitsMask ≪ 24)))
    (Z.lor (Z.lor (Z.lor (elt b 15 ≫ 2) (u32 (elt b 14 ≪ 6))) (u32 (elt b 13 ≪ 14))) (u32 (Z.land (elt b 12) fourBitsMask ≪ 22)))
    (Z.lor (Z.lor (Z.lor (elt b 12 ≫ 4) (u32 (elt b 11 ≪ 4))) (u32 (elt b 10 ≪ 12))) (u32 (Z.land (elt b 9) sixBitsMask ≪ 20)))
    (Z.lor (Z.lor (Z.lor (elt b 9 ≫ 6) (u32 (elt b 8 ≪ 2))) (u32 (elt b 7 ≪ 10))) (u32 (elt b 6 ≪ 18)))
    (Z.lor (Z.lor (Z.lor (elt b 5) (u32 (elt b 4 ≪ 8))) (u32 (elt b 3 ≪ 16))) (u32 (Z.land (elt b 2) twoBitsMask ≪ 24)))
    (Z.lor (Z.lor (elt b 2 ≫ 2) (u32 (elt b 1 ≪ 6))) (u32 (elt b 0 ≪ 14))).

Fixpoint fill_slice (b : bytes) (i : Z) (n : Z) (b32 : bytes) : res string bytes :=
  match b with
  | [] => Ok b32
  | x :: rest =>
      b32 ← (if i <? 32 then set_idx b32 (i + (32 - n)) x else Ok b32);
      fill_slice rest (i + 1) n b32
  end.

(** A slice of more than 32 bytes indexes the array out of range. *)
Definition SetByteSlice (b : bytes) : res string fieldVal :=
  b32 ← fill_slice b 0 (len b) (replicate 32 0);
  Ok (SetBytes b32).

Definition PutBytes (f : fieldVal) : bytes :=
  [u8 (Z.land (n9 f ≫ 14) eightBitsMask);
   u8 (Z.land (n9 f ≫ 6) eightBitsMask);
   u8 (Z.lor (Z.land (n8 f ≫ 24) twoBitsMask) (u32 (Z.land (n9 f) sixBitsMask ≪ 2)));
   u8 (Z.land (n8 f ≫ 16) eightBitsMask);
   u8 (Z.land (n8 f ≫ 8) eightBitsMask);
   u8 (Z.land (n8 f) eightBitsMask);
   u8 (Z.land (n7 f ≫ 18) eightBitsMask);
   u8 (Z.land (n7 f ≫ 10) eightBitsMask);
   u8 (Z.land (n7 f ≫ 2) eightBitsMask);
   u8 (Z.lor (Z.land (n6 f ≫ 20) sixBitsMask) (u32 (Z.land (n7 f) twoBitsMask ≪ 6)));
   u8 (Z.land (n6 f ≫ 12) eightBitsMask);
   u8 (Z.land (n6 f ≫ 4) eightBitsMask);
   u8 (Z.lor (Z.land (n5 f ≫ 22) fourBitsMask) (u32 (Z.land (n6 f) fourBitsMask ≪ 4)));
   u8 (Z.land (n5 f ≫ 14) eightBitsMask);
   u8 (Z.land (n5 f ≫ 6) eightBitsMask);
   u8 (Z.lor (Z.land (n4 f ≫ 24) twoBitsMask) (u32 (Z.land (n5 f) sixBitsMask ≪ 2)));
   u8 (Z.land (n4 f ≫ 16) eightBitsMask);
   u8 (Z.land (n4 f ≫ 8) eightBitsMask);
   u8 (Z.land (n4 f) eightBitsMask);
   u8 (Z.land (n3 f ≫ 18) eightBitsMask);
   u8 (Z.land (n3 f ≫ 10) eightBitsMask);
   u8 (Z.land (n3 f ≫ 2) eightBitsMask);
   u8 (Z.lor (Z.land (n2 f ≫ 20) sixBitsMask) (u32 (Z.land (n3 f) twoBitsMask ≪ 6)));
   u8 (Z.land (n2 f ≫ 12) eightBitsMask);
   u8 (Z.land (n2 f ≫ 4) eightBitsMask);
   u8 (Z.lor (Z.land (n1 f ≫ 22) fourBitsMask) (u32 (Z.land (n2 f) fourBitsMask ≪ 4)));
   u8 (Z.land (n1 f ≫ 14) eightBitsMask);
   u8 (Z.land (n1 f ≫ 6) eightBitsMask);
   u8 (Z.lor (Z.land (n0 f ≫ 24) twoBitsMask) (u32 (Z.land (n1 f) sixBitsMask ≪ 2)));
   u8 (Z.land (n0 f ≫ 16) eightBitsMask);
   u8 (Z.land (n0 f ≫ 8) eightBitsMask);
   u8 (Z.land (n0 f) eightBitsMask)].

(** * Comparing *)
Definition IsZero (f : fieldVal) : bool :=
  let bits := Z.lor (Z.lor (Z.lor (Z.lor (Z.lor (Z.lor (Z.lor (Z.lor (Z.lor (n0 f) (n1 f)) (n2 f)) (n3 f)) (n4 f)) (n5 f)) (n6 f)) (n7 f)) (n8 f)) (n9 f) in
  bits =? 0.

Definition IsOdd (f : fieldVal) : bool := Z.land (n0 f) 1 =? 1.

Definition Equals (f val : fieldVal) : bool :=
  let bits := Z.lor (Z.lor (Z.lor (Z.lor (Z.lor (Z.lor (Z.lor (Z.lor (Z.lor (Z.lxor (n0 f) (n0 val)) (Z.lxor (n1 f) (n1 val))) (Z.lxor (n2 f) (n2 val))) (Z.lxor (n3 f) (n3 val))) (Z.lxor (n4 f) (n4 val))) (Z.lxor (n5 f) (n5 val))) (Z.lxor (n6 f) (n6 val))) (Z.lxor (n7 f) (n7 val))) (Z.lxor (n8 f) (n8 val))) (Z.lxor (n9 f) (n9 val)) in
  bits =? 0.

(** * Addition *)
Definition NegateVal (val : fieldVal) (magnitude : Z) : fieldVal :=
  mkField
    (u32 (u32 (magnitude + 1) * fieldPrimeWordZero - n0 val))
    (u32 (u32 (magnitude + 1) * fieldPrimeWordOne - n1 val))
    (u32 (u32 (magnitude + 1) * fieldBaseMask - n2 val))
    (u32 (u32 (magnitude + 1) * fieldBaseMask - n3 val))
    (u32 (u32 (magnitude + 1) * fieldBaseMask - n4 val))
    (u32 (u32 (magnitude + 1) * fieldBaseMask - n5 val))
    (u32 (u32 (magnitude + 1) * fieldBaseMask - n6 val))
    (u32 (u32 (magnitude + 1) * fieldBaseMask - n7 val))
    (u32 (u32 (magnitude + 1) * fieldBaseMask - n8 val))
    (u32 (u32 (magnitude + 1) * fieldMSBMask - n9 val)).

Definition AddInt (f : fieldVal) (ui : Z) : fieldVal :=
  mkField (u32 (n0 f + u32 ui)) (n1 f) (n2 f) (n3 f) (n4 f) (n5 f) (n6 f) (n7 f) (n8 f) (n9 f).

Definition Add2 (val val2 : fieldVal) : fieldVal :=
  mkField
    (u32 (n0 val + n0 val2))
    (u32 (n1 val + n1 val2))
    (u32 (n2 val + n2 val2))
    (u32 (n3 val + n3 val2))
    (u32 (n4 val + n4 val2))
    (u32 (n5 val + n5 val2))
    (u32 (n6 val + n6 val2))
    (u32 (n7 val + n7 val2))
    (u32 (n8 val + n8 val2))
    (u32 (n9 val + n9 val2)).

Definition Add (f val : fieldVal) : fieldVal := Add2 f val.

Definition MulInt (f : fieldVal) (val : Z) : fieldVal :=
  let ui := u32 val in
  mkField
    (u32 (n0 f * ui))
    (u32 (n1 f * ui))
    (u32 (n2 f * ui))
    (u32 (n3 f * ui))
    (u32 (n4 f * ui))
    (u32 (n5 f * ui))
    (u32 (n6 f * ui))
    (u32 (n7 f * ui))
    (u32 (n8 f * ui))
    (u32 (n9 f * ui)).

(** * Multiplication *)

(** The columns of a product with their carries, in words of 26 bits, and the two
    reductions.  [Mul2] and [SquareVal] have this code with their columns in
    place. *)
Definition reduce (c0 c1 c2 c3 c4 c5 c6 c7 c8 c9 c10 c11 c12 c13 c14 c15 c16 c17 c18 : Z) : fieldVal :=
  let m := u64 c0 in
  let t0 := Z.land m fieldBaseMask in
  let m := u64 ((m ≫ fieldBase) + c1) in
  let t1 := Z.land m fieldBaseMask in
  let m := u64 ((m ≫ fieldBase) + c2) in
  let t2 := Z.land m fieldBaseMask in
  let m := u64 ((m ≫ fieldBase) + c3) in
  let t3 := Z.land m fieldBaseMask in
  let m := u64 ((m ≫ fieldBase) + c4) in
  let t4 := Z.land m fieldBaseMask in
  let m := u64 ((m ≫ fieldBase) + c5) in
  let t5 := Z.land m fieldBaseMask in
  let m := u64 ((m ≫ fieldBase) + c6) in
  let t6 := Z.land m fieldBaseMask in
  let m := u64 ((m ≫ fieldBase) + c7) in
  let t7 := Z.land m fieldBaseMask in
  let m := u64 ((m ≫ fieldBase) + c8) in
  let t8 := Z.land m fieldBaseMask in
  let m := u64 ((m ≫ fieldBase) + c9) in
  let t9 := Z.land m fieldBaseMask in
  let m := u64 ((m ≫ fieldBase) + c10) in
  let t10 := Z.land m fieldBaseMask in
  let m := u64 ((m ≫ fieldBase) + c11) in
  let t11 := Z.land m fieldBaseMask in
  let m := u64 ((m ≫ fieldBase) + c12) in
  let t12 := Z.land m fieldBaseMask in
  let m := u64 ((m ≫ fieldBase) + c13) in
  let t13 := Z.land m fieldBaseMask in
  let m := u64 ((m ≫ fieldBase) + c14) in
  let t14 := Z.land m fieldBaseMask in
  let m := u64 ((m ≫ fieldBase) + c15) in
  let t15 := Z.land m fieldBaseMask in
  let m := u64 ((m ≫ fieldBase) + c16) in
  let t16 := Z.land m fieldBaseMask in
  let m := u64 ((m ≫ fieldBase) + c17) in
  let t17 := Z.land m fieldBaseMask in
  let m := u64 ((m ≫ fieldBase) + c18) in
  let t18 := Z.land m fieldBaseMask in
  let t19 := m ≫ fieldBase in
  let m := u64 (t0 + t10 * 15632) in
  let t0 := Z.land m fieldBaseMask in
  let m := u64 ((m ≫ fieldBase) + t1 + t10 * 1024 + t11 * 15632) in
  let t1 := Z.land m fieldBaseMask in
  let m := u64 ((m ≫ fieldBase) + t2 + t11 * 1024 + t12 * 15632) in
  let t2 := Z.land m fieldBaseMask in
  let m := u64 ((m ≫ fieldBase) + t3 + t12 * 1024 + t13 * 15632) in
  let t3 := Z.land m fieldBaseMask in
  let m := u64 ((m ≫ fieldBase) + t4 + t13 * 1024 + t14 * 15632) in
  let t4 := Z.land m fieldBaseMask in
  let m := u64 ((m ≫ fieldBase) + t5 + t14 * 1024 + t15 * 15632) in
  let t5 := Z.land m fieldBaseMask in
  let m := u64 ((m ≫ fieldBase) + t6 + t15 * 1024 + t16 * 15632) in
  let t6 := Z.land m fieldBaseMask in
  let m := u64 ((m ≫ fieldBase) + t7 + t16 * 1024 + t17 * 15632) in
  let t7 := Z.land m fieldBaseMask in
  let m := u64 ((m ≫ fieldBase) + t8 + t17 * 1024 + t18 * 15632) in
  let t8 := Z.land m fieldBaseMask in
  let m := u64 ((m ≫ fieldBase) + t9 + t18 * 1024 + t19 * 68719492368) in
  let t9 := Z.land m fieldMSBMask in
  let m := m ≫ fieldMSBBits in
  let d := u64 (t0 + m * 977) in
  let f0 := u32 (Z.land d fieldBaseMask) in
  let d := u64 ((d ≫ fieldBase) + t1 + m * 64) in
  let f1 := u32 (Z.land d fieldBaseMask) in
  let f2 := u32 (u64 ((d ≫ fieldBase) + t2)) in
  mkField f0 f1 f2 (u32 t3) (u32 t4) (u32 t5) (u32 t6) (u32 t7) (u32 t8) (u32 t9).

Definition Mul2 (val val2 : fieldVal) : fieldVal :=
  reduce
    (n0 val * n0 val2)
    (n0 val * n1 val2 + n1 val * n0 val2)
    (n0 val * n2 val2 + n1 val * n1 val2 + n2 val * n0 val2)
    (n0 val * n3 val2 + n1 val * n2 val2 + n2 val * n1 val2 + n3 val * n0 val2)
    (n0 val * n4 val2 + n1 val * n3 val2 + n2 val * n2 val2 + n3 val * n1 val2 + n4 val * n0 val2)
    (n0 val * n5 val2 + n1 val * n4 val2 + n2 val * n3 val2 + n3 val * n2 val2 + n4 val * n1 val2 + n5 val * n0 val2)
    (n0 val * n6 val2 + n1 val * n5 val2 + n2 val * n4 val2 + n3 val * n3 val2 + n4 val * n2 val2 + n5 val * n1 val2 + n6 val * n0 val2)
    (n0 val * n7 val2 + n1 val * n6 val2 + n2 val * n5 val2 + n3 val * n4 val2 + n4 val * n3 val2 + n5 val * n2 val2 + n6 val * n1 val2 + n7 val * n0 val2)
    (n0 val * n8 val2 + n1 val * n7 val2 + n2 val * n6 val2 + n3 val * n5 val2 + n4 val * n4 val2 + n5 val * n3 val2 + n6 val * n2 val2 + n7 val * n1 val2 + n8 val * n0 val2)
    (n0 val * n9 val2 + n1 val * n8 val2 + n2 val * n7 val2 + n3 val * n6 val2 + n4 val * n5 val2 + n5 val * n4 val2 + n6 val * n3 val2 + n7 val * n2 val2 + n8 val * n1 val2 + n9 val * n0 val2)
    (n1 val * n9 val2 + n2 val * n8 val2 + n3 val * n7 val2 + n4 val * n6 val2 + n5 val * n5 val2 + n6 val * n4 val2 + n7 val * n3 val2 + n8 val * n2 val2 + n9 val * n1 val2)
    (n2 val * n9 val2 + n3 val * n8 val2 + n4 val * n7 val2 + n5 val * n6 val2 + n6 val * n5 val2 + n7 val * n4 val2 + n8 val * n3 val2 + n9 val * n2 val2)
    (n3 val * n9 val2 + n4 val * n8 val2 + n5 val * n7 val2 + n6 val * n6 val2 + n7 val * n5 val2 + n8 val * n4 val2 + n9 val * n3 val2)
    (n4 val * n9 val2 + n5 val * n8 val2 + n6 val * n7 val2 + n7 val * n6 val2 + n8 val * n5 val2 + n9 val * n4 val2)
    (n5 val * n9 val2 + n6 val * n8 val2 + n7 val * n7 val2 + n8 val * n6 val2 + n9 val * n5 val2)
    (n6 val * n9 val2 + n7 val * n8 val2 + n8 val * n7 val2 + n9 val * n6 val2)
    (n7 val * n9 val2 + n8 val * n8 val2 + n9 val * n7 val2)
    (n8 val * n9 val2 + n9 val * n8 val2)
    (n9 val * n9 val2).

Definition Mul (f val : fieldVal) : fieldVal := Mul2 f val.

Definition SquareVal (val : fieldVal) : fieldVal :=
  reduce
    (n0 val * n0 val)
    (2 * n0 val * n1 val)
    (2 * n0 val * n2 val + n1 val * n1 val)
    (2 * n0 val * n3 val + 2 * n1 val * n2 val)
    (2 * n0 val * n4 val + 2 * n1 val * n3 val + n2 val * n2 val)
    (2 * n0 val * n5 val + 2 * n1 val * n4 val + 2 * n2 val * n3 val)
    (2 * n0 val * n6 val + 2 * n1 val * n5 val + 2 * n2 val * n4 val + n3 val * n3 val)
    (2 * n0 val * n7 val + 2 * n1 val * n6 val + 2 * n2 val * n5 val + 2 * n3 val * n4 val)
    (2 * n0 val * n8 val + 2 * n1 val * n7 val + 2 * n2 val * n6 val + 2 * n3 val * n5 val + n4 val * n4 val)
    (2 * n0 val * n9 val + 2 * n1 val * n8 val + 2 * n2 val * n7 val + 2 * n3 val * n6 val + 2 * n4 val * n5 val)
    (2 * n1 val * n9 val + 2 * n2 val * n8 val + 2 * n3 val * n7 val + 2 * n4 val * n6 val + n5 val * n5 val)
    (2 * n2 val * n9 val + 2 * n3 val * n8 val + 2 * n4 val * n7 val + 2 * n5 val * n6 val)
    (2 * n3 val * n9 val + 2 * n4 val * n8 val + 2 * n5 val * n7 val + n6 val * n6 val)
    (2 * n4 val * n9 val + 2 * n5 val * n8 val + 2 * n6 val * n7 val)
    (2 * n5 val * n9 val + 2 * n6 val * n8 val + n7 val * n7 val)
    (2 * n6 val * n9 val + 2 * n7 val * n8 val)
    (2 * n7 val * n9 val + n8 val * n8 val)
    (2 * n8 val * n9 val)
    (n9 val * n9 val).

Definition Square (f : fieldVal) : fieldVal := SquareVal f.

(** * Normalization *)

(** -1, all the bits, where a word is below its maximum. *)
Definition below (x y : Z) : Z := if x <? y then -1 else 0.

Definition Normalize (f : fieldVal) : fieldVal :=
  let m := n0 f in
  let t0 := Z.land m fieldBaseMask in
  let m := u32 ((m ≫ fieldBase) + n1 f) in
  let t1 := Z.land m fieldBaseMask in
  let m := u32 ((m ≫ fieldBase) + n2 f) in
  let t2 := Z.land m fieldBaseMask in
  let m := u32 ((m ≫ fieldBase) + n3 f) in
  let t3 := Z.land m fieldBaseMask in
  let m := u32 ((m ≫ fieldBase) + n4 f) in
  let t4 := Z.land m fieldBaseMask in
  let m := u32 ((m ≫ fieldBase) + n5 f) in
  let t5 := Z.land m fieldBaseMask in
  let m := u32 ((m ≫ fieldBase) + n6 f) in
  let t6 := Z.land m fieldBaseMask in
  let m := u32 ((m ≫ fieldBase) + n7 f) in
  let t7 := Z.land m fieldBaseMask in
  let m := u32 ((m ≫ fieldBase) + n8 f) in
  let t8 := Z.land m fieldBaseMask in
  let m := u32 ((m ≫ fieldBase) + n9 f) in
  let t9 := Z.land m fieldMSBMask in
  let m := m ≫ fieldMSBBits in
  let r := u32 (t0 + m * 977) in
  let t0 := Z.land r fieldBaseMask in
  let r := u32 ((r ≫ fieldBase) + t1 + m * 64) in
  let t1 := Z.land r fieldBaseMask in
  let r := u32 ((r ≫ fieldBase) + t2) in
  let t2 := Z.land r fieldBaseMask in
  let r := u32 ((r ≫ fieldBase) + t3) in
  let t3 := Z.land r fieldBaseMask in
  let r := u32 ((r ≫ fieldBase) + t4) in
  let t4 := Z.land r fieldBaseMask in
  let r := u32 ((r ≫ fieldBase) + t5) in
  let t5 := Z.land r fieldBaseMask in
  let r := u32 ((r ≫ fieldBase) + t6) in
  let t6 := Z.land r fieldBaseMask in
  let r := u32 ((r ≫ fieldBase) + t7) in
  let t7 := Z.land r fieldBaseMask in
  let r := u32 ((r ≫ fieldBase) + t8) in
  let t8 := Z.land r fieldBaseMask in
  let r := u32 ((r ≫ fieldBase) + t9) in
  let t9 := Z.land r fieldMSBMask in
  let lowBits := Z.lor (t1 ≪ fieldBase) t0 in
  let mask := Z.lor (Z.lor (Z.lor (Z.lor (Z.lor (Z.lor (Z.lor (Z.lor (below lowBits primeLowBits) (below t2 fieldBaseMask)) (below t3 fieldBaseMask)) (below t4 fieldBaseMask)) (below t5 fieldBaseMask)) (below t6 fieldBaseMask)) (below t7 fieldBaseMask)) (below t8 fieldBaseMask)) (below t9 fieldMSBMask) in
  let lowBits := u64 (lowBits - Z.land (u64 (Z.lnot mask)) primeLowBits) in
  mkField (u32 (Z.land lowBits fieldBaseMask)) (u32 (Z.land (lowBits ≫ fieldBase) fieldBaseMask))
    (Z.land t2 (u32 mask)) (Z.land t3 (u32 mask)) (Z.land t4 (u32 mask)) (Z.land t5 (u32 mask)) (Z.land t6 (u32 mask)) (Z.land t7 (u32 mask)) (Z.land t8 (u32 mask)) (Z.land t9 (u32 mask)).

(** * The inverse *)
Fixpoint squares (k : nat) (f : fieldVal) : fieldVal :=
  match k with O => f | S k => squares k (Square f) end.

(** Ten squarings and a multiplication. *)
Definition window (f a : fieldVal) : fieldVal := Mul (squares 5 (squares 5 f)) a.

Definition Inverse (f : fieldVal) : fieldVal :=
  let a2 := SquareVal f in
  let a3 := Mul2 a2 f in
  let a4 := SquareVal a2 in
  let a10 := Mul (SquareVal a4) a2 in
  let a11 := Mul2 a10 f in
  let a21 := Mul2 a10 a11 in
  let a42 := SquareVal a21 in
  let a45 := Mul2 a42 a3 in
  let a63 := Mul2 a42 a21 in
  let a1019 := Mul (Square (Square (Square (SquareVal a63)))) a11 in
  let a1023 := Mul2 a1019 a4 in
  let f := a63 in
  let f := window f a1023 in
  let f := window f a1023 in
  let f := window f a1023 in
  let f := window f a1023 in
  let f := window f a1023 in
  let f := window f a1023 in
  let f := window f a1023 in
  let f := window f a1023 in
  let f := window f a1023 in
  let f := window f a1023 in
  let f := window f a1023 in
  let f := window f a1023 in
  let f := window f a1023 in
  let f := window f a1023 in
  let f := window f a1023 in
  let f := window f a1023 in
  let f := window f a1023 in
  let f := window f a1023 in
  let f := window f a1023 in
  let f := window f a1023 in
  let f := window f a1023 in
  let f := window f a1019 in
  let f := window f a1023 in
  let f := window f a1023 in
  window f a45.

End Field.
