(* ===== verification/FieldSpec.v ===== *)
(** Correctness of the field arithmetic: every operation computes modulo the prime
    of the curve, within the magnitudes that the code keeps. *)
From Stdlib Require Import Znumtheory Zdivisibility Zpow_facts ZmodInv.
From S2P Require Import Prelude PubKey SecpPrime Field.
Import btcec Field.
#[local] Open Scope Z_scope.

Module FieldSpec.

(** The number that the words stand for. *)
Definition value (f : fieldVal) : Z :=
  n0 f + n1 f * 2 ^ 26 + n2 f * 2 ^ 52 + n3 f * 2 ^ 78 + n4 f * 2 ^ 104 + n5 f * 2 ^ 130 + n6 f * 2 ^ 156 + n7 f * 2 ^ 182 +
  n8 f * 2 ^ 208 + n9 f * 2 ^ 234.

Definition word (x : Z) (k : Z) : Prop := 0 <= x <= k * (2 ^ 26 + 2 ^ 21).

(** A value of magnitude at most [k]. *)
Record mag (k : Z) (f : fieldVal) : Prop := mkMag {
  mag0 : word (n0 f) k; mag1 : word (n1 f) k; mag2 : word (n2 f) k; mag3 : word (n3 f) k; mag4 : word (n4 f) k;
  mag5 : word (n5 f) k; mag6 : word (n6 f) k; mag7 : word (n7 f) k; mag8 : word (n8 f) k;
  mag9 : 0 <= n9 f <= k * 2 ^ 22
}.

(** * Carries *)
Lemma carry m : 0 <= m < 2 ^ 64 -> exists q t, m ≫ fieldBase = q /\ Z.land m fieldBaseMask = t /\
  m = 2 ^ 26 * q + t /\ 0 <= t < 2 ^ 26 /\ 0 <= q < 2 ^ 38.
Proof.
  intros Hm. exists (m / 2 ^ 26), (m mod 2 ^ 26). split; [by rewrite Z.shiftr_div_pow2|].
  split; [change fieldBaseMask with (Z.ones 26); by apply Z.land_ones|].
  pose proof (Z.div_mod m (2 ^ 26) ltac:(lia)). pose proof (Z.mod_pos_bound m (2 ^ 26) ltac:(lia)).
  assert (0 <= m / 2 ^ 26 < 2 ^ 38); [|lia]. split; [apply Z.div_pos; lia|]. apply Z.div_lt_upper_bound; lia.
Qed.

Lemma carry_top m : 0 <= m < 2 ^ 64 -> exists q t, m ≫ fieldMSBBits = q /\ Z.land m fieldMSBMask = t /\
  m = 2 ^ 22 * q + t /\ 0 <= t < 2 ^ 22 /\ 0 <= q < 2 ^ 42.
Proof.
  intros Hm. exists (m / 2 ^ 22), (m mod 2 ^ 22). split; [by rewrite Z.shiftr_div_pow2|].
  split; [change fieldMSBMask with (Z.ones 22); by apply Z.land_ones|].
  pose proof (Z.div_mod m (2 ^ 22) ltac:(lia)). pose proof (Z.mod_pos_bound m (2 ^ 22) ltac:(lia)).
  assert (0 <= m / 2 ^ 22 < 2 ^ 42); [|lia]. split; [apply Z.div_pos; lia|]. apply Z.div_lt_upper_bound; lia.
Qed.

(** Going through the assignments: a sum that does not wrap is named, and split
    into a word and a carry. *)
Ltac name_let := lazymatch goal with |- ?P (let x := ?v in @?b x) => let y := fresh "m" in set (y := v); change (P (b y)); cbv beta end.
Ltac drop_let := lazymatch goal with |- ?P (let x := ?v in @?b x) => change (P (b v)); cbv beta end.
Ltac no_wrap w := lazymatch goal with y := wrapu w ?e |- _ =>
  let E := fresh "E" in assert (y = e) as E by (apply wrapu_small; unfold is_u; lia); clearbody y end.
Ltac split_with l := lazymatch goal with E : ?y = _ |- _ =>
  let q := fresh "q" in let t := fresh "t" in let H1 := fresh in let H2 := fresh in
  destruct (l y ltac:(lia)) as (q & t & H1 & H2 & ? & ? & ?); rewrite ?H1, ?H2; clear H1 H2; subst y end.

Definition column (c : Z) : Prop := 0 <= c <= 10 * 2 ^ 60.

(** A value of magnitude 1 whose top word has not overflowed, which is what the
    reductions return. *)
Definition tight (f : fieldVal) : Prop := mag 1 f /\ n9 f < 2 ^ 22.

(** The result of a reduction. *)
Definition reduced (s : Z) (f : fieldVal) : Prop := tight f /\ exists q, s = value f + P * q.

Lemma reduce_spec c0 c1 c2 c3 c4 c5 c6 c7 c8 c9 c10 c11 c12 c13 c14 c15 c16 c17 c18 :
  column c0 -> column c1 -> column c2 -> column c3 -> column c4 -> column c5 -> column c6 -> column c7 -> column c8 -> column c9 ->
  column c10 -> column c11 -> column c12 -> column c13 -> column c14 -> column c15 -> column c16 -> column c17 ->
  0 <= c18 < 2 ^ 52 ->
  reduced (c0 + c1 * 2 ^ 26 + c2 * 2 ^ 52 + c3 * 2 ^ 78 + c4 * 2 ^ 104 + c5 * 2 ^ 130 + c6 * 2 ^ 156 + c7 * 2 ^ 182 + c8 * 2 ^ 208 +
    c9 * 2 ^ 234 + c10 * 2 ^ 260 + c11 * 2 ^ 286 + c12 * 2 ^ 312 + c13 * 2 ^ 338 + c14 * 2 ^ 364 + c15 * 2 ^ 390 + c16 * 2 ^ 416 +
    c17 * 2 ^ 442 + c18 * 2 ^ 468)
    (reduce c0 c1 c2 c3 c4 c5 c6 c7 c8 c9 c10 c11 c12 c13 c14 c15 c16 c17 c18).
Proof.
  unfold column. intros. cbv delta [reduce]. cbv beta.
  do 19 (name_let; no_wrap 64; split_with carry; drop_let). drop_let.
  do 9 (name_let; no_wrap 64; split_with carry; drop_let).
  name_let. no_wrap 64. split_with carry_top. do 2 drop_let.
  do 2 (name_let; no_wrap 64; split_with carry; drop_let). drop_let.
  rewrite !(wrapu_small 32), wrapu_small by (rewrite ?wrapu_small; unfold is_u; lia).
  split; [split; [split|]; unfold word; cbn [n0 n1 n2 n3 n4 n5 n6 n7 n8 n9]; lia|].
  exists (16 * (t9 + t10 * 2 ^ 26 + t11 * 2 ^ 52 + t12 * 2 ^ 78 + t13 * 2 ^ 104 + t14 * 2 ^ 130 + t15 * 2 ^ 156 + t16 * 2 ^ 182 +
    t17 * 2 ^ 208 + q17 * 2 ^ 234) + q27).
  unfold value, P. cbn [n0 n1 n2 n3 n4 n5 n6 n7 n8 n9]. lia.
Qed.

(** * Operations *)
Lemma mag_small k f : 0 <= k <= 8 -> mag k f ->
  0 <= n0 f < 2 ^ 30 /\ 0 <= n1 f < 2 ^ 30 /\ 0 <= n2 f < 2 ^ 30 /\ 0 <= n3 f < 2 ^ 30 /\ 0 <= n4 f < 2 ^ 30 /\
  0 <= n5 f < 2 ^ 30 /\ 0 <= n6 f < 2 ^ 30 /\ 0 <= n7 f < 2 ^ 30 /\ 0 <= n8 f < 2 ^ 30 /\ 0 <= n9 f < 2 ^ 26.
Proof. intros Hk []. unfold word in *. split_and!; nia. Qed.

Lemma prod_bound x y : 0 <= x < 2 ^ 30 -> 0 <= y < 2 ^ 30 -> 0 <= x * y < 2 ^ 60.
Proof. nia. Qed.

Lemma prod_top x y : 0 <= x < 2 ^ 26 -> 0 <= y < 2 ^ 26 -> 0 <= x * y < 2 ^ 52.
Proof. nia. Qed.

Ltac columns := unfold column; repeat match goal with |- context [?x * ?y] =>
  lazymatch goal with
  | _ : 0 <= x * y < _ |- _ => fail
  | _ => pose proof (prod_bound x y ltac:(lia) ltac:(lia))
  end end; lia.

Lemma reduced_eq s s' f : s = s' -> reduced s f -> reduced s' f.
Proof. by intros ->. Qed.

Lemma reduced_mod s f : reduced s f -> tight f /\ value f mod P = s mod P.
Proof. intros [Hm [q ->]]. split; [done|]. rewrite (Z.mul_comm P). by rewrite Z_mod_plus_full. Qed.

(** The product modulo the prime. *)
Lemma Mul2_spec a b : mag 8 a -> mag 8 b -> tight (Mul2 a b) /\ value (Mul2 a b) mod P = (value a * value b) mod P.
Proof.
  intros Ha Hb. apply mag_small in Ha as (?&?&?&?&?&?&?&?&?&?); [|lia]. apply mag_small in Hb as (?&?&?&?&?&?&?&?&?&?); [|lia].
  apply reduced_mod. unfold Mul2. eapply reduced_eq; [|apply reduce_spec]; [|columns..|by apply prod_top].
  unfold value. ring.
Qed.

(** Squaring has the columns of the product, each product once. *)
Lemma SquareVal_Mul2 a : SquareVal a = Mul2 a a.
Proof. unfold SquareVal, Mul2. f_equal; ring. Qed.

Lemma Square_spec a : mag 8 a -> tight (SquareVal a) /\ value (SquareVal a) mod P = (value a * value a) mod P.
Proof. rewrite SquareVal_Mul2. intros Ha. by apply Mul2_spec. Qed.

Lemma Add2_spec a b i j : 0 <= i -> 0 <= j -> i + j <= 32 -> mag i a -> mag j b ->
  mag (i + j) (Add2 a b) /\ value (Add2 a b) = value a + value b.
Proof.
  intros Hi Hj Hij [] []. unfold word in *. unfold Add2. rewrite !wrapu_small by (unfold is_u; nia).
  split; [split; unfold word; cbn [n0 n1 n2 n3 n4 n5 n6 n7 n8 n9]; nia|]. unfold value. cbn [n0 n1 n2 n3 n4 n5 n6 n7 n8 n9]. ring.
Qed.

Lemma NegateVal_spec a k : 0 <= k <= 30 -> mag k a ->
  mag (k + 1) (NegateVal a k) /\ value (NegateVal a k) mod P = (- value a) mod P.
Proof.
  intros Hk []. unfold word in *. unfold NegateVal, fieldPrimeWordZero, fieldPrimeWordOne.
  change fieldBaseMask with (2 ^ 26 - 1). change fieldMSBMask with (2 ^ 22 - 1).
  rewrite (wrapu_small 32 (k + 1)) by (unfold is_u; lia). rewrite !wrapu_small by (unfold is_u; lia).
  split; [split; unfold word; cbn [n0 n1 n2 n3 n4 n5 n6 n7 n8 n9]; lia|].
  apply Z.cong_iff_ex. exists (k + 1). unfold value, P. cbn [n0 n1 n2 n3 n4 n5 n6 n7 n8 n9]. lia.
Qed.

Lemma MulInt_spec a i k : 0 <= i -> 0 <= k <= 32 -> i * k <= 32 -> mag i a ->
  mag (i * k) (MulInt a k) /\ value (MulInt a k) = value a * k.
Proof.
  intros Hi Hk Hik []. unfold word in *. unfold MulInt. cbv zeta. rewrite (wrapu_small 32 k) by (unfold is_u; lia).
  rewrite !wrapu_small by (unfold is_u; nia).
  split; [split; unfold word; cbn [n0 n1 n2 n3 n4 n5 n6 n7 n8 n9]; nia|]. unfold value. cbn [n0 n1 n2 n3 n4 n5 n6 n7 n8 n9]. ring.
Qed.

Lemma AddInt_spec a i k : 0 <= i <= 31 -> 0 <= k <= 2 ^ 26 -> mag i a ->
  mag (i + 1) (AddInt a k) /\ value (AddInt a k) = value a + k.
Proof.
  intros Hi Hk []. unfold word in *. unfold AddInt. rewrite (wrapu_small 32 k) by (unfold is_u; lia).
  rewrite !wrapu_small by (unfold is_u; nia).
  split; [split; unfold word; cbn [n0 n1 n2 n3 n4 n5 n6 n7 n8 n9]; lia|]. unfold value. cbn [n0 n1 n2 n3 n4 n5 n6 n7 n8 n9]. ring.
Qed.

(** * Normalization *)
Record normal (f : fieldVal) : Prop := mkNormal {
  normal0 : 0 <= n0 f < 2 ^ 26; normal1 : 0 <= n1 f < 2 ^ 26; normal2 : 0 <= n2 f < 2 ^ 26; normal3 : 0 <= n3 f < 2 ^ 26;
  normal4 : 0 <= n4 f < 2 ^ 26; normal5 : 0 <= n5 f < 2 ^ 26; normal6 : 0 <= n6 f < 2 ^ 26; normal7 : 0 <= n7 f < 2 ^ 26;
  normal8 : 0 <= n8 f < 2 ^ 26; normal9 : 0 <= n9 f < 2 ^ 22
}.

(** The excess over 256 bits folded back once: 2^256 is 2^32 + 977 modulo the prime. *)
Definition folded (v : Z) : Z := v mod 2 ^ 256 + v / 2 ^ 256 * (2 ^ 32 + 977).

Definition normalizes (v : Z) (f : fieldVal) : Prop :=
  normal f /\ value f = if folded v <? 2 ^ 256 then v mod P else folded v - 2 ^ 256.

Lemma folded_eq v t m : v = t + 2 ^ 256 * m -> 0 <= t < 2 ^ 256 -> folded v = t + m * (2 ^ 32 + 977).
Proof. intros Hv Ht. unfold folded. rewrite <- (Z.mod_unique v (2 ^ 256) m t), <- (Z.div_unique v (2 ^ 256) m t); lia. Qed.

Lemma folded_mod v : 0 <= folded v < 2 ^ 256 -> v mod P = if folded v <? P then folded v else folded v - P.
Proof.
  intros Hf. pose proof (Z.div_mod v (2 ^ 256) ltac:(lia)) as Hv. unfold folded in *.
  assert (2 ^ 256 = P + (2 ^ 32 + 977)) by done. assert (2 ^ 256 < 2 * P) by done. destruct (Z.ltb_spec (v mod 2 ^ 256 + v / 2 ^ 256 * (2 ^ 32 + 977)) P); symmetry.
  - apply (Z.mod_unique _ _ (v / 2 ^ 256)); lia.
  - apply (Z.mod_unique _ _ (v / 2 ^ 256 + 1)); lia.
Qed.

(** The mask is zero where no word is below that of the prime. *)
Lemma mask_cases l t2 t3 t4 t5 t6 t7 t8 t9 :
  let mask := Z.lor (Z.lor (Z.lor (Z.lor (Z.lor (Z.lor (Z.lor (Z.lor (below l primeLowBits) (below t2 fieldBaseMask)) (below t3 fieldBaseMask)) (below t4 fieldBaseMask)) (below t5 fieldBaseMask)) (below t6 fieldBaseMask)) (below t7 fieldBaseMask)) (below t8 fieldBaseMask)) (below t9 fieldMSBMask) in
  mask = -1 /\ ~ (primeLowBits <= l /\ fieldBaseMask <= t2 /\ fieldBaseMask <= t3 /\ fieldBaseMask <= t4 /\ fieldBaseMask <= t5 /\
    fieldBaseMask <= t6 /\ fieldBaseMask <= t7 /\ fieldBaseMask <= t8 /\ fieldMSBMask <= t9) \/
  mask = 0 /\ primeLowBits <= l /\ fieldBaseMask <= t2 /\ fieldBaseMask <= t3 /\ fieldBaseMask <= t4 /\ fieldBaseMask <= t5 /\
    fieldBaseMask <= t6 /\ fieldBaseMask <= t7 /\ fieldBaseMask <= t8 /\ fieldMSBMask <= t9.
Proof.
  cbv zeta. unfold below.
  repeat lazymatch goal with |- context [?x <? ?y] =>
    destruct (Z.ltb_spec x y); [left; rewrite ?Z.lor_m1_l, ?Z.lor_m1_r; split; [done|lia]|rewrite ?Z.lor_0_l] end.
  right. split_and!; done.
Qed.

Lemma land_all t : 0 <= t < 2 ^ 26 -> Z.land t (u32 (-1)) = t.
Proof. intros Ht. change (u32 (-1)) with (Z.ones 32). rewrite Z.land_ones by lia. apply Z.mod_small. lia. Qed.

(** The last subtraction, on ten words of a number below 2^256. *)
Definition subtract (t0 t1 t2 t3 t4 t5 t6 t7 t8 t9 l mask : Z) : fieldVal :=
  let l := u64 (l - Z.land (u64 (Z.lnot mask)) primeLowBits) in
  mkField (u32 (Z.land l fieldBaseMask)) (u32 (Z.land (l ≫ fieldBase) fieldBaseMask))
    (Z.land t2 (u32 mask)) (Z.land t3 (u32 mask)) (Z.land t4 (u32 mask)) (Z.land t5 (u32 mask)) (Z.land t6 (u32 mask)) (Z.land t7 (u32 mask)) (Z.land t8 (u32 mask)) (Z.land t9 (u32 mask)).

Lemma subtract_none t0 t1 t2 t3 t4 t5 t6 t7 t8 t9 : normal (mkField t0 t1 t2 t3 t4 t5 t6 t7 t8 t9) ->
  subtract t0 t1 t2 t3 t4 t5 t6 t7 t8 t9 (t1 * 2 ^ 26 + t0) (-1) = mkField t0 t1 t2 t3 t4 t5 t6 t7 t8 t9.
Proof.
  intros []. cbn [n0 n1 n2 n3 n4 n5 n6 n7 n8 n9] in *. unfold subtract. cbv zeta. change (Z.land (u64 (Z.lnot (-1))) primeLowBits) with 0.
  rewrite Z.sub_0_r, (wrapu_small 64) by (unfold is_u; lia). rewrite !land_all by lia.
  destruct (carry (t1 * 2 ^ 26 + t0)) as (q & t & -> & -> & ? & ? & ?); [lia|]. assert (q = t1 /\ t = t0) as [-> ->] by lia.
  destruct (carry t1) as (q' & t' & _ & -> & ? & ? & ?); [lia|]. rewrite !wrapu_small by (unfold is_u; lia). f_equal. lia.
Qed.

Lemma subtract_prime t0 t1 t2 t3 t4 t5 t6 t7 t8 t9 : normal (mkField t0 t1 t2 t3 t4 t5 t6 t7 t8 t9) -> primeLowBits <= t1 * 2 ^ 26 + t0 ->
  let f := subtract t0 t1 t2 t3 t4 t5 t6 t7 t8 t9 (t1 * 2 ^ 26 + t0) 0 in
  normal f /\ value f = t1 * 2 ^ 26 + t0 - primeLowBits.
Proof.
  intros [] Hl f. cbn [n0 n1 n2 n3 n4 n5 n6 n7 n8 n9] in *. subst f. unfold subtract. cbv zeta.
  change (Z.land (u64 (Z.lnot 0)) primeLowBits) with primeLowBits. change (u32 0) with 0. rewrite !Z.land_0_r.
  assert (primeLowBits = 4503595332402223) as E by done. rewrite E in *. clear E. rewrite (wrapu_small 64) by (unfold is_u; lia).
  destruct (carry (t1 * 2 ^ 26 + t0 - 4503595332402223)) as (q & t & -> & -> & Hq & ? & ?); [lia|].
  destruct (carry q) as (q' & t' & _ & -> & ? & ? & ?); [lia|]. rewrite !wrapu_small by (unfold is_u; lia).
  rewrite Hq. assert (q = t') as -> by lia. split; [split; cbn [n0 n1 n2 n3 n4 n5 n6 n7 n8 n9]; lia|].
  unfold value. cbn [n0 n1 n2 n3 n4 n5 n6 n7 n8 n9]. lia.
Qed.

Lemma subtract_normalizes v c t0 t1 t2 t3 t4 t5 t6 t7 t8 t9 mask : normal (mkField t0 t1 t2 t3 t4 t5 t6 t7 t8 t9) ->
  folded v = value (mkField t0 t1 t2 t3 t4 t5 t6 t7 t8 t9) + 2 ^ 256 * c -> 0 <= c -> folded v < 2 ^ 256 + 2 ^ 200 ->
  mask = Z.lor (Z.lor (Z.lor (Z.lor (Z.lor (Z.lor (Z.lor (Z.lor (below (t1 * 2 ^ 26 + t0) primeLowBits) (below t2 fieldBaseMask)) (below t3 fieldBaseMask)) (below t4 fieldBaseMask)) (below t5 fieldBaseMask)) (below t6 fieldBaseMask)) (below t7 fieldBaseMask)) (below t8 fieldBaseMask)) (below t9 fieldMSBMask) ->
  normalizes v (subtract t0 t1 t2 t3 t4 t5 t6 t7 t8 t9 (t1 * 2 ^ 26 + t0) mask).
Proof.
  intros Ht Hf Hc Hb ->.
  assert (fieldBaseMask = 2 ^ 26 - 1) as E1 by done. assert (fieldMSBMask = 2 ^ 22 - 1) as E2 by done.
  assert (primeLowBits = 4503595332402223) as E3 by done.
  destruct (mask_cases (t1 * 2 ^ 26 + t0) t2 t3 t4 t5 t6 t7 t8 t9) as [[-> Hm]|(-> & Hm)]; rewrite ?E1, ?E2, ?E3 in Hm.
  - rewrite subtract_none by done. split; [done|]. destruct Ht. unfold value in *. cbn [n0 n1 n2 n3 n4 n5 n6 n7 n8 n9] in *.
    destruct (Z.ltb_spec (folded v) (2 ^ 256)) as [Hlt|]; [|lia]. rewrite folded_mod by lia. unfold P.
    case_match eqn:E; [lia|]. apply Z.ltb_ge in E. lia.
  - destruct (subtract_prime t0 t1 t2 t3 t4 t5 t6 t7 t8 t9 Ht) as [Hn Hv]; [lia|]. split; [done|]. rewrite Hv. clear Hn Hv.
    destruct Ht. unfold value in *. cbn [n0 n1 n2 n3 n4 n5 n6 n7 n8 n9] in *.
    destruct (Z.ltb_spec (folded v) (2 ^ 256)) as [Hlt|]; [|lia]. rewrite folded_mod by lia. unfold P.
    case_match eqn:E; [apply Z.ltb_lt in E; lia|]. lia.
Qed.

Lemma Normalize_spec f k : 0 <= k <= 60 -> mag k f -> normalizes (value f) (Normalize f).
Proof.
  intros Hk []. unfold word in *. cbv delta [Normalize]. cbv beta.
  name_let. lazymatch goal with y := n0 f |- _ => assert (y = n0 f) by done; clearbody y end. split_with carry. drop_let.
  do 8 (name_let; no_wrap 32; split_with carry; drop_let).
  name_let. no_wrap 32. split_with carry_top. do 2 drop_let.
  do 9 (name_let; no_wrap 32; split_with carry; drop_let).
  name_let. no_wrap 32. split_with carry_top. drop_let.
  rewrite lor_shiftl_add by (unfold fieldBase; lia). change (2 ^ fieldBase) with (2 ^ 26). drop_let. drop_let.
  assert (folded (value f) = t + t0 * 2 ^ 26 + t1 * 2 ^ 52 + t2 * 2 ^ 78 + t3 * 2 ^ 104 + t4 * 2 ^ 130 + t5 * 2 ^ 156 + t6 * 2 ^ 182 +
    t7 * 2 ^ 208 + t8 * 2 ^ 234 + q8 * (2 ^ 32 + 977)) as Hf by (apply folded_eq; unfold value; lia).
  eapply (subtract_normalizes _ q18 t9 t10 t11 t12 t13 t14 t15 t16 t17 t18); [split; cbn [n0 n1 n2 n3 n4 n5 n6 n7 n8 n9]; lia|..]; [|lia..|done].
  rewrite Hf. unfold value. cbn [n0 n1 n2 n3 n4 n5 n6 n7 n8 n9]. lia.
Qed.

(** What the multiplications return, and a small sum with it, is normalized right. *)
Lemma Normalize_small f k : 0 <= k <= 60 -> mag k f -> value f < 2 ^ 256 + 2 ^ 231 ->
  normal (Normalize f) /\ value (Normalize f) = value f mod P.
Proof.
  intros Hk Hm Hv. destruct (Normalize_spec f k Hk Hm) as [Hn ->]. split; [done|].
  assert (0 <= value f) by (destruct Hm; unfold word, value in *; lia).
  destruct (Z.ltb_spec (folded (value f)) (2 ^ 256)) as [|Hf]; [done|]. exfalso. revert Hf.
  destruct (decide (value f < 2 ^ 256)).
  - rewrite (folded_eq _ (value f) 0); lia.
  - rewrite (folded_eq _ (value f - 2 ^ 256) 1); lia.
Qed.

Lemma tight_value f : tight f -> value f < 2 ^ 256 + 2 ^ 231 - 2 ^ 26.
Proof. intros [[] ?]. unfold word, value in *. lia. Qed.

Lemma digit x y a b : 0 <= a < 2 ^ 26 -> 0 <= b < 2 ^ 26 -> a + 2 ^ 26 * x = b + 2 ^ 26 * y -> a = b /\ x = y.
Proof. lia. Qed.

Lemma value_horner f : value f = n0 f + 2 ^ 26 * (n1 f + 2 ^ 26 * (n2 f + 2 ^ 26 * (n3 f + 2 ^ 26 * (n4 f + 2 ^ 26 * (n5 f +
  2 ^ 26 * (n6 f + 2 ^ 26 * (n7 f + 2 ^ 26 * (n8 f + 2 ^ 26 * n9 f)))))))).
Proof. unfold value. ring. Qed.

Lemma value_inj f g : normal f -> normal g -> value f = value g -> f = g.
Proof.
  intros [] []. rewrite !value_horner. intros Hv. do 9 (apply digit in Hv as [? Hv]; [|done..]).
  destruct f, g. cbn [n0 n1 n2 n3 n4 n5 n6 n7 n8 n9] in *. congruence.
Qed.

Lemma Equals_eq f g : Equals f g = true <-> f = g.
Proof.
  unfold Equals. cbv zeta. rewrite Z.eqb_eq, !Z.lor_eq_0_iff, !Z.lxor_eq_0_iff. destruct f, g. cbn. split; [|by intros [= -> -> -> -> -> -> -> -> -> ->]].
  by intros ((((((((( -> & ->) & ->) & ->) & ->) & ->) & ->) & ->) & ->) & ->).
Qed.

(** * The inverse *)

(** A power of a value, ready to be multiplied. *)
Definition power (a : fieldVal) (e : Z) (f : fieldVal) : Prop := 0 <= e /\ mag 8 f /\ value f mod P = value a ^ e mod P.

Lemma mag_le i j f : i <= j -> mag i f -> mag j f.
Proof. intros Hij []. unfold word in *. split; unfold word; lia. Qed.

Lemma tight_mag f : tight f -> mag 8 f.
Proof. intros [Hm _]. by apply (mag_le 1). Qed.

Lemma power_one a : mag 8 a -> power a 1 a.
Proof. intros Ha. split_and!; [lia|done|by rewrite Z.pow_1_r]. Qed.

Lemma power_mul a i j f g : power a i f -> power a j g -> power a (i + j) (Mul2 f g).
Proof.
  intros (Hi & Hf & Ei) (Hj & Hg & Ej). destruct (Mul2_spec f g Hf Hg) as [Ht E]. split_and!; [lia|by apply tight_mag|].
  rewrite E, Z.mul_mod, Ei, Ej, <- Z.mul_mod, Z.pow_add_r by done. done.
Qed.

Lemma power_square a i f : power a i f -> power a (2 * i) (SquareVal f).
Proof. intros Hf. rewrite SquareVal_Mul2. replace (2 * i) with (i + i) by lia. by apply power_mul. Qed.

Lemma power_squares a k : forall i f, power a i f -> power a (2 ^ Z.of_nat k * i) (squares k f).
Proof.
  induction k as [|k IH]; intros i f Hf; [by rewrite Z.mul_1_l|]. cbn [squares].
  replace (2 ^ Z.of_nat (S k) * i) with (2 ^ Z.of_nat k * (2 * i)) by (rewrite Nat2Z.inj_succ, Z.pow_succ_r; lia).
  by apply IH, power_square.
Qed.

Lemma power_window a i j f g : power a i f -> power a j g -> power a (1024 * i + j) (window f g).
Proof.
  intros Hf Hg. apply power_mul; [|done]. replace (1024 * i) with (2 ^ Z.of_nat 5 * (2 ^ Z.of_nat 5 * i)) by (change (2 ^ Z.of_nat 5) with 32; lia).
  by apply power_squares, power_squares.
Qed.

Lemma power_eq a i j f : i = j -> power a i f -> power a j f.
Proof. by intros ->. Qed.

(** The assignments of the chain: each variable is a power, its exponent computed
    from those of its operands. *)
Ltac powers := lazymatch goal with
  | |- power _ _ (window _ _) => eapply power_window; powers
  | |- power _ _ (Mul2 _ _) => eapply power_mul; powers
  | |- power _ _ (SquareVal _) => eapply power_square; powers
  | H : power ?a _ ?f |- power ?a _ ?f => exact H
  end.
Ltac power_let := name_let; lazymatch goal with y := ?v |- power ?a _ _ =>
  let H := fresh "H" in eassert (power a _ v) as H by powers; change v with y in H; clearbody y;
  lazymatch type of H with power _ ?e _ => let e' := eval vm_compute in e in change e with e' in H end end.

Lemma Inverse_power a : mag 8 a -> power a (P - 2) (Inverse a).
Proof.
  intros H1%power_one. cbv delta [Inverse Mul Square]. cbv beta. repeat power_let.
  eapply power_eq; [|powers]. done.
Qed.

Lemma Inverse_spec a : mag 8 a -> value a mod P <> 0 -> (value (Inverse a) * value a) mod P = 1.
Proof.
  intros Hm Ha. destruct (Inverse_power a Hm) as (_ & _ & E). rewrite Z.mul_mod, E, <- Z.mul_mod by done.
  rewrite Z.mul_comm, <- Z.pow_succ_r by done. apply (Z.fermat_nz P _ SecpPrime.P_prime Ha).
Qed.

(** * Properties *)
Definition example_value : fieldVal := mkField 5 0 0 0 0 0 0 0 0 (2 ^ 22 - 1).

Lemma mag_example : mag 8 example_value.
Proof. split; unfold word; cbn; lia. Qed.

(** C29: The product of two field values of magnitude at most 8, computed by columns of
    26-bit words in uint64 with two reductions, never overflows a word, is of
    magnitude 1 and is the product of the numbers modulo the prime of the curve;
    squaring is the product of a value with itself, word for word. *)
Theorem field_product a b : mag 8 a -> mag 8 b ->
  tight (Mul2 a b) /\ value (Mul2 a b) mod P = (value a * value b) mod P /\ SquareVal a = Mul2 a a.
Proof. intros Ha Hb. destruct (Mul2_spec a b Ha Hb). split_and!; [done..|apply SquareVal_Mul2]. Qed.

Lemma field_product_witness : tight (Mul2 example_value example_value) /\
  value (Mul2 example_value example_value) mod P = (value example_value * value example_value) mod P /\
  SquareVal example_value = Mul2 example_value example_value.
Proof. apply (field_product example_value example_value); apply mag_example. Defined.

Lemma folded_range f k : 0 <= k <= 60 -> mag k f -> 0 <= folded (value f) < 2 ^ 256 + 2 ^ 40.
Proof.
  intros Hk []. unfold word, folded in *. assert (0 <= value f < 2 ^ 263) as Hv by (unfold value; lia).
  pose proof (Z.mod_pos_bound (value f) (2 ^ 256) ltac:(lia)). assert (0 <= value f / 2 ^ 256 < 2 ^ 7); [|lia].
  split; [apply Z.div_pos; lia|]. apply Z.div_lt_upper_bound; lia.
Qed.

Lemma folded_wrong f k : 0 <= k <= 60 -> mag k f -> 2 ^ 256 <= folded (value f) -> value f mod P <> folded (value f) - 2 ^ 256.
Proof.
  intros Hk Hm Hf E. pose proof (folded_range f k Hk Hm) as Hr. unfold folded in *.
  pose proof (Z.div_mod (value f) (2 ^ 256) ltac:(lia)). pose proof (Z.div_mod (value f) P ltac:(done)).
  set (m := value f / 2 ^ 256) in *. set (t := value f mod 2 ^ 256) in *. set (q := value f / P) in *.
  assert (P * (q - m) = 2 ^ 256) as Hq by (unfold P in *; lia). assert (2 ^ 256 = P + (2 ^ 32 + 977)) as E2 by done.
  assert (0 < 2 ^ 32 + 977 < P) by done. nia.
Qed.

Lemma folded_off f k : 0 <= k <= 60 -> mag k f -> 2 ^ 256 <= folded (value f) ->
  folded (value f) - 2 ^ 256 = (value f - (2 ^ 32 + 977)) mod P.
Proof.
  intros Hk Hm Hf. pose proof (folded_range f k Hk Hm) as Hr. apply (Z.mod_unique _ _ (value f / 2 ^ 256 + 1)); [unfold P; lia|].
  pose proof (Z.div_mod (value f) (2 ^ 256) ltac:(lia)) as Hv. unfold folded in *. unfold P.
  set (m := value f / 2 ^ 256) in *. set (t := value f mod 2 ^ 256) in *. lia.
Qed.

(** C30: Normalizing a value of magnitude at most 60 gives words within their 26 bits (22
    for the top one), and the number is the residue modulo the prime exactly when
    folding the excess over 256 bits back once stays below 2^256.  Otherwise the carry
    out of that sum is dropped, and the result is the residue of the number less
    2^32 + 977. *)
Theorem Normalize_exact f k : 0 <= k <= 60 -> mag k f ->
  normal (Normalize f) /\ (value (Normalize f) = value f mod P <-> folded (value f) < 2 ^ 256) /\
  (2 ^ 256 <= folded (value f) -> value (Normalize f) = (value f - (2 ^ 32 + 977)) mod P).
Proof.
  intros Hk Hm. destruct (Normalize_spec f k Hk Hm) as [Hn Hv]. split; [done|]. rewrite Hv.
  destruct (Z.ltb_spec (folded (value f)) (2 ^ 256)) as [|Hf]; [split; [done | lia]|].
  pose proof (folded_wrong f k Hk Hm Hf). split; [lia|]. intros _. by apply (folded_off f k).
Qed.

(** All the words of the sum of 2^256 and 2^256 - 1. *)
Definition example_carry : fieldVal := mkField (2 ^ 26 - 1) (2 ^ 26 - 1) (2 ^ 26 - 1) (2 ^ 26 - 1) (2 ^ 26 - 1) (2 ^ 26 - 1)
  (2 ^ 26 - 1) (2 ^ 26 - 1) (2 ^ 26 - 1) (2 ^ 23 - 1).

Lemma Normalize_exact_witness : value (Normalize example_carry) <> value example_carry mod P /\
  value (Normalize example_carry) = (value example_carry - (2 ^ 32 + 977)) mod P.
Proof.
  split; [by vm_compute|]. apply (Normalize_exact example_carry 2); [lia | | by vm_compute]. split; unfold word; cbn; lia.
Defined.

(** C31: The chain of squarings and multiplications of Inverse raises to the power of the
    prime minus 2, and this is the inverse of every value that is not a multiple of
    the prime, for values of magnitude at most 8, for which no word overflows. *)
Theorem Inverse_inverts a : mag 8 a -> value a mod P <> 0 ->
  value (Inverse a) mod P = value a ^ (P - 2) mod P /\ (value (Inverse a) * value a) mod P = 1.
Proof. intros Hm Ha. split; [by apply Inverse_power|by apply Inverse_spec]. Qed.

Lemma Inverse_inverts_witness : (value (Inverse example_value) * value example_value) mod P = 1.
Proof. apply (Inverse_inverts example_value); [apply mag_example|by vm_compute]. Defined.

End FieldSpec.
