(* ===== verification/FieldBytes.v ===== *)
(** Field values and bytes: a value set from bytes is their number, and a
    normalized value is written back as the 32 bytes of its number. *)
From S2P Require Import Prelude PubKey Field FieldSpec.
Import btcec Field FieldSpec.
#[local] Open Scope Z_scope.

Module FieldBytes.

(** * From bytes *)
Lemma lor_word a b k : 0 <= k -> 0 <= a < 2 ^ k -> 0 <= b -> b * 2 ^ k < 2 ^ 32 -> Z.lor a (u32 (b ≪ k)) = a + b * 2 ^ k.
Proof.
  intros Hk Ha Hb Hs. rewrite wrapu_small by (unfold is_u; rewrite Z.shiftl_mul_pow2 by done; nia).
  rewrite Z.lor_comm, lor_shiftl_add by done. lia.
Qed.

(** A byte whose bits go to two words. *)
Lemma split_byte x n mask : 0 <= n <= 8 -> mask = 2 ^ n - 1 -> is_byte x ->
  exists q r, x ≫ n = q /\ Z.land x mask = r /\ x = 2 ^ n * q + r /\ 0 <= r < 2 ^ n /\ 0 <= q < 2 ^ (8 - n).
Proof.
  intros Hn -> Hx. unfold is_byte in Hx. exists (x / 2 ^ n), (x mod 2 ^ n). split; [apply Z.shiftr_div_pow2; lia|].
  split; [apply land_ones_mod; lia|]. pose proof (Z.div_mod x (2 ^ n) ltac:(lia)). pose proof (Z.mod_pos_bound x (2 ^ n) ltac:(lia)).
  split; [done|]. split; [done|]. split; [apply Z.div_pos; lia|]. apply Z.div_lt_upper_bound; [lia|].
  rewrite <- Z.pow_add_r by lia. replace (n + (8 - n)) with 8 by lia. lia.
Qed.

(** Thirteen bytes are four words. *)
Lemma words y0 y1 y2 y3 y4 y5 y6 y7 y8 y9 y10 y11 y12 :
  is_byte y0 -> is_byte y1 -> is_byte y2 -> is_byte y3 -> is_byte y4 -> is_byte y5 -> is_byte y6 -> is_byte y7 -> is_byte y8 ->
  is_byte y9 -> is_byte y10 -> is_byte y11 -> is_byte y12 ->
  let w0 := Z.lor (Z.lor (Z.lor y0 (u32 (y1 ≪ 8))) (u32 (y2 ≪ 16))) (u32 (Z.land y3 twoBitsMask ≪ 24)) in
  let w1 := Z.lor (Z.lor (Z.lor (y3 ≫ 2) (u32 (y4 ≪ 6))) (u32 (y5 ≪ 14))) (u32 (Z.land y6 fourBitsMask ≪ 22)) in
  let w2 := Z.lor (Z.lor (Z.lor (y6 ≫ 4) (u32 (y7 ≪ 4))) (u32 (y8 ≪ 12))) (u32 (Z.land y9 sixBitsMask ≪ 20)) in
  let w3 := Z.lor (Z.lor (Z.lor (y9 ≫ 6) (u32 (y10 ≪ 2))) (u32 (y11 ≪ 10))) (u32 (y12 ≪ 18)) in
  0 <= w0 < 2 ^ 26 /\ 0 <= w1 < 2 ^ 26 /\ 0 <= w2 < 2 ^ 26 /\ 0 <= w3 < 2 ^ 26 /\
  w0 + w1 * 2 ^ 26 + w2 * 2 ^ 52 + w3 * 2 ^ 78 = le_decode [y0; y1; y2; y3; y4; y5; y6; y7; y8; y9; y10; y11; y12].
Proof.
  intros. destruct (split_byte y3 2 twoBitsMask) as (? & ? & E1 & E2 & ? & ? & ?); [done..|].
  destruct (split_byte y6 4 fourBitsMask) as (? & ? & E3 & E4 & ? & ? & ?); [done..|].
  destruct (split_byte y9 6 sixBitsMask) as (? & ? & E5 & E6 & ? & ? & ?); [done..|].
  unfold is_byte in *. subst w0 w1 w2 w3. rewrite E1, E2, E3, E4, E5, E6. clear E1 E2 E3 E4 E5 E6.
  rewrite !(lor_word _ _ 8), !(lor_word _ _ 6), !(lor_word _ _ 4), !(lor_word _ _ 2) by lia.
  rewrite !(lor_word _ _ 16), !(lor_word _ _ 14), !(lor_word _ _ 12), !(lor_word _ _ 10) by lia.
  rewrite !lor_word by lia. cbn [le_decode]. lia.
Qed.

Lemma SetBytes_32 x0 x1 x2 x3 x4 x5 x6 x7 x8 x9 x10 x11 x12 x13 x14 x15 x16 x17 x18 x19 x20 x21 x22 x23 x24 x25 x26 x27 x28 x29 x30 x31 :
  bytes_ok [x0; x1; x2; x3; x4; x5; x6; x7; x8; x9; x10; x11; x12; x13; x14; x15; x16; x17; x18; x19; x20; x21; x22; x23; x24; x25; x26; x27; x28; x29; x30; x31] ->
  let b := [x0; x1; x2; x3; x4; x5; x6; x7; x8; x9; x10; x11; x12; x13; x14; x15; x16; x17; x18; x19; x20; x21; x22; x23; x24; x25; x26; x27; x28; x29; x30; x31] in
  normal (SetBytes b) /\ value (SetBytes b) = be_decode b.
Proof.
  intros Hb b. repeat (apply Forall_cons in Hb as [? Hb]). clear Hb.
  pose proof (words x31 x30 x29 x28 x27 x26 x25 x24 x23 x22 x21 x20 x19) as Hl.
  pose proof (words x18 x17 x16 x15 x14 x13 x12 x11 x10 x9 x8 x7 x6) as Hm.
  pose proof (words x5 x4 x3 x2 x1 x0 0 0 0 0 0 0 0) as Hh.
  repeat (specialize (Hl ltac:(assumption))). repeat (specialize (Hm ltac:(assumption))). repeat (specialize (Hh ltac:(done || assumption))).
  unfold SetBytes, elt. subst b. cbn [lookup list_lookup default id from_option]. cbv zeta in Hl, Hm, Hh.
  change (Z.land 0 _) with 0 in Hh. change (u32 (0 ≪ _)) with 0 in Hh. change (0 ≫ _) with 0 in Hh. rewrite !Z.lor_0_r in Hh.
  repeat lazymatch goal with |- context [Z.lor ?a ?b] => generalize dependent (Z.lor a b); intros end.
  unfold be_decode, reverse. cbn [rev_append le_decode] in *. unfold is_byte in *.
  split; [split; cbn [n0 n1 n2 n3 n4 n5 n6 n7 n8 n9]; lia|]. unfold value. cbn [n0 n1 n2 n3 n4 n5 n6 n7 n8 n9]. lia.
Qed.

Lemma SetBytes_spec b : length b = 32%nat -> bytes_ok b -> normal (SetBytes b) /\ value (SetBytes b) = be_decode b.
Proof.
  intros Hl Hb. do 32 (destruct b as [|? b]; [done|]). destruct b; [|done]. by apply SetBytes_32.
Qed.

Lemma fill_slice_spec b : forall i n pre post, len pre = i + (32 - n) -> length post = length b -> i + len b = n -> 0 <= i -> n <= 32 ->
  fill_slice b i n (pre ++ post) = Ok (pre ++ b).
Proof.
  induction b as [|x b IH]; intros i n pre post Hp Hl Hn Hi H32; cbn [fill_slice].
  { destruct post; [done|discriminate]. }
  rewrite len_cons in Hn. pose proof (len_nonneg b). destruct post as [|y post]; [discriminate|].
  assert (i <? 32 = true) as -> by (apply Z.ltb_lt; lia). unfold set_idx. rewrite len_app, len_cons. pose proof (len_nonneg post).
  rewrite (proj2 (Z.leb_le 0 _)), (proj2 (Z.ltb_lt _ _)) by lia. cbn [andb mbind res_bind].
  replace (Z.to_nat (i + (32 - n))) with (length pre + 0)%nat by (unfold len in *; lia). rewrite insert_app_r. cbn [insert list_insert].
  replace (pre ++ x :: post) with ((pre ++ [x]) ++ post) by (by rewrite <- app_assoc).
  rewrite IH; [by rewrite <- app_assoc|..]; try lia; [|simpl in Hl; lia].
  rewrite len_app, len_cons. change (len (@nil Z)) with 0. lia.
Qed.

(** A slice of at most 32 bytes is their number; a longer one panics. *)
Lemma SetByteSlice_spec b : bytes_ok b -> len b <= 32 -> exists f, SetByteSlice b = Ok f /\ normal f /\ value f = be_decode b.
Proof.
  intros Hb Hl. unfold SetByteSlice. unfold len in Hl. pose proof (len_nonneg b).
  replace (replicate 32 0) with (replicate (32 - length b) 0 ++ replicate (length b) 0) by (rewrite <- replicate_add; f_equal; lia).
  rewrite fill_slice_spec; [|unfold len; rewrite ?length_replicate; unfold len in *; lia..]. cbn [mbind res_bind].
  eexists. split; [done|]. destruct (SetBytes_spec (replicate (32 - length b) 0 ++ b)) as [Hn ->].
  - rewrite length_app, length_replicate. lia.
  - apply Forall_app. split; [|done]. by apply Forall_replicate.
  - split; [done|]. unfold be_decode. by rewrite reverse_app, reverse_replicate, le_decode_snoc_0.
Qed.

Lemma SetByteSlice_panic b : 32 < len b -> SetByteSlice b = Panic.
Proof.
  intros Hl. unfold SetByteSlice. destruct b as [|x b]; [done|]. cbn [fill_slice]. rewrite len_cons in *. unfold set_idx.
  by rewrite (proj2 (Z.leb_gt 0 _)) by lia.
Qed.

(** * To bytes *)
Lemma byte_of_word x k : 0 <= k -> 0 <= x -> u8 (Z.land (x ≫ k) eightBitsMask) = x / 2 ^ k mod 256.
Proof.
  intros Hk Hx. change eightBitsMask with (2 ^ 8 - 1). rewrite land_ones_mod, Z.shiftr_div_pow2 by lia. unfold wrapu. by rewrite Z.mod_mod.
Qed.

Lemma byte_of_words x y k n m : 0 <= k -> 0 <= n <= 8 -> m = 8 - n -> 0 <= x -> 0 <= y ->
  u8 (Z.lor (Z.land (x ≫ k) (2 ^ n - 1)) (u32 (Z.land y (2 ^ m - 1) ≪ n))) = x / 2 ^ k mod 2 ^ n + y mod 2 ^ m * 2 ^ n.
Proof.
  intros Hk Hn -> Hx Hy. rewrite !land_ones_mod, Z.shiftr_div_pow2 by lia.
  pose proof (Z.mod_pos_bound (x / 2 ^ k) (2 ^ n) ltac:(lia)). pose proof (Z.mod_pos_bound y (2 ^ (8 - n)) ltac:(lia)).
  assert (y mod 2 ^ (8 - n) * 2 ^ n <= (2 ^ (8 - n) - 1) * 2 ^ n) by nia.
  assert (2 ^ (8 - n) * 2 ^ n = 256) by (rewrite <- Z.pow_add_r by lia; by replace (8 - n + n) with 8 by lia).
  rewrite lor_word by lia. rewrite wrapu_small by (unfold is_u; lia). done.
Qed.

Lemma bytes_of_words w0 w1 w2 w3 : 0 <= w0 < 2 ^ 26 -> 0 <= w1 < 2 ^ 26 -> 0 <= w2 < 2 ^ 26 -> 0 <= w3 < 2 ^ 26 ->
  le_decode [u8 (Z.land w0 eightBitsMask); u8 (Z.land (w0 ≫ 8) eightBitsMask); u8 (Z.land (w0 ≫ 16) eightBitsMask);
    u8 (Z.lor (Z.land (w0 ≫ 24) twoBitsMask) (u32 (Z.land w1 sixBitsMask ≪ 2)));
    u8 (Z.land (w1 ≫ 6) eightBitsMask); u8 (Z.land (w1 ≫ 14) eightBitsMask);
    u8 (Z.lor (Z.land (w1 ≫ 22) fourBitsMask) (u32 (Z.land w2 fourBitsMask ≪ 4)));
    u8 (Z.land (w2 ≫ 4) eightBitsMask); u8 (Z.land (w2 ≫ 12) eightBitsMask);
    u8 (Z.lor (Z.land (w2 ≫ 20) sixBitsMask) (u32 (Z.land w3 twoBitsMask ≪ 6)));
    u8 (Z.land (w3 ≫ 2) eightBitsMask); u8 (Z.land (w3 ≫ 10) eightBitsMask); u8 (Z.land (w3 ≫ 18) eightBitsMask)] =
  w0 + w1 * 2 ^ 26 + w2 * 2 ^ 52 + w3 * 2 ^ 78.
Proof.
  intros. change twoBitsMask with (2 ^ 2 - 1). change fourBitsMask with (2 ^ 4 - 1). change sixBitsMask with (2 ^ 6 - 1).
  rewrite !byte_of_words, !byte_of_word by lia. rewrite <- (Z.shiftr_0_r (Z.land w0 _)), Z.shiftr_land. change (eightBitsMask ≫ 0) with eightBitsMask.
  rewrite byte_of_word by lia. cbn [le_decode]. Z.div_mod_to_equations. lia.
Qed.

Lemma PutBytes_decode f : normal f -> be_decode (PutBytes f) = value f.
Proof.
  intros []. unfold PutBytes.
  pose proof (bytes_of_words (n0 f) (n1 f) (n2 f) (n3 f)) as Hl. pose proof (bytes_of_words (n4 f) (n5 f) (n6 f) (n7 f)) as Hm.
  pose proof (bytes_of_words (n8 f) (n9 f) 0 0) as Hh.
  repeat (specialize (Hl ltac:(lia))). repeat (specialize (Hm ltac:(lia))). repeat (specialize (Hh ltac:(lia))).
  rewrite (byte_of_word (n9 f) 14), (byte_of_word (n9 f) 6) in * by lia.
  unfold be_decode, reverse, value. cbn [rev_append le_decode] in *.
  change (Z.land 0 _) with 0 in Hh. change (0 ≫ _) with 0 in Hh. change (u32 (0 ≪ _)) with 0 in Hh.
  change (u8 (Z.land 0 _)) with 0 in Hh. change (u8 (Z.lor (Z.land 0 _) 0)) with 0 in Hh. rewrite Z.lor_0_r in Hh.
  rewrite (Z.shiftr_div_pow2 _ 22), (Z.div_small _ (2 ^ 22)) in Hh by lia. change (u8 (Z.land 0 _)) with 0 in Hh. lia.
Qed.

Lemma PutBytes_ok f : bytes_ok (PutBytes f).
Proof. unfold PutBytes. repeat (apply Forall_cons; split; [apply u8_is_byte|]). done. Qed.

Lemma PutBytes_encode f : normal f -> PutBytes f = be_encode 32 (value f).
Proof. intros Hf. rewrite <- PutBytes_decode by done. symmetry. exact (be_encode_decode _ (PutBytes_ok f)). Qed.

(** C32: A slice of at most 32 bytes is read as the number it denotes in big-endian
    order, into normalized words that are written back as the same bytes with
    zeros in front; a longer slice panics. *)
Theorem field_bytes_roundtrip b : bytes_ok b ->
  (len b <= 32 -> exists f, SetByteSlice b = Ok f /\ normal f /\ value f = be_decode b /\ PutBytes f = replicate (32 - length b) 0 ++ b) /\
  (32 < len b -> SetByteSlice b = Panic).
Proof.
  intros Hb. split; [|apply SetByteSlice_panic]. intros Hl. destruct (SetByteSlice_spec b Hb Hl) as (f & Hf & Hn & Hv).
  exists f. split_and!; [done..|]. rewrite PutBytes_encode, Hv by done. unfold len in Hl.
  replace (be_decode b) with (be_decode (replicate (32 - length b) 0 ++ b)).
  2: { unfold be_decode. by rewrite reverse_app, reverse_replicate, le_decode_snoc_0. }
  rewrite <- be_encode_decode; [|apply Forall_app; split; [by apply Forall_replicate|done]].
  f_equal. rewrite length_app, length_replicate. lia.
Qed.

Lemma field_bytes_roundtrip_witness :
  (exists f, SetByteSlice [1; 2] = Ok f /\ normal f /\ value f = be_decode [1; 2] /\ PutBytes f = replicate (32 - length [1; 2]) 0 ++ [1; 2]) /\
  SetByteSlice (replicate 33 0) = Panic.
Proof.
  split; [apply (field_bytes_roundtrip [1; 2]); [|by vm_compute]|apply (field_bytes_roundtrip (replicate 33 0)); [|by vm_compute]].
  - repeat constructor; by vm_compute.
  - by apply Forall_replicate.
Defined.

End FieldBytes.
