(* ===== verification/Curve.v ===== *)
(** The curve: points and scalars, [src/btcec/btcec.go].

    Points go between big integers and field values, the curve equation is
    evaluated with the field arithmetic, and a scalar is split in two halves that
    are written in non-adjacent form. *)
From S2P Require Import Prelude PubKey Field.
Import btcec Field.
#[local] Open Scope Z_scope.

Module Curve.

(** * Parameters (initS256) *)
Definition byteSize : Z := 256 / 8.
Definition lambda : Z := 0x5363AD4CC05C30E0A5261C028812645A122E22EA20816678DF02967C1B23BD72.
Definition a1 : Z := 0x3086D221A7D46BCDE86C90E49284EB15.
Definition b1 : Z := -0xE4437ED6010E88286F547FA90ABFE4C3.
Definition a2 : Z := 0x114CA50F7A8E2F3F657C1108D9D44CFD8.
Definition b2 : Z := 0x3086D221A7D46BCDE86C90E49284EB15.

(** * Points *)

(** [big.Int.Bytes] drops the sign. *)
Definition Bytes (x : Z) : bytes := bigBytes (Z.abs x).

Definition bigAffineToField (x y : Z) : res string (fieldVal * fieldVal) :=
  x3 ← SetByteSlice (Bytes x);
  y3 ← SetByteSlice (Bytes y);
  Ok (x3, y3).

Definition fieldJacobianToBigAffine (x y z : fieldVal) : Z * Z :=
  let zInv := Inverse z in
  let tempZ := SquareVal zInv in
  let x := Mul x tempZ in
  let y := Mul y (Mul tempZ zInv) in
  let x := Normalize x in
  let y := Normalize y in
  (be_decode (PutBytes x), be_decode (PutBytes y)).

Definition IsOnCurve (x y : Z) : res string bool :=
  '(fx, fy) ← bigAffineToField x y;
  let y2 := Normalize (SquareVal fy) in
  let result := Normalize (AddInt (Mul (SquareVal fx) fx) 7) in
  Ok (Equals y2 result).

(** * Scalars *)
Definition moduloReduce (k : bytes) : bytes :=
  if len k >? byteSize then
    let tmpK := be_decode k in
    let tmpK := tmpK mod N in
    Bytes tmpK
  else k.

Definition splitK (k : bytes) : bytes * bytes * Z * Z :=
  let bigIntK := be_decode k in
  let c1 := b2 * bigIntK in
  let c1 := c1 / N in
  let c2 := b1 * bigIntK in
  let c2 := c2 / N in
  let tmp1 := c1 * a1 in
  let tmp2 := c2 * a2 in
  let k1 := bigIntK - tmp1 in
  let k1 := k1 + tmp2 in
  let tmp1 := c1 * b1 in
  let tmp2 := c2 * b2 in
  let k2 := tmp2 - tmp1 in
  (Bytes k1, Bytes k2, Z.sgn k1, Z.sgn k2).

(** One bit: the carry and the bytes [retPos[i+1]] and [retNeg[i+1]]. *)
Definition naf_bit (curIsOne nextIsOne carry : bool) (j pos neg : Z) : bool * Z * Z :=
  if carry then
    if curIsOne then (carry, pos, neg)
    else if nextIsOne then (carry, pos, u8 (neg + (1 ≪ j)))
    else (false, u8 (pos + (1 ≪ j)), neg)
  else if curIsOne then
    if nextIsOne then (true, pos, u8 (neg + (1 ≪ j)))
    else (carry, u8 (pos + (1 ≪ j)), neg)
  else (carry, pos, neg).

(** The [n] bits of a byte from [j], where [above] is the byte before it in the
    slice, if there is one. *)
Fixpoint naf_bits (n : nat) (j curByte : Z) (above : option Z) (carry : bool) (pos neg : Z) : bool * Z * Z :=
  match n with
  | O => (carry, pos, neg)
  | S n =>
      let curIsOne := Z.land curByte 1 =? 1 in
      let nextIsOne :=
        if j =? 7 then match above with None => false | Some b => Z.land b 1 =? 1 end
        else Z.land curByte 2 =? 2 in
      let '(carry, pos, neg) := naf_bit curIsOne nextIsOne carry j pos neg in
      naf_bits n (j + 1) (curByte ≫ 1) above carry pos neg
  end.

(** The bytes from the last to the first.  A pass writes one byte of each result. *)
Fixpoint naf_bytes (k : bytes) (carry : bool) (retPos retNeg : bytes) : bool * bytes * bytes :=
  match k with
  | [] => (carry, retPos, retNeg)
  | curByte :: rest =>
      let '(carry, pos, neg) := naf_bits 8 0 curByte (head rest) carry 0 0 in
      naf_bytes rest carry (pos :: retPos) (neg :: retNeg)
  end.

Definition NAF (k : bytes) : bytes * bytes :=
  let '(carry, retPos, retNeg) := naf_bytes (reverse k) false [] [] in
  ((if carry then 1 else 0) :: retPos, 0 :: retNeg).

End Curve.
