(* ===== verification/CurveSpec.v ===== *)
(** Correctness of the curve code: the curve equation and the conversions of
    points are what they are over the integers modulo the prime, and the split of
    a scalar and its non-adjacent form denote the scalar. *)
From S2P Require Import Prelude PubKey SecpPrime Field FieldSpec FieldBytes Curve.
Import btcec Field FieldSpec FieldBytes.
#[local] Open Scope Z_scope.

Module CurveSpec.

(** * Points *)
Lemma SetByteSlice_big x : 0 <= x < 2 ^ 256 -> exists f, SetByteSlice (Curve.Bytes x) = Ok f /\ normal f /\ value f = x.
Proof.
  intros Hx. unfold Curve.Bytes. rewrite Z.abs_eq by lia. destruct (SetByteSlice_spec (bigBytes x)) as (f & Hf & Hn & Hv).
  - apply bigBytes_ok.
  - apply bigBytes_length. lia.
  - exists f. rewrite be_decode_bigBytes in Hv by lia. done.
Qed.

Lemma normal_mag f : normal f -> mag 1 f.
Proof. intros []. split; unfold word; lia. Qed.

Lemma normal_mag8 f : normal f -> mag 8 f.
Proof. intros Hf. apply (mag_le 1); [lia|by apply normal_mag]. Qed.

Lemma Normalize_tight f : tight f -> normal (Normalize f) /\ value (Normalize f) = value f mod P.
Proof. intros Hf. pose proof (tight_value f Hf). destruct Hf. apply (Normalize_small f 1); [lia|done|lia]. Qed.

(** The curve equation with the field arithmetic is the equation modulo the prime. *)
Lemma IsOnCurve_field x y : 0 <= x < 2 ^ 256 -> 0 <= y < 2 ^ 256 -> Curve.IsOnCurve x y = Ok (IsOnCurve x y).
Proof.
  intros Hx Hy. destruct (SetByteSlice_big x) as (fx & Ex & Nx & Vx); [lia|]. destruct (SetByteSlice_big y) as (fy & Ey & Ny & Vy); [lia|].
  unfold Curve.IsOnCurve, Curve.bigAffineToField. rewrite Ex, Ey. cbn [mbind res_bind]. f_equal.
  destruct (Square_spec fy) as [Ty Sy]; [by apply normal_mag8|]. destruct (Square_spec fx) as [Tx Sx]; [by apply normal_mag8|].
  destruct (Mul2_spec (SquareVal fx) fx) as [Tc Sc]; [by apply tight_mag|by apply normal_mag8|].
  destruct (AddInt_spec (Mul (SquareVal fx) fx) 1 7) as [Ma Va]; [lia..|by destruct Tc|].
  destruct (Normalize_tight _ Ty) as [Nl Vl]. destruct (Normalize_small _ 2 ltac:(lia) Ma) as [Nr Vr].
  { rewrite Va. pose proof (tight_value _ Tc). unfold Mul. lia. }
  unfold IsOnCurve. rewrite Vx in *. rewrite Vy in *.
  apply Bool.eq_true_iff_eq. rewrite Equals_eq, Z.eqb_eq.
  assert (value (Normalize (AddInt (Mul (SquareVal fx) fx) 7)) = (x * x * x + 7) mod P) as Hr.
  { rewrite Vr, Va. unfold Mul. rewrite <- Z.add_mod_idemp_l, Sc by done.
    by rewrite <- (Z.mul_mod_idemp_l (value _)), Sx, Z.mul_mod_idemp_l, Z.add_mod_idemp_l by done. }
  split; [intros E; congruence|]. intros E. apply value_inj; [done..|]. congruence.
Qed.

Lemma mod_exists a b : a mod P = b mod P -> exists q, a = b + P * q.
Proof. intros H. apply Z.cong_iff_ex in H as [q Hq]. exists q. lia. Qed.

Lemma exists_mod a b q : a = b + P * q -> a mod P = b mod P.
Proof. intros ->. by rewrite (Z.mul_comm P), Z_mod_plus_full. Qed.

(** The product of two values that fit, as a number modulo the prime. *)
Lemma Mul2_exists a b : mag 8 a -> mag 8 b -> tight (Mul2 a b) /\ exists q, value (Mul2 a b) = value a * value b + P * q.
Proof. intros Ha Hb. destruct (Mul2_spec a b Ha Hb) as [Ht E]. split; [done|]. by apply mod_exists. Qed.

(** Multiplying by a power of an inverse undoes a multiplication. *)
Lemma undo_square p a c v q q2 qx : v * c = 1 + p * q ->
  (a * (v * v + p * q2) + p * qx) * c ^ 2 = a + p * (a * (2 * q + p * q * q) + a * q2 * c ^ 2 + qx * c ^ 2).
Proof. intros H. transitivity (a * (v * c) ^ 2 + p * (a * q2 * c ^ 2 + qx * c ^ 2)); [ring|]. rewrite H. ring. Qed.

Lemma undo_cube p a c v q q2 q3 qy : v * c = 1 + p * q ->
  (a * ((v * v + p * q2) * v + p * q3) + p * qy) * c ^ 3 =
  a + p * (a * (3 * q + 3 * p * q ^ 2 + p ^ 2 * q ^ 3) + (a * (q2 * v + q3) + qy) * c ^ 3).
Proof. intros H. transitivity (a * (v * c) ^ 3 + p * ((a * (q2 * v + q3) + qy) * c ^ 3)); [ring|]. rewrite H. ring. Qed.

(** The affine point of a point in Jacobian coordinates that is not at infinity. *)
Lemma affine_spec x y z : mag 8 x -> mag 8 y -> mag 8 z -> value z mod P <> 0 ->
  let '(ax, ay) := Curve.fieldJacobianToBigAffine x y z in
  0 <= ax < P /\ 0 <= ay < P /\
  (ax * value z ^ 2) mod P = value x mod P /\ (ay * value z ^ 3) mod P = value y mod P.
Proof.
  intros Hx Hy Hz Hnz. unfold Curve.fieldJacobianToBigAffine, Mul. rewrite (SquareVal_Mul2 (Inverse z)).
  pose proof (Inverse_spec z Hz Hnz) as Hi. destruct (Inverse_power z Hz) as (_ & Mi & _). set (i := Inverse z) in *. clearbody i.
  destruct (mod_exists _ 1 Hi) as [q Hq]. destruct (Mul2_exists i i Mi Mi) as [T2 [q2 V2]]. pose proof (tight_mag _ T2) as M2.
  destruct (Mul2_exists x _ Hx M2) as [Tx [qx Vx]]. destruct (Mul2_exists _ i M2 Mi) as [T3 [q3 V3]].
  destruct (Mul2_exists y _ Hy (tight_mag _ T3)) as [Ty [qy Vy]].
  destruct (Normalize_tight _ Tx) as [Nx Ex]. destruct (Normalize_tight _ Ty) as [Ny Ey].
  rewrite !PutBytes_decode by done. rewrite Ex, Ey, !Z.mul_mod_idemp_l by done.
  split_and!; [apply Z.mod_pos_bound; done..| |].
  - rewrite Vx, V2. eapply exists_mod, undo_square, Hq.
  - rewrite Vy, V3, V2. eapply exists_mod, undo_cube, Hq.
Qed.

(** * Scalars *)
Lemma be_decode_Bytes x : be_decode (Curve.Bytes x) = Z.abs x.
Proof. apply be_decode_bigBytes. lia. Qed.

Lemma be_decode_nonneg l : bytes_ok l -> 0 <= be_decode l.
Proof. intros Hl. apply (le_decode_range (reverse l)). by apply Forall_reverse. Qed.

Lemma moduloReduce_spec k : bytes_ok k ->
  bytes_ok (Curve.moduloReduce k) /\ len (Curve.moduloReduce k) <= 32 /\ be_decode (Curve.moduloReduce k) mod N = be_decode k mod N.
Proof.
  intros Hk. unfold Curve.moduloReduce. change Curve.byteSize with 32. destruct (Z.gtb_spec (len k) 32) as [Hl|Hl]; [|done].
  pose proof (Z.mod_pos_bound (be_decode k) N ltac:(done)). assert (N < 2 ^ 256) by done. rewrite be_decode_Bytes, Z.abs_eq, Z.mod_mod by (done || lia).
  unfold Curve.Bytes. rewrite Z.abs_eq by lia. split_and!; [apply bigBytes_ok|apply bigBytes_length; lia|done].
Qed.

Lemma scalar_mod a b q : a = b + N * q -> a mod N = b mod N.
Proof. intros ->. by rewrite (Z.mul_comm N), Z_mod_plus_full. Qed.

Lemma split_sum n K l a1 b1 a2 b2 c1 c2 : a1 + b1 * l = n * ((a1 + b1 * l) / n) -> a2 + b2 * l = n * ((a2 + b2 * l) / n) ->
  K - c1 * a1 + c2 * a2 + (c2 * b2 - c1 * b1) * l = K + n * (c2 * ((a2 + b2 * l) / n) - c1 * ((a1 + b1 * l) / n)).
Proof. intros H1 H2. transitivity (K + c2 * (a2 + b2 * l) - c1 * (a1 + b1 * l)); [ring|]. rewrite H1, H2 at 1. ring. Qed.

(** The two halves of a scalar: their signed combination with lambda is the scalar
    modulo the order, and they are half as long, whatever the roundings. *)
Lemma splitK_spec k : bytes_ok k ->
  let '(k1, k2, s1, s2) := Curve.splitK k in
  (s1 * be_decode k1 + s2 * be_decode k2 * Curve.lambda) mod N = be_decode k mod N /\
  be_decode k1 < 2 ^ 129 /\ be_decode k2 < 2 ^ 129.
Proof.
  intros Hk%be_decode_nonneg. unfold Curve.splitK. cbv zeta. set (K := be_decode k) in *. clearbody K.
  rewrite !be_decode_Bytes, !(Z.mul_comm (Z.sgn _)), !Z.abs_sgn.
  pose proof (Z.div_mod (Curve.b2 * K) N ltac:(done)) as H1. pose proof (Z.mod_pos_bound (Curve.b2 * K) N ltac:(done)) as R1.
  pose proof (Z.div_mod (Curve.b1 * K) N ltac:(done)) as H2. pose proof (Z.mod_pos_bound (Curve.b1 * K) N ltac:(done)) as R2.
  generalize dependent (Curve.b2 * K / N). generalize dependent (Curve.b1 * K / N).
  generalize dependent ((Curve.b2 * K) mod N). generalize dependent ((Curve.b1 * K) mod N). intros r2 R2 r1 R1 c2 H2 c1 H1.
  split; [|unfold Curve.a1, Curve.a2, Curve.b1, Curve.b2, N in *; lia].
  apply (scalar_mod _ _ (c2 * ((Curve.a2 + Curve.b2 * Curve.lambda) / N) - c1 * ((Curve.a1 + Curve.b1 * Curve.lambda) / N))).
  apply split_sum; done.
Qed.

(** * Non-adjacent form *)

(** The carry and the digit, in its positive and negative part, at a bit. *)
Definition naf_digit (cur next carry : bool) : bool * bool * bool :=
  if carry then if cur then (true, false, false) else if next then (true, false, true) else (false, true, false)
  else if cur then if next then (true, false, true) else (false, true, false) else (false, false, false).

Definition nonzero (p n i : Z) : bool := Z.testbit p i || Z.testbit n i.

(** The digits below [w] with the carry denote the bits below [w]; no two next to
    each other are non-zero, and below a non-zero one the carry is the next bit. *)
Record naf_inv (K w : Z) (c : bool) (p n : Z) : Prop := mkNafInv {
  naf_pos : 0 <= p < 2 ^ w;
  naf_neg : 0 <= n < 2 ^ w;
  naf_value : p - n + Z.b2z c * 2 ^ w = K mod 2 ^ w;
  naf_sign i : 0 <= i -> Z.testbit p i && Z.testbit n i = false;
  naf_apart i : 0 <= i -> nonzero p n i && nonzero p n (i + 1) = false;
  naf_carry i : 0 <= i -> i + 1 = w -> nonzero p n i = true -> c = Z.testbit K w
}.

Lemma testbit_high x w i : 0 <= w <= i -> 0 <= x < 2 ^ w -> Z.testbit x i = false.
Proof. intros Hi Hx. rewrite <- (Z.mod_small x (2 ^ w)) by done. by apply Z.mod_pow2_bits_high. Qed.

Lemma testbit_top (d : bool) x w i : 0 <= w -> 0 <= x < 2 ^ w -> 0 <= i ->
  Z.testbit (x + Z.b2z d * 2 ^ w) i = if i =? w then d else Z.testbit x i.
Proof.
  intros Hw Hx Hi. rewrite Z.add_comm, <- lor_shiftl_add, Z.lor_spec, Z.shiftl_spec by done.
  destruct (Z.eqb_spec i w) as [->|Hn].
  - rewrite Z.sub_diag, (testbit_high x w), orb_false_r by lia. by destruct d.
  - destruct (decide (i < w)); [by rewrite Z.testbit_neg_r by lia|].
    rewrite (testbit_high x w), orb_false_r by lia. destruct d; [|apply Z.testbit_0_l]. apply Z.bits_above_log2; cbn; lia.
Qed.

Lemma mod_next K w : 0 <= w -> K mod 2 ^ (w + 1) = K mod 2 ^ w + Z.b2z (Z.testbit K w) * 2 ^ w.
Proof. intros Hw. rewrite Z.pow_add_r, Z.rem_mul_r, Z.testbit_spec' by lia. change (2 ^ 1) with 2. lia. Qed.

Lemma naf_step K w c p n c' dp dn : 0 <= w -> naf_inv K w c p n ->
  naf_digit (Z.testbit K w) (Z.testbit K (w + 1)) c = (c', dp, dn) ->
  naf_inv K (w + 1) c' (p + Z.b2z dp * 2 ^ w) (n + Z.b2z dn * 2 ^ w).
Proof.
  intros Hw [Hp Hn Hv Hs Ha Hc] Hd. unfold naf_digit in Hd. pose proof (mod_next K w Hw) as Hm.
  pose proof (Z.pow_succ_r 2 w Hw) as Hs2. rewrite <- Z.add_1_r in Hs2.
  assert (forall i, 0 <= i -> nonzero (p + Z.b2z dp * 2 ^ w) (n + Z.b2z dn * 2 ^ w) i = if i =? w then dp || dn else nonzero p n i) as Hz.
  { intros i Hi. unfold nonzero. rewrite !testbit_top by done. by destruct (i =? w). }
  split.
  - destruct dp; cbn [Z.b2z]; lia.
  - destruct dn; cbn [Z.b2z]; lia.
  - rewrite Hm, <- Hv. destruct c, (Z.testbit K w), (Z.testbit K (w + 1)); injection Hd as <- <- <-; cbn [Z.b2z]; lia.
  - intros i Hi. rewrite !testbit_top by done. destruct (i =? w); [|by apply Hs].
    destruct c, (Z.testbit K w), (Z.testbit K (w + 1)); by injection Hd as <- <- <-.
  - intros i Hi. rewrite !Hz by lia. destruct (Z.eqb_spec i w) as [->|Hi1].
    + rewrite (proj2 (Z.eqb_neq (w + 1) w)) by lia. unfold nonzero. by rewrite !(testbit_high _ w (w + 1)), andb_false_r by lia.
    + destruct (Z.eqb_spec (i + 1) w) as [Hi2|Hi2]; [|by apply Ha]. destruct (nonzero p n i) eqn:E; [|done].
      pose proof (Hc i Hi Hi2 E) as ->. destruct (Z.testbit K w), (Z.testbit K (w + 1)); by injection Hd as <- <- <-.
  - intros i Hi Hi2. assert (i = w) as -> by lia. rewrite Hz, Z.eqb_refl by done.
    destruct c, (Z.testbit K w), (Z.testbit K (w + 1)); by injection Hd as <- <- <-.
Qed.

Lemma land_bit0 x : (Z.land x 1 =? 1) = Z.testbit x 0.
Proof. change 1 with (Z.ones 1) at 1. rewrite Z.land_ones, <- Z.bit0_mod by lia. by destruct (Z.testbit x 0). Qed.

Lemma land_bit1 x : (Z.land x 2 =? 2) = Z.testbit x 1.
Proof.
  assert (Z.land x 2 = if Z.testbit x 1 then 2 else 0) as ->; [|by destruct (Z.testbit x 1)].
  apply Z.bits_inj'. intros i Hi. rewrite Z.land_spec. change 2 with (2 ^ 1) at 1. rewrite Z.pow2_bits_eqb by done.
  destruct (Z.eqb_spec 1 i) as [<-|Hn]; [by destruct (Z.testbit x 1)|]. rewrite andb_false_r.
  destruct (Z.testbit x 1); [|by rewrite Z.testbit_0_l]. change 2 with (2 ^ 1). rewrite Z.pow2_bits_eqb by done. symmetry. by apply Z.eqb_neq.
Qed.

Lemma naf_bit_eq cur next carry j pos neg : 0 <= j < 8 -> 0 <= pos < 2 ^ j -> 0 <= neg < 2 ^ j ->
  Curve.naf_bit cur next carry j pos neg =
  let '(c, dp, dn) := naf_digit cur next carry in (c, pos + Z.b2z dp * 2 ^ j, neg + Z.b2z dn * 2 ^ j).
Proof.
  intros Hj Hp Hn. unfold Curve.naf_bit, naf_digit. rewrite Z.shiftl_1_l.
  assert (2 ^ j + 2 ^ j <= 2 ^ 8) by (transitivity (2 ^ (j + 1)); [rewrite Z.pow_add_r; lia|apply Z.pow_le_mono_r; lia]).
  rewrite !wrapu_small by (unfold is_u; lia). destruct carry, cur, next; cbn [Z.b2z]; by rewrite ?Z.mul_1_l, ?Z.mul_0_l, ?Z.add_0_r.
Qed.

(** The bits of a number from the byte at bit [w] on. *)
Definition bits_from (K w : Z) (l : bytes) : Prop := forall i, 0 <= i -> Z.testbit K (w + i) = Z.testbit (le_decode l) i.

Lemma testbit_cons b l i : is_byte b -> 0 <= i -> Z.testbit (le_decode (b :: l)) i = if i <? 8 then Z.testbit b i else Z.testbit (le_decode l) (i - 8).
Proof.
  intros Hb Hi. unfold is_byte in Hb. cbn [le_decode]. replace (b + 256 * le_decode l) with (le_decode l * 2 ^ 8 + b) by lia.
  rewrite <- lor_shiftl_add, Z.lor_spec, Z.shiftl_spec by lia. destruct (Z.ltb_spec i 8).
  - by rewrite Z.testbit_neg_r by lia.
  - by rewrite (testbit_high b 8), orb_false_r by lia.
Qed.

Lemma naf_bits_spec K w b rest P0 N0 n : is_byte b -> bytes_ok rest -> 0 <= w -> bits_from K w (b :: rest) -> 0 <= P0 < 2 ^ w -> 0 <= N0 < 2 ^ w ->
  forall j c pos neg c' pos' neg', j + Z.of_nat n = 8 -> 0 <= j -> 0 <= pos < 2 ^ j -> 0 <= neg < 2 ^ j ->
  naf_inv K (w + j) c (P0 + pos * 2 ^ w) (N0 + neg * 2 ^ w) ->
  Curve.naf_bits n j (b ≫ j) (head rest) c pos neg = (c', pos', neg') ->
  is_byte pos' /\ is_byte neg' /\ naf_inv K (w + 8) c' (P0 + pos' * 2 ^ w) (N0 + neg' * 2 ^ w).
Proof.
  intros Hb Hr Hw HK HP HN. induction n as [|n IH]; intros j c pos neg c' pos' neg' Hj Hj0 Hp Hn Hi E.
  { cbn in E. injection E as <- <- <-. replace j with 8 in * by lia. done. }
  rewrite Nat2Z.inj_succ in Hj. cbn [Curve.naf_bits] in E. rewrite land_bit0, land_bit1, Z.shiftr_spec, Z.add_0_l in E by lia.
  assert (Z.testbit b j = Z.testbit K (w + j)) as E1.
  { rewrite HK, testbit_cons by done. by rewrite (proj2 (Z.ltb_lt j 8)) by lia. }
  assert ((if j =? 7 then match head rest with Some b => Z.land b 1 =? 1 | None => false end else Z.testbit (b ≫ j) 1) = Z.testbit K (w + j + 1)) as E2.
  { rewrite <- Z.add_assoc, HK, testbit_cons by (done || lia). destruct (Z.eqb_spec j 7) as [->|].
    - change (7 + 1 <? 8) with false. cbn iota. destruct rest as [|x rest]; [by rewrite Z.testbit_0_l|]. cbn [head].
      apply Forall_cons in Hr as [Hx _]. by rewrite land_bit0, testbit_cons by done.
    - rewrite (proj2 (Z.ltb_lt (j + 1) 8)), Z.shiftr_spec by lia. f_equal. lia. }
  rewrite E1, E2, naf_bit_eq in E by lia. destruct (naf_digit _ _ c) as [[c1 dp] dn] eqn:Ed.
  pose proof (naf_step K (w + j) _ _ _ _ _ _ ltac:(lia) Hi Ed) as Hi'.
  assert (2 ^ (w + j) = 2 ^ j * 2 ^ w) as Ew by (rewrite Z.pow_add_r; lia). assert (2 ^ (j + 1) = 2 * 2 ^ j) as Ej by (rewrite Z.pow_add_r; lia).
  rewrite Z.shiftr_shiftr in E by lia. apply IH in E; [done|..]; try lia; [destruct dp; cbn [Z.b2z]; lia|destruct dn; cbn [Z.b2z]; lia|].
  rewrite Ew in Hi'. rewrite Z.add_assoc. rewrite !Z.mul_add_distr_r, <- !Z.mul_assoc, !Z.add_assoc. exact Hi'.
Qed.

Lemma le_decode_last l x : le_decode (l ++ [x]) = le_decode l + x * 2 ^ (8 * len l).
Proof.
  induction l as [|y l IH]; [cbn [app le_decode]; change (2 ^ (8 * len [])) with 1; lia|]. cbn [app le_decode]. rewrite IH. pose proof (len_nonneg l).
  replace (8 * len (y :: l)) with (8 + 8 * len l) by (rewrite len_cons; lia). rewrite Z.pow_add_r by lia. lia.
Qed.

Lemma be_decode_first x l : be_decode (x :: l) = be_decode l + x * 2 ^ (8 * len l).
Proof. unfold be_decode. rewrite reverse_cons, le_decode_last. unfold len. by rewrite length_reverse. Qed.

Lemma naf_bytes_spec K l : forall c p n c' p' n', bytes_ok l -> bytes_ok p -> bytes_ok n -> len p = len n ->
  bits_from K (8 * len p) l -> naf_inv K (8 * len p) c (be_decode p) (be_decode n) ->
  Curve.naf_bytes l c p n = (c', p', n') ->
  bytes_ok p' /\ bytes_ok n' /\ len p' = len p + len l /\ len n' = len p + len l /\
  naf_inv K (8 * len p') c' (be_decode p') (be_decode n').
Proof.
  induction l as [|b l IH]; intros c p n c' p' n' Hl Hp Hn Hpn HK Hi E; cbn [Curve.naf_bytes] in E.
  { injection E as <- <- <-. change (len (@nil Z)) with 0. rewrite Z.add_0_r. done. }
  apply Forall_cons in Hl as [Hb Hl]. pose proof (len_nonneg p) as Hlp.
  destruct (Curve.naf_bits 8 0 b (head l) c 0 0) as [[c1 pos] neg] eqn:Eb.
  rewrite <- (Z.shiftr_0_r b) in Eb.
  destruct (naf_bits_spec K (8 * len p) b l (be_decode p) (be_decode n) 8 Hb Hl ltac:(lia) HK (naf_pos _ _ _ _ _ Hi) (naf_neg _ _ _ _ _ Hi) 0 c 0 0 c1 pos neg)
    as (Hpos & Hneg & Hi1); [lia..|by rewrite Z.mul_0_l, !Z.add_0_r|done|].
  rewrite Hpn in Hi1 at 3. rewrite <- !be_decode_first in Hi1.
  apply IH in E; [|done|by constructor|by constructor|by rewrite !len_cons, Hpn|..].
  - rewrite !len_cons in *. destruct E as (?&?&?&?&?). split_and!; (done || lia).
  - intros i Hi0. rewrite len_cons. replace (8 * (1 + len p) + i) with (8 * len p + (8 + i)) by lia.
    rewrite HK, testbit_cons by (done || lia). rewrite (proj2 (Z.ltb_ge _ _)) by lia. f_equal. lia.
  - rewrite len_cons. by replace (8 * (1 + len p)) with (8 * len p + 8) by lia.
Qed.

Lemma naf_inv_nil K : naf_inv K 0 false 0 0.
Proof. split; [done|done|by rewrite Z.mod_1_r|..]; intros i Hi; unfold nonzero; rewrite ?Z.testbit_0_l; (done || lia). Qed.

(** The two results denote the scalar by their difference, no digit is both, and
    no two digits next to each other are non-zero. *)
Lemma NAF_spec k : bytes_ok k ->
  let '(p, n) := Curve.NAF k in
  bytes_ok p /\ bytes_ok n /\ len p = len k + 1 /\ len n = len k + 1 /\
  be_decode p - be_decode n = be_decode k /\
  (forall i, 0 <= i -> Z.testbit (be_decode p) i && Z.testbit (be_decode n) i = false) /\
  (forall i, 0 <= i -> nonzero (be_decode p) (be_decode n) i && nonzero (be_decode p) (be_decode n) (i + 1) = false).
Proof.
  intros Hk. unfold Curve.NAF. destruct (Curve.naf_bytes (reverse k) false [] []) as [[c p] n] eqn:E.
  apply (naf_bytes_spec (be_decode k)) in E as (Hp & Hn & Lp & Ln & Hi); [|by apply Forall_reverse|constructor..| |apply naf_inv_nil].
  2: { intros i Hi. unfold be_decode. by rewrite Z.add_0_l. }
  change (len (@nil Z)) with 0 in Lp, Ln. unfold len in Lp at 2, Ln at 2. rewrite length_reverse, Z.add_0_l in *. fold (len k) in *.
  pose proof (len_nonneg k). pose proof (le_decode_range (reverse k) ltac:(by apply Forall_reverse)) as HK. fold (be_decode k) in HK.
  unfold len in HK. rewrite length_reverse in HK. fold (len k) in HK. rewrite <- (Z.pow_mul_r 2 8) in HK by lia. rewrite Lp in Hi.
  assert (Z.testbit (be_decode k) (8 * len k) = false) as Ht by (apply (testbit_high _ (8 * len k)); lia).
  apply (naf_step _ _ _ _ _ false c false) in Hi; [|lia|].
  2: { rewrite Ht, (testbit_high _ (8 * len k)) by lia. by destruct c. }
  rewrite Z.mul_0_l, Z.add_0_r in Hi.
  assert (be_decode ((if c then 1 else 0) :: p) = be_decode p + Z.b2z c * 2 ^ (8 * len k)) as -> by (rewrite be_decode_first, Lp; by destruct c).
  assert (be_decode (0 :: n) = be_decode n) as -> by (rewrite be_decode_first; lia).
  destruct Hi as [_ _ Hv Hs Ha _]. rewrite !len_cons. split_and!; try done; [constructor; [by destruct c|done]|by constructor|lia|lia|].
  rewrite Z.add_0_r, Z.mod_small in Hv; [done|]. rewrite Z.pow_add_r; lia.
Qed.

(** * Properties *)
Lemma IsOnCurve_panic x y : 0 <= x -> 0 <= y -> 2 ^ 256 <= x \/ 2 ^ 256 <= y -> Curve.IsOnCurve x y = Panic.
Proof.
  intros Hx Hy Hb. unfold Curve.IsOnCurve, Curve.bigAffineToField.
  assert (forall z, 2 ^ 256 <= z -> SetByteSlice (Curve.Bytes z) = Panic) as Hp.
  { intros z Hz. apply SetByteSlice_panic. unfold Curve.Bytes, bigBytes. rewrite Z.abs_eq by lia.
    rewrite (proj2 (Z.leb_gt z 0)) by lia. unfold len. rewrite length_be_encode.
    assert (256 <= Z.log2 z) by (apply Z.log2_le_pow2; lia).
    assert (32 <= Z.log2 z / 8) by (apply Z.div_le_lower_bound; lia). lia. }
  destruct (decide (2 ^ 256 <= x)) as [Hx2|Hx2]; [by rewrite (Hp x Hx2)|].
  destruct (SetByteSlice_big x) as (f & -> & _); [lia|]. cbn [mbind res_bind]. by rewrite (Hp y) by lia.
Qed.

(** C33: The curve equation evaluated with the field arithmetic on two coordinates of at
    most 256 bits answers whether y^2 = x^3 + 7 modulo the prime; a coordinate that
    does not fit in 256 bits panics. *)
Theorem IsOnCurve_exact x y : 0 <= x -> 0 <= y ->
  Curve.IsOnCurve x y = if bool_decide (x < 2 ^ 256 /\ y < 2 ^ 256) then Ok (IsOnCurve x y) else Panic.
Proof.
  intros Hx Hy. case_bool_decide as Hb; [apply IsOnCurve_field; lia|]. apply IsOnCurve_panic; lia.
Qed.

Lemma IsOnCurve_exact_witness : Curve.IsOnCurve (X SecpPrime.example_key) (Y SecpPrime.example_key) = Ok true /\ Curve.IsOnCurve (2 ^ 256) 1 = Panic.
Proof.
  split; [rewrite (IsOnCurve_exact (X SecpPrime.example_key) (Y SecpPrime.example_key)) by (by vm_compute)|rewrite (IsOnCurve_exact (2 ^ 256) 1) by done];
    by vm_compute.
Defined.

(** The affine point computed from Jacobian coordinates (x, y, z) with z not zero
    has coordinates below the prime, and they are x/z^2 and y/z^3 modulo it. *)
Theorem affine_coordinates x y z : mag 8 x -> mag 8 y -> mag 8 z -> value z mod P <> 0 ->
  let '(ax, ay) := Curve.fieldJacobianToBigAffine x y z in
  0 <= ax < P /\ 0 <= ay < P /\
  (ax * value z ^ 2) mod P = value x mod P /\ (ay * value z ^ 3) mod P = value y mod P.
Proof. apply affine_spec. Qed.

Lemma bigBytes_short z n : 0 <= z < 2 ^ (8 * n) -> 0 <= n -> len (bigBytes z) <= n.
Proof.
  intros Hz Hn. unfold bigBytes. destruct (Z.leb_spec z 0); [done|]. unfold len. rewrite length_be_encode.
  assert (Z.log2 z < 8 * n) by (apply Z.log2_lt_pow2; lia). pose proof (Z.log2_nonneg z).
  assert (Z.log2 z / 8 < n) by (apply Z.div_lt_upper_bound; lia). pose proof (Z.div_pos (Z.log2 z) 8 ltac:(lia) ltac:(lia)). lia.
Qed.

Lemma splitK_bytes k : bytes_ok k -> let '(k1, k2, _, _) := Curve.splitK k in bytes_ok k1 /\ bytes_ok k2 /\ len k1 <= 17 /\ len k2 <= 17.
Proof.
  intros Hk. pose proof (splitK_spec k Hk) as H. unfold Curve.splitK in *. cbv zeta in *. rewrite !be_decode_Bytes in H. destruct H as (_ & H1 & H2).
  split_and!; [apply bigBytes_ok..|apply bigBytes_short; lia|apply bigBytes_short; lia].
Qed.

(** C34: Multiplying a point by a scalar of any length uses the digits of two halves of
    it: the signed halves in non-adjacent form, the second one times lambda, denote
    the scalar modulo the order of the group; a half has at most 18 bytes, no two
    digits next to each other are non-zero and no digit is both positive and
    negative. *)
Theorem scalar_decomposition k : bytes_ok k ->
  let '(k1, k2, s1, s2) := Curve.splitK (Curve.moduloReduce k) in
  let '(p1, n1) := Curve.NAF k1 in
  let '(p2, n2) := Curve.NAF k2 in
  (s1 * (be_decode p1 - be_decode n1) + s2 * (be_decode p2 - be_decode n2) * Curve.lambda) mod N = be_decode k mod N /\
  len p1 <= 18 /\ len p2 <= 18 /\
  forall i, 0 <= i ->
    Z.testbit (be_decode p1) i && Z.testbit (be_decode n1) i = false /\ Z.testbit (be_decode p2) i && Z.testbit (be_decode n2) i = false /\
    nonzero (be_decode p1) (be_decode n1) i && nonzero (be_decode p1) (be_decode n1) (i + 1) = false /\
    nonzero (be_decode p2) (be_decode n2) i && nonzero (be_decode p2) (be_decode n2) (i + 1) = false.
Proof.
  intros Hk. destruct (moduloReduce_spec k Hk) as (Hm & _ & Em). pose proof (splitK_spec _ Hm) as Hs. pose proof (splitK_bytes _ Hm) as Hb.
  destruct (Curve.splitK _) as [[[k1 k2] s1] s2]. destruct Hs as (Es & _ & _), Hb as (H1 & H2 & L1 & L2).
  pose proof (NAF_spec k1 H1) as N1. pose proof (NAF_spec k2 H2) as N2.
  destruct (Curve.NAF k1) as [p1 n1], (Curve.NAF k2) as [p2 n2]. destruct N1 as (_ & _ & Lp1 & _ & V1 & S1 & A1), N2 as (_ & _ & Lp2 & _ & V2 & S2 & A2).
  rewrite V1, V2, Es, Em. split_and!; [done|lia|lia|]. auto.
Qed.

Lemma scalar_decomposition_witness :
  let '(k1, k2, s1, s2) := Curve.splitK (Curve.moduloReduce (replicate 33 255)) in
  let '(p1, n1) := Curve.NAF k1 in
  let '(p2, n2) := Curve.NAF k2 in
  (s1 * (be_decode p1 - be_decode n1) + s2 * (be_decode p2 - be_decode n2) * Curve.lambda) mod N = be_decode (replicate 33 255) mod N.
Proof.
  assert (bytes_ok (replicate 33 255)) as Hk by (by apply Forall_replicate). pose proof (scalar_decomposition (replicate 33 255) Hk) as H.
  destruct (Curve.splitK _) as [[[k1 k2] s1] s2], (Curve.NAF k1) as [p1 n1], (Curve.NAF k2) as [p2 n2]. apply H.
Defined.

End CurveSpec.
