(* ===== verification/Opcode.v ===== *)
(** The script opcodes: [src/txscript/opcode.go] (constants, the opcode table
    and the methods of a parsed opcode) and the error codes of
    [src/txscript/error.go].

    The handler stored with an opcode is named by [opfunc]; the handlers
    themselves act on the engine and are defined in Handlers.v and SigOps.v. *)
From S2P Require Import Prelude.
#[local] Open Scope Z_scope.

Module Opcode.

(** * Error codes (error.go)

    [ErrOther] is an error built with [fmt.Errorf], which carries no code, and
    [ErrScriptNotCanonical] the error type of scriptbuilder.go. *)
Inductive ErrorCode :=
  | ErrInternal | ErrInvalidFlags | ErrInvalidIndex | ErrUnsupportedAddress
  | ErrNotMultisigScript | ErrTooManyRequiredSigs | ErrInvalidNumberOfKeyIds
  | ErrTooMuchNullData | ErrEarlyReturn | ErrEmptyStack | ErrEvalFalse
  | ErrScriptUnfinished | ErrInvalidProgramCounter | ErrScriptTooBig
  | ErrElementTooBig | ErrTooManyOperations | ErrStackOverflow
  | ErrInvalidPubKeyCount | ErrInvalidSignatureCount | ErrNumberTooBig
  | ErrVerify | ErrEqualVerify | ErrNumEqualVerify | ErrCheckSigVerify
  | ErrCheckMultiSigVerify | ErrDisabledOpcode | ErrReservedOpcode
  | ErrMalformedPush | ErrInvalidStackOperation | ErrUnbalancedConditional
  | ErrMinimalData | ErrInvalidSigHashType | ErrSigDER | ErrSigHighS
  | ErrNotPushOnly | ErrSigNullDummy | ErrPubKeyType | ErrCleanStack | ErrNullFail
  | ErrDiscourageUpgradableNOPs | ErrNegativeLockTime | ErrUnsatisfiedLockTime
  | ErrScriptNotCanonical
  | ErrOther (msg : string).

#[global] Instance ErrorCode_eq_dec : EqDecision ErrorCode.
Proof. solve_decision. Defined.

(** * Opcode values *)
Definition OP_0 : Z := 0x00.
Definition OP_FALSE : Z := 0x00.
Definition OP_DATA_1 : Z := 0x01.
Definition OP_DATA_2 : Z := 0x02.
Definition OP_DATA_3 : Z := 0x03.
Definition OP_DATA_4 : Z := 0x04.
Definition OP_DATA_5 : Z := 0x05.
Definition OP_DATA_6 : Z := 0x06.
Definition OP_DATA_7 : Z := 0x07.
Definition OP_DATA_8 : Z := 0x08.
Definition OP_DATA_9 : Z := 0x09.
Definition OP_DATA_10 : Z := 0x0a.
Definition OP_DATA_11 : Z := 0x0b.
Definition OP_DATA_12 : Z := 0x0c.
Definition OP_DATA_13 : Z := 0x0d.
Definition OP_DATA_14 : Z := 0x0e.
Definition OP_DATA_15 : Z := 0x0f.
Definition OP_DATA_16 : Z := 0x10.
Definition OP_DATA_17 : Z := 0x11.
Definition OP_DATA_18 : Z := 0x12.
Definition OP_DATA_19 : Z := 0x13.
Definition OP_DATA_20 : Z := 0x14.
Definition OP_DATA_21 : Z := 0x15.
Definition OP_DATA_22 : Z := 0x16.
Definition OP_DATA_23 : Z := 0x17.
Definition OP_DATA_24 : Z := 0x18.
Definition OP_DATA_25 : Z := 0x19.
Definition OP_DATA_26 : Z := 0x1a.
Definition OP_DATA_27 : Z := 0x1b.
Definition OP_DATA_28 : Z := 0x1c.
Definition OP_DATA_29 : Z := 0x1d.
Definition OP_DATA_30 : Z := 0x1e.
Definition OP_DATA_31 : Z := 0x1f.
Definition OP_DATA_32 : Z := 0x20.
Definition OP_DATA_33 : Z := 0x21.
Definition OP_DATA_34 : Z := 0x22.
Definition OP_DATA_35 : Z := 0x23.
Definition OP_DATA_36 : Z := 0x24.
Definition OP_DATA_37 : Z := 0x25.
Definition OP_DATA_38 : Z := 0x26.
Definition OP_DATA_39 : Z := 0x27.
Definition OP_DATA_40 : Z := 0x28.
Definition OP_DATA_41 : Z := 0x29.
Definition OP_DATA_42 : Z := 0x2a.
Definition OP_DATA_43 : Z := 0x2b.
Definition OP_DATA_44 : Z := 0x2c.
Definition OP_DATA_45 : Z := 0x2d.
Definition OP_DATA_46 : Z := 0x2e.
Definition OP_DATA_47 : Z := 0x2f.
Definition OP_DATA_48 : Z := 0x30.
Definition OP_DATA_49 : Z := 0x31.
Definition OP_DATA_50 : Z := 0x32.
Definition OP_DATA_51 : Z := 0x33.
Definition OP_DATA_52 : Z := 0x34.
Definition OP_DATA_53 : Z := 0x35.
Definition OP_DATA_54 : Z := 0x36.
Definition OP_DATA_55 : Z := 0x37.
Definition OP_DATA_56 : Z := 0x38.
Definition OP_DATA_57 : Z := 0x39.
Definition OP_DATA_58 : Z := 0x3a.
Definition OP_DATA_59 : Z := 0x3b.
Definition OP_DATA_60 : Z := 0x3c.
Definition OP_DATA_61 : Z := 0x3d.
Definition OP_DATA_62 : Z := 0x3e.
Definition OP_DATA_63 : Z := 0x3f.
Definition OP_DATA_64 : Z := 0x40.
Definition OP_DATA_65 : Z := 0x41.
Definition OP_DATA_66 : Z := 0x42.
Definition OP_DATA_67 : Z := 0x43.
Definition OP_DATA_68 : Z := 0x44.
Definition OP_DATA_69 : Z := 0x45.
Definition OP_DATA_70 : Z := 0x46.
Definition OP_DATA_71 : Z := 0x47.
Definition OP_DATA_72 : Z := 0x48.
Definition OP_DATA_73 : Z := 0x49.
Definition OP_DATA_74 : Z := 0x4a.
Definition OP_DATA_75 : Z := 0x4b.
Definition OP_PUSHDATA1 : Z := 0x4c.
Definition OP_PUSHDATA2 : Z := 0x4d.
Definition OP_PUSHDATA4 : Z := 0x4e.
Definition OP_1NEGATE : Z := 0x4f.
Definition OP_RESERVED : Z := 0x50.
Definition OP_1 : Z := 0x51.
Definition OP_TRUE : Z := 0x51.
Definition OP_2 : Z := 0x52.
Definition OP_3 : Z := 0x53.
Definition OP_4 : Z := 0x54.
Definition OP_5 : Z := 0x55.
Definition OP_6 : Z := 0x56.
Definition OP_7 : Z := 0x57.
Definition OP_8 : Z := 0x58.
Definition OP_9 : Z := 0x59.
Definition OP_10 : Z := 0x5a.
Definition OP_11 : Z := 0x5b.
Definition OP_12 : Z := 0x5c.
Definition OP_13 : Z := 0x5d.
Definition OP_14 : Z := 0x5e.
Definition OP_15 : Z := 0x5f.
Definition OP_16 : Z := 0x60.
Definition OP_NOP : Z := 0x61.
Definition OP_VER : Z := 0x62.
Definition OP_IF : Z := 0x63.
Definition OP_NOTIF : Z := 0x64.
Definition OP_VERIF : Z := 0x65.
Definition OP_VERNOTIF : Z := 0x66.
Definition OP_ELSE : Z := 0x67.
Definition OP_ENDIF : Z := 0x68.
Definition OP_VERIFY : Z := 0x69.
Definition OP_RETURN : Z := 0x6a.
Definition OP_TOALTSTACK : Z := 0x6b.
Definition OP_FROMALTSTACK : Z := 0x6c.
Definition OP_2DROP : Z := 0x6d.
Definition OP_2DUP : Z := 0x6e.
Definition OP_3DUP : Z := 0x6f.
Definition OP_2OVER : Z := 0x70.
Definition OP_2ROT : Z := 0x71.
Definition OP_2SWAP : Z := 0x72.
Definition OP_IFDUP : Z := 0x73.
Definition OP_DEPTH : Z := 0x74.
Definition OP_DROP : Z := 0x75.
Definition OP_DUP : Z := 0x76.
Definition OP_NIP : Z := 0x77.
Definition OP_OVER : Z := 0x78.
Definition OP_PICK : Z := 0x79.
Definition OP_ROLL : Z := 0x7a.
Definition OP_ROT : Z := 0x7b.
Definition OP_SWAP : Z := 0x7c.
Definition OP_TUCK : Z := 0x7d.
Definition OP_CAT : Z := 0x7e.
Definition OP_SUBSTR : Z := 0x7f.
Definition OP_LEFT : Z := 0x80.
Definition OP_RIGHT : Z := 0x81.
Definition OP_SIZE : Z := 0x82.
Definition OP_INVERT : Z := 0x83.
Definition OP_AND : Z := 0x84.
Definition OP_OR : Z := 0x85.
Definition OP_XOR : Z := 0x86.
Definition OP_EQUAL : Z := 0x87.
Definition OP_EQUALVERIFY : Z := 0x88.
Definition OP_RESERVED1 : Z := 0x89.
Definition OP_RESERVED2 : Z := 0x8a.
Definition OP_1ADD : Z := 0x8b.
Definition OP_1SUB : Z := 0x8c.
Definition OP_2MUL : Z := 0x8d.
Definition OP_2DIV : Z := 0x8e.
Definition OP_NEGATE : Z := 0x8f.
Definition OP_ABS : Z := 0x90.
Definition OP_NOT : Z := 0x91.
Definition OP_0NOTEQUAL : Z := 0x92.
Definition OP_ADD : Z := 0x93.
Definition OP_SUB : Z := 0x94.
Definition OP_MUL : Z := 0x95.
Definition OP_DIV : Z := 0x96.
Definition OP_MOD : Z := 0x97.
Definition OP_LSHIFT : Z := 0x98.
Definition OP_RSHIFT : Z := 0x99.
Definition OP_BOOLAND : Z := 0x9a.
Definition OP_BOOLOR : Z := 0x9b.
Definition OP_NUMEQUAL : Z := 0x9c.
Definition OP_NUMEQUALVERIFY : Z := 0x9d.
Definition OP_NUMNOTEQUAL : Z := 0x9e.
Definition OP_LESSTHAN : Z := 0x9f.
Definition OP_GREATERTHAN : Z := 0xa0.
Definition OP_LESSTHANOREQUAL : Z := 0xa1.
Definition OP_GREATERTHANOREQUAL : Z := 0xa2.
Definition OP_MIN : Z := 0xa3.
Definition OP_MAX : Z := 0xa4.
Definition OP_WITHIN : Z := 0xa5.
Definition OP_RIPEMD160 : Z := 0xa6.
Definition OP_SHA1 : Z := 0xa7.
Definition OP_SHA256 : Z := 0xa8.
Definition OP_HASH160 : Z := 0xa9.
Definition OP_HASH256 : Z := 0xaa.
Definition OP_CODESEPARATOR : Z := 0xab.
Definition OP_CHECKSIG : Z := 0xac.
Definition OP_CHECKSIGVERIFY : Z := 0xad.
Definition OP_CHECKMULTISIG : Z := 0xae.
Definition OP_CHECKMULTISIGVERIFY : Z := 0xaf.
Definition OP_NOP1 : Z := 0xb0.
Definition OP_NOP2 : Z := 0xb1.
Definition OP_CHECKLOCKTIMEVERIFY : Z := 0xb1.
Definition OP_NOP3 : Z := 0xb2.
Definition OP_CHECKSEQUENCEVERIFY : Z := 0xb2.
Definition OP_NOP4 : Z := 0xb3.
Definition OP_NOP5 : Z := 0xb4.
Definition OP_NOP6 : Z := 0xb5.
Definition OP_NOP7 : Z := 0xb6.
Definition OP_NOP8 : Z := 0xb7.
Definition OP_NOP9 : Z := 0xb8.
Definition OP_NOP10 : Z := 0xb9.
Definition OP_CHECKSAFEMULTISIG : Z := 0xba.
Definition OP_CHECKTHREAD : Z := 0xbb.
Definition OP_UNKNOWN188 : Z := 0xbc.
Definition OP_UNKNOWN189 : Z := 0xbd.
Definition OP_UNKNOWN190 : Z := 0xbe.
Definition OP_UNKNOWN191 : Z := 0xbf.
Definition OP_UNKNOWN192 : Z := 0xc0.
Definition OP_UNKNOWN193 : Z := 0xc1.
Definition OP_UNKNOWN194 : Z := 0xc2.
Definition OP_UNKNOWN195 : Z := 0xc3.
Definition OP_UNKNOWN196 : Z := 0xc4.
Definition OP_UNKNOWN197 : Z := 0xc5.
Definition OP_UNKNOWN198 : Z := 0xc6.
Definition OP_UNKNOWN199 : Z := 0xc7.
Definition OP_UNKNOWN200 : Z := 0xc8.
Definition OP_UNKNOWN201 : Z := 0xc9.
Definition OP_UNKNOWN202 : Z := 0xca.
Definition OP_UNKNOWN203 : Z := 0xcb.
Definition OP_UNKNOWN204 : Z := 0xcc.
Definition OP_UNKNOWN205 : Z := 0xcd.
Definition OP_UNKNOWN206 : Z := 0xce.
Definition OP_UNKNOWN207 : Z := 0xcf.
Definition OP_UNKNOWN208 : Z := 0xd0.
Definition OP_UNKNOWN209 : Z := 0xd1.
Definition OP_UNKNOWN210 : Z := 0xd2.
Definition OP_UNKNOWN211 : Z := 0xd3.
Definition OP_UNKNOWN212 : Z := 0xd4.
Definition OP_UNKNOWN213 : Z := 0xd5.
Definition OP_UNKNOWN214 : Z := 0xd6.
Definition OP_UNKNOWN215 : Z := 0xd7.
Definition OP_UNKNOWN216 : Z := 0xd8.
Definition OP_UNKNOWN217 : Z := 0xd9.
Definition OP_UNKNOWN218 : Z := 0xda.
Definition OP_UNKNOWN219 : Z := 0xdb.
Definition OP_UNKNOWN220 : Z := 0xdc.
Definition OP_UNKNOWN221 : Z := 0xdd.
Definition OP_UNKNOWN222 : Z := 0xde.
Definition OP_UNKNOWN223 : Z := 0xdf.
Definition OP_UNKNOWN224 : Z := 0xe0.
Definition OP_UNKNOWN225 : Z := 0xe1.
Definition OP_UNKNOWN226 : Z := 0xe2.
Definition OP_UNKNOWN227 : Z := 0xe3.
Definition OP_UNKNOWN228 : Z := 0xe4.
Definition OP_UNKNOWN229 : Z := 0xe5.
Definition OP_UNKNOWN230 : Z := 0xe6.
Definition OP_UNKNOWN231 : Z := 0xe7.
Definition OP_UNKNOWN232 : Z := 0xe8.
Definition OP_UNKNOWN233 : Z := 0xe9.
Definition OP_UNKNOWN234 : Z := 0xea.
Definition OP_UNKNOWN235 : Z := 0xeb.
Definition OP_UNKNOWN236 : Z := 0xec.
Definition OP_UNKNOWN237 : Z := 0xed.
Definition OP_UNKNOWN238 : Z := 0xee.
Definition OP_UNKNOWN239 : Z := 0xef.
Definition OP_UNKNOWN240 : Z := 0xf0.
Definition OP_UNKNOWN241 : Z := 0xf1.
Definition OP_UNKNOWN242 : Z := 0xf2.
Definition OP_UNKNOWN243 : Z := 0xf3.
Definition OP_UNKNOWN244 : Z := 0xf4.
Definition OP_UNKNOWN245 : Z := 0xf5.
Definition OP_UNKNOWN246 : Z := 0xf6.
Definition OP_UNKNOWN247 : Z := 0xf7.
Definition OP_UNKNOWN248 : Z := 0xf8.
Definition OP_UNKNOWN249 : Z := 0xf9.
Definition OP_SMALLINTEGER : Z := 0xfa.
Definition OP_PUBKEYS : Z := 0xfb.
Definition OP_UNKNOWN252 : Z := 0xfc.
Definition OP_PUBKEYHASH : Z := 0xfd.
Definition OP_PUBKEY : Z := 0xfe.
Definition OP_INVALIDOPCODE : Z := 0xff.
Definition AdminOpIssueKeyAdd : Z := 0x01.
Definition AdminOpIssueKeyRevoke : Z := 0x02.
Definition AdminOpProvisionKeyAdd : Z := 0x03.
Definition AdminOpProvisionKeyRevoke : Z := 0x04.
Definition AdminOpValidateKeyAdd : Z := 0x11.
Definition AdminOpValidateKeyRevoke : Z := 0x12.
Definition AdminOpASPKeyAdd : Z := 0x13.
Definition AdminOpASPKeyRevoke : Z := 0x14.
Definition OpCondFalse : Z := 0.
Definition OpCondTrue : Z := 1.
Definition OpCondSkip : Z := 2.

(** * The opcode table *)

(** The handler functions named by the table. *)
Inductive opfunc :=
  | f_opcodeFalse
  | f_opcodePushData
  | f_opcode1Negate
  | f_opcodeReserved
  | f_opcodeN
  | f_opcodeNop
  | f_opcodeIf
  | f_opcodeNotIf
  | f_opcodeElse
  | f_opcodeEndif
  | f_opcodeVerify
  | f_opcodeReturn
  | f_opcodeCheckLockTimeVerify
  | f_opcodeCheckSequenceVerify
  | f_opcodeToAltStack
  | f_opcodeFromAltStack
  | f_opcode2Drop
  | f_opcode2Dup
  | f_opcode3Dup
  | f_opcode2Over
  | f_opcode2Rot
  | f_opcode2Swap
  | f_opcodeIfDup
  | f_opcodeDepth
  | f_opcodeDrop
  | f_opcodeDup
  | f_opcodeNip
  | f_opcodeOver
  | f_opcodePick
  | f_opcodeRoll
  | f_opcodeRot
  | f_opcodeSwap
  | f_opcodeTuck
  | f_opcodeDisabled
  | f_opcodeSize
  | f_opcodeEqual
  | f_opcodeEqualVerify
  | f_opcode1Add
  | f_opcode1Sub
  | f_opcodeNegate
  | f_opcodeAbs
  | f_opcodeNot
  | f_opcode0NotEqual
  | f_opcodeAdd
  | f_opcodeSub
  | f_opcodeBoolAnd
  | f_opcodeBoolOr
  | f_opcodeNumEqual
  | f_opcodeNumEqualVerify
  | f_opcodeNumNotEqual
  | f_opcodeLessThan
  | f_opcodeGreaterThan
  | f_opcodeLessThanOrEqual
  | f_opcodeGreaterThanOrEqual
  | f_opcodeMin
  | f_opcodeMax
  | f_opcodeWithin
  | f_opcodeRipemd160
  | f_opcodeSha1
  | f_opcodeSha256
  | f_opcodeHash160
  | f_opcodeHash256
  | f_opcodeCodeSeparator
  | f_opcodeCheckSig
  | f_opcodeCheckSigVerify
  | f_opcodeCheckMultiSig
  | f_opcodeCheckMultiSigVerify
  | f_opcodeCheckSafeMultiSig
  | f_opcodeInvalid.

#[global] Instance opfunc_eq_dec : EqDecision opfunc.
Proof. solve_decision. Defined.

Record opcode := mkOpcode {
  op_value : Z;
  op_name : string;
  op_length : Z;
  op_func : opfunc
}.

#[global] Instance opcode_eq_dec : EqDecision opcode.
Proof. solve_decision. Defined.

(** [opcodeArray] as it is written: each entry with its index. *)
Definition opcodeTable : list (Z * opcode) :=
  [
   (OP_FALSE, mkOpcode OP_FALSE "OP_0" 1 f_opcodeFalse);
   (OP_DATA_1, mkOpcode OP_DATA_1 "OP_DATA_1" 2 f_opcodePushData);
   (OP_DATA_2, mkOpcode OP_DATA_2 "OP_DATA_2" 3 f_opcodePushData);
   (OP_DATA_3, mkOpcode OP_DATA_3 "OP_DATA_3" 4 f_opcodePushData);
   (OP_DATA_4, mkOpcode OP_DATA_4 "OP_DATA_4" 5 f_opcodePushData);
   (OP_DATA_5, mkOpcode OP_DATA_5 "OP_DATA_5" 6 f_opcodePushData);
   (OP_DATA_6, mkOpcode OP_DATA_6 "OP_DATA_6" 7 f_opcodePushData);
   (OP_DATA_7, mkOpcode OP_DATA_7 "OP_DATA_7" 8 f_opcodePushData);
   (OP_DATA_8, mkOpcode OP_DATA_8 "OP_DATA_8" 9 f_opcodePushData);
   (OP_DATA_9, mkOpcode OP_DATA_9 "OP_DATA_9" 10 f_opcodePushData);
   (OP_DATA_10, mkOpcode OP_DATA_10 "OP_DATA_10" 11 f_opcodePushData);
   (OP_DATA_11, mkOpcode OP_DATA_11 "OP_DATA_11" 12 f_opcodePushData);
   (OP_DATA_12, mkOpcode OP_DATA_12 "OP_DATA_12" 13 f_opcodePushData);
   (OP_DATA_13, mkOpcode OP_DATA_13 "OP_DATA_13" 14 f_opcodePushData);
   (OP_DATA_14, mkOpcode OP_DATA_14 "OP_DATA_14" 15 f_opcodePushData);
   (OP_DATA_15, mkOpcode OP_DATA_15 "OP_DATA_15" 16 f_opcodePushData);
   (OP_DATA_16, mkOpcode OP_DATA_16 "OP_DATA_16" 17 f_opcodePushData);
   (OP_DATA_17, mkOpcode OP_DATA_17 "OP_DATA_17" 18 f_opcodePushData);
   (OP_DATA_18, mkOpcode OP_DATA_18 "OP_DATA_18" 19 f_opcodePushData);
   (OP_DATA_19, mkOpcode OP_DATA_19 "OP_DATA_19" 20 f_opcodePushData);
   (OP_DATA_20, mkOpcode OP_DATA_20 "OP_DATA_20" 21 f_opcodePushData);
   (OP_DATA_21, mkOpcode OP_DATA_21 "OP_DATA_21" 22 f_opcodePushData);
   (OP_DATA_22, mkOpcode OP_DATA_22 "OP_DATA_22" 23 f_opcodePushData);
   (OP_DATA_23, mkOpcode OP_DATA_23 "OP_DATA_23" 24 f_opcodePushData);
   (OP_DATA_24, mkOpcode OP_DATA_24 "OP_DATA_24" 25 f_opcodePushData);
   (OP_DATA_25, mkOpcode OP_DATA_25 "OP_DATA_25" 26 f_opcodePushData);
   (OP_DATA_26, mkOpcode OP_DATA_26 "OP_DATA_26" 27 f_opcodePushData);
   (OP_DATA_27, mkOpcode OP_DATA_27 "OP_DATA_27" 28 f_opcodePushData);
   (OP_DATA_28, mkOpcode OP_DATA_28 "OP_DATA_28" 29 f_opcodePushData);
   (OP_DATA_29, mkOpcode OP_DATA_29 "OP_DATA_29" 30 f_opcodePushData);
   (OP_DATA_30, mkOpcode OP_DATA_30 "OP_DATA_30" 31 f_opcodePushData);
   (OP_DATA_31, mkOpcode OP_DATA_31 "OP_DATA_31" 32 f_opcodePushData);
   (OP_DATA_32, mkOpcode OP_DATA_32 "OP_DATA_32" 33 f_opcodePushData);
   (OP_DATA_33, mkOpcode OP_DATA_33 "OP_DATA_33" 34 f_opcodePushData);
   (OP_DATA_34, mkOpcode OP_DATA_34 "OP_DATA_34" 35 f_opcodePushData);
   (OP_DATA_35, mkOpcode OP_DATA_35 "OP_DATA_35" 36 f_opcodePushData);
   (OP_DATA_36, mkOpcode OP_DATA_36 "OP_DATA_36" 37 f_opcodePushData);
   (OP_DATA_37, mkOpcode OP_DATA_37 "OP_DATA_37" 38 f_opcodePushData);
   (OP_DATA_38, mkOpcode OP_DATA_38 "OP_DATA_38" 39 f_opcodePushData);
   (OP_DATA_39, mkOpcode OP_DATA_39 "OP_DATA_39" 40 f_opcodePushData);
   (OP_DATA_40, mkOpcode OP_DATA_40 "OP_DATA_40" 41 f_opcodePushData);
   (OP_DATA_41, mkOpcode OP_DATA_41 "OP_DATA_41" 42 f_opcodePushData);
   (OP_DATA_42, mkOpcode OP_DATA_42 "OP_DATA_42" 43 f_opcodePushData);
   (OP_DATA_43, mkOpcode OP_DATA_43 "OP_DATA_43" 44 f_opcodePushData);
   (OP_DATA_44, mkOpcode OP_DATA_44 "OP_DATA_44" 45 f_opcodePushData);
   (OP_DATA_45, mkOpcode OP_DATA_45 "OP_DATA_45" 46 f_opcodePushData);
   (OP_DATA_46, mkOpcode OP_DATA_46 "OP_DATA_46" 47 f_opcodePushData);
   (OP_DATA_47, mkOpcode OP_DATA_47 "OP_DATA_47" 48 f_opcodePushData);
   (OP_DATA_48, mkOpcode OP_DATA_48 "OP_DATA_48" 49 f_opcodePushData);
   (OP_DATA_49, mkOpcode OP_DATA_49 "OP_DATA_49" 50 f_opcodePushData);
   (OP_DATA_50, mkOpcode OP_DATA_50 "OP_DATA_50" 51 f_opcodePushData);
   (OP_DATA_51, mkOpcode OP_DATA_51 "OP_DATA_51" 52 f_opcodePushData);
   (OP_DATA_52, mkOpcode OP_DATA_52 "OP_DATA_52" 53 f_opcodePushData);
   (OP_DATA_53, mkOpcode OP_DATA_53 "OP_DATA_53" 54 f_opcodePushData);
   (OP_DATA_54, mkOpcode OP_DATA_54 "OP_DATA_54" 55 f_opcodePushData);
   (OP_DATA_55, mkOpcode OP_DATA_55 "OP_DATA_55" 56 f_opcodePushData);
   (OP_DATA_56, mkOpcode OP_DATA_56 "OP_DATA_56" 57 f_opcodePushData);
   (OP_DATA_57, mkOpcode OP_DATA_57 "OP_DATA_57" 58 f_opcodePushData);
   (OP_DATA_58, mkOpcode OP_DATA_58 "OP_DATA_58" 59 f_opcodePushData);
   (OP_DATA_59, mkOpcode OP_DATA_59 "OP_DATA_59" 60 f_opcodePushData);
   (OP_DATA_60, mkOpcode OP_DATA_60 "OP_DATA_60" 61 f_opcodePushData);
   (OP_DATA_61, mkOpcode OP_DATA_61 "OP_DATA_61" 62 f_opcodePushData);
   (OP_DATA_62, mkOpcode OP_DATA_62 "OP_DATA_62" 63 f_opcodePushData);
   (OP_DATA_63, mkOpcode OP_DATA_63 "OP_DATA_63" 64 f_opcodePushData);
   (OP_DATA_64, mkOpcode OP_DATA_64 "OP_DATA_64" 65 f_opcodePushData);
   (OP_DATA_65, mkOpcode OP_DATA_65 "OP_DATA_65" 66 f_opcodePushData);
   (OP_DATA_66, mkOpcode OP_DATA_66 "OP_DATA_66" 67 f_opcodePushData);
   (OP_DATA_67, mkOpcode OP_DATA_67 "OP_DATA_67" 68 f_opcodePushData);
   (OP_DATA_68, mkOpcode OP_DATA_68 "OP_DATA_68" 69 f_opcodePushData);
   (OP_DATA_69, mkOpcode OP_DATA_69 "OP_DATA_69" 70 f_opcodePushData);
   (OP_DATA_70, mkOpcode OP_DATA_70 "OP_DATA_70" 71 f_opcodePushData);
   (OP_DATA_71, mkOpcode OP_DATA_71 "OP_DATA_71" 72 f_opcodePushData);
   (OP_DATA_72, mkOpcode OP_DATA_72 "OP_DATA_72" 73 f_opcodePushData);
   (OP_DATA_73, mkOpcode OP_DATA_73 "OP_DATA_73" 74 f_opcodePushData);
   (OP_DATA_74, mkOpcode OP_DATA_74 "OP_DATA_74" 75 f_opcodePushData);
   (OP_DATA_75, mkOpcode OP_DATA_75 "OP_DATA_75" 76 f_opcodePushData);
   (OP_PUSHDATA1, mkOpcode OP_PUSHDATA1 "OP_PUSHDATA1" (-1) f_opcodePushData);
   (OP_PUSHDATA2, mkOpcode OP_PUSHDATA2 "OP_PUSHDATA2" (-2) f_opcodePushData);
   (OP_PUSHDATA4, mkOpcode OP_PUSHDATA4 "OP_PUSHDATA4" (-4) f_opcodePushData);
   (OP_1NEGATE, mkOpcode OP_1NEGATE "OP_1NEGATE" 1 f_opcode1Negate);
   (OP_RESERVED, mkOpcode OP_RESERVED "OP_RESERVED" 1 f_opcodeReserved);
   (OP_TRUE, mkOpcode OP_TRUE "OP_1" 1 f_opcodeN);
   (OP_2, mkOpcode OP_2 "OP_2" 1 f_opcodeN);
   (OP_3, mkOpcode OP_3 "OP_3" 1 f_opcodeN);
   (OP_4, mkOpcode OP_4 "OP_4" 1 f_opcodeN);
   (OP_5, mkOpcode OP_5 "OP_5" 1 f_opcodeN);
   (OP_6, mkOpcode OP_6 "OP_6" 1 f_opcodeN);
   (OP_7, mkOpcode OP_7 "OP_7" 1 f_opcodeN);
   (OP_8, mkOpcode OP_8 "OP_8" 1 f_opcodeN);
   (OP_9, mkOpcode OP_9 "OP_9" 1 f_opcodeN);
   (OP_10, mkOpcode OP_10 "OP_10" 1 f_opcodeN);
   (OP_11, mkOpcode OP_11 "OP_11" 1 f_opcodeN);
   (OP_12, mkOpcode OP_12 "OP_12" 1 f_opcodeN);
   (OP_13, mkOpcode OP_13 "OP_13" 1 f_opcodeN);
   (OP_14, mkOpcode OP_14 "OP_14" 1 f_opcodeN);
   (OP_15, mkOpcode OP_15 "OP_15" 1 f_opcodeN);
   (OP_16, mkOpcode OP_16 "OP_16" 1 f_opcodeN);
   (OP_NOP, mkOpcode OP_NOP "OP_NOP" 1 f_opcodeNop);
   (OP_VER, mkOpcode OP_VER "OP_VER" 1 f_opcodeReserved);
   (OP_IF, mkOpcode OP_IF "OP_IF" 1 f_opcodeIf);
   (OP_NOTIF, mkOpcode OP_NOTIF "OP_NOTIF" 1 f_opcodeNotIf);
   (OP_VERIF, mkOpcode OP_VERIF "OP_VERIF" 1 f_opcodeReserved);
   (OP_VERNOTIF, mkOpcode OP_VERNOTIF "OP_VERNOTIF" 1 f_opcodeReserved);
   (OP_ELSE, mkOpcode OP_ELSE "OP_ELSE" 1 f_opcodeElse);
   (OP_ENDIF, mkOpcode OP_ENDIF "OP_ENDIF" 1 f_opcodeEndif);
   (OP_VERIFY, mkOpcode OP_VERIFY "OP_VERIFY" 1 f_opcodeVerify);
   (OP_RETURN, mkOpcode OP_RETURN "OP_RETURN" 1 f_opcodeReturn);
   (OP_CHECKLOCKTIMEVERIFY, mkOpcode OP_CHECKLOCKTIMEVERIFY "OP_CHECKLOCKTIMEVERIFY" 1 f_opcodeCheckLockTimeVerify);
   (OP_CHECKSEQUENCEVERIFY, mkOpcode OP_CHECKSEQUENCEVERIFY "OP_CHECKSEQUENCEVERIFY" 1 f_opcodeCheckSequenceVerify);
   (OP_TOALTSTACK, mkOpcode OP_TOALTSTACK "OP_TOALTSTACK" 1 f_opcodeToAltStack);
   (OP_FROMALTSTACK, mkOpcode OP_FROMALTSTACK "OP_FROMALTSTACK" 1 f_opcodeFromAltStack);
   (OP_2DROP, mkOpcode OP_2DROP "OP_2DROP" 1 f_opcode2Drop);
   (OP_2DUP, mkOpcode OP_2DUP "OP_2DUP" 1 f_opcode2Dup);
   (OP_3DUP, mkOpcode OP_3DUP "OP_3DUP" 1 f_opcode3Dup);
   (OP_2OVER, mkOpcode OP_2OVER "OP_2OVER" 1 f_opcode2Over);
   (OP_2ROT, mkOpcode OP_2ROT "OP_2ROT" 1 f_opcode2Rot);
   (OP_2SWAP, mkOpcode OP_2SWAP "OP_2SWAP" 1 f_opcode2Swap);
   (OP_IFDUP, mkOpcode OP_IFDUP "OP_IFDUP" 1 f_opcodeIfDup);
   (OP_DEPTH, mkOpcode OP_DEPTH "OP_DEPTH" 1 f_opcodeDepth);
   (OP_DROP, mkOpcode OP_DROP "OP_DROP" 1 f_opcodeDrop);
   (OP_DUP, mkOpcode OP_DUP "OP_DUP" 1 f_opcodeDup);
   (OP_NIP, mkOpcode OP_NIP "OP_NIP" 1 f_opcodeNip);
   (OP_OVER, mkOpcode OP_OVER "OP_OVER" 1 f_opcodeOver);
   (OP_PICK, mkOpcode OP_PICK "OP_PICK" 1 f_opcodePick);
   (OP_ROLL, mkOpcode OP_ROLL "OP_ROLL" 1 f_opcodeRoll);
   (OP_ROT, mkOpcode OP_ROT "OP_ROT" 1 f_opcodeRot);
   (OP_SWAP, mkOpcode OP_SWAP "OP_SWAP" 1 f_opcodeSwap);
   (OP_TUCK, mkOpcode OP_TUCK "OP_TUCK" 1 f_opcodeTuck);
   (OP_CAT, mkOpcode OP_CAT "OP_CAT" 1 f_opcodeDisabled);
   (OP_SUBSTR, mkOpcode OP_SUBSTR "OP_SUBSTR" 1 f_opcodeDisabled);
   (OP_LEFT, mkOpcode OP_LEFT "OP_LEFT" 1 f_opcodeDisabled);
   (OP_RIGHT, mkOpcode OP_RIGHT "OP_RIGHT" 1 f_opcodeDisabled);
   (OP_SIZE, mkOpcode OP_SIZE "OP_SIZE" 1 f_opcodeSize);
   (OP_INVERT, mkOpcode OP_INVERT "OP_INVERT" 1 f_opcodeDisabled);
   (OP_AND, mkOpcode OP_AND "OP_AND" 1 f_opcodeDisabled);
   (OP_OR, mkOpcode OP_OR "OP_OR" 1 f_opcodeDisabled);
   (OP_XOR, mkOpcode OP_XOR "OP_XOR" 1 f_opcodeDisabled);
   (OP_EQUAL, mkOpcode OP_EQUAL "OP_EQUAL" 1 f_opcodeEqual);
   (OP_EQUALVERIFY, mkOpcode OP_EQUALVERIFY "OP_EQUALVERIFY" 1 f_opcodeEqualVerify);
   (OP_RESERVED1, mkOpcode OP_RESERVED1 "OP_RESERVED1" 1 f_opcodeReserved);
   (OP_RESERVED2, mkOpcode OP_RESERVED2 "OP_RESERVED2" 1 f_opcodeReserved);
   (OP_1ADD, mkOpcode OP_1ADD "OP_1ADD" 1 f_opcode1Add);
   (OP_1SUB, mkOpcode OP_1SUB "OP_1SUB" 1 f_opcode1Sub);
   (OP_2MUL, mkOpcode OP_2MUL "OP_2MUL" 1 f_opcodeDisabled);
   (OP_2DIV, mkOpcode OP_2DIV "OP_2DIV" 1 f_opcodeDisabled);
   (OP_NEGATE, mkOpcode OP_NEGATE "OP_NEGATE" 1 f_opcodeNegate);
   (OP_ABS, mkOpcode OP_ABS "OP_ABS" 1 f_opcodeAbs);
   (OP_NOT, mkOpcode OP_NOT "OP_NOT" 1 f_opcodeNot);
   (OP_0NOTEQUAL, mkOpcode OP_0NOTEQUAL "OP_0NOTEQUAL" 1 f_opcode0NotEqual);
   (OP_ADD, mkOpcode OP_ADD "OP_ADD" 1 f_opcodeAdd);
   (OP_SUB, mkOpcode OP_SUB "OP_SUB" 1 f_opcodeSub);
   (OP_MUL, mkOpcode OP_MUL "OP_MUL" 1 f_opcodeDisabled);
   (OP_DIV, mkOpcode OP_DIV "OP_DIV" 1 f_opcodeDisabled);
   (OP_MOD, mkOpcode OP_MOD "OP_MOD" 1 f_opcodeDisabled);
   (OP_LSHIFT, mkOpcode OP_LSHIFT "OP_LSHIFT" 1 f_opcodeDisabled);
   (OP_RSHIFT, mkOpcode OP_RSHIFT "OP_RSHIFT" 1 f_opcodeDisabled);
   (OP_BOOLAND, mkOpcode OP_BOOLAND "OP_BOOLAND" 1 f_opcodeBoolAnd);
   (OP_BOOLOR, mkOpcode OP_BOOLOR "OP_BOOLOR" 1 f_opcodeBoolOr);
   (OP_NUMEQUAL, mkOpcode OP_NUMEQUAL "OP_NUMEQUAL" 1 f_opcodeNumEqual);
   (OP_NUMEQUALVERIFY, mkOpcode OP_NUMEQUALVERIFY "OP_NUMEQUALVERIFY" 1 f_opcodeNumEqualVerify);
   (OP_NUMNOTEQUAL, mkOpcode OP_NUMNOTEQUAL "OP_NUMNOTEQUAL" 1 f_opcodeNumNotEqual);
   (OP_LESSTHAN, mkOpcode OP_LESSTHAN "OP_LESSTHAN" 1 f_opcodeLessThan);
   (OP_GREATERTHAN, mkOpcode OP_GREATERTHAN "OP_GREATERTHAN" 1 f_opcodeGreaterThan);
   (OP_LESSTHANOREQUAL, mkOpcode OP_LESSTHANOREQUAL "OP_LESSTHANOREQUAL" 1 f_opcodeLessThanOrEqual);
   (OP_GREATERTHANOREQUAL, mkOpcode OP_GREATERTHANOREQUAL "OP_GREATERTHANOREQUAL" 1 f_opcodeGreaterThanOrEqual);
   (OP_MIN, mkOpcode OP_MIN "OP_MIN" 1 f_opcodeMin);
   (OP_MAX, mkOpcode OP_MAX "OP_MAX" 1 f_opcodeMax);
   (OP_WITHIN, mkOpcode OP_WITHIN "OP_WITHIN" 1 f_opcodeWithin);
   (OP_RIPEMD160, mkOpcode OP_RIPEMD160 "OP_RIPEMD160" 1 f_opcodeRipemd160);
   (OP_SHA1, mkOpcode OP_SHA1 "OP_SHA1" 1 f_opcodeSha1);
   (OP_SHA256, mkOpcode OP_SHA256 "OP_SHA256" 1 f_opcodeSha256);
   (OP_HASH160, mkOpcode OP_HASH160 "OP_HASH160" 1 f_opcodeHash160);
   (OP_HASH256, mkOpcode OP_HASH256 "OP_HASH256" 1 f_opcodeHash256);
   (OP_CODESEPARATOR, mkOpcode OP_CODESEPARATOR "OP_CODESEPARATOR" 1 f_opcodeCodeSeparator);
   (OP_CHECKSIG, mkOpcode OP_CHECKSIG "OP_CHECKSIG" 1 f_opcodeCheckSig);
   (OP_CHECKSIGVERIFY, mkOpcode OP_CHECKSIGVERIFY "OP_CHECKSIGVERIFY" 1 f_opcodeCheckSigVerify);
   (OP_CHECKMULTISIG, mkOpcode OP_CHECKMULTISIG "OP_CHECKMULTISIG" 1 f_opcodeCheckMultiSig);
   (OP_CHECKMULTISIGVERIFY, mkOpcode OP_CHECKMULTISIGVERIFY "OP_CHECKMULTISIGVERIFY" 1 f_opcodeCheckMultiSigVerify);
   (OP_NOP1, mkOpcode OP_NOP1 "OP_NOP1" 1 f_opcodeNop);
   (OP_NOP4, mkOpcode OP_NOP4 "OP_NOP4" 1 f_opcodeNop);
   (OP_NOP5, mkOpcode OP_NOP5 "OP_NOP5" 1 f_opcodeNop);
   (OP_NOP6, mkOpcode OP_NOP6 "OP_NOP6" 1 f_opcodeNop);
   (OP_NOP7, mkOpcode OP_NOP7 "OP_NOP7" 1 f_opcodeNop);
   (OP_NOP8, mkOpcode OP_NOP8 "OP_NOP8" 1 f_opcodeNop);
   (OP_NOP9, mkOpcode OP_NOP9 "OP_NOP9" 1 f_opcodeNop);
   (OP_NOP10, mkOpcode OP_NOP10 "OP_NOP10" 1 f_opcodeNop);
   (OP_CHECKSAFEMULTISIG, mkOpcode OP_CHECKSAFEMULTISIG "OP_CHECKSAFEMULTISIG" 1 f_opcodeCheckSafeMultiSig);
   (OP_CHECKTHREAD, mkOpcode OP_CHECKTHREAD "OP_CHECKTHREAD" 1 f_opcodeCheckSafeMultiSig);
   (OP_UNKNOWN188, mkOpcode OP_UNKNOWN188 "OP_UNKNOWN188" 1 f_opcodeInvalid);
   (OP_UNKNOWN189, mkOpcode OP_UNKNOWN189 "OP_UNKNOWN189" 1 f_opcodeInvalid);
   (OP_UNKNOWN190, mkOpcode OP_UNKNOWN190 "OP_UNKNOWN190" 1 f_opcodeInvalid);
   (OP_UNKNOWN191, mkOpcode OP_UNKNOWN191 "OP_UNKNOWN191" 1 f_opcodeInvalid);
   (OP_UNKNOWN192, mkOpcode OP_UNKNOWN192 "OP_UNKNOWN192" 1 f_opcodeInvalid);
   (OP_UNKNOWN193, mkOpcode OP_UNKNOWN193 "OP_UNKNOWN193" 1 f_opcodeInvalid);
   (OP_UNKNOWN194, mkOpcode OP_UNKNOWN194 "OP_UNKNOWN194" 1 f_opcodeInvalid);
   (OP_UNKNOWN195, mkOpcode OP_UNKNOWN195 "OP_UNKNOWN195" 1 f_opcodeInvalid);
   (OP_UNKNOWN196, mkOpcode OP_UNKNOWN196 "OP_UNKNOWN196" 1 f_opcodeInvalid);
   (OP_UNKNOWN197, mkOpcode OP_UNKNOWN197 "OP_UNKNOWN197" 1 f_opcodeInvalid);
   (OP_UNKNOWN198, mkOpcode OP_UNKNOWN198 "OP_UNKNOWN198" 1 f_opcodeInvalid);
   (OP_UNKNOWN199, mkOpcode OP_UNKNOWN199 "OP_UNKNOWN199" 1 f_opcodeInvalid);
   (OP_UNKNOWN200, mkOpcode OP_UNKNOWN200 "OP_UNKNOWN200" 1 f_opcodeInvalid);
   (OP_UNKNOWN201, mkOpcode OP_UNKNOWN201 "OP_UNKNOWN201" 1 f_opcodeInvalid);
   (OP_UNKNOWN202, mkOpcode OP_UNKNOWN202 "OP_UNKNOWN202" 1 f_opcodeInvalid);
   (OP_UNKNOWN203, mkOpcode OP_UNKNOWN203 "OP_UNKNOWN203" 1 f_opcodeInvalid);
   (OP_UNKNOWN204, mkOpcode OP_UNKNOWN204 "OP_UNKNOWN204" 1 f_opcodeInvalid);
   (OP_UNKNOWN205, mkOpcode OP_UNKNOWN205 "OP_UNKNOWN205" 1 f_opcodeInvalid);
   (OP_UNKNOWN206, mkOpcode OP_UNKNOWN206 "OP_UNKNOWN206" 1 f_opcodeInvalid);
   (OP_UNKNOWN207, mkOpcode OP_UNKNOWN207 "OP_UNKNOWN207" 1 f_opcodeInvalid);
   (OP_UNKNOWN208, mkOpcode OP_UNKNOWN208 "OP_UNKNOWN208" 1 f_opcodeInvalid);
   (OP_UNKNOWN209, mkOpcode OP_UNKNOWN209 "OP_UNKNOWN209" 1 f_opcodeInvalid);
   (OP_UNKNOWN210, mkOpcode OP_UNKNOWN210 "OP_UNKNOWN210" 1 f_opcodeInvalid);
   (OP_UNKNOWN211, mkOpcode OP_UNKNOWN211 "OP_UNKNOWN211" 1 f_opcodeInvalid);
   (OP_UNKNOWN212, mkOpcode OP_UNKNOWN212 "OP_UNKNOWN212" 1 f_opcodeInvalid);
   (OP_UNKNOWN213, mkOpcode OP_UNKNOWN213 "OP_UNKNOWN213" 1 f_opcodeInvalid);
   (OP_UNKNOWN214, mkOpcode OP_UNKNOWN214 "OP_UNKNOWN214" 1 f_opcodeInvalid);
   (OP_UNKNOWN215, mkOpcode OP_UNKNOWN215 "OP_UNKNOWN215" 1 f_opcodeInvalid);
   (OP_UNKNOWN216, mkOpcode OP_UNKNOWN216 "OP_UNKNOWN216" 1 f_opcodeInvalid);
   (OP_UNKNOWN217, mkOpcode OP_UNKNOWN217 "OP_UNKNOWN217" 1 f_opcodeInvalid);
   (OP_UNKNOWN218, mkOpcode OP_UNKNOWN218 "OP_UNKNOWN218" 1 f_opcodeInvalid);
   (OP_UNKNOWN219, mkOpcode OP_UNKNOWN219 "OP_UNKNOWN219" 1 f_opcodeInvalid);
   (OP_UNKNOWN220, mkOpcode OP_UNKNOWN220 "OP_UNKNOWN220" 1 f_opcodeInvalid);
   (OP_UNKNOWN221, mkOpcode OP_UNKNOWN221 "OP_UNKNOWN221" 1 f_opcodeInvalid);
   (OP_UNKNOWN222, mkOpcode OP_UNKNOWN222 "OP_UNKNOWN222" 1 f_opcodeInvalid);
   (OP_UNKNOWN223, mkOpcode OP_UNKNOWN223 "OP_UNKNOWN223" 1 f_opcodeInvalid);
   (OP_UNKNOWN224, mkOpcode OP_UNKNOWN224 "OP_UNKNOWN224" 1 f_opcodeInvalid);
   (OP_UNKNOWN225, mkOpcode OP_UNKNOWN225 "OP_UNKNOWN225" 1 f_opcodeInvalid);
   (OP_UNKNOWN226, mkOpcode OP_UNKNOWN226 "OP_UNKNOWN226" 1 f_opcodeInvalid);
   (OP_UNKNOWN227, mkOpcode OP_UNKNOWN227 "OP_UNKNOWN227" 1 f_opcodeInvalid);
   (OP_UNKNOWN228, mkOpcode OP_UNKNOWN228 "OP_UNKNOWN228" 1 f_opcodeInvalid);
   (OP_UNKNOWN229, mkOpcode OP_UNKNOWN229 "OP_UNKNOWN229" 1 f_opcodeInvalid);
   (OP_UNKNOWN230, mkOpcode OP_UNKNOWN230 "OP_UNKNOWN230" 1 f_opcodeInvalid);
   (OP_UNKNOWN231, mkOpcode OP_UNKNOWN231 "OP_UNKNOWN231" 1 f_opcodeInvalid);
   (OP_UNKNOWN232, mkOpcode OP_UNKNOWN232 "OP_UNKNOWN232" 1 f_opcodeInvalid);
   (OP_UNKNOWN233, mkOpcode OP_UNKNOWN233 "OP_UNKNOWN233" 1 f_opcodeInvalid);
   (OP_UNKNOWN234, mkOpcode OP_UNKNOWN234 "OP_UNKNOWN234" 1 f_opcodeInvalid);
   (OP_UNKNOWN235, mkOpcode OP_UNKNOWN235 "OP_UNKNOWN235" 1 f_opcodeInvalid);
   (OP_UNKNOWN236, mkOpcode OP_UNKNOWN236 "OP_UNKNOWN236" 1 f_opcodeInvalid);
   (OP_UNKNOWN237, mkOpcode OP_UNKNOWN237 "OP_UNKNOWN237" 1 f_opcodeInvalid);
   (OP_UNKNOWN238, mkOpcode OP_UNKNOWN238 "OP_UNKNOWN238" 1 f_opcodeInvalid);
   (OP_UNKNOWN239, mkOpcode OP_UNKNOWN239 "OP_UNKNOWN239" 1 f_opcodeInvalid);
   (OP_UNKNOWN240, mkOpcode OP_UNKNOWN240 "OP_UNKNOWN240" 1 f_opcodeInvalid);
   (OP_UNKNOWN241, mkOpcode OP_UNKNOWN241 "OP_UNKNOWN241" 1 f_opcodeInvalid);
   (OP_UNKNOWN242, mkOpcode OP_UNKNOWN242 "OP_UNKNOWN242" 1 f_opcodeInvalid);
   (OP_UNKNOWN243, mkOpcode OP_UNKNOWN243 "OP_UNKNOWN243" 1 f_opcodeInvalid);
   (OP_UNKNOWN244, mkOpcode OP_UNKNOWN244 "OP_UNKNOWN244" 1 f_opcodeInvalid);
   (OP_UNKNOWN245, mkOpcode OP_UNKNOWN245 "OP_UNKNOWN245" 1 f_opcodeInvalid);
   (OP_UNKNOWN246, mkOpcode OP_UNKNOWN246 "OP_UNKNOWN246" 1 f_opcodeInvalid);
   (OP_UNKNOWN247, mkOpcode OP_UNKNOWN247 "OP_UNKNOWN247" 1 f_opcodeInvalid);
   (OP_UNKNOWN248, mkOpcode OP_UNKNOWN248 "OP_UNKNOWN248" 1 f_opcodeInvalid);
   (OP_UNKNOWN249, mkOpcode OP_UNKNOWN249 "OP_UNKNOWN249" 1 f_opcodeInvalid);
   (OP_SMALLINTEGER, mkOpcode OP_SMALLINTEGER "OP_SMALLINTEGER" 1 f_opcodeInvalid);
   (OP_PUBKEYS, mkOpcode OP_PUBKEYS "OP_PUBKEYS" 1 f_opcodeInvalid);
   (OP_UNKNOWN252, mkOpcode OP_UNKNOWN252 "OP_UNKNOWN252" 1 f_opcodeInvalid);
   (OP_PUBKEYHASH, mkOpcode OP_PUBKEYHASH "OP_PUBKEYHASH" 1 f_opcodeInvalid);
   (OP_PUBKEY, mkOpcode OP_PUBKEY "OP_PUBKEY" 1 f_opcodeInvalid);
   (OP_INVALIDOPCODE, mkOpcode OP_INVALIDOPCODE "OP_INVALIDOPCODE" 1 f_opcodeInvalid)].

(** The entry at an index of the array. *)
Fixpoint table_at (tbl : list (Z * opcode)) (i : Z) : option opcode :=
  match tbl with
  | [] => None
  | (k, o) :: rest => if k =? i then Some o else table_at rest i
  end.

Definition opcodeArray (i : Z) : opcode :=
  match table_at opcodeTable i with
  | Some o => o
  | None => mkOpcode 0 "" 0 f_opcodeInvalid
  end.

(** * Parsed opcodes *)
Record parsedOpcode := mkPop { pop_opcode : opcode; pop_data : bytes }.

#[global] Instance parsedOpcode_eq_dec : EqDecision parsedOpcode.
Proof. solve_decision. Defined.

Definition pop_value (pop : parsedOpcode) : Z := op_value (pop_opcode pop).

Definition isDisabled (pop : parsedOpcode) : bool :=
  let v := pop_value pop in
  (v =? OP_CAT) || (v =? OP_SUBSTR) || (v =? OP_LEFT) || (v =? OP_RIGHT)
  || (v =? OP_INVERT) || (v =? OP_AND) || (v =? OP_OR) || (v =? OP_XOR)
  || (v =? OP_2MUL) || (v =? OP_2DIV) || (v =? OP_MUL) || (v =? OP_DIV)
  || (v =? OP_MOD) || (v =? OP_LSHIFT) || (v =? OP_RSHIFT).

Definition alwaysIllegal (pop : parsedOpcode) : bool :=
  (pop_value pop =? OP_VERIF) || (pop_value pop =? OP_VERNOTIF).

Definition isConditional (pop : parsedOpcode) : bool :=
  let v := pop_value pop in
  (v =? OP_IF) || (v =? OP_NOTIF) || (v =? OP_ELSE) || (v =? OP_ENDIF).

(** [data[0]] is only read where the length is one. *)
Definition checkMinimalDataPush (pop : parsedOpcode) : res ErrorCode unit :=
  let data := pop_data pop in
  let dataLen := len data in
  let opcode := pop_value pop in
  let data0 := default 0 (data !! 0%nat) in
  if (dataLen =? 0) && negb (opcode =? OP_0) then Err ErrMinimalData
  else if (dataLen =? 1) && (1 <=? data0) && (data0 <=? 16) then
    if negb (opcode =? u8 (OP_1 + data0 - 1)) then Err ErrMinimalData else Ok ()
  else if (dataLen =? 1) && (data0 =? 0x81) then
    if negb (opcode =? OP_1NEGATE) then Err ErrMinimalData else Ok ()
  else if dataLen <=? 75 then
    if negb (opcode =? dataLen) then Err ErrMinimalData else Ok ()
  else if dataLen <=? 255 then
    if negb (opcode =? OP_PUSHDATA1) then Err ErrMinimalData else Ok ()
  else if dataLen <=? 65535 then
    if negb (opcode =? OP_PUSHDATA2) then Err ErrMinimalData else Ok ()
  else Ok ().

(** The bytes of an opcode in a script. *)
Definition pop_bytes (pop : parsedOpcode) : res ErrorCode bytes :=
  let o := pop_opcode pop in
  let retbytes := [op_value o] in
  if op_length o =? 1 then
    if negb (len (pop_data pop) =? 0) then Err ErrInternal else Ok retbytes
  else
    let l := len (pop_data pop) in
    let '(retbytes, nbytes) :=
      if op_length o <? 0 then
        if op_length o =? -1 then
          let lb := [u8 l] in
          (retbytes ++ lb, le_decode lb + len (retbytes ++ lb))
        else if op_length o =? -2 then
          let lb := [u8 (Z.land l 0xff); u8 (Z.land (l ≫ 8) 0xff)] in
          (retbytes ++ lb, le_decode lb + len (retbytes ++ lb))
        else if op_length o =? -4 then
          let lb := [u8 (Z.land l 0xff); u8 (Z.land (l ≫ 8) 0xff);
                     u8 (Z.land (l ≫ 16) 0xff); u8 (Z.land (l ≫ 24) 0xff)] in
          (retbytes ++ lb, le_decode lb + len (retbytes ++ lb))
        else (retbytes, op_length o)
      else (retbytes, op_length o) in
    let retbytes := retbytes ++ pop_data pop in
    if negb (len retbytes =? nbytes) then Err ErrInternal else Ok retbytes.

(** * Facts on the table *)

(** A decidable fact about every entry of the table, by evaluation. *)
Lemma opcodeArray_forall (p : Z -> opcode -> bool) :
  forallb (fun b => p b (opcodeArray b)) all_bytes = true ->
  forall b, is_byte b -> p b (opcodeArray b) = true.
Proof. intros H b Hb. exact (byte_forall (fun b => p b (opcodeArray b)) H b Hb). Qed.

Lemma opcodeArray_value b : is_byte b -> op_value (opcodeArray b) = b.
Proof.
  intros Hb.
  pose proof (opcodeArray_forall (fun b o => op_value o =? b) ltac:(vm_compute; reflexivity) b Hb) as H.
  cbv beta in H. lia.
Qed.

(** The length of an opcode: 1, a fixed push, or a push with 1, 2 or 4
    length bytes. *)
Lemma opcodeArray_length b : is_byte b ->
  op_length (opcodeArray b) =
    if (1 <=? b) && (b <=? 75) then b + 1
    else if b =? OP_PUSHDATA1 then -1
    else if b =? OP_PUSHDATA2 then -2
    else if b =? OP_PUSHDATA4 then -4
    else 1.
Proof.
  intros Hb.
  pose proof (opcodeArray_forall (fun b o => op_length o =?
    if (1 <=? b) && (b <=? 75) then b + 1
    else if b =? OP_PUSHDATA1 then -1
    else if b =? OP_PUSHDATA2 then -2
    else if b =? OP_PUSHDATA4 then -4
    else 1) ltac:(vm_compute; reflexivity) b Hb) as H.
  cbv beta in H. lia.
Qed.

(** The disabled and the always-illegal opcodes have a handler that fails. *)
Lemma isDisabled_handler b : is_byte b ->
  isDisabled (mkPop (opcodeArray b) []) = true <-> op_func (opcodeArray b) = f_opcodeDisabled.
Proof.
  intros Hb.
  pose proof (opcodeArray_forall (fun b o => Bool.eqb (isDisabled (mkPop o []))
    (@bool_decide (op_func o = f_opcodeDisabled) (opfunc_eq_dec _ _))) ltac:(vm_compute; reflexivity) b Hb) as H.
  cbv beta in H. apply Bool.eqb_prop in H. rewrite H. apply bool_decide_eq_true.
Qed.

#[global] Opaque opcodeArray.

End Opcode.
