(* ===== verification/Compress.v ===== *)
(** The domain-specific serialization of the utxo set:
    [src/blockchain/compress.go].

    Variable length quantities, compressed scripts, compressed amounts and
    compressed transaction outputs.  A target slice is passed in and returned
    with the bytes written; writing past its end panics.  Loops over 64-bit
    quantities take fuel: a VLQ has at most ten bytes. *)
From S2P Require Import Prelude PubKey SecpPrime Opcode.
Import Opcode.
#[local] Open Scope Z_scope.

Module Compress.

(** * Variable length quantities *)

(** Each iteration divides the value by 128, so ten are enough for 64 bits. *)
Definition vlq_fuel : nat := 10.

Fixpoint serializeSizeVLQ_loop (fuel : nat) (n size : Z) : res string Z :=
  if 0x7f <? n
  then match fuel with
       | O => Hang
       | S fuel => serializeSizeVLQ_loop fuel (u64 ((n ≫ 7) - 1)) (size + 1)
       end
  else Ok size.

Definition serializeSizeVLQ (n : Z) : res string Z := serializeSizeVLQ_loop vlq_fuel n 1.

Fixpoint putVLQ_loop (fuel : nat) (target : bytes) (offset n : Z) : res string (bytes * Z) :=
  let highBitMask := if offset =? 0 then 0x00 else 0x80 in
  target ← set_idx target offset (Z.lor (u8 (Z.land n 0x7f)) highBitMask);
  if n <=? 0x7f then Ok (target, offset)
  else match fuel with
       | O => Hang
       | S fuel => putVLQ_loop fuel target (offset + 1) (u64 ((n ≫ 7) - 1))
       end.

(** The in-place reversal of [target[i..j]]. *)
Fixpoint reverse_loop (fuel : nat) (target : bytes) (i j : Z) : res string bytes :=
  if i <? j
  then match fuel with
       | O => Hang
       | S fuel =>
           a ← idx target i;
           b ← idx target j;
           target ← set_idx target i b;
           target ← set_idx target j a;
           reverse_loop fuel target (i + 1) (j - 1)
       end
  else Ok target.

Definition putVLQ (target : bytes) (n : Z) : res string (bytes * Z) :=
  '(target, offset) ← putVLQ_loop vlq_fuel target 0 n;
  target ← reverse_loop vlq_fuel target 0 offset;
  Ok (target, offset + 1).

Fixpoint deserializeVLQ_loop (serialized : bytes) (n size : Z) : Z * Z :=
  match serialized with
  | [] => (n, size)
  | val :: rest =>
      let size := size + 1 in
      let n := Z.lor (u64 (n ≪ 7)) (Z.land val 0x7f) in
      if negb (Z.land val 0x80 =? 0x80) then (n, size)
      else deserializeVLQ_loop rest (u64 (n + 1)) size
  end.

Definition deserializeVLQ (serialized : bytes) : Z * Z := deserializeVLQ_loop serialized 0 0.

(** * Compressed scripts

    A Go result [(bool, []byte)] is an [option].  The [version] argument of the
    code is not used by it. *)
Definition cstPayToPubKeyHash : Z := 0.
Definition cstPayToScriptHash : Z := 1.
Definition cstPayToPubKeyComp2 : Z := 2.
Definition cstPayToPubKeyComp3 : Z := 3.
Definition cstPayToPubKeyUncomp4 : Z := 4.
Definition cstPayToPubKeyUncomp5 : Z := 5.
Definition numSpecialScripts : Z := 6.

Definition isPubKeyHash (script : bytes) : option bytes :=
  if (len script =? 25) && byte_is script 0 OP_DUP && byte_is script 1 OP_HASH160 &&
     byte_is script 2 OP_DATA_20 && byte_is script 23 OP_EQUALVERIFY &&
     byte_is script 24 OP_CHECKSIG
  then Some (take 20 (drop 3 script))
  else None.

Definition isScriptHash (script : bytes) : option bytes :=
  if (len script =? 23) && byte_is script 0 OP_HASH160 && byte_is script 1 OP_DATA_20 &&
     byte_is script 22 OP_EQUAL
  then Some (take 20 (drop 2 script))
  else None.

Definition isPubKey (script : bytes) : option bytes :=
  if (len script =? 35) && byte_is script 0 OP_DATA_33 && byte_is script 34 OP_CHECKSIG &&
     (byte_is script 1 0x02 || byte_is script 1 0x03) &&
     is_ok (btcec.ParsePubKey (take 33 (drop 1 script)))
  then Some (take 33 (drop 1 script))
  else if (len script =? 67) && byte_is script 0 OP_DATA_65 && byte_is script 66 OP_CHECKSIG &&
     byte_is script 1 0x04 && is_ok (btcec.ParsePubKey (take 65 (drop 1 script)))
  then Some (take 65 (drop 1 script))
  else None.

Definition compressedScriptSize (pkScript : bytes) : res string Z :=
  match isPubKeyHash pkScript with
  | Some _ => Ok 21
  | None =>
  match isScriptHash pkScript with
  | Some _ => Ok 21
  | None =>
  match isPubKey pkScript with
  | Some _ => Ok 33
  | None =>
      n ← serializeSizeVLQ (u64 (len pkScript + numSpecialScripts));
      Ok (n + len pkScript)
  end end end.

Definition decodeCompressedScriptSize (serialized : bytes) : Z :=
  let '(scriptSize, bytesRead) := deserializeVLQ serialized in
  if bytesRead =? 0 then 0
  else if scriptSize =? cstPayToPubKeyHash then 21
  else if scriptSize =? cstPayToScriptHash then 21
  else if (scriptSize =? cstPayToPubKeyComp2) || (scriptSize =? cstPayToPubKeyComp3) ||
          (scriptSize =? cstPayToPubKeyUncomp4) || (scriptSize =? cstPayToPubKeyUncomp5)
  then 33
  else i64 (u64 (u64 (scriptSize - numSpecialScripts) + bytesRead)).

(** The general format: the size of the script and the script as it is. *)
Definition putGeneralScript (target pkScript : bytes) : res string (bytes * Z) :=
  let encodedSize := u64 (len pkScript + numSpecialScripts) in
  '(target, vlqSizeLen) ← putVLQ target encodedSize;
  target ← copy_at target vlqSizeLen pkScript;
  Ok (target, vlqSizeLen + len pkScript).

Definition putCompressedScript (target pkScript : bytes) : res string (bytes * Z) :=
  match isPubKeyHash pkScript with
  | Some hash =>
      target ← set_idx target 0 cstPayToPubKeyHash;
      target ← copy_range target 1 21 hash;
      Ok (target, 21)
  | None =>
  match isScriptHash pkScript with
  | Some hash =>
      target ← set_idx target 0 cstPayToScriptHash;
      target ← copy_range target 1 21 hash;
      Ok (target, 21)
  | None =>
  match isPubKey pkScript with
  | Some serializedPubKey =>
      pubKeyFormat ← idx serializedPubKey 0;
      if (pubKeyFormat =? 0x02) || (pubKeyFormat =? 0x03) then
        target ← set_idx target 0 pubKeyFormat;
        xb ← slice serializedPubKey 1 33;
        target ← copy_range target 1 33 xb;
        Ok (target, 33)
      else if pubKeyFormat =? 0x04 then
        last ← idx serializedPubKey 64;
        target ← set_idx target 0 (Z.lor pubKeyFormat (Z.land last 0x01));
        xb ← slice serializedPubKey 1 33;
        target ← copy_range target 1 33 xb;
        Ok (target, 33)
      else putGeneralScript target pkScript
  | None => putGeneralScript target pkScript
  end end end.

(** [make([]byte, n)] followed by the assignments of the code. *)
Definition decompressScript (compressedPkScript : bytes) : res string bytes :=
  if len compressedPkScript =? 0 then Ok []
  else
    let '(encodedScriptSize, bytesRead) := deserializeVLQ compressedPkScript in
    if encodedScriptSize =? cstPayToPubKeyHash then
      hash ← slice compressedPkScript bytesRead (bytesRead + 20);
      Ok ([OP_DUP; OP_HASH160; OP_DATA_20] ++ hash ++ [OP_EQUALVERIFY; OP_CHECKSIG])
    else if encodedScriptSize =? cstPayToScriptHash then
      hash ← slice compressedPkScript bytesRead (bytesRead + 20);
      Ok ([OP_HASH160; OP_DATA_20] ++ hash ++ [OP_EQUAL])
    else if (encodedScriptSize =? cstPayToPubKeyComp2) ||
            (encodedScriptSize =? cstPayToPubKeyComp3) then
      xb ← slice compressedPkScript bytesRead (bytesRead + 32);
      Ok ([OP_DATA_33; u8 encodedScriptSize] ++ xb ++ [OP_CHECKSIG])
    else if (encodedScriptSize =? cstPayToPubKeyUncomp4) ||
            (encodedScriptSize =? cstPayToPubKeyUncomp5) then
      compressedKey ← make_bytes 33;
      compressedKey ← set_idx compressedKey 0 (u8 (encodedScriptSize - 2));
      tl ← slice compressedPkScript 1 (len compressedPkScript);
      compressedKey ← copy_at compressedKey 1 tl;
      match btcec.ParsePubKey compressedKey with
      | Ok key => Ok ([OP_DATA_65] ++ btcec.SerializeUncompressed key ++ [OP_CHECKSIG])
      | Err _ => Ok []
      | Panic => Panic
      | Hang => Hang
      end
    else
      let scriptSize := i64 (u64 (encodedScriptSize - numSpecialScripts)) in
      pkScript ← make_bytes scriptSize;
      src ← slice compressedPkScript bytesRead (bytesRead + scriptSize);
      copy_at pkScript 0 src.

(** * Compressed amounts

    The loop runs while [exponent < 9]: [todo] is [9 - exponent]. *)
Fixpoint compress_exponent (todo : nat) (amount exponent : Z) : Z * Z :=
  match todo with
  | O => (amount, exponent)
  | S todo => if amount mod 10 =? 0 then compress_exponent todo (amount / 10) (exponent + 1)
              else (amount, exponent)
  end.

Definition compressTxOutAmount (amount : Z) : Z :=
  if amount =? 0 then 0
  else
    let '(amount, exponent) := compress_exponent 9 amount 0 in
    if exponent <? 9 then
      let lastDigit := amount mod 10 in
      let amount := amount / 10 in
      u64 (1 + u64 (10 * u64 (u64 (9 * amount) + lastDigit - 1)) + exponent)
    else u64 (10 + u64 (10 * u64 (amount - 1))).

Fixpoint times10 (exponent : nat) (n : Z) : Z :=
  match exponent with O => n | S exponent => times10 exponent (u64 (n * 10)) end.

Definition decompressTxOutAmount (amount : Z) : Z :=
  if amount =? 0 then 0
  else
    let amount := amount - 1 in
    let exponent := amount mod 10 in
    let amount := amount / 10 in
    let n := if exponent <? 9 then
               let lastDigit := amount mod 9 + 1 in
               let amount := amount / 9 in
               u64 (u64 (amount * 10) + lastDigit)
             else u64 (amount + 1) in
    times10 (Z.to_nat exponent) n.

(** * Compressed transaction outputs *)
Definition compressedTxOutSize (amount : Z) (pkScript : bytes) (preCompressed : bool)
    : res string Z :=
  if preCompressed then n ← serializeSizeVLQ amount; Ok (n + len pkScript)
  else
    n ← serializeSizeVLQ (compressTxOutAmount amount);
    m ← compressedScriptSize pkScript;
    Ok (n + m).

(** Writing through [target[offset:]] leaves the bytes before [offset]. *)
Definition putCompressedTxOut (target : bytes) (amount : Z) (pkScript : bytes)
    (preCompressed : bool) : res string (bytes * Z) :=
  if preCompressed then
    '(target, offset) ← putVLQ target amount;
    target ← copy_at target offset pkScript;
    Ok (target, offset + len pkScript)
  else
    '(target, offset) ← putVLQ target (compressTxOutAmount amount);
    tl ← slice target offset (len target);
    '(tl, n) ← putCompressedScript tl pkScript;
    Ok (take (Z.to_nat offset) target ++ tl, offset + n).

Definition decodeCompressedTxOut (serialized : bytes) : res string (Z * bytes * Z) :=
  let '(compressedAmount, bytesRead) := deserializeVLQ serialized in
  if len serialized <=? bytesRead
  then Err "unexpected end of data after compressed amount"
  else
    tl ← slice serialized bytesRead (len serialized);
    let scriptSize := decodeCompressedScriptSize tl in
    if len tl <? scriptSize then Err "unexpected end of data after script size"
    else
      compressedScript ← make_bytes scriptSize;
      src ← slice serialized bytesRead (bytesRead + scriptSize);
      compressedScript ← copy_at compressedScript 0 src;
      Ok (compressedAmount, compressedScript, bytesRead + scriptSize).

(** * Specification of the encoding

    [vlq n] is the encoding of [n], most significant group first; every byte
    but the last has its high bit set and stands for one more than its
    group. *)
Fixpoint vlq_hi (fuel : nat) (m : Z) : bytes :=
  if m <=? 127 then [128 + m]
  else match fuel with
       | O => []
       | S fuel => vlq_hi fuel (m / 128 - 1) ++ [128 + m mod 128]
       end.

Definition vlq (n : Z) : bytes :=
  if n <=? 127 then [n] else vlq_hi 9 (n / 128 - 1) ++ [n mod 128].

(** [compress_script s] is the compressed form of the script [s]. *)
Definition compress_script (s : bytes) : bytes :=
  match isPubKeyHash s with
  | Some hash => cstPayToPubKeyHash :: hash
  | None =>
  match isScriptHash s with
  | Some hash => cstPayToScriptHash :: hash
  | None =>
  match isPubKey s with
  | Some key =>
      let format := default 0 (key !! 0%nat) in
      (if format =? 4 then 4 + default 0 (key !! 64%nat) mod 2 else format)
        :: take 32 (drop 1 key)
  | None => vlq (len s + numSpecialScripts) ++ s
  end end end.

(** The compressed form of an output. *)
Definition compress_txout (amount : Z) (pkScript : bytes) : bytes :=
  vlq (compressTxOutAmount amount) ++ compress_script pkScript.

(** An output script the examples use. *)
Definition example_p2pkh : bytes :=
  [OP_DUP; OP_HASH160; OP_DATA_20] ++ replicate 20 7 ++ [OP_EQUALVERIFY; OP_CHECKSIG].

(** The shapes of the recognized scripts. *)
Inductive script_shape : bytes -> bytes -> Prop :=
  | shape_pkh hash : length hash = 20%nat ->
      script_shape ([OP_DUP; OP_HASH160; OP_DATA_20] ++ hash ++ [OP_EQUALVERIFY; OP_CHECKSIG])
                   (cstPayToPubKeyHash :: hash)
  | shape_sh hash : length hash = 20%nat ->
      script_shape ([OP_HASH160; OP_DATA_20] ++ hash ++ [OP_EQUAL])
                   (cstPayToScriptHash :: hash)
  | shape_comp f xb key : length xb = 32%nat -> f = 2 \/ f = 3 ->
      btcec.ParsePubKey (f :: xb) = Ok key ->
      script_shape ([OP_DATA_33; f] ++ xb ++ [OP_CHECKSIG]) (f :: xb)
  | shape_uncomp xb yb key : length xb = 32%nat -> length yb = 32%nat ->
      btcec.ParsePubKey (4 :: xb ++ yb) = Ok key ->
      script_shape ([OP_DATA_65; 4] ++ (xb ++ yb) ++ [OP_CHECKSIG])
                   (4 + default 0 (yb !! 31%nat) mod 2 :: xb)
  | shape_general s :
      script_shape s (vlq (len s + numSpecialScripts) ++ s).

(** * Facts on the VLQ encoding *)

Lemma vlq_step n : 127 < n < 2 ^ 64 -> u64 ((n ≫ 7) - 1) = n / 128 - 1.
Proof.
  intros H. rewrite Z.shiftr_div_pow2 by lia. change (2 ^ 7) with 128.
  pose proof (Z.div_le_lower_bound n 128 1).
  assert (n / 128 < 2 ^ 57) by (apply Z.div_lt_upper_bound; lia).
  apply wrapu_small. unfold is_u. lia.
Qed.

Lemma vlq_next n k : 0 <= k -> 127 < n < 2 ^ (7 * (k + 1)) -> 0 <= n / 128 - 1 < 2 ^ (7 * k).
Proof.
  intros Hk H. pose proof (Z.div_le_lower_bound n 128 1).
  replace (7 * (k + 1)) with (7 + 7 * k) in H by lia. rewrite Z.pow_add_r in H by lia.
  change (2 ^ 7) with 128 in H.
  assert (n / 128 < 2 ^ (7 * k)) by (apply Z.div_lt_upper_bound; lia). lia.
Qed.

Lemma low7 n : Z.land n 0x7f = n mod 128.
Proof. apply (land_ones_mod n 7). lia. Qed.

Lemma put_byte n : Z.lor (u8 (Z.land n 0x7f)) 0x80 = 128 + n mod 128.
Proof.
  rewrite low7. pose proof (Z.mod_pos_bound n 128).
  rewrite wrapu_small by (unfold is_u; lia).
  rewrite Z.lor_comm. apply (lor_shiftl_add 1 (n mod 128) 7); lia.
Qed.

Lemma put_last n : Z.lor (u8 (Z.land n 0x7f)) 0x00 = n mod 128.
Proof.
  rewrite low7. pose proof (Z.mod_pos_bound n 128).
  by rewrite wrapu_small, Z.lor_0_r by (unfold is_u; lia).
Qed.

(** Byte-level facts used by the decoder. *)
Lemma get_hi b : 0 <= b < 128 -> Z.land (128 + b) 0x7f = b /\ Z.land (128 + b) 0x80 = 0x80.
Proof.
  intros H. pose proof (byte_forall (fun c => (c <? 128) ||
    ((Z.land c 0x7f =? c - 128) && (Z.land c 0x80 =? 0x80))) eq_refl (128 + b)) as Hc.
  cbv beta in Hc. unfold is_byte in Hc. lia.
Qed.

Lemma get_last b : 0 <= b < 128 -> Z.land b 0x7f = b /\ Z.land b 0x80 = 0.
Proof.
  intros H. pose proof (byte_forall (fun c => (128 <=? c) ||
    ((Z.land c 0x7f =? c) && (Z.land c 0x80 =? 0))) eq_refl b) as Hc.
  cbv beta in Hc. unfold is_byte in Hc. lia.
Qed.

Lemma get_group n b :
  0 <= n -> n * 128 + b < 2 ^ 64 -> 0 <= b < 128 -> Z.lor (u64 (n ≪ 7)) b = n * 128 + b.
Proof.
  intros Hn Hlt Hb.
  rewrite wrapu_small by (unfold is_u; rewrite Z.shiftl_mul_pow2 by lia; lia).
  by rewrite lor_shiftl_add by lia.
Qed.

Lemma serializeSizeVLQ_loop_hi fuel m s :
  0 <= m < 2 ^ 64 -> m < 2 ^ (7 * (Z.of_nat fuel + 1)) ->
  serializeSizeVLQ_loop fuel m s = Ok (s + len (vlq_hi fuel m) - 1).
Proof.
  revert m s. induction fuel as [|fuel IH]; intros m s Hm Hf; simpl;
    destruct (Z.ltb_spec 127 m), (Z.leb_spec m 127); try lia.
  - by rewrite Z.add_simpl_r.
  - assert (0 <= m / 128 - 1 < 2 ^ (7 * (Z.of_nat fuel + 1)))
      by (apply vlq_next; [lia|]; split; [lia|]; replace (Z.of_nat fuel + 1 + 1)
          with (Z.of_nat (S fuel) + 1) by lia; done).
    pose proof (Z.div_lt_upper_bound m 128 (2 ^ 64)).
    rewrite vlq_step, IH, len_app by lia. f_equal. change (len [_]) with 1. lia.
  - by rewrite Z.add_simpl_r.
Qed.

Lemma vlq_hi_nonempty fuel m : 1 <= len (vlq_hi fuel m) \/ fuel = 0%nat.
Proof.
  destruct fuel; [by right | left]. simpl. destruct (m <=? 127); [done|].
  rewrite len_app. change (len [_]) with 1. pose proof (len_nonneg (vlq_hi fuel (m / 128 - 1))). lia.
Qed.

Lemma putVLQ_loop_hi fuel pre mid post m :
  pre <> [] -> 0 <= m < 2 ^ 64 -> m < 2 ^ (7 * (Z.of_nat fuel + 1)) ->
  length mid = length (vlq_hi fuel m) ->
  putVLQ_loop fuel (pre ++ mid ++ post) (len pre) m =
  Ok (pre ++ reverse (vlq_hi fuel m) ++ post, len pre + len (vlq_hi fuel m) - 1).
Proof.
  revert pre mid m. induction fuel as [|fuel IH]; intros pre mid m Hpre Hm Hf Hmid;
    assert (0 < len pre) by (destruct pre; [done|]; rewrite len_cons; pose proof (len_nonneg pre); lia);
    cbn [putVLQ_loop vlq_hi] in *; replace (len pre =? 0) with false by lia;
    rewrite put_byte; destruct (Z.leb_spec m 127).
  1, 3: destruct mid as [|x [|]]; try done; cbn [app];
    rewrite set_idx_middle, Z.mod_small by lia; cbn [mbind res_bind];
    do 2 f_equal; change (len [_]) with 1; lia.
  - exfalso. change (2 ^ (7 * (Z.of_nat 0 + 1))) with 128 in Hf. lia.
  - rewrite length_app in Hmid. cbn [length] in Hmid. destruct mid as [|x mid]; [cbn [length] in Hmid; lia|].
    assert (0 <= m / 128 - 1 < 2 ^ (7 * (Z.of_nat fuel + 1)))
      by (apply vlq_next; [lia|]; split; [lia|]; replace (Z.of_nat fuel + 1 + 1)
          with (Z.of_nat (S fuel) + 1) by lia; done).
    pose proof (Z.div_lt_upper_bound m 128 (2 ^ 64)).
    cbn [app]. rewrite set_idx_middle. cbn [mbind res_bind].
    rewrite vlq_step by lia.
    specialize (IH (pre ++ [128 + m mod 128]) mid (m / 128 - 1)).
    rewrite <- !app_assoc in IH. cbn [app] in IH. rewrite len_app in IH.
    change (len [_]) with 1 in IH. rewrite IH; try lia; [|by destruct pre | cbn [length] in Hmid; lia].
    rewrite reverse_snoc, len_app. do 2 f_equal. change (len [_]) with 1. lia.
Qed.

Lemma reverse_loop_spec fuel pre mid post :
  (length mid <= 2 * fuel + 1)%nat ->
  reverse_loop fuel (pre ++ mid ++ post) (len pre) (len pre + len mid - 1) =
  Ok (pre ++ reverse mid ++ post).
Proof.
  revert pre mid post. induction fuel as [|fuel IH]; intros pre mid post Hl;
    (destruct mid as [|x mid];
     [simpl; rewrite len_nil; replace (len pre <? len pre + 0 - 1) with false by lia; done|]);
    (destruct mid as [|y mid _] using rev_ind;
     [simpl; change (len [x]) with 1; replace (len pre <? len pre + 1 - 1) with false by lia; done|]);
    simpl in Hl; rewrite length_app in Hl; simpl in Hl; [lia|].
  cbn [reverse_loop]. rewrite len_cons, len_app. change (len [y]) with 1.
  pose proof (len_nonneg mid). replace (len pre <? _) with true by lia.
  rewrite <- app_comm_cons, <- app_assoc. cbn [app].
  rewrite idx_middle. cbn [mbind res_bind].
  replace (len pre + (1 + (len mid + 1)) - 1) with (len (pre ++ x :: mid))
    by (rewrite len_app, len_cons; lia).
  replace (pre ++ x :: mid ++ y :: post) with ((pre ++ x :: mid) ++ y :: post)
    by (by rewrite <- app_assoc).
  rewrite idx_middle. cbn [mbind res_bind]. rewrite <- app_assoc. cbn [app].
  rewrite set_idx_middle. cbn [mbind res_bind].
  replace (pre ++ y :: mid ++ y :: post) with ((pre ++ y :: mid) ++ y :: post)
    by (by rewrite <- app_assoc).
  replace (len (pre ++ x :: mid)) with (len (pre ++ y :: mid)) by (by rewrite !len_app, !len_cons).
  rewrite set_idx_middle. cbn [mbind res_bind].
  specialize (IH (pre ++ [y]) mid (x :: post)).
  rewrite <- !app_assoc in IH. cbn [app] in IH.
  rewrite <- app_assoc. cbn [app].
  replace (len pre + 1) with (len (pre ++ [y])) by (by rewrite len_app).
  replace (len (pre ++ y :: mid) - 1) with (len (pre ++ [y]) + len mid - 1)
    by (autorewrite with go; lia).
  rewrite IH by lia. rewrite reverse_cons, reverse_snoc. by rewrite <- !app_assoc.
Qed.

Lemma length_vlq_hi fuel m : (length (vlq_hi fuel m) <= S fuel)%nat.
Proof.
  revert m. induction fuel as [|fuel IH]; intros m; simpl; destruct (m <=? 127); simpl; try lia.
  rewrite length_app. simpl. specialize (IH (m / 128 - 1)). lia.
Qed.

Lemma vlq_length n : 1 <= len (vlq n) <= 11.
Proof.
  unfold vlq. destruct (n <=? 127); [done|]. rewrite len_app. change (len [_]) with 1.
  pose proof (length_vlq_hi 9 (n / 128 - 1)). unfold len. lia.
Qed.

Lemma vlq_first n : 127 < n < 2 ^ 64 ->
  0 <= n / 128 - 1 < 2 ^ 64 /\ n / 128 - 1 < 2 ^ (7 * (Z.of_nat 9 + 1)).
Proof.
  intros H. pose proof (Z.div_le_lower_bound n 128 1).
  assert (n / 128 < 2 ^ 57) by (apply Z.div_lt_upper_bound; lia). lia.
Qed.

Lemma serializeSizeVLQ_spec n : is_u 64 n -> serializeSizeVLQ n = Ok (len (vlq n)).
Proof.
  intros Hn. unfold is_u in Hn. unfold serializeSizeVLQ, vlq.
  change vlq_fuel with (S 9). remember 9%nat as k eqn:Hk. cbn [serializeSizeVLQ_loop]. subst k.
  destruct (Z.ltb_spec 127 n), (Z.leb_spec n 127); try lia; [|done].
  destruct (vlq_first n) as [? ?]; [lia|].
  rewrite vlq_step, serializeSizeVLQ_loop_hi, len_app by lia. f_equal.
  change (len [_]) with 1. lia.
Qed.

Lemma putVLQ_spec mid post n :
  is_u 64 n -> length mid = length (vlq n) ->
  putVLQ (mid ++ post) n = Ok (vlq n ++ post, len (vlq n)).
Proof.
  intros Hn Hmid. unfold is_u in Hn.
  assert (putVLQ_loop vlq_fuel (mid ++ post) 0 n =
          Ok (reverse (vlq n) ++ post, len (vlq n) - 1)) as Hloop.
  { unfold vlq in *. change vlq_fuel with (S 9). remember 9%nat as k eqn:Hk.
    cbn [putVLQ_loop]. subst k.
    change (0 =? 0) with true. cbv iota. rewrite put_last.
    destruct (Z.leb_spec n 127).
    - destruct mid as [|x [|]]; try done. cbn [app].
      rewrite (set_idx_middle [] post x), Z.mod_small by lia. done.
    - rewrite length_app in Hmid. cbn [length] in Hmid. destruct mid as [|x mid]; [cbn [length] in Hmid; lia|].
      cbn [app]. rewrite (set_idx_middle [] (mid ++ post) x). cbn [mbind res_bind].
      destruct (vlq_first n) as [? ?]; [lia|]. rewrite vlq_step by lia.
      rewrite (putVLQ_loop_hi 9 [n mod 128] mid post); try done; [|cbn [length] in Hmid; lia].
      rewrite reverse_snoc, len_app. do 2 f_equal. change (len [_]) with 1. lia. }
  unfold putVLQ. rewrite Hloop. cbn [mbind res_bind].
  pose proof (reverse_loop_spec vlq_fuel [] (reverse (vlq n)) post) as Hr.
  cbn [app] in Hr. rewrite len_nil, len_reverse, reverse_involutive, length_reverse in Hr.
  replace (0 + len (vlq n) - 1) with (len (vlq n) - 1) in Hr by lia. rewrite Hr.
  - cbn [mbind res_bind]. do 2 f_equal. lia.
  - pose proof (vlq_length n). unfold vlq_fuel, len in *. lia.
Qed.

Lemma deserializeVLQ_loop_hi fuel m rest s :
  0 <= m < 2 ^ 64 - 1 -> m < 2 ^ (7 * (Z.of_nat fuel + 1)) ->
  deserializeVLQ_loop (vlq_hi fuel m ++ rest) 0 s =
  deserializeVLQ_loop rest (m + 1) (s + len (vlq_hi fuel m)).
Proof.
  revert m rest s. induction fuel as [|fuel IH]; intros m rest s Hm Hf; cbn [vlq_hi];
    destruct (Z.leb_spec m 127).
  1, 3: cbn [app]; cbn [deserializeVLQ_loop]; destruct (get_hi m) as [-> ->]; [lia|];
    rewrite get_group by lia; cbn [negb Z.eqb];
    change (negb (128 =? 128)) with false; cbv iota;
    rewrite wrapu_small by (unfold is_u; lia); f_equal.
  - exfalso. change (2 ^ (7 * (Z.of_nat 0 + 1))) with 128 in Hf. lia.
  - assert (0 <= m / 128 - 1 < 2 ^ (7 * (Z.of_nat fuel + 1)))
      by (apply vlq_next; [lia|]; split; [lia|]; replace (Z.of_nat fuel + 1 + 1)
          with (Z.of_nat (S fuel) + 1) by lia; done).
    pose proof (Z.div_lt_upper_bound m 128 (2 ^ 64 - 1)).
    rewrite <- app_assoc, IH by lia. cbn [app]. cbn [deserializeVLQ_loop].
    pose proof (Z.mod_pos_bound m 128). pose proof (Z.div_mod m 128).
    destruct (get_hi (m mod 128)) as [-> ->]; [lia|].
    rewrite get_group by lia. change (negb (128 =? 128)) with false. cbv iota.
    rewrite wrapu_small by (unfold is_u; lia).
    rewrite len_app. change (len [_]) with 1. f_equal; lia.
Qed.

Lemma deserializeVLQ_vlq n rest :
  is_u 64 n -> deserializeVLQ (vlq n ++ rest) = (n, len (vlq n)).
Proof.
  intros Hn. unfold is_u in Hn. unfold deserializeVLQ, vlq.
  destruct (Z.leb_spec n 127).
  - cbn [app]. cbn [deserializeVLQ_loop]. destruct (get_last n) as [-> ->]; [lia|].
    rewrite get_group by lia. done.
  - destruct (vlq_first n) as [? ?]; [lia|].
    pose proof (Z.mod_pos_bound n 128). pose proof (Z.div_mod n 128).
    rewrite <- app_assoc, deserializeVLQ_loop_hi by lia. cbn [app]. cbn [deserializeVLQ_loop].
    destruct (get_last (n mod 128)) as [-> ->]; [lia|].
    rewrite get_group by lia. change (negb (0 =? 128)) with true. cbv iota.
    rewrite len_app. change (len [_]) with 1. f_equal; lia.
Qed.

(** * Facts on compressed scripts *)

Lemma cut_middle (s : bytes) a b :
  take b (drop a s) ++ drop (a + b) s = drop a s.
Proof. by rewrite <- drop_drop, take_drop. Qed.

Lemma isPubKeyHash_Some s h :
  isPubKeyHash s = Some h ->
  length h = 20%nat /\ s = [OP_DUP; OP_HASH160; OP_DATA_20] ++ h ++ [OP_EQUALVERIFY; OP_CHECKSIG].
Proof.
  unfold isPubKeyHash. destruct (_ && _) eqn:H; [|done]. intros [= <-].
  rewrite !andb_true_iff, !byte_is_Some in H. destruct H as [[[[[Hl H0] H1] H2] H3] H4].
  apply Z.eqb_eq in Hl. unfold len in Hl. split; [rewrite length_take, length_drop; lia|].
  rewrite <- (drop_0 s) at 1. rewrite (drop_S s _ 0 H0), (drop_S s _ 1 H1), (drop_S s _ 2 H2).
  rewrite <- (cut_middle s 3 20) at 1.
  change (3 + 20)%nat with 23%nat. rewrite (drop_S s _ 23 H3), (drop_S s _ 24 H4).
  by rewrite (drop_ge s 25) by lia.
Qed.

Lemma isScriptHash_Some s h :
  isScriptHash s = Some h ->
  length h = 20%nat /\ s = [OP_HASH160; OP_DATA_20] ++ h ++ [OP_EQUAL].
Proof.
  unfold isScriptHash. destruct (_ && _) eqn:H; [|done]. intros [= <-].
  rewrite !andb_true_iff, !byte_is_Some in H. destruct H as [[[Hl H0] H1] H2].
  apply Z.eqb_eq in Hl. unfold len in Hl. split; [rewrite length_take, length_drop; lia|].
  rewrite <- (drop_0 s) at 1. rewrite (drop_S s _ 0 H0), (drop_S s _ 1 H1).
  rewrite <- (cut_middle s 2 20) at 1.
  change (2 + 20)%nat with 22%nat. rewrite (drop_S s _ 22 H2).
  by rewrite (drop_ge s 23) by lia.
Qed.

Lemma is_ok_Ok {E A} (m : res E A) : is_ok m = true -> exists a, m = Ok a.
Proof. destruct m; naive_solver. Qed.

Lemma isPubKey_Some s k :
  isPubKey s = Some k ->
  (exists f xb key, k = f :: xb /\ length xb = 32%nat /\ (f = 2 \/ f = 3) /\
     btcec.ParsePubKey (f :: xb) = Ok key /\ s = [OP_DATA_33; f] ++ xb ++ [OP_CHECKSIG]) \/
  (exists xb yb key, k = 4 :: xb ++ yb /\ length xb = 32%nat /\ length yb = 32%nat /\
     btcec.ParsePubKey (4 :: xb ++ yb) = Ok key /\
     s = [OP_DATA_65; 4] ++ (xb ++ yb) ++ [OP_CHECKSIG]).
Proof.
  unfold isPubKey. destruct (_ && _) eqn:H; [|clear H; destruct (_ && _) eqn:H; [|done]];
    intros [= <-]; rewrite !andb_true_iff in H.
  - rewrite orb_true_iff, !byte_is_Some, Z.eqb_eq in H. unfold len in H.
    destruct H as [[[[Hl H0] H1] H2] [key Hk]%is_ok_Ok]. left.
    assert (exists f, s !! 1%nat = Some f /\ (f = 2 \/ f = 3)) as (f & Hf & Hf23) by naive_solver.
    assert (take 33 (drop 1 s) = f :: take 32 (drop 2 s)) as Ht by (by rewrite (drop_S s _ 1 Hf)).
    exists f, (take 32 (drop 2 s)), key. rewrite <- Ht.
    split_and!; [done | rewrite length_take, length_drop; lia | done | done |].
    rewrite <- (drop_0 s) at 1. rewrite (drop_S s _ 0 H0), (drop_S s _ 1 Hf).
    rewrite <- (cut_middle s 2 32) at 1.
    change (2 + 32)%nat with 34%nat. rewrite (drop_S s _ 34 H1). by rewrite (drop_ge s 35) by lia.
  - rewrite !byte_is_Some, Z.eqb_eq in H. unfold len in H.
    destruct H as [[[[Hl H0] H1] H2] [key Hk]%is_ok_Ok]. right.
    assert (take 65 (drop 1 s) = 4 :: take 32 (drop 2 s) ++ take 32 (drop 34 s)) as Ht.
    { rewrite (drop_S s _ 1 H2). cbn [take]. f_equal.
      rewrite <- (take_drop 32 (take 64 _)), take_take, skipn_firstn_comm, drop_drop. done. }
    exists (take 32 (drop 2 s)), (take 32 (drop 34 s)), key. rewrite <- Ht.
    split_and!; [done | rewrite length_take, length_drop; lia.. | done |].
    rewrite <- (drop_0 s) at 1. rewrite (drop_S s _ 0 H0), (drop_S s _ 1 H2).
    rewrite <- (cut_middle s 2 32) at 1. change (2 + 32)%nat with 34%nat.
    rewrite <- (cut_middle s 34 32) at 1. change (34 + 32)%nat with 66%nat. rewrite (drop_S s _ 66 H1).
    rewrite (drop_ge s 67) by lia. cbn [app]. by rewrite <- app_assoc.
Qed.

(** The specification follows the shapes. *)
Lemma compress_script_shape s : script_shape s (compress_script s).
Proof.
  unfold compress_script.
  destruct (isPubKeyHash s) as [h|] eqn:Hp.
  { apply isPubKeyHash_Some in Hp as [? ->]. by constructor. }
  destruct (isScriptHash s) as [h|] eqn:Hs.
  { apply isScriptHash_Some in Hs as [? ->]. by constructor. }
  destruct (isPubKey s) as [k|] eqn:Hk; [|constructor].
  apply isPubKey_Some in Hk as [(f & xb & key & -> & Hx & Hf & Hkey & ->)
                              |(xb & yb & key & -> & Hx & Hy & Hkey & ->)]; simpl.
  - rewrite drop_0, take_ge by lia. replace (f =? 4) with false by lia. by econstructor.
  - rewrite (lookup_app_r xb yb 63) by lia. rewrite Hx. simpl.
    rewrite drop_0, take_app_length' by done. by econstructor.
Qed.

(** A tag byte and a payload written into a buffer that starts at its place. *)
Lemma write_tagged (mid post : bytes) (tag : Z) (payload : bytes) (n : Z) :
  length mid = S (length payload) -> n = 1 + len payload ->
  (target ← set_idx (mid ++ post) 0 tag;
   target ← copy_range target 1 n payload;
   Ok (target, n)) = @Ok string _ (tag :: payload ++ post, n).
Proof.
  intros Hl ->. destruct mid as [|x mid]; [done|]. injection Hl as Hl.
  cbn [app]. rewrite (set_idx_middle [] (mid ++ post) x). cbn [mbind res_bind app].
  pose proof (@copy_range_full string Z [tag] mid post payload Hl) as Hc.
  change (len [tag]) with 1 in Hc. cbn [app] in Hc. unfold len in *. rewrite Hl in Hc.
  by rewrite Hc.
Qed.

Lemma putGeneralScript_spec mid post s :
  len s + numSpecialScripts < 2 ^ 64 ->
  length mid = length (vlq (len s + numSpecialScripts) ++ s) ->
  putGeneralScript (mid ++ post) s =
  Ok ((vlq (len s + numSpecialScripts) ++ s) ++ post, len (vlq (len s + numSpecialScripts) ++ s)).
Proof.
  intros Hn Hl. pose proof (len_nonneg s). unfold putGeneralScript.
  assert (is_u 64 (len s + numSpecialScripts)) as Hu by (unfold is_u, numSpecialScripts in *; lia).
  rewrite wrapu_small by done. set (v := vlq _) in *.
  rewrite length_app in Hl. rewrite <- (take_drop (length v) mid), <- app_assoc.
  assert (length (drop (length v) mid) = length s) as Hd by (rewrite length_drop; lia).
  rewrite putVLQ_spec by (done || (rewrite length_take; fold v; lia)).
  fold v. cbn [mbind res_bind]. rewrite copy_at_full by done. cbn [mbind res_bind].
  by rewrite len_app, <- app_assoc.
Qed.

Lemma putCompressedScript_spec mid post s :
  len s + numSpecialScripts < 2 ^ 64 -> length mid = length (compress_script s) ->
  putCompressedScript (mid ++ post) s = Ok (compress_script s ++ post, len (compress_script s)).
Proof.
  intros Hn Hl. unfold putCompressedScript, compress_script in *.
  destruct (isPubKeyHash s) as [h|] eqn:Hp.
  { apply isPubKeyHash_Some in Hp as [Hh _].
    rewrite write_tagged; [unfold len; cbn [length]; by rewrite Hh | done | unfold len; by rewrite Hh]. }
  destruct (isScriptHash s) as [h|] eqn:Hs.
  { apply isScriptHash_Some in Hs as [Hh _].
    rewrite write_tagged; [unfold len; cbn [length]; by rewrite Hh | done | unfold len; by rewrite Hh]. }
  destruct (isPubKey s) as [k|] eqn:Hk; [|by apply putGeneralScript_spec].
  apply isPubKey_Some in Hk as [(f & xb & key & -> & Hx & Hf & _ & _)
                              |(xb & yb & key & -> & Hx & Hy & _ & _)].
  - change (idx (f :: xb) 0) with (@Ok string Z f). cbn [mbind res_bind].
    replace ((f =? 2) || (f =? 3)) with true by lia.
    cbn [lookup list_lookup default from_option] in *. unfold id in *. replace (f =? 4) with false in * by lia.
    assert (slice (f :: xb) 1 33 = @Ok string bytes xb) as ->.
    { apply slice_Ok. rewrite len_cons. unfold len. rewrite Hx. split_and!; [lia..|].
      change (Z.to_nat 1) with 1%nat. cbn [drop]. by rewrite drop_0, take_ge by lia. }
    cbn [drop] in *. rewrite drop_0, take_ge in * by lia. cbn [mbind res_bind].
    rewrite write_tagged; [unfold len; cbn [length]; by rewrite Hx | done | unfold len; by rewrite Hx].
  - change (idx (4 :: xb ++ yb) 0) with (@Ok string Z 4). cbn [mbind res_bind].
    change ((4 =? 2) || (4 =? 3)) with false. change (4 =? 4) with true. cbv iota.
    change ((4 :: xb ++ yb) !! 0%nat) with (Some 4) in *. cbn [default from_option drop] in *.
    destruct (lookup_lt_is_Some_2 (xb ++ yb) 63) as [lst Hlst]; [rewrite length_app; lia|].
    assert (idx (4 :: xb ++ yb) 64 = @Ok string Z lst) as -> by (by apply idx_Ok).
    assert (slice (4 :: xb ++ yb) 1 33 = @Ok string bytes xb) as ->.
    { apply slice_Ok. rewrite len_cons, len_app. unfold len. rewrite Hx, Hy. split_and!; [lia..|].
      change (Z.to_nat 1) with 1%nat. cbn [drop]. by rewrite drop_0, take_app_length' by lia. }
    change ((4 :: xb ++ yb) !! 64%nat) with ((xb ++ yb) !! 63%nat) in *.
    rewrite Hlst, drop_0, take_app_length' in Hl by done.
    rewrite Hlst, drop_0, take_app_length' by done. change (id 4 =? 4) with true in *.
    cbn [default from_option] in *. unfold id in *.
    cbn [mbind res_bind].
    assert (Z.lor 4 (Z.land lst 1) = 4 + lst mod 2) as ->.
    { change 1 with (2 ^ 1 - 1) at 1. rewrite land_ones_mod by lia.
      apply (lor_shiftl_add 1 (lst mod 2) 2); [lia|]. pose proof (Z.mod_pos_bound lst 2). lia. }
    rewrite write_tagged; [unfold len; cbn [length]; by rewrite Hx | done | unfold len; by rewrite Hx].
Qed.

Lemma compressedScriptSize_spec s :
  len s + numSpecialScripts < 2 ^ 64 ->
  compressedScriptSize s = Ok (len (compress_script s)).
Proof.
  intros Hn. unfold compressedScriptSize, compress_script.
  destruct (isPubKeyHash s) as [h|] eqn:Hp.
  { apply isPubKeyHash_Some in Hp as [Hh _]. rewrite len_cons. unfold len. by rewrite Hh. }
  destruct (isScriptHash s) as [h|] eqn:Hs.
  { apply isScriptHash_Some in Hs as [Hh _]. rewrite len_cons. unfold len. by rewrite Hh. }
  destruct (isPubKey s) as [k|] eqn:Hk.
  - rewrite len_cons. unfold len. rewrite length_take, length_drop.
    apply isPubKey_Some in Hk as [(f & xb & key & -> & Hx & _)|(xb & yb & key & -> & Hx & Hy & _)];
      cbn [length]; rewrite ?length_app; f_equal; lia.
  - pose proof (len_nonneg s). rewrite wrapu_small by (unfold is_u, numSpecialScripts in *; lia).
    rewrite serializeSizeVLQ_spec by (unfold is_u, numSpecialScripts in *; lia).
    cbn [mbind res_bind]. by rewrite len_app.
Qed.

Lemma deserializeVLQ_tag tag rest : 0 <= tag < 128 -> deserializeVLQ (tag :: rest) = (tag, 1).
Proof.
  intros H. pose proof (deserializeVLQ_vlq tag rest) as Hv. unfold vlq in Hv.
  replace (tag <=? 127) with true in Hv by lia. apply Hv. unfold is_u. lia.
Qed.

Lemma slice_tail {E} (tag : Z) (a rest : bytes) n :
  len a = n -> @slice E _ (tag :: a ++ rest) 1 (1 + n) = Ok a.
Proof.
  intros <-. apply slice_Ok. rewrite len_cons, len_app.
  pose proof (len_nonneg a). pose proof (len_nonneg rest). split_and!; [lia..|].
  change (Z.to_nat 1) with 1%nat. cbn [drop]. rewrite drop_0.
  replace (Z.to_nat (1 + len a - 1)) with (length a) by (unfold len; lia).
  by rewrite take_app_length.
Qed.

Lemma slice_prefix {E A} (a b rest : list A) :
  @slice E _ (a ++ b ++ rest) (len a) (len a + len b) = Ok b.
Proof.
  apply slice_Ok. rewrite !len_app. pose proof (len_nonneg a).
  pose proof (len_nonneg b). pose proof (len_nonneg rest). split_and!; [lia..|].
  unfold len. rewrite Nat2Z.id, drop_app_length.
  replace (Z.to_nat _) with (length b) by lia. by rewrite take_app_length.
Qed.

(** The general case of decompression copies the script out. *)
Lemma decompress_general s rest :
  len s + numSpecialScripts < 2 ^ 63 ->
  decompressScript ((vlq (len s + numSpecialScripts) ++ s) ++ rest) = Ok s.
Proof.
  intros Hn. unfold decompressScript. unfold numSpecialScripts in *.
  pose proof (len_nonneg s). pose proof (vlq_length (len s + 6)).
  rewrite !len_app, <- app_assoc. pose proof (len_nonneg rest).
  replace (_ + _ + _ =? 0) with false by lia.
  rewrite deserializeVLQ_vlq by (unfold is_u; lia).
  unfold cstPayToPubKeyHash, cstPayToScriptHash, cstPayToPubKeyComp2, cstPayToPubKeyComp3,
    cstPayToPubKeyUncomp4, cstPayToPubKeyUncomp5.
  repeat (case_if; [lia|]).
  rewrite Z.add_simpl_r, wrapu_small, wraps_small by (unfold is_u, is_s; lia).
  unfold make_bytes. replace (len s <? 0) with false by lia. cbn [mbind res_bind].
  rewrite slice_prefix. cbn [mbind res_bind].
  pose proof (@copy_at_full string Z [] (replicate (Z.to_nat (len s)) 0) [] s) as Hc.
  rewrite !app_nil_r in Hc. apply Hc. rewrite length_replicate. unfold len. lia.
Qed.

(** The 33-byte buffer filled from the payload of an uncompressed key. *)
Lemma key_buffer b (xb rest : bytes) :
  length xb = 32%nat ->
  (k ← make_bytes 33; k ← set_idx k 0 b; copy_at k 1 (xb ++ rest)) = @Ok string _ (b :: xb).
Proof.
  intros Hx. change (@make_bytes string 33) with (@Ok string _ (0 :: replicate 32 0)).
  cbn [mbind res_bind].
  change (set_idx (0 :: replicate 32 0) 0 b) with (@Ok string _ (b :: replicate 32 0)).
  cbn [mbind res_bind].
  unfold copy_at. rewrite len_cons, len_replicate.
  change (_ && _) with true. cbv iota zeta. do 2 f_equal.
  replace (Z.to_nat (1 + Z.of_nat 32 - 1)) with 32%nat by lia.
  rewrite take_app_length' by done. rewrite Hx.
  by rewrite app_nil_r.
Qed.

Lemma decompress_uncompressed xb yb key rest :
  bytes_ok xb -> bytes_ok yb -> length xb = 32%nat -> length yb = 32%nat ->
  btcec.ParsePubKey (4 :: xb ++ yb) = Ok key ->
  decompressScript ((4 + default 0 (yb !! 31%nat) mod 2 :: xb) ++ rest) =
  Ok ([OP_DATA_65; 4] ++ (xb ++ yb) ++ [OP_CHECKSIG]).
Proof.
  intros Hxok Hyok Hx Hy Hp.
  destruct (SecpPrime.ParsePubKey_uncompressed_inv xb yb key) as [Hk Hv]; try done.
  pose proof (SecpPrime.isOdd_last_byte yb Hy) as Hodd. set (b := default 0 _ mod 2) in *.
  assert (b = 0 \/ b = 1) as Hb by (pose proof (Z.mod_pos_bound (default 0 (yb !! 31%nat)) 2); lia).
  cbn [app]. unfold decompressScript. rewrite len_cons.
  pose proof (len_nonneg (xb ++ rest)). replace (1 + _ =? 0) with false by lia.
  rewrite deserializeVLQ_tag by lia.
  unfold cstPayToPubKeyHash, cstPayToScriptHash, cstPayToPubKeyComp2, cstPayToPubKeyComp3,
    cstPayToPubKeyUncomp4, cstPayToPubKeyUncomp5.
  do 3 (case_if; [lia|]). replace ((4 + b =? 4) || _) with true by lia.
  pose proof (@slice_tail string (4 + b) (xb ++ rest) [] (len (xb ++ rest)) eq_refl) as Hs.
  rewrite app_nil_r in Hs. rewrite Hs. cbn [mbind res_bind].
  pose proof (key_buffer (u8 (4 + b - 2)) xb rest Hx) as Hbuf.
  apply bind_Ok in Hbuf as (k0 & Hk0 & Hbuf). apply bind_Ok in Hbuf as (k1 & Hk1 & Hbuf).
  rewrite Hk0. cbn [mbind res_bind]. rewrite Hk1. cbn [mbind res_bind]. rewrite Hbuf. cbn [mbind res_bind].
  pose proof (SecpPrime.SerializeCompressed_parse key Hv) as Hpc.
  pose proof (SecpPrime.SerializeUncompressed_eq key Hv) as Hsu.
  destruct Hv as (Hvx & Hvy & _). pose proof btcec.P_bound.
  rewrite btcec.SerializeCompressed_eq in Hpc by lia.
  assert (be_encode 32 (btcec.X key) = xb) as Ex
    by (rewrite Hk; simpl; rewrite <- Hx; by apply be_encode_decode).
  assert (be_encode 32 (btcec.Y key) = yb) as Ey
    by (rewrite Hk; simpl; rewrite <- Hy; by apply be_encode_decode).
  rewrite Ex, Ey in Hsu. rewrite Ex in Hpc.
  replace (if btcec.isOdd (btcec.Y key) then 3 else 2) with (u8 (4 + b - 2)) in Hpc.
  - rewrite Hpc, Hsu. done.
  - rewrite Hk. simpl. rewrite Hodd. by destruct Hb as [->| ->].
Qed.

Lemma decompressScript_spec s rest :
  bytes_ok s -> len s + numSpecialScripts < 2 ^ 63 ->
  decompressScript (compress_script s ++ rest) = Ok s.
Proof.
  intros Hok Hn. destruct (compress_script_shape s) as [h Hh|h Hh|f xb key Hx Hf Hp|xb yb key Hx Hy Hp|s].
  1-3: cbn [app]; unfold decompressScript; rewrite len_cons;
    (pose proof (len_nonneg (h ++ rest))) || (pose proof (len_nonneg (xb ++ rest)));
    replace (1 + _ =? 0) with false by lia;
    rewrite deserializeVLQ_tag by (unfold cstPayToPubKeyHash, cstPayToScriptHash; lia).
  - change (cstPayToPubKeyHash =? cstPayToPubKeyHash) with true. cbv iota. rewrite slice_tail by (unfold len; lia). done.
  - change (cstPayToScriptHash =? cstPayToPubKeyHash) with false.
    change (cstPayToScriptHash =? cstPayToScriptHash) with true. cbv iota. rewrite slice_tail by (unfold len; lia). done.
  - unfold cstPayToPubKeyHash, cstPayToScriptHash, cstPayToPubKeyComp2, cstPayToPubKeyComp3.
    replace (f =? 0) with false by lia. replace (f =? 1) with false by lia.
    replace ((f =? 2) || (f =? 3)) with true by lia. rewrite slice_tail by (unfold len; lia).
    cbn [mbind res_bind]. by rewrite wrapu_small by (unfold is_u; lia).
  - cbn [app] in Hok. apply Forall_cons in Hok as [_ Hok]. apply Forall_cons in Hok as [_ Hok].
    apply bytes_ok_app in Hok as [[Hxok Hyok]%bytes_ok_app _].
    by apply decompress_uncompressed with key.
  - by apply decompress_general.
Qed.

Lemma decodeCompressedScriptSize_spec s rest :
  len s + numSpecialScripts < 2 ^ 63 - 11 ->
  decodeCompressedScriptSize (compress_script s ++ rest) = len (compress_script s).
Proof.
  intros Hn. unfold decodeCompressedScriptSize, numSpecialScripts in *.
  unfold cstPayToPubKeyHash, cstPayToScriptHash, cstPayToPubKeyComp2, cstPayToPubKeyComp3,
    cstPayToPubKeyUncomp4, cstPayToPubKeyUncomp5.
  destruct (compress_script_shape s) as [h Hh|h Hh|f xb key Hx Hf Hp|xb yb key Hx Hy Hp|s].
  1-2: cbn [app]; unfold cstPayToPubKeyHash, cstPayToScriptHash;
    rewrite deserializeVLQ_tag, len_cons by lia; unfold len; by rewrite Hh.
  - cbn [app]; rewrite deserializeVLQ_tag, len_cons by lia. unfold len. rewrite Hx.
    by destruct Hf as [->| ->].
  - pose proof (Z.mod_pos_bound (default 0 (yb !! 31%nat)) 2).
    cbn [app]; rewrite deserializeVLQ_tag, len_cons by lia. unfold len. rewrite Hx.
    do 2 (case_if; [lia|]). replace (_ || _) with true by lia. case_if; lia.
  - unfold numSpecialScripts in *. pose proof (len_nonneg s). pose proof (vlq_length (len s + 6)).
    rewrite <- app_assoc, deserializeVLQ_vlq, len_app by (unfold is_u; lia).
    repeat (case_if; [lia|]).
    rewrite Z.add_simpl_r, (wrapu_small 64 (len s)), wrapu_small, wraps_small
      by (unfold is_u, is_s; lia). lia.
Qed.

(** * Facts on compressed amounts *)

Lemma compress_exponent_spec todo a e :
  0 < a ->
  let '(a', e') := compress_exponent todo a e in
  e <= e' <= e + Z.of_nat todo /\ a = a' * 10 ^ (e' - e) /\ 0 < a' /\
  (e' < e + Z.of_nat todo -> a' mod 10 <> 0).
Proof.
  revert a e. induction todo as [|todo IH]; intros a e Ha; cbn [compress_exponent].
  { rewrite Z.sub_diag. split_and!; lia. }
  destruct (Z.eqb_spec (a mod 10) 0) as [Hz|Hz].
  2: { rewrite Z.sub_diag. split_and!; lia. }
  assert (a = 10 * (a / 10)) as Hd by (pose proof (Z.div_mod a 10); lia).
  specialize (IH (a / 10) (e + 1)). destruct (compress_exponent _ _ _) as [a' e'].
  destruct IH as (H1 & H2 & H3 & H4); [lia|]. split_and!; try lia.
  rewrite Hd, H2. replace (e' - e) with (1 + (e' - (e + 1))) by lia.
  rewrite (Z.pow_add_r 10 1) by lia. change (10 ^ 1) with 10. ring.
Qed.

Lemma times10_spec e n :
  0 <= n -> n * 10 ^ Z.of_nat e < 2 ^ 64 -> times10 e n = n * 10 ^ Z.of_nat e.
Proof.
  revert n. induction e as [|e IH]; intros n Hn Hlt; cbn [times10]; [lia|].
  replace (Z.of_nat (S e)) with (1 + Z.of_nat e) in * by lia.
  rewrite Z.pow_add_r in * by lia. change (10 ^ 1) with 10 in *.
  assert (1 <= 10 ^ Z.of_nat e) by (pose proof (Z.pow_pos_nonneg 10 (Z.of_nat e)); lia).
  rewrite wrapu_small by (unfold is_u; nia). rewrite IH by nia. ring.
Qed.

(** The result of compression as plain arithmetic. *)
Lemma compressTxOutAmount_spec a :
  0 < a -> 9 * a < 2 ^ 64 ->
  exists n e, 0 <= e <= 9 /\ 0 < n /\ a = n * 10 ^ e /\
  ((e < 9 /\ n mod 10 <> 0 /\
    compressTxOutAmount a = 1 + 10 * (9 * (n / 10) + n mod 10 - 1) + e) \/
   (e = 9 /\ compressTxOutAmount a = 10 * n)).
Proof.
  intros Ha Hlt. unfold compressTxOutAmount. replace (a =? 0) with false by lia.
  pose proof (compress_exponent_spec 9 a 0 Ha) as H.
  destruct (compress_exponent 9 a 0) as [n e]. rewrite Z.sub_0_r in H.
  destruct H as (He & Heq & Hn & Hd). exists n, e. split_and!; try lia.
  assert (1 <= 10 ^ e) by (pose proof (Z.pow_pos_nonneg 10 e); lia).
  assert (n <= a) by nia.
  pose proof (Z.div_mod n 10). pose proof (Z.mod_pos_bound n 10).
  destruct (Z.ltb_spec e 9) as [H9|H9].
  - left. split_and!; [done | by apply Hd |]. specialize (Hd ltac:(lia)).
    assert (9 * n + e <= 9 * a).
    { destruct (decide (e = 0)) as [->|]; [lia|]. 
      assert (10 <= 10 ^ e) by (change 10 with (10 ^ 1) at 1; apply Z.pow_le_mono_r; lia). nia. }
    rewrite (wrapu_small 64 (9 * _)), (wrapu_small 64 (9 * _ + _ - 1)), (wrapu_small 64 (10 * _)),
      wrapu_small by (unfold is_u; lia). done.
  - right. assert (e = 9) as -> by lia. split; [done|].
    assert (10 * n <= 9 * a) by (rewrite Heq; lia).
    rewrite (wrapu_small 64 (n - 1)), (wrapu_small 64 (10 * _)), wrapu_small by (unfold is_u; lia). lia.
Qed.

Lemma compressTxOutAmount_bound a :
  0 <= a -> 9 * a < 2 ^ 64 -> 0 <= compressTxOutAmount a < 2 ^ 64.
Proof.
  intros Ha Hlt. unfold compressTxOutAmount. destruct (Z.eqb_spec a 0); [lia|].
  destruct (compress_exponent 9 a 0). case_if; apply wrapu_range; lia.
Qed.

Lemma decompress_compress_amount a :
  0 <= a -> 9 * a < 2 ^ 64 -> decompressTxOutAmount (compressTxOutAmount a) = a.
Proof.
  intros Ha Hlt. destruct (decide (a = 0)) as [->|Hnz]; [done|].
  destruct (compressTxOutAmount_spec a) as (n & e & He & Hn & Heq & Hc); [lia..|].
  assert (1 <= 10 ^ e) by (pose proof (Z.pow_pos_nonneg 10 e); lia).
  assert (n <= a) by nia.
  pose proof (Z.div_mod n 10). pose proof (Z.mod_pos_bound n 10).
  unfold decompressTxOutAmount. destruct Hc as [(H9 & Hd & Hc)|(-> & Hc)].
  - replace (compressTxOutAmount a =? 0) with false by lia.
    set (m := 9 * (n / 10) + n mod 10 - 1) in *.
    assert (compressTxOutAmount a - 1 = e + m * 10) as -> by lia.
    rewrite Z.mod_add, Z.div_add, (Z.mod_small e), (Z.div_small e) by lia.
    replace (e <? 9) with true by lia. rewrite Z.add_0_l.
    assert (m = (n mod 10 - 1) + (n / 10) * 9) as -> by lia.
    rewrite Z.mod_add, Z.div_add, (Z.mod_small (n mod 10 - 1)), (Z.div_small (n mod 10 - 1)) by lia.
    rewrite (wrapu_small 64 (_ * 10)), wrapu_small by (unfold is_u; lia).
    replace ((0 + n / 10) * 10 + (n mod 10 - 1 + 1)) with n by lia.
    rewrite times10_spec; rewrite ?Z2Nat.id; lia.
  - replace (compressTxOutAmount a =? 0) with false by lia. rewrite Hc.
    replace (10 * n - 1) with (9 + (n - 1) * 10) by lia.
    rewrite Z.mod_add, Z.div_add by lia. change (9 mod 10) with 9. change (9 / 10) with 0.
    change (9 <? 9) with false. cbv iota. rewrite wrapu_small by (unfold is_u; lia).
    replace (0 + (n - 1) + 1) with n by lia.
    rewrite times10_spec; rewrite ?Z2Nat.id; lia.
Qed.

(** Every string of continuation bytes is the high part of one number. *)
Lemma vlq_hi_onto hi :
  hi <> [] -> Forall (fun b => 128 <= b < 256) hi ->
  exists m, 0 <= m /\ m + 3 <= 2 * 128 ^ len hi /\
    forall fuel, (length hi <= S fuel)%nat -> vlq_hi fuel m = hi.
Proof.
  induction hi as [|b hi IH] using rev_ind; [done|]. intros _ [Hhi Hb]%Forall_app.
  apply Forall_cons in Hb as [Hb _]. destruct (decide (hi = [])) as [->|Hne].
  - exists (b - 128). simpl. split_and!; [lia | change (128 ^ len [b]) with 128; lia |].
    intros fuel _. destruct fuel; cbn [vlq_hi]; replace (b - 128 <=? 127) with true by lia;
      f_equal; lia.
  - destruct (IH Hne Hhi) as (m & Hm & Hbound & Hv). exists ((m + 1) * 128 + (b - 128)).
    rewrite len_app, Z.pow_add_r by (pose proof (len_nonneg hi); done).
    change (len [b]) with 1. change (128 ^ 1) with 128. split_and!; [lia..|].
    intros fuel Hf. rewrite length_app in Hf. simpl in Hf.
    destruct fuel as [|fuel]; [destruct hi; [done | simpl in Hf; lia]|]. cbn [vlq_hi].
    replace (_ <=? 127) with false by lia. rewrite (Z.add_comm (_ * 128)).
    rewrite Z.div_add, Z.mod_add, Z.div_small, Z.mod_small by lia.
    replace (0 + (m + 1) - 1) with m by lia. rewrite Hv by lia. do 2 f_equal. lia.
Qed.

Lemma vlq_onto hi lo :
  Forall (fun b => 128 <= b < 256) hi -> 0 <= lo < 128 -> (length hi <= 8)%nat ->
  exists n, is_u 64 n /\ vlq n = hi ++ [lo].
Proof.
  intros Hhi Hlo Hl. destruct (decide (hi = [])) as [->|Hne].
  { exists lo. unfold is_u, vlq. split; [lia|]. by replace (lo <=? 127) with true by lia. }
  destruct (vlq_hi_onto hi Hne Hhi) as (m & Hm & Hb & Hv).
  exists ((m + 1) * 128 + lo).
  assert (128 ^ len hi <= 128 ^ 8) by (apply Z.pow_le_mono_r; unfold len; lia).
  split; [unfold is_u; lia|]. unfold vlq. replace (_ <=? 127) with false by lia.
  rewrite (Z.add_comm (_ * 128)), Z.div_add, Z.mod_add, Z.div_small, Z.mod_small by lia.
  replace (0 + (m + 1) - 1) with m by lia. by rewrite Hv by lia.
Qed.

Lemma putCompressedTxOut_spec mid post amount s :
  0 <= amount -> 9 * amount < 2 ^ 64 -> len s + numSpecialScripts < 2 ^ 64 ->
  length mid = length (compress_txout amount s) ->
  putCompressedTxOut (mid ++ post) amount s false =
  Ok (compress_txout amount s ++ post, len (compress_txout amount s)).
Proof.
  intros Ha H9 Hn Hl. pose proof (compressTxOutAmount_bound amount Ha H9) as Hc.
  unfold putCompressedTxOut, compress_txout in *. set (v := vlq _) in *.
  rewrite length_app in Hl. rewrite <- (take_drop (length v) mid), <- app_assoc.
  rewrite putVLQ_spec by (unfold is_u; first [lia | rewrite length_take; fold v; lia]).
  fold v. cbn [mbind res_bind].
  assert (slice (v ++ drop (length v) mid ++ post) (len v) (len (v ++ drop (length v) mid ++ post))
          = @Ok string bytes (drop (length v) mid ++ post)) as ->.
  { rewrite len_app. pose proof (@slice_prefix string Z v (drop (length v) mid ++ post) []) as Hs.
    by rewrite app_nil_r in Hs. }
  cbn [mbind res_bind]. rewrite putCompressedScript_spec by (done || (rewrite length_drop; lia)).
  cbn [mbind res_bind]. unfold len at 1. rewrite Nat2Z.id, take_app_length.
  by rewrite <- app_assoc, len_app.
Qed.

Lemma decode_txout amount s rest :
  0 <= amount -> 9 * amount < 2 ^ 64 -> len s + numSpecialScripts < 2 ^ 63 - 11 ->
  decodeCompressedTxOut ((vlq (compressTxOutAmount amount) ++ compress_script s) ++ rest) =
  Ok (compressTxOutAmount amount, compress_script s,
      len (vlq (compressTxOutAmount amount)) + len (compress_script s)).
Proof.
  intros Ha H9 Hn. pose proof (compressTxOutAmount_bound amount Ha H9) as Hc.
  unfold decodeCompressedTxOut. rewrite <- app_assoc, deserializeVLQ_vlq by done.
  set (v := vlq _). set (c := compress_script s).
  pose proof (len_nonneg v). pose proof (len_nonneg c). pose proof (len_nonneg rest).
  assert (0 < len c).
  { unfold c. destruct (compress_script_shape s) as [| | | |s']; rewrite ?len_cons, ?len_app.
    5: pose proof (vlq_length (len s' + numSpecialScripts)); pose proof (len_nonneg s'); lia.
    all: match goal with |- context [1 + len ?l] => pose proof (len_nonneg l) end; lia. }
  rewrite !len_app. replace (_ <=? len v) with false by lia.
  pose proof (@slice_prefix string Z v (c ++ rest) []) as Hs. rewrite app_nil_r, len_app in Hs.
  rewrite Hs. cbn [mbind res_bind]. 
  pose proof (decodeCompressedScriptSize_spec s rest Hn) as Hd. fold c in Hd. rewrite Hd, len_app. replace (_ <? len c) with false by lia.
  unfold make_bytes. replace (len c <? 0) with false by lia. cbn [mbind res_bind].
  rewrite slice_prefix. cbn [mbind res_bind].
  pose proof (@copy_at_full string Z [] (replicate (Z.to_nat (len c)) 0) [] c) as Hf.
  rewrite !app_nil_r in Hf. change (len []) with 0 in Hf. cbn [app] in Hf. rewrite Hf; [done|]. rewrite length_replicate. unfold len. lia.
Qed.

(** ** The properties of the package *)

(** A variable length quantity round-trips: for every 64-bit number the
    encoder fills exactly the announced number of bytes at the front of the
    target, and the decoder reads the number and its size back whatever
    follows. *)
Theorem vlq_roundtrip n target rest size :
  is_u 64 n -> serializeSizeVLQ n = Ok size -> len target = size ->
  exists enc, putVLQ target n = Ok (enc, size) /\ len enc = size /\
              deserializeVLQ (enc ++ rest) = (n, size).
Proof.
  intros Hn Hs Hl. rewrite serializeSizeVLQ_spec in Hs by done. injection Hs as <-.
  exists (vlq n). pose proof (putVLQ_spec target [] n Hn) as Hp. rewrite !app_nil_r in Hp.
  split_and!; [apply Hp; unfold len in Hl; lia | done | by apply deserializeVLQ_vlq].
Qed.

(** The encoding has no redundancy: any string of at most eight
    continuation bytes and a final byte is the encoding of the number it
    decodes to. *)
Theorem vlq_canonical hi lo n size :
  Forall (fun b => 128 <= b < 256) hi -> 0 <= lo < 128 -> (length hi <= 8)%nat ->
  deserializeVLQ (hi ++ [lo]) = (n, size) ->
  is_u 64 n /\ size = len (hi ++ [lo]) /\
  putVLQ (replicate (length (hi ++ [lo])) 0) n = Ok (hi ++ [lo], size).
Proof.
  intros Hhi Hlo Hl H. destruct (vlq_onto hi lo) as (m & Hm & Hv); try done.
  pose proof (deserializeVLQ_vlq m [] Hm) as Hd. rewrite app_nil_r, Hv, H in Hd.
  injection Hd as -> ->. pose proof (putVLQ_spec (replicate (length (hi ++ [lo])) 0) [] m Hm) as Hp.
  rewrite !app_nil_r, Hv in Hp. split_and!; [done | done |]. apply Hp. by rewrite length_replicate.
Qed.

(** Amount compression is lossless, and never overflows 64 bits, for every
    amount below 2^64 / 9, in particular for every amount up to the money
    supply. *)
Theorem amount_roundtrip a :
  0 <= a -> 9 * a < 2 ^ 64 ->
  is_u 64 (compressTxOutAmount a) /\ decompressTxOutAmount (compressTxOutAmount a) = a.
Proof.
  intros Ha H9. split; [by apply compressTxOutAmount_bound | by apply decompress_compress_amount].
Qed.

(** Script compression round-trips: [putCompressedScript] writes as many
    bytes as [compressedScriptSize] announces, [decodeCompressedScriptSize]
    reads that size back from the bytes and [decompressScript] restores the
    script, including pay-to-uncompressed-pubkey scripts, whose y coordinate
    is recomputed from its parity. *)
Theorem script_roundtrip s target rest size :
  bytes_ok s -> len s < 2 ^ 62 -> compressedScriptSize s = Ok size -> len target = size ->
  exists enc, putCompressedScript target s = Ok (enc, size) /\
    decodeCompressedScriptSize (enc ++ rest) = size /\ decompressScript (enc ++ rest) = Ok s.
Proof.
  intros Hok Hn Hs Hl.
  assert (len s + numSpecialScripts < 2 ^ 63 - 11) by (unfold numSpecialScripts; lia).
  rewrite compressedScriptSize_spec in Hs by lia. injection Hs as <-.
  exists (compress_script s). pose proof (putCompressedScript_spec target [] s) as Hp.
  rewrite !app_nil_r in Hp. split_and!.
  - apply Hp; [lia|]. unfold len in Hl. lia.
  - by apply decodeCompressedScriptSize_spec.
  - apply decompressScript_spec; [done | lia].
Qed.

(** A transaction output stored in the utxo set is read back: the
    announced size is what is written, decoding consumes exactly those bytes
    whatever follows, and decompressing the parts gives the amount and the
    script. *)
Theorem txout_roundtrip amount s target rest size :
  0 <= amount -> 9 * amount < 2 ^ 64 -> bytes_ok s -> len s < 2 ^ 62 ->
  compressedTxOutSize amount s false = Ok size -> len target = size ->
  exists enc camount cscript,
    putCompressedTxOut target amount s false = Ok (enc, size) /\
    decodeCompressedTxOut (enc ++ rest) = Ok (camount, cscript, size) /\
    decompressTxOutAmount camount = amount /\ decompressScript cscript = Ok s.
Proof.
  intros Ha H9 Hok Hn Hs Hl.
  assert (len s + numSpecialScripts < 2 ^ 63 - 11) by (unfold numSpecialScripts; lia).
  pose proof (compressTxOutAmount_bound amount Ha H9) as Hc.
  unfold compressedTxOutSize in Hs.
  rewrite serializeSizeVLQ_spec, compressedScriptSize_spec in Hs by (unfold is_u; lia).
  simpl in Hs. injection Hs as <-.
  exists (compress_txout amount s), (compressTxOutAmount amount), (compress_script s).
  pose proof (putCompressedTxOut_spec target [] amount s) as Hp. rewrite !app_nil_r in Hp.
  unfold compress_txout in *. rewrite len_app in Hp. split_and!.
  - apply Hp; try lia. rewrite length_app. unfold len in Hl. lia.
  - by apply decode_txout.
  - by apply decompress_compress_amount.
  - rewrite <- (app_nil_r (compress_script s)). apply decompressScript_spec; [done | lia].
Qed.

(** Behind an amount of one zero byte, a stored script size whose 64-bit value
    does not fit a signed int, with room for the bytes before it, is not reported
    as an error: the length check passes on the negative size and the allocation
    panics. *)
Theorem decodeCompressedTxOut_negative_size n rest :
  2 ^ 63 + numSpecialScripts <= n < 2 ^ 64 - 11 ->
  decodeCompressedTxOut ([0] ++ vlq n ++ rest) = Panic.
Proof.
  intros Hn. unfold decodeCompressedTxOut. unfold numSpecialScripts in *.
  cbn [app]. rewrite deserializeVLQ_tag by lia. rewrite len_cons, len_app.
  pose proof (vlq_length n). pose proof (len_nonneg rest). replace (_ <=? 1) with false by lia.
  pose proof (@slice_tail string 0 (vlq n ++ rest) [] _ eq_refl) as Hs.
  rewrite app_nil_r, len_app in Hs. rewrite Hs. cbn [mbind res_bind]. rewrite len_app.
  unfold decodeCompressedScriptSize. rewrite deserializeVLQ_vlq by (unfold is_u; lia).
  unfold cstPayToPubKeyHash, cstPayToScriptHash, cstPayToPubKeyComp2, cstPayToPubKeyComp3,
    cstPayToPubKeyUncomp4, cstPayToPubKeyUncomp5, numSpecialScripts.
  do 4 (replace (_ =? _) with false by lia; cbn [orb]).
  replace (n =? 3) with false by lia. replace (n =? 4) with false by lia.
  replace (n =? 5) with false by lia. cbn [orb].
  rewrite (wrapu_small 64 (n - 6)), wrapu_small by (unfold is_u; lia).
  assert (i64 (n - 6 + len (vlq n)) = n - 6 + len (vlq n) - 2 ^ 64) as ->.
  { unfold wraps. change (2 ^ (64 - 1)) with (2 ^ 63).
    replace (n - 6 + len (vlq n) + 2 ^ 63) with ((n - 6 + len (vlq n) - 2 ^ 63) + 1 * 2 ^ 64) by lia.
    rewrite Z.mod_add, Z.mod_small by lia. lia. }
  replace (_ <? _) with false by lia. unfold make_bytes. by replace (_ <? 0) with true by lia.
Qed.

End Compress.
