(* ===== verification/ScriptNum.v ===== *)
(** Numbers of the script engine: [src/txscript/scriptnum.go].

    A [scriptNum] is an int64 kept as [Z]; its serialized form is little endian
    with a sign bit in the last byte. *)
From S2P Require Import Prelude Opcode.
Import Opcode.
#[local] Open Scope Z_scope.

Module ScriptNum.

Definition maxInt32 : Z := 2 ^ 31 - 1.
Definition minInt32 : Z := - 2 ^ 31.
Definition defaultScriptNumLen : Z := 4.

Definition checkMinimalDataEncoding (v : bytes) : res ErrorCode unit :=
  if len v =? 0 then Ok ()
  else
    last ← idx v (len v - 1);
    if Z.land last 0x7f =? 0 then
      if len v =? 1 then Err ErrMinimalData
      else
        second ← idx v (len v - 2);
        if Z.land second 0x80 =? 0 then Err ErrMinimalData else Ok ()
    else Ok ().

(** An int64 has at most eight bytes. *)
Fixpoint Bytes_loop (fuel : nat) (n : Z) (result : bytes) : res ErrorCode bytes :=
  if 0 <? n
  then match fuel with
       | O => Hang
       | S fuel => Bytes_loop fuel (n ≫ 8) (result ++ [u8 (Z.land n 0xff)])
       end
  else Ok result.

Definition Bytes (n : Z) : res ErrorCode bytes :=
  if n =? 0 then Ok []
  else
    let isNegative := n <? 0 in
    let n := if isNegative then i64 (- n) else n in
    result ← Bytes_loop 8 n [];
    last ← idx result (len result - 1);
    if negb (Z.land last 0x80 =? 0) then
      let extraByte := if isNegative then 0x80 else 0x00 in
      Ok (result ++ [extraByte])
    else if isNegative then
      set_idx result (len result - 1) (Z.lor last 0x80)
    else Ok result.

Definition Int32 (n : Z) : Z :=
  if maxInt32 <? n then maxInt32
  else if n <? minInt32 then minInt32
  else i32 n.

(** The loop [result |= int64(val) << uint8(8*i)]. *)
Fixpoint decode_loop (i result : Z) (v : bytes) : Z :=
  match v with
  | [] => result
  | val :: rest => decode_loop (i + 1) (Z.lor result (i64 (val ≪ u8 (8 * i)))) rest
  end.

Definition makeScriptNum (v : bytes) (requireMinimal : bool) (scriptNumLen : Z)
    : res ErrorCode Z :=
  if scriptNumLen <? len v then Err ErrNumberTooBig
  else
    _ ← (if requireMinimal then checkMinimalDataEncoding v else Ok ());
    if len v =? 0 then Ok 0
    else
      let result := decode_loop 0 0 v in
      last ← idx v (len v - 1);
      if negb (Z.land last 0x80 =? 0) then
        Ok (i64 (- Z.land result (Z.lnot (i64 (0x80 ≪ u8 (8 * (len v - 1)))))))
      else Ok result.

(** * Reference decoding *)

(** The number a serialized form stands for: sign and magnitude. *)
Definition num_value (v : bytes) : Z :=
  match last v with
  | None => 0
  | Some top =>
      let magnitude := le_decode v in
      if top <? 128 then magnitude else - (magnitude - 2 ^ (8 * len v - 1))
  end.

(** The minimal forms: no superfluous last byte. *)
Definition minimal (v : bytes) : Prop :=
  match reverse v with
  | [] => True
  | [top] => top mod 128 <> 0
  | top :: second :: _ => top mod 128 <> 0 \/ 128 <= second
  end.

(** A sign put on the little-endian magnitude [body ++ [top]]. *)
Definition with_sign (neg : bool) (body : bytes) (top : Z) : bytes :=
  if top <? 128 then body ++ [top + if neg then 128 else 0]
  else (body ++ [top]) ++ [if neg then 128 else 0].

(** * Facts on the encoding *)

Lemma idx_last {E A} (l : list A) x : @idx E A (l ++ [x]) (len (l ++ [x]) - 1) = Ok x.
Proof.
  rewrite len_app. change (len [x]) with 1. rewrite Z.add_simpl_r. apply idx_middle.
Qed.

Lemma slice_init {E A} (l : list A) x : @slice E A (l ++ [x]) 0 (len (l ++ [x]) - 1) = Ok l.
Proof.
  apply slice_Ok. rewrite len_app. change (len [x]) with 1. pose proof (len_nonneg l).
  split_and!; [lia..|]. change (Z.to_nat 0) with 0%nat. rewrite drop_0. symmetry. apply take_app_length'.
  unfold len in *. lia.
Qed.

Lemma byte_hi b : is_byte b -> (Z.land b 0x80 =? 0) = (b <? 128).
Proof.
  intros H. pose proof (byte_forall (fun b => Bool.eqb (Z.land b 0x80 =? 0) (b <? 128)) eq_refl b H) as Hb.
  cbv beta in Hb. by apply Bool.eqb_prop.
Qed.

Lemma byte_lo b : Z.land b 0x7f = b mod 128.
Proof. apply (land_ones_mod b 7). lia. Qed.

Lemma le_decode_app l1 l2 : le_decode (l1 ++ l2) = le_decode l1 + 256 ^ len l1 * le_decode l2.
Proof.
  induction l1 as [|b l1 IH]; cbn [le_decode app].
  - change (256 ^ len []) with 1. lia.
  - rewrite IH, len_cons, Z.pow_add_r by (pose proof (len_nonneg l1); lia). lia.
Qed.

(** A byte string with a non-zero last byte is determined by its value. *)
Definition last_nz (l : bytes) : Prop := match last l with Some t => t <> 0 | None => True end.

Lemma le_decode_zero l : bytes_ok l -> le_decode l = 0 -> last_nz l -> l = [].
Proof.
  induction l as [|t l _] using rev_ind; [done|]. intros [Hl Ht]%bytes_ok_app Hz Hnz.
  unfold last_nz in Hnz. rewrite last_snoc in Hnz. apply Forall_cons in Ht as [Ht _].
  rewrite le_decode_app in Hz. cbn [le_decode] in Hz. unfold is_byte in Ht.
  pose proof (le_decode_range l Hl). pose proof (Z.pow_pos_nonneg 256 (len l)).
  pose proof (len_nonneg l). nia.
Qed.

Lemma le_decode_inj l1 l2 :
  bytes_ok l1 -> bytes_ok l2 -> last_nz l1 -> last_nz l2 ->
  le_decode l1 = le_decode l2 -> l1 = l2.
Proof.
  revert l2. induction l1 as [|a l1 IH]; intros l2 H1 H2 N1 N2 He.
  - symmetry. by apply le_decode_zero.
  - destruct l2 as [|b l2]; [by apply le_decode_zero|].
    apply Forall_cons in H1 as [Ha H1]. apply Forall_cons in H2 as [Hb H2].
    cbn [le_decode] in He. unfold is_byte in *.
    assert (a = b) as -> by lia. f_equal. apply IH; try done; [..|lia].
    + unfold last_nz in *. by destruct l1.
    + unfold last_nz in *. by destruct l2.
Qed.

Lemma Bytes_loop_spec fuel n acc :
  0 <= n < 256 ^ Z.of_nat fuel ->
  exists l, Bytes_loop fuel n acc = Ok (acc ++ l) /\ bytes_ok l /\ last_nz l /\
            le_decode l = n /\ (length l <= fuel)%nat.
Proof.
  revert n acc. induction fuel as [|fuel IH]; intros n acc Hn; cbn [Bytes_loop];
    destruct (Z.ltb_spec 0 n) as [Hp|Hp].
  - change (256 ^ Z.of_nat 0) with 1 in Hn. lia.
  - exists []. rewrite app_nil_r. split_and!; [done | constructor | done | cbn; lia | done].
  - rewrite Nat2Z.inj_succ, Z.pow_succ_r in Hn by lia.
    rewrite Z.shiftr_div_pow2 by lia. change (2 ^ 8) with 256.
    destruct (IH (n / 256) (acc ++ [u8 (Z.land n 0xff)])) as (l & Hr & Hok & Hnz & Hv & Hl).
    { split; [apply Z.div_pos; lia | apply Z.div_lt_upper_bound; lia]. }
    assert (u8 (Z.land n 0xff) = n mod 256) as Hb.
    { change 0xff with (2 ^ 8 - 1). rewrite land_ones_mod by lia. unfold wrapu.
      by rewrite Z.mod_mod by lia. }
    exists (u8 (Z.land n 0xff) :: l). rewrite Hr, <- app_assoc. split_and!; [done | | | |].
    + constructor; [apply u8_is_byte | done].
    + unfold last_nz in *. destruct l as [|x l]; [|done]. cbn [last le_decode] in *. rewrite Hb.
      pose proof (Z.div_mod n 256). lia.
    + cbn [le_decode]. rewrite Hb, Hv. pose proof (Z.div_mod n 256). lia.
    + cbn [length]. lia.
  - exists []. rewrite app_nil_r. split_and!; [done | constructor | done | cbn; lia | cbn; lia].
Qed.

Lemma decode_loop_spec v : forall i acc,
  bytes_ok v -> 0 <= i -> i + len v <= 7 -> 0 <= acc < 2 ^ (8 * i) ->
  decode_loop i acc v = acc + 2 ^ (8 * i) * le_decode v.
Proof.
  induction v as [|b v IH]; intros i acc Hok Hi Hl Ha; cbn [decode_loop le_decode]; [lia|].
  apply Forall_cons in Hok as [Hb Hok]. rewrite len_cons in Hl. pose proof (len_nonneg v).
  unfold is_byte in Hb. rewrite (wrapu_small 8) by (unfold is_u; lia).
  assert (2 ^ (8 * i) <= 2 ^ 48) by (apply Z.pow_le_mono_r; lia).
  assert (0 < 2 ^ (8 * i)) by (apply Z.pow_pos_nonneg; lia).
  rewrite wraps_small by (try lia; unfold is_s; rewrite Z.shiftl_mul_pow2 by lia; split; nia).
  rewrite Z.lor_comm, lor_shiftl_add by lia.
  rewrite IH; [|done|lia|lia|].
  - replace (8 * (i + 1)) with (8 * i + 8) by lia. rewrite Z.pow_add_r by lia. change (2 ^ 8) with 256. ring.
  - replace (8 * (i + 1)) with (8 * i + 8) by lia. rewrite Z.pow_add_r by lia.
    change (2 ^ 8) with 256. nia.
Qed.

Lemma clear_sign m k : 0 <= k -> 0 <= m < 2 ^ k -> Z.land (m + 2 ^ k) (Z.lnot (2 ^ k)) = m.
Proof.
  intros Hk Hm. pose proof (land_shiftl_small 1 m k Hk Hm) as Hl.
  replace (m + 2 ^ k) with (Z.lor (1 ≪ k) m) by (rewrite lor_shiftl_add by lia; lia).
  replace (2 ^ k) with (1 ≪ k) by (rewrite Z.shiftl_mul_pow2 by lia; lia).
  apply Z.bits_inj'. intros i Hi. rewrite Z.land_spec, Z.lor_spec, Z.lnot_spec by lia.
  assert (Z.testbit (1 ≪ k) i && Z.testbit m i = false) as Hb
    by (rewrite <- Z.land_spec, Hl; apply Z.bits_0).
  by destruct (Z.testbit (1 ≪ k) i), (Z.testbit m i).
Qed.

(** The magnitude of a serialized form fits below its sign bit. *)
Lemma magnitude_range body top :
  bytes_ok body -> is_byte top ->
  let v := body ++ [top] in
  if top <? 128 then 0 <= le_decode v < 2 ^ (8 * len v - 1)
  else 0 <= le_decode v - 2 ^ (8 * len v - 1) < 2 ^ (8 * len v - 1).
Proof.
  intros Hb Ht v. unfold v. rewrite le_decode_app, len_app. cbn [le_decode].
  change (len [top]) with 1. pose proof (le_decode_range body Hb) as Hr. pose proof (len_nonneg body).
  replace (8 * (len body + 1) - 1) with (8 * len body + 7) by lia.
  rewrite Z.pow_add_r by lia. rewrite (Z.pow_mul_r 2 8) by lia. change (2 ^ 8) with 256.
  change (2 ^ 7) with 128. set (p := 256 ^ len body) in *. clearbody p. unfold is_byte in Ht.
  destruct (Z.ltb_spec top 128); nia.
Qed.

Lemma num_value_bound v :
  bytes_ok v -> 1 <= len v -> - 2 ^ (8 * len v - 1) < num_value v < 2 ^ (8 * len v - 1).
Proof.
  destruct v as [|top body _] using rev_ind; [done|]. intros [Hb Ht]%bytes_ok_app _.
  apply Forall_cons in Ht as [Ht _]. pose proof (magnitude_range body top Hb Ht) as Hr.
  cbv zeta in Hr. unfold num_value. rewrite last_snoc. destruct (top <? 128); lia.
Qed.

(** [makeScriptNum] computes the reference value. *)
Lemma makeScriptNum_value v rm L :
  bytes_ok v -> L <= 7 -> len v <= L -> (rm = true -> checkMinimalDataEncoding v = Ok ()) ->
  makeScriptNum v rm L = Ok (num_value v).
Proof.
  intros Hok HL Hl Hm. unfold makeScriptNum. replace (L <? len v) with false by lia.
  assert ((if rm then checkMinimalDataEncoding v else Ok ()) = Ok ()) as ->
    by (destruct rm; auto). cbn [mbind res_bind].
  destruct v as [|top body _] using rev_ind; [done|].
  apply bytes_ok_app in Hok as Hok'. destruct Hok' as [Hb Ht]. apply Forall_cons in Ht as [Ht _].
  pose proof (magnitude_range body top Hb Ht) as Hr. cbv zeta in Hr.
  rewrite decode_loop_spec by (done || lia). rewrite idx_last. cbn [mbind res_bind].
  rewrite byte_hi by done. unfold num_value. rewrite last_snoc. set (v := body ++ [top]) in *.
  assert (1 <= len v) by (unfold v; rewrite len_app; change (len [top]) with 1;
                          pose proof (len_nonneg body); lia).
  replace (len v =? 0) with false by lia. rewrite Z.add_0_l, Z.mul_0_r, Z.mul_1_l.
  destruct (top <? 128); [done|]. cbn [negb].
  assert (2 ^ (8 * len v - 1) <= 2 ^ 55) by (apply Z.pow_le_mono_r; lia).
  rewrite (wrapu_small 8) by (unfold is_u; lia).
  replace (0x80 ≪ (8 * (len v - 1))) with (2 ^ (8 * len v - 1)).
  2: { rewrite Z.shiftl_mul_pow2 by lia. change 0x80 with (2 ^ 7). rewrite <- Z.pow_add_r by lia.
       f_equal. lia. }
  rewrite (wraps_small 64 (2 ^ _)) by (unfold is_s; lia).
  replace (le_decode v) with (le_decode v - 2 ^ (8 * len v - 1) + 2 ^ (8 * len v - 1)) at 1 by lia.
  rewrite clear_sign by lia. rewrite wraps_small by (unfold is_s; lia). done.
Qed.

Lemma minimal_snoc body top :
  minimal (body ++ [top]) <->
  top mod 128 <> 0 \/ (exists b s, body = b ++ [s] /\ 128 <= s).
Proof.
  unfold minimal. rewrite reverse_snoc.
  destruct body as [|s b _] using rev_ind.
  - simpl. split; [by left|]. intros [H|(b & s & H & _)]; [done|]. by destruct b.
  - rewrite reverse_snoc. split.
    + intros [H|H]; [by left | right; eauto].
    + intros [H|(b' & s' & [-> [= ->]]%app_inj_2 & H)]; auto.
Qed.

Lemma checkMinimalDataEncoding_spec v :
  bytes_ok v ->
  (checkMinimalDataEncoding v = Ok () /\ minimal v) \/
  (checkMinimalDataEncoding v = Err ErrMinimalData /\ ~ minimal v).
Proof.
  destruct v as [|top body _] using rev_ind; [by left|]. intros [Hb Ht]%bytes_ok_app.
  apply Forall_cons in Ht as [Ht _]. unfold checkMinimalDataEncoding.
  replace (len (body ++ [top]) =? 0) with false
    by (rewrite len_app; change (len [top]) with 1; pose proof (len_nonneg body); lia).
  rewrite idx_last. cbn [mbind res_bind]. rewrite byte_lo, minimal_snoc.
  destruct (Z.eqb_spec (top mod 128) 0) as [Hz|Hz]; [|left; auto].
  destruct body as [|s b _] using rev_ind.
  - right. split; [done|]. intros [?|(b & s & H & _)]; [done|]. by destruct b.
  - apply bytes_ok_app in Hb as [_ Hs]. apply Forall_cons in Hs as [Hs _].
    replace (len ((b ++ [s]) ++ [top]) =? 1) with false
      by (rewrite !len_app; change (len [_]) with 1; pose proof (len_nonneg b); lia).
    replace (len ((b ++ [s]) ++ [top]) - 2) with (len b)
      by (rewrite !len_app; change (len [_]) with 1; lia).
    rewrite <- app_assoc. cbn [app]. rewrite idx_middle. cbn [mbind res_bind].
    rewrite byte_hi by done. destruct (Z.ltb_spec s 128).
    + right. split; [done|]. intros [?|(b' & s' & [-> [= ->]]%app_inj_2 & ?)]; [done | lia | done].
    + left. split; [done|]. right. eauto.
Qed.

Lemma with_sign_ok neg body top :
  bytes_ok body -> 0 < top < 256 ->
  bytes_ok (with_sign neg body top) /\ minimal (with_sign neg body top) /\
  num_value (with_sign neg body top) = (if neg then -1 else 1) * le_decode (body ++ [top]).
Proof.
  intros Hb Ht. unfold with_sign. destruct (Z.ltb_spec top 128) as [Hs|Hs].
  - rewrite minimal_snoc. split_and!.
    + apply bytes_ok_app. split; [done|]. constructor; [|constructor]. unfold is_byte. destruct neg; lia.
    + left. destruct neg; [change 128 with (1 * 128) at 1; rewrite Z.mod_add by lia|rewrite Z.add_0_r];
        rewrite Z.mod_small; lia.
    + unfold num_value. rewrite last_snoc, !le_decode_app. cbn [le_decode].
      destruct neg; [|replace (top + 0 <? 128) with true by lia; lia].
      replace (top + 128 <? 128) with false by lia. rewrite len_app. change (len [_]) with 1.
      replace (8 * (len body + 1) - 1) with (8 * len body + 7) by lia. pose proof (len_nonneg body).
      rewrite Z.pow_add_r, (Z.pow_mul_r 2 8) by lia. change (2 ^ 8) with 256. change (2 ^ 7) with 128.
      lia.
  - rewrite minimal_snoc. split_and!.
    + apply bytes_ok_app. split; [apply bytes_ok_app; split; [done|]|];
        (constructor; [|constructor]); unfold is_byte; destruct neg; lia.
    + right. exists body, top. auto.
    + unfold num_value. rewrite last_snoc, (le_decode_app (body ++ [top])). cbn [le_decode].
      destruct neg; [|change (0 <? 128) with true; cbv iota; ring].
      change (128 <? 128) with false. rewrite (len_app (body ++ [top])). change (len [_]) with 1.
      pose proof (len_nonneg (body ++ [top])). set (k := len (body ++ [top])) in *.
      replace (8 * (k + 1) - 1) with (8 * k + 7) by lia.
      rewrite Z.pow_add_r, (Z.pow_mul_r 2 8) by lia. change (2 ^ 8) with 256. change (2 ^ 7) with 128.
      lia.
Qed.

(** A minimal form is the signed form of its magnitude. *)
Lemma minimal_with_sign v :
  bytes_ok v -> minimal v -> v <> [] ->
  exists neg body top, bytes_ok body /\ 0 < top < 256 /\ v = with_sign neg body top.
Proof.
  destruct v as [|top body _] using rev_ind; [done|]. intros [Hb Ht]%bytes_ok_app Hm _.
  apply Forall_cons in Ht as [Ht _]. unfold is_byte in Ht. apply minimal_snoc in Hm.
  pose proof (Z.mod_pos_bound top 128). pose proof (Z.div_mod top 128).
  destruct (decide (top mod 128 = 0)) as [Hz|Hz].
  - destruct Hm as [?|(b & s & -> & Hs)]; [done|].
    apply bytes_ok_app in Hb as [Hb Hsb]. apply Forall_cons in Hsb as [Hsb _]. unfold is_byte in Hsb.
    exists (128 <=? top), b, s. split_and!; [done | lia | lia |]. unfold with_sign.
    replace (s <? 128) with false by lia. do 2 f_equal. destruct (Z.leb_spec 128 top); lia.
  - exists (128 <=? top), body, (top mod 128). split_and!; [done | lia | lia |]. unfold with_sign.
    replace (top mod 128 <? 128) with true by lia. do 2 f_equal. destruct (Z.leb_spec 128 top); lia.
Qed.

(** [Bytes] puts the sign on the magnitude. *)
Lemma Bytes_spec n :
  - 2 ^ 63 < n < 2 ^ 63 -> n <> 0 ->
  exists body top, bytes_ok body /\ 0 < top < 256 /\ le_decode (body ++ [top]) = Z.abs n /\
    Bytes n = Ok (with_sign (n <? 0) body top).
Proof.
  intros Hn Hnz. unfold Bytes. replace (n =? 0) with false by lia.
  assert ((if n <? 0 then i64 (- n) else n) = Z.abs n) as ->.
  { destruct (Z.ltb_spec n 0); [|lia]. rewrite wraps_small by (unfold is_s; lia). lia. }
  destruct (Bytes_loop_spec 8 (Z.abs n) []) as (l & Hr & Hok & Hnzl & Hv & _); [lia|].
  rewrite Hr. cbn [mbind res_bind app].
  destruct l as [|top body _] using rev_ind; [cbn [le_decode] in Hv; lia|].
  apply bytes_ok_app in Hok as [Hb Ht]. apply Forall_cons in Ht as [Ht _].
  unfold last_nz in Hnzl. rewrite last_snoc in Hnzl.
  exists body, top. split_and!; [done | unfold is_byte in Ht; lia.. | done |].
  rewrite idx_last. cbn [mbind res_bind]. rewrite byte_hi by done. unfold with_sign.
  destruct (Z.ltb_spec top 128); cbn [negb]; [|done].
  destruct (n <? 0); [|by rewrite Z.add_0_r].
  rewrite len_app. change (len [top]) with 1. rewrite Z.add_simpl_r, set_idx_middle.
  do 3 f_equal. unfold is_byte in Ht.
  rewrite Z.lor_comm. pose proof (lor_shiftl_add 1 top 7) as Hlor. change (1 ≪ 7) with 128 in Hlor. lia.
Qed.

Lemma Bytes_num_value v :
  bytes_ok v -> minimal v -> len v <= 8 -> Bytes (num_value v) = Ok v.
Proof.
  intros Hok Hm Hl. destruct (decide (v = [])) as [->|Hne]; [done|].
  assert (1 <= len v) by (destruct v; [done|]; rewrite len_cons; pose proof (len_nonneg v); lia).
  pose proof (num_value_bound v Hok) as Hr.
  assert (2 ^ (8 * len v - 1) <= 2 ^ 63) by (apply Z.pow_le_mono_r; lia).
  destruct (minimal_with_sign v Hok Hm Hne) as (neg & body & top & Hb & Ht & Hv).
  destruct (with_sign_ok neg body top Hb Ht) as (_ & _ & Hnv). rewrite <- Hv in Hnv.
  assert (bytes_ok (body ++ [top])) as Hbt
    by (apply bytes_ok_app; split; [done|]; constructor; [unfold is_byte; lia | constructor]).
  assert (last_nz (body ++ [top])) as Hnz by (unfold last_nz; rewrite last_snoc; lia).
  assert (0 < le_decode (body ++ [top])) as Hpos.
  { pose proof (le_decode_range _ Hbt). destruct (Z.eq_dec (le_decode (body ++ [top])) 0) as [Hzero|]; [|lia].
    apply le_decode_zero in Hzero; [|done..]. by destruct body. }
  destruct (Bytes_spec (num_value v)) as (body' & top' & Hb' & Ht' & Hd & ->); [lia | destruct neg; lia |].
  rewrite Hv at 2. f_equal.
  assert ((num_value v <? 0) = neg) as -> by (destruct neg; lia).
  assert (body' ++ [top'] = body ++ [top]) as [-> [= ->]]%app_inj_2; [|done..].
  apply le_decode_inj; [| done | | done | destruct neg; lia].
  - apply bytes_ok_app; split; [done|]. constructor; [unfold is_byte; lia | constructor].
  - unfold last_nz. rewrite last_snoc. lia.
Qed.

Lemma Bytes_minimal n :
  - 2 ^ 63 < n < 2 ^ 63 ->
  exists v, Bytes n = Ok v /\ bytes_ok v /\ minimal v /\ num_value v = n.
Proof.
  intros Hn. destruct (decide (n = 0)) as [->|Hnz].
  { exists []. split_and!; [done | constructor | done..]. }
  destruct (Bytes_spec n Hn Hnz) as (body & top & Hb & Ht & Hd & HB).
  destruct (with_sign_ok (n <? 0) body top Hb Ht) as (? & ? & Hv). rewrite Hd in Hv.
  exists (with_sign (n <? 0) body top). split_and!; try done. rewrite Hv.
  destruct (Z.ltb_spec n 0); lia.
Qed.

(** Small numbers have short encodings. *)
Lemma minimal_length v k :
  bytes_ok v -> minimal v -> 1 <= k -> - 2 ^ (8 * k - 1) < num_value v < 2 ^ (8 * k - 1) -> len v <= k.
Proof.
  intros Hok Hm Hk Hr. destruct (decide (v = [])) as [->|Hne]; [rewrite len_nil; lia|].
  destruct (minimal_with_sign v Hok Hm Hne) as (neg & body & top & Hb & Ht & ->).
  destruct (with_sign_ok neg body top Hb Ht) as (_ & _ & Hv). rewrite Hv, le_decode_app in Hr.
  cbn [le_decode] in Hr. pose proof (le_decode_range body Hb). pose proof (len_nonneg body).
  assert (256 ^ len body * top < 2 ^ (8 * k - 1)) as Hlt by (destruct neg; lia).
  replace 256 with (2 ^ 8) in Hlt by done. rewrite <- Z.pow_mul_r in Hlt by lia.
  unfold with_sign. destruct (Z.ltb_spec top 128); rewrite !len_app; change (len [_]) with 1.
  - assert (8 * len body < 8 * k - 1) as Hlen; [|lia].
    apply (Z.pow_lt_mono_r_iff 2); [lia..|]. nia.
  - assert (8 * len body + 7 < 8 * k - 1) as Hlen; [|lia].
    apply (Z.pow_lt_mono_r_iff 2); [lia..|]. rewrite Z.pow_add_r by lia. change (2 ^ 7) with 128. nia.
Qed.

(** ** The properties of the component *)

(** Serializing a number and reading it back with the minimal encoding
    rule gives the number, for every number whose encoding fits the length
    limit of the reader. *)
Theorem scriptNum_roundtrip n k :
  1 <= k <= 7 -> - 2 ^ (8 * k - 1) < n < 2 ^ (8 * k - 1) ->
  exists v, Bytes n = Ok v /\ len v <= k /\ makeScriptNum v true k = Ok n.
Proof.
  intros Hk Hn. assert (2 ^ (8 * k - 1) <= 2 ^ 55) by (apply Z.pow_le_mono_r; lia).
  destruct (Bytes_minimal n) as (v & HB & Hok & Hm & Hv); [lia|]. exists v.
  assert (len v <= k) by (apply minimal_length; rewrite ?Hv; done || lia).
  split_and!; [done | done |]. rewrite <- Hv. apply makeScriptNum_value; [done | lia | done |].
  intros _. destruct (checkMinimalDataEncoding_spec v Hok) as [[? _]|[_ ?]]; done.
Qed.

(** Minimally encoded data is the one serialized form of the number it is
    read as, and the number lies in the documented symmetric range of its
    length limit: for four bytes from -2^31 + 1 to 2^31 - 1. *)
Theorem makeScriptNum_canonical v k n :
  bytes_ok v -> 1 <= k <= 7 -> makeScriptNum v true k = Ok n ->
  Bytes n = Ok v /\ - 2 ^ (8 * k - 1) < n < 2 ^ (8 * k - 1).
Proof.
  intros Hok Hk H.
  assert (len v <= k /\ checkMinimalDataEncoding v = Ok ()) as [Hl Hc].
  { unfold makeScriptNum in H. destruct (Z.ltb_spec k (len v)); [done|]. split; [lia|].
    by destruct (checkMinimalDataEncoding v) as [[]| | |]. }
  assert (minimal v) as Hm
    by (destruct (checkMinimalDataEncoding_spec v Hok) as [[_ ?]|[? _]]; congruence).
  rewrite makeScriptNum_value in H by (done || lia). injection H as <-.
  split; [apply Bytes_num_value; done || lia|].
  destruct (decide (v = [])) as [->|Hne]; [change (num_value []) with 0; lia|].
  assert (1 <= len v) by (destruct v; [done|]; rewrite len_cons; pose proof (len_nonneg v); lia).
  pose proof (num_value_bound v Hok).
  assert (2 ^ (8 * len v - 1) <= 2 ^ (8 * k - 1)) by (apply Z.pow_le_mono_r; lia). lia.
Qed.

End ScriptNum.
