(* ===== verification/Stack.v ===== *)
(** The data and alternate stacks of the script engine: [src/txscript/stack.go].

    [stk] is in the order of the code, the top item last.  An operation returns
    the changed stack; after an error the engine stops and the stack is not
    used again. *)
From S2P Require Import Prelude Opcode ScriptNum.
Import Opcode ScriptNum.
#[local] Open Scope Z_scope.

Module Stack.

Fixpoint asBool (t : bytes) : bool :=
  match t with
  | [] => false
  | b :: rest =>
      if negb (b =? 0)
      then negb ((len rest =? 0) && (b =? 0x80))
      else asBool rest
  end.

Definition fromBool (v : bool) : bytes := if v then [1] else [].

Record stack := mkStack { stk : list bytes; verifyMinimalData : bool }.

Definition set_stk (s : stack) (l : list bytes) : stack := mkStack l (verifyMinimalData s).

Definition Depth (s : stack) : Z := i32 (len (stk s)).

Definition PushByteArray (s : stack) (so : bytes) : stack := set_stk s (stk s ++ [so]).

Definition PushInt (s : stack) (val : Z) : res ErrorCode stack :=
  b ← Bytes val; Ok (PushByteArray s b).

Definition PushBool (s : stack) (val : bool) : stack := PushByteArray s (fromBool val).

(** Removing the item [idx] from the top. *)
Definition nipN (s : stack) (i : Z) : res ErrorCode (bytes * stack) :=
  let sz := i32 (len (stk s)) in
  if (i <? 0) || (sz - 1 <? i) then Err ErrInvalidStackOperation
  else
    so ← idx (stk s) (sz - i - 1);
    if i =? 0 then
      l ← slice (stk s) 0 (sz - 1);
      Ok (so, set_stk s l)
    else if i =? sz - 1 then
      l ← slice (stk s) 1 (len (stk s));
      Ok (so, set_stk s (take (Z.to_nat (sz - 1)) l))
    else
      s1 ← slice (stk s) (sz - i) sz;
      l ← slice (stk s) 0 (sz - i - 1);
      Ok (so, set_stk s (l ++ s1)).

Definition PopByteArray (s : stack) : res ErrorCode (bytes * stack) := nipN s 0.

Definition PopInt (s : stack) : res ErrorCode (Z * stack) :=
  '(so, s) ← PopByteArray s;
  n ← makeScriptNum so (verifyMinimalData s) defaultScriptNumLen;
  Ok (n, s).

Definition PopBool (s : stack) : res ErrorCode (bool * stack) :=
  '(so, s) ← PopByteArray s; Ok (asBool so, s).

Definition PeekByteArray (s : stack) (i : Z) : res ErrorCode bytes :=
  let sz := i32 (len (stk s)) in
  if (i <? 0) || (sz <=? i) then Err ErrInvalidStackOperation
  else idx (stk s) (sz - i - 1).

Definition PeekInt (s : stack) (i : Z) : res ErrorCode Z :=
  so ← PeekByteArray s i; makeScriptNum so (verifyMinimalData s) defaultScriptNumLen.

Definition PeekBool (s : stack) (i : Z) : res ErrorCode bool :=
  so ← PeekByteArray s i; Ok (asBool so).

Definition NipN (s : stack) (i : Z) : res ErrorCode stack :=
  '(_, s) ← nipN s i; Ok s.

Definition Tuck (s : stack) : res ErrorCode stack :=
  '(so2, s) ← PopByteArray s;
  '(so1, s) ← PopByteArray s;
  Ok (PushByteArray (PushByteArray (PushByteArray s so2) so1) so2).

(** The loops of [DropN], [DupN], [RotN], [SwapN] and [OverN] count down from
    their argument to 0. *)
Fixpoint drop_loop (n : nat) (s : stack) : res ErrorCode stack :=
  match n with
  | O => Ok s
  | S n => '(_, s) ← PopByteArray s; drop_loop n s
  end.

Definition DropN (s : stack) (n : Z) : res ErrorCode stack :=
  if n <? 1 then Err ErrInvalidStackOperation else drop_loop (Z.to_nat n) s.

Fixpoint peek_loop (i : nat) (entry : Z) (s : stack) : res ErrorCode stack :=
  match i with
  | O => Ok s
  | S i => so ← PeekByteArray s entry; peek_loop i entry (PushByteArray s so)
  end.

Fixpoint nip_loop (i : nat) (entry : Z) (s : stack) : res ErrorCode stack :=
  match i with
  | O => Ok s
  | S i => '(so, s) ← nipN s entry; nip_loop i entry (PushByteArray s so)
  end.

Definition DupN (s : stack) (n : Z) : res ErrorCode stack :=
  if n <? 1 then Err ErrInvalidStackOperation else peek_loop (Z.to_nat n) (i32 (n - 1)) s.

Definition RotN (s : stack) (n : Z) : res ErrorCode stack :=
  if n <? 1 then Err ErrInvalidStackOperation
  else nip_loop (Z.to_nat n) (i32 (3 * n - 1)) s.

Definition SwapN (s : stack) (n : Z) : res ErrorCode stack :=
  if n <? 1 then Err ErrInvalidStackOperation
  else nip_loop (Z.to_nat n) (i32 (2 * n - 1)) s.

Definition OverN (s : stack) (n : Z) : res ErrorCode stack :=
  if n <? 1 then Err ErrInvalidStackOperation
  else peek_loop (Z.to_nat n) (i32 (2 * n - 1)) s.

Definition PickN (s : stack) (n : Z) : res ErrorCode stack :=
  so ← PeekByteArray s n; Ok (PushByteArray s so).

Definition RollN (s : stack) (n : Z) : res ErrorCode stack :=
  '(so, s) ← nipN s n; Ok (PushByteArray s so).

(** * Facts *)

(** Stacks whose size is an int32. *)
Definition small (s : stack) : Prop := len (stk s) < 2 ^ 31.

Lemma sz_small s : small s -> i32 (len (stk s)) = len (stk s).
Proof.
  intros H. unfold small in H. apply wraps_small; [lia|]. pose proof (len_nonneg (stk s)).
  unfold is_s. lia.
Qed.

(** Removing the item below [length suf] others. *)
Lemma nipN_middle s pre x suf :
  small s -> stk s = pre ++ x :: suf ->
  nipN s (len suf) = Ok (x, set_stk s (pre ++ suf)).
Proof.
  intros Hs Hstk. unfold nipN. rewrite sz_small by done.
  assert (len (stk s) = len pre + 1 + len suf) as Hl by (rewrite Hstk, len_app, len_cons; lia).
  pose proof (len_nonneg pre). pose proof (len_nonneg suf).
  replace ((len suf <? 0) || _) with false by lia.
  replace (len (stk s) - len suf - 1) with (len pre) by lia.
  assert (@idx ErrorCode _ (stk s) (len pre) = Ok x) as -> by (rewrite Hstk; apply idx_middle).
  cbn [mbind res_bind].
  destruct (Z.eqb_spec (len suf) 0) as [He0|He0]; [|destruct (Z.eqb_spec (len suf) (len (stk s) - 1)) as [He1|He1]].
  - apply len_0 in He0 as ->. rewrite app_nil_r. rewrite len_nil in Hl.
    assert (slice (stk s) 0 (len (stk s) - 1) = @Ok ErrorCode _ pre) as ->; [|done].
    apply slice_Ok. split_and!; [lia..|]. rewrite drop_0, Hstk.
    symmetry. apply take_app_length'. unfold len in *. rewrite <- Hstk. lia.
  - assert (pre = []) as -> by (apply len_0; lia).
    assert (slice (stk s) 1 (len (stk s)) = @Ok ErrorCode _ suf) as ->.
    { apply slice_Ok. split_and!; [lia..|]. change (Z.to_nat 1) with 1%nat. rewrite Hstk at 2.
      cbn [app drop]. rewrite drop_0. symmetry. apply take_ge. unfold len in *. lia. }
    cbn [mbind res_bind app]. rewrite take_ge; [done|]. unfold len in *. lia.
  - assert (slice (stk s) (len (stk s) - len suf) (len (stk s)) = @Ok ErrorCode _ suf) as ->.
    { apply slice_Ok. split_and!; [lia..|]. rewrite Hstk at 4.
      replace (Z.to_nat (len (stk s) - len suf)) with (length pre + 1)%nat by (unfold len in *; lia).
      rewrite <- drop_drop, drop_app_length. cbn [drop]. rewrite drop_0. symmetry. apply take_ge.
      unfold len in *. lia. }
    cbn [mbind res_bind].
    assert (slice (stk s) 0 (len pre) = @Ok ErrorCode _ pre) as ->; [|done].
    apply slice_Ok. split_and!; [lia..|]. rewrite drop_0, Hstk. symmetry.
    apply take_app_length'. unfold len. lia.
Qed.

Lemma PeekByteArray_middle s pre x suf :
  small s -> stk s = pre ++ x :: suf -> PeekByteArray s (len suf) = Ok x.
Proof.
  intros Hs Hstk. unfold PeekByteArray. rewrite sz_small by done.
  assert (len (stk s) = len pre + 1 + len suf) as Hl by (rewrite Hstk, len_app, len_cons; lia).
  pose proof (len_nonneg pre). pose proof (len_nonneg suf).
  replace ((len suf <? 0) || _) with false by lia.
  replace (len (stk s) - len suf - 1) with (len pre) by lia.
  rewrite Hstk. apply idx_middle.
Qed.

(** An index inside the stack splits it. *)
Lemma split_at {A} (l : list A) i :
  0 <= i < len l -> exists pre x suf, l = pre ++ x :: suf /\ len suf = i.
Proof.
  intros Hi. set (k := (length l - 1 - Z.to_nat i)%nat).
  destruct (lookup_lt_is_Some_2 l k) as [x Hx]; [unfold len in Hi; lia|].
  exists (take k l), x, (drop (S k) l). split; [by rewrite take_drop_middle|].
  unfold len in *. rewrite length_drop. lia.
Qed.

Lemma nipN_error s i :
  small s -> i < 0 \/ len (stk s) <= i -> nipN s i = Err ErrInvalidStackOperation.
Proof.
  intros Hs Hi. unfold nipN. rewrite sz_small by done. by replace (_ || _) with true by lia.
Qed.

Lemma PeekByteArray_error s i :
  small s -> i < 0 \/ len (stk s) <= i -> PeekByteArray s i = Err ErrInvalidStackOperation.
Proof.
  intros Hs Hi. unfold PeekByteArray. rewrite sz_small by done. by replace (_ || _) with true by lia.
Qed.

Lemma PopByteArray_snoc s pre x :
  small s -> stk s = pre ++ [x] -> PopByteArray s = Ok (x, set_stk s pre).
Proof.
  intros Hs Hstk. pose proof (nipN_middle s pre x [] Hs Hstk) as H. by rewrite app_nil_r in H.
Qed.

(** [nip_loop n] with [entry = n + m - 1] moves the [n] items that lie below
    the top [m] to the top, in order. *)
Lemma nip_loop_spec xs : forall s pre mid ys,
  small s -> stk s = pre ++ xs ++ mid ++ ys ->
  nip_loop (length xs) (len (xs ++ mid ++ ys) - 1) s =
  Ok (set_stk s (pre ++ mid ++ ys ++ xs)).
Proof.
  induction xs as [|x xs IH]; intros s pre mid ys Hs Hstk; cbn [nip_loop length].
  { rewrite app_nil_r. f_equal. destruct s. unfold set_stk. cbn in *. by rewrite Hstk. }
  cbn [app] in Hstk. rewrite <- app_comm_cons, len_cons.
  replace (1 + len (xs ++ mid ++ ys) - 1) with (len (xs ++ mid ++ ys)) by lia.
  rewrite (nipN_middle s pre x _ Hs Hstk). cbn [mbind res_bind].
  specialize (IH (PushByteArray (set_stk s (pre ++ xs ++ mid ++ ys)) x) pre mid (ys ++ [x])).
  replace (len (xs ++ mid ++ ys ++ [x]) - 1) with (len (xs ++ mid ++ ys)) in IH
    by (rewrite !len_app; change (len [x]) with 1; lia).
  rewrite IH.
  - unfold set_stk, PushByteArray. cbn. by rewrite <- !app_assoc.
  - unfold small in *. cbn. rewrite Hstk in Hs. rewrite !len_app, ?len_cons, ?len_app in *.
    change (len (@nil bytes)) with 0. lia.
  - cbn. by rewrite <- !app_assoc.
Qed.

(** [peek_loop n] with [entry = n + m - 1] copies the [n] items that lie below
    the top [m] to the top, in order. *)
Lemma peek_loop_spec xs : forall s pre mid ys,
  len (stk s) + len xs < 2 ^ 31 -> stk s = pre ++ xs ++ mid ++ ys ->
  peek_loop (length xs) (len (xs ++ mid ++ ys) - 1) s =
  Ok (set_stk s (pre ++ xs ++ mid ++ ys ++ xs)).
Proof.
  induction xs as [|x xs IH]; intros s pre mid ys Hs Hstk; cbn [peek_loop length].
  { rewrite app_nil_r. f_equal. destruct s. unfold set_stk. cbn in *. by rewrite Hstk. }
  rewrite len_cons in Hs. pose proof (len_nonneg xs). assert (small s) by (unfold small; lia).
  cbn [app] in Hstk. rewrite <- app_comm_cons, len_cons.
  replace (1 + len (xs ++ mid ++ ys) - 1) with (len (xs ++ mid ++ ys)) by lia.
  rewrite (PeekByteArray_middle s pre x (xs ++ mid ++ ys)) by done. cbn [mbind res_bind].
  specialize (IH (PushByteArray s x) (pre ++ [x]) mid (ys ++ [x])).
  replace (len (xs ++ mid ++ ys ++ [x]) - 1) with (len (xs ++ mid ++ ys)) in IH
    by (rewrite !len_app; change (len [x]) with 1; lia).
  rewrite IH.
  - unfold set_stk, PushByteArray. cbn. by rewrite <- !app_assoc.
  - cbn. rewrite len_app. change (len [x]) with 1. lia.
  - cbn. rewrite Hstk, <- !app_assoc. cbn [app]. by rewrite <- !app_assoc.
Qed.

Lemma drop_loop_spec xs : forall s pre,
  small s -> stk s = pre ++ xs -> drop_loop (length xs) s = Ok (set_stk s pre).
Proof.
  induction xs as [|x xs IH] using rev_ind; intros s pre Hs Hstk.
  { rewrite app_nil_r in Hstk. cbn. destruct s. unfold set_stk. cbn in *. by rewrite Hstk. }
  rewrite length_app, Nat.add_comm. cbn [length Nat.add drop_loop]. rewrite app_assoc in Hstk.
  rewrite (PopByteArray_snoc s _ x Hs Hstk). cbn [mbind res_bind].
  rewrite (IH _ pre); [done | | done].
  unfold small in *. rewrite Hstk, len_app in Hs. change (len [x]) with 1 in Hs. cbn. lia.
Qed.

(** Outcomes of a stack operation that cannot panic. *)
Definition ok_or_invalid {A} (m : res ErrorCode A) : Prop :=
  (exists a, m = Ok a) \/ m = Err ErrInvalidStackOperation.

Lemma nipN_total s i : small s -> ok_or_invalid (nipN s i).
Proof.
  intros Hs. destruct (decide (0 <= i < len (stk s))) as [Hi|Hi].
  - left. destruct (split_at (stk s) i Hi) as (pre & x & suf & Hstk & <-).
    eexists. by apply nipN_middle.
  - right. apply nipN_error; [done | lia].
Qed.

Lemma PeekByteArray_total s i : small s -> ok_or_invalid (PeekByteArray s i).
Proof.
  intros Hs. destruct (decide (0 <= i < len (stk s))) as [Hi|Hi].
  - left. destruct (split_at (stk s) i Hi) as (pre & x & suf & Hstk & <-).
    eexists. by eapply PeekByteArray_middle.
  - right. apply PeekByteArray_error; [done | lia].
Qed.

(** The length of the stack after each step. *)
Lemma nipN_len s i x s' :
  small s -> nipN s i = Ok (x, s') ->
  len (stk s) = len (stk s') + 1 /\ verifyMinimalData s' = verifyMinimalData s.
Proof.
  intros Hs H. destruct (decide (0 <= i < len (stk s))) as [Hi|Hi].
  - destruct (split_at (stk s) i Hi) as (pre & y & suf & Hstk & <-).
    rewrite (nipN_middle s pre y suf) in H by done. injection H as -> <-. cbn.
    rewrite Hstk, !len_app, len_cons. split; [lia | done].
  - rewrite nipN_error in H by (done || lia). done.
Qed.

Lemma nip_loop_len i entry : forall s s',
  small s -> nip_loop i entry s = Ok s' ->
  len (stk s') = len (stk s) /\ verifyMinimalData s' = verifyMinimalData s.
Proof.
  induction i as [|i IH]; intros s s' Hs H; cbn [nip_loop] in H; [by injection H as <-|].
  apply bind_Ok in H as ([so s1] & Hn & H). apply nipN_len in Hn as [Hn Hv]; [|done].
  unfold small in *.
  assert (len (stk (PushByteArray s1 so)) = len (stk s)) as Hl
    by (cbn; rewrite len_app; change (len [so]) with 1; lia).
  apply IH in H as [H Hv']; cbn in *; [split; [lia | congruence] | unfold small; cbn; lia].
Qed.

Lemma nip_loop_total i entry : forall s, small s -> ok_or_invalid (nip_loop i entry s).
Proof.
  induction i as [|i IH]; intros s Hs; cbn [nip_loop]; [left; by eexists|].
  destruct (nipN_total s entry Hs) as [[[so s1] Hn]|Hn]; rewrite Hn; [|by right].
  cbn [mbind res_bind]. apply IH. apply nipN_len in Hn as [Hn _]; [|done].
  unfold small in *. cbn. rewrite len_app. change (len [so]) with 1. lia.
Qed.

Lemma peek_loop_total i entry : forall s,
  len (stk s) + Z.of_nat i < 2 ^ 31 -> ok_or_invalid (peek_loop i entry s).
Proof.
  induction i as [|i IH]; intros s Hs; cbn [peek_loop]; [left; by eexists|].
  destruct (PeekByteArray_total s entry) as [[so Hn]|Hn]; [unfold small; lia | |]; rewrite Hn; [|by right].
  cbn [mbind res_bind]. apply IH. cbn. rewrite len_app. change (len [so]) with 1. lia.
Qed.

(** ** The properties of the component *)

(** The multi-item operations perform the stack transformations their
    comments document, for every count: with [a], [b] and [c] the last three
    groups of [n] items, [DropN] removes [c], [DupN] copies [c], [SwapN]
    exchanges [b] and [c], [OverN] copies [b] on top and [RotN] moves [a] to
    the top. *)
Theorem stack_transformations s pre a b c n :
  1 <= n -> len a = n -> len b = n -> len c = n ->
  stk s = pre ++ a ++ b ++ c -> len (stk s) + n < 2 ^ 31 ->
  DropN s n = Ok (set_stk s (pre ++ a ++ b)) /\
  DupN s n = Ok (set_stk s (pre ++ a ++ b ++ c ++ c)) /\
  SwapN s n = Ok (set_stk s (pre ++ a ++ c ++ b)) /\
  OverN s n = Ok (set_stk s (pre ++ a ++ b ++ c ++ b)) /\
  RotN s n = Ok (set_stk s (pre ++ b ++ c ++ a)).
Proof.
  intros Hn Ha Hb Hc Hstk Hlen. assert (small s) as Hs by (unfold small; lia).
  assert (3 * n <= len (stk s)) by (rewrite Hstk, !len_app; pose proof (len_nonneg pre); lia).
  unfold DropN, DupN, SwapN, OverN, RotN. replace (n <? 1) with false by lia.
  rewrite !wraps_small by (unfold is_s; lia).
  assert (Z.to_nat n = length c) as Hnc by (unfold len in Hc; lia).
  assert (Z.to_nat n = length b) as Hnb by (unfold len in Hb; lia).
  assert (Z.to_nat n = length a) as Hna by (unfold len in Ha; lia).
  split_and!.
  - rewrite Hnc. rewrite (drop_loop_spec c s (pre ++ a ++ b)); [done | done |].
    by rewrite Hstk, <- !app_assoc.
  - rewrite Hnc. pose proof (peek_loop_spec c s (pre ++ a ++ b) [] []) as H'.
    rewrite !app_nil_l, app_nil_r, Hc in H'. rewrite H' by (lia || by rewrite Hstk, <- !app_assoc).
    by rewrite <- !app_assoc.
  - rewrite Hnb. pose proof (nip_loop_spec b s (pre ++ a) c []) as H'.
    rewrite !app_nil_l, app_nil_r, len_app, Hb, Hc in H'. replace (2 * n - 1) with (n + n - 1) by lia.
    rewrite H' by (done || by rewrite Hstk, <- !app_assoc). by rewrite <- !app_assoc.
  - rewrite Hnb. pose proof (peek_loop_spec b s (pre ++ a) c []) as H'.
    rewrite !app_nil_l, app_nil_r, len_app, Hb, Hc in H'. replace (2 * n - 1) with (n + n - 1) by lia.
    rewrite H' by (lia || by rewrite Hstk, <- !app_assoc). by rewrite <- !app_assoc.
  - rewrite Hna. pose proof (nip_loop_spec a s pre b c) as H'.
    rewrite !len_app, Ha, Hb, Hc in H'. replace (3 * n - 1) with (n + (n + n) - 1) by lia.
    by rewrite H'.
Qed.

End Stack.
