(* ===== verification/Wire.v ===== *)
(** Transactions on the wire: [src/wire/msgtx.go] and the variable length
    integers of [src/wire/common.go].

    An [io.Reader] is the byte string still to be read: a read returns the
    value and the rest, and an error when the bytes run out.  An [io.Writer]
    is a buffer, whose writes do not fail: an encoder returns the bytes it
    writes. *)
From S2P Require Import Prelude.
#[local] Open Scope Z_scope.

Module wire.

Definition MaxMessagePayload : Z := 1024 * 1024 * 32.
Definition HashSize : Z := 32.
Definition MaxTxInSequenceNum : Z := 0xffffffff.
Definition MaxPrevOutIndex : Z := 0xffffffff.
Definition SequenceLockTimeDisabled : Z := 1 ≪ 31.
Definition SequenceLockTimeIsSeconds : Z := 1 ≪ 22.
Definition SequenceLockTimeMask : Z := 0x0000ffff.
Definition SequenceLockTimeGranularity : Z := 9.
Definition minTxInPayload : Z := 9 + HashSize.
Definition maxTxInPerMessage : Z := MaxMessagePayload / minTxInPayload + 1.
Definition minTxOutPayload : Z := 9.
Definition maxTxOutPerMessage : Z := MaxMessagePayload / minTxOutPayload + 1.
Definition StrippedTxInSize : Z := 41.

(** * Data *)
Record OutPoint := mkOutPoint { Hash : bytes; Index : Z }.
Record TxIn := mkTxIn { PreviousOutPoint : OutPoint; SignatureScript : bytes; Sequence : Z }.
Record TxOut := mkTxOut { Value : Z; PkScript : bytes }.
Record MsgTx := mkMsgTx {
  tx_Version : Z; tx_TxIn : list TxIn; tx_TxOut : list TxOut; tx_LockTime : Z }.

#[global] Instance OutPoint_eq_dec : EqDecision OutPoint.
Proof. solve_decision. Defined.
#[global] Instance TxIn_eq_dec : EqDecision TxIn.
Proof. solve_decision. Defined.
#[global] Instance TxOut_eq_dec : EqDecision TxOut.
Proof. solve_decision. Defined.

(** * Primitive reads and writes *)
Abbreviation reader A := (bytes -> res string (A * bytes)).

(** [io.ReadFull] of [n] bytes. *)
Definition readFull (n : Z) (r : bytes) : res string (bytes * bytes) :=
  if n <=? len r then Ok (take (Z.to_nat n) r, drop (Z.to_nat n) r)
  else Err "EOF".

(** [binarySerializer.UintN(r, littleEndian)]. *)
Definition readUint (n : nat) (r : bytes) : res string (Z * bytes) :=
  '(b, r) ← readFull (Z.of_nat n) r; Ok (le_decode b, r).

Definition putUint (n : nat) (v : Z) : bytes := le_encode n v.

Definition ReadVarInt (r : bytes) : res string (Z * bytes) :=
  '(discriminant, r) ← readUint 1 r;
  if discriminant =? 0xff then
    '(rv, r) ← readUint 8 r;
    if rv <? 0x100000000 then Err "non-canonical varint" else Ok (rv, r)
  else if discriminant =? 0xfe then
    '(rv, r) ← readUint 4 r;
    if rv <? 0x10000 then Err "non-canonical varint" else Ok (rv, r)
  else if discriminant =? 0xfd then
    '(rv, r) ← readUint 2 r;
    if rv <? 0xfd then Err "non-canonical varint" else Ok (rv, r)
  else Ok (discriminant, r).

Definition WriteVarInt (val : Z) : bytes :=
  if val <? 0xfd then putUint 1 (u8 val)
  else if val <=? 2 ^ 16 - 1 then putUint 1 0xfd ++ putUint 2 (u16 val)
  else if val <=? 2 ^ 32 - 1 then putUint 1 0xfe ++ putUint 4 (u32 val)
  else putUint 1 0xff ++ putUint 8 val.

Definition VarIntSerializeSize (val : Z) : Z :=
  if val <? 0xfd then 1
  else if val <=? 2 ^ 16 - 1 then 3
  else if val <=? 2 ^ 32 - 1 then 5
  else 9.

Definition WriteVarBytes (b : bytes) : bytes := WriteVarInt (len b) ++ b.

(** * Encoding *)
Definition writeOutPoint (op : OutPoint) : bytes := Hash op ++ putUint 4 (Index op).

Definition writeTxIn (ti : TxIn) (strip : bool) : bytes :=
  writeOutPoint (PreviousOutPoint ti) ++
  (if strip then WriteVarInt 0 else WriteVarBytes (SignatureScript ti)) ++
  putUint 4 (Sequence ti).

Definition WriteTxOut (to : TxOut) : bytes :=
  putUint 8 (u64 (Value to)) ++ WriteVarBytes (PkScript to).

Definition btcEncode (msg : MsgTx) (strip : bool) : bytes :=
  putUint 4 (u32 (tx_Version msg)) ++
  WriteVarInt (len (tx_TxIn msg)) ++
  concat (map (fun ti => writeTxIn ti strip) (tx_TxIn msg)) ++
  WriteVarInt (len (tx_TxOut msg)) ++
  concat (map WriteTxOut (tx_TxOut msg)) ++
  putUint 4 (tx_LockTime msg).

Definition Serialize (msg : MsgTx) : bytes := btcEncode msg false.
Definition SerializeStripped (msg : MsgTx) : bytes := btcEncode msg true.

Definition TxIn_SerializeSize (t : TxIn) : Z :=
  40 + VarIntSerializeSize (len (SignatureScript t)) + len (SignatureScript t).

Definition TxOut_SerializeSize (t : TxOut) : Z :=
  8 + VarIntSerializeSize (len (PkScript t)) + len (PkScript t).

Definition sum (l : list Z) : Z := fold_right Z.add 0 l.

Definition serializeSize (msg : MsgTx) (strip : bool) : Z :=
  8 + VarIntSerializeSize (len (tx_TxIn msg)) + VarIntSerializeSize (len (tx_TxOut msg)) +
  (if strip then StrippedTxInSize * len (tx_TxIn msg)
   else sum (map TxIn_SerializeSize (tx_TxIn msg))) +
  sum (map TxOut_SerializeSize (tx_TxOut msg)).

Definition SerializeSize (msg : MsgTx) : Z := serializeSize msg false.
Definition SerializeSizeStripped (msg : MsgTx) : Z := serializeSize msg true.

Fixpoint pkScriptLocs_loop (n : Z) (outs : list TxOut) : list Z :=
  match outs with
  | [] => []
  | txOut :: rest =>
      let n := n + 8 + VarIntSerializeSize (len (PkScript txOut)) in
      n :: pkScriptLocs_loop (n + len (PkScript txOut)) rest
  end.

Definition PkScriptLocs (msg : MsgTx) : list Z :=
  let numTxOut := len (tx_TxOut msg) in
  if numTxOut =? 0 then []
  else
    let n := 4 + VarIntSerializeSize (len (tx_TxIn msg)) + VarIntSerializeSize numTxOut +
             sum (map TxIn_SerializeSize (tx_TxIn msg)) in
    pkScriptLocs_loop n (tx_TxOut msg).

(** * Decoding *)
Definition readOutPoint (r : bytes) : res string (OutPoint * bytes) :=
  '(h, r) ← readFull HashSize r;
  '(i, r) ← readUint 4 r;
  Ok (mkOutPoint h i, r).

Definition readScript (maxAllowed : Z) (r : bytes) : res string (bytes * bytes) :=
  '(count, r) ← ReadVarInt r;
  if maxAllowed <? count then Err "larger than the max allowed size"
  else readFull count r.

Definition readTxIn (r : bytes) : res string (TxIn * bytes) :=
  '(op, r) ← readOutPoint r;
  '(s, r) ← readScript MaxMessagePayload r;
  '(q, r) ← readUint 4 r;
  Ok (mkTxIn op s q, r).

Definition readTxOut (r : bytes) : res string (TxOut * bytes) :=
  '(v, r) ← readUint 8 r;
  '(s, r) ← readScript MaxMessagePayload r;
  Ok (mkTxOut (i64 v) s, r).

Fixpoint readMany {A} (f : reader A) (count : nat) (r : bytes) : res string (list A * bytes) :=
  match count with
  | O => Ok ([], r)
  | S count =>
      '(x, r) ← f r;
      '(xs, r) ← readMany f count r;
      Ok (x :: xs, r)
  end.

(** The scripts are moved into one contiguous buffer: each is copied at the
    running offset, and becomes the subslice of the buffer at its place. *)
Fixpoint copy_scripts (scripts : bytes) (offset : Z) (ss : list bytes)
    : res string (bytes * list (Z * Z)) :=
  match ss with
  | [] => Ok (scripts, [])
  | s :: ss =>
      scripts ← copy_at scripts offset s;
      '(scripts, locs) ← copy_scripts scripts (offset + len s) ss;
      Ok (scripts, (offset, offset + len s) :: locs)
  end.

Fixpoint subslices (scripts : bytes) (locs : list (Z * Z)) : res string (list bytes) :=
  match locs with
  | [] => Ok []
  | (lo, hi) :: locs =>
      s ← slice scripts lo hi;
      ss ← subslices scripts locs;
      Ok (s :: ss)
  end.

Definition relocate (ss : list bytes) : res string (list bytes) :=
  scripts ← make_bytes (sum (map len ss));
  '(scripts, locs) ← copy_scripts scripts 0 ss;
  subslices scripts locs.

Definition set_SignatureScript (ti : TxIn) (s : bytes) : TxIn :=
  mkTxIn (PreviousOutPoint ti) s (Sequence ti).
Definition set_PkScript (to : TxOut) (s : bytes) : TxOut := mkTxOut (Value to) s.

Definition BtcDecode (r : bytes) : res string (MsgTx * bytes) :=
  '(version, r) ← readUint 4 r;
  '(count, r) ← ReadVarInt r;
  if maxTxInPerMessage <? count then Err "too many input transactions"
  else
    '(txIns, r) ← readMany readTxIn (Z.to_nat count) r;
    '(count, r) ← ReadVarInt r;
    if maxTxOutPerMessage <? count then Err "too many output transactions"
    else
      '(txOuts, r) ← readMany readTxOut (Z.to_nat count) r;
      '(lockTime, r) ← readUint 4 r;
      scripts ← relocate (map SignatureScript txIns ++ map PkScript txOuts);
      Ok (mkMsgTx (i32 version)
            (zip_with set_SignatureScript txIns scripts)
            (zip_with set_PkScript txOuts (drop (length txIns) scripts))
            lockTime, r).

Definition Deserialize (r : bytes) : res string (MsgTx * bytes) := BtcDecode r.

(** A deep copy of the values. *)
Definition Copy (msg : MsgTx) : MsgTx :=
  mkMsgTx (tx_Version msg)
    (map (fun ti => mkTxIn (mkOutPoint (Hash (PreviousOutPoint ti)) (Index (PreviousOutPoint ti)))
                      (SignatureScript ti) (Sequence ti)) (tx_TxIn msg))
    (map (fun to => mkTxOut (Value to) (PkScript to)) (tx_TxOut msg))
    (tx_LockTime msg).

(** * Well-formed transactions

    The ranges of the machine types and the limits of the decoder. *)
Definition wf_txin (ti : TxIn) : Prop :=
  length (Hash (PreviousOutPoint ti)) = 32%nat /\ bytes_ok (Hash (PreviousOutPoint ti)) /\
  is_u 32 (Index (PreviousOutPoint ti)) /\ bytes_ok (SignatureScript ti) /\
  len (SignatureScript ti) <= MaxMessagePayload /\ is_u 32 (Sequence ti).

Definition wf_txout (to : TxOut) : Prop :=
  is_s 64 (Value to) /\ bytes_ok (PkScript to) /\ len (PkScript to) <= MaxMessagePayload.

Definition wf_tx (msg : MsgTx) : Prop :=
  is_s 32 (tx_Version msg) /\ Forall wf_txin (tx_TxIn msg) /\ Forall wf_txout (tx_TxOut msg) /\
  is_u 32 (tx_LockTime msg) /\ len (tx_TxIn msg) <= maxTxInPerMessage /\
  len (tx_TxOut msg) <= maxTxOutPerMessage.

(** The transaction without its signature scripts. *)
Definition strip_tx (msg : MsgTx) : MsgTx :=
  mkMsgTx (tx_Version msg) (map (fun ti => set_SignatureScript ti []) (tx_TxIn msg))
    (tx_TxOut msg) (tx_LockTime msg).

(** * Codecs

    A reader and a writer that undo each other: reading what was written gives
    the value back, and what is read was written by the writer, so the encoding
    is canonical. *)
Class Codec {A} (read : reader A) (write : A -> bytes) (wf : A -> Prop) : Prop := {
  codec_read : forall x rest, wf x -> read (write x ++ rest) = Ok (x, rest);
  codec_inv : forall r x rest, bytes_ok r -> read r = Ok (x, rest) ->
              wf x /\ r = write x ++ rest;
}.

Lemma codec_rest_ok {A} {read : reader A} {write wf} `{!Codec read write wf} r x rest :
  bytes_ok r -> read r = Ok (x, rest) -> bytes_ok rest.
Proof. intros Hok H. apply codec_inv in H as [_ ->]; [|done]. by apply bytes_ok_app in Hok as [_ ?]. Qed.

(** [read_inv H] peels the first read off [H : mbind _ (read r) = Ok _]. *)
Ltac read_inv H Hwf Hr :=
  apply bind_Ok in H as ([? ?] & Hr & H);
  lazymatch type of Hr with
  | ?f ?r = Ok (?x, ?rest) =>
      assert (bytes_ok rest) by (eapply (codec_rest_ok (read := f)); eassumption);
      apply (codec_inv (read := f)) in Hr as [Hwf Hr]; [|assumption]
  end.

#[global] Instance readFull_codec n : 0 <= n ->
  Codec (readFull n) (fun b => b) (fun b => len b = n /\ bytes_ok b).
Proof.
  intros Hn. split.
  - intros x rest [Hl Hok]. unfold readFull. rewrite len_app. pose proof (len_nonneg rest).
    replace (n <=? len x + len rest) with true by lia.
    assert (Z.to_nat n = length x) as -> by (unfold len in Hl; lia).
    by rewrite take_app_length, drop_app_length.
  - intros r x rest Hok H. unfold readFull in H. destruct (Z.leb_spec n (len r)); [|done].
    injection H as <- <-. rewrite take_drop. split; [|done]. split; [|by apply bytes_ok_take].
    unfold len in *. rewrite length_take. lia.
Qed.

#[global] Instance readUint_codec n : Codec (readUint n) (putUint n) (is_u (8 * Z.of_nat n)).
Proof.
  assert (256 ^ Z.of_nat n = 2 ^ (8 * Z.of_nat n)) as Hp by (rewrite Z.pow_mul_r by lia; done).
  pose proof (readFull_codec (Z.of_nat n) ltac:(lia)) as Hc. split.
  - intros x rest Hx. unfold readUint, putUint.
    pose proof (@codec_read _ _ _ _ Hc (le_encode n x) rest) as Hr. cbv beta in Hr.
    rewrite Hr by (unfold len; rewrite length_le_encode; auto with go).
    cbn [mbind res_bind]. rewrite le_decode_encode, Hp, Z.mod_small by done. done.
  - intros r x rest Hok H. unfold readUint in H. apply bind_Ok in H as ([b r'] & Hr & H).
    apply codec_inv in Hr as [[Hl Hb] ->]; [|done]. injection H as <- <-.
    pose proof (le_decode_range b Hb) as Hd. rewrite Hl, Hp in Hd. split; [done|].
    unfold putUint. replace n with (length b) by (unfold len in Hl; lia).
    by rewrite le_encode_decode.
Qed.

#[global] Instance ReadVarInt_codec : Codec ReadVarInt WriteVarInt (is_u 64).
Proof.
  split.
  - intros x rest Hx. unfold is_u in Hx. unfold ReadVarInt, WriteVarInt.
    destruct (Z.ltb_spec x 0xfd); [|destruct (Z.leb_spec x (2 ^ 16 - 1)); [|destruct (Z.leb_spec x (2 ^ 32 - 1))]].
    + rewrite wrapu_small, codec_read by (unfold is_u; lia). cbn [mbind res_bind].
      replace (x =? 255) with false by lia. replace (x =? 254) with false by lia.
      by replace (x =? 253) with false by lia.
    + rewrite wrapu_small, <- app_assoc, codec_read by (unfold is_u; lia). cbn [mbind res_bind].
      change (253 =? 255) with false. change (253 =? 254) with false. change (253 =? 253) with true.
      cbv iota. rewrite codec_read by (unfold is_u; lia). cbn [mbind res_bind].
      by replace (x <? 253) with false by lia.
    + rewrite wrapu_small, <- app_assoc, codec_read by (unfold is_u; lia). cbn [mbind res_bind].
      change (254 =? 255) with false. change (254 =? 254) with true. cbv iota.
      rewrite codec_read by (unfold is_u; lia). cbn [mbind res_bind].
      by replace (x <? 0x10000) with false by lia.
    + rewrite <- app_assoc, codec_read by (unfold is_u; lia). cbn [mbind res_bind].
      change (255 =? 255) with true. cbv iota.
      rewrite codec_read by (unfold is_u; lia). cbn [mbind res_bind].
      by replace (x <? 0x100000000) with false by lia.
  - intros r x rest Hok H. unfold ReadVarInt in H.
    apply bind_Ok in H as ([d r1] & Hr & H). pose proof (codec_rest_ok _ _ _ Hok Hr).
    apply codec_inv in Hr as [Hd ->]; [|done]. change (8 * Z.of_nat 1) with 8 in Hd. unfold is_u in Hd.
    unfold WriteVarInt.
    destruct (Z.eqb_spec d 0xff) as [->|]; [|destruct (Z.eqb_spec d 0xfe) as [->|];
      [|destruct (Z.eqb_spec d 0xfd) as [->|]]].
    1-3: apply bind_Ok in H as ([v r2] & Hr2 & H); apply codec_inv in Hr2 as [Hv ->]; [|done];
      unfold is_u in *.
    + change (8 * Z.of_nat 8) with 64 in Hv. destruct (Z.ltb_spec v 0x100000000); [done|].
      injection H as <- <-. split; [done|]. replace (v <? 253) with false by lia.
      replace (v <=? 2 ^ 16 - 1) with false by lia. replace (v <=? 2 ^ 32 - 1) with false by lia.
      by rewrite <- app_assoc.
    + change (8 * Z.of_nat 4) with 32 in Hv. destruct (Z.ltb_spec v 0x10000); [done|].
      injection H as <- <-. split; [lia|]. replace (v <? 253) with false by lia.
      replace (v <=? 2 ^ 16 - 1) with false by lia. replace (v <=? 2 ^ 32 - 1) with true by lia.
      rewrite wrapu_small by (unfold is_u; lia). by rewrite <- app_assoc.
    + change (8 * Z.of_nat 2) with 16 in Hv. destruct (Z.ltb_spec v 0xfd); [done|].
      injection H as <- <-. split; [lia|]. replace (v <? 253) with false by lia.
      replace (v <=? 2 ^ 16 - 1) with true by lia.
      rewrite wrapu_small by (unfold is_u; lia). by rewrite <- app_assoc.
    + injection H as <- <-. unfold is_u in *. split; [lia|]. replace (d <? 253) with true by lia.
      by rewrite wrapu_small by (unfold is_u; lia).
Qed.

#[global] Instance readScript_codec maxAllowed : 0 <= maxAllowed < 2 ^ 64 ->
  Codec (readScript maxAllowed) WriteVarBytes (fun b => bytes_ok b /\ len b <= maxAllowed).
Proof.
  intros Hm. split.
  - intros b rest [Hok Hl]. unfold readScript, WriteVarBytes. pose proof (len_nonneg b).
    rewrite <- app_assoc, codec_read by (unfold is_u; lia). cbn [mbind res_bind].
    replace (maxAllowed <? len b) with false by lia.
    by rewrite (@codec_read _ _ _ _ (readFull_codec (len b) ltac:(lia))).
  - intros r b rest Hok H. unfold readScript in H.
    apply bind_Ok in H as ([n r1] & Hr & H). pose proof (codec_rest_ok _ _ _ Hok Hr).
    apply codec_inv in Hr as [Hd ->]; [|done]. unfold is_u in Hd.
    destruct (Z.ltb_spec maxAllowed n); [done|].
    apply (@codec_inv _ _ _ _ (readFull_codec n ltac:(lia))) in H as [[Hl Hb] ->]; [|done].
    unfold WriteVarBytes. rewrite Hl, <- app_assoc. split; [|done]. split; [done | lia].
Qed.

#[global] Instance readOutPoint_codec :
  Codec readOutPoint writeOutPoint
    (fun op => length (Hash op) = 32%nat /\ bytes_ok (Hash op) /\ is_u 32 (Index op)).
Proof.
  split.
  - intros [h i] rest (Hl & Hok & Hi). unfold readOutPoint, writeOutPoint. cbn [Hash Index] in *.
    pose proof (@codec_read _ _ _ _ (readFull_codec HashSize ltac:(done)) h (putUint 4 i ++ rest)) as Hr.
    cbv beta in Hr. rewrite <- app_assoc, Hr by (unfold len; rewrite Hl; done).
    cbn [mbind res_bind]. by rewrite codec_read.
  - intros r op rest Hok H. unfold readOutPoint in H. apply bind_Ok in H as ([h r1] & Hr & H).
    apply (@codec_inv _ _ _ _ (readFull_codec HashSize ltac:(done))) in Hr as [[Hl Hh] ->]; [|done].
    apply bytes_ok_app in Hok as [_ Hok].
    apply bind_Ok in H as ([i r2] & Hr & H). apply codec_inv in Hr as [Hi ->]; [|done].
    injection H as <- <-. unfold writeOutPoint. cbn. rewrite <- app_assoc.
    split; [|done]. split_and!; [unfold len, HashSize in Hl; lia | done | done].
Qed.

Lemma MaxMessagePayload_range : 0 <= MaxMessagePayload < 2 ^ 64.
Proof. done. Qed.

#[global] Instance readTxIn_codec : Codec readTxIn (fun ti => writeTxIn ti false) wf_txin.
Proof.
  pose proof (readScript_codec MaxMessagePayload MaxMessagePayload_range) as Hc. split.
  - intros [op s q] rest (Hl & Hok & Hi & Hs & Hsl & Hq). 
    unfold readTxIn, writeTxIn. cbn [PreviousOutPoint SignatureScript Sequence] in *.
    rewrite <- !app_assoc, codec_read by done. cbn [mbind res_bind].
    rewrite codec_read by done. cbn [mbind res_bind]. by rewrite codec_read.
  - intros r ti rest Hok H. unfold readTxIn in H.
    read_inv H Hop Hr1. read_inv H Hs Hr2. read_inv H Hq Hr3. injection H as <- <-.
    unfold writeTxIn, wf_txin.
    cbn [PreviousOutPoint SignatureScript Sequence]. rewrite <- !app_assoc. subst. split; [naive_solver | done].
Qed.

#[global] Instance readTxOut_codec : Codec readTxOut WriteTxOut wf_txout.
Proof.
  pose proof (readScript_codec MaxMessagePayload MaxMessagePayload_range) as Hc. split.
  - intros [v s] rest (Hv & Hs & Hsl). unfold readTxOut, WriteTxOut. cbn [Value PkScript] in *.
    rewrite <- !app_assoc, codec_read by (apply wrapu_range; lia). cbn [mbind res_bind].
    rewrite codec_read by done. cbn [mbind res_bind]. do 3 f_equal.
    by apply wraps_wrapu.
  - intros r to rest Hok H. unfold readTxOut in H.
    read_inv H Hv Hr1. read_inv H Hs Hr2. injection H as <- <-.
    unfold WriteTxOut, wf_txout. cbn [Value PkScript]. rewrite <- !app_assoc. subst.
    split; [split; [apply wraps_range; lia | done]|]. by rewrite wrapu_wraps.
Qed.

#[global] Instance readMany_codec {A} (f : reader A) write wf n `{!Codec f write wf} :
  Codec (readMany f n) (fun l => concat (map write l)) (fun l => length l = n /\ Forall wf l).
Proof.
  split.
  - intros l rest [Hl Hwf]. revert n Hl. induction Hwf as [|x l Hx Hl IH]; intros n <-; [done|].
    cbn [length readMany map concat]. rewrite <- app_assoc, codec_read by done. cbn [mbind res_bind].
    by rewrite IH by done.
  - induction n as [|n IH]; intros r l rest Hok H; cbn [readMany] in H.
    + injection H as <- <-. by split.
    + apply bind_Ok in H as ([x r1] & Hr & H). pose proof (codec_rest_ok _ _ _ Hok Hr) as Hok1.
      apply codec_inv in Hr as [Hx ->]; [|done].
      apply bind_Ok in H as ([xs r2] & Hr & H). apply IH in Hr as [[Hl Hwf] ->]; [|done].
      injection H as <- <-. cbn [map concat length]. rewrite <- app_assoc. split; [|done].
      split; [by f_equal | by constructor].
Qed.

(** * The contiguous script buffer *)

Fixpoint locs_from (offset : Z) (ss : list bytes) : list (Z * Z) :=
  match ss with
  | [] => []
  | s :: ss => (offset, offset + len s) :: locs_from (offset + len s) ss
  end.

Lemma sum_len_concat (ss : list bytes) : sum (map len ss) = len (concat ss).
Proof. induction ss as [|s ss IH]; cbn [map sum concat fold_right]; [done|]. rewrite len_app. unfold sum in IH. lia. Qed.

Lemma copy_scripts_spec ss : forall pre,
  copy_scripts (pre ++ replicate (length (concat ss)) 0) (len pre) ss =
  Ok (pre ++ concat ss, locs_from (len pre) ss).
Proof.
  induction ss as [|s ss IH]; intros pre; cbn [copy_scripts concat locs_from length]; [done|].
  rewrite length_app, replicate_add.
  rewrite copy_at_full by (by rewrite length_replicate). cbn [mbind res_bind].
  replace (len pre + len s) with (len (pre ++ s)) by (by rewrite len_app).
  rewrite app_assoc, IH. cbn [mbind res_bind]. by rewrite <- app_assoc.
Qed.

Lemma subslices_spec ss : forall pre,
  subslices (pre ++ concat ss) (locs_from (len pre) ss) = Ok ss.
Proof.
  induction ss as [|s ss IH]; intros pre; cbn [subslices concat locs_from]; [done|].
  assert (slice (pre ++ s ++ concat ss) (len pre) (len pre + len s) = @Ok string _ s) as ->.
  { apply slice_Ok. rewrite !len_app. pose proof (len_nonneg pre). pose proof (len_nonneg s).
    pose proof (len_nonneg (concat ss)). split_and!; [lia..|]. unfold len.
    rewrite Nat2Z.id, drop_app_length. replace (Z.to_nat _) with (length s) by lia.
    by rewrite take_app_length. }
  cbn [mbind res_bind]. rewrite app_assoc. rewrite <- len_app. by rewrite IH.
Qed.

Lemma relocate_spec ss : relocate ss = Ok ss.
Proof.
  unfold relocate, make_bytes. rewrite sum_len_concat.
  replace (len (concat ss) <? 0) with false by (pose proof (len_nonneg (concat ss)); lia).
  cbn [mbind res_bind]. unfold len at 1. rewrite Nat2Z.id.
  pose proof (copy_scripts_spec ss []) as Hc. cbn [app] in Hc. change (len []) with 0 in Hc.
  rewrite Hc. cbn [mbind res_bind]. apply (subslices_spec ss []).
Qed.

Lemma reset_scripts_in l ss :
  zip_with set_SignatureScript l (map SignatureScript l ++ ss) = l.
Proof. induction l as [|[] l IH]; cbn; [done|]. unfold set_SignatureScript at 1. cbn. by rewrite IH. Qed.

Lemma reset_scripts_out l : zip_with set_PkScript l (map PkScript l) = l.
Proof. induction l as [|[] l IH]; cbn; [done|]. unfold set_PkScript at 1. cbn. by rewrite IH. Qed.

#[global] Instance BtcDecode_codec : Codec BtcDecode Serialize wf_tx.
Proof.
  split.
  - intros tx rest (Hv & Hin & Hout & Hlt & Hni & Hno). unfold BtcDecode, Serialize, btcEncode.
    pose proof (len_nonneg (tx_TxIn tx)). pose proof (len_nonneg (tx_TxOut tx)).
    unfold maxTxInPerMessage, maxTxOutPerMessage in *.
    change (MaxMessagePayload / minTxInPayload + 1) with 818401 in *.
    change (MaxMessagePayload / minTxOutPayload + 1) with 3728271 in *.
    rewrite <- !app_assoc, codec_read by (apply wrapu_range; lia). cbn [mbind res_bind].
    rewrite codec_read by (unfold is_u; lia). cbn [mbind res_bind].
    replace (818401 <? _) with false by lia.
    rewrite (@codec_read _ _ _ _ (readMany_codec _ _ _ _)) by (split; [unfold len; lia | done]).
    cbn [mbind res_bind]. rewrite codec_read by (unfold is_u; lia). cbn [mbind res_bind].
    replace (3728271 <? _) with false by lia.
    rewrite (@codec_read _ _ _ _ (readMany_codec _ _ _ _)) by (split; [unfold len; lia | done]).
    cbn [mbind res_bind]. rewrite codec_read by done. cbn [mbind res_bind].
    rewrite relocate_spec. cbn [mbind res_bind].
    rewrite reset_scripts_in, drop_app_length', reset_scripts_out by (by rewrite length_map).
    rewrite wraps_wrapu by done. by destruct tx.
  - intros r tx rest Hok H. unfold BtcDecode in H.
    read_inv H Hv Hr1. read_inv H Hni Hr2. case_match eqn:Hmi; [done|].
    read_inv H Hin Hr3. read_inv H Hno Hr4. case_match eqn:Hmo; [done|].
    read_inv H Hout Hr5. read_inv H Hlt Hr6.
    rewrite relocate_spec in H. cbn [mbind res_bind] in H.
    rewrite reset_scripts_in, drop_app_length', reset_scripts_out in H by (by rewrite length_map).
    injection H as <- <-. destruct Hin as [Hl1 Hin], Hout as [Hl2 Hout]. unfold is_u in *.
    unfold wf_tx, Serialize, btcEncode. cbn [tx_Version tx_TxIn tx_TxOut tx_LockTime].
    assert (forall A (l : list A) z, length l = Z.to_nat z -> 0 <= z -> len l = z) as Hlen
      by (intros A l' z' ? ?; unfold len; lia).
    rewrite (Hlen _ _ _ Hl1), (Hlen _ _ _ Hl2) by lia. split.
    + split_and!; try done; try lia. apply wraps_range; lia.
    + subst. rewrite wrapu_wraps by done. by rewrite <- !app_assoc.
Qed.

(** * Sizes *)

Lemma len_WriteVarInt n : len (WriteVarInt n) = VarIntSerializeSize n.
Proof.
  unfold WriteVarInt, VarIntSerializeSize, putUint. unfold len.
  repeat case_if; rewrite ?length_app, !length_le_encode; done.
Qed.

Lemma len_putUint n v : len (putUint n v) = Z.of_nat n.
Proof. unfold len, putUint. by rewrite length_le_encode. Qed.

Lemma len_writeTxIn ti :
  length (Hash (PreviousOutPoint ti)) = 32%nat ->
  len (writeTxIn ti false) = TxIn_SerializeSize ti /\ len (writeTxIn ti true) = StrippedTxInSize.
Proof.
  intros Hl. unfold writeTxIn, writeOutPoint, WriteVarBytes, TxIn_SerializeSize, StrippedTxInSize.
  assert (len (Hash (PreviousOutPoint ti)) = 32) as Hh by (unfold len; lia).
  rewrite !len_app, !len_putUint, !len_WriteVarInt, Hh.
  change (VarIntSerializeSize 0) with 1. split; lia.
Qed.

Lemma len_WriteTxOut to : len (WriteTxOut to) = TxOut_SerializeSize to.
Proof.
  unfold WriteTxOut, WriteVarBytes, TxOut_SerializeSize.
  rewrite !len_app, len_putUint, len_WriteVarInt. lia.
Qed.

Lemma len_concat_map {A} (f : A -> bytes) (g : A -> Z) l :
  Forall (fun x => len (f x) = g x) l -> len (concat (map f l)) = sum (map g l).
Proof.
  induction 1 as [|x l Hx _ IH]; cbn [map concat sum fold_right]; [done|].
  rewrite len_app, Hx. unfold sum in IH. lia.
Qed.

Lemma sum_const {A} k (l : list A) : sum (map (fun _ => k) l) = k * len l.
Proof.
  induction l as [|x l IH]; cbn [map sum fold_right]; [change (len (@nil A)) with 0; lia|].
  rewrite len_cons. unfold sum in IH. lia.
Qed.

Lemma len_btcEncode msg strip :
  Forall (fun ti => length (Hash (PreviousOutPoint ti)) = 32%nat) (tx_TxIn msg) ->
  len (btcEncode msg strip) = serializeSize msg strip.
Proof.
  intros H. unfold btcEncode, serializeSize.
  rewrite !len_app, !len_putUint, !len_WriteVarInt.
  rewrite (len_concat_map WriteTxOut TxOut_SerializeSize)
    by (apply Forall_forall; intros; apply len_WriteTxOut).
  destruct strip.
  - rewrite (len_concat_map _ (fun _ => StrippedTxInSize)), sum_const; [lia|].
    eapply Forall_impl; [exact H|]. cbv beta. intros ti Hl. by apply len_writeTxIn.
  - rewrite (len_concat_map _ TxIn_SerializeSize); [lia|].
    eapply Forall_impl; [exact H|]. cbv beta. intros ti Hl. by apply len_writeTxIn.
Qed.

(** Each location is where the script of that output starts. *)
Lemma pkScriptLocs_loop_spec outs : forall pre post i out,
  outs !! i = Some out ->
  exists loc, pkScriptLocs_loop (len pre) outs !! i = Some loc /\
    slice (pre ++ concat (map WriteTxOut outs) ++ post) loc (loc + len (PkScript out)) =
    @Ok string bytes (PkScript out).
Proof.
  induction outs as [|o outs IH]; intros pre post i out Hi; [done|].
  cbn [pkScriptLocs_loop map concat].
  set (hd := putUint 8 (u64 (Value o)) ++ WriteVarInt (len (PkScript o))).
  assert (len pre + 8 + VarIntSerializeSize (len (PkScript o)) = len (pre ++ hd)) as ->
    by (unfold hd; rewrite !len_app, len_putUint, len_WriteVarInt; lia).
  assert (WriteTxOut o = hd ++ PkScript o) as Ho
    by (unfold WriteTxOut, WriteVarBytes, hd; by rewrite <- app_assoc).
  destruct i as [|i]; cbn in Hi.
  - injection Hi as ->. eexists. split; [done|]. rewrite Ho, <- !app_assoc, (app_assoc pre hd).
    generalize (pre ++ hd) as q. intros q. apply slice_Ok. rewrite !len_app.
    pose proof (len_nonneg q). pose proof (len_nonneg (PkScript out)).
    pose proof (len_nonneg (concat (map WriteTxOut outs))). pose proof (len_nonneg post).
    split_and!; [lia..|]. unfold len. rewrite Nat2Z.id, drop_app_length.
    replace (Z.to_nat _) with (length (PkScript out)) by lia. by rewrite take_app_length.
  - destruct (IH (pre ++ WriteTxOut o) post i out Hi) as (loc & Hloc & Hs). exists loc.
    rewrite Ho, app_assoc, len_app in Hloc. rewrite len_app in *.
    split; [exact Hloc|]. by rewrite <- app_assoc in *.
Qed.

Lemma strip_wf msg : wf_tx msg -> wf_tx (strip_tx msg).
Proof.
  intros (Hv & Hin & Hout & Hlt & Hni & Hno). unfold wf_tx, strip_tx. cbn.
  split_and!; try done.
  - apply Forall_map. eapply Forall_impl; [exact Hin|]. intros ti (? & ? & ? & ? & ? & ?).
    unfold wf_txin, set_SignatureScript. cbn. split_and!; try done. constructor.
  - unfold len in *. by rewrite length_map.
Qed.

Lemma SerializeStripped_strip msg : SerializeStripped msg = Serialize (strip_tx msg).
Proof.
  unfold SerializeStripped, Serialize, btcEncode, strip_tx. cbn.
  unfold len at 3. rewrite length_map, map_map. done.
Qed.

(** A small transaction for the examples: one input, two outputs. *)
Definition example_tx : MsgTx :=
  mkMsgTx 1 [mkTxIn (mkOutPoint (replicate 32 5) 1) [1; 2; 3] MaxTxInSequenceNum]
    [mkTxOut 1000 [81; 186]; mkTxOut 7 []] 0.

Lemma wf_example_tx : wf_tx example_tx.
Proof.
  unfold wf_tx, example_tx. cbn [tx_Version tx_TxIn tx_TxOut tx_LockTime].
  split_and!; [unfold is_s; lia | | | unfold is_u; lia | vm_compute; discriminate..].
  - constructor; [|constructor]. unfold wf_txin. cbn.
    split_and!; [done | apply bytesb_ok; reflexivity | unfold is_u; lia | apply bytesb_ok; reflexivity
                | vm_compute; discriminate | unfold is_u, MaxTxInSequenceNum; lia].
  - repeat constructor; cbn; unfold is_byte; try lia; vm_compute; discriminate.
Qed.

(** ** The properties of the component *)

(** A serialized transaction is read back, whatever follows it. *)
Theorem tx_roundtrip msg rest :
  wf_tx msg -> Deserialize (Serialize msg ++ rest) = Ok (msg, rest).
Proof. apply codec_read. Qed.

(** The transaction encoding is canonical: whatever the decoder accepts is
    a well-formed transaction, and serializing it gives exactly the bytes that
    were consumed. *)
Theorem tx_canonical r msg rest :
  bytes_ok r -> Deserialize r = Ok (msg, rest) -> wf_tx msg /\ r = Serialize msg ++ rest.
Proof. apply codec_inv. Qed.

(** The size functions predict the length of the encodings, with and
    without signature scripts, and [PkScriptLocs] gives for every output the
    offset of its script in the serialized transaction. *)
Theorem tx_sizes msg :
  wf_tx msg ->
  SerializeSize msg = len (Serialize msg) /\
  SerializeSizeStripped msg = len (SerializeStripped msg) /\
  length (PkScriptLocs msg) = length (tx_TxOut msg) /\
  forall i out, tx_TxOut msg !! i = Some out ->
  exists loc, PkScriptLocs msg !! i = Some loc /\
    slice (Serialize msg) loc (loc + len (PkScript out)) = @Ok string bytes (PkScript out).
Proof.
  intros (_ & Hin & _).
  assert (Forall (fun ti => length (Hash (PreviousOutPoint ti)) = 32%nat) (tx_TxIn msg)) as Hh
    by (eapply Forall_impl; [exact Hin|]; intros ti (? & _); done).
  split_and!; [symmetry; by apply len_btcEncode.. | |].
  - assert (forall outs n, length (pkScriptLocs_loop n outs) = length outs) as Hlen
      by (induction outs; intros; cbn; auto).
    unfold PkScriptLocs. case_if; [|apply Hlen]. by destruct (tx_TxOut msg).
  - intros i out Hi. unfold PkScriptLocs.
    assert (len (tx_TxOut msg) =? 0 = false) as ->.
    { apply lookup_lt_Some in Hi. unfold len. lia. }
    set (pre := putUint 4 (u32 (tx_Version msg)) ++ WriteVarInt (len (tx_TxIn msg)) ++
       concat (map (fun ti => writeTxIn ti false) (tx_TxIn msg)) ++ WriteVarInt (len (tx_TxOut msg))).
    destruct (pkScriptLocs_loop_spec (tx_TxOut msg) pre (putUint 4 (tx_LockTime msg)) i out Hi)
      as (loc & Hloc & Hs).
    exists loc. split.
    + rewrite <- Hloc. f_equal. f_equal. unfold pre. rewrite !len_app, len_putUint, !len_WriteVarInt.
      rewrite (len_concat_map _ TxIn_SerializeSize); [lia|].
      eapply Forall_impl; [exact Hh|]. cbv beta. intros ti Hl. by apply len_writeTxIn.
    + rewrite <- Hs. unfold Serialize, btcEncode, pre. by rewrite <- !app_assoc.
Qed.

(** The message hashed into a transaction id covers everything but the
    signature scripts: two transactions have the same stripped serialization
    exactly when they are equal up to their signature scripts, so replacing a
    signature script never changes the id. *)
Theorem stripped_serialization_injective m1 m2 :
  wf_tx m1 -> wf_tx m2 ->
  (SerializeStripped m1 = SerializeStripped m2 <-> strip_tx m1 = strip_tx m2).
Proof.
  intros H1 H2. rewrite !SerializeStripped_strip. split; [|by intros ->].
  intros H. apply strip_wf in H1, H2.
  pose proof (codec_read (strip_tx m1) [] H1) as E1.
  pose proof (codec_read (strip_tx m2) [] H2) as E2.
  rewrite H, E2 in E1. congruence.
Qed.

End wire.
