(* ===== verification/Crypto.v ===== *)
(** Hash functions and signatures: what [src/chaincfg/chainhash/hashfuncs.go],
    [src/provautil/hash160.go], [src/btcec/signature.go] and the hashing opcodes
    use.

    SHA-256 and SHA-1 are defined here after the standard (FIPS 180-4), as the
    Go library implements them.  RIPEMD-160 is an external package and
    signature verification is elliptic curve arithmetic: both are operations of
    the class [Primitives], with the documented digest length as its law. *)
From S2P Require Import Prelude PubKey.
Import btcec.
#[local] Open Scope Z_scope.

Module Crypto.

(** * SHA-256 *)
Definition rotr (x n : Z) : Z := Z.lor (x ≫ n) (u32 (x ≪ (32 - n))).
Definition rotl (x n : Z) : Z := Z.lor (u32 (x ≪ n)) (x ≫ (32 - n)).
Definition not32 (x : Z) : Z := Z.lxor x 0xffffffff.

(** The largest [r] with [r ^ k <= m], bit by bit from [n] down. *)
Fixpoint root_floor (k : Z) (n : nat) (m r : Z) : Z :=
  match n with
  | O => r
  | S n =>
      let r' := r + 2 ^ Z.of_nat n in
      root_floor k n m (if r' ^ k <=? m then r' else r)
  end.

(** The first 64 primes. *)
Definition sha256_primes : list Z :=
  List.filter (fun p => forallb (fun d => negb (p mod d =? 0)) (seqZ 2 (p - 2))) (seqZ 2 310).

(** The round constants: the first 32 bits of the fractional parts of the cube
    roots of the primes; the initial state is made likewise of square roots. *)
Definition sha256_K : list Z :=
  Eval vm_compute in map (fun p => u32 (root_floor 3 40 (p * 2 ^ 96) 0)) sha256_primes.

Record words8 := W8 { wa : Z; wb : Z; wc : Z; wd : Z; we : Z; wf : Z; wg : Z; wh : Z }.

Definition sha256_H : words8 :=
  Eval vm_compute in
    match map (fun p => u32 (root_floor 2 40 (p * 2 ^ 64) 0)) sha256_primes with
    | h0 :: h1 :: h2 :: h3 :: h4 :: h5 :: h6 :: h7 :: _ => W8 h0 h1 h2 h3 h4 h5 h6 h7
    | _ => W8 0 0 0 0 0 0 0 0
    end.

Definition word (l : list Z) (i : nat) : Z := nth i l 0.

(** The message schedule, last word first. *)
Fixpoint sha256_schedule (n : nat) (rev_w : list Z) : list Z :=
  match n with
  | O => rev_w
  | S n =>
      let x := word rev_w 14 in
      let s0 := Z.lxor (Z.lxor (rotr x 7) (rotr x 18)) (x ≫ 3) in
      let y := word rev_w 1 in
      let s1 := Z.lxor (Z.lxor (rotr y 17) (rotr y 19)) (y ≫ 10) in
      sha256_schedule n (u32 (word rev_w 15 + s0 + word rev_w 6 + s1) :: rev_w)
  end.

Definition sha256_round (s : words8) (kw : Z * Z) : words8 :=
  let '(k, w) := kw in
  let '(W8 a b c d e f g h) := s in
  let S1 := Z.lxor (Z.lxor (rotr e 6) (rotr e 11)) (rotr e 25) in
  let ch := Z.lxor (Z.land e f) (Z.land (not32 e) g) in
  let t1 := u32 (h + S1 + ch + k + w) in
  let S0 := Z.lxor (Z.lxor (rotr a 2) (rotr a 13)) (rotr a 22) in
  let maj := Z.lxor (Z.lxor (Z.land a b) (Z.land a c)) (Z.land b c) in
  let t2 := u32 (S0 + maj) in
  W8 (u32 (t1 + t2)) a b c (u32 (d + t1)) e f g.

(** The big-endian 32-bit words of a block. *)
Fixpoint be_words (n : nat) (b : bytes) : list Z :=
  match n with
  | O => []
  | S n => be_decode (take 4 b) :: be_words n (drop 4 b)
  end.

Definition sha256_block (s : words8) (block : bytes) : words8 :=
  let w := rev (sha256_schedule 48 (rev (be_words 16 block))) in
  let '(W8 a b c d e f g h) := fold_left sha256_round (combine sha256_K w) s in
  W8 (u32 (wa s + a)) (u32 (wb s + b)) (u32 (wc s + c)) (u32 (wd s + d))
     (u32 (we s + e)) (u32 (wf s + f)) (u32 (wg s + g)) (u32 (wh s + h)).

Fixpoint hash_blocks {S} (step : S -> bytes -> S) (n : nat) (s : S) (b : bytes) : S :=
  match n with
  | O => s
  | Datatypes.S n => hash_blocks step n (step s (take 64 b)) (drop 64 b)
  end.

(** The message, a one bit, zeros up to 56 modulo 64 and the bit length. *)
Definition md_pad (b : bytes) : bytes :=
  b ++ [0x80] ++ replicate (Z.to_nat ((55 - len b) mod 64)) 0 ++ be_encode 8 (8 * len b).

Definition sha256 (b : bytes) : bytes :=
  let m := md_pad b in
  let s := hash_blocks sha256_block (Z.to_nat (len m / 64)) sha256_H m in
  be_encode 4 (wa s) ++ be_encode 4 (wb s) ++ be_encode 4 (wc s) ++ be_encode 4 (wd s) ++
  be_encode 4 (we s) ++ be_encode 4 (wf s) ++ be_encode 4 (wg s) ++ be_encode 4 (wh s).

(** * SHA-1 *)
Record words5 := W5 { va : Z; vb : Z; vc : Z; vd : Z; ve : Z }.

Definition sha1_H : words5 := W5 0x67452301 0xefcdab89 0x98badcfe 0x10325476 0xc3d2e1f0.

Fixpoint sha1_schedule (n : nat) (rev_w : list Z) : list Z :=
  match n with
  | O => rev_w
  | S n =>
      let x := Z.lxor (Z.lxor (word rev_w 2) (word rev_w 7)) (Z.lxor (word rev_w 13) (word rev_w 15)) in
      sha1_schedule n (rotl x 1 :: rev_w)
  end.

Definition sha1_round (s : words5) (tw : nat * Z) : words5 :=
  let '(t, w) := tw in
  let '(W5 a b c d e) := s in
  let '(f, k) :=
    if (t <? 20)%nat then (Z.lor (Z.land b c) (Z.land (not32 b) d), 0x5a827999)
    else if (t <? 40)%nat then (Z.lxor (Z.lxor b c) d, 0x6ed9eba1)
    else if (t <? 60)%nat
    then (Z.lor (Z.lor (Z.land b c) (Z.land b d)) (Z.land c d), 0x8f1bbcdc)
    else (Z.lxor (Z.lxor b c) d, 0xca62c1d6) in
  W5 (u32 (rotl a 5 + f + e + k + w)) a (rotl b 30) c d.

Definition sha1_block (s : words5) (block : bytes) : words5 :=
  let w := rev (sha1_schedule 64 (rev (be_words 16 block))) in
  let '(W5 a b c d e) := fold_left sha1_round (combine (seq 0 80) w) s in
  W5 (u32 (va s + a)) (u32 (vb s + b)) (u32 (vc s + c)) (u32 (vd s + d)) (u32 (ve s + e)).

Definition sha1 (b : bytes) : bytes :=
  let m := md_pad b in
  let s := hash_blocks sha1_block (Z.to_nat (len m / 64)) sha1_H m in
  be_encode 4 (va s) ++ be_encode 4 (vb s) ++ be_encode 4 (vc s) ++ be_encode 4 (vd s) ++
  be_encode 4 (ve s).

(** * Hashes of the code *)
Definition HashB (b : bytes) : bytes := sha256 b.
Definition DoubleHashB (b : bytes) : bytes := sha256 (sha256 b).
Definition DoubleHashH (b : bytes) : bytes := sha256 (sha256 b).

(** * Signatures (signature.go) *)
Record Signature := mkSignature { sig_R : Z; sig_S : Z }.

#[global] Instance Signature_eq_dec : EqDecision Signature.
Proof. solve_decision. Defined.

Definition Sig_IsEqual (sig otherSig : Signature) : bool :=
  (sig_R sig =? sig_R otherSig) && (sig_S sig =? sig_S otherSig).

(** RIPEMD-160 and ECDSA verification. *)
Class Primitives := {
  ripemd160 : bytes -> bytes;
  ripemd160_length : forall b, length (ripemd160 b) = 20%nat;
  ripemd160_ok : forall b, bytes_ok (ripemd160 b);
  Verify : Signature -> bytes -> PublicKey -> bool;
}.

Definition Hash160 `{Primitives} (buf : bytes) : bytes := ripemd160 (sha256 buf).

Lemma sha256_length b : length (sha256 b) = 32%nat.
Proof. unfold sha256. by rewrite !length_app, !length_be_encode. Qed.

Lemma sha256_ok b : bytes_ok (sha256 b).
Proof. unfold sha256. repeat (apply bytes_ok_app; split); apply be_encode_ok. Qed.

Lemma sha1_length b : length (sha1 b) = 20%nat.
Proof. unfold sha1. by rewrite !length_app, !length_be_encode. Qed.

Lemma sha1_ok b : bytes_ok (sha1 b).
Proof. unfold sha1. repeat (apply bytes_ok_app; split); apply be_encode_ok. Qed.

Lemma Hash160_length `{Primitives} b : length (Hash160 b) = 20%nat.
Proof. apply ripemd160_length. Qed.

Lemma Hash160_ok `{Primitives} b : bytes_ok (Hash160 b).
Proof. apply ripemd160_ok. Qed.

(** Concrete primitives, for evaluating the model on examples. *)
Definition example_primitives : Primitives := {|
  ripemd160 := fun b => replicate 20 (u8 (len b));
  ripemd160_length := fun b => length_replicate 20 _;
  ripemd160_ok := fun b => Forall_replicate _ 20 _ (u8_is_byte _);
  Verify := fun sig _ pk => sig_R sig =? X pk
|}.

Lemma Sig_IsEqual_eq a b : Sig_IsEqual a b = true <-> a = b.
Proof.
  unfold Sig_IsEqual. destruct a, b; simpl. rewrite andb_true_iff, !Z.eqb_eq. naive_solver.
Qed.

(** The test vectors of the standard for the message [abc]. *)
Lemma sha256_abc :
  sha256 [97; 98; 99] = be_encode 32 0xba7816bf8f01cfea414140de5dae2223b00361a396177a9cb410ff61f20015ad.
Proof. vm_compute. reflexivity. Qed.

Lemma sha1_abc :
  sha1 [97; 98; 99] = be_encode 20 0xa9993e364706816aba3e25717850c26c9cd0d89d.
Proof. vm_compute. reflexivity. Qed.

#[global] Opaque sha256 sha1.

End Crypto.
