(* ===== verification/Signature.v ===== *)
(** Serialization and parsing of ECDSA signatures: [src/btcec/signature.go]. *)
From S2P Require Import Prelude PubKey Crypto.
Import btcec Crypto.
#[local] Open Scope Z_scope.

Module Sig.

Definition order : Z := N.
Definition halforder : Z := order ≫ 1.

Definition canonicalizeInt (val : Z) : res string bytes :=
  let b := bigBytes val in
  let b := if len b =? 0 then [0x00] else b in
  b0 ← idx b 0;
  if negb (Z.land b0 0x80 =? 0) then Ok (0x00 :: b) else Ok b.

Inductive padding := padOk | errNegativeValue | errExcessivelyPaddedValue.

Definition canonicalPadding (b : bytes) : res string padding :=
  b0 ← idx b 0;
  if Z.land b0 0x80 =? 0x80 then Ok errNegativeValue
  else if (1 <? len b) && (b0 =? 0x00) then
    b1 ← idx b 1;
    if negb (Z.land b1 0x80 =? 0x80) then Ok errExcessivelyPaddedValue else Ok padOk
  else Ok padOk.

(** [make], the element assignments and the two copies of the code build the
    concatenation. *)
Definition Serialize (sig : Signature) : res string bytes :=
  let sigS := if halforder <? sig_S sig then order - sig_S sig else sig_S sig in
  rb ← canonicalizeInt (sig_R sig);
  sb ← canonicalizeInt sigS;
  let length := 6 + len rb + len sb in
  Ok ([0x30; u8 (length - 2); 0x02; u8 (len rb)] ++ rb ++ [0x02; u8 (len sb)] ++ sb).

(** The value of an integer of the signature; [who] is R or S. *)
Definition parseInt (der : bool) (negative padded : string) (b : bytes) : res string Z :=
  _ ← (if der then
         p ← canonicalPadding b;
         match p with
         | errNegativeValue => Err negative
         | errExcessivelyPaddedValue => Err padded
         | padOk => Ok ()
         end
       else Ok ());
  Ok (be_decode b).

(** The part of [parseSig] after the slice is trimmed to the announced length. *)
Definition parseSig_body (sigStr : bytes) (der : bool) : res string Signature :=
  m1 ← idx sigStr 2;
  if negb (m1 =? 0x02) then Err "malformed signature: no 1st int marker"
  else
  rLen ← idx sigStr 3;
  let index := 4 in
  if (rLen <=? 0) || (len sigStr - index - 3 <? rLen)
  then Err "malformed signature: bogus R length"
  else
  rBytes ← slice sigStr index (index + rLen);
  r ← parseInt der "signature R is negative" "signature R is excessively padded" rBytes;
  let index := index + rLen in
  m2 ← idx sigStr index;
  if negb (m2 =? 0x02) then Err "malformed signature: no 2nd int marker"
  else
  sLen ← idx sigStr (index + 1);
  let index := index + 2 in
  if (sLen <=? 0) || (len sigStr - index <? sLen)
  then Err "malformed signature: bogus S length"
  else
  sBytes ← slice sigStr index (index + sLen);
  s ← parseInt der "signature S is negative" "signature S is excessively padded" sBytes;
  let index := index + sLen in
  if negb (index =? len sigStr) then Err "malformed signature: bad final length"
  else if negb (0 <? r) then Err "signature R isn't 1 or more"
  else if negb (0 <? s) then Err "signature S isn't 1 or more"
  else if N <=? r then Err "signature R is >= curve.N"
  else if N <=? s then Err "signature S is >= curve.N"
  else Ok (mkSignature r s).

Definition parseSig (sigStr : bytes) (der : bool) : res string Signature :=
  if len sigStr <? 8 then Err "malformed signature: too short"
  else
  b0 ← idx sigStr 0;
  if negb (b0 =? 0x30) then Err "malformed signature: no header magic"
  else
  siglen ← idx sigStr 1;
  if len sigStr <? u8 (siglen + 2) then Err "malformed signature: bad length"
  else
  sigStr ← slice sigStr 0 (u8 (siglen + 2));
  parseSig_body sigStr der.

Definition ParseSignature (sigStr : bytes) : res string Signature := parseSig sigStr false.
Definition ParseDERSignature (sigStr : bytes) : res string Signature := parseSig sigStr true.

(** The signature with the low value of S. *)
Definition low_s (sig : Signature) : Signature :=
  mkSignature (sig_R sig) (if halforder <? sig_S sig then order - sig_S sig else sig_S sig).

(** * Facts *)

Lemma parseInt_no_panic der n p b : 1 <= len b -> parseInt der n p b <> Panic.
Proof.
  intros Hl. unfold parseInt. destruct der; [|done]. unfold canonicalPadding.
  destruct (@idx_in_range string _ b 0) as (b0 & -> & _); [lia|]. cbn [mbind res_bind].
  destruct (Z.land b0 0x80 =? 0x80); [done|].
  destruct (Z.ltb_spec 1 (len b)); [|done]. destruct (b0 =? 0); [|done]. cbn [andb].
  destruct (@idx_in_range string _ b 1) as (b1 & -> & _); [lia|]. cbn [mbind res_bind].
  by destruct (negb _).
Qed.

Lemma parseInt_no_hang der n p b : parseInt der n p b <> Hang.
Proof.
  unfold parseInt. destruct der; [|done]. unfold canonicalPadding, idx.
  repeat (case_match; simpl; try done).
Qed.

Lemma slice_len {E A} (l s : list A) lo hi : @slice E A l lo hi = Ok s -> len s = hi - lo.
Proof.
  intros (H1 & H2 & ->)%slice_Ok. unfold len in *. rewrite length_take, length_drop. lia.
Qed.

Lemma slice_in_range {E A} (l : list A) lo hi :
  0 <= lo <= hi -> hi <= len l -> exists s, @slice E A l lo hi = Ok s.
Proof. intros H1 H2. eexists. apply slice_Ok. split_and!; done || lia. Qed.

Lemma slice_mid {E A} (a b c : list A) : @slice E A (a ++ b ++ c) (len a) (len a + len b) = Ok b.
Proof.
  apply slice_Ok. rewrite !len_app. pose proof (len_nonneg a).
  pose proof (len_nonneg b). pose proof (len_nonneg c). split_and!; [lia..|].
  unfold len. rewrite Nat2Z.id, drop_app_length.
  replace (Z.to_nat _) with (length b) by lia. by rewrite take_app_length.
Qed.

Lemma be_decode_cons_0 t : be_decode (0 :: t) = be_decode t.
Proof. unfold be_decode. rewrite reverse_cons. apply (le_decode_snoc_0 (reverse t) 1). Qed.

(** The minimal bytes of a positive number start with a non-zero byte. *)
Lemma bigBytes_first z : 0 < z -> exists b t, bigBytes z = b :: t /\ b <> 0.
Proof.
  intros Hz. pose proof (bigBytes_ok z) as Hok. pose proof (be_decode_bigBytes z ltac:(lia)) as Hd.
  assert (len (bigBytes z) = Z.log2 z / 8 + 1) as Hl.
  { unfold bigBytes. replace (z <=? 0) with false by lia. unfold len. rewrite length_be_encode.
    pose proof (Z.log2_nonneg z). pose proof (Z.div_pos (Z.log2 z) 8). lia. }
  pose proof (Z.log2_nonneg z). pose proof (Z.div_pos (Z.log2 z) 8).
  destruct (bigBytes z) as [|b t]; [rewrite len_nil in Hl; lia|].
  exists b, t. split; [done|]. intros ->. rewrite len_cons in Hl.
  apply Forall_cons in Hok as [_ Hok]. rewrite be_decode_cons_0 in Hd. unfold be_decode in Hd.
  pose proof (le_decode_range (reverse t) (proj2 (Forall_reverse _ _) Hok)) as Hr.
  rewrite Hd, len_reverse in Hr. replace (len t) with (Z.log2 z / 8) in Hr by lia.
  change 256 with (2 ^ 8) in Hr. rewrite <- Z.pow_mul_r in Hr by lia.
  pose proof (Z.log2_spec z Hz) as [Hlow _].
  assert (2 ^ (8 * (Z.log2 z / 8)) <= 2 ^ Z.log2 z) by
    (apply Z.pow_le_mono_r; [lia | apply Z.mul_div_le; lia]). lia.
Qed.

Lemma parseSig_body_no_panic t der : 4 <= len t -> parseSig_body t der <> Panic.
Proof.
  intros Hl. unfold parseSig_body.
  destruct (@idx_in_range string _ t 2) as (m1 & -> & _); [lia|]. cbn [mbind res_bind].
  case_if; [done|].
  destruct (@idx_in_range string _ t 3) as (rLen & -> & _); [lia|]. cbn [mbind res_bind].
  destruct (Z.leb_spec rLen 0); [done|]. cbn [orb]. destruct (Z.ltb_spec (len t - 4 - 3) rLen); [done|].
  destruct (@slice_in_range string _ t 4 (4 + rLen)) as (rb & Hrb); [lia..|]. rewrite Hrb.
  apply slice_len in Hrb. cbn [mbind res_bind].
  intros [Hpan1|(r & _ & Hpan1)]%bind_Panic; [by apply parseInt_no_panic in Hpan1; lia|]. revert Hpan1.
  destruct (@idx_in_range string _ t (4 + rLen)) as (m2 & -> & _); [lia|]. cbn [mbind res_bind].
  case_if; [done|].
  destruct (@idx_in_range string _ t (4 + rLen + 1)) as (sLen & -> & _); [lia|]. cbn [mbind res_bind].
  destruct (Z.leb_spec sLen 0); [done|]. cbn [orb].
  destruct (Z.ltb_spec (len t - (4 + rLen + 2)) sLen); [done|].
  destruct (@slice_in_range string _ t (4 + rLen + 2) (4 + rLen + 2 + sLen)) as (sb & Hsb); [lia..|].
  rewrite Hsb. apply slice_len in Hsb. cbn [mbind res_bind].
  intros [Hpan2|(sv & _ & Hpan2)]%bind_Panic; [by apply parseInt_no_panic in Hpan2; lia|]. revert Hpan2.
  repeat case_if; done.
Qed.

Lemma slice_no_hang {E A} (l : list A) lo hi : @slice E A l lo hi <> Hang.
Proof. unfold slice. by destruct (_ && _). Qed.

Lemma idx_no_hang {E A} (l : list A) i : @idx E A l i <> Hang.
Proof. unfold idx. destruct (_ <? _); [done|]. by destruct (_ !! _). Qed.

Lemma parseSig_no_hang s der : parseSig s der <> Hang.
Proof.
  unfold parseSig, parseSig_body. intros Hh.
  repeat (match type of Hh with
    | mbind _ _ = Hang => let a := fresh in apply bind_Hang in Hh as [Hh|(a & _ & Hh)]
    | (if ?b then _ else _) = Hang => destruct b
    end);
  solve [done | by apply idx_no_hang in Hh | by apply slice_no_hang in Hh | by apply parseInt_no_hang in Hh].
Qed.

(** A length byte that announces the whole string prevents every panic. *)
Lemma parseSig_exact_length s der :
  8 <= len s <= 72 -> s !! 1%nat = Some (len s - 2) -> parseSig s der <> Panic.
Proof.
  intros Hs H1. unfold parseSig. replace (len s <? 8) with false by lia.
  destruct (@idx_in_range string _ s 0) as (b0 & -> & _); [lia|]. cbn [mbind res_bind].
  destruct (negb _); [done|].
  assert (@idx string _ s 1 = Ok (len s - 2)) as -> by (apply idx_Ok; split; [lia | done]).
  cbn [mbind res_bind]. rewrite wrapu_small by (unfold is_u; lia).
  replace (len s - 2 + 2) with (len s) by lia. rewrite Z.ltb_irrefl.
  destruct (@slice_in_range string _ s 0 (len s)) as (t & Ht); [lia..|]. rewrite Ht.
  cbn [mbind res_bind]. apply slice_len in Ht. apply parseSig_body_no_panic. lia.
Qed.

(** The numbers of a serialized signature are short. *)
Lemma canonicalizeInt_spec v :
  0 < v < 2 ^ 256 ->
  exists b, canonicalizeInt v = Ok b /\ bytes_ok b /\ 1 <= len b <= 33 /\ be_decode b = v /\
            canonicalPadding b = Ok padOk.
Proof.
  intros Hv. unfold canonicalizeInt.
  pose proof (be_decode_bigBytes v ltac:(lia)) as Hd. pose proof (bigBytes_length v ltac:(lia)) as Hl.
  pose proof (bigBytes_ok v) as Hok. pose proof (bigBytes_first v ltac:(lia)) as (b0 & t & Hb & Hb0).
  rewrite Hb in *. pose proof (len_nonneg t). rewrite len_cons in *.
  apply Forall_cons in Hok as [Hbyte Hok].
  replace (1 + len t =? 0) with false by lia. change (idx (b0 :: t) 0) with (@Ok string Z b0).
  cbn [mbind res_bind].
  assert (forall b, is_byte b -> (Z.land b 0x80 =? 0x80) = negb (Z.land b 0x80 =? 0)) as Hbit.
  { intros b Hb'. pose proof (byte_forall (fun b => Bool.eqb (Z.land b 0x80 =? 0x80)
      (negb (Z.land b 0x80 =? 0))) eq_refl b Hb') as H'. by apply Bool.eqb_prop. }
  destruct (Z.land b0 0x80 =? 0) eqn:Hhi; cbn [negb].
  - exists (b0 :: t). split_and!; [done | by constructor | rewrite len_cons; lia.. | done |].
    unfold canonicalPadding. change (idx (b0 :: t) 0) with (@Ok string Z b0). cbn [mbind res_bind].
    rewrite (Hbit b0 Hbyte), Hhi. cbn [negb]. replace (b0 =? 0) with false by lia. by rewrite andb_false_r.
  - exists (0 :: b0 :: t). split_and!; [done | | rewrite !len_cons; lia.. | |].
    + constructor; [unfold is_byte; lia | by constructor].
    + by rewrite be_decode_cons_0.
    + unfold canonicalPadding. change (idx (0 :: b0 :: t) 0) with (@Ok string Z 0).
      change (idx (0 :: b0 :: t) 1) with (@Ok string Z b0). cbn [mbind res_bind].
      change (Z.land 0 128 =? 128) with false. cbv iota. rewrite (Hbit b0 Hbyte), Hhi. cbn [negb].
      by destruct (_ && _).
Qed.

Lemma parseInt_canonical n p b v :
  canonicalPadding b = Ok padOk -> be_decode b = v -> parseInt true n p b = Ok v.
Proof. intros Hc <-. unfold parseInt. rewrite Hc. done. Qed.

(** ** The properties of the component *)

(** C28: [parseSig] panics exactly on inputs of at least eight bytes with the
    right magic whose length byte announces fewer bytes than are read: 0xfe and
    0xff, where adding 2 overflows a byte, 0x00, and 0x01 when the first marker
    is right.  On every other input it returns a signature or an error. *)
Theorem parseSig_panic_iff s der :
  bytes_ok s ->
  (parseSig s der = Panic <->
   8 <= len s /\ s !! 0%nat = Some 0x30 /\
   (exists l, s !! 1%nat = Some l /\ (l = 0xfe \/ l = 0xff \/ l = 0 \/ l = 1 /\ s !! 2%nat = Some 2))).
Proof.
  intros Hok. unfold parseSig.
  destruct (Z.ltb_spec (len s) 8) as [Hs|Hs]; [split; [done | lia]|].
  destruct s as [|b0 [|l [|m s]]]; rewrite ?len_cons in Hs; try (rewrite len_nil in Hs; lia).
  set (str := b0 :: l :: m :: s) in *.
  change (idx str 0) with (@Ok string Z b0). change (idx str 1) with (@Ok string Z l).
  change (str !! 0%nat) with (Some b0). change (str !! 1%nat) with (Some l).
  change (str !! 2%nat) with (Some m). cbn [mbind res_bind].
  assert (is_byte l) as Hl by (do 2 apply Forall_cons in Hok as [? Hok]; done). unfold is_byte in Hl.
  assert (len str = 3 + len s) as Hlen by (unfold str; rewrite !len_cons; lia).
  destruct (Z.eqb_spec b0 0x30) as [->|Hb0]; cbn [negb].
  2: { split; [done|]. intros (_ & [= ?] & _). done. }
  assert (u8 (l + 2) = if l <? 254 then l + 2 else l - 254) as Hu.
  { unfold wrapu. change (2 ^ 8) with 256. destruct (Z.ltb_spec l 254); [apply Z.mod_small; lia|].
    replace (l + 2) with (l - 254 + 1 * 256) by lia. rewrite Z.mod_add by lia. apply Z.mod_small. lia. }
  assert (forall n, 0 <= n <= len str -> @slice string _ str 0 n = Ok (take (Z.to_nat n) str)) as Hsl.
  { intros n Hn. apply slice_Ok. rewrite drop_0, Z.sub_0_r. split_and!; lia || done. }
  destruct (Z.ltb_spec (len str) (u8 (l + 2))) as [Hbig|Hfit].
  { split; [done|]. intros (_ & _ & l' & [= <-] & Hl'). exfalso. rewrite Hu in Hbig.
    destruct (Z.ltb_spec l 254); lia. }
  rewrite Hsl by (pose proof (wrapu_range 8 (l + 2)); unfold is_u in *; lia). cbn [mbind res_bind].
  assert (4 <= u8 (l + 2) -> parseSig_body (take (Z.to_nat (u8 (l + 2))) str) der <> Panic) as Hbig.
  { intros Hn. apply parseSig_body_no_panic. unfold len in *. rewrite length_take. lia. }
  destruct (decide (4 <= u8 (l + 2))) as [H4|H4].
  { split; [intros H; by apply Hbig in H|]. intros (_ & _ & l' & [= <-] & Hl').
    rewrite Hu in H4. destruct (Z.ltb_spec l 254); lia. }
  rewrite Hu in *.
  assert (l = 254 \/ l = 255 \/ l = 0 \/ l = 1) as Hcase by (destruct (Z.ltb_spec l 254); lia).
  assert (8 <= len str) as Hs8 by lia.
  destruct Hcase as [->|[->|[->| ->]]];
    [split; [intros _; split_and!; [done..|]; eexists; split; [done|]; auto | reflexivity]..|].
  destruct (Z.eqb_spec m 2) as [->|Hm].
  - split; [intros _; split_and!; [done..|]; eexists; split; [done|]; auto | reflexivity].
  - assert (parseSig_body (take (Z.to_nat (if 1 <? 254 then 1 + 2 else 1 - 254)) str) der =
            Err "malformed signature: no 1st int marker") as ->.
    { unfold parseSig_body, str. cbn. destruct m as [|[|[]|]|]; done. }
    split; [done|]. intros (_ & _ & l' & [= <-] & [?|[?|[?|[_ [= ?]]]]]); done.
Qed.

Lemma parseSig_panic_iff_witness :
  let s := [0x30; 0xff; 2; 1; 1; 2; 1; 1] in
  parseSig s true = Panic <->
  8 <= len s /\ s !! 0%nat = Some 0x30 /\
  (exists l, s !! 1%nat = Some l /\ (l = 0xfe \/ l = 0xff \/ l = 0 \/ l = 1 /\ s !! 2%nat = Some 2)).
Proof. apply (parseSig_panic_iff [0x30; 0xff; 2; 1; 1; 2; 1; 1] true). apply bytesb_ok. reflexivity. Defined.

(** A signature with both numbers in range serializes to DER that the
    strict parser reads back as the signature with its low S value. *)
Theorem signature_roundtrip sig :
  0 < sig_R sig < N -> 0 < sig_S sig < N ->
  exists b, Serialize sig = Ok b /\ ParseDERSignature b = Ok (low_s sig).
Proof.
  intros HR HS. assert (N < 2 ^ 256) as HN by done.
  unfold Serialize, low_s. set (sv := if halforder <? sig_S sig then order - sig_S sig else sig_S sig).
  assert (0 < sv < N) as Hsv by (unfold sv, order in *; case_if; lia).
  destruct (canonicalizeInt_spec (sig_R sig)) as (rb & -> & Hrok & Hrl & Hrd & Hrp); [lia|].
  destruct (canonicalizeInt_spec sv) as (sb & -> & Hsok & Hslen & Hsd & Hsp); [lia|].
  cbn [mbind res_bind]. eexists. split; [done|].
  rewrite !wrapu_small by (unfold is_u; lia). set (str := _ ++ _ ++ _ ++ sb).
  assert (len str = 6 + len rb + len sb) as Hl
    by (unfold str; rewrite !len_app; unfold len; cbn [length]; lia).
  unfold ParseDERSignature, parseSig. rewrite Hl.
  replace (6 + len rb + len sb <? 8) with false by lia.
  change (idx str 0) with (@Ok string Z 0x30). change (idx str 1) with (@Ok string Z (6 + len rb + len sb - 2)).
  cbn [mbind res_bind]. change (0x30 =? 0x30) with true. cbn [negb].
  replace (6 + len rb + len sb - 2 + 2) with (6 + len rb + len sb) by lia.
  rewrite wrapu_small by (unfold is_u; lia). rewrite Z.ltb_irrefl.
  assert (slice str 0 (6 + len rb + len sb) = @Ok string bytes str) as ->.
  { apply slice_Ok. split_and!; [lia..|]. rewrite drop_0, take_ge by (unfold len in *; lia). done. }
  cbn [mbind res_bind]. unfold parseSig_body. rewrite Hl.
  change (idx str 2) with (@Ok string Z 2). change (idx str 3) with (@Ok string Z (len rb)).
  cbn [mbind res_bind]. change (2 =? 2) with true. cbn [negb].
  replace (len rb <=? 0) with false by lia. replace (_ <? len rb) with false by lia. cbn [orb].
  assert (slice str 4 (4 + len rb) = @Ok string bytes rb) as ->
    by (apply (slice_mid [48; 6 + len rb + len sb - 2; 2; len rb] rb)).
  cbn [mbind res_bind]. rewrite (parseInt_canonical _ _ rb (sig_R sig)) by done. cbn [mbind res_bind].
  assert (str = ([48; 6 + len rb + len sb - 2; 2; len rb] ++ rb) ++ 2 :: len sb :: sb) as Hstr
    by (unfold str; by rewrite <- app_assoc).
  assert (len ([48; 6 + len rb + len sb - 2; 2; len rb] ++ rb) = 4 + len rb) as Hpre
    by (rewrite len_app; done).
  set (pre := [_; _; _; _] ++ rb) in *.
  assert (idx str (4 + len rb) = @Ok string Z 2) as -> by (rewrite Hstr, <- Hpre; apply idx_middle).
  cbn [mbind res_bind]. change (2 =? 2) with true. cbn [negb].
  assert (str = (pre ++ [2]) ++ len sb :: sb) as Hstr2 by (by rewrite Hstr, <- app_assoc).
  assert (idx str (4 + len rb + 1) = @Ok string Z (len sb)) as ->.
  { rewrite Hstr2. replace (4 + len rb + 1) with (len (pre ++ [2])) by (rewrite len_app, Hpre; done).
    apply idx_middle. }
  cbn [mbind res_bind]. replace (len sb <=? 0) with false by lia.
  replace (_ <? len sb) with false by lia. cbn [orb].
  assert (slice str (4 + len rb + 2) (4 + len rb + 2 + len sb) = @Ok string bytes sb) as ->.
  { replace (4 + len rb + 2) with (len (pre ++ [2; len sb])) by (rewrite len_app, Hpre; done).
    assert (str = (pre ++ [2; len sb]) ++ sb ++ []) as -> by (by rewrite Hstr, app_nil_r, <- app_assoc).
    apply slice_mid. }
  cbn [mbind res_bind]. rewrite (parseInt_canonical _ _ sb sv) by done. cbn [mbind res_bind].
  replace (4 + len rb + 2 + len sb =? 6 + len rb + len sb) with true by lia. cbn [negb].
  replace (0 <? sig_R sig) with true by lia. replace (0 <? sv) with true by lia. cbn [negb].
  replace (N <=? sig_R sig) with false by lia. by replace (N <=? sv) with false by lia.
Qed.

End Sig.
