(* ===== verification/Script.v ===== *)
(** Scripts as lists of parsed opcodes: [src/txscript/script.go] and the
    sighash fragments of [src/txscript/hashcache.go].

    Parsing and unparsing, the extraction of key ids, thread ids and admin data
    from scripts, signature operation counts and signature hashes.  A push
    opcode's data is a subslice of the script; the accessors below read it
    within its length. *)
From S2P Require Import Prelude PubKey Opcode ScriptNum Wire Crypto.
Import btcec Opcode ScriptNum wire Crypto.
#[local] Open Scope Z_scope.

Module Script.

(** * Constants *)
Definition SigHashOld : Z := 0x0.
Definition SigHashAll : Z := 0x1.
Definition SigHashNone : Z := 0x2.
Definition SigHashSingle : Z := 0x3.
Definition SigHashAnyOneCanPay : Z := 0x80.
Definition sigHashMask : Z := 0x1f.
Definition MaxOpsPerScript : Z := 201.
Definition MaxPubKeysPerMultiSig : Z := 20.
Definition MaxScriptElementSize : Z := 520.

(** * Opcode classes *)
Definition isSmallInt (op : opcode) : bool :=
  (op_value op =? OP_0) || ((OP_1 <=? op_value op) && (op_value op <=? OP_16)).

Definition isUint32 (op : opcode) : bool :=
  if isSmallInt op then true
  else (op_value op =? OP_DATA_1) || (op_value op =? OP_DATA_2) ||
       (op_value op =? OP_DATA_3) || (op_value op =? OP_DATA_4).

(** [op.value - (OP_1 - 1)] is a byte. *)
Definition asSmallInt (op : opcode) : Z :=
  if op_value op =? OP_0 then 0 else u8 (op_value op - (OP_1 - 1)).

Definition asInt32 (pop : parsedOpcode) : res ErrorCode Z :=
  if isSmallInt (pop_opcode pop) then Ok (i32 (asSmallInt (pop_opcode pop)))
  else n ← makeScriptNum (pop_data pop) true 4; Ok (Int32 n).

Definition isScriptHash (pops : list parsedOpcode) : bool :=
  match pops with
  | [p0; p1; p2] =>
      (pop_value p0 =? OP_HASH160) && (pop_value p1 =? OP_DATA_20) && (pop_value p2 =? OP_EQUAL)
  | _ => false
  end.

Definition isPushOnly (pops : list parsedOpcode) : bool :=
  forallb (fun pop => negb (OP_16 <? pop_value pop)) pops.

(** * Parsing *)

(** The length bytes of OP_PUSHDATA1, 2 and 4; [None] is the default branch. *)
Definition pushdata_len (oplen : Z) (off : bytes) : option Z :=
  let b i := default 0 (off !! i) in
  if oplen =? -1 then Some (b 0%nat)
  else if oplen =? -2 then Some (Z.lor (b 1%nat ≪ 8) (b 0%nat))
  else if oplen =? -4 then
    Some (Z.lor (Z.lor (Z.lor (b 3%nat ≪ 24) (b 2%nat ≪ 16)) (b 1%nat ≪ 8)) (b 0%nat))
  else None.

(** One iteration on the rest [instr :: rest] of the script: the opcode and
    what remains. *)
Definition parse_one (instr : Z) (rest : bytes) : res ErrorCode (parsedOpcode * bytes) :=
  let op := opcodeArray instr in
  if op_length op =? 1 then Ok (mkPop op [], rest)
  else if 1 <? op_length op then
    if len (instr :: rest) <? op_length op then Err ErrMalformedPush
    else
      let n := Z.to_nat (op_length op - 1) in
      Ok (mkPop op (take n rest), drop n rest)
  else
    if len rest <? - op_length op then Err ErrMalformedPush
    else match pushdata_len (op_length op) rest with
         | None => Err ErrMalformedPush
         | Some l =>
             let off := drop (Z.to_nat (- op_length op)) rest in
             if len off <? l then Err ErrMalformedPush
             else Ok (mkPop op (take (Z.to_nat l) off), drop (Z.to_nat l) off)
         end.

(** Every opcode takes at least one byte, so the length of the script bounds
    the iterations.  The opcodes parsed before an error are returned with it. *)
Fixpoint parse_loop (fuel : nat) (script : bytes) : list parsedOpcode * option ErrorCode :=
  match script, fuel with
  | [], _ => ([], None)
  | _, O => ([], Some ErrInternal)
  | instr :: rest, S fuel =>
      match parse_one instr rest with
      | Ok (pop, rest) =>
          let '(pops, err) := parse_loop fuel rest in (pop :: pops, err)
      | Err e => ([], Some e)
      | _ => ([], Some ErrInternal)
      end
  end.

Definition parseScriptTemplate (script : bytes) : list parsedOpcode * option ErrorCode :=
  parse_loop (length script) script.

(** [ParseScript] for the callers that check its error. *)
Definition ParseScript (script : bytes) : res ErrorCode (list parsedOpcode) :=
  match parseScriptTemplate script with
  | (pops, None) => Ok pops
  | (_, Some e) => Err e
  end.

Fixpoint UnparseScript (pops : list parsedOpcode) : res ErrorCode bytes :=
  match pops with
  | [] => Ok []
  | pop :: pops =>
      b ← pop_bytes pop;
      rest ← UnparseScript pops;
      Ok (b ++ rest)
  end.

Definition IsPayToScriptHash (script : bytes) : bool :=
  match ParseScript script with Ok pops => isScriptHash pops | _ => false end.

Definition IsPushOnlyScript (script : bytes) : bool :=
  match ParseScript script with Ok pops => isPushOnly pops | _ => false end.

Definition IsUnspendable (pkScript : bytes) : bool :=
  match ParseScript pkScript with
  | Ok pops => match pops with p :: _ => pop_value p =? OP_RETURN | [] => false end
  | _ => true
  end.

Fixpoint removeOpcode (pkscript : list parsedOpcode) (op : Z) : list parsedOpcode :=
  match pkscript with
  | [] => []
  | pop :: rest =>
      if negb (pop_value pop =? op) then pop :: removeOpcode rest op else removeOpcode rest op
  end.

(** * Key ids of a pay-to-prova script *)
Definition badStructure : ErrorCode := ErrOther "unable to extract keyIDs from script".

Fixpoint key_ids_loop (pkScript : list parsedOpcode) (i : Z) (todo : nat)
    : res ErrorCode (list Z) :=
  match todo with
  | O => Ok []
  | S todo =>
      pop ← idx pkScript i;
      if negb (isUint32 (pop_opcode pop)) then key_ids_loop pkScript (i + 1) todo
      else
        keyID ← asInt32 pop;
        rest ← key_ids_loop pkScript (i + 1) todo;
        Ok (u32 keyID :: rest)
  end.

Definition ExtractKeyIDs (pkScript : list parsedOpcode) : res ErrorCode (list Z) :=
  if len pkScript <? 6 then Err badStructure
  else
    p ← idx pkScript (len pkScript - 2);
    if negb (isSmallInt (pop_opcode p)) then Err badStructure
    else
      let n := asSmallInt (pop_opcode p) in
      key_ids_loop pkScript 1 (Z.to_nat n).

(** The script is changed in place, one opcode at a time. *)
Fixpoint replace_loop (keyIdMap : gmap Z bytes) (pkScript : list parsedOpcode) (i : Z) (todo : nat)
    : res ErrorCode (list parsedOpcode) :=
  match todo with
  | O => Ok pkScript
  | S todo =>
      pop ← idx pkScript i;
      if negb (isUint32 (pop_opcode pop)) then replace_loop keyIdMap pkScript (i + 1) todo
      else
        match asInt32 pop with
        | Ok keyID =>
            match keyIdMap !! (u32 keyID) with
            | Some val =>
                pkScript ← set_idx pkScript i (mkPop (opcodeArray OP_DATA_20) val);
                replace_loop keyIdMap pkScript (i + 1) todo
            | None => replace_loop keyIdMap pkScript (i + 1) todo
            end
        | Err _ => Err (ErrOther "unable to parse keyIDs from opcode")
        | Panic => Panic
        | Hang => Hang
        end
  end.

Definition ReplaceKeyIDs (pkScript : list parsedOpcode) (keyIdMap : gmap Z bytes)
    : res ErrorCode (list parsedOpcode) :=
  if len pkScript <? 6 then Err badStructure
  else
    p ← idx pkScript (len pkScript - 2);
    if negb (isSmallInt (pop_opcode p)) then Err badStructure
    else if decide (keyIdMap = ∅) then Err (ErrOther "no keyHashes provided to replace keyIDs")
    else replace_loop keyIdMap pkScript 1 (Z.to_nat (asSmallInt (pop_opcode p))).

(** * Threads and admin operations *)
Definition ExtractThreadID (pkScript : list parsedOpcode) : res ErrorCode Z :=
  match pkScript with
  | [p0; _] =>
      if negb (isSmallInt (pop_opcode p0))
      then Err (ErrOther "unable to extract threadID from script")
      else Ok (asSmallInt (pop_opcode p0))
  | _ => Err (ErrOther "unable to extract threadID from script")
  end.

(** An error of the key parser, as an error of this package. *)
Definition of_key {A} (m : res string A) : res ErrorCode A :=
  match m with
  | Ok a => Ok a
  | Err e => Err (ErrOther e)
  | Panic => Panic
  | Hang => Hang
  end.

Definition ExtractAdminData (pkScript : list parsedOpcode) : res ErrorCode (Z * PublicKey) :=
  p ← idx pkScript 1;
  b ← slice (pop_data p) 1 (1 + PubKeyBytesLenCompressed);
  pubKey ← of_key (ParsePubKey b);
  op ← idx (pop_data p) 0;
  Ok (op, pubKey).

Definition ExtractASPData (pkScript : list parsedOpcode) : res ErrorCode (Z * PublicKey * Z) :=
  p ← idx pkScript 1;
  b ← slice (pop_data p) 1 (1 + PubKeyBytesLenCompressed);
  pubKey ← of_key (ParsePubKey b);
  let dataLen := len (pop_data p) in
  kb ← slice (pop_data p) (dataLen - KeyIDSize) dataLen;
  keyID ← KeyIDFromAddressBuffer kb;
  op ← idx (pop_data p) 0;
  Ok (op, pubKey, keyID).

(** The operation a type byte stands for; an unknown byte leaves the zero
    values, a revocation in the root key set. *)
Definition admin_op (op : Z) : bool * KeySetType :=
  if op =? AdminOpProvisionKeyAdd then (true, ProvisionKeySet)
  else if op =? AdminOpProvisionKeyRevoke then (false, ProvisionKeySet)
  else if op =? AdminOpIssueKeyAdd then (true, IssueKeySet)
  else if op =? AdminOpIssueKeyRevoke then (false, IssueKeySet)
  else if op =? AdminOpValidateKeyAdd then (true, ValidateKeySet)
  else if op =? AdminOpValidateKeyRevoke then (false, ValidateKeySet)
  else if op =? AdminOpASPKeyAdd then (true, ASPKeySet)
  else if op =? AdminOpASPKeyRevoke then (false, ASPKeySet)
  else (false, RootKeySet).

(** The parse error is dropped: the key is nil on an error. *)
Definition ExtractAdminOpData {E} (pkScript : list parsedOpcode)
    : res E (bool * KeySetType * option PublicKey * Z) :=
  p ← idx pkScript 1;
  b ← slice (pop_data p) 1 (1 + PubKeyBytesLenCompressed);
  let pubKey := match ParsePubKey b with Ok k => Some k | _ => None end in
  let dataLen := len (pop_data p) in
  keyID ← (if 1 + PubKeyBytesLenCompressed <? dataLen then
             kb ← slice (pop_data p) (dataLen - KeyIDSize) dataLen;
             KeyIDFromAddressBuffer kb
           else Ok 0);
  op ← idx (pop_data p) 0;
  let '(isAddOp, keySetType) := admin_op op in
  Ok (isAddOp, keySetType, pubKey, keyID).

(** * Removing signatures from a script *)
Definition canonicalPush (pop : parsedOpcode) : bool :=
  let opcode := pop_value pop in
  let dataLen := len (pop_data pop) in
  let data0 := default 0 (pop_data pop !! 0%nat) in
  if OP_16 <? opcode then true
  else if (opcode <? OP_PUSHDATA1) && (OP_0 <? opcode) && ((dataLen =? 1) && (data0 <=? 16)) then false
  else if (opcode =? OP_PUSHDATA1) && (dataLen <? OP_PUSHDATA1) then false
  else if (opcode =? OP_PUSHDATA2) && (dataLen <=? 0xff) then false
  else if (opcode =? OP_PUSHDATA4) && (dataLen <=? 0xffff) then false
  else true.

(** [bytes.Contains]. *)
Fixpoint contains (b sub : bytes) : bool :=
  bool_decide (take (length sub) b = sub) ||
  match b with [] => false | _ :: b => contains b sub end.

Definition removeOpcodeByData (pkscript : list parsedOpcode) (data : bytes) : list parsedOpcode :=
  List.filter (fun pop => negb (canonicalPush pop) || negb (contains (pop_data pop) data)) pkscript.

(** * Signature hashes *)

(** The script of input [idx] is replaced, the others are emptied. *)
Fixpoint clear_scripts (idx : Z) (sigScript : bytes) (i : Z) (ins : list TxIn) : list TxIn :=
  match ins with
  | [] => []
  | ti :: ins =>
      set_SignatureScript ti (if i =? idx then sigScript else [])
        :: clear_scripts idx sigScript (i + 1) ins
  end.

Fixpoint zero_sequences (idx : Z) (i : Z) (ins : list TxIn) : list TxIn :=
  match ins with
  | [] => []
  | ti :: ins =>
      (if negb (i =? idx) then mkTxIn (PreviousOutPoint ti) (SignatureScript ti) 0 else ti)
        :: zero_sequences idx (i + 1) ins
  end.

Fixpoint blank_outputs (n : nat) (outs : list TxOut) : list TxOut :=
  match n, outs with
  | S n, _ :: outs => mkTxOut (-1) [] :: blank_outputs n outs
  | _, _ => outs
  end.

Definition calcSignatureHash (script : list parsedOpcode) (hashType : Z) (tx : MsgTx) (idx : Z)
    : res ErrorCode bytes :=
  let mask := Z.land hashType sigHashMask in
  if (mask =? SigHashSingle) && (len (tx_TxOut tx) <=? idx)
  then Ok (0x01 :: replicate 31 0)
  else
    let script := removeOpcode script OP_CODESEPARATOR in
    let txCopy := Copy tx in
    let sigScript := match UnparseScript script with Ok b => b | _ => [] end in
    let ins := clear_scripts idx sigScript 0 (tx_TxIn txCopy) in
    '(ins, outs) ←
      (if mask =? SigHashNone then
         Ok (zero_sequences idx 0 ins, [])
       else if mask =? SigHashSingle then
         outs ← slice (tx_TxOut txCopy) 0 (idx + 1);
         Ok (zero_sequences idx 0 ins, blank_outputs (Z.to_nat idx) outs)
       else Ok (ins, tx_TxOut txCopy));
    ins ← (if negb (Z.land hashType SigHashAnyOneCanPay =? 0)
           then slice ins idx (idx + 1) else Ok ins);
    Ok (DoubleHashB (wire.Serialize (mkMsgTx (tx_Version txCopy) ins outs (tx_LockTime txCopy))
                     ++ putUint 4 hashType)).

(** The buffers that the three fragments hash. *)
Definition prevouts_buffer (tx : MsgTx) : bytes :=
  concat (map (fun ti => Hash (PreviousOutPoint ti) ++
                         putUint 4 (Index (PreviousOutPoint ti))) (tx_TxIn tx)).
Definition sequence_buffer (tx : MsgTx) : bytes :=
  concat (map (fun ti => putUint 4 (Sequence ti)) (tx_TxIn tx)).
Definition outputs_buffer (tx : MsgTx) : bytes := concat (map WriteTxOut (tx_TxOut tx)).

Definition calcHashPrevOuts (tx : MsgTx) : bytes := DoubleHashH (prevouts_buffer tx).
Definition calcHashSequence (tx : MsgTx) : bytes := DoubleHashH (sequence_buffer tx).
Definition calcHashOutputs (tx : MsgTx) : bytes := DoubleHashH (outputs_buffer tx).

Record TxSigHashes := mkTxSigHashes {
  HashPrevOuts : bytes; HashSequence : bytes; HashOutputs : bytes }.

Definition NewTxSigHashes (tx : MsgTx) : TxSigHashes :=
  mkTxSigHashes (calcHashPrevOuts tx) (calcHashSequence tx) (calcHashOutputs tx).

(** The bytes that [calcSignatureHashNew] hashes for input [ti]. *)
Definition sighash_message (sigHashes : TxSigHashes) (hashType : Z) (tx : MsgTx) (ti : TxIn)
    (amt : Z) : bytes :=
  putUint 4 (u32 (tx_Version tx)) ++
  HashPrevOuts sigHashes ++
  HashSequence sigHashes ++
  Hash (PreviousOutPoint ti) ++ putUint 4 (Index (PreviousOutPoint ti)) ++
  putUint 8 (u64 amt) ++
  putUint 4 (Sequence ti) ++
  HashOutputs sigHashes ++
  putUint 4 (tx_LockTime tx) ++
  putUint 4 (u32 hashType).

(** The script is not used and a wrong hash type is not an error: the message
    built for it is dropped. *)
Definition calcSignatureHashNew (subScript : list parsedOpcode) (sigHashes : TxSigHashes)
    (hashType : Z) (tx : MsgTx) (i : Z) (amt : Z) : res ErrorCode bytes :=
  if len (tx_TxIn tx) <=? i then Ok []
  else
    ti ← idx (tx_TxIn tx) i;
    Ok (DoubleHashB (sighash_message sigHashes hashType tx ti amt)).

(** * Signature operation counts *)
Fixpoint sigop_loop (precise : bool) (prev : option parsedOpcode) (pops : list parsedOpcode) : Z :=
  match pops with
  | [] => 0
  | pop :: rest =>
      let v := pop_value pop in
      (if (v =? OP_CHECKSIG) || (v =? OP_CHECKSIGVERIFY) then 1
       else if (v =? OP_CHECKMULTISIG) || (v =? OP_CHECKMULTISIGVERIFY) then
         match prev with
         | Some p =>
             if precise && (OP_1 <=? pop_value p) && (pop_value p <=? OP_16)
             then asSmallInt (pop_opcode p) else MaxPubKeysPerMultiSig
         | None => MaxPubKeysPerMultiSig
         end
       else 0) + sigop_loop precise (Some pop) rest
  end.

Definition getSigOpCount (pops : list parsedOpcode) (precise : bool) : Z :=
  sigop_loop precise None pops.

Definition GetSigOpCount (script : bytes) : Z :=
  getSigOpCount (parseScriptTemplate script).1 false.

Definition GetPreciseSigOpCount (scriptSig scriptPubKey : bytes) (bip16 : bool) : Z :=
  let pops := (parseScriptTemplate scriptPubKey).1 in
  if negb (bip16 && isScriptHash pops) then getSigOpCount pops true
  else
    match ParseScript scriptSig with
    | Ok sigPops =>
        if negb (isPushOnly sigPops) then 0
        else match last sigPops with
             | None => 0
             | Some p =>
                 let shScript := pop_data p in
                 if len shScript =? 0 then 0
                 else getSigOpCount (parseScriptTemplate shScript).1 true
             end
    | _ => 0
    end.

(** * Parsing and unparsing *)

(** A parsed opcode that the parser can produce. *)
Definition wf_pop (pop : parsedOpcode) : Prop :=
  exists b, is_byte b /\ pop_opcode pop = opcodeArray b /\ bytes_ok (pop_data pop) /\
  if op_length (opcodeArray b) =? 1 then pop_data pop = []
  else if 1 <? op_length (opcodeArray b) then len (pop_data pop) = op_length (opcodeArray b) - 1
  else len (pop_data pop) < 256 ^ (- op_length (opcodeArray b)).

(** The bytes of a well-formed opcode. *)
Definition pop_image (pop : parsedOpcode) : bytes :=
  let o := pop_opcode pop in
  op_value o ::
  (if op_length o <? 0 then le_encode (Z.to_nat (- op_length o)) (len (pop_data pop)) else []) ++
  pop_data pop.

(** The kinds of opcode lengths. *)
Lemma op_length_cases b : is_byte b ->
  op_length (opcodeArray b) = 1 \/
  (1 < op_length (opcodeArray b) <= 76) \/
  exists n, (n = 1 \/ n = 2 \/ n = 4)%nat /\ op_length (opcodeArray b) = - Z.of_nat n.
Proof.
  intros Hb. rewrite opcodeArray_length by done.
  destruct (_ && _) eqn:H1; [right; left; lia|].
  destruct (b =? OP_PUSHDATA1); [right; right; exists 1%nat; auto|].
  destruct (b =? OP_PUSHDATA2); [right; right; exists 2%nat; auto|].
  destruct (b =? OP_PUSHDATA4); [right; right; exists 4%nat; auto | by left].
Qed.

Lemma u8_shift l k : u8 (Z.land (l ≫ k) 0xff) = u8 (l ≫ k).
Proof.
  change 0xff with (2 ^ 8 - 1). rewrite land_ones_mod by lia. unfold wrapu. by rewrite Z.mod_mod.
Qed.

(** The length bytes of [pop_bytes] are the little-endian encoding. *)
Lemma len_bytes_eq l :
  le_encode 1 l = [u8 l] /\
  le_encode 2 l = [u8 (Z.land l 0xff); u8 (Z.land (l ≫ 8) 0xff)] /\
  le_encode 4 l = [u8 (Z.land l 0xff); u8 (Z.land (l ≫ 8) 0xff);
                   u8 (Z.land (l ≫ 16) 0xff); u8 (Z.land (l ≫ 24) 0xff)].
Proof.
  pose proof (u8_shift l 0) as H0. rewrite Z.shiftr_0_r in H0.
  rewrite H0, !u8_shift. cbn [le_encode]. rewrite !Z.shiftr_shiftr by lia. done.
Qed.

Lemma pop_bytes_image pop : wf_pop pop -> pop_bytes pop = Ok (pop_image pop).
Proof.
  intros (b & Hb & Hop & Hok & Hd). unfold pop_bytes, pop_image. rewrite Hop.
  pose proof (len_nonneg (pop_data pop)) as Hl0.
  destruct (op_length_cases b Hb) as [H|[H|(n & Hn & H)]].
  - rewrite H in *. cbn in Hd. rewrite Hd. done.
  - replace (op_length _ =? 1) with false in * by lia.
    replace (1 <? op_length _) with true in * by lia.
    replace (op_length _ <? 0) with false by lia. cbn [app].
    rewrite len_cons, Hd. by replace (1 + _ =? _) with true by lia.
  - rewrite H in *. replace (- Z.of_nat n =? 1) with false in * by lia.
    replace (1 <? - Z.of_nat n) with false in * by lia.
    replace (- Z.of_nat n <? 0) with true by lia. rewrite Z.opp_involutive in *. rewrite Nat2Z.id.
    pose proof (le_decode_encode n (len (pop_data pop))) as Hdec.
    rewrite Z.mod_small in Hdec by lia.
    destruct (len_bytes_eq (len (pop_data pop))) as (E1 & E2 & E4).
    destruct Hn as [->|[->| ->]]; 
      [rewrite E1 in Hdec |- *|rewrite E2 in Hdec |- *|rewrite E4 in Hdec |- *];
      [change (- Z.of_nat 1 =? -1) with true
      |change (- Z.of_nat 2 =? -1) with false; change (- Z.of_nat 2 =? -2) with true
      |change (- Z.of_nat 4 =? -1) with false; change (- Z.of_nat 4 =? -2) with false;
       change (- Z.of_nat 4 =? -4) with true]; cbv iota;
      rewrite Hdec; cbn [app]; rewrite !len_cons; change (len (@nil Z)) with 0;
      replace (_ =? _) with true by lia; done.
Qed.

(** Reading the length bytes is little-endian decoding. *)
Lemma pushdata_len_spec n off :
  (n = 1 \/ n = 2 \/ n = 4)%nat -> bytes_ok off -> Z.of_nat n <= len off ->
  pushdata_len (- Z.of_nat n) off = Some (le_decode (take n off)).
Proof.
  intros Hn Hok Hl. unfold pushdata_len.
  assert (forall a b k, 0 <= k -> 0 <= a < 2 ^ k -> Z.lor (b ≪ k) a = a + 2 ^ k * b) as Hlor
    by (intros a b k Hk Ha; rewrite lor_shiftl_add by lia; lia).
  destruct Hn as [->|[->| ->]].
  - destruct off as [|b0 off]; [rewrite len_nil in Hl; lia|]. cbn. f_equal. rewrite take_0. cbn [le_decode]. lia.
  - destruct off as [|b0 [|b1 off]]; rewrite ?len_cons, ?len_nil in Hl; try lia.
    apply Forall_cons in Hok as [H0 Hok]. apply Forall_cons in Hok as [H1 _]. unfold is_byte in *.
    cbn. f_equal. rewrite take_0, (Hlor b0 b1 8) by lia. cbn [le_decode]. lia.
  - destruct off as [|b0 [|b1 [|b2 [|b3 off]]]]; rewrite ?len_cons, ?len_nil in Hl; try lia.
    apply Forall_cons in Hok as [H0 Hok]. apply Forall_cons in Hok as [H1 Hok].
    apply Forall_cons in Hok as [H2 Hok]. apply Forall_cons in Hok as [H3 _]. unfold is_byte in *.
    cbn. f_equal.
    assert (b3 ≪ 24 = (b3 ≪ 8) ≪ 16) as -> by (by rewrite Z.shiftl_shiftl by lia).
    assert (b2 ≪ 16 = b2 ≪ 16) as _ by done.
    rewrite <- (Z.shiftl_lor (b3 ≪ 8) b2 16), (Hlor b2 b3 8) by lia.
    assert ((b2 + 2 ^ 8 * b3) ≪ 16 = ((b2 + 2 ^ 8 * b3) ≪ 8) ≪ 8) as ->
      by (by rewrite Z.shiftl_shiftl by lia).
    rewrite <- (Z.shiftl_lor ((b2 + 2 ^ 8 * b3) ≪ 8) b1 8), (Hlor b1 _ 8) by lia.
    rewrite take_0, (Hlor b0 _ 8) by lia. cbn [le_decode]. lia.
Qed.

(** One step of the parser: the opcode and the rest make up the input. *)
Lemma parse_one_spec instr rest :
  is_byte instr -> bytes_ok rest ->
  (exists pop rest', parse_one instr rest = Ok (pop, rest') /\ wf_pop pop /\
     instr :: rest = pop_image pop ++ rest') \/
  parse_one instr rest = Err ErrMalformedPush.
Proof.
  intros Hi Hok. unfold parse_one, wf_pop, pop_image.
  destruct (op_length_cases instr Hi) as [H|[H|(n & Hn & H)]].
  - left. rewrite H. cbn. do 2 eexists. split; [done|]. cbn. rewrite H. split.
    + exists instr. rewrite H. split_and!; done || constructor.
    + cbn. by rewrite opcodeArray_value.
  - replace (op_length _ =? 1) with false by lia. replace (1 <? op_length _) with true by lia.
    destruct (Z.ltb_spec (len (instr :: rest)) (op_length (opcodeArray instr))) as [?|Hl]; [by right|left].
    rewrite len_cons in Hl. do 2 eexists. split; [done|]. cbn [pop_opcode pop_data]. split.
    + exists instr. split_and!; [done..|by apply bytes_ok_take|].
      replace (op_length _ =? 1) with false by lia. replace (1 <? op_length _) with true by lia.
      unfold len in *. rewrite length_take. lia.
    + replace (op_length _ <? 0) with false by lia. cbn [app].
      by rewrite opcodeArray_value, take_drop.
  - rewrite H. replace (- Z.of_nat n =? 1) with false by lia.
    replace (1 <? - Z.of_nat n) with false by lia. rewrite !Z.opp_involutive, Nat2Z.id.
    destruct (Z.ltb_spec (len rest) (Z.of_nat n)) as [?|Hl]; [by right|].
    rewrite pushdata_len_spec by done. set (l := le_decode (take n rest)).
    pose proof (le_decode_range (take n rest) (bytes_ok_take n rest Hok)) as Hr. fold l in Hr.
    assert (len (take n rest) = Z.of_nat n) as Htn by (unfold len in *; rewrite length_take; lia).
    rewrite Htn in Hr.
    destruct (Z.ltb_spec (len (drop n rest)) l) as [?|Hl2]; [by right|left].
    assert (len (take (Z.to_nat l) (drop n rest)) = l) as Hlen by (unfold len in *; rewrite length_take; lia).
    do 2 eexists. split; [done|]. cbn [pop_opcode pop_data]. rewrite Hlen. split.
    + exists instr. rewrite H. replace (- Z.of_nat n =? 1) with false by lia.
      replace (1 <? - Z.of_nat n) with false by lia. rewrite Z.opp_involutive.
      split_and!; [done | done | by apply bytes_ok_take, bytes_ok_drop | lia].
    + rewrite H. replace (- Z.of_nat n <? 0) with true by lia. rewrite Z.opp_involutive, Nat2Z.id.
      unfold l at 1. replace n with (length (take n rest)) at 1 by (unfold len in Htn; lia).
      rewrite le_encode_decode by (by apply bytes_ok_take). cbn [app].
      rewrite opcodeArray_value, <- app_assoc, take_drop, take_drop by done. done.
Qed.

(** The parser reads a well-formed opcode back. *)
Lemma parse_one_image pop rest :
  wf_pop pop ->
  parse_one (op_value (pop_opcode pop)) (drop 1 (pop_image pop) ++ rest) = Ok (pop, rest).
Proof.
  intros (b & Hb & Hop & Hok & Hd). unfold parse_one, pop_image. destruct pop as [o d].
  cbn [pop_opcode pop_data] in *. subst o. cbn [drop]. rewrite drop_0, opcodeArray_value by done.
  pose proof (len_nonneg d). pose proof (len_nonneg rest).
  destruct (op_length_cases b Hb) as [H'|[H'|(n & Hn & H')]].
  - rewrite H' in *. cbn in Hd. subst d. done.
  - replace (op_length _ =? 1) with false in * by lia. replace (1 <? op_length _) with true in * by lia.
    replace (op_length _ <? 0) with false by lia. cbn [app]. rewrite len_cons, len_app.
    replace (_ <? _) with false by lia.
    assert (Z.to_nat (op_length (opcodeArray b) - 1) = length d) as -> by (unfold len in Hd; lia).
    by rewrite take_app_length, drop_app_length.
  - rewrite H' in *. replace (- Z.of_nat n =? 1) with false in * by lia.
    replace (1 <? - Z.of_nat n) with false in * by lia. replace (- Z.of_nat n <? 0) with true by lia.
    rewrite !Z.opp_involutive, Nat2Z.id in *.
    rewrite !len_app. unfold len at 1. rewrite length_le_encode. replace (_ <? _) with false by lia.
    assert (bytes_ok (le_encode n (len d) ++ d)) as Hok2 by (apply bytes_ok_app; auto with go).
    assert (take n ((le_encode n (len d) ++ d) ++ rest) = le_encode n (len d)) as Ht
      by (rewrite <- app_assoc, take_app_length'; [done | by rewrite length_le_encode]).
    assert (pushdata_len (- Z.of_nat n) ((le_encode n (len d) ++ d) ++ rest) = Some (len d)) as ->.
    { assert (pushdata_len (- Z.of_nat n) ((le_encode n (len d) ++ d) ++ rest) =
              pushdata_len (- Z.of_nat n) (le_encode n (len d))) as ->.
      { rewrite <- app_assoc. unfold pushdata_len.
        destruct Hn as [->|[->| ->]]; cbn; done. }
      rewrite pushdata_len_spec; [| done | auto with go | unfold len; rewrite length_le_encode; lia].
      rewrite take_ge by (rewrite length_le_encode; lia). f_equal.
      rewrite le_decode_encode. apply Z.mod_small. lia. }
    rewrite <- app_assoc, drop_app_length' by (by rewrite length_le_encode).
    rewrite len_app. replace (_ <? _) with false by lia.
    assert (Z.to_nat (len d) = length d) as -> by (unfold len; lia).
    by rewrite take_app_length, drop_app_length.
Qed.

Lemma pop_image_ok pop : wf_pop pop -> bytes_ok (pop_image pop).
Proof.
  intros (b & Hb & Hop & Hok & _). unfold pop_image. rewrite Hop, opcodeArray_value by done.
  constructor; [done|]. apply bytes_ok_app. split; [|done]. destruct (_ <? 0); [apply le_encode_ok | constructor].
Qed.

Lemma images_ok pops : Forall wf_pop pops -> bytes_ok (concat (map pop_image pops)).
Proof.
  induction 1 as [|p l Hp _ IH]; [constructor|]. cbn [map concat]. apply bytes_ok_app.
  split; [by apply pop_image_ok | done].
Qed.

Lemma pop_image_cons pop : pop_image pop = op_value (pop_opcode pop) :: drop 1 (pop_image pop).
Proof. unfold pop_image. cbn [drop]. by rewrite drop_0. Qed.

Lemma length_pop_image pop : (1 <= length (pop_image pop))%nat.
Proof. unfold pop_image. cbn [length]. lia. Qed.

Lemma UnparseScript_image pops :
  Forall wf_pop pops -> UnparseScript pops = Ok (concat (map pop_image pops)).
Proof.
  induction 1 as [|pop pops Hp _ IH]; [done|]. cbn [UnparseScript map concat].
  rewrite pop_bytes_image, IH by done. done.
Qed.

(** What the parser consumes, and when it stops. *)
Lemma parse_loop_spec fuel s :
  (length s <= fuel)%nat -> bytes_ok s ->
  exists rest, s = concat (map pop_image (parse_loop fuel s).1) ++ rest /\
    Forall wf_pop (parse_loop fuel s).1 /\
    ((parse_loop fuel s).2 = None /\ rest = [] \/
     (parse_loop fuel s).2 = Some ErrMalformedPush /\ rest <> []).
Proof.
  revert s. induction fuel as [|fuel IH]; intros s Hf Hok;
    (destruct s as [|instr s]; [exists []; cbn; auto|]); cbn [length] in Hf; [lia|].
  apply Forall_cons in Hok as [Hi Hok]. cbn [parse_loop].
  destruct (parse_one_spec instr s Hi Hok) as [(pop & rest & -> & Hwf & Heq)| ->].
  2: { exists (instr :: s). cbn. auto. }
  assert (bytes_ok rest) as Hr.
  { assert (bytes_ok (instr :: s)) as Hall by (by constructor). rewrite Heq in Hall.
    by apply bytes_ok_app in Hall as [_ ?]. }
  assert (length rest <= fuel)%nat as Hlen.
  { apply (f_equal length) in Heq. rewrite length_app in Heq. cbn [length] in Heq.
    pose proof (length_pop_image pop). lia. }
  destruct (IH rest Hlen Hr) as (rest' & Hs & Hwfs & Herr).
  destruct (parse_loop fuel rest) as [pops err]. cbn [fst snd] in *. exists rest'. split_and!.
  - cbn [map concat]. by rewrite Heq, Hs at 1; rewrite <- app_assoc.
  - by constructor.
  - done.
Qed.

(** What [ParseScript] returns; every opcode takes at least one byte. *)
Lemma ParseScript_wf s :
  bytes_ok s ->
  returns (fun pops => Forall wf_pop pops /\ s = concat (map pop_image pops) /\
                       (length pops <= length s)%nat) (ParseScript s).
Proof.
  intros Hok. unfold ParseScript, parseScriptTemplate.
  destruct (parse_loop_spec (length s) s (le_n _) Hok) as (rest & Hs & Hwf & Herr).
  destruct (parse_loop (length s) s) as [pops [e|]]; [done|]. cbn [fst snd] in *.
  destruct Herr as [[_ ->]|[? _]]; [|done]. rewrite app_nil_r in Hs. cbn [post]. split_and!; [done | done|].
  rewrite Hs. clear. induction pops as [|pop pops IH]; cbn [map concat]; [done|].
  rewrite length_app. cbn [pop_image length]. lia.
Qed.

Lemma parse_loop_image fuel pops :
  Forall wf_pop pops -> (length (concat (map pop_image pops)) <= fuel)%nat ->
  parse_loop fuel (concat (map pop_image pops)) = (pops, None).
Proof.
  intros H. revert fuel. induction H as [|pop pops Hp _ IH]; intros fuel Hf; [by destruct fuel|].
  cbn [map concat] in *. rewrite length_app in Hf. pose proof (length_pop_image pop).
  destruct fuel as [|fuel]; [lia|]. rewrite pop_image_cons. cbn [app parse_loop].
  rewrite parse_one_image by done. rewrite IH by lia. done.
Qed.

(** * What a signature hash commits to *)

Lemma putUint_inj n a b :
  is_u (8 * Z.of_nat n) a -> is_u (8 * Z.of_nat n) b -> putUint n a = putUint n b -> a = b.
Proof.
  intros Ha Hb H. pose proof (codec_read a [] Ha) as E1. pose proof (codec_read b [] Hb) as E2.
  rewrite H, E2 in E1. congruence.
Qed.

(** Concatenated self-delimiting encodings determine the list. *)
Lemma concat_codec_inj {A} {read : reader A} {write wf} `{!Codec read write wf} l1 l2 :
  Forall wf l1 -> Forall wf l2 -> Forall (fun x => write x <> []) (l1 ++ l2) ->
  concat (map write l1) = concat (map write l2) -> l1 = l2.
Proof.
  intros H1. revert l2. induction H1 as [|x l1 Hx _ IH]; intros l2 H2 Hne H.
  - destruct l2 as [|y l2]; [done|]. cbn in *. apply Forall_cons in Hne as [Hy _].
    destruct (write y); done.
  - destruct H2 as [|y l2 Hy H2]; cbn in *.
    + apply Forall_cons in Hne as [Hn _]. by destruct (write x).
    + apply Forall_cons in Hne as [_ Hne]. apply Forall_app in Hne as [Hn1 Hn2].
      apply Forall_cons in Hn2 as [_ Hn2].
      pose proof (codec_read x (concat (map write l1)) Hx) as E1.
      rewrite H, codec_read in E1 by done. injection E1 as -> E1.
      f_equal. apply IH; [done | by apply Forall_app | by rewrite E1].
Qed.

(** Two different messages with the same double hash. *)
Definition colliding (a b : bytes) : Prop := a <> b /\ DoubleHashB a = DoubleHashB b.

(** The buffers of one of the fragments of two transactions collide. *)
Definition fragments_collide (tx1 tx2 : MsgTx) : Prop :=
  colliding (prevouts_buffer tx1) (prevouts_buffer tx2) \/
  colliding (sequence_buffer tx1) (sequence_buffer tx2) \/
  colliding (outputs_buffer tx1) (outputs_buffer tx2).

Lemma hash_eq a b : DoubleHashH a = DoubleHashH b -> a = b \/ colliding a b.
Proof.
  intros H. destruct (decide (a = b)) as [|Hne]; [by left | right].
  split; [exact Hne | exact H].
Qed.

Lemma DoubleHash_length b : length (DoubleHashH b) = 32%nat.
Proof. apply sha256_length. Qed.

Lemma prevouts_inj l1 l2 :
  Forall wf_txin l1 -> Forall wf_txin l2 ->
  concat (map (fun ti => Hash (PreviousOutPoint ti) ++ putUint 4 (Index (PreviousOutPoint ti))) l1) =
  concat (map (fun ti => Hash (PreviousOutPoint ti) ++ putUint 4 (Index (PreviousOutPoint ti))) l2) ->
  map PreviousOutPoint l1 = map PreviousOutPoint l2.
Proof.
  intros H1 H2 H. apply (concat_codec_inj (read := readOutPoint) (write := writeOutPoint)).
  - apply Forall_map. eapply Forall_impl; [exact H1|]. intros ti (? & ? & ? & _). done.
  - apply Forall_map. eapply Forall_impl; [exact H2|]. intros ti (? & ? & ? & _). done.
  - apply Forall_forall. intros [h i] _ Hn. apply (f_equal len) in Hn. unfold writeOutPoint in Hn.
    rewrite len_app, len_putUint, len_nil in Hn. pose proof (len_nonneg (Hash (mkOutPoint h i))). lia.
  - by rewrite !map_map.
Qed.

Lemma sequences_inj l1 l2 :
  Forall wf_txin l1 -> Forall wf_txin l2 ->
  concat (map (fun ti => putUint 4 (Sequence ti)) l1) =
  concat (map (fun ti => putUint 4 (Sequence ti)) l2) ->
  map Sequence l1 = map Sequence l2.
Proof.
  intros H1 H2 H. apply (concat_codec_inj (read := readUint 4) (write := putUint 4)).
  - apply Forall_map. eapply Forall_impl; [exact H1|]. intros ti (? & ? & ? & ? & ? & ?). done.
  - apply Forall_map. eapply Forall_impl; [exact H2|]. intros ti (? & ? & ? & ? & ? & ?). done.
  - apply Forall_forall. done.
  - by rewrite !map_map.
Qed.

Lemma outputs_inj l1 l2 :
  Forall wf_txout l1 -> Forall wf_txout l2 ->
  concat (map WriteTxOut l1) = concat (map WriteTxOut l2) -> l1 = l2.
Proof.
  intros H1 H2. apply (concat_codec_inj (read := readTxOut)); [done..|].
  apply Forall_forall. done.
Qed.

Lemma strip_ins_eq l1 l2 :
  map PreviousOutPoint l1 = map PreviousOutPoint l2 -> map Sequence l1 = map Sequence l2 ->
  map (fun ti => set_SignatureScript ti []) l1 = map (fun ti => set_SignatureScript ti []) l2.
Proof.
  revert l2. induction l1 as [|a l1 IH]; intros [|b l2] H1 H2; cbn in *; try done.
  injection H1 as Ho H1. injection H2 as Hs H2. f_equal; [|by apply IH].
  unfold set_SignatureScript. by rewrite Ho, Hs.
Qed.

(** The fields of a signature hash message can be read off it. *)
Lemma sighash_message_inj sh1 sh2 ht1 ht2 tx1 tx2 ti1 ti2 amt1 amt2 :
  wf_tx tx1 -> wf_tx tx2 -> wf_txin ti1 -> wf_txin ti2 -> is_s 64 amt1 -> is_s 64 amt2 ->
  is_u 32 ht1 -> is_u 32 ht2 ->
  length (HashPrevOuts sh1) = 32%nat -> length (HashPrevOuts sh2) = 32%nat ->
  length (HashSequence sh1) = 32%nat -> length (HashSequence sh2) = 32%nat ->
  length (HashOutputs sh1) = 32%nat -> length (HashOutputs sh2) = 32%nat ->
  sighash_message sh1 ht1 tx1 ti1 amt1 = sighash_message sh2 ht2 tx2 ti2 amt2 ->
  sh1 = sh2 /\ tx_Version tx1 = tx_Version tx2 /\ tx_LockTime tx1 = tx_LockTime tx2 /\
  PreviousOutPoint ti1 = PreviousOutPoint ti2 /\ Sequence ti1 = Sequence ti2 /\
  amt1 = amt2 /\ ht1 = ht2.
Proof.
  intros (Hv1 & _ & _ & Hl1 & _) (Hv2 & _ & _ & Hl2 & _) (Hh1 & _ & Hi1 & _ & _ & Hq1)
    (Hh2 & _ & Hi2 & _ & _ & Hq2) Ha1 Ha2 Ht1 Ht2 Hp1 Hp2 Hs1 Hs2 Ho1 Ho2 H.
  unfold sighash_message in H.
  assert (forall n v, length (putUint n v) = n) as Hpu by (intros; apply length_le_encode).
  repeat (apply app_inj_1 in H as [? H]; [|by rewrite ?Hpu; congruence]).
  repeat match goal with
  | E : putUint _ _ = putUint _ _ |- _ => apply putUint_inj in E; [|done || apply wrapu_range; lia..]
  end.
  rewrite <- (wraps_wrapu 32 (tx_Version tx1)), <- (wraps_wrapu 32 (tx_Version tx2)) by done.
  rewrite <- (wraps_wrapu 64 amt1), <- (wraps_wrapu 64 amt2) by done.
  rewrite <- (wrapu_small 32 ht1), <- (wrapu_small 32 ht2) by done.
  destruct sh1, sh2, ti1 as [[? ?] ? ?], ti2 as [[? ?] ? ?]; cbn in *. split_and!; congruence.
Qed.

Lemma calcSignatureHashNew_message sub sh ht tx i amt h :
  0 <= i < len (tx_TxIn tx) -> calcSignatureHashNew sub sh ht tx i amt = Ok h ->
  exists ti, tx_TxIn tx !! Z.to_nat i = Some ti /\ h = DoubleHashH (sighash_message sh ht tx ti amt).
Proof.
  intros Hi H. unfold calcSignatureHashNew in H. replace (len _ <=? i) with false in H by lia.
  apply bind_Ok in H as (ti & Hti & H). apply idx_Ok in Hti as [_ Hti].
  exists ti. split; [exact Hti|]. by injection H as <-.
Qed.

(** Equal messages of two inputs. *)
Lemma sighash_message_binding tx1 tx2 ti1 ti2 amt1 amt2 ht1 ht2 :
  wf_tx tx1 -> wf_tx tx2 -> ti1 ∈ tx_TxIn tx1 -> ti2 ∈ tx_TxIn tx2 ->
  is_s 64 amt1 -> is_s 64 amt2 -> is_u 32 ht1 -> is_u 32 ht2 ->
  sighash_message (NewTxSigHashes tx1) ht1 tx1 ti1 amt1 =
  sighash_message (NewTxSigHashes tx2) ht2 tx2 ti2 amt2 ->
  (strip_tx tx1 = strip_tx tx2 /\ PreviousOutPoint ti1 = PreviousOutPoint ti2 /\
   amt1 = amt2 /\ ht1 = ht2) \/ fragments_collide tx1 tx2.
Proof.
  intros Hw1 Hw2 Hm1 Hm2 Ha1 Ha2 Ht1 Ht2 H.
  pose proof Hw1 as (_ & Hin1 & Hout1 & _). pose proof Hw2 as (_ & Hin2 & Hout2 & _).
  rewrite Forall_forall in Hin1, Hin2. pose proof (Hin1 _ Hm1) as Hti1. pose proof (Hin2 _ Hm2) as Hti2.
  rewrite <- Forall_forall in Hin1, Hin2.
  apply sighash_message_inj in H as (Hsh & Hv & Hl & Hop & _ & Ha & Ht); try assumption;
    try apply DoubleHash_length.
  pose proof (f_equal HashPrevOuts Hsh) as Hp. change (calcHashPrevOuts tx1 = calcHashPrevOuts tx2) in Hp.
  pose proof (f_equal HashSequence Hsh) as Hq. change (calcHashSequence tx1 = calcHashSequence tx2) in Hq.
  pose proof (f_equal HashOutputs Hsh) as Ho. change (calcHashOutputs tx1 = calcHashOutputs tx2) in Ho.
  apply hash_eq in Hp as [Hp|Hp]; [|right; left; exact Hp].
  apply hash_eq in Hq as [Hq|Hq]; [|right; right; left; exact Hq].
  apply hash_eq in Ho as [Ho|Ho]; [|right; right; right; exact Ho]. left.
  apply prevouts_inj in Hp; [|done..]. apply sequences_inj in Hq; [|done..].
  apply outputs_inj in Ho; [|done..]. split_and!; [|done..].
  unfold strip_tx. by rewrite Hv, Hl, Ho, (strip_ins_eq _ _ Hp Hq).
Qed.

(** ** The properties of the component *)

(** Parsing is exact on every byte string: the opcodes returned, also with
    an error, unparse to a prefix of the script; without an error the prefix
    is the whole script, and the only error is a push that is cut off. *)
Theorem parse_exact s pops err :
  bytes_ok s -> parseScriptTemplate s = (pops, err) ->
  exists consumed rest, UnparseScript pops = Ok consumed /\ s = consumed ++ rest /\
    (err = None /\ rest = [] \/ err = Some ErrMalformedPush /\ rest <> []).
Proof.
  intros Hok H. unfold parseScriptTemplate in H.
  destruct (parse_loop_spec (length s) s (le_n _) Hok) as (rest & Hs & Hwf & Herr).
  rewrite H in *. cbn [fst snd] in *. exists (concat (map pop_image pops)), rest.
  split_and!; [by apply UnparseScript_image | done | done].
Qed.

Lemma unparse_wf pops :
  Forall wf_pop pops ->
  UnparseScript pops = Ok (concat (map pop_image pops)) /\ ParseScript (concat (map pop_image pops)) = Ok pops.
Proof.
  intros Hwf. split; [by apply UnparseScript_image|].
  unfold ParseScript, parseScriptTemplate. by rewrite parse_loop_image.
Qed.

(** Unparsing well-formed opcodes and parsing the bytes gives the opcodes
    back. *)
Theorem unparse_parse pops :
  Forall wf_pop pops -> exists s, UnparseScript pops = Ok s /\ ParseScript s = Ok pops.
Proof.
  intros Hwf. exists (concat (map pop_image pops)). by apply unparse_wf.
Qed.

(** C26: a signature hash commits to the transaction: two inputs with the same
    signature hash spend the same outpoint with the same amount and hash type,
    in transactions that are equal up to their signature scripts, unless what
    the code hashes for these two inputs is a collision of double SHA-256: their
    messages, or the buffers of one of the three fragments. *)
Theorem sighash_binding tx1 tx2 sub1 sub2 i1 i2 amt1 amt2 ht1 ht2 h :
  wf_tx tx1 -> wf_tx tx2 -> 0 <= i1 < len (tx_TxIn tx1) -> 0 <= i2 < len (tx_TxIn tx2) ->
  is_s 64 amt1 -> is_s 64 amt2 -> is_u 32 ht1 -> is_u 32 ht2 ->
  calcSignatureHashNew sub1 (NewTxSigHashes tx1) ht1 tx1 i1 amt1 = Ok h ->
  calcSignatureHashNew sub2 (NewTxSigHashes tx2) ht2 tx2 i2 amt2 = Ok h ->
  exists ti1 ti2,
    tx_TxIn tx1 !! Z.to_nat i1 = Some ti1 /\ tx_TxIn tx2 !! Z.to_nat i2 = Some ti2 /\
    ((strip_tx tx1 = strip_tx tx2 /\ PreviousOutPoint ti1 = PreviousOutPoint ti2 /\
      amt1 = amt2 /\ ht1 = ht2) \/
     fragments_collide tx1 tx2 \/
     colliding (sighash_message (NewTxSigHashes tx1) ht1 tx1 ti1 amt1)
               (sighash_message (NewTxSigHashes tx2) ht2 tx2 ti2 amt2)).
Proof.
  intros Hw1 Hw2 Hi1 Hi2 Ha1 Ha2 Ht1 Ht2 E1 E2.
  apply calcSignatureHashNew_message in E1 as (ti1 & Hl1 & E1); [|done].
  apply calcSignatureHashNew_message in E2 as (ti2 & Hl2 & E2); [|done].
  exists ti1, ti2. split; [exact Hl1|]. split; [exact Hl2|].
  rewrite E1 in E2. apply hash_eq in E2 as [E2|E2]; [|right; right; exact E2].
  destruct (sighash_message_binding tx1 tx2 ti1 ti2 amt1 amt2 ht1 ht2) as [Hb|Hb];
    try assumption; try (eapply list_elem_of_lookup_2; eassumption).
  - left. exact Hb.
  - right. left. exact Hb.
Qed.

Lemma sighash_binding_witness :
  let ti := mkTxIn (mkOutPoint (replicate 32 5) 1) [1; 2; 3] MaxTxInSequenceNum in
  exists ti1 ti2,
    tx_TxIn example_tx !! 0%nat = Some ti1 /\ tx_TxIn example_tx !! 0%nat = Some ti2 /\
    ((strip_tx example_tx = strip_tx example_tx /\ PreviousOutPoint ti1 = PreviousOutPoint ti2 /\
      1000 = 1000 /\ 1 = 1) \/
     fragments_collide example_tx example_tx \/
     colliding (sighash_message (NewTxSigHashes example_tx) 1 example_tx ti1 1000)
               (sighash_message (NewTxSigHashes example_tx) 1 example_tx ti2 1000)).
Proof.
  intros ti.
  apply (sighash_binding example_tx example_tx [] [] 0 0 1000 1000 1 1
    (DoubleHashB (sighash_message (NewTxSigHashes example_tx) 1 example_tx ti 1000)));
    try apply wf_example_tx; try (unfold is_s, is_u; lia); try reflexivity; split; reflexivity || lia.
Defined.

End Script.
