(* ===== verification/ScriptBuilder.v ===== *)
(** Building scripts with canonical pushes: [src/txscript/scriptbuilder.go], and
    the script of an admin thread, [ThreadPkScript] of [src/txscript/script.go]. *)
From S2P Require Import Prelude PubKey Opcode ScriptNum Script.
Import Opcode ScriptNum Script.
#[local] Open Scope Z_scope.

Module ScriptBuilder.

Definition MaxScriptSize : Z := 10000.

Record builder := mkBuilder { b_script : bytes; b_err : option ErrorCode }.

Definition NewScriptBuilder : builder := mkBuilder [] None.
Definition Reset (b : builder) : builder := mkBuilder [] None.

Definition set_err (b : builder) : builder := mkBuilder (b_script b) (Some ErrScriptNotCanonical).
Definition append (b : builder) (l : bytes) : builder := mkBuilder (b_script b ++ l) (b_err b).

Definition AddOp (b : builder) (opcode : Z) : builder :=
  match b_err b with
  | Some _ => b
  | None => if MaxScriptSize <? len (b_script b) + 1 then set_err b else append b [opcode]
  end.

Definition AddOps (b : builder) (opcodes : bytes) : builder :=
  match b_err b with
  | Some _ => b
  | None =>
      if MaxScriptSize <? len (b_script b) + len opcodes then set_err b else append b opcodes
  end.

(** [data[0]] is only read where the length is one. *)
Definition canonicalDataSize (data : bytes) : Z :=
  let dataLen := len data in
  let data0 := default 0 (data !! 0%nat) in
  if dataLen =? 0 then 1
  else if (dataLen =? 1) && (data0 <=? 16) then 1
  else if (dataLen =? 1) && (data0 =? 0x81) then 1
  else if dataLen <? OP_PUSHDATA1 then 1 + dataLen
  else if dataLen <=? 0xff then 2 + dataLen
  else if dataLen <=? 0xffff then 3 + dataLen
  else 5 + dataLen.

Definition addData (b : builder) (data : bytes) : builder :=
  let dataLen := len data in
  let data0 := default 0 (data !! 0%nat) in
  if (dataLen =? 0) || ((dataLen =? 1) && (data0 =? 0)) then append b [OP_0]
  else if (dataLen =? 1) && (data0 <=? 16) then append b [u8 (OP_1 - 1 + data0)]
  else if (dataLen =? 1) && (data0 =? 0x81) then append b [OP_1NEGATE]
  else
    let b :=
      if dataLen <? OP_PUSHDATA1 then append b [u8 (OP_DATA_1 - 1 + dataLen)]
      else if dataLen <=? 0xff then append b [OP_PUSHDATA1; u8 dataLen]
      else if dataLen <=? 0xffff then append b (OP_PUSHDATA2 :: le_encode 2 (u16 dataLen))
      else append b (OP_PUSHDATA4 :: le_encode 4 (u32 dataLen)) in
    append b data.

Definition AddFullData (b : builder) (data : bytes) : builder :=
  match b_err b with Some _ => b | None => addData b data end.

Definition AddData (b : builder) (data : bytes) : builder :=
  match b_err b with
  | Some _ => b
  | None =>
      let dataSize := canonicalDataSize data in
      if MaxScriptSize <? len (b_script b) + dataSize then set_err b
      else if MaxScriptElementSize <? len data then set_err b
      else addData b data
  end.

Definition AddInt64 (b : builder) (val : Z) : res ErrorCode builder :=
  match b_err b with
  | Some _ => Ok b
  | None =>
      if MaxScriptSize <? len (b_script b) + 1 then Ok (set_err b)
      else if val =? 0 then Ok (append b [OP_0])
      else if (val =? -1) || ((1 <=? val) && (val <=? 16)) then Ok (append b [u8 (OP_1 - 1 + val)])
      else data ← Bytes val; Ok (AddData b data)
  end.

Definition script_of (b : builder) : res ErrorCode bytes :=
  match b_err b with None => Ok (b_script b) | Some e => Err e end.

(** [ThreadPkScript] of script.go. *)
Definition ThreadPkScript (keyHashes : list bytes) : res ErrorCode bytes :=
  if len keyHashes <? 2 then Err (ErrOther "invalid chain state, at least 2 keys required")
  else
    let pkScript := AddOp NewScriptBuilder OP_2 in
    let pkScript := fold_left AddData keyHashes pkScript in
    pkScript ← AddInt64 pkScript (len keyHashes);
    script_of (AddOp pkScript OP_CHECKTHREAD).

(** * What a push opcode pushes *)

(** The value the engine pushes for a push opcode: the data, the empty string
    for OP_0, and the numbers of OP_1NEGATE and OP_1 to OP_16. *)
Definition push_value (pop : parsedOpcode) : bytes :=
  let v := pop_value pop in
  if v =? OP_1NEGATE then [0x81]
  else if (OP_1 <=? v) && (v <=? OP_16) then [v - (OP_1 - 1)]
  else pop_data pop.

(** The opcode [addData] chooses. *)
Definition canonical_pop (data : bytes) : parsedOpcode :=
  let dataLen := len data in
  let data0 := default 0 (data !! 0%nat) in
  if (dataLen =? 0) || ((dataLen =? 1) && (data0 =? 0)) then mkPop (opcodeArray OP_0) []
  else if (dataLen =? 1) && (data0 <=? 16) then mkPop (opcodeArray (OP_1 - 1 + data0)) []
  else if (dataLen =? 1) && (data0 =? 0x81) then mkPop (opcodeArray OP_1NEGATE) []
  else mkPop (opcodeArray (if dataLen <? OP_PUSHDATA1 then dataLen
                           else if dataLen <=? 0xff then OP_PUSHDATA1
                           else if dataLen <=? 0xffff then OP_PUSHDATA2
                           else OP_PUSHDATA4)) data.

(** The push opcode for data that is not a small number. *)
Definition push_opcode (dataLen : Z) : Z :=
  if dataLen <? OP_PUSHDATA1 then dataLen
  else if dataLen <=? 0xff then OP_PUSHDATA1
  else if dataLen <=? 0xffff then OP_PUSHDATA2
  else OP_PUSHDATA4.

(** A builder that has built the opcodes [pops] without an error. *)
Definition built (b : builder) (pops : list parsedOpcode) : Prop :=
  b_err b = None /\ Forall wf_pop pops /\ b_script b = concat (map pop_image pops).

(** * Facts *)

Lemma built_new : built NewScriptBuilder [].
Proof. split_and!; [done | constructor | done]. Qed.

Lemma built_script b pops :
  built b pops -> exists s, script_of b = Ok s /\ s = b_script b /\ ParseScript s = Ok pops.
Proof.
  intros (He & Hwf & Hs). exists (b_script b). unfold script_of. rewrite He. split_and!; try done.
  unfold ParseScript, parseScriptTemplate. rewrite Hs. by rewrite parse_loop_image.
Qed.

Lemma built_append b pops pop l :
  built b pops -> wf_pop pop -> pop_image pop = l -> built (append b l) (pops ++ [pop]).
Proof.
  intros (He & Hwf & Hs) Hp <-. split_and!; [done | apply Forall_app; by repeat constructor |].
  cbn. rewrite Hs, map_app, concat_app. cbn. by rewrite app_nil_r.
Qed.

(** A one-byte opcode is well formed, and its image is its byte. *)
Lemma wf_simple v :
  is_byte v -> op_length (opcodeArray v) = 1 ->
  wf_pop (mkPop (opcodeArray v) []) /\ pop_image (mkPop (opcodeArray v) []) = [v].
Proof.
  intros Hv Hl. split.
  - exists v. rewrite Hl. split_and!; try done. constructor.
  - unfold pop_image. cbn. by rewrite Hl, opcodeArray_value.
Qed.

Lemma built_AddOp b pops v :
  built b pops -> is_byte v -> op_length (opcodeArray v) = 1 -> len (b_script b) < MaxScriptSize ->
  built (AddOp b v) (pops ++ [mkPop (opcodeArray v) []]) /\
  len (b_script (AddOp b v)) = len (b_script b) + 1.
Proof.
  intros Hb Hv Hl Hs. unfold AddOp. rewrite (proj1 Hb).
  replace (MaxScriptSize <? _) with false by lia. destruct (wf_simple v Hv Hl) as [Hwf Hi]. split.
  - by apply built_append.
  - cbn. by rewrite len_app.
Qed.

(** A push with [n] length bytes. *)
Lemma wf_push v n data :
  is_byte v -> op_length (opcodeArray v) = - n -> 0 < n -> bytes_ok data -> len data < 256 ^ n ->
  wf_pop (mkPop (opcodeArray v) data).
Proof.
  intros Hv Hl Hn Hok Hd. exists v. cbn [pop_opcode pop_data]. rewrite Hl, Z.opp_involutive.
  replace (- n =? 1) with false by lia. by replace (1 <? - n) with false by lia.
Qed.

(** The image of the chosen opcode, and that it is well formed. *)
Lemma canonical_pop_wf data :
  bytes_ok data -> len data < 2 ^ 32 -> wf_pop (canonical_pop data).
Proof.
  intros Hok Hl. unfold canonical_pop. pose proof (len_nonneg data).
  case_if_as H0; [by apply wf_simple|].
  assert (forall v, 81 <= v <= 96 -> op_length (opcodeArray v) = 1) as Hsmall
    by (intros v Hv; rewrite opcodeArray_length by (unfold is_byte; lia);
        unfold OP_PUSHDATA1, OP_PUSHDATA2, OP_PUSHDATA4; repeat (case_if; try lia)).
  case_if_as H1.
  { destruct data as [|d data]; [by vm_compute in H1|]. apply Forall_cons in Hok as [Hd _]. unfold is_byte in Hd.
    cbn in H0, H1. apply wf_simple; unfold OP_1, is_byte in *; [cbn; lia | apply Hsmall; cbn; lia]. }
  clear Hsmall. case_if_as H2; [by apply wf_simple|].
  assert (1 <= len data) as Hne by (destruct (Z.eqb_spec (len data) 0); [done | lia]).
  destruct (Z.ltb_spec (len data) OP_PUSHDATA1) as [H3|H3]; unfold OP_PUSHDATA1 in *.
  - exists (len data). cbn [pop_opcode pop_data]. rewrite opcodeArray_length by (unfold is_byte; lia).
    replace ((1 <=? len data) && (len data <=? 75)) with true by lia.
    split_and!; [unfold is_byte; lia.. | done | done |].
    replace (len data + 1 =? 1) with false by lia. replace (1 <? len data + 1) with true by lia. lia.
  - destruct (Z.leb_spec (len data) 0xff); [|destruct (Z.leb_spec (len data) 0xffff)].
    + by apply (wf_push OP_PUSHDATA1 1); [..|lia].
    + by apply (wf_push OP_PUSHDATA2 2); [..|lia].
    + by apply (wf_push OP_PUSHDATA4 4); [..|lia].
Qed.

Lemma push_opcode_range n : 0 <= n -> 0 <= push_opcode n <= 78 /\ is_byte (push_opcode n).
Proof.
  intros Hn. unfold push_opcode, is_byte, OP_PUSHDATA1, OP_PUSHDATA2, OP_PUSHDATA4.
  destruct (Z.ltb_spec n 76); [lia|]. repeat case_if; lia.
Qed.

(** The four shapes of the data. *)
Lemma canonical_pop_cases data :
  bytes_ok data ->
  ((data = [] \/ data = [0]) /\ canonical_pop data = mkPop (opcodeArray OP_0) []) \/
  (exists d, data = [d] /\ 1 <= d <= 16 /\ canonical_pop data = mkPop (opcodeArray (80 + d)) []) \/
  (data = [0x81] /\ canonical_pop data = mkPop (opcodeArray OP_1NEGATE) []) \/
  (1 <= len data /\ (forall d, data = [d] -> 16 < d /\ d <> 0x81) /\
   canonical_pop data = mkPop (opcodeArray (push_opcode (len data))) data).
Proof.
  intros Hok. unfold canonical_pop. pose proof (len_nonneg data).
  destruct data as [|d [|e t]].
  - left. auto.
  - change (len [d]) with 1. cbn [lookup list_lookup default from_option]. unfold id.
    apply Forall_cons in Hok as [Hd _]. unfold is_byte in Hd. cbn [Z.eqb Pos.eqb orb andb].
    destruct (Z.eqb_spec d 0) as [->|]; [left; auto|].
    destruct (Z.leb_spec d 16) as [H16|H16]; [right; left; exists d; split_and!; [done | lia.. | done]|].
    destruct (Z.eqb_spec d 0x81) as [->|]; [right; right; left; done|].
    right; right; right. split_and!; [done | | done]. intros d' [= <-]. lia.
  - assert (2 <= len (d :: e :: t)) as H2 by (rewrite !len_cons; pose proof (len_nonneg t); lia).
    right; right; right. split_and!; [lia | done |].
    replace (len (d :: e :: t) =? 0) with false by lia.
    by replace (len (d :: e :: t) =? 1) with false by lia.
Qed.

(** The chosen opcode pushes the data, except that a single zero byte becomes
    the empty string. *)
Lemma canonical_pop_value data :
  bytes_ok data ->
  push_value (canonical_pop data) = if decide (data = [0]) then [] else data.
Proof.
  intros Hok. unfold push_value, pop_value.
  destruct (canonical_pop_cases data Hok) as [[Hd ->]|[(d & -> & Hd & ->)|[[-> ->]|(Hl & Hd & ->)]]];
    cbn [pop_opcode pop_data].
  - by destruct Hd as [->| ->].
  - rewrite opcodeArray_value by (unfold is_byte; lia). unfold OP_1NEGATE, OP_1, OP_16.
    replace (80 + d =? 79) with false by lia.
    replace ((81 <=? 80 + d) && (80 + d <=? 96)) with true by lia.
    rewrite decide_False by (intros [= ->]; lia). f_equal. lia.
  - done.
  - pose proof (push_opcode_range (len data)) as [Hr Hb]; [lia|].
    rewrite opcodeArray_value by done. unfold OP_1NEGATE, OP_1, OP_16.
    replace (push_opcode (len data) =? 79) with false by lia.
    replace ((81 <=? push_opcode (len data)) && _) with false by lia.
    rewrite decide_False; [done|]. intros ->. destruct (Hd 0 eq_refl). lia.
Qed.

(** The engine accepts the chosen opcode as the minimal push of its data. *)
Lemma canonical_pop_minimal data :
  bytes_ok data -> len data <= 65535 -> pop_value (canonical_pop data) <= OP_PUSHDATA4 ->
  checkMinimalDataPush (canonical_pop data) = Ok ().
Proof.
  intros Hok Hlen. unfold pop_value.
  destruct (canonical_pop_cases data Hok) as [[Hd ->]|[(d & -> & Hd & ->)|[[-> ->]|(Hl & Hd & ->)]]];
    cbn [pop_opcode pop_data].
  - done.
  - rewrite opcodeArray_value by (unfold is_byte; lia). unfold OP_PUSHDATA4. lia.
  - done.
  - pose proof (push_opcode_range (len data)) as [Hr Hb]; [lia|]. intros _.
    unfold checkMinimalDataPush, pop_value. cbn [pop_opcode pop_data].
    rewrite opcodeArray_value by done. replace (len data =? 0) with false by lia. cbn [andb].
    assert ((len data =? 1) && (1 <=? default 0 (data !! 0%nat)) && (default 0 (data !! 0%nat) <=? 16) = false
            /\ (len data =? 1) && (default 0 (data !! 0%nat) =? 0x81) = false) as [-> ->].
    { destruct (Z.eqb_spec (len data) 1) as [H1|]; [|done]. cbn [andb].
      destruct data as [|d [|e t]]; [done | | rewrite !len_cons in H1; pose proof (len_nonneg t); lia].
      destruct (Hd d eq_refl). cbn. lia. }
    unfold push_opcode, OP_PUSHDATA1, OP_PUSHDATA2, OP_PUSHDATA4.
    destruct (Z.leb_spec (len data) 75).
    { replace (len data <? 76) with true by lia. by rewrite Z.eqb_refl. }
    replace (len data <? 76) with false by lia. destruct (Z.leb_spec (len data) 255); [done|].
    destruct (Z.leb_spec (len data) 65535); [done | lia].
Qed.

(** [addData] appends the bytes of the chosen opcode. *)
Lemma addData_image b data :
  bytes_ok data -> len data < 2 ^ 32 ->
  addData b data = append b (pop_image (canonical_pop data)).
Proof.
  intros Hok Hlen. pose proof (canonical_pop_wf data Hok Hlen) as Hwf. revert Hwf.
  unfold addData. pose proof (len_nonneg data).
  destruct (canonical_pop_cases data Hok) as [[Hd ->]|[(d & -> & Hd & ->)|[[-> ->]|(Hl & Hd & ->)]]]; intros Hwf.
  - by destruct Hd as [->| ->].
  - change (len [d]) with 1. cbn [lookup list_lookup default from_option]. unfold id.
    cbn [Z.eqb Pos.eqb orb andb]. replace (d =? 0) with false by lia. replace (d <=? 16) with true by lia.
    unfold OP_1. rewrite wrapu_small by (unfold is_u; lia).
    destruct (wf_simple (80 + d)) as [_ ->]; [unfold is_byte; lia | | f_equal; f_equal; lia].
    rewrite opcodeArray_length by (unfold is_byte; lia).
    unfold OP_PUSHDATA1, OP_PUSHDATA2, OP_PUSHDATA4. repeat (case_if; try lia).
  - done.
  - replace (len data =? 0) with false by lia. cbn [orb].
    assert ((len data =? 1) && (default 0 (data !! 0%nat) =? 0) = false /\
            (len data =? 1) && (default 0 (data !! 0%nat) <=? 16) = false /\
            (len data =? 1) && (default 0 (data !! 0%nat) =? 0x81) = false) as (-> & -> & ->).
    { destruct (Z.eqb_spec (len data) 1) as [H1|]; [|done]. cbn [andb].
      destruct data as [|d [|e t]]; [done | | rewrite !len_cons in H1; pose proof (len_nonneg t); lia].
      destruct (Hd d eq_refl). cbn. lia. }
    unfold pop_image. cbn [pop_opcode pop_data].
    pose proof (push_opcode_range (len data)) as [Hr Hb]; [lia|].
    rewrite opcodeArray_value by done. rewrite opcodeArray_length by done.
    unfold push_opcode in *. unfold OP_PUSHDATA1, OP_PUSHDATA2, OP_PUSHDATA4, OP_DATA_1 in *.
    unfold append. destruct (Z.ltb_spec (len data) 76) as [H76|H76].
    + replace ((1 <=? len data) && (len data <=? 75)) with true by lia.
      replace (len data + 1 <? 0) with false by lia. rewrite wrapu_small by (unfold is_u; lia).
      cbn [b_script b_err]. rewrite <- app_assoc. cbn [app]. by do 3 f_equal.
    + destruct (Z.leb_spec (len data) 0xff); [|destruct (Z.leb_spec (len data) 0xffff)].
      * cbn [b_script b_err]. by rewrite <- app_assoc.
      * rewrite wrapu_small by (unfold is_u; lia). cbn [b_script b_err]. by rewrite <- app_assoc.
      * rewrite wrapu_small by (unfold is_u; lia). cbn [b_script b_err]. by rewrite <- app_assoc.
Qed.

Lemma len_pop_image data :
  bytes_ok data -> len data < 2 ^ 32 -> len (pop_image (canonical_pop data)) = canonicalDataSize data.
Proof.
  intros Hok Hlen. pose proof (len_nonneg data).
  assert (forall b, b_script (addData b data) = b_script b ++ pop_image (canonical_pop data)) as Hs
    by (intros b; by rewrite addData_image).
  specialize (Hs NewScriptBuilder). cbn [b_script NewScriptBuilder app] in Hs. rewrite <- Hs.
  unfold addData, canonicalDataSize, append, NewScriptBuilder.
  destruct (Z.eqb_spec (len data) 0); [done|]. cbn [orb].
  destruct (Z.eqb_spec (len data) 1) as [H1|]; cbn [andb].
  - destruct (Z.eqb_spec (default 0 (data !! 0%nat)) 0) as [->|]; [done|].
    destruct (default 0 (data !! 0%nat) <=? 16); [done|].
    destruct (default 0 (data !! 0%nat) =? 129); [done|].
    rewrite H1. change (1 <? OP_PUSHDATA1) with true. cbn. rewrite len_cons, H1. done.
  - case_if; [cbn; rewrite len_cons; lia|].
    repeat case_if; cbn [b_script app]; rewrite ?len_cons, ?len_app; unfold len in *;
      rewrite ?length_le_encode; cbn [length]; lia.
Qed.

Lemma built_AddData b pops data :
  built b pops -> bytes_ok data -> len data <= MaxScriptElementSize ->
  len (b_script b) + canonicalDataSize data <= MaxScriptSize ->
  built (AddData b data) (pops ++ [canonical_pop data]) /\
  len (b_script (AddData b data)) = len (b_script b) + canonicalDataSize data.
Proof.
  intros Hb Hok Hl Hs. unfold MaxScriptElementSize in *. unfold AddData. rewrite (proj1 Hb).
  replace (MaxScriptSize <? _) with false by lia. unfold MaxScriptElementSize.
  replace (520 <? len data) with false by lia.
  rewrite addData_image by (done || lia). split.
  - apply built_append; [done | apply canonical_pop_wf; [done | lia] | done].
  - cbn [append b_script]. rewrite len_app, len_pop_image by (done || lia). done.
Qed.

Lemma canonicalDataSize_bound data : canonicalDataSize data <= 5 + len data.
Proof. unfold canonicalDataSize. pose proof (len_nonneg data). repeat case_if; lia. Qed.

Lemma built_AddInt64 b pops val :
  built b pops -> - 2 ^ 63 < val < 2 ^ 63 -> len (b_script b) + 13 <= MaxScriptSize ->
  exists b' data, AddInt64 b val = Ok b' /\ Bytes val = Ok data /\
    built b' (pops ++ [canonical_pop data]) /\ len (b_script b') <= len (b_script b) + 13.
Proof.
  intros Hb Hv Hs. unfold AddInt64. rewrite (proj1 Hb). replace (MaxScriptSize <? _) with false by lia.
  destruct (Z.eqb_spec val 0) as [->|H0].
  { do 2 eexists. split_and!; [done | done | by apply built_append; [done | apply wf_simple|] |].
    cbn. rewrite len_app. change (len [OP_0]) with 1. lia. }
  destruct (_ || _) eqn:H1.
  - exists (append b [u8 (OP_1 - 1 + val)]), [if val =? -1 then 0x81 else val]. split_and!; [done | | |].
    + destruct (Z.eqb_spec val (-1)) as [->|]; [done|].
      assert (forallb (fun v => match Bytes v with Ok [w] => w =? v | _ => false end) (seqZ 1 16)
              = true) as Hall by (vm_compute; reflexivity).
      rewrite forallb_forall in Hall. specialize (Hall val).
      destruct (Bytes val) as [[|w [|]]| | |]; try (discriminate Hall; apply list_elem_of_In, elem_of_seqZ; lia).
      do 2 f_equal. apply Z.eqb_eq, Hall, list_elem_of_In, elem_of_seqZ. lia.
    + apply built_append; [done | |].
      * apply canonical_pop_wf; [|done]. repeat constructor; unfold is_byte; case_if; lia.
      * destruct (Z.eqb_spec val (-1)) as [->|]; [done|].
        pose proof (addData_image NewScriptBuilder [val]) as Ha.
        assert (b_script (addData NewScriptBuilder [val]) = [u8 (OP_1 - 1 + val)]) as Hs'.
        { unfold addData. change (len [val]) with 1. cbn [lookup list_lookup default from_option]. unfold id.
          cbn [Z.eqb Pos.eqb orb andb]. replace (val =? 0) with false by lia.
          by replace (val <=? 16) with true by lia. }
        rewrite Ha in Hs'; [exact Hs' | repeat constructor; unfold is_byte; lia | done].
    + cbn. rewrite len_app. change (len [_]) with 1. lia.
  - destruct (Bytes_minimal val Hv) as (data & HB & Hok & Hm & Hnv). rewrite HB. cbn [mbind res_bind].
    assert (len data <= 8) as Hl by (apply minimal_length; [done..| rewrite Hnv; lia]).
    pose proof (canonicalDataSize_bound data). exists (AddData b data), data.
    destruct (built_AddData b pops data) as [Hb' Hl']; [done | done | unfold MaxScriptElementSize; lia | lia |].
    split_and!; [done..|]. rewrite Hl'. lia.
Qed.

(** ** The properties of the component *)

(** Pushing data appends one opcode that parses back, that the engine
    accepts as a minimal push and that pushes the data, with one exception: a
    single zero byte is pushed as the empty string. *)
Theorem AddData_canonical b pops data :
  built b pops -> bytes_ok data -> len data <= MaxScriptElementSize ->
  len (b_script b) + canonicalDataSize data <= MaxScriptSize ->
  exists s pop, script_of (AddData b data) = Ok s /\ ParseScript s = Ok (pops ++ [pop]) /\
    len s = len (b_script b) + canonicalDataSize data /\
    (pop_value pop <= OP_PUSHDATA4 -> checkMinimalDataPush pop = Ok ()) /\
    push_value pop = (if decide (data = [0]) then [] else data).
Proof.
  intros Hb Hok Hl Hs. destruct (built_AddData b pops data) as [Hb' Hl']; try done.
  destruct (built_script _ _ Hb') as (s & Hsc & Hse & Hp). exists s, (canonical_pop data).
  unfold MaxScriptElementSize in Hl. split_and!; [done | done | by rewrite Hse | |].
  - apply canonical_pop_minimal; [done | lia].
  - by apply canonical_pop_value.
Qed.

End ScriptBuilder.
