(* ===== verification/Standard.v ===== *)
(** Standard scripts: [src/txscript/standard.go], and the thread ids of
    [src/provautil/threadid.go].

    The script classes of the chain, the recognition of pay-to-prova scripts and
    of admin operations, and the construction of standard scripts. *)
From S2P Require Import Prelude PubKey SecpPrime Opcode ScriptNum Wire Crypto Script ScriptBuilder.
Import btcec Opcode ScriptNum wire Script ScriptBuilder.
#[local] Open Scope Z_scope.

Module Standard.

Definition MaxDataCarrierSize : Z := 80.

(** ThreadID is a uint8. *)
Definition RootThread : Z := 0.
Definition ProvisionThread : Z := 1.
Definition IssueThread : Z := 2.

Inductive ScriptClass :=
  | NonStandardTy | PubKeyTy | PubKeyHashTy | ScriptHashTy | MultiSigTy | NullDataTy
  | ProvaTy | GeneralProvaTy | ProvaAdminTy.

#[global] Instance ScriptClass_eq_dec : EqDecision ScriptClass.
Proof. solve_decision. Defined.

(** [scriptClassToName]: the entries that are not listed are empty. *)
Definition scriptClassToName : list string :=
  ["nonstandard"; ""; ""; ""; ""; "nulldata"; "safe_multisig"; "safe_multisig"; "admin"]%string.

(** [t] is the number of the class, a byte. *)
Definition ScriptClass_String (t : Z) : res string string :=
  if (len scriptClassToName <? t) || (t <? 0) then Ok "Invalid"%string
  else idx scriptClassToName t.

(** The loop over the keys: hashes come first, key ids are distinct, and other
    elements are not counted. *)
Fixpoint prova_keys (pops : list parsedOpcode) (seen : list Z) (nKeyIDs nKeyHashes : Z)
    : option (Z * Z) :=
  match pops with
  | [] => Some (nKeyIDs, nKeyHashes)
  | pop :: rest =>
      if len (pop_data pop) =? 20 then
        if 0 <? nKeyIDs then None else prova_keys rest seen nKeyIDs (nKeyHashes + 1)
      else if isUint32 (pop_opcode pop) then
        match asInt32 pop with
        | Ok keyID =>
            if bool_decide (keyID ∈ seen) then None
            else prova_keys rest (keyID :: seen) (nKeyIDs + 1) nKeyHashes
        | _ => None
        end
      else prova_keys rest seen nKeyIDs nKeyHashes
  end.

Definition pop_at (pops : list parsedOpcode) (i : Z) : parsedOpcode :=
  nth (Z.to_nat i) pops (mkPop (opcodeArray 0) []).

Definition isGeneralProva (pops : list parsedOpcode) : bool :=
  let sLen := len pops in
  if sLen <? 6 then false
  else if negb (isSmallInt (pop_opcode (pop_at pops 0))) then false
  else if negb (isSmallInt (pop_opcode (pop_at pops (sLen - 2)))) then false
  else if negb (pop_value (pop_at pops (sLen - 1)) =? OP_CHECKSAFEMULTISIG) then false
  else
    let nSigs := asSmallInt (pop_opcode (pop_at pops 0)) in
    let nKeys := asSmallInt (pop_opcode (pop_at pops (sLen - 2))) in
    if nSigs <? 2 then false
    else if negb (sLen - 2 - 1 =? nKeys) then false
    else
      match prova_keys (take (Z.to_nat (sLen - 3)) (drop 1 pops)) [] 0 0 with
      | None => false
      | Some (nKeyIDs, nKeyHashes) =>
          if nSigs <=? nKeyHashes then false
          else if nKeyIDs <? nSigs then false
          else true
      end.

Definition isProva (pops : list parsedOpcode) : bool :=
  if len pops <? 6 then false
  else if negb (isGeneralProva pops) then false
  else if (len pops =? 6) && (pop_value (pop_at pops 0) =? OP_2) && (pop_value (pop_at pops 4) =? OP_3)
  then true
  else
    let m := match asInt32 (pop_at pops 0) with Ok m => m | _ => 0 end in
    let n := match asInt32 (pop_at pops (len pops - 2)) with Ok n => n | _ => 0 end in
    m =? i32 (n - 1).

Definition isNullData (pops : list parsedOpcode) : bool :=
  match pops with
  | [p0] => pop_value p0 =? OP_RETURN
  | [p0; p1] =>
      (pop_value p0 =? OP_RETURN) &&
      (isSmallInt (pop_opcode p1) || (pop_value p1 <=? OP_PUSHDATA4)) &&
      (len (pop_data p1) <=? MaxDataCarrierSize)
  | _ => false
  end.

Definition isProvaAdmin (pops : list parsedOpcode) : bool :=
  match pops with
  | [p0; p1] =>
      if negb (pop_value p1 =? OP_CHECKTHREAD) then false
      else
        let threadID := asSmallInt (pop_opcode p0) in
        negb ((threadID <? RootThread) || (IssueThread <? threadID))
  | _ => false
  end.

Definition typeOfScript (pops : list parsedOpcode) : ScriptClass :=
  if isNullData pops then NullDataTy
  else if isProva pops then ProvaTy
  else if isGeneralProva pops then GeneralProvaTy
  else if isProvaAdmin pops then ProvaAdminTy
  else NonStandardTy.

Definition TypeOfScript (pops : list parsedOpcode) : ScriptClass := typeOfScript pops.

Definition GetScriptClass (script : bytes) : ScriptClass :=
  match ParseScript script with Ok pops => typeOfScript pops | _ => NonStandardTy end.

(** The outputs of a transaction, from left to right. *)
Fixpoint prova_outputs (outs : list TxOut) (hasNullOutput : bool) : bool :=
  match outs with
  | [] => true
  | txOut :: rest =>
      match ParseScript (PkScript txOut) with
      | Ok pops =>
          if isNullData pops then
            if hasNullOutput then false
            else if negb (Value txOut =? 0) then false
            else prova_outputs rest true
          else if negb (isGeneralProva pops) then false
          else prova_outputs rest hasNullOutput
      | _ => false
      end
  end.

Definition IsProvaTx (msgTx : MsgTx) : bool :=
  if len (tx_TxOut msgTx) =? 0 then false else prova_outputs (tx_TxOut msgTx) false.

Fixpoint parse_outputs (outs : list TxOut) : option (list (list parsedOpcode)) :=
  match outs with
  | [] => Some []
  | o :: rest =>
      match ParseScript (PkScript o) with
      | Ok pops => match parse_outputs rest with Some l => Some (pops :: l) | None => None end
      | _ => None
      end
  end.

(** -1 stands for a transaction that is not an admin transaction. *)
Definition GetAdminDetailsMsgTx (msgTx : MsgTx) : Z * list (list parsedOpcode) :=
  match tx_TxOut msgTx with
  | [] => (-1, [])
  | first :: rest =>
      match ParseScript (PkScript first) with
      | Ok pops =>
          if negb (bool_decide (TypeOfScript pops = ProvaAdminTy)) then (-1, [])
          else
            match ExtractThreadID pops with
            | Ok threadID =>
                match parse_outputs rest with
                | Some adminOutputs => (threadID, adminOutputs)
                | None => (-1, [])
                end
            | _ => (-1, [])
            end
      | _ => (-1, [])
      end
  end.

Definition IsValidAdminOp (pops : list parsedOpcode) (threadID : Z) : bool :=
  match pops with
  | [p0; p1] =>
      if negb (pop_value p0 =? OP_RETURN) then false
      else if negb (pop_value p1 =? OP_DATA_34) && negb (pop_value p1 =? OP_DATA_38) then false
      else
        match ExtractAdminData pops with
        | Ok (op, _) =>
            if threadID =? RootThread then
              (op =? AdminOpProvisionKeyAdd) || (op =? AdminOpProvisionKeyRevoke) ||
              (op =? AdminOpIssueKeyAdd) || (op =? AdminOpIssueKeyRevoke)
            else if threadID =? ProvisionThread then
              if (op =? AdminOpValidateKeyAdd) || (op =? AdminOpValidateKeyRevoke) then true
              else if (op =? AdminOpASPKeyAdd) || (op =? AdminOpASPKeyRevoke) then
                len (pop_data p1) =? 1 + PubKeyBytesLenCompressed + KeyIDSize
              else false
            else false
        | _ => false
        end
  | _ => false
  end.

Definition CalcMultiSigStats (script : bytes) : res ErrorCode (Z * Z) :=
  pops ← ParseScript script;
  if len pops <? 4 then Err ErrNotMultisigScript
  else Ok (asSmallInt (pop_opcode (pop_at pops (len pops - 2))),
           asSmallInt (pop_opcode (pop_at pops 0))).

(** * Construction of standard scripts *)
Definition payToProvaScript (pubKeyHash : bytes) (keyIDs : list Z) : res ErrorCode bytes :=
  match keyIDs with
  | [k0; k1] =>
      b ← AddInt64 NewScriptBuilder (len keyIDs);
      b ← AddInt64 (AddData b pubKeyHash) k0;
      b ← AddInt64 b k1;
      b ← AddInt64 b (len keyIDs + 1);
      script_of (AddOp b OP_CHECKSAFEMULTISIG)
  | _ => Err ErrInvalidNumberOfKeyIds
  end.

Definition ProvaThreadScript (threadID : Z) : res ErrorCode bytes :=
  b ← AddInt64 NewScriptBuilder threadID;
  script_of (AddOp b OP_CHECKTHREAD).

Definition NullDataScript (data : bytes) : res ErrorCode bytes :=
  if MaxDataCarrierSize <? len data then Err ErrTooMuchNullData
  else script_of (AddData (AddOp NewScriptBuilder OP_RETURN) data).

(** [pubkeys] are the script addresses of the keys. *)
Definition MultiSigScript (pubkeys : list bytes) (nrequired : Z) : res ErrorCode bytes :=
  if len pubkeys <? nrequired then Err ErrTooManyRequiredSigs
  else
    b ← AddInt64 NewScriptBuilder nrequired;
    b ← AddInt64 (fold_left AddData pubkeys b) (len pubkeys);
    script_of (AddOp b OP_CHECKMULTISIG).

(** The data of a push is nil exactly for opcodes without a data part. *)
Definition PushedData (script : bytes) : res ErrorCode (list bytes) :=
  pops ← ParseScript script;
  Ok (flat_map (fun pop =>
        if negb (op_length (pop_opcode pop) =? 1) then [pop_data pop]
        else if pop_value pop =? OP_0 then [[]] else []) pops).

(** * Specification of a pay-to-prova script *)

(** A 20-byte element, a key id, and neither. *)
Definition is_hash (pop : parsedOpcode) : bool := len (pop_data pop) =? 20.
Definition is_keyid (pop : parsedOpcode) : bool :=
  negb (is_hash pop) && isUint32 (pop_opcode pop).
Definition keyid_of (pop : parsedOpcode) : option Z :=
  match asInt32 pop with Ok k => Some k | _ => None end.

(** The key sets each admin thread may change. *)
Definition thread_sets (threadID : Z) : list KeySetType :=
  if threadID =? RootThread then [ProvisionKeySet; IssueKeySet]
  else if threadID =? ProvisionThread then [ValidateKeySet; ASPKeySet]
  else [].

(** * Facts *)

Lemma len_filter_cons {A} (f : A -> bool) x l :
  len (List.filter f (x :: l)) = (if f x then 1 else 0) + len (List.filter f l).
Proof. cbn. destruct (f x); [apply len_cons | lia]. Qed.

(** What the key loop counts. *)
Lemma prova_keys_spec pops : forall seen a b ids hs,
  0 <= a -> prova_keys pops seen a b = Some (ids, hs) ->
  ids = a + len (List.filter is_keyid pops) /\ hs = b + len (List.filter is_hash pops) /\
  (exists ks, map keyid_of (List.filter is_keyid pops) = map Some ks /\ (NoDup seen -> NoDup (ks ++ seen))) /\
  (0 < a -> Forall (fun p => is_hash p = false) pops) /\
  (forall i j p q, pops !! i = Some p -> pops !! j = Some q ->
     is_keyid p = true -> is_hash q = true -> (j < i)%nat).
Proof.
  induction pops as [|pop pops IH]; intros seen a b ids hs Ha H; cbn [prova_keys] in H.
  { injection H as <- <-. cbn [List.filter map]. change (len (@nil parsedOpcode)) with 0.
    split_and!; [lia | lia | by exists [] | by constructor | done]. }
  rewrite !len_filter_cons. cbn [List.filter]. 
  destruct (len (pop_data pop) =? 20) eqn:Hh.
  - assert (is_hash pop = true) as E1 by done.
    assert (is_keyid pop = false) as E2 by (unfold is_keyid; by rewrite E1). rewrite E1, E2.
    destruct (Z.ltb_spec 0 a) as [|Ha0]; [done|].
    apply IH in H as (Hids & Hhs & Hks & Hall & Hord); [|done]. split_and!; try lia; [done|].
    + intros i j p q Hi Hj Hp Hq. destruct i as [|i]; cbn in Hi; [congruence|].
      destruct j as [|j]; [lia|]. cbn in Hj. specialize (Hord i j p q Hi Hj Hp Hq). lia.
  - assert (is_hash pop = false) as E1 by done. rewrite E1.
    assert (is_keyid pop = isUint32 (pop_opcode pop)) as E2 by (unfold is_keyid; by rewrite E1).
    rewrite E2. destruct (isUint32 (pop_opcode pop)) eqn:Hu.
    + destruct (asInt32 pop) as [k| | |] eqn:Hk; try done.
      destruct (bool_decide (k ∈ seen)) eqn:Hin; [done|]. apply bool_decide_eq_false in Hin.
      apply IH in H as (Hids & Hhs & (ks & Hks & Hnd) & Hall & Hord); [|lia].
      split_and!; try lia.
      * exists (k :: ks). cbn [map]. unfold keyid_of at 1. rewrite Hk, Hks. split; [done|].
        intros Hs. assert (NoDup (k :: seen)) as Hks2 by (by constructor).
        specialize (Hnd Hks2). cbn. rewrite Permutation_middle. done.
      * intros _. constructor; [done|]. apply Hall. lia.
      * intros i j p q Hi Hj Hp Hq. destruct j as [|j]; cbn in Hj.
        { congruence. }
        assert (Forall (fun p => is_hash p = false) pops) as Hf by (apply Hall; lia).
        rewrite Forall_forall in Hf. apply list_elem_of_lookup_2 in Hj. apply Hf in Hj. congruence.
    + apply IH in H as (Hids & Hhs & Hks & Hall & Hord); [|done]. split_and!; try lia; [done| |].
      * intros Hp. constructor; [done | by apply Hall].
      * intros i j p q Hi Hj Hp Hq. destruct j as [|j]; cbn in Hj.
        { congruence. }
        destruct i as [|i]; cbn in Hi; [congruence|].
        specialize (Hord i j p q Hi Hj Hp Hq). lia.
Qed.

(** The six or more opcodes of a script, cut at the second and before the last
    two. *)
Lemma cut_ends {A} (l : list A) :
  6 <= len l -> exists a m b c, l = a :: m ++ [b; c] /\ len m = len l - 3.
Proof.
  intros Hl. destruct l as [|a l]; [rewrite len_nil in Hl; lia|]. rewrite len_cons in Hl.
  destruct l as [|c l _] using rev_ind; [rewrite len_nil in Hl; lia|]. rewrite len_app in Hl.
  change (len [c]) with 1 in Hl.
  destruct l as [|b m _] using rev_ind; [rewrite len_nil in Hl; lia|].
  exists a, m, b, c. rewrite <- app_assoc. cbn [app]. split; [done|].
  rewrite len_cons, !len_app. change (len [b; c]) with 2. lia.
Qed.

Lemma pop_at_cut a m b c :
  let pops := a :: m ++ [b; c] in
  pop_at pops 0 = a /\ pop_at pops (len pops - 2) = b /\ pop_at pops (len pops - 1) = c /\
  take (Z.to_nat (len pops - 3)) (drop 1 pops) = m.
Proof.
  cbv zeta. rewrite len_cons, len_app. change (len [b; c]) with 2. pose proof (len_nonneg m).
  unfold pop_at. split_and!.
  - done.
  - replace (Z.to_nat (1 + (len m + 2) - 2)) with (S (length m)) by (unfold len; lia).
    cbn [nth]. by rewrite app_nth2, Nat.sub_diag by lia.
  - replace (Z.to_nat (1 + (len m + 2) - 1)) with (S (S (length m))) by (unfold len; lia).
    cbn [nth]. rewrite app_nth2 by lia. by replace (S (length m) - length m)%nat with 1%nat by lia.
  - replace (Z.to_nat (1 + (len m + 2) - 3)) with (length m) by (unfold len; lia).
    cbn [drop]. rewrite drop_0. by rewrite take_app_length.
Qed.

Lemma ParsePubKey_compressed_valid s k :
  bytes_ok s -> len s = 33 -> ParsePubKey s = Ok k -> SecpPrime.valid_key k.
Proof.
  intros Hok Hl H. destruct (ParsePubKey_compressed_inv s k Hl H)
    as (f & rest & -> & Hr & _ & Hk & _ & HX & HY & Hc).
  apply Forall_cons in Hok as [_ Hok]. pose proof (SecpPrime.be_decode_range rest Hok Hr).
  unfold SecpPrime.valid_key. split_and!; try lia; [|done]. rewrite Hk. cbn. lia.
Qed.

(** A parsed OP_DATA_n opcode has n bytes of data. *)
Lemma wf_data_len p n :
  wf_pop p -> pop_value p = n -> 1 <= n <= 75 -> len (pop_data p) = n /\ bytes_ok (pop_data p).
Proof.
  intros (b & Hb & Hop & Hok & Hd) Hv Hn. unfold pop_value in Hv.
  rewrite Hop, opcodeArray_value in Hv by done. subst b. split; [|done].
  rewrite opcodeArray_length in Hd by done. replace ((1 <=? n) && (n <=? 75)) with true in Hd by lia.
  replace (n + 1 =? 1) with false in Hd by lia. replace (1 <? n + 1) with true in Hd by lia. lia.
Qed.

(** The key sets of the operation bytes. *)
Lemma admin_op_sets op :
  ((op =? AdminOpProvisionKeyAdd) || (op =? AdminOpProvisionKeyRevoke) ||
   (op =? AdminOpIssueKeyAdd) || (op =? AdminOpIssueKeyRevoke) = true ->
   (admin_op op).2 ∈ [ProvisionKeySet; IssueKeySet]) /\
  ((op =? AdminOpValidateKeyAdd) || (op =? AdminOpValidateKeyRevoke) = true ->
   (admin_op op).2 = ValidateKeySet) /\
  ((op =? AdminOpASPKeyAdd) || (op =? AdminOpASPKeyRevoke) = true -> (admin_op op).2 = ASPKeySet).
Proof.
  unfold admin_op, AdminOpProvisionKeyAdd, AdminOpProvisionKeyRevoke, AdminOpIssueKeyAdd,
    AdminOpIssueKeyRevoke, AdminOpValidateKeyAdd, AdminOpValidateKeyRevoke, AdminOpASPKeyAdd,
    AdminOpASPKeyRevoke.
  split_and!; intros H; repeat case_if; cbn; try lia; set_solver.
Qed.

(** The data of an admin operation: the operation, a compressed key, and for
    some operations a key id. *)
Definition op_shape (p1 : parsedOpcode) (op : Z) (key : PublicKey) : Prop :=
  (len (pop_data p1) = 34 \/ len (pop_data p1) = 38) /\ bytes_ok (pop_data p1) /\
  pop_data p1 !! 0%nat = Some op /\ ParsePubKey (take 33 (drop 1 (pop_data p1))) = Ok key.

Lemma key_slice {E} (d : bytes) : 34 <= len d -> slice d 1 34 = @Ok E _ (take 33 (drop 1 d)).
Proof. intros Hl. apply slice_Ok. split_and!; [lia..|done]. Qed.

Lemma valid_op_shape pops threadID :
  Forall wf_pop pops -> IsValidAdminOp pops threadID = true ->
  exists p0 p1 op key, pops = [p0; p1] /\ op_shape p1 op key /\ SecpPrime.valid_key key.
Proof.
  intros Hwf H. unfold IsValidAdminOp in H. destruct pops as [|p0 [|p1 [|]]]; try done.
  destruct (negb (pop_value p0 =? OP_RETURN)); [done|].
  destruct (_ && _) eqn:Hdata; [done|].
  assert (pop_value p1 = 34 \/ pop_value p1 = 38) as Hv by (unfold OP_DATA_34, OP_DATA_38 in Hdata; lia).
  assert ((len (pop_data p1) = 34 \/ len (pop_data p1) = 38) /\ bytes_ok (pop_data p1)) as [Hlen Hok].
  { apply Forall_cons in Hwf as [_ Hwf]. apply Forall_cons in Hwf as [Hwf _].
    destruct Hv as [Hv|Hv]; apply (wf_data_len _ _ Hwf) in Hv as [? ?]; auto; lia. }
  destruct (ExtractAdminData [p0; p1]) as [[op key]| | |] eqn:He; try done.
  unfold ExtractAdminData in He. change (idx [p0; p1] 1) with (@Ok ErrorCode _ p1) in He.
  cbn [mbind res_bind] in He. unfold PubKeyBytesLenCompressed in *. change (1 + 33) with 34 in *.
  rewrite key_slice in He by lia. cbn [mbind res_bind] in He. apply bind_Ok in He as (key' & Hkey & He).
  apply bind_Ok in He as (op' & Hop & He). injection He as -> ->. apply idx_Ok in Hop as [_ Hop].
  assert (ParsePubKey (take 33 (drop 1 (pop_data p1))) = Ok key) as Hparse
    by (by destruct (ParsePubKey (take _ _)); cbn in Hkey; simplify_eq).
  exists p0, p1, op, key. split_and!; [done | done |].
  apply (ParsePubKey_compressed_valid (take 33 (drop 1 (pop_data p1)))); [| |done].
  - by apply bytes_ok_take, bytes_ok_drop.
  - unfold len in *. rewrite length_take, length_drop. lia.
Qed.

Lemma op_key_id (d : bytes) :
  len d = 34 \/ len d = 38 -> bytes_ok d ->
  exists keyID, 0 <= keyID < 2 ^ 32 /\ forall E,
    (if 34 <? len d then kb ← slice d (len d - KeyIDSize) (len d); KeyIDFromAddressBuffer kb else Ok 0) = @Ok E Z keyID.
Proof.
  intros Hlen Hok. destruct Hlen as [Hl|Hl]; rewrite Hl; [by exists 0|]. change (34 <? 38) with true. cbv iota.
  unfold KeyIDSize. change (38 - 4) with 34. set (kb := take 4 (drop 34 d)).
  assert (length kb = 4%nat) as Hkb by (unfold kb, len in *; rewrite length_take, length_drop; lia).
  exists (le_decode kb). split.
  - pose proof (le_decode_range kb) as Hr. unfold len in Hr. rewrite Hkb in Hr.
    apply Hr. by apply bytes_ok_take, bytes_ok_drop.
  - intros E. assert (slice d 34 38 = @Ok E _ kb) as -> by (apply slice_Ok; rewrite Hl; split_and!; lia || done).
    cbn [mbind res_bind]. unfold KeyIDFromAddressBuffer. assert (slice kb 0 4 = @Ok E _ kb) as ->; [|done].
    apply slice_Ok. unfold len. rewrite Hkb. split_and!; [lia..|].
    change (Z.to_nat 0) with 0%nat. rewrite drop_0. symmetry. apply take_ge. by rewrite Hkb.
Qed.

Lemma ExtractAdminOpData_shape p0 p1 op key :
  op_shape p1 op key ->
  exists keyID, 0 <= keyID < 2 ^ 32 /\
    forall E, @ExtractAdminOpData E [p0; p1] = Ok ((admin_op op).1, (admin_op op).2, Some key, keyID).
Proof.
  intros (Hlen & Hok & Hop & Hparse). destruct (op_key_id _ Hlen Hok) as (keyID & Hr & Hid).
  exists keyID. split; [done|]. intros E. unfold ExtractAdminOpData. change (idx [p0; p1] 1) with (@Ok E _ p1).
  cbn [mbind res_bind]. unfold PubKeyBytesLenCompressed. change (1 + 33) with 34. rewrite key_slice by lia.
  cbn [mbind res_bind]. rewrite Hid. cbn [mbind res_bind].
  assert (idx (pop_data p1) 0 = @Ok E _ op) as -> by (by apply idx_Ok).
  cbn [mbind res_bind]. rewrite Hparse. by destruct (admin_op op).
Qed.

(** The key sets that an accepted operation can change. *)
Lemma valid_op_sets p0 p1 op key threadID :
  op_shape p1 op key -> IsValidAdminOp [p0; p1] threadID = true ->
  (admin_op op).2 ∈ thread_sets threadID /\ ((admin_op op).2 = ASPKeySet -> len (pop_data p1) = 38).
Proof.
  intros (Hlen & _ & Hop & Hparse) H. unfold IsValidAdminOp in H.
  destruct (negb _); [done|]. destruct (_ && _); [done|].
  assert (ExtractAdminData [p0; p1] = Ok (op, key)) as Hd.
  { unfold ExtractAdminData. change (idx [p0; p1] 1) with (@Ok ErrorCode _ p1). cbn [mbind res_bind].
    unfold PubKeyBytesLenCompressed. change (1 + 33) with 34. rewrite key_slice by lia. cbn [mbind res_bind].
    rewrite Hparse. cbn [mbind res_bind of_key].
    by assert (idx (pop_data p1) 0 = @Ok ErrorCode _ op) as -> by (by apply idx_Ok). }
  rewrite Hd in H. destruct (admin_op_sets op) as (S1 & S2 & S3). unfold thread_sets, KeyIDSize in *. clear -H S1 S2 S3.
  destruct (threadID =? RootThread).
  { specialize (S1 H). split; [done|]. intros Hasp. rewrite Hasp in S1. set_solver. }
  destruct (threadID =? ProvisionThread); [|done].
  destruct (_ || _) eqn:Ho in H.
  { rewrite S2 by done. split; [set_solver | done]. }
  destruct (_ || _) eqn:Ho' in H; [|done]. rewrite S3 by done. split; [set_solver|]. intros _.
  unfold PubKeyBytesLenCompressed in H. lia.
Qed.

(** An operation that adds an issue key. *)
Definition example_admin_op : list parsedOpcode :=
  [mkPop (opcodeArray OP_RETURN) [];
   mkPop (opcodeArray OP_DATA_34) (AdminOpIssueKeyAdd :: SerializeCompressed SecpPrime.example_key)].

Lemma wf_example_admin_op : Forall wf_pop example_admin_op.
Proof.
  constructor; [by apply wf_simple|]. constructor; [|constructor].
  exists OP_DATA_34. split_and!; [done | done | apply bytesb_ok; vm_compute; reflexivity | vm_compute; reflexivity].
Qed.

(** [ExtractAdminData] on an operation byte and a key. *)
Lemma ExtractAdminData_key p0 o op b rest k :
  len b = 33 -> ParsePubKey b = Ok k ->
  ExtractAdminData [p0; mkPop o (op :: b ++ rest)] = Ok (op, k).
Proof.
  intros Hl Hk. unfold ExtractAdminData.
  change (idx [p0; mkPop o (op :: b ++ rest)] 1) with (@Ok ErrorCode _ (mkPop o (op :: b ++ rest))).
  cbn [mbind res_bind pop_data]. unfold PubKeyBytesLenCompressed.
  assert (slice (op :: b ++ rest) 1 (1 + 33) = @Ok ErrorCode _ b) as ->.
  { apply slice_Ok. rewrite len_cons, len_app. pose proof (len_nonneg rest). split_and!; [lia..|].
    change (Z.to_nat 1) with 1%nat. cbn [drop]. rewrite drop_0, take_app_length'; [done|].
    unfold len in Hl. lia. }
  cbn [mbind res_bind]. rewrite Hk. done.
Qed.

Lemma valid_example_admin_op : IsValidAdminOp example_admin_op RootThread = true.
Proof.
  unfold IsValidAdminOp, example_admin_op.
  pose proof (SecpPrime.SerializeCompressed_parse _ SecpPrime.valid_example_key) as Hk.
  assert (len (SerializeCompressed SecpPrime.example_key) = 33) as Hl by (vm_compute; reflexivity).
  generalize dependent (SerializeCompressed SecpPrime.example_key). intros b Hk Hl.
  rewrite <- (app_nil_r b), (ExtractAdminData_key _ _ _ _ _ _ Hl Hk). reflexivity.
Qed.

(** A pushed key id is read back, and is not mistaken for a hash. *)
Lemma keyid_pop k data :
  0 <= k < 2 ^ 31 -> Bytes k = Ok data ->
  isUint32 (pop_opcode (canonical_pop data)) = true /\ asInt32 (canonical_pop data) = Ok k /\
  len (pop_data (canonical_pop data)) <= 4.
Proof.
  intros Hk HB. destruct (Bytes_minimal k) as (d & HB' & Hok & Hm & Hv); [lia|].
  rewrite HB in HB'. injection HB' as <-.
  assert (len data <= 4) as Hl by (apply minimal_length; [done | done | lia | rewrite Hv; lia]).
  destruct (canonical_pop_cases data Hok) as [[Hd ->]|[(x & -> & Hx & ->)|[[-> ->]|(Hl1 & Hd & ->)]]];
    cbn [pop_opcode pop_data].
  - destruct Hd as [->| ->]; [|by destruct Hm]. change (num_value []) with 0 in Hv. by subst.
  - unfold asInt32, isUint32, isSmallInt, asSmallInt. cbn [pop_opcode].
    rewrite opcodeArray_value by (unfold is_byte; lia). unfold OP_0, OP_1, OP_16.
    replace ((80 + x =? 0) || ((81 <=? 80 + x) && (80 + x <=? 96))) with true by lia.
    split_and!; [done | | done]. replace (80 + x =? 0) with false by lia.
    rewrite wrapu_small, wraps_small by (unfold is_u, is_s; lia). f_equal.
    unfold num_value in Hv. cbn [last] in Hv. replace (x <? 128) with true in Hv by lia.
    cbn [le_decode] in Hv. lia.
  - change (num_value [129]) with (-1) in Hv. lia.
  - assert (push_opcode (len data) = len data) as Hpo
      by (unfold push_opcode, OP_PUSHDATA1; by replace (len data <? 76) with true by lia).
    rewrite Hpo. unfold asInt32, isUint32. cbn [pop_opcode pop_data].
    assert (isSmallInt (opcodeArray (len data)) = false) as ->.
    { unfold isSmallInt. rewrite opcodeArray_value by (unfold is_byte; lia). unfold OP_0, OP_1, OP_16. lia. }
    rewrite opcodeArray_value by (unfold is_byte; lia).
    unfold OP_DATA_1, OP_DATA_2, OP_DATA_3, OP_DATA_4. split_and!; [lia | | done].
    rewrite makeScriptNum_value; [|done|lia|done|].
    + cbn [mbind res_bind]. rewrite Hv. unfold Int32, maxInt32, minInt32.
      replace (2 ^ 31 - 1 <? k) with false by lia. replace (k <? - 2 ^ 31) with false by lia.
      rewrite wraps_small; [done | lia | unfold is_s; lia].
    + intros _. destruct (checkMinimalDataEncoding_spec data Hok) as [[? _]|[_ ?]]; done.
Qed.

Lemma hash_pop h :
  length h = 20%nat -> canonical_pop h = mkPop (opcodeArray 20) h.
Proof.
  intros Hl. unfold canonical_pop. assert (len h = 20) as -> by (unfold len; lia). done.
Qed.

(** The opcodes of a 2-of-3 pay-to-prova script. *)
Definition prova_pops (h d0 d1 : bytes) : list parsedOpcode :=
  [mkPop (opcodeArray OP_2) []; mkPop (opcodeArray 20) h; canonical_pop d0; canonical_pop d1;
   mkPop (opcodeArray OP_3) []; mkPop (opcodeArray OP_CHECKSAFEMULTISIG) []].

Lemma payToProva_pops h k0 k1 :
  bytes_ok h -> length h = 20%nat -> 0 <= k0 < 2 ^ 31 -> 0 <= k1 < 2 ^ 31 ->
  exists s d0 d1, payToProvaScript h [k0; k1] = Ok s /\ Bytes k0 = Ok d0 /\ Bytes k1 = Ok d1 /\
    ParseScript s = Ok (prova_pops h d0 d1).
Proof.
  intros Hok Hl Hk0 Hk1. unfold payToProvaScript. change (len [k0; k1]) with 2.
  change (AddInt64 NewScriptBuilder 2) with (@Ok ErrorCode _ (mkBuilder [OP_2] None)).
  cbn [mbind res_bind].
  assert (built (mkBuilder [OP_2] None) [mkPop (opcodeArray OP_2) []]) as B0.
  { apply (built_append NewScriptBuilder [] _ [OP_2] built_new); by apply wf_simple. }
  assert (len h = 20) as Hlh by (unfold len; lia).
  assert (canonicalDataSize h = 21) as Hcs by (unfold canonicalDataSize; by rewrite Hlh).
  unfold MaxScriptElementSize, MaxScriptSize in *.
  destruct (built_AddData _ _ h B0) as [B1 L1]; [done | unfold MaxScriptElementSize; lia
    | rewrite Hcs; vm_compute; discriminate|]. rewrite Hcs in L1. cbn [b_script] in L1.
  change (len [OP_2]) with 1 in L1. rewrite (hash_pop h Hl) in B1.
  destruct (built_AddInt64 _ _ k0 B1) as (b2 & d0 & E2 & HB0 & B2 & L2);
    [lia | unfold MaxScriptSize; lia|]. rewrite E2. cbn [mbind res_bind].
  destruct (built_AddInt64 _ _ k1 B2) as (b3 & d1 & E3 & HB1 & B3 & L3);
    [lia | unfold MaxScriptSize; lia|]. rewrite E3. cbn [mbind res_bind].
  destruct (built_AddInt64 _ _ (2 + 1) B3) as (b4 & d3 & E4 & HB3 & B4 & L4);
    [lia | unfold MaxScriptSize; lia|]. rewrite E4. cbn [mbind res_bind].
  destruct (built_AddOp _ _ OP_CHECKSAFEMULTISIG B4) as [B5 _]; [done | done | unfold MaxScriptSize; lia|].
  destruct (built_script _ _ B5) as (s & Hs & _ & Hp).
  exists s, d0, d1. split_and!; try done. rewrite Hp. f_equal.
  assert (d3 = [3]) as -> by (change (Bytes (2 + 1)) with (@Ok ErrorCode _ [3]) in HB3; congruence).
  unfold prova_pops. done.
Qed.

(** ** The properties of the component *)

(** What the recognizer of pay-to-prova scripts guarantees: an m-of-n
    multisig with 2 <= m, as many elements as it announces, fewer key hashes
    than m, at least m key ids, all distinct and after the hashes.  So no m
    signers can do without the holder of a key id, and key ids alone suffice. *)
Lemma isGeneralProva_sound pops :
  isGeneralProva pops = true ->
  exists pm keys pn pc, pops = pm :: keys ++ [pn; pc] /\
    isSmallInt (pop_opcode pm) = true /\ isSmallInt (pop_opcode pn) = true /\
    pop_value pc = OP_CHECKSAFEMULTISIG /\ asSmallInt (pop_opcode pn) = len keys /\
    2 <= asSmallInt (pop_opcode pm) /\
    len (List.filter is_hash keys) < asSmallInt (pop_opcode pm) <= len (List.filter is_keyid keys) /\
    (exists ks, map keyid_of (List.filter is_keyid keys) = map Some ks /\ NoDup ks) /\
    (forall i j p q, keys !! i = Some p -> keys !! j = Some q ->
       is_keyid p = true -> is_hash q = true -> (j < i)%nat).
Proof.
  intros H. unfold isGeneralProva in H. destruct (Z.ltb_spec (len pops) 6) as [|Hl]; [done|].
  destruct (cut_ends pops Hl) as (pm & keys & pn & pc & -> & Hk).
  destruct (pop_at_cut pm keys pn pc) as (E0 & E1 & E2 & E3). cbv zeta in *.
  rewrite E0, E1, E2, E3 in H.
  destruct (isSmallInt (pop_opcode pm)) eqn:H1; cbn [negb] in H; [|done].
  destruct (isSmallInt (pop_opcode pn)) eqn:H2; cbn [negb] in H; [|done].
  destruct (Z.eqb_spec (pop_value pc) OP_CHECKSAFEMULTISIG) as [H3|]; cbn [negb] in H; [|done].
  destruct (Z.ltb_spec (asSmallInt (pop_opcode pm)) 2) as [|H4]; [done|].
  destruct (Z.eqb_spec (len (pm :: keys ++ [pn; pc]) - 2 - 1) (asSmallInt (pop_opcode pn))) as [H5|];
    cbn [negb] in H; [|done].
  destruct (prova_keys keys [] 0 0) as [[ids hs]|] eqn:Hp; [|done].
  destruct (Z.leb_spec (asSmallInt (pop_opcode pm)) hs) as [|H6]; [done|].
  destruct (Z.ltb_spec ids (asSmallInt (pop_opcode pm))) as [|H7]; [done|].
  apply prova_keys_spec in Hp as (-> & -> & (ks & Hks & Hnd) & _ & Hord); [|lia].
  exists pm, keys, pn, pc. split_and!; try done; try lia.
  exists ks. split; [done|]. specialize (Hnd (NoDup_nil_2)). by rewrite app_nil_r in Hnd.
Qed.

(** C27: an admin operation accepted on a thread carries a valid public key and
    changes only a key set that thread controls: the root thread provisions
    issue and provision keys, the provision thread validate and ASP keys, the
    issue thread none; an ASP operation carries a key id. *)
Theorem IsValidAdminOp_sound pops threadID :
  Forall wf_pop pops -> IsValidAdminOp pops threadID = true ->
  exists isAdd keySet key keyID,
    @ExtractAdminOpData string pops = Ok (isAdd, keySet, Some key, keyID) /\
    SecpPrime.valid_key key /\ keySet ∈ thread_sets threadID /\
    (keySet = ASPKeySet -> exists p, pops !! 1%nat = Some p /\ len (pop_data p) = 38).
Proof.
  intros Hwf H. destruct (valid_op_shape _ _ Hwf H) as (p0 & p1 & op & key & -> & Hshape & Hvalid).
  destruct (ExtractAdminOpData_shape p0 p1 op key Hshape) as (keyID & _ & He).
  destruct (valid_op_sets p0 p1 op key threadID Hshape H) as [Hsets Hlen].
  exists (admin_op op).1, (admin_op op).2, key, keyID. split_and!; [done..|].
  intros Hasp. exists p1. split; [done | by apply Hlen].
Qed.

Lemma IsValidAdminOp_sound_witness :
  exists isAdd keySet key keyID,
    @ExtractAdminOpData string example_admin_op = Ok (isAdd, keySet, Some key, keyID) /\
    SecpPrime.valid_key key /\ keySet ∈ thread_sets RootThread /\
    (keySet = ASPKeySet -> exists p, example_admin_op !! 1%nat = Some p /\ len (pop_data p) = 38).
Proof.
  apply (IsValidAdminOp_sound example_admin_op RootThread).
  - apply wf_example_admin_op.
  - apply valid_example_admin_op.
Defined.

(** The script built for a prova address is recognized as the standard
    2-of-3 script, and the key ids of the address are read back from it, for
    every pair of distinct key ids below 2^31. *)
Theorem payToProva_roundtrip h k0 k1 :
  bytes_ok h -> length h = 20%nat -> 0 <= k0 < 2 ^ 31 -> 0 <= k1 < 2 ^ 31 -> k0 <> k1 ->
  exists s pops, payToProvaScript h [k0; k1] = Ok s /\ ParseScript s = Ok pops /\
    typeOfScript pops = ProvaTy /\ ExtractKeyIDs pops = Ok [k0; k1].
Proof.
  intros Hok Hl Hk0 Hk1 Hne.
  destruct (payToProva_pops h k0 k1) as (s & d0 & d1 & Hs & HB0 & HB1 & Hp); try done.
  exists s, (prova_pops h d0 d1). split_and!; [done | done | |].
  - destruct (keyid_pop k0 d0 Hk0 HB0) as (U0 & A0 & L0).
    destruct (keyid_pop k1 d1 Hk1 HB1) as (U1 & A1 & L1).
    assert (isGeneralProva (prova_pops h d0 d1) = true) as Hg.
    { set (keys := [mkPop (opcodeArray 20) h; canonical_pop d0; canonical_pop d1]).
      destruct (pop_at_cut (mkPop (opcodeArray OP_2) []) keys (mkPop (opcodeArray OP_3) [])
                  (mkPop (opcodeArray OP_CHECKSAFEMULTISIG) [])) as (E0 & E1 & E2 & E3).
      unfold isGeneralProva. change (prova_pops h d0 d1) with (mkPop (opcodeArray OP_2) [] ::
        keys ++ [mkPop (opcodeArray OP_3) []; mkPop (opcodeArray OP_CHECKSAFEMULTISIG) []]).
      cbv zeta in *. rewrite E0, E1, E2, E3. unfold keys. cbn [prova_keys pop_data].
      replace (len h =? 20) with true by (unfold len; lia). change (0 <? 0) with false. cbv iota.
      replace (len (pop_data (canonical_pop d0)) =? 20) with false by lia. rewrite U0, A0.
      rewrite bool_decide_false by (by apply not_elem_of_nil).
      replace (len (pop_data (canonical_pop d1)) =? 20) with false by lia. rewrite U1, A1.
      rewrite bool_decide_false by (rewrite list_elem_of_singleton; congruence). reflexivity. }
    unfold typeOfScript, isProva. rewrite Hg. reflexivity.
  - destruct (keyid_pop k0 d0 Hk0 HB0) as (U0 & A0 & L0).
    destruct (keyid_pop k1 d1 Hk1 HB1) as (U1 & A1 & L1).
    unfold ExtractKeyIDs. change (len (prova_pops h d0 d1)) with 6. change (6 <? 6) with false. cbv iota.
    change (idx (prova_pops h d0 d1) (6 - 2)) with (@Ok ErrorCode _ (mkPop (opcodeArray OP_3) [])).
    cbn [mbind res_bind pop_opcode]. change (isSmallInt (opcodeArray OP_3)) with true. cbn [negb].
    change (Z.to_nat (asSmallInt (opcodeArray OP_3))) with 3%nat. cbn [key_ids_loop].
    change (idx (prova_pops h d0 d1) 1) with (@Ok ErrorCode _ (mkPop (opcodeArray 20) h)).
    change (idx (prova_pops h d0 d1) (1 + 1)) with (@Ok ErrorCode _ (canonical_pop d0)).
    change (idx (prova_pops h d0 d1) (1 + 1 + 1)) with (@Ok ErrorCode _ (canonical_pop d1)).
    cbn [mbind res_bind pop_opcode]. change (isUint32 (opcodeArray 20)) with false. cbn [negb].
    rewrite U0, A0, U1, A1. cbn [mbind res_bind negb].
    rewrite !wrapu_small by (unfold is_u; lia). done.
Qed.

End Standard.
