(* ===== verification/SigCache.v ===== *)
(** The caches shared by script validation: [src/txscript/sigcache.go] and
    [src/txscript/hashcache.go].

    The maps are finite maps keyed by 32-byte hashes.  The entry evicted from a
    full signature cache is the first of a Go map iteration, whose order is
    random: the class [Random] provides the draws and the cache counts them, so
    that the theorems hold for every eviction sequence.  The locks of the code
    make each method atomic; a method is one function here. *)
From S2P Require Import Prelude PubKey Wire Crypto Script.
Import btcec wire Crypto Script.
#[local] Open Scope Z_scope.

Module SigCache.

Class Random := { draw : nat -> nat }.

Record sigCacheEntry := mkEntry { entry_sig : Signature; entry_pubKey : PublicKey }.

Record SigCache := mkSigCache {
  validSigs : gmap bytes sigCacheEntry;
  maxEntries : Z;
  draws : nat
}.

Definition NewSigCache (maxEntries : Z) : SigCache := mkSigCache ∅ maxEntries 0.

Definition Exists (s : SigCache) (sigHash : bytes) (sig : Signature) (pubKey : PublicKey) : bool :=
  match validSigs s !! sigHash with
  | Some entry => IsEqual (entry_pubKey entry) pubKey && Sig_IsEqual (entry_sig entry) sig
  | None => false
  end.

(** The first key of an iteration over the map. *)
Definition first_key `{Random} (n : nat) (m : gmap bytes sigCacheEntry) : option bytes :=
  fst <$> map_to_list m !! (draw n mod size m)%nat.

(** [len(validSigs) + 1] is compared as a [uint]. *)
Definition Add `{Random} (s : SigCache) (sigHash : bytes) (sig : Signature) (pubKey : PublicKey)
    : SigCache :=
  if maxEntries s <=? 0 then s
  else
    let s :=
      if maxEntries s <? u64 (Z.of_nat (size (validSigs s)) + 1) then
        match first_key (draws s) (validSigs s) with
        | Some k => mkSigCache (delete k (validSigs s)) (maxEntries s) (S (draws s))
        | None => s
        end
      else s in
    mkSigCache (<[sigHash := mkEntry sig pubKey]> (validSigs s)) (maxEntries s) (draws s).

(** * The cache of signature hash fragments *)
Record HashCache := mkHashCache { sigHashes : gmap bytes TxSigHashes }.

Definition NewHashCache (maxSize : Z) : HashCache := mkHashCache ∅.

(** [MsgTx.TxHash]: the double hash of the stripped serialization. *)
Definition TxHash (msg : MsgTx) : bytes := DoubleHashH (SerializeStripped msg).

Definition AddSigHashes (h : HashCache) (tx : MsgTx) : HashCache :=
  mkHashCache (<[TxHash tx := NewTxSigHashes tx]> (sigHashes h)).

Definition ContainsHashes (h : HashCache) (txid : bytes) : bool :=
  match sigHashes h !! txid with Some _ => true | None => false end.

Definition GetSigHashes (h : HashCache) (txid : bytes) : option TxSigHashes := sigHashes h !! txid.

Definition PurgeSigHashes (h : HashCache) (txid : bytes) : HashCache :=
  mkHashCache (delete txid (sigHashes h)).

(** * Facts *)

(** A cache that holds only signatures that verify. *)
Definition consistent `{Primitives} (s : SigCache) : Prop :=
  forall h e, validSigs s !! h = Some e -> Verify (entry_sig e) h (entry_pubKey e) = true.

Definition bounded (s : SigCache) : Prop := Z.of_nat (size (validSigs s)) <= maxEntries s.

Section cache.
Context `{Primitives} `{Random}.

Lemma first_key_in n m : m <> ∅ -> exists k, first_key n m = Some k /\ is_Some (m !! k).
Proof.
  intros Hm. unfold first_key.
  assert (size m <> 0)%nat as Hs by (by rewrite map_size_empty_iff).
  destruct (lookup_lt_is_Some_2 (map_to_list m) (draw n mod size m)) as [[k e] Hk].
  { rewrite length_map_to_list. by apply Nat.mod_upper_bound. }
  rewrite Hk. exists k. split; [done|]. exists e. apply elem_of_map_to_list.
  by eapply list_elem_of_lookup_2.
Qed.

Lemma consistent_new n : consistent (NewSigCache n).
Proof. intros h e Hl. cbn in Hl. by rewrite lookup_empty in Hl. Qed.

Lemma Exists_verified s h sig pk :
  consistent s -> Exists s h sig pk = true -> Verify sig h pk = true.
Proof.
  unfold Exists. intros Hc He. destruct (validSigs s !! h) as [e|] eqn:Hl; [|done].
  apply andb_true_iff in He as [Hp%IsEqual_eq Hs%Sig_IsEqual_eq]. subst.
  by apply Hc.
Qed.

Lemma Add_consistent s h sig pk :
  consistent s -> Verify sig h pk = true -> consistent (Add s h sig pk).
Proof.
  intros Hc Hv. unfold Add. destruct (maxEntries s <=? 0); [done|].
  assert (forall s' : SigCache, consistent s' ->
    consistent (mkSigCache (<[h := mkEntry sig pk]> (validSigs s')) (maxEntries s') (draws s'))) as Hins.
  { intros s' Hc' h' e. cbn. destruct (decide (h = h')) as [<-|Hn].
    - rewrite lookup_insert_eq. by intros [= <-].
    - rewrite lookup_insert_ne by done. apply Hc'. }
  destruct (_ <? _); [|by apply Hins].
  destruct (first_key _ _) as [k|]; [|by apply Hins].
  apply Hins. intros h' e. cbn. intros Hd. apply lookup_delete_Some in Hd as [_ Hd]. by apply Hc.
Qed.

Lemma Add_bounded s h sig pk :
  bounded s -> maxEntries s < 2 ^ 64 - 1 -> bounded (Add s h sig pk).
Proof.
  unfold bounded. intros Hb Hm. unfold Add. destruct (maxEntries s <=? 0) eqn:Hz; [done|].
  rewrite wrapu_small by (unfold is_u; lia).
  destruct (_ <? _) eqn:Hfull; cbn.
  - assert (validSigs s <> ∅) as Hne by (intros He; rewrite He, map_size_empty in Hfull; change (Z.of_nat 0 + 1) with 1 in Hfull; lia).
    destruct (first_key_in (draws s) _ Hne) as (k & -> & Hk). cbn.
    pose proof (map_size_delete k (validSigs s)) as Hd. destruct Hk as [e Hk]. rewrite Hk in Hd.
    pose proof (map_size_insert h (mkEntry sig pk) (delete k (validSigs s))) as Hi.
    rewrite Hi. destruct (delete k (validSigs s) !! h); cbn in *; lia.
  - rewrite map_size_insert. destruct (validSigs s !! h); cbn; lia.
Qed.

(** An entry just added is found. *)
Lemma Exists_Add s h sig pk : 0 < maxEntries s -> Exists (Add s h sig pk) h sig pk = true.
Proof.
  intros Hm. unfold Add, Exists. replace (maxEntries s <=? 0) with false by lia. cbn.
  rewrite lookup_insert_eq. cbn. by rewrite (proj2 (IsEqual_eq pk pk)), (proj2 (Sig_IsEqual_eq sig sig)).
Qed.

Lemma Add_maxEntries s h sig pk : maxEntries (Add s h sig pk) = maxEntries s.
Proof.
  unfold Add. destruct (_ <=? 0); [done|]. destruct (_ <? _); [|done]. by destruct (first_key _ _).
Qed.

(** The caches that the code can build: a signature is added after it
    verified. *)
Inductive reachable (n : Z) : SigCache -> Prop :=
  | reach_new : reachable n (NewSigCache n)
  | reach_add s h sig pk :
      reachable n s -> Verify sig h pk = true -> reachable n (Add s h sig pk).

Lemma reachable_maxEntries n s : reachable n s -> maxEntries s = n.
Proof. induction 1; [done|]. by rewrite Add_maxEntries. Qed.

End cache.

(** The fragments of a transaction do not depend on its signature scripts. *)
Lemma NewTxSigHashes_strip tx : NewTxSigHashes (strip_tx tx) = NewTxSigHashes tx.
Proof.
  unfold NewTxSigHashes, calcHashPrevOuts, calcHashSequence, calcHashOutputs.
  unfold prevouts_buffer, sequence_buffer, outputs_buffer, strip_tx. cbn. by rewrite !map_map.
Qed.

(** The hash caches that the code can build, with the transactions added. *)
Inductive filled : list MsgTx -> HashCache -> Prop :=
  | filled_new n : filled [] (NewHashCache n)
  | filled_add txs h tx : wf_tx tx -> filled txs h -> filled (tx :: txs) (AddSigHashes h tx)
  | filled_purge txs h txid : filled txs h -> filled txs (PurgeSigHashes h txid).

Lemma filled_origin txs h txid f :
  filled txs h -> sigHashes h !! txid = Some f ->
  exists tx, tx ∈ txs /\ wf_tx tx /\ TxHash tx = txid /\ NewTxSigHashes tx = f.
Proof.
  intros Hf. induction Hf as [n|txs h tx Hw Hf IH|txs h k Hf IH]; cbn [NewHashCache AddSigHashes PurgeSigHashes sigHashes].
  - by rewrite lookup_empty.
  - destruct (decide (TxHash tx = txid)) as [He|He].
    + rewrite He, lookup_insert_eq. intros [= <-]. exists tx. split_and!; [left | done..].
    + rewrite lookup_insert_ne by done. intros Hl. destruct (IH Hl) as (tx' & ? & ?).
      exists tx'. split; [by right | done].
  - intros Hl. apply lookup_delete_Some in Hl as [_ Hl]. by apply IH.
Qed.

(** ** The properties of the component *)

(** C25: the signature cache never vouches for a signature that does not
    verify: in every cache built by adding verified signatures, under any
    eviction sequence, a hit implies that the signature verifies; the cache
    never holds more than its maximum number of entries; and a signature just
    added is found. *)
Theorem sigcache_sound `{Primitives} `{Random} n s :
  0 <= n < 2 ^ 64 - 1 -> reachable n s ->
  (forall h sig pk, Exists s h sig pk = true -> Verify sig h pk = true) /\
  Z.of_nat (size (validSigs s)) <= n /\
  (0 < n -> forall h sig pk, Exists (Add s h sig pk) h sig pk = true).
Proof.
  intros Hn Hr. assert (consistent s /\ bounded s) as [Hc Hb].
  { induction Hr as [|s h sig pk Hr [Hc Hb] Hv].
    - split; [apply consistent_new|]. unfold bounded. cbn. rewrite map_size_empty. lia.
    - split; [by apply Add_consistent|]. apply Add_bounded; [done|].
      rewrite (reachable_maxEntries n s Hr). lia. }
  unfold bounded in Hb. rewrite (reachable_maxEntries n s Hr) in Hb. split_and!; [|exact Hb|].
  - intros h sig pk. by apply Exists_verified.
  - intros Hp h sig pk. apply Exists_Add. by rewrite (reachable_maxEntries n s Hr).
Qed.

#[local] Existing Instance example_primitives.
#[local] Instance example_random : Random := { draw := fun n => n }.

Lemma sigcache_sound_witness :
  let s := Add (NewSigCache 1) [1] (mkSignature 3 2) (mkPublicKey 3 4) in
  (forall h sig pk, Exists s h sig pk = true -> Verify sig h pk = true) /\
  Z.of_nat (size (validSigs s)) <= 1 /\
  (0 < 1 -> forall h sig pk, Exists (Add s h sig pk) h sig pk = true).
Proof.
  apply (sigcache_sound 1).
  - lia.
  - apply reach_add; [apply reach_new | reflexivity].
Defined.

(** The fragments found in the hash cache under a transaction's id are those
    of that transaction, although the id does not cover the signature scripts:
    in every cache filled by the code, a hit for the id of [tx] is
    [NewTxSigHashes tx], unless an added transaction and [tx] are a collision of
    double SHA-256 on their stripped serializations. *)
Theorem hashcache_sound txs h tx f :
  filled txs h -> wf_tx tx -> GetSigHashes h (TxHash tx) = Some f ->
  f = NewTxSigHashes tx \/
  exists tx', tx' ∈ txs /\ colliding (SerializeStripped tx') (SerializeStripped tx).
Proof.
  intros Hf Hw Hg. apply filled_origin with (txs := txs) in Hg as (tx' & Hin & Hw' & Hid & <-); [|done].
  apply hash_eq in Hid as [Hs|Hcol]; [left | right; by exists tx'].
  rewrite !SerializeStripped_strip in Hs.
  pose proof (codec_read (strip_tx tx') [] (strip_wf _ Hw')) as E1.
  pose proof (codec_read (strip_tx tx) [] (strip_wf _ Hw)) as E2.
  rewrite Hs, E2 in E1. assert (strip_tx tx' = strip_tx tx) as Hstrip by congruence.
  by rewrite <- (NewTxSigHashes_strip tx'), Hstrip, NewTxSigHashes_strip.
Qed.

End SigCache.
