(* ===== verification/Engine.v ===== *)
(** The script engine: its state and its helpers, [src/txscript/engine.go].

    [Engine] has the fields of the struct.  A method that changes the engine
    returns the changed engine; after an error the engine is not used again, as
    the comment of [Step] says, and the model returns the error alone.  The
    transaction of the engine is its own copy.  Trace logging and disassembly
    are left out. *)
From S2P Require Import Prelude PubKey Opcode ScriptNum Stack Wire Crypto Signature.
From S2P Require Import Script ScriptBuilder SigCache.
Import btcec Opcode ScriptNum Stack wire Crypto Script.
#[local] Open Scope Z_scope.

Module Engine.

(** * Flags and limits *)
Definition ScriptBip16 : Z := 1 ≪ 0.
Definition ScriptStrictMultiSig : Z := 1 ≪ 1.
Definition ScriptDiscourageUpgradableNops : Z := 1 ≪ 2.
Definition ScriptVerifyCheckLockTimeVerify : Z := 1 ≪ 3.
Definition ScriptVerifyCheckSequenceVerify : Z := 1 ≪ 4.
Definition ScriptVerifyCleanStack : Z := 1 ≪ 5.
Definition ScriptVerifyDERSignatures : Z := 1 ≪ 6.
Definition ScriptVerifyLowS : Z := 1 ≪ 7.
Definition ScriptVerifyMinimalData : Z := 1 ≪ 8.
Definition ScriptVerifyNullFail : Z := 1 ≪ 9.
Definition ScriptVerifySigPushOnly : Z := 1 ≪ 10.
Definition ScriptVerifyStrictEncoding : Z := 1 ≪ 11.

Definition MaxStackSize : Z := 1000.
Definition halfOrder : Z := N ≫ 1.
Definition LockTimeThreshold : Z := 5 * 10 ^ 8.

(** [StandardVerifyFlags] of standard.go. *)
Definition StandardVerifyFlags : Z :=
  fold_left Z.lor
    [ScriptVerifyDERSignatures; ScriptVerifyStrictEncoding; ScriptVerifyMinimalData;
     ScriptStrictMultiSig; ScriptDiscourageUpgradableNops; ScriptVerifyCleanStack;
     ScriptVerifyNullFail; ScriptVerifyCheckLockTimeVerify; ScriptVerifyCheckSequenceVerify;
     ScriptVerifyLowS] ScriptBip16.

(** * The state *)
Record Engine := mkEngine {
  scripts : list (list parsedOpcode);
  scriptIdx : Z;
  scriptOff : Z;
  lastCodeSep : Z;
  dstack : stack;
  astack : stack;
  vm_tx : MsgTx;
  txIdx : Z;
  condStack : list Z;
  numOps : Z;
  flags : Z;
  sigCache : option SigCache.SigCache;
  hashCache : option TxSigHashes;
  bip16 : bool;
  savedFirstStack : list bytes;
  inputAmount : Z
}.

Definition set_scripts (vm : Engine) x := mkEngine x (scriptIdx vm) (scriptOff vm) (lastCodeSep vm)
  (dstack vm) (astack vm) (vm_tx vm) (txIdx vm) (condStack vm) (numOps vm) (flags vm) (sigCache vm)
  (hashCache vm) (bip16 vm) (savedFirstStack vm) (inputAmount vm).
Definition set_scriptIdx (vm : Engine) x := mkEngine (scripts vm) x (scriptOff vm) (lastCodeSep vm)
  (dstack vm) (astack vm) (vm_tx vm) (txIdx vm) (condStack vm) (numOps vm) (flags vm) (sigCache vm)
  (hashCache vm) (bip16 vm) (savedFirstStack vm) (inputAmount vm).
Definition set_scriptOff (vm : Engine) x := mkEngine (scripts vm) (scriptIdx vm) x (lastCodeSep vm)
  (dstack vm) (astack vm) (vm_tx vm) (txIdx vm) (condStack vm) (numOps vm) (flags vm) (sigCache vm)
  (hashCache vm) (bip16 vm) (savedFirstStack vm) (inputAmount vm).
Definition set_lastCodeSep (vm : Engine) x := mkEngine (scripts vm) (scriptIdx vm) (scriptOff vm) x
  (dstack vm) (astack vm) (vm_tx vm) (txIdx vm) (condStack vm) (numOps vm) (flags vm) (sigCache vm)
  (hashCache vm) (bip16 vm) (savedFirstStack vm) (inputAmount vm).
Definition set_dstack (vm : Engine) x := mkEngine (scripts vm) (scriptIdx vm) (scriptOff vm)
  (lastCodeSep vm) x (astack vm) (vm_tx vm) (txIdx vm) (condStack vm) (numOps vm) (flags vm)
  (sigCache vm) (hashCache vm) (bip16 vm) (savedFirstStack vm) (inputAmount vm).
Definition set_astack (vm : Engine) x := mkEngine (scripts vm) (scriptIdx vm) (scriptOff vm)
  (lastCodeSep vm) (dstack vm) x (vm_tx vm) (txIdx vm) (condStack vm) (numOps vm) (flags vm)
  (sigCache vm) (hashCache vm) (bip16 vm) (savedFirstStack vm) (inputAmount vm).
Definition set_condStack (vm : Engine) x := mkEngine (scripts vm) (scriptIdx vm) (scriptOff vm)
  (lastCodeSep vm) (dstack vm) (astack vm) (vm_tx vm) (txIdx vm) x (numOps vm) (flags vm)
  (sigCache vm) (hashCache vm) (bip16 vm) (savedFirstStack vm) (inputAmount vm).
Definition set_numOps (vm : Engine) x := mkEngine (scripts vm) (scriptIdx vm) (scriptOff vm)
  (lastCodeSep vm) (dstack vm) (astack vm) (vm_tx vm) (txIdx vm) (condStack vm) x (flags vm)
  (sigCache vm) (hashCache vm) (bip16 vm) (savedFirstStack vm) (inputAmount vm).
Definition set_sigCache (vm : Engine) x := mkEngine (scripts vm) (scriptIdx vm) (scriptOff vm)
  (lastCodeSep vm) (dstack vm) (astack vm) (vm_tx vm) (txIdx vm) (condStack vm) (numOps vm)
  (flags vm) x (hashCache vm) (bip16 vm) (savedFirstStack vm) (inputAmount vm).
Definition set_savedFirstStack (vm : Engine) x := mkEngine (scripts vm) (scriptIdx vm) (scriptOff vm)
  (lastCodeSep vm) (dstack vm) (astack vm) (vm_tx vm) (txIdx vm) (condStack vm) (numOps vm)
  (flags vm) (sigCache vm) (hashCache vm) (bip16 vm) x (inputAmount vm).

(** * Helpers *)
Definition hasFlag (vm : Engine) (flag : Z) : bool := Z.land (flags vm) flag =? flag.

Definition isBranchExecuting (vm : Engine) : bool :=
  match last (condStack vm) with
  | None => true
  | Some c => c =? OpCondTrue
  end.

(** An error when the program counter is past the scripts. *)
Definition validPC (vm : Engine) : res ErrorCode unit :=
  if len (scripts vm) <=? scriptIdx vm then Err ErrInvalidProgramCounter
  else
    script ← idx (scripts vm) (scriptIdx vm);
    if len script <=? scriptOff vm then Err ErrInvalidProgramCounter else Ok ().

(** The script since the last OP_CODESEPARATOR. *)
Definition subScript (vm : Engine) : res ErrorCode (list parsedOpcode) :=
  script ← idx (scripts vm) (scriptIdx vm);
  slice script (lastCodeSep vm) (len script).

Definition checkHashTypeEncoding (vm : Engine) (hashType : Z) : res ErrorCode unit :=
  if negb (hasFlag vm ScriptVerifyStrictEncoding) then Ok ()
  else
    let sigHashType := Z.ldiff hashType SigHashAnyOneCanPay in
    if (sigHashType <? SigHashAll) || (SigHashSingle <? sigHashType)
    then Err ErrInvalidSigHashType else Ok ().

Definition checkPubKeyEncoding (vm : Engine) (pubKey : bytes) : res ErrorCode unit :=
  if negb (hasFlag vm ScriptVerifyStrictEncoding) then Ok ()
  else if (len pubKey =? 33) && (byte_is pubKey 0 0x02 || byte_is pubKey 0 0x03) then Ok ()
  else if (len pubKey =? 65) && byte_is pubKey 0 0x04 then Ok ()
  else Err ErrPubKeyType.

(** The checks on the integers of a signature whose lengths are known. *)
Definition checkSigIntegers (vm : Engine) (sig : bytes) (rLen sLen : Z) : res ErrorCode unit :=
  b2 ← idx sig 2;
  if negb (b2 =? 0x02) then Err ErrSigDER
  else if rLen =? 0 then Err ErrSigDER
  else
  b4 ← idx sig 4;
  if negb (Z.land b4 0x80 =? 0) then Err ErrSigDER
  else
  padR ← (if (1 <? rLen) && (b4 =? 0x00)
          then b5 ← idx sig 5; Ok (Z.land b5 0x80 =? 0) else Ok false);
  if (padR : bool) then Err ErrSigDER
  else
  bS ← idx sig (rLen + 4);
  if negb (bS =? 0x02) then Err ErrSigDER
  else if sLen =? 0 then Err ErrSigDER
  else
  b6 ← idx sig (rLen + 6);
  if negb (Z.land b6 0x80 =? 0) then Err ErrSigDER
  else
  padS ← (if (1 <? sLen) && (b6 =? 0x00)
          then b7 ← idx sig (rLen + 7); Ok (Z.land b7 0x80 =? 0) else Ok false);
  if (padS : bool) then Err ErrSigDER
  else if hasFlag vm ScriptVerifyLowS then
    sBytes ← slice sig (rLen + 6) (rLen + 6 + sLen);
    if halfOrder <? be_decode sBytes then Err ErrSigHighS else Ok ()
  else Ok ().

Definition checkSignatureEncoding (vm : Engine) (sig : bytes) : res ErrorCode unit :=
  if negb (hasFlag vm ScriptVerifyDERSignatures) && negb (hasFlag vm ScriptVerifyLowS) &&
     negb (hasFlag vm ScriptVerifyStrictEncoding) then Ok ()
  else if len sig <? 8 then Err ErrSigDER
  else if 72 <? len sig then Err ErrSigDER
  else
  b0 ← idx sig 0;
  if negb (b0 =? 0x30) then Err ErrSigDER
  else
  b1 ← idx sig 1;
  if negb (b1 =? len sig - 2) then Err ErrSigDER
  else
  rLen ← idx sig 3;
  if len sig <? rLen + 5 then Err ErrSigDER
  else
  sLen ← idx sig (rLen + 5);
  if negb (rLen + sLen + 6 =? len sig) then Err ErrSigDER
  else checkSigIntegers vm sig rLen sLen.

(** * The stacks as arrays *)

(** An error of [PeekByteArray] is dropped and leaves a nil entry. *)
Definition getStack (s : stack) : list bytes :=
  reverse (map (fun i => match PeekByteArray s i with Ok b => b | _ => [] end) (seqZ 0 (Depth s))).

(** [_ = stack.DropN(stack.Depth())]: on an empty stack it is an error, which
    is dropped. *)
Definition drop_all (s : stack) : res ErrorCode stack :=
  match DropN s (Depth s) with
  | Ok s => Ok s
  | Err _ => Ok s
  | Panic => Panic
  | Hang => Hang
  end.

Definition setStack (s : stack) (data : list bytes) : res ErrorCode stack :=
  s ← drop_all s; Ok (fold_left PushByteArray data s).

Definition GetStack (vm : Engine) : list bytes := getStack (dstack vm).
Definition SetStack (vm : Engine) (data : list bytes) : res ErrorCode Engine :=
  s ← setStack (dstack vm) data; Ok (set_dstack vm s).
Definition GetAltStack (vm : Engine) : list bytes := getStack (astack vm).
Definition SetAltStack (vm : Engine) (data : list bytes) : res ErrorCode Engine :=
  s ← setStack (astack vm) data; Ok (set_astack vm s).

Definition CheckErrorCondition (vm : Engine) (finalScript : bool) : res ErrorCode Engine :=
  if scriptIdx vm <? len (scripts vm) then Err ErrScriptUnfinished
  else if finalScript && hasFlag vm ScriptVerifyCleanStack && negb (Depth (dstack vm) =? 1)
  then Err ErrCleanStack
  else if Depth (dstack vm) <? 1 then Err ErrEmptyStack
  else
    '(v, s) ← PopBool (dstack vm);
    if (v : bool) then Ok (set_dstack vm s) else Err ErrEvalFalse.

(** * A new engine *)

(** The two scripts, each checked and parsed in turn. *)
Fixpoint parse_scripts (scrs : list bytes) : res ErrorCode (list (list parsedOpcode)) :=
  match scrs with
  | [] => Ok []
  | scr :: scrs =>
      if ScriptBuilder.MaxScriptSize <? len scr then Err ErrScriptTooBig
      else
        pops ← ParseScript scr;
        rest ← parse_scripts scrs;
        Ok (pops :: rest)
  end.

Definition NewEngine (scriptPubKey : bytes) (tx : MsgTx) (i : Z) (fl : Z)
    (cache : option SigCache.SigCache) (hashes : option TxSigHashes) (amount : Z)
    : res ErrorCode Engine :=
  if (i <? 0) || (len (tx_TxIn tx) <=? i) then Err ErrInvalidIndex
  else
  ti ← idx (tx_TxIn tx) i;
  let scriptSig := SignatureScript ti in
  if (len scriptSig =? 0) && (len scriptPubKey =? 0) then Err ErrEvalFalse
  else
  let empty := mkStack [] false in
  let vm := mkEngine [] 0 0 0 empty empty tx i [] 0 fl cache hashes false [] amount in
  if hasFlag vm ScriptVerifyCleanStack && negb (hasFlag vm ScriptBip16) then Err ErrInvalidFlags
  else if hasFlag vm ScriptVerifySigPushOnly && negb (IsPushOnlyScript scriptSig)
  then Err ErrNotPushOnly
  else
  scrs ← parse_scripts [scriptSig; scriptPubKey];
  let start := if len scriptSig =? 0 then 1 else 0 in
  s0 ← idx scrs 0;
  s1 ← idx scrs 1;
  let p2sh := hasFlag vm ScriptBip16 && isScriptHash s1 in
  if p2sh && negb (isPushOnly s0) then Err ErrNotPushOnly
  else
  let minimal := hasFlag vm ScriptVerifyMinimalData in
  let st := mkStack [] minimal in
  Ok (mkEngine scrs start 0 0 st st tx i [] 0 fl cache hashes p2sh [] amount).

End Engine.
