(* ===== verification/EngineSpec.v ===== *)
(** The signature encoding check of the engine: exactly which bytes it accepts,
    on which it panics, and that the signatures the key package serializes pass
    it. *)
From S2P Require Import Prelude PubKey Opcode ScriptNum Stack Wire Crypto Signature Script SigCache Engine.
Import btcec Opcode ScriptNum Stack wire Crypto Sig Script Engine.
#[local] Open Scope Z_scope.

Module EngineSpec.

(** The flags that make the engine check the encoding. *)
Definition strict (vm : Engine) : bool :=
  hasFlag vm ScriptVerifyDERSignatures || hasFlag vm ScriptVerifyLowS || hasFlag vm ScriptVerifyStrictEncoding.

(** The minimal big-endian encoding of a number that is not negative. *)
Definition canonicalb (b : bytes) : bool :=
  match b with
  | [] => false
  | [x] => x <? 128
  | x :: y :: _ => (x <? 128) && negb ((x =? 0) && (y <? 128))
  end.

(** The bytes of a signature with the numbers [rb] and [sb]. *)
Definition der_form (rb sb : bytes) : bytes :=
  [0x30; 4 + len rb + len sb; 2; len rb] ++ rb ++ [2; len sb] ++ sb.

(** A signature with arbitrary markers. *)
Definition layout (b0 b1 b2 : Z) (rb : bytes) (m sl : Z) (sb : bytes) : bytes :=
  [b0; b1; b2; len rb] ++ rb ++ [m; sl] ++ sb.

Lemma layout_len b0 b1 b2 rb m sl sb : len (layout b0 b1 b2 rb m sl sb) = len rb + len sb + 6.
Proof. unfold layout. rewrite !len_app. unfold len. cbn [length]. lia. Qed.

(** The byte at some offset after R. *)
Lemma layout_idx {E} b0 b1 b2 rb m sl sb k x :
  0 <= k -> (m :: sl :: sb) !! Z.to_nat k = Some x ->
  @idx E _ (layout b0 b1 b2 rb m sl sb) (len rb + 4 + k) = Ok x.
Proof.
  intros Hk Hx. apply idx_Ok. pose proof (len_nonneg rb). split; [lia|]. unfold layout. rewrite app_assoc.
  rewrite lookup_app_r by (rewrite length_app; unfold len; cbn [length]; lia).
  rewrite <- Hx. f_equal. rewrite length_app. unfold len. cbn [length]. lia.
Qed.

Lemma layout_R {E} b0 b1 b2 rb m sl sb k x :
  0 <= k -> rb !! Z.to_nat k = Some x -> @idx E _ (layout b0 b1 b2 rb m sl sb) (4 + k) = Ok x.
Proof.
  intros Hk Hx. apply idx_Ok. split; [lia|]. unfold layout.
  rewrite lookup_app_r by (cbn [length]; lia).
  replace (Z.to_nat (4 + k) - length [b0; b1; b2; len rb])%nat with (Z.to_nat k) by (cbn [length]; lia).
  apply lookup_app_l_Some, Hx.
Qed.

(** The check of one number. *)
Lemma check_number {A} (b : bytes) (at0 at1 : res ErrorCode Z) (k : res ErrorCode A) :
  bytes_ok b -> 1 <= len b -> (forall x, b !! 0%nat = Some x -> at0 = Ok x) ->
  (forall x, b !! 1%nat = Some x -> at1 = Ok x) ->
  (b0 ← at0;
   if negb (Z.land b0 0x80 =? 0) then Err ErrSigDER
   else
   pad ← (if (1 <? len b) && (b0 =? 0x00) then b1 ← at1; Ok (Z.land b1 0x80 =? 0) else Ok false);
   if (pad : bool) then Err ErrSigDER else k) = if canonicalb b then k else Err ErrSigDER.
Proof.
  intros Hok Hl H0 H1. destruct b as [|x b]; [by change (len []) with 0 in Hl|].
  rewrite (H0 x) by done. cbn [mbind res_bind]. apply Forall_cons in Hok as [Hx Hok].
  rewrite byte_hi by done. destruct b as [|y b].
  - cbn [canonicalb]. change (1 <? len [x]) with false. cbn [andb mbind res_bind]. by destruct (x <? 128).
  - apply Forall_cons in Hok as [Hy _]. cbn [canonicalb]. rewrite !len_cons. pose proof (len_nonneg b).
    replace (1 <? 1 + (1 + len b)) with true by lia. cbn [andb].
    destruct (x <? 128); [|done]. cbn [negb andb]. destruct (x =? 0); [|done]. cbn [andb].
    rewrite (H1 y) by done. cbn [mbind res_bind]. rewrite byte_hi by done. by destruct (y <? 128).
Qed.

Lemma checkSigIntegers_layout vm b0 b1 b2 rb m sb :
  bytes_ok rb -> bytes_ok sb ->
  checkSigIntegers vm (layout b0 b1 b2 rb m (len sb) sb) (len rb) (len sb) =
  if (b2 =? 2) && canonicalb rb && (m =? 2) && canonicalb sb then
    if hasFlag vm ScriptVerifyLowS && (halfOrder <? be_decode sb) then Err ErrSigHighS else Ok ()
  else Err ErrSigDER.
Proof.
  intros Hr Hs. unfold checkSigIntegers. set (sig := layout b0 b1 b2 rb m (len sb) sb).
  change (idx sig 2) with (@Ok ErrorCode Z b2). cbn [mbind res_bind].
  destruct (b2 =? 2); [|done]. cbn [negb andb].
  destruct (Z.eqb_spec (len rb) 0) as [Hl|Hl].
  { apply len_0 in Hl. by subst rb. }
  pose proof (len_nonneg rb). pose proof (len_nonneg sb).
  rewrite (check_number rb (idx sig 4) (idx sig 5)); [|done | lia | |].
  2: { intros x Hx. by apply (layout_R _ _ _ _ _ _ _ 0 x). }
  2: { intros x Hx. by apply (layout_R _ _ _ _ _ _ _ 1 x). }
  destruct (canonicalb rb); [|done]. cbn [andb].
  assert (idx sig (len rb + 4) = @Ok ErrorCode Z m) as ->.
  { replace (len rb + 4) with (len rb + 4 + 0) by lia. by apply layout_idx. }
  cbn [mbind res_bind]. destruct (m =? 2); [|done]. cbn [negb andb].
  destruct (Z.eqb_spec (len sb) 0) as [Hl'|Hl'].
  { apply len_0 in Hl'. by subst sb. }
  rewrite (check_number sb (idx sig (len rb + 6)) (idx sig (len rb + 7))); [|done | lia | |].
  2: { intros x Hx. replace (len rb + 6) with (len rb + 4 + 2) by lia. by apply layout_idx. }
  2: { intros x Hx. replace (len rb + 7) with (len rb + 4 + 3) by lia. by apply layout_idx. }
  destruct (canonicalb sb); [|done]. destruct (hasFlag vm ScriptVerifyLowS); [|done].
  assert (slice sig (len rb + 6) (len rb + 6 + len sb) = @Ok ErrorCode _ sb) as ->; [|done].
  replace (len rb + 6) with (len (([b0; b1; b2; len rb] ++ rb) ++ [m; len sb])) by (rewrite !len_app; unfold len; cbn [length]; lia).
  assert (sig = (([b0; b1; b2; len rb] ++ rb) ++ [m; len sb]) ++ sb ++ []) as ->
    by (unfold sig, layout; by rewrite app_nil_r, <- !app_assoc).
  apply slice_mid.
Qed.

(** The check up to the two numbers. *)
Lemma checkSignatureEncoding_layout vm b0 b1 b2 rb m sl sb :
  strict vm = true -> bytes_ok rb -> bytes_ok sb ->
  let sig := layout b0 b1 b2 rb m sl sb in
  checkSignatureEncoding vm sig =
  if (8 <=? len sig) && (len sig <=? 72) && (b0 =? 0x30) && (b1 =? len sig - 2) && (sl =? len sb)
  then checkSigIntegers vm sig (len rb) sl else Err ErrSigDER.
Proof.
  intros Hst Hr Hs sig. unfold checkSignatureEncoding. pose proof (len_nonneg rb). pose proof (len_nonneg sb).
  pose proof (layout_len b0 b1 b2 rb m sl sb) as Hl. fold sig in Hl.
  replace (negb _ && negb _ && negb _) with false.
  2: { unfold strict in Hst. repeat destruct (hasFlag _ _); done. }
  rewrite !Z.leb_antisym. destruct (len sig <? 8); [done|]. destruct (72 <? len sig); [done|]. cbn [negb andb].
  change (idx sig 0) with (@Ok ErrorCode Z b0). change (idx sig 1) with (@Ok ErrorCode Z b1).
  change (idx sig 3) with (@Ok ErrorCode Z (len rb)). cbn [mbind res_bind].
  destruct (b0 =? 0x30); [|done]. cbn [negb andb]. destruct (b1 =? len sig - 2); [|done]. cbn [negb andb].
  replace (len sig <? len rb + 5) with false by lia.
  assert (idx sig (len rb + 5) = @Ok ErrorCode Z sl) as ->.
  { replace (len rb + 5) with (len rb + 4 + 1) by lia. by apply layout_idx. }
  cbn [mbind res_bind]. rewrite Hl.
  destruct (Z.eqb_spec (len rb + sl + 6) (len rb + len sb + 6)), (Z.eqb_spec sl (len sb)); (done || lia).
Qed.

(** Bytes in which the length of R leaves room for the rest. *)
Lemma layout_split sig rl :
  bytes_ok sig -> sig !! 3%nat = Some rl -> rl + 5 < len sig ->
  exists b0 b1 b2 rb m sl sb, len rb = rl /\ bytes_ok rb /\ bytes_ok sb /\ sig = layout b0 b1 b2 rb m sl sb.
Proof.
  intros Hok H3 Hl. destruct sig as [|b0 [|b1 [|b2 [|r rest]]]]; try done. cbn in H3. injection H3 as ->.
  do 4 apply Forall_cons in Hok as [? Hok]. rewrite !len_cons in Hl. unfold is_byte in *.
  assert (len (take (Z.to_nat rl) rest) = rl) as Htk by (unfold len in *; rewrite length_take; lia).
  destruct (drop (Z.to_nat rl) rest) as [|m [|sl sb]] eqn:Hd.
  1,2: apply (f_equal length) in Hd; rewrite length_drop in Hd; cbn in Hd; unfold len in *; lia.
  exists b0, b1, b2, (take (Z.to_nat rl) rest), m, sl, sb. split_and!; [done | by apply bytes_ok_take | |].
  - apply (bytes_ok_drop (Z.to_nat rl)) in Hok. rewrite Hd in Hok. by do 2 apply Forall_cons in Hok as [_ Hok].
  - unfold layout. rewrite Htk. change ([m; sl] ++ sb) with (m :: sl :: sb). by rewrite <- Hd, take_drop.
Qed.

(** The first bytes of a signature that reaches the length of S. *)
Lemma header_cases vm sig :
  strict vm = true -> 8 <= len sig <= 72 -> exists b0 b1 rl,
    sig !! 0%nat = Some b0 /\ sig !! 1%nat = Some b1 /\ sig !! 3%nat = Some rl /\
    checkSignatureEncoding vm sig =
      if (b0 =? 0x30) && (b1 =? len sig - 2) && (rl + 5 <=? len sig) then
        sLen ← idx sig (rl + 5);
        if negb (rl + sLen + 6 =? len sig) then Err ErrSigDER else checkSigIntegers vm sig rl sLen
      else Err ErrSigDER.
Proof.
  intros Hst Hl. destruct sig as [|b0 [|b1 [|b2 [|rl rest]]]]; rewrite ?len_cons in Hl; try (change (len []) with 0 in Hl; lia).
  exists b0, b1, rl. split_and!; try done. unfold checkSignatureEncoding.
  replace (negb _ && negb _ && negb _) with false.
  2: { unfold strict in Hst. repeat destruct (hasFlag _ _); done. }
  set (sig := b0 :: b1 :: b2 :: rl :: rest). assert (8 <= len sig <= 72) as Hs by (unfold sig; rewrite !len_cons; lia).
  replace (len sig <? 8) with false by lia. replace (72 <? len sig) with false by lia.
  change (idx sig 0) with (@Ok ErrorCode Z b0). change (idx sig 1) with (@Ok ErrorCode Z b1).
  change (idx sig 3) with (@Ok ErrorCode Z rl). cbn [mbind res_bind].
  destruct (b0 =? 0x30); [|done]. destruct (b1 =? len sig - 2); [|done]. cbn [negb andb].
  rewrite Z.leb_antisym. by destruct (len sig <? rl + 5).
Qed.

Lemma canonical_nonempty b : canonicalb b = true -> 1 <= len b.
Proof. destruct b; [done|]. intros _. rewrite len_cons. pose proof (len_nonneg b). lia. Qed.

Lemma too_short_or_long vm sig :
  strict vm = true -> ~ 8 <= len sig <= 72 -> checkSignatureEncoding vm sig = Err ErrSigDER.
Proof.
  intros Hst Hl. unfold checkSignatureEncoding. replace (negb _ && negb _ && negb _) with false.
  2: { unfold strict in Hst. repeat destruct (hasFlag _ _); done. }
  destruct (Z.ltb_spec (len sig) 8); [done|]. destruct (Z.ltb_spec 72 (len sig)); [done | lia].
Qed.

(** A signature of the exact form. *)
Lemma checkSignatureEncoding_form vm rb sb :
  strict vm = true -> bytes_ok rb -> bytes_ok sb -> canonicalb rb = true -> canonicalb sb = true ->
  len (der_form rb sb) <= 72 -> (hasFlag vm ScriptVerifyLowS = true -> be_decode sb <= halfOrder) ->
  checkSignatureEncoding vm (der_form rb sb) = Ok ().
Proof.
  intros Hst Hr Hs Hcr Hcs Hl Hlow. apply canonical_nonempty in Hcr as Hlr. apply canonical_nonempty in Hcs as Hls.
  change (der_form rb sb) with (layout 0x30 (4 + len rb + len sb) 2 rb 2 (len sb) sb) in *.
  rewrite checkSignatureEncoding_layout by done. pose proof (layout_len 0x30 (4 + len rb + len sb) 2 rb 2 (len sb) sb) as Hlen.
  set (sig := layout _ _ _ _ _ _ _) in *.
  replace ((8 <=? len sig) && (len sig <=? 72) && (48 =? 48) && (4 + len rb + len sb =? len sig - 2) && (len sb =? len sb))
    with true by lia.
  unfold sig. rewrite checkSigIntegers_layout by done. rewrite Hcr, Hcs. cbn [Z.eqb Pos.eqb andb].
  destruct (hasFlag vm ScriptVerifyLowS); [|done]. specialize (Hlow eq_refl). cbn [andb].
  by replace (halfOrder <? be_decode sb) with false by lia.
Qed.

(** The encodings the engine accepts.  With one of the encoding flags set,
    [checkSignatureEncoding] accepts exactly the DER forms of at most 72 bytes
    whose two numbers are encoded minimally and are not negative, with S at most
    half the order when low S values are required. *)
Theorem encoding_exact vm sig :
  bytes_ok sig -> strict vm = true ->
  checkSignatureEncoding vm sig = Ok () <->
  exists rb sb, sig = der_form rb sb /\ canonicalb rb = true /\ canonicalb sb = true /\ len sig <= 72 /\
    (hasFlag vm ScriptVerifyLowS = true -> be_decode sb <= halfOrder).
Proof.
  intros Hok Hst. split.
  2: { intros (rb & sb & -> & Hr & Hs & Hl & Hlow). unfold der_form in Hok.
       repeat (apply Forall_app in Hok as [? Hok]). by apply checkSignatureEncoding_form. }
  intros Hc0. destruct (decide (8 <= len sig <= 72)) as [Hl|Hl]; [|by rewrite too_short_or_long in Hc0]. pose proof Hc0 as Hc.
  destruct (header_cases vm sig Hst Hl) as (b0 & b1 & rl & _ & _ & H3 & Heq). rewrite Heq in Hc.
  destruct (_ && _) in Hc; [|done]. apply bind_Ok in Hc as (sLen & Hi & _). apply idx_Ok in Hi as [_ Hi].
  apply lookup_lt_Some in Hi. destruct (layout_split sig rl Hok H3) as (b0' & b1' & b2 & rb & m & sl & sb & Hrl & Hr & Hs & Hsig).
  { pose proof (Forall_lookup_1 _ _ _ _ Hok H3) as Hb. unfold is_byte, len in *. lia. }
  rewrite Hsig in Hc0, Hl |- *. rewrite checkSignatureEncoding_layout in Hc0 by done. cbv zeta in Hc0.
  destruct (_ && _) eqn:Hh in Hc0; [|done]. apply andb_true_iff in Hh as [Hh Hsl%Z.eqb_eq]. subst sl.
  apply andb_true_iff in Hh as [Hh Hb1%Z.eqb_eq]. apply andb_true_iff in Hh as [_ Hb0%Z.eqb_eq].
  rewrite layout_len in Hb1. subst b0' b1'.
  rewrite checkSigIntegers_layout in Hc0 by done. destruct (_ && _) eqn:Hh in Hc0; [|done].
  repeat (apply andb_true_iff in Hh as [Hh ?]). apply Z.eqb_eq in Hh. subst b2.
  exists rb, sb. assert (m = 2) as -> by lia. split_and!; try done; [|lia|].
  - unfold der_form, layout. by replace (4 + len rb + len sb) with (len rb + len sb + 6 - 2) by lia.
  - intros Hlow. rewrite Hlow in Hc0. cbn [andb] in Hc0. destruct (Z.ltb_spec halfOrder (be_decode sb)); [done | lia].
Qed.

(** An engine with all the standard flags. *)
Definition standard_engine : Engine :=
  mkEngine [] 0 0 0 (mkStack [] true) (mkStack [] true) (mkMsgTx 1 [] [] 0) 0 [] 0 StandardVerifyFlags None None false [] 0.

(** C24: when the encoding check panics.  With one of the encoding flags set,
    [checkSignatureEncoding] reads past the end of the signature exactly when
    the signature has an acceptable length, the right magic and length bytes,
    and an R that ends one byte before the end. *)
Theorem encoding_panic_iff vm sig :
  bytes_ok sig -> strict vm = true ->
  checkSignatureEncoding vm sig = Panic <->
  8 <= len sig <= 72 /\ sig !! 0%nat = Some 0x30 /\ sig !! 1%nat = Some (len sig - 2) /\
  sig !! 3%nat = Some (len sig - 5).
Proof.
  intros Hok Hst. destruct (decide (8 <= len sig <= 72)) as [Hl|Hl].
  2: { rewrite too_short_or_long by done. split; [done | tauto]. }
  destruct (header_cases vm sig Hst Hl) as (b0 & b1 & rl & H0 & H1 & H3 & Heq).
  pose proof (Forall_lookup_1 _ _ _ _ Hok H3) as Hb. unfold is_byte in Hb.
  destruct (decide (rl + 5 < len sig)) as [Hin|Hout].
  - destruct (layout_split sig rl Hok H3 Hin) as (b0' & b1' & b2 & rb & m & sl & sb & Hrl & Hr & Hs & Hsig).
    split.
    + intros Hp. rewrite Hsig, checkSignatureEncoding_layout in Hp by done. cbv zeta in Hp.
      destruct (_ && _) eqn:Hh in Hp; [|done]. apply andb_true_iff in Hh as [_ Hsl%Z.eqb_eq]. subst sl.
      rewrite checkSigIntegers_layout in Hp by done. repeat case_match; done.
    + intros (_ & _ & _ & H3'). rewrite H3 in H3'. injection H3' as ?. lia.
  - rewrite Heq. split.
    + destruct (_ && _) eqn:Hh; [|done]. intros _. rewrite H0, H1, H3.
      repeat (apply andb_true_iff in Hh as [Hh ?]). split_and!; try done; f_equal; lia.
    + intros (_ & H0' & H1' & H3'). rewrite H0 in H0'. rewrite H1 in H1'. rewrite H3 in H3'.
      injection H0' as ->. injection H1' as ->. injection H3' as ->.
      rewrite !Z.eqb_refl. replace (len sig - 5 + 5 <=? len sig) with true by lia. cbn [andb].
      rewrite idx_out_of_range by lia. done.
Qed.

Lemma encoding_panic_iff_witness :
  let sig := [0x30; 6; 2; 3; 1; 1; 1; 2] in
  checkSignatureEncoding standard_engine sig = Panic <->
  8 <= len sig <= 72 /\ sig !! 0%nat = Some 0x30 /\ sig !! 1%nat = Some (len sig - 2) /\
  sig !! 3%nat = Some (len sig - 5).
Proof.
  apply (encoding_panic_iff standard_engine [0x30; 6; 2; 3; 1; 1; 1; 2]); [apply bytesb_ok; reflexivity | reflexivity].
Defined.

(** The engine does panic on that signature. *)
Lemma encoding_panics : checkSignatureEncoding standard_engine [0x30; 6; 2; 3; 1; 1; 1; 2] = Panic.
Proof. vm_compute. reflexivity. Qed.

(** The padding check of the key package agrees. *)
Lemma canonicalPadding_canonicalb b : bytes_ok b -> 1 <= len b -> canonicalPadding b = Ok padOk -> canonicalb b = true.
Proof.
  intros Hok Hl Hp. destruct b as [|x b]; [by change (len []) with 0 in Hl|]. apply Forall_cons in Hok as [Hx Hok].
  assert (forall y, is_byte y -> (Z.land y 0x80 =? 0x80) = negb (y <? 128)) as Hhi.
  { intros y Hy. pose proof (byte_forall (fun y => Bool.eqb (Z.land y 0x80 =? 0x80) (negb (y <? 128))) eq_refl y Hy) as Hb.
    cbv beta in Hb. by apply Bool.eqb_prop. }
  unfold canonicalPadding in Hp. change (idx (x :: b) 0) with (@Ok string Z x) in Hp. cbn [mbind res_bind] in Hp.
  rewrite Hhi in Hp by done. destruct b as [|y b]; cbn [canonicalb]; destruct (x <? 128); try done.
  apply Forall_cons in Hok as [Hy _]. cbn [negb] in Hp. rewrite !len_cons in Hp. pose proof (len_nonneg b).
  replace (1 <? 1 + (1 + len b)) with true in Hp by lia. cbn [andb] in Hp |- *.
  destruct (x =? 0); [|done]. change (idx (x :: y :: b) 1) with (@Ok string Z y) in Hp. cbn [mbind res_bind] in Hp.
  rewrite Hhi in Hp by done. by destruct (y <? 128).
Qed.

(** Serialized signatures pass the encoding check.  A signature with both
    numbers in range serializes to bytes that [checkSignatureEncoding] accepts
    whatever the flags of the engine. *)
Theorem serialized_signature_accepted vm sig :
  0 < sig_R sig < N -> 0 < sig_S sig < N ->
  exists b, Serialize sig = Ok b /\ checkSignatureEncoding vm b = Ok ().
Proof.
  intros HR HS. assert (N < 2 ^ 256) as HN by done.
  unfold Serialize. set (sv := if halforder <? sig_S sig then order - sig_S sig else sig_S sig).
  assert (0 < sv <= halfOrder) as Hsv.
  { assert (N = 2 * halfOrder + 1) as HN2 by done. assert (halforder = halfOrder) as Hh by done.
    unfold sv, order. destruct (Z.ltb_spec halforder (sig_S sig)); lia. }
  assert (halfOrder < 2 ^ 255) as Hh by done.
  destruct (canonicalizeInt_spec (sig_R sig)) as (rb & -> & Hrok & Hrl & Hrd & Hrp); [lia|].
  destruct (canonicalizeInt_spec sv) as (sb & -> & Hsok & Hslen & Hsd & Hsp); [lia|].
  cbn [mbind res_bind]. eexists. split; [done|].
  rewrite !wrapu_small by (unfold is_u; lia). replace (6 + len rb + len sb - 2) with (4 + len rb + len sb) by lia.
  destruct (strict vm) eqn:Hst.
  2: { unfold checkSignatureEncoding. unfold strict in Hst.
       apply orb_false_iff in Hst as [Hst Hf3]. apply orb_false_iff in Hst as [Hf1 Hf2]. by rewrite Hf1, Hf2, Hf3. }
  apply (checkSignatureEncoding_form vm rb sb); try done.
  - by apply canonicalPadding_canonicalb; [|lia|].
  - by apply canonicalPadding_canonicalb; [|lia|].
  - change (der_form rb sb) with (layout 0x30 (4 + len rb + len sb) 2 rb 2 (len sb) sb). rewrite layout_len. lia.
  - rewrite Hsd. lia.
Qed.

Lemma serialized_signature_accepted_witness :
  exists b, Serialize (mkSignature 5 (N - 1)) = Ok b /\ checkSignatureEncoding standard_engine b = Ok ().
Proof. apply (serialized_signature_accepted standard_engine (mkSignature 5 (N - 1))); cbn; unfold N; lia. Defined.

End EngineSpec.
