(* ===== verification/StackSpec.v ===== *)
(** Specifications of the stack operations for the engine: what each operation
    does to the number of items, and that it keeps every item within the size
    limit.  [Stack] states the exact effect of the operations; here are the
    facts that the invariant of the engine needs, in the form of
    postconditions. *)
From S2P Require Import Prelude Opcode ScriptNum Stack Script.
Import Opcode ScriptNum Stack.
#[local] Open Scope Z_scope.

Module StackSpec.

(** An item the engine can hold. *)
Definition item_ok (b : bytes) : Prop := bytes_ok b /\ len b <= Script.MaxScriptElementSize.

(** A stack of [n] such items. *)
Definition sok (n : Z) (s : stack) : Prop := Forall item_ok (stk s) /\ len (stk s) = n.

(** The same checks of minimal encodings. *)
Abbreviation vmd := verifyMinimalData.

Create HintDb stack.

Lemma sok_small n s : sok n s -> n < 2 ^ 31 -> small s.
Proof. intros [_ Hl] Hn. unfold small. lia. Qed.

Lemma sok_nonneg n s : sok n s -> 0 <= n.
Proof. intros [_ <-]. apply len_nonneg. Qed.

Lemma sok_Depth n s : sok n s -> n < 2 ^ 31 -> Depth s = n.
Proof. intros Hs Hn. unfold Depth. rewrite sz_small by eauto using sok_small. apply Hs. Qed.

Lemma item_nil : item_ok [].
Proof. split; [constructor | by vm_compute]. Qed.

Lemma item_fromBool b : item_ok (fromBool b).
Proof. destruct b; (split; [by apply bytesb_ok | by vm_compute]). Qed.

Lemma push_ok n s x : sok n s -> item_ok x -> sok (n + 1) (PushByteArray s x).
Proof.
  intros [Hf Hl] Hx. split; cbn.
  - apply Forall_app. split; [done|]. by constructor.
  - rewrite len_app. change (len [x]) with 1. lia.
Qed.

Lemma PushBool_ok n s b : sok n s -> sok (n + 1) (PushBool s b).
Proof. intros Hs. apply push_ok; [done | apply item_fromBool]. Qed.

Lemma item_Bytes v : - 2 ^ 63 < v < 2 ^ 63 -> returns item_ok (Bytes v).
Proof.
  intros Hv. destruct (Bytes_minimal v Hv) as (b & -> & Hok & Hm & Hnv). cbn. split; [done|].
  apply (minimal_length b 8) in Hm; [|done|lia|rewrite Hnv; lia]. unfold Script.MaxScriptElementSize. lia.
Qed.

Lemma PushInt_ok n s v :
  sok n s -> - 2 ^ 63 < v < 2 ^ 63 ->
  returns (fun s' => sok (n + 1) s' /\ vmd s' = vmd s) (PushInt s v).
Proof.
  intros Hs Hv. unfold PushInt. eapply post_bind; [by apply item_Bytes|].
  intros b Hb. cbn. split; [by apply push_ok | done].
Qed.

Lemma nipN_ok n s i :
  sok n s -> n < 2 ^ 31 ->
  returns (fun '(x, s') => item_ok x /\ sok (n - 1) s' /\ vmd s' = vmd s /\ 1 <= n) (nipN s i).
Proof.
  intros [Hf Hl] Hn. assert (small s) as Hs by (unfold small; lia).
  destruct (decide (0 <= i < len (stk s))) as [Hi|Hi].
  - destruct (split_at (stk s) i Hi) as (pre & y & suf & Hstk & <-).
    rewrite (nipN_middle s pre y suf Hs Hstk). cbn. rewrite Hstk in Hf, Hl.
    apply Forall_app in Hf as [Hp Hf]. apply Forall_cons in Hf as [Hy Hf].
    rewrite len_app, len_cons in Hl. unfold sok. cbn. rewrite Forall_app, len_app.
    pose proof (len_nonneg pre). pose proof (len_nonneg suf).
    split_and!; try assumption; try done; lia.
  - rewrite nipN_error by (done || lia). done.
Qed.

Lemma PopByteArray_ok n s :
  sok n s -> n < 2 ^ 31 ->
  returns (fun '(x, s') => item_ok x /\ sok (n - 1) s' /\ vmd s' = vmd s /\ 1 <= n /\
                           stk s = stk s' ++ [x]) (PopByteArray s).
Proof.
  intros [Hf Hl] Hn. assert (small s) as Hs by (unfold small; lia).
  destruct (stk s) as [|x l _] eqn:Hstk using rev_ind.
  - unfold PopByteArray. rewrite nipN_error; [done | done |]. right. rewrite Hstk. by vm_compute.
  - rewrite (PopByteArray_snoc s l x Hs Hstk). cbn. apply Forall_app in Hf as [Hf Hx].
    apply Forall_cons in Hx as [Hx _]. rewrite len_app in Hl. change (len [x]) with 1 in Hl.
    pose proof (len_nonneg l). unfold sok. cbn. split_and!; (done || lia).
Qed.

Lemma num_value_int32 b : bytes_ok b -> len b <= 4 -> - 2 ^ 31 < num_value b < 2 ^ 31.
Proof.
  intros Hok Hl. destruct b as [|x b]; [by vm_compute|].
  pose proof (num_value_bound (x :: b) Hok) as Hr. rewrite len_cons in *.
  pose proof (len_nonneg b). specialize (Hr ltac:(lia)).
  assert (2 ^ (8 * (1 + len b) - 1) <= 2 ^ 31) by (apply Z.pow_le_mono_r; lia). lia.
Qed.

Lemma makeScriptNum_range b rm :
  bytes_ok b ->
  returns (fun v => - 2 ^ 31 < v < 2 ^ 31 /\ num_value b = v) (makeScriptNum b rm defaultScriptNumLen).
Proof.
  intros Hok. unfold defaultScriptNumLen.
  destruct (decide (len b <= 4)) as [Hl|Hl].
  - destruct (checkMinimalDataEncoding_spec b Hok) as [[Hc _]|[Hc _]]; [|destruct rm].
    + rewrite makeScriptNum_value by (done || lia). split; [by apply num_value_int32 | done].
    + unfold makeScriptNum. replace (4 <? len b) with false by lia. by rewrite Hc.
    + rewrite makeScriptNum_value by (done || lia). split; [by apply num_value_int32 | done].
  - unfold makeScriptNum. by replace (4 <? len b) with true by lia.
Qed.

Lemma PopInt_ok n s :
  sok n s -> n < 2 ^ 31 ->
  returns (fun '(v, s') => - 2 ^ 31 < v < 2 ^ 31 /\ sok (n - 1) s' /\ vmd s' = vmd s /\ 1 <= n /\
                           exists x, stk s = stk s' ++ [x] /\ num_value x = v) (PopInt s).
Proof.
  intros Hs Hn. unfold PopInt. eapply post_bind; [by eapply PopByteArray_ok|].
  intros [b s'] ([Hb _] & Hs' & Hv & H1 & Hstk). eapply post_bind; [by apply makeScriptNum_range|].
  cbv beta. intros v [Hr Hnv]. cbn. split_and!; (done || lia || by exists b).
Qed.

Lemma PopBool_ok n s :
  sok n s -> n < 2 ^ 31 ->
  returns (fun '(v, s') => sok (n - 1) s' /\ vmd s' = vmd s /\ 1 <= n) (PopBool s).
Proof.
  intros Hs Hn. unfold PopBool. eapply post_bind; [by eapply PopByteArray_ok|].
  intros [b s'] (_ & Hs' & Hv & H1 & _). done.
Qed.

Lemma PeekByteArray_ok n s i :
  sok n s -> n < 2 ^ 31 -> returns (fun x => item_ok x /\ 1 <= n) (PeekByteArray s i).
Proof.
  intros [Hf Hl] Hn. assert (small s) as Hs by (unfold small; lia).
  destruct (decide (0 <= i < len (stk s))) as [Hi|Hi].
  - destruct (split_at (stk s) i Hi) as (pre & y & suf & Hstk & <-).
    rewrite (PeekByteArray_middle s pre y suf Hs Hstk). cbn. rewrite Hstk in Hf.
    apply Forall_app in Hf as [_ Hf]. apply Forall_cons in Hf as [Hy _]. split; [done|].
    pose proof (len_nonneg suf). lia.
  - rewrite PeekByteArray_error by (done || lia). done.
Qed.

Lemma drop_loop_ok k : forall n s,
  sok n s -> n < 2 ^ 31 ->
  returns (fun s' => sok (n - Z.of_nat k) s' /\ vmd s' = vmd s) (drop_loop k s).
Proof.
  induction k as [|k IH]; intros n s Hs Hn; cbn [drop_loop].
  { cbn. split; [by rewrite Z.sub_0_r | done]. }
  eapply post_bind; [by eapply PopByteArray_ok|]. intros [b s'] (_ & Hs' & Hv & H1 & _).
  eapply post_weaken; [apply (IH _ s' Hs'); lia | tauto..|]. intros s2 [Hs2 Hv2].
  split; [by replace (n - Z.of_nat (S k)) with (n - 1 - Z.of_nat k) by lia | congruence].
Qed.

Lemma peek_loop_ok k entry : forall n s,
  sok n s -> n + Z.of_nat k < 2 ^ 31 ->
  returns (fun s' => sok (n + Z.of_nat k) s' /\ vmd s' = vmd s) (peek_loop k entry s).
Proof.
  induction k as [|k IH]; intros n s Hs Hn; cbn [peek_loop].
  { cbn. split; [by rewrite Z.add_0_r | done]. }
  eapply post_bind; [eapply PeekByteArray_ok; [done | lia]|]. intros b [Hb _].
  eapply post_weaken; [apply (IH (n + 1)); [by apply push_ok | lia] | tauto..|]. intros s2 [Hs2 Hv2].
  split; [by replace (n + Z.of_nat (S k)) with (n + 1 + Z.of_nat k) by lia | done].
Qed.

Lemma nip_loop_ok k entry : forall n s,
  sok n s -> n < 2 ^ 31 ->
  returns (fun s' => sok n s' /\ vmd s' = vmd s) (nip_loop k entry s).
Proof.
  induction k as [|k IH]; intros n s Hs Hn; cbn [nip_loop]; [done|].
  eapply post_bind; [by eapply nipN_ok|]. intros [b s'] (Hb & Hs' & Hv & H1).
  eapply post_weaken; [apply (IH n); [|done] | tauto..|].
  - replace n with (n - 1 + 1) by lia. by apply push_ok.
  - intros s2 [Hs2 Hv2]. split; [done|]. cbn in Hv2. congruence.
Qed.

(** The multi-item operations; the counts are those of the opcodes. *)
Lemma DropN_ok n s k :
  sok n s -> n < 2 ^ 31 -> returns (fun s' => exists m, sok m s' /\ m <= n /\ vmd s' = vmd s) (DropN s k).
Proof.
  intros Hs Hn. unfold DropN. destruct (k <? 1) eqn:Hk; [done|].
  eapply post_weaken; [by apply (drop_loop_ok (Z.to_nat k) n) | tauto..|].
  intros s' [Hs' Hv]. exists (n - Z.of_nat (Z.to_nat k)). split_and!; (done || lia).
Qed.

Lemma peekN_ok n s k entry :
  sok n s -> 0 <= k -> n + k < 2 ^ 31 ->
  returns (fun s' => sok (n + k) s' /\ vmd s' = vmd s) (peek_loop (Z.to_nat k) entry s).
Proof.
  intros Hs Hk Hn. eapply post_weaken; [apply (peek_loop_ok (Z.to_nat k) entry n s Hs); lia | tauto..|].
  intros s' [Hs' Hv]. by rewrite Z2Nat.id in Hs' by lia.
Qed.

Lemma DupN_ok n s k :
  sok n s -> 0 <= k -> n + k < 2 ^ 31 -> returns (fun s' => sok (n + k) s' /\ vmd s' = vmd s) (DupN s k).
Proof. intros. unfold DupN. destruct (k <? 1); [done|]. by apply peekN_ok. Qed.

Lemma OverN_ok n s k :
  sok n s -> 0 <= k -> n + k < 2 ^ 31 -> returns (fun s' => sok (n + k) s' /\ vmd s' = vmd s) (OverN s k).
Proof. intros. unfold OverN. destruct (k <? 1); [done|]. by apply peekN_ok. Qed.

Lemma RotN_ok n s k :
  sok n s -> n < 2 ^ 31 -> returns (fun s' => sok n s' /\ vmd s' = vmd s) (RotN s k).
Proof. intros. unfold RotN. destruct (k <? 1); [done|]. by apply nip_loop_ok. Qed.

Lemma SwapN_ok n s k :
  sok n s -> n < 2 ^ 31 -> returns (fun s' => sok n s' /\ vmd s' = vmd s) (SwapN s k).
Proof. intros. unfold SwapN. destruct (k <? 1); [done|]. by apply nip_loop_ok. Qed.

Lemma NipN_ok n s k :
  sok n s -> n < 2 ^ 31 -> returns (fun s' => sok (n - 1) s' /\ vmd s' = vmd s) (NipN s k).
Proof.
  intros Hs Hn. unfold NipN. eapply post_bind; [by eapply nipN_ok|]. by intros [x s'] (_ & ? & ? & _).
Qed.

Lemma PickN_ok n s k :
  sok n s -> n < 2 ^ 31 -> returns (fun s' => sok (n + 1) s' /\ vmd s' = vmd s) (PickN s k).
Proof.
  intros Hs Hn. unfold PickN. eapply post_bind; [by eapply PeekByteArray_ok|]. intros x [Hx _].
  cbn. split; [by apply push_ok | done].
Qed.

Lemma RollN_ok n s k :
  sok n s -> n < 2 ^ 31 -> returns (fun s' => sok n s' /\ vmd s' = vmd s) (RollN s k).
Proof.
  intros Hs Hn. unfold RollN. eapply post_bind; [by eapply nipN_ok|]. intros [x s'] (Hx & Hs' & Hv & H1).
  cbn. split; [|done]. replace n with (n - 1 + 1) by lia. by apply push_ok.
Qed.

Lemma Tuck_ok n s :
  sok n s -> n < 2 ^ 31 -> returns (fun s' => sok (n + 1) s' /\ vmd s' = vmd s) (Tuck s).
Proof.
  intros Hs Hn. unfold Tuck. eapply post_bind; [by eapply PopByteArray_ok|].
  intros [x s'] (Hx & Hs' & Hv & H1 & _).
  eapply post_bind; [eapply PopByteArray_ok; [done | lia]|]. intros [y s2] (Hy & Hs2 & Hv2 & H2 & _).
  cbn. split; [|congruence]. replace (n + 1) with (n - 1 - 1 + 1 + 1 + 1) by lia.
  by repeat apply push_ok.
Qed.

#[export] Hint Resolve item_nil item_fromBool push_ok PushBool_ok PushInt_ok PopByteArray_ok PopInt_ok
  PopBool_ok PeekByteArray_ok DropN_ok DupN_ok OverN_ok RotN_ok SwapN_ok NipN_ok PickN_ok RollN_ok
  Tuck_ok : stack.

End StackSpec.
