(* ===== verification/Handlers.v ===== *)
(** The opcode handlers that need no signature check: [src/txscript/opcode.go].

    A handler takes the parsed opcode and the engine and returns the changed
    engine.  A script number is an int64; its arithmetic is wrapped to that
    width.  [PushInt] cannot fail in the code; in the model it is a loop with
    fuel, whose bound [ScriptNum] proves sufficient. *)
From S2P Require Import Prelude PubKey Opcode ScriptNum Stack Wire Crypto Script Engine.
Import btcec Opcode ScriptNum Stack wire Crypto Script Engine.
#[local] Open Scope Z_scope.

Module Handlers.

(** * Shared shapes of handlers *)

(** An operation on the data stack. *)
Definition on_dstack (vm : Engine) (m : res ErrorCode stack) : res ErrorCode Engine :=
  s ← m; Ok (set_dstack vm s).

(** A number popped, a number pushed. *)
Definition unary (f : Z -> Z) (vm : Engine) : res ErrorCode Engine :=
  '(m, s) ← PopInt (dstack vm);
  on_dstack vm (PushInt s (f m)).

(** Two numbers popped, [v0] the top one, and a number pushed. *)
Definition binary (f : Z -> Z -> Z) (vm : Engine) : res ErrorCode Engine :=
  '(v0, s) ← PopInt (dstack vm);
  '(v1, s) ← PopInt s;
  on_dstack vm (PushInt s (f v0 v1)).

(** The top item replaced by a digest. *)
Definition hashing (f : bytes -> bytes) (vm : Engine) : res ErrorCode Engine :=
  '(buf, s) ← PopByteArray (dstack vm);
  Ok (set_dstack vm (PushByteArray s (f buf))).

Definition bool_num (b : bool) : Z := if b then 1 else 0.

(** * Failing opcodes *)
Definition opcodeDisabled (op : parsedOpcode) (vm : Engine) : res ErrorCode Engine :=
  Err ErrDisabledOpcode.
Definition opcodeReserved (op : parsedOpcode) (vm : Engine) : res ErrorCode Engine :=
  Err ErrReservedOpcode.
Definition opcodeInvalid (op : parsedOpcode) (vm : Engine) : res ErrorCode Engine :=
  Err ErrReservedOpcode.
Definition opcodeReturn (op : parsedOpcode) (vm : Engine) : res ErrorCode Engine :=
  Err ErrEarlyReturn.

(** * Pushes *)
Definition opcodeFalse (op : parsedOpcode) (vm : Engine) : res ErrorCode Engine :=
  Ok (set_dstack vm (PushByteArray (dstack vm) [])).
Definition opcodePushData (op : parsedOpcode) (vm : Engine) : res ErrorCode Engine :=
  Ok (set_dstack vm (PushByteArray (dstack vm) (pop_data op))).
Definition opcode1Negate (op : parsedOpcode) (vm : Engine) : res ErrorCode Engine :=
  on_dstack vm (PushInt (dstack vm) (-1)).
Definition opcodeN (op : parsedOpcode) (vm : Engine) : res ErrorCode Engine :=
  on_dstack vm (PushInt (dstack vm) (u8 (pop_value op - (OP_1 - 1)))).

(** * No operation *)
Definition opcodeNop (op : parsedOpcode) (vm : Engine) : res ErrorCode Engine :=
  if existsb (Z.eqb (pop_value op))
       [OP_NOP1; OP_NOP4; OP_NOP5; OP_NOP6; OP_NOP7; OP_NOP8; OP_NOP9; OP_NOP10]
     && hasFlag vm ScriptDiscourageUpgradableNops
  then Err ErrDiscourageUpgradableNOPs else Ok vm.

(** * Conditionals *)
Definition opcodeIf (op : parsedOpcode) (vm : Engine) : res ErrorCode Engine :=
  if isBranchExecuting vm then
    '(ok, s) ← PopBool (dstack vm);
    let condVal := if (ok : bool) then OpCondTrue else OpCondFalse in
    Ok (set_condStack (set_dstack vm s) (condStack vm ++ [condVal]))
  else Ok (set_condStack vm (condStack vm ++ [OpCondSkip])).

Definition opcodeNotIf (op : parsedOpcode) (vm : Engine) : res ErrorCode Engine :=
  if isBranchExecuting vm then
    '(ok, s) ← PopBool (dstack vm);
    let condVal := if negb (ok : bool) then OpCondTrue else OpCondFalse in
    Ok (set_condStack (set_dstack vm s) (condStack vm ++ [condVal]))
  else Ok (set_condStack vm (condStack vm ++ [OpCondSkip])).

Definition opcodeElse (op : parsedOpcode) (vm : Engine) : res ErrorCode Engine :=
  if len (condStack vm) =? 0 then Err ErrUnbalancedConditional
  else
    let conditionalIdx := len (condStack vm) - 1 in
    c ← idx (condStack vm) conditionalIdx;
    if c =? OpCondTrue then
      l ← set_idx (condStack vm) conditionalIdx OpCondFalse; Ok (set_condStack vm l)
    else if c =? OpCondFalse then
      l ← set_idx (condStack vm) conditionalIdx OpCondTrue; Ok (set_condStack vm l)
    else Ok vm.

Definition opcodeEndif (op : parsedOpcode) (vm : Engine) : res ErrorCode Engine :=
  if len (condStack vm) =? 0 then Err ErrUnbalancedConditional
  else
    l ← slice (condStack vm) 0 (len (condStack vm) - 1);
    Ok (set_condStack vm l).

(** * Verification of the top item *)
Definition abstractVerify (op : parsedOpcode) (vm : Engine) (c : ErrorCode) : res ErrorCode Engine :=
  '(verified, s) ← PopBool (dstack vm);
  if (verified : bool) then Ok (set_dstack vm s) else Err c.

Definition opcodeVerify (op : parsedOpcode) (vm : Engine) : res ErrorCode Engine :=
  abstractVerify op vm ErrVerify.

(** * Lock times *)
Definition verifyLockTime (txLockTime threshold lockTime : Z) : res ErrorCode unit :=
  if negb (((txLockTime <? threshold) && (lockTime <? threshold)) ||
           ((threshold <=? txLockTime) && (threshold <=? lockTime)))
  then Err ErrUnsatisfiedLockTime
  else if txLockTime <? lockTime then Err ErrUnsatisfiedLockTime
  else Ok ().

Definition opcodeCheckLockTimeVerify (op : parsedOpcode) (vm : Engine) : res ErrorCode Engine :=
  if negb (hasFlag vm ScriptVerifyCheckLockTimeVerify) then
    if hasFlag vm ScriptDiscourageUpgradableNops then Err ErrDiscourageUpgradableNOPs else Ok vm
  else
    so ← PeekByteArray (dstack vm) 0;
    lockTime ← makeScriptNum so (verifyMinimalData (dstack vm)) 5;
    if lockTime <? 0 then Err ErrNegativeLockTime
    else
      _ ← verifyLockTime (tx_LockTime (vm_tx vm)) LockTimeThreshold lockTime;
      ti ← idx (tx_TxIn (vm_tx vm)) (txIdx vm);
      if Sequence ti =? MaxTxInSequenceNum then Err ErrUnsatisfiedLockTime else Ok vm.

Definition opcodeCheckSequenceVerify (op : parsedOpcode) (vm : Engine) : res ErrorCode Engine :=
  if negb (hasFlag vm ScriptVerifyCheckSequenceVerify) then
    if hasFlag vm ScriptDiscourageUpgradableNops then Err ErrDiscourageUpgradableNOPs else Ok vm
  else
    so ← PeekByteArray (dstack vm) 0;
    sequence ← makeScriptNum so (verifyMinimalData (dstack vm)) 5;
    if sequence <? 0 then Err ErrNegativeLockTime
    else if negb (Z.land sequence SequenceLockTimeDisabled =? 0) then Ok vm
    else if tx_Version (vm_tx vm) <? 2 then Err ErrUnsatisfiedLockTime
    else
      ti ← idx (tx_TxIn (vm_tx vm)) (txIdx vm);
      let txSequence := Sequence ti in
      if negb (Z.land txSequence SequenceLockTimeDisabled =? 0) then Err ErrUnsatisfiedLockTime
      else
        let lockTimeMask := Z.lor SequenceLockTimeIsSeconds SequenceLockTimeMask in
        _ ← verifyLockTime (Z.land txSequence lockTimeMask) SequenceLockTimeIsSeconds
              (Z.land sequence lockTimeMask);
        Ok vm.

(** * Stack operations *)
Definition opcodeToAltStack (op : parsedOpcode) (vm : Engine) : res ErrorCode Engine :=
  '(so, s) ← PopByteArray (dstack vm);
  Ok (set_astack (set_dstack vm s) (PushByteArray (astack vm) so)).
Definition opcodeFromAltStack (op : parsedOpcode) (vm : Engine) : res ErrorCode Engine :=
  '(so, s) ← PopByteArray (astack vm);
  Ok (set_dstack (set_astack vm s) (PushByteArray (dstack vm) so)).
Definition opcode2Drop (op : parsedOpcode) (vm : Engine) := on_dstack vm (DropN (dstack vm) 2).
Definition opcode2Dup (op : parsedOpcode) (vm : Engine) := on_dstack vm (DupN (dstack vm) 2).
Definition opcode3Dup (op : parsedOpcode) (vm : Engine) := on_dstack vm (DupN (dstack vm) 3).
Definition opcode2Over (op : parsedOpcode) (vm : Engine) := on_dstack vm (OverN (dstack vm) 2).
Definition opcode2Rot (op : parsedOpcode) (vm : Engine) := on_dstack vm (RotN (dstack vm) 2).
Definition opcode2Swap (op : parsedOpcode) (vm : Engine) := on_dstack vm (SwapN (dstack vm) 2).
Definition opcodeIfDup (op : parsedOpcode) (vm : Engine) : res ErrorCode Engine :=
  so ← PeekByteArray (dstack vm) 0;
  if asBool so then Ok (set_dstack vm (PushByteArray (dstack vm) so)) else Ok vm.
Definition opcodeDepth (op : parsedOpcode) (vm : Engine) :=
  on_dstack vm (PushInt (dstack vm) (Depth (dstack vm))).
Definition opcodeDrop (op : parsedOpcode) (vm : Engine) := on_dstack vm (DropN (dstack vm) 1).
Definition opcodeDup (op : parsedOpcode) (vm : Engine) := on_dstack vm (DupN (dstack vm) 1).
Definition opcodeNip (op : parsedOpcode) (vm : Engine) := on_dstack vm (NipN (dstack vm) 1).
Definition opcodeOver (op : parsedOpcode) (vm : Engine) := on_dstack vm (OverN (dstack vm) 1).
Definition opcodePick (op : parsedOpcode) (vm : Engine) : res ErrorCode Engine :=
  '(val, s) ← PopInt (dstack vm); on_dstack vm (PickN s (Int32 val)).
Definition opcodeRoll (op : parsedOpcode) (vm : Engine) : res ErrorCode Engine :=
  '(val, s) ← PopInt (dstack vm); on_dstack vm (RollN s (Int32 val)).
Definition opcodeRot (op : parsedOpcode) (vm : Engine) := on_dstack vm (RotN (dstack vm) 1).
Definition opcodeSwap (op : parsedOpcode) (vm : Engine) := on_dstack vm (SwapN (dstack vm) 1).
Definition opcodeTuck (op : parsedOpcode) (vm : Engine) := on_dstack vm (Tuck (dstack vm)).
Definition opcodeSize (op : parsedOpcode) (vm : Engine) : res ErrorCode Engine :=
  so ← PeekByteArray (dstack vm) 0;
  on_dstack vm (PushInt (dstack vm) (len so)).

(** * Comparison of items *)
Definition opcodeEqual (op : parsedOpcode) (vm : Engine) : res ErrorCode Engine :=
  '(a, s) ← PopByteArray (dstack vm);
  '(b, s) ← PopByteArray s;
  Ok (set_dstack vm (PushBool s (bool_decide (a = b)))).
Definition opcodeEqualVerify (op : parsedOpcode) (vm : Engine) : res ErrorCode Engine :=
  vm ← opcodeEqual op vm; abstractVerify op vm ErrEqualVerify.

(** * Arithmetic *)
Definition opcode1Add (op : parsedOpcode) (vm : Engine) := unary (fun m => i64 (m + 1)) vm.
Definition opcode1Sub (op : parsedOpcode) (vm : Engine) := unary (fun m => i64 (m - 1)) vm.
Definition opcodeNegate (op : parsedOpcode) (vm : Engine) := unary (fun m => i64 (- m)) vm.
Definition opcodeAbs (op : parsedOpcode) (vm : Engine) :=
  unary (fun m => if m <? 0 then i64 (- m) else m) vm.
Definition opcodeNot (op : parsedOpcode) (vm : Engine) := unary (fun m => bool_num (m =? 0)) vm.
Definition opcode0NotEqual (op : parsedOpcode) (vm : Engine) :=
  unary (fun m => if negb (m =? 0) then 1 else m) vm.
Definition opcodeAdd (op : parsedOpcode) (vm : Engine) := binary (fun v0 v1 => i64 (v0 + v1)) vm.
Definition opcodeSub (op : parsedOpcode) (vm : Engine) := binary (fun v0 v1 => i64 (v1 - v0)) vm.
Definition opcodeBoolAnd (op : parsedOpcode) (vm : Engine) :=
  binary (fun v0 v1 => bool_num (negb (v0 =? 0) && negb (v1 =? 0))) vm.
Definition opcodeBoolOr (op : parsedOpcode) (vm : Engine) :=
  binary (fun v0 v1 => bool_num (negb (v0 =? 0) || negb (v1 =? 0))) vm.
Definition opcodeNumEqual (op : parsedOpcode) (vm : Engine) :=
  binary (fun v0 v1 => bool_num (v0 =? v1)) vm.
Definition opcodeNumEqualVerify (op : parsedOpcode) (vm : Engine) : res ErrorCode Engine :=
  vm ← opcodeNumEqual op vm; abstractVerify op vm ErrNumEqualVerify.
Definition opcodeNumNotEqual (op : parsedOpcode) (vm : Engine) :=
  binary (fun v0 v1 => bool_num (negb (v0 =? v1))) vm.
Definition opcodeLessThan (op : parsedOpcode) (vm : Engine) :=
  binary (fun v0 v1 => bool_num (v1 <? v0)) vm.
Definition opcodeGreaterThan (op : parsedOpcode) (vm : Engine) :=
  binary (fun v0 v1 => bool_num (v0 <? v1)) vm.
Definition opcodeLessThanOrEqual (op : parsedOpcode) (vm : Engine) :=
  binary (fun v0 v1 => bool_num (v1 <=? v0)) vm.
Definition opcodeGreaterThanOrEqual (op : parsedOpcode) (vm : Engine) :=
  binary (fun v0 v1 => bool_num (v0 <=? v1)) vm.
Definition opcodeMin (op : parsedOpcode) (vm : Engine) :=
  binary (fun v0 v1 => if v1 <? v0 then v1 else v0) vm.
Definition opcodeMax (op : parsedOpcode) (vm : Engine) :=
  binary (fun v0 v1 => if v0 <? v1 then v1 else v0) vm.
Definition opcodeWithin (op : parsedOpcode) (vm : Engine) : res ErrorCode Engine :=
  '(maxVal, s) ← PopInt (dstack vm);
  '(minVal, s) ← PopInt s;
  '(x, s) ← PopInt s;
  on_dstack vm (PushInt s (bool_num ((minVal <=? x) && (x <? maxVal)))).

(** * Hashes *)
Definition opcodeRipemd160 `{Primitives} (op : parsedOpcode) (vm : Engine) := hashing ripemd160 vm.
Definition opcodeSha1 (op : parsedOpcode) (vm : Engine) := hashing sha1 vm.
Definition opcodeSha256 (op : parsedOpcode) (vm : Engine) := hashing sha256 vm.
Definition opcodeHash160 `{Primitives} (op : parsedOpcode) (vm : Engine) :=
  hashing (fun b => ripemd160 (sha256 b)) vm.
Definition opcodeHash256 (op : parsedOpcode) (vm : Engine) := hashing DoubleHashB vm.

Definition opcodeCodeSeparator (op : parsedOpcode) (vm : Engine) : res ErrorCode Engine :=
  Ok (set_lastCodeSep vm (scriptOff vm)).

End Handlers.
