(* ===== verification/HandlerSpec.v ===== *)
(** What the opcode handlers guarantee: none of those of [Handlers] panics or
    runs out of fuel, and every handler keeps the engine within its limits. *)
From S2P Require Import Prelude PubKey Opcode ScriptNum Stack Wire Crypto Signature.
From S2P Require Import Script SigCache Engine StackSpec Handlers.
Import btcec Opcode ScriptNum Stack wire Crypto Sig Script Engine StackSpec Handlers.
#[local] Open Scope Z_scope.

Module HandlerSpec.

(** The part of the engine that no handler changes. *)
Definition static (vm : Engine) :=
  (scripts vm, scriptIdx vm, scriptOff vm, (vm_tx vm, txIdx vm, inputAmount vm),
   (flags vm, hashCache vm, bip16 vm, savedFirstStack vm),
   (vmd (dstack vm), vmd (astack vm))).

Definition cond_ok (c : Z) : Prop := c = OpCondFalse \/ c = OpCondTrue \/ c = OpCondSkip.

(** The two stacks hold at most [k] items, of the allowed size. *)
Definition stacks_ok (k : Z) (vm : Engine) : Prop :=
  exists nd na, sok nd (dstack vm) /\ sok na (astack vm) /\ nd + na <= k.

(** The limits of the part that handlers change. *)
Definition limits (k : Z) (vm : Engine) : Prop :=
  stacks_ok k vm /\ 0 <= numOps vm <= MaxOpsPerScript /\ Forall cond_ok (condStack vm) /\
  0 <= lastCodeSep vm <= scriptOff vm.

(** The parts of the engine a handler relies on. *)
Definition input_ok (vm : Engine) : Prop := 0 <= txIdx vm < len (tx_TxIn (vm_tx vm)).

(** A handler can add three items (OP_3DUP). *)
Definition after (vm vm' : Engine) : Prop := limits (MaxStackSize + 3) vm' /\ static vm' = static vm.

(** A handler that checks no signature does not touch the cache. *)
Definition quiet (vm vm' : Engine) : Prop := after vm vm' /\ sigCache vm' = sigCache vm.

#[export] Hint Extern 1 (_ < _) => lia : stack.
#[export] Hint Extern 1 (_ <= _) => lia : stack.
#[export] Hint Extern 1 (_ < _ < _) => lia : stack.

(** Split a conjunction or an existential in the context. *)
Ltac split_hyps :=
  repeat match goal with
  | H : _ /\ _ |- _ => destruct H
  | H : exists _, _ |- _ => destruct H
  | H : context [let '(_, _) := ?p in _] |- _ => destruct p
  end.

(** The next stack operation of a handler. *)
Ltac bind_stack := eapply post_bind; [solve [eauto with stack] | cbv beta; intros; split_hyps].

(** A verification pops one item. *)
Lemma abstractVerify_limits k vm op c :
  k <= MaxStackSize + 3 -> limits k vm ->
  returns (fun vm' => limits k vm' /\ static vm' = static vm /\ sigCache vm' = sigCache vm)
    (abstractVerify op vm c).
Proof.
  intros Hk [(nd & na & Hd & Ha & Hn) Hrest]. pose proof (sok_nonneg _ _ Ha).
  unfold abstractVerify, MaxStackSize in *. bind_stack. destruct b; [|done]. cbn.
  split_and!; [split; [|done]| |done].
  - exists (nd - 1), na. split_and!; (done || lia).
  - unfold static. cbn. congruence.
Qed.

(** A handler followed by a verification. *)
Lemma verify_after P F vm op c m :
  post P F (fun vm' => after vm vm') m ->
  post P F (fun vm' => after vm vm' /\ exists vm1, m = Ok vm1 /\ sigCache vm' = sigCache vm1)
    (vm' ← m; abstractVerify op vm' c).
Proof.
  intros Hm. destruct m as [vm1| | |]; [|done..]. destruct Hm as [Hl Hs]. cbn [mbind res_bind].
  apply returns_post. eapply post_weaken; [by apply (abstractVerify_limits (MaxStackSize + 3)) | tauto..|].
  cbv beta. intros vm2 (? & ? & ?). split; [split; [done | congruence]|]. by exists vm1.
Qed.

Lemma verify_quiet vm op c m :
  returns (quiet vm) m -> returns (quiet vm) (vm' ← m; abstractVerify op vm' c).
Proof.
  intros Hm. eapply post_weaken; [apply (verify_after False False vm) | tauto..|].
  - eapply post_weaken; [exact Hm | tauto..|]. by intros ? [? _].
  - cbv beta. intros vm2 [? (vm1 & -> & ?)]. destruct Hm as [_ ?]. split; [done | congruence].
Qed.

Section handlers.
Variable vm : Engine.
Hypothesis Hlim : limits MaxStackSize vm.

Lemma keep : quiet vm vm.
Proof.
  split; [|done]. split; [|done]. destruct Hlim as [(nd & na & ? & ? & ?) ?]. split; [|done].
  exists nd, na. unfold MaxStackSize in *. split_and!; (done || lia).
Qed.

Lemma set_dstack_after n s na :
  sok n s -> sok na (astack vm) -> n + na <= MaxStackSize + 3 -> vmd s = vmd (dstack vm) ->
  quiet vm (set_dstack vm s).
Proof.
  intros Hs Ha Hn Hv. destruct Hlim as [_ ?]. split; [split; [split; [|done]|]|done].
  - by exists n, na.
  - unfold static. cbn. by rewrite Hv.
Qed.

(** The data stack left by an operation that changes nothing else. *)
Lemma on_dstack_after m k :
  (forall nd, sok nd (dstack vm) -> nd <= MaxStackSize ->
     returns (fun s => exists n, sok n s /\ n <= nd + k /\ vmd s = vmd (dstack vm)) m) ->
  k <= 3 -> returns (quiet vm) (on_dstack vm m).
Proof.
  intros Hm Hk. destruct Hlim as [(nd & na & Hd & Ha & Hn) ?]. pose proof (sok_nonneg _ _ Ha).
  unfold on_dstack. eapply post_bind; [apply (Hm nd Hd); lia|]. cbv beta.
  intros s (n & Hs & Hle & Hv). apply (set_dstack_after n s na); (done || lia).
Qed.

Lemma unary_after f :
  (forall m, - 2 ^ 31 < m < 2 ^ 31 -> - 2 ^ 63 < f m < 2 ^ 63) -> returns (quiet vm) (unary f vm).
Proof.
  intros Hf. destruct Hlim as [(nd & na & Hd & Ha & Hn) ?]. pose proof (sok_nonneg _ _ Ha).
  unfold unary, MaxStackSize in *. bind_stack. unfold on_dstack.
  eapply post_bind; [by apply (PushInt_ok (nd - 1)); auto|]. cbv beta. intros s' [? ?].
  eapply set_dstack_after; [eassumption | eassumption | unfold MaxStackSize; lia | congruence].
Qed.

Lemma binary_after f :
  (forall v0 v1, - 2 ^ 31 < v0 < 2 ^ 31 -> - 2 ^ 31 < v1 < 2 ^ 31 -> - 2 ^ 63 < f v0 v1 < 2 ^ 63) ->
  returns (quiet vm) (binary f vm).
Proof.
  intros Hf. destruct Hlim as [(nd & na & Hd & Ha & Hn) ?]. pose proof (sok_nonneg _ _ Ha).
  unfold binary, MaxStackSize in *. bind_stack. bind_stack. unfold on_dstack.
  eapply post_bind; [by apply (PushInt_ok (nd - 1 - 1)); auto|]. cbv beta. intros s' [? ?].
  eapply set_dstack_after; [eassumption | eassumption | unfold MaxStackSize; lia | congruence].
Qed.

Lemma hashing_after f : (forall b, item_ok (f b)) -> returns (quiet vm) (hashing f vm).
Proof.
  intros Hf. destruct Hlim as [(nd & na & Hd & Ha & Hn) ?]. pose proof (sok_nonneg _ _ Ha).
  unfold hashing, MaxStackSize in *. bind_stack. cbn.
  eapply set_dstack_after; [by apply push_ok | eassumption | unfold MaxStackSize; lia | done].
Qed.

(** ** Pushes *)
Lemma push_after x : item_ok x -> returns (quiet vm) (Ok (E := ErrorCode) (set_dstack vm (PushByteArray (dstack vm) x))).
Proof.
  intros Hx. destruct Hlim as [(nd & na & Hd & Ha & Hn) ?]. unfold MaxStackSize in *. cbn.
  eapply set_dstack_after; [by apply push_ok | eassumption | unfold MaxStackSize; lia | done].
Qed.

Lemma push_num_after v : - 2 ^ 63 < v < 2 ^ 63 -> returns (quiet vm) (on_dstack vm (PushInt (dstack vm) v)).
Proof.
  intros Hv. apply (on_dstack_after _ 1); [|lia]. intros nd Hd Hn.
  eapply post_weaken; [by apply PushInt_ok | tauto..|]. cbv beta. intros s [? ?]. by exists (nd + 1).
Qed.

Lemma u8_int64 v : - 2 ^ 63 < u8 v < 2 ^ 63.
Proof. pose proof (u8_is_byte v) as Hb. unfold is_byte in Hb. lia. Qed.

(** ** Conditionals *)
Lemma set_condStack_after (vm' : Engine) l :
  quiet vm vm' -> Forall cond_ok l -> quiet vm (set_condStack vm' l).
Proof. intros [[(? & ? & ? & ?) ?] ?] ?. done. Qed.

Lemma pop_cond_after (g : bool -> Z) :
  (forall b, cond_ok (g b)) ->
  returns (quiet vm) ('(ok, s) ← PopBool (dstack vm);
                      Ok (set_condStack (set_dstack vm s) (condStack vm ++ [g ok]))).
Proof.
  intros Hg. destruct Hlim as [(nd & na & Hd & Ha & Hn) (? & Hc & ?)]. pose proof (sok_nonneg _ _ Ha).
  unfold MaxStackSize in *. bind_stack. cbn. apply set_condStack_after.
  - eapply set_dstack_after; [eassumption | eassumption | unfold MaxStackSize; lia | done].
  - apply Forall_app. split; [done|]. constructor; [apply Hg | constructor].
Qed.

Lemma skip_cond_after : quiet vm (set_condStack vm (condStack vm ++ [OpCondSkip])).
Proof.
  apply set_condStack_after; [apply keep|]. destruct Hlim as (_ & _ & Hc & _).
  apply Forall_app. split; [done|]. constructor; [by right; right | constructor].
Qed.

Lemma opcodeIf_after op : returns (quiet vm) (opcodeIf op vm).
Proof.
  unfold opcodeIf. destruct (isBranchExecuting vm); [|apply skip_cond_after].
  apply (pop_cond_after (fun b => if b then OpCondTrue else OpCondFalse)).
  intros []; [by right; left | by left].
Qed.

Lemma opcodeNotIf_after op : returns (quiet vm) (opcodeNotIf op vm).
Proof.
  unfold opcodeNotIf. destruct (isBranchExecuting vm); [|apply skip_cond_after].
  apply (pop_cond_after (fun b => if negb b then OpCondTrue else OpCondFalse)).
  intros []; [by left | by right; left].
Qed.

Lemma set_cond_after c :
  len (condStack vm) <> 0 -> cond_ok c ->
  returns (quiet vm) (l ← set_idx (condStack vm) (len (condStack vm) - 1) c;
                      Ok (E := ErrorCode) (set_condStack vm l)).
Proof.
  intros Hl Hc. pose proof (len_nonneg (condStack vm)). rewrite set_idx_Ok by lia. cbn.
  apply set_condStack_after; [apply keep|]. destruct Hlim as (_ & _ & ? & _). by apply Forall_insert.
Qed.

Lemma opcodeElse_after op : returns (quiet vm) (opcodeElse op vm).
Proof.
  unfold opcodeElse. destruct (len (condStack vm) =? 0) eqn:Hl; [done|].
  pose proof (len_nonneg (condStack vm)).
  destruct (idx_in_range (E := ErrorCode) (condStack vm) (len (condStack vm) - 1)) as (c & -> & _); [lia|].
  cbn [mbind res_bind].
  destruct (c =? OpCondTrue); [apply set_cond_after; [lia | by left]|].
  destruct (c =? OpCondFalse); [apply set_cond_after; [lia | by right; left]|]. apply keep.
Qed.

Lemma opcodeEndif_after op : returns (quiet vm) (opcodeEndif op vm).
Proof.
  unfold opcodeEndif. destruct (len (condStack vm) =? 0) eqn:Hl; [done|].
  pose proof (len_nonneg (condStack vm)).
  destruct (slice (condStack vm) 0 (len (condStack vm) - 1)) as [l|e| |] eqn:Hs; try (unfold slice in Hs;
    replace (_ && _) with true in Hs by lia; done). apply slice_Ok in Hs as (_ & _ & ->). cbn [mbind res_bind].
  apply set_condStack_after; [apply keep|]. destruct Hlim as (_ & _ & ? & _).
  by apply Forall_take, Forall_drop.
Qed.

(** ** Lock times *)
Lemma makeScriptNum_returns b rm : bytes_ok b -> returns (fun _ => True) (makeScriptNum b rm 5).
Proof.
  intros Hok. destruct (decide (len b <= 5)) as [Hl|Hl].
  - destruct (checkMinimalDataEncoding_spec b Hok) as [[Hc _]|[Hc _]]; [|destruct rm].
    + by rewrite makeScriptNum_value by (done || lia).
    + unfold makeScriptNum. replace (5 <? len b) with false by lia. by rewrite Hc.
    + by rewrite makeScriptNum_value by (done || lia).
  - unfold makeScriptNum. by replace (5 <? len b) with true by lia.
Qed.

Lemma verifyLockTime_returns a b c : returns (fun _ => True) (verifyLockTime a b c).
Proof. unfold verifyLockTime. destruct (negb _); [done|]. by destruct (_ <? _). Qed.

Lemma input_returns : input_ok vm -> returns (fun _ => True) (idx (E := ErrorCode) (tx_TxIn (vm_tx vm)) (txIdx vm)).
Proof. intros Hi. by destruct (idx_in_range (E := ErrorCode) _ _ Hi) as (ti & -> & _). Qed.

Lemma opcodeCheckLockTimeVerify_after op : input_ok vm -> returns (quiet vm) (opcodeCheckLockTimeVerify op vm).
Proof.
  intros Hi. pose proof keep as Hk. destruct Hlim as [(nd & na & Hd & Ha & Hn) ?].
  pose proof (sok_nonneg _ _ Ha). unfold opcodeCheckLockTimeVerify, MaxStackSize in *.
  destruct (negb (hasFlag _ _)); [by destruct (hasFlag _ _)|].
  bind_stack. unfold item_ok in *. split_hyps.
  eapply post_bind; [by apply makeScriptNum_returns|]. intros lockTime _.
  destruct (lockTime <? 0); [done|].
  eapply post_bind; [apply verifyLockTime_returns|]. intros _ _.
  eapply post_bind; [by apply input_returns|]. intros ti _. by destruct (_ =? _).
Qed.

Lemma opcodeCheckSequenceVerify_after op : input_ok vm -> returns (quiet vm) (opcodeCheckSequenceVerify op vm).
Proof.
  intros Hi. pose proof keep as Hk. destruct Hlim as [(nd & na & Hd & Ha & Hn) ?].
  pose proof (sok_nonneg _ _ Ha). unfold opcodeCheckSequenceVerify, MaxStackSize in *.
  destruct (negb (hasFlag _ _)); [by destruct (hasFlag _ _)|].
  bind_stack. unfold item_ok in *. split_hyps.
  eapply post_bind; [by apply makeScriptNum_returns|]. intros sequence _.
  destruct (sequence <? 0); [done|]. destruct (negb _); [done|]. destruct (_ <? 2); [done|].
  eapply post_bind; [by apply input_returns|]. intros ti _. destruct (negb _); [done|].
  eapply post_bind; [apply verifyLockTime_returns|]. by intros _ _.
Qed.

(** ** Stack operations *)
Lemma opcodeToAltStack_after op : returns (quiet vm) (opcodeToAltStack op vm).
Proof.
  destruct Hlim as [(nd & na & Hd & Ha & Hn) Hrest]. pose proof (sok_nonneg _ _ Ha).
  unfold opcodeToAltStack, MaxStackSize in *. bind_stack. cbn. split; [split; [split; [|done]|]|done].
  - exists (nd - 1), (na + 1). split_and!; [done | by apply push_ok | unfold MaxStackSize; lia].
  - unfold static. cbn. congruence.
Qed.

Lemma opcodeFromAltStack_after op : returns (quiet vm) (opcodeFromAltStack op vm).
Proof.
  destruct Hlim as [(nd & na & Hd & Ha & Hn) Hrest]. pose proof (sok_nonneg _ _ Hd).
  unfold opcodeFromAltStack, MaxStackSize in *. bind_stack. cbn. split; [split; [split; [|done]|]|done].
  - exists (nd + 1), (na - 1). split_and!; [by apply push_ok | done | unfold MaxStackSize; lia].
  - unfold static. cbn. congruence.
Qed.

(** An operation on the data stack that adds [k] items at most. *)
Ltac stack_op k :=
  apply (on_dstack_after _ k); [|lia]; intros nd Hd Hn; unfold MaxStackSize in *;
  eapply post_weaken; [solve [eauto with stack] | tauto | tauto |]; cbv beta; intros; split_hyps;
  eexists; split_and!; [eassumption | lia | congruence].

Lemma DropN_after k : returns (quiet vm) (on_dstack vm (DropN (dstack vm) k)).
Proof. stack_op 0. Qed.
Lemma DupN_after k : 0 <= k <= 3 -> returns (quiet vm) (on_dstack vm (DupN (dstack vm) k)).
Proof. intros Hk. stack_op k. Qed.
Lemma OverN_after k : 0 <= k <= 3 -> returns (quiet vm) (on_dstack vm (OverN (dstack vm) k)).
Proof. intros Hk. stack_op k. Qed.
Lemma RotN_after k : returns (quiet vm) (on_dstack vm (RotN (dstack vm) k)).
Proof. stack_op 0. Qed.
Lemma SwapN_after k : returns (quiet vm) (on_dstack vm (SwapN (dstack vm) k)).
Proof. stack_op 0. Qed.
Lemma NipN_after k : returns (quiet vm) (on_dstack vm (NipN (dstack vm) k)).
Proof. stack_op 0. Qed.
Lemma Tuck_after : returns (quiet vm) (on_dstack vm (Tuck (dstack vm))).
Proof. stack_op 1. Qed.

Lemma opcodeIfDup_after op : returns (quiet vm) (opcodeIfDup op vm).
Proof.
  pose proof keep as Hk. pose proof push_after as Hp. destruct Hlim as [(nd & na & Hd & Ha & Hn) ?].
  pose proof (sok_nonneg _ _ Ha). unfold opcodeIfDup, MaxStackSize in *. bind_stack.
  destruct (asBool a); [by apply Hp | done].
Qed.

Lemma opcodeDepth_after op : returns (quiet vm) (opcodeDepth op vm).
Proof.
  apply push_num_after. unfold Depth. pose proof (wraps_range 32 (len (stk (dstack vm)))) as Hr.
  unfold is_s in Hr. lia.
Qed.

Lemma opcodeSize_after op : returns (quiet vm) (opcodeSize op vm).
Proof.
  pose proof push_num_after as Hp. destruct Hlim as [(nd & na & Hd & Ha & Hn) ?].
  pose proof (sok_nonneg _ _ Ha). unfold opcodeSize, MaxStackSize in *. bind_stack. apply Hp.
  unfold item_ok, MaxScriptElementSize in *. split_hyps. pose proof (len_nonneg a). lia.
Qed.

(** A count popped from the stack, then an operation with it. *)
Lemma pop_count_after (g : stack -> Z -> res ErrorCode stack) :
  (forall n s k, sok n s -> n < 2 ^ 31 -> returns (fun s' => sok (n + 1) s' /\ vmd s' = vmd s) (g s k)) \/
  (forall n s k, sok n s -> n < 2 ^ 31 -> returns (fun s' => sok n s' /\ vmd s' = vmd s) (g s k)) ->
  returns (quiet vm) ('(val, s) ← PopInt (dstack vm); on_dstack vm (g s (Int32 val))).
Proof.
  intros Hg. destruct Hlim as [(nd & na & Hd & Ha & Hn) ?]. pose proof (sok_nonneg _ _ Ha).
  unfold MaxStackSize in *. bind_stack. unfold on_dstack.
  destruct Hg as [Hg|Hg]; (eapply post_bind; [by eapply Hg; [eassumption | lia]|]); cbv beta; intros s' [? ?];
    (eapply set_dstack_after; [eassumption | eassumption | unfold MaxStackSize; lia | congruence]).
Qed.

Lemma opcodePick_after op : returns (quiet vm) (opcodePick op vm).
Proof. apply (pop_count_after PickN). left. auto with stack. Qed.

Lemma opcodeRoll_after op : returns (quiet vm) (opcodeRoll op vm).
Proof. apply (pop_count_after RollN). right. auto with stack. Qed.

Lemma opcodeEqual_after op : returns (quiet vm) (opcodeEqual op vm).
Proof.
  destruct Hlim as [(nd & na & Hd & Ha & Hn) ?]. pose proof (sok_nonneg _ _ Ha).
  unfold opcodeEqual, MaxStackSize in *. bind_stack. bind_stack. cbn.
  eapply set_dstack_after; [by apply PushBool_ok | eassumption | unfold MaxStackSize; lia | cbn; congruence].
Qed.

Lemma opcodeWithin_after op : returns (quiet vm) (opcodeWithin op vm).
Proof.
  destruct Hlim as [(nd & na & Hd & Ha & Hn) ?]. pose proof (sok_nonneg _ _ Ha).
  unfold opcodeWithin, MaxStackSize in *. bind_stack. bind_stack. bind_stack. unfold on_dstack.
  eapply post_bind; [apply (PushInt_ok (nd - 1 - 1 - 1)); [done|] |].
  - unfold bool_num. destruct (_ && _); lia.
  - cbv beta. intros s' [? ?].
    eapply set_dstack_after; [eassumption | eassumption | unfold MaxStackSize; lia | congruence].
Qed.

End handlers.

End HandlerSpec.
