(* ===== verification/SigOps.v ===== *)
(** The opcode handlers that check signatures: [src/txscript/opcode.go].

    The signature cache is part of the engine and is threaded through the
    checks.  The loop of OP_CHECKSAFEMULTISIG does not always make progress, so
    it has fuel; [safe_fuel] is enough for every run that does. *)
From S2P Require Import Prelude PubKey Opcode ScriptNum Stack Wire Crypto Signature.
From S2P Require Import Script SigCache Engine Handlers.
Import btcec Opcode ScriptNum Stack wire Crypto Sig Script Engine Handlers.
#[local] Open Scope Z_scope.

Module SigOps.

Section sigops.
Context `{Primitives} `{SigCache.Random}.

(** * Checking one signature *)

(** [copy(sigHash[:], hash)] into a zero hash of 32 bytes. *)
Definition to_hash (hash : bytes) : bytes := take 32 (hash ++ replicate 32 0).

(** A lookup in the cache, then a verification whose success is added. *)
Definition verify_cached (cache : option SigCache.SigCache) (hash : bytes) (signature : Signature)
    (pubKey : PublicKey) : bool * option SigCache.SigCache :=
  match cache with
  | Some c =>
      let sigHash := to_hash hash in
      if SigCache.Exists c sigHash signature pubKey then (true, cache)
      else if Verify signature hash pubKey
      then (true, Some (SigCache.Add c sigHash signature pubKey))
      else (false, cache)
  | None => (Verify signature hash pubKey, None)
  end.

(** The parser chosen by the flags. *)
Definition parse_signature (vm : Engine) (sigBytes : bytes) : res string Signature :=
  if hasFlag vm ScriptVerifyStrictEncoding || hasFlag vm ScriptVerifyDERSignatures
  then ParseDERSignature sigBytes else ParseSignature sigBytes.

Definition push_bool (vm : Engine) (s : stack) (b : bool) : res ErrorCode Engine :=
  Ok (set_dstack vm (PushBool s b)).

Definition opcodeCheckSig (op : parsedOpcode) (vm : Engine) : res ErrorCode Engine :=
  '(pkBytes, s) ← PopByteArray (dstack vm);
  '(fullSigBytes, s) ← PopByteArray s;
  if len fullSigBytes <? 1 then push_bool vm s false
  else
  hashType ← idx fullSigBytes (len fullSigBytes - 1);
  sigBytes ← slice fullSigBytes 0 (len fullSigBytes - 1);
  _ ← checkHashTypeEncoding vm hashType;
  _ ← checkSignatureEncoding vm sigBytes;
  _ ← checkPubKeyEncoding vm pkBytes;
  sub ← subScript vm;
  let sub := removeOpcodeByData sub fullSigBytes in
  hash ← calcSignatureHash sub hashType (vm_tx vm) (txIdx vm);
  match ParsePubKey pkBytes with
  | Err _ => push_bool vm s false
  | Panic => Panic
  | Hang => Hang
  | Ok pubKey =>
      match parse_signature vm sigBytes with
      | Err _ => push_bool vm s false
      | Panic => Panic
      | Hang => Hang
      | Ok signature =>
          let '(valid, cache) := verify_cached (sigCache vm) hash signature pubKey in
          if negb valid && hasFlag vm ScriptVerifyNullFail && (0 <? len sigBytes)
          then Err ErrNullFail
          else push_bool (set_sigCache vm cache) s valid
      end
  end.

Definition opcodeCheckSigVerify (op : parsedOpcode) (vm : Engine) : res ErrorCode Engine :=
  vm ← opcodeCheckSig op vm; abstractVerify op vm ErrCheckSigVerify.

(** * Several signatures *)
Record parsedSigInfo := mkSigInfo {
  info_pubKey : bytes;
  info_signature : bytes;
  parsedSignature : option Signature;
  parsed : bool
}.

Definition set_parsed (i : parsedSigInfo) (p : option Signature) : parsedSigInfo :=
  mkSigInfo (info_pubKey i) (info_signature i) p true.

(** The last byte of a signature is its hash type. *)
Definition split_sig (rawSig : bytes) : res ErrorCode (Z * bytes) :=
  hashType ← idx rawSig (len rawSig - 1);
  signature ← slice rawSig 0 (len rawSig - 1);
  Ok (hashType, signature).

(** A signature is checked and parsed once: its result is kept in the entry
    [i] of the list, nil for a signature that does not parse. *)
Definition parse_once (vm : Engine) (sigs : list parsedSigInfo) (i : Z) (info : parsedSigInfo)
    (hashType : Z) (signature : bytes)
    : res ErrorCode (list parsedSigInfo * option Signature) :=
  if negb (parsed info) then
    _ ← checkHashTypeEncoding vm hashType;
    _ ← checkSignatureEncoding vm signature;
    p ← match parse_signature vm signature with
        | Ok p => Ok (Some p)
        | Err _ => Ok None
        | Panic => Panic
        | Hang => Hang
        end;
    sigs ← set_idx sigs i (set_parsed info p);
    Ok (sigs, p)
  else Ok (sigs, parsedSignature info).

(** ** OP_CHECKSAFEMULTISIG *)

(** The first key hash that is equal and was not matched before. *)
Fixpoint find_hash (hash160 : bytes) (matched : list nat) (i : nat) (keyHashes : list bytes)
    : option nat :=
  match keyHashes with
  | [] => None
  | keyHash :: rest =>
      if existsb (Nat.eqb i) matched then find_hash hash160 matched (S i) rest
      else if bool_decide (hash160 = keyHash) then Some i
      else find_hash hash160 matched (S i) rest
  end.

Fixpoint pop_hashes (n : nat) (s : stack) : res ErrorCode (list bytes * stack) :=
  match n with
  | O => Ok ([], s)
  | S n =>
      '(keyHash, s) ← PopByteArray s;
      if negb (len keyHash =? 20) then Err (ErrOther "too few valid key hashes found")
      else
        '(rest, s) ← pop_hashes n s;
        Ok (keyHash :: rest, s)
  end.

Fixpoint pop_pairs (n : nat) (s : stack) : res ErrorCode (list parsedSigInfo * stack) :=
  match n with
  | O => Ok ([], s)
  | S n =>
      '(signature, s) ← PopByteArray s;
      '(pubKey, s) ← PopByteArray s;
      '(rest, s) ← pop_pairs n s;
      Ok (mkSigInfo pubKey signature None false :: rest, s)
  end.

(** The message hash of the engine's input. *)
Definition safe_hash (vm : Engine) (script : list parsedOpcode) (hashType : Z) : res ErrorCode bytes :=
  let sigHashes := default (NewTxSigHashes (vm_tx vm)) (hashCache vm) in
  calcSignatureHashNew script sigHashes hashType (vm_tx vm) (txIdx vm) (inputAmount vm).

(** The loop [for numSignatures > 0]: the signature [signatureIdx] is tried
    against the key hashes not matched so far. *)
Fixpoint safe_loop (fuel : nat) (vm : Engine) (script : list parsedOpcode) (keyHashes : list bytes)
    (sigs : list parsedSigInfo) (matched : list nat) (signatureIdx numSignatures : Z)
    (cache : option SigCache.SigCache) : res ErrorCode (bool * option SigCache.SigCache) :=
  match fuel with
  | O => Hang
  | S fuel =>
  if numSignatures <=? 0 then Ok (true, cache)
  else
  info ← idx sigs signatureIdx;
  let rawSig := info_signature info in
  if len rawSig =? 0
  then safe_loop fuel vm script keyHashes sigs matched signatureIdx numSignatures cache
  else
  match find_hash (ripemd160 (sha256 (info_pubKey info))) matched 0 keyHashes with
  | None => Ok (false, cache)
  | Some k =>
      let matched := k :: matched in
      '(hashType, signature) ← split_sig rawSig;
      '(sigs, parsedSig) ← parse_once vm sigs signatureIdx info hashType signature;
      match parsedSig with
      | None => safe_loop fuel vm script keyHashes sigs matched signatureIdx numSignatures cache
      | Some p =>
          _ ← checkPubKeyEncoding vm (info_pubKey info);
          parsedPubKey ← of_key (ParsePubKey (info_pubKey info));
          hash ← safe_hash vm script hashType;
          let '(valid, cache) := verify_cached cache hash p parsedPubKey in
          if (valid : bool)
          then safe_loop fuel vm script keyHashes sigs matched (signatureIdx + 1) (numSignatures - 1) cache
          else safe_loop fuel vm script keyHashes sigs matched signatureIdx numSignatures cache
      end
  end
  end.

Definition safe_fuel (keyHashes : list bytes) : nat := S (length keyHashes).

(** A failure with the flag set and a signature that is not empty. *)
Definition null_fail (vm : Engine) (success : bool) (sigs : list parsedSigInfo) : bool :=
  negb success && hasFlag vm ScriptVerifyNullFail &&
  existsb (fun sig => 0 <? len (info_signature sig)) sigs.

Definition remove_pairs (script : list parsedOpcode) (sigs : list parsedSigInfo) : list parsedOpcode :=
  fold_left (fun script i =>
    removeOpcodeByData (removeOpcodeByData script (info_signature i)) (info_pubKey i)) sigs script.

Definition opcodeCheckSafeMultiSig (op : parsedOpcode) (vm : Engine) : res ErrorCode Engine :=
  '(numKeys, s) ← PopInt (dstack vm);
  let numKeyHashes := Int32 numKeys in
  if (numKeyHashes <? 0) || (MaxPubKeysPerMultiSig <? numKeyHashes) then Err ErrInvalidPubKeyCount
  else
  let vm := set_numOps vm (numOps vm + numKeyHashes) in
  if MaxOpsPerScript <? numOps vm then Err ErrTooManyOperations
  else
  '(keyHashes, s) ← pop_hashes (Z.to_nat numKeyHashes) s;
  '(numSigs, s) ← PopInt s;
  let numSignatures := Int32 numSigs in
  if numSignatures <? 0 then Err (ErrOther "number of signatures is less than 0")
  else if numKeyHashes <? numSignatures then Err (ErrOther "more signatures than pubkey hashes")
  else
  '(sigs, s) ← pop_pairs (Z.to_nat numSignatures) s;
  script ← subScript vm;
  let script := remove_pairs script sigs in
  '(success, cache) ← safe_loop (safe_fuel keyHashes) vm script keyHashes sigs [] 0 numSignatures
                        (sigCache vm);
  if null_fail vm success sigs then Err ErrNullFail
  else push_bool (set_sigCache vm cache) s success.

(** ** OP_CHECKMULTISIG *)
Fixpoint pop_items (n : nat) (s : stack) : res ErrorCode (list bytes * stack) :=
  match n with
  | O => Ok ([], s)
  | S n =>
      '(item, s) ← PopByteArray s;
      '(rest, s) ← pop_items n s;
      Ok (item :: rest, s)
  end.

(** The loop [for numSignatures > 0]: every iteration takes the next key, and
    ends the loop when fewer keys than signatures remain. *)
Fixpoint multi_loop (fuel : nat) (vm : Engine) (script : list parsedOpcode) (pubKeys : list bytes)
    (sigs : list parsedSigInfo) (numPubKeys pubKeyIdx signatureIdx numSignatures : Z)
    (cache : option SigCache.SigCache) : res ErrorCode (bool * option SigCache.SigCache) :=
  match fuel with
  | O => Hang
  | S fuel =>
  if numSignatures <=? 0 then Ok (true, cache)
  else
  let pubKeyIdx := pubKeyIdx + 1 in
  let numPubKeys := numPubKeys - 1 in
  if numPubKeys <? numSignatures then Ok (false, cache)
  else
  info ← idx sigs signatureIdx;
  pubKey ← idx pubKeys pubKeyIdx;
  let rawSig := info_signature info in
  if len rawSig =? 0
  then multi_loop fuel vm script pubKeys sigs numPubKeys pubKeyIdx signatureIdx numSignatures cache
  else
  '(hashType, signature) ← split_sig rawSig;
  '(sigs, parsedSig) ← parse_once vm sigs signatureIdx info hashType signature;
  match parsedSig with
  | None => multi_loop fuel vm script pubKeys sigs numPubKeys pubKeyIdx signatureIdx numSignatures cache
  | Some p =>
      _ ← checkPubKeyEncoding vm pubKey;
      match ParsePubKey pubKey with
      | Err _ =>
          multi_loop fuel vm script pubKeys sigs numPubKeys pubKeyIdx signatureIdx numSignatures cache
      | Panic => Panic
      | Hang => Hang
      | Ok parsedPubKey =>
          hash ← calcSignatureHash script hashType (vm_tx vm) (txIdx vm);
          let '(valid, cache) := verify_cached cache hash p parsedPubKey in
          if (valid : bool)
          then multi_loop fuel vm script pubKeys sigs numPubKeys pubKeyIdx (signatureIdx + 1)
                 (numSignatures - 1) cache
          else multi_loop fuel vm script pubKeys sigs numPubKeys pubKeyIdx signatureIdx numSignatures
                 cache
      end
  end
  end.

Definition multi_fuel (pubKeys : list bytes) : nat := S (S (length pubKeys)).

Definition opcodeCheckMultiSig (op : parsedOpcode) (vm : Engine) : res ErrorCode Engine :=
  '(numKeys, s) ← PopInt (dstack vm);
  let numPubKeys := Int32 numKeys in
  if numPubKeys <? 0 then Err ErrInvalidPubKeyCount
  else if MaxPubKeysPerMultiSig <? numPubKeys then Err ErrInvalidPubKeyCount
  else
  let vm := set_numOps vm (numOps vm + numPubKeys) in
  if MaxOpsPerScript <? numOps vm then Err ErrTooManyOperations
  else
  '(pubKeys, s) ← pop_items (Z.to_nat numPubKeys) s;
  '(numSigs, s) ← PopInt s;
  let numSignatures := Int32 numSigs in
  if numSignatures <? 0 then Err ErrInvalidSignatureCount
  else if numPubKeys <? numSignatures then Err ErrInvalidSignatureCount
  else
  '(items, s) ← pop_items (Z.to_nat numSignatures) s;
  let sigs := map (fun sig => mkSigInfo [] sig None false) items in
  '(dummy, s) ← PopByteArray s;
  if hasFlag vm ScriptStrictMultiSig && negb (len dummy =? 0) then Err ErrSigNullDummy
  else
  script ← subScript vm;
  let script := fold_left (fun script i => removeOpcodeByData script (info_signature i)) sigs script in
  '(success, cache) ← multi_loop (multi_fuel pubKeys) vm script pubKeys sigs (numPubKeys + 1) (-1) 0
                        numSignatures (sigCache vm);
  push_bool (set_sigCache vm cache) s success.

Definition opcodeCheckMultiSigVerify (op : parsedOpcode) (vm : Engine) : res ErrorCode Engine :=
  vm ← opcodeCheckMultiSig op vm; abstractVerify op vm ErrCheckMultiSigVerify.

End sigops.

End SigOps.
