(* ===== verification/SigSpec.v ===== *)
(** What the signature opcodes guarantee.

    They keep the engine within its limits; they panic only on a signature that
    makes one of the parsers panic; OP_CHECKSAFEMULTISIG alone can run forever,
    and only on an empty signature; and its result is exactly the authorization
    it stands for. *)
From S2P Require Import Prelude PubKey Opcode ScriptNum Stack Wire Crypto Signature.
From S2P Require Import Script SigCache Engine StackSpec Handlers HandlerSpec SigOps.
Import btcec Opcode ScriptNum Stack wire Crypto Sig Script Engine StackSpec Handlers HandlerSpec SigOps.
#[local] Open Scope Z_scope.

Module SigSpec.

(** The program counter points to an opcode. *)
Definition pc_ok (vm : Engine) : Prop :=
  0 <= scriptIdx vm /\ 0 <= scriptOff vm /\
  exists script, scripts vm !! Z.to_nat (scriptIdx vm) = Some script /\ scriptOff vm < len script.

(** A signature, without its hash type, on which the checks of the engine
    panic. *)
Definition crashing (vm : Engine) (sig : bytes) : Prop :=
  checkSignatureEncoding vm sig = Panic \/ parse_signature vm sig = Panic.

(** Such a signature is among some items. *)
Definition crash_in (vm : Engine) (items : list bytes) : Prop :=
  exists sig hashType, sig ++ [hashType] ∈ items /\ crashing vm sig.

(** ** Shared helpers *)
Lemma checkHashTypeEncoding_returns vm h : returns (fun _ => True) (checkHashTypeEncoding vm h).
Proof. unfold checkHashTypeEncoding. destruct (negb _); [done|]. by destruct (_ || _). Qed.

Lemma checkPubKeyEncoding_returns vm k : returns (fun _ => True) (checkPubKeyEncoding vm k).
Proof.
  unfold checkPubKeyEncoding. destruct (negb _); [done|]. destruct (_ && _); [done|]. by destruct (_ && _).
Qed.

Lemma checkSignatureEncoding_no_hang vm sig : checkSignatureEncoding vm sig <> Hang.
Proof.
  unfold checkSignatureEncoding, checkSigIntegers. intros Hh.
  repeat (match type of Hh with
    | mbind _ _ = Hang => let a := fresh in apply bind_Hang in Hh as [Hh|(a & _ & Hh)]
    | (if ?b then _ else _) = Hang => destruct b
    end); solve [done | by apply idx_no_hang in Hh | by apply slice_no_hang in Hh].
Qed.

Lemma checkSignatureEncoding_post vm sig :
  post (crashing vm sig) False (fun _ => True) (checkSignatureEncoding vm sig).
Proof.
  destruct (checkSignatureEncoding vm sig) eqn:Hc; cbn; [done | done | by left |].
  by apply checkSignatureEncoding_no_hang in Hc.
Qed.

Lemma parse_signature_no_hang vm sig : parse_signature vm sig <> Hang.
Proof. unfold parse_signature. destruct (_ || _); apply parseSig_no_hang. Qed.

Lemma subScript_total vm :
  pc_ok vm -> 0 <= lastCodeSep vm <= scriptOff vm -> exists script, subScript vm = Ok script.
Proof.
  intros (Hi & _ & script & Hs & Ho) Hc. unfold subScript.
  assert (idx (E := ErrorCode) (scripts vm) (scriptIdx vm) = Ok script) as -> by (by apply idx_Ok).
  cbn [mbind res_bind].
  apply slice_in_range; lia.
Qed.

Lemma subScript_returns vm :
  pc_ok vm -> 0 <= lastCodeSep vm <= scriptOff vm -> returns (fun _ => True) (subScript vm).
Proof. intros Hpc Hc. by destruct (subScript_total vm Hpc Hc) as [? ->]. Qed.

Lemma length_clear_scripts j sig i ins : length (clear_scripts j sig i ins) = length ins.
Proof. revert i. induction ins as [|ti ins IH]; intros i; cbn; [done | by rewrite IH]. Qed.

Lemma length_zero_sequences j i ins : length (zero_sequences j i ins) = length ins.
Proof. revert i. induction ins as [|ti ins IH]; intros i; cbn; [done | by rewrite IH]. Qed.

Lemma DoubleHashB_length b : length (DoubleHashB b) = 32%nat.
Proof. apply sha256_length. Qed.

Lemma calcSignatureHash_returns script ht tx i :
  0 <= i < len (tx_TxIn tx) -> returns (fun h => length h = 32%nat) (calcSignatureHash script ht tx i).
Proof.
  intros Hi. unfold calcSignatureHash. destruct (_ && _) eqn:Hsingle; [done|].
  eapply (post_bind _ _ (fun '(ins, outs) => length ins = length (tx_TxIn tx))).
  - destruct (_ =? SigHashNone); [cbn; by rewrite length_zero_sequences, length_clear_scripts, length_map|].
    destruct (_ =? SigHashSingle) eqn:Hs; [|cbn; by rewrite length_clear_scripts, length_map].
    destruct (slice_in_range (E := ErrorCode) (tx_TxOut (Copy tx)) 0 (i + 1)) as (outs & ->).
    + lia.
    + cbn. unfold len in *. rewrite length_map. lia.
    + cbn. by rewrite length_zero_sequences, length_clear_scripts, length_map.
  - intros [ins outs] Hins.
    eapply (post_bind _ _ (fun _ => True)); [|intros ? _; apply DoubleHashB_length].
    destruct (negb _); [|done].
    destruct (slice_in_range (E := ErrorCode) ins i (i + 1)) as (l & ->); [lia | unfold len in *; lia | done].
Qed.

Lemma safe_hash_returns vm script ht :
  input_ok vm -> returns (fun h => length h = 32%nat) (safe_hash vm script ht).
Proof.
  intros Hi. unfold safe_hash, calcSignatureHashNew, input_ok in *. replace (len _ <=? _) with false by lia.
  destruct (idx_in_range (E := ErrorCode) _ _ Hi) as (ti & -> & _). apply DoubleHashB_length.
Qed.

Lemma split_sig_snoc (pre : bytes) x : split_sig (pre ++ [x]) = Ok (x, pre).
Proof.
  unfold split_sig. rewrite idx_last. cbn [mbind res_bind]. by rewrite slice_init.
Qed.

Lemma nonempty_snoc (b : bytes) : len b <> 0 -> exists pre x, b = pre ++ [x].
Proof. destruct b as [|x l _] using rev_ind; [done|]. by exists l, x. Qed.

(** ** Popping several items *)
Lemma pop_items_ok k : forall n s,
  sok n s -> n < 2 ^ 31 ->
  returns (fun '(l, s') => length l = k /\ sok (n - Z.of_nat k) s' /\ vmd s' = vmd s /\
                           stk s = stk s' ++ reverse l) (pop_items k s).
Proof.
  induction k as [|k IH]; intros n s Hs Hn; cbn [pop_items].
  { cbn. rewrite app_nil_r, Z.sub_0_r. done. }
  eapply post_bind; [by eapply PopByteArray_ok|]. intros [x s1] (_ & Hs1 & Hv1 & _ & Hstk1).
  eapply post_bind; [apply (IH _ s1 Hs1); lia|]. intros [l s2] (Hl & Hs2 & Hv2 & Hstk2).
  cbn [post]. rewrite reverse_cons, app_assoc, <- Hstk2, <- Hstk1.
  split_and!; [by cbn; rewrite Hl | | congruence | done].
  by replace (n - Z.of_nat (S k)) with (n - 1 - Z.of_nat k) by lia.
Qed.

Lemma pop_hashes_ok k : forall n s,
  sok n s -> n < 2 ^ 31 ->
  returns (fun '(l, s') => length l = k /\ sok (n - Z.of_nat k) s' /\ vmd s' = vmd s /\
                           stk s = stk s' ++ reverse l) (pop_hashes k s).
Proof.
  induction k as [|k IH]; intros n s Hs Hn; cbn [pop_hashes].
  { cbn. rewrite app_nil_r, Z.sub_0_r. done. }
  eapply post_bind; [by eapply PopByteArray_ok|]. intros [x s1] (_ & Hs1 & Hv1 & _ & Hstk1).
  destruct (negb _); [done|].
  eapply post_bind; [apply (IH _ s1 Hs1); lia|]. intros [l s2] (Hl & Hs2 & Hv2 & Hstk2).
  cbn [post]. rewrite reverse_cons, app_assoc, <- Hstk2, <- Hstk1.
  split_and!; [by cbn; rewrite Hl | | congruence | done].
  by replace (n - Z.of_nat (S k)) with (n - 1 - Z.of_nat k) by lia.
Qed.

(** The items of pairs, the top one first. *)
Definition pair_items (sigs : list parsedSigInfo) : list bytes :=
  concat (map (fun i => [info_signature i; info_pubKey i]) sigs).

Definition fresh_info (i : parsedSigInfo) : Prop := parsed i = false /\ parsedSignature i = None.

Lemma pop_pairs_ok k : forall n s,
  sok n s -> n < 2 ^ 31 ->
  returns (fun '(l, s') => length l = k /\ Forall fresh_info l /\ sok (n - 2 * Z.of_nat k) s' /\
                           vmd s' = vmd s /\ stk s = stk s' ++ reverse (pair_items l)) (pop_pairs k s).
Proof.
  induction k as [|k IH]; intros n s Hs Hn; cbn [pop_pairs].
  { cbn. rewrite app_nil_r, Z.sub_0_r. done. }
  eapply post_bind; [by eapply PopByteArray_ok|]. intros [x s1] (_ & Hs1 & Hv1 & _ & Hstk1).
  eapply post_bind; [eapply PopByteArray_ok; [done | lia]|]. intros [y s2] (_ & Hs2 & Hv2 & _ & Hstk2).
  eapply post_bind; [apply (IH _ s2 Hs2); lia|]. intros [l s3] (Hl & Hf & Hs3 & Hv3 & Hstk3).
  cbn [post]. change (pair_items (_ :: l)) with (x :: y :: pair_items l).
  rewrite !reverse_cons, !app_assoc, <- Hstk3, <- Hstk2, <- Hstk1.
  split_and!; [by cbn; rewrite Hl | by constructor | | congruence | done].
  by replace (n - 2 * Z.of_nat (S k)) with (n - 1 - 1 - 2 * Z.of_nat k) by lia.
Qed.

(** ** Matching key hashes *)

(** The key hashes, numbered from [i], that are not matched yet. *)
Fixpoint unmatched (matched : list nat) (i : nat) (keyHashes : list bytes) : list bytes :=
  match keyHashes with
  | [] => []
  | h :: rest =>
      if existsb (Nat.eqb i) matched then unmatched matched (S i) rest
      else h :: unmatched matched (S i) rest
  end.

Lemma existsb_matched i (matched : list nat) : existsb (Nat.eqb i) matched = true <-> i ∈ matched.
Proof.
  rewrite existsb_exists. split.
  - intros (x & Hx & He%Nat.eqb_eq). subst. by apply list_elem_of_In.
  - intros Hi. exists i. split; [by apply list_elem_of_In | apply Nat.eqb_refl].
Qed.

Lemma unmatched_nil i kh : unmatched [] i kh = kh.
Proof. revert i. induction kh as [|h kh IH]; intros i; cbn; [done | by rewrite IH]. Qed.

Lemma find_hash_None h matched kh : forall i, find_hash h matched i kh = None -> h ∉ unmatched matched i kh.
Proof.
  induction kh as [|h' kh IH]; intros i; cbn; [set_solver|].
  destruct (existsb _ _); [apply IH|]. destruct (bool_decide_reflect (h = h')); [done|].
  intros Hf%IH. set_solver.
Qed.

(** A number below [i] does not change what is unmatched from [i] on. *)
Lemma unmatched_cons_lt k matched kh : forall i, (k < i)%nat ->
  unmatched (k :: matched) i kh = unmatched matched i kh.
Proof.
  induction kh as [|h kh IH]; intros i Hi; cbn; [done|].
  assert (Nat.eqb i k = false) as -> by (apply Nat.eqb_neq; lia). cbn. rewrite !IH by lia. done.
Qed.

Lemma find_hash_Some h matched kh : forall i k,
  find_hash h matched i kh = Some k ->
  (i <= k < i + length kh)%nat /\ k ∉ matched /\
  unmatched matched i kh ≡ₚ h :: unmatched (k :: matched) i kh.
Proof.
  induction kh as [|h' kh IH]; intros i k; cbn; [done|].
  destruct (existsb (Nat.eqb i) matched) eqn:He.
  - intros Hf. apply IH in Hf as (Hr & Hk & Hp). split_and!; [lia | lia | done |].
    assert (Nat.eqb i k = false) as -> by (apply Nat.eqb_neq; lia). exact Hp.
  - destruct (bool_decide_reflect (h = h')) as [<-|Hne].
    + intros [= <-]. split_and!; [lia | lia | |].
      * intros Hin%existsb_matched. congruence.
      * rewrite Nat.eqb_refl. cbn. by rewrite unmatched_cons_lt by lia.
    + intros Hf. apply IH in Hf as (Hr & Hk & Hp). split_and!; [lia | lia | done |].
      assert (Nat.eqb i k = false) as -> by (apply Nat.eqb_neq; lia). cbn [orb].
      rewrite Hp. apply Permutation_swap.
Qed.

(** ** Parsing a signature once *)
Definition sig_of (vm : Engine) (sig : bytes) : option Signature :=
  match parse_signature vm sig with Ok p => Some p | _ => None end.

(** What an entry marked as parsed holds. *)
Definition info_ok (vm : Engine) (i : parsedSigInfo) : Prop :=
  parsed i = true -> exists pre x, info_signature i = pre ++ [x] /\ parsedSignature i = sig_of vm pre.

Lemma fresh_info_ok vm i : fresh_info i -> info_ok vm i.
Proof. intros [Hp _] Ht. congruence. Qed.

(** The raw contents of the entries. *)
Definition raws (sigs : list parsedSigInfo) : list (bytes * bytes) :=
  map (fun i => (info_pubKey i, info_signature i)) sigs.

Lemma parse_once_post vm sigs i info ht pre x :
  0 <= i -> sigs !! Z.to_nat i = Some info -> info_signature info = pre ++ [x] ->
  Forall (info_ok vm) sigs ->
  post (crashing vm pre) False
    (fun '(sigs', p) => raws sigs' = raws sigs /\ Forall (info_ok vm) sigs' /\ p = sig_of vm pre)
    (parse_once vm sigs i info ht pre).
Proof.
  intros Hi Hl Hpre Hok. unfold parse_once. destruct (parsed info) eqn:Hp; cbn [negb].
  - cbn. split_and!; [done | done |]. rewrite Forall_lookup in Hok.
    destruct (Hok _ _ Hl Hp) as (pre' & x' & Hs & Hps). rewrite Hpre in Hs.
    apply app_inj_tail in Hs as [<- _]. done.
  - eapply post_bind; [apply returns_post, checkHashTypeEncoding_returns|]. intros _ _.
    eapply post_bind; [apply checkSignatureEncoding_post|]. intros _ _.
    eapply (post_bind _ _ (fun p => p = sig_of vm pre)).
    { unfold sig_of. destruct (parse_signature vm pre) eqn:Hps; cbn; try done; [by right|].
      by apply parse_signature_no_hang in Hps. }
    intros p ->. apply lookup_lt_Some in Hl as Hlt.
    rewrite set_idx_Ok by (unfold len; lia). cbn [mbind res_bind post]. split_and!; [| |done].
    + unfold raws. rewrite list_fmap_insert. cbn. apply list_insert_id.
      rewrite list_lookup_fmap, Hl. done.
    + apply Forall_insert; [done|]. intros _. by exists pre, x.
Qed.

(** ** The cached verification *)
Section cached.
Context `{Primitives} `{SigCache.Random}.

Definition cache_ok (cache : option SigCache.SigCache) : Prop :=
  match cache with Some c => SigCache.consistent c | None => True end.

Lemma to_hash_id h : length h = 32%nat -> to_hash h = h.
Proof. intros Hl. unfold to_hash. by apply take_app_length'. Qed.

Lemma verify_cached_correct cache hash sig pk :
  cache_ok cache -> length hash = 32%nat ->
  (verify_cached cache hash sig pk).1 = Verify sig hash pk /\
  cache_ok (verify_cached cache hash sig pk).2.
Proof.
  intros Hc Hl. destruct cache as [c|]; [|done]. cbn in *. rewrite to_hash_id by done.
  destruct (SigCache.Exists c hash sig pk) eqn:He.
  - split; [|done]. symmetry. by eapply SigCache.Exists_verified.
  - destruct (Verify sig hash pk) eqn:Hv; [|done]. split; [done|]. by apply SigCache.Add_consistent.
Qed.

(** ** One signature *)
Lemma set_sigCache_after vm vm' c : after vm vm' -> after vm (set_sigCache vm' c).
Proof. intros [? ?]. done. Qed.

Lemma push_bool_after vm vm' s n na b :
  limits MaxStackSize vm -> limits MaxStackSize vm' -> static vm' = static vm ->
  sok n s -> sok na (astack vm') -> n + na <= MaxStackSize + 2 -> vmd s = vmd (dstack vm') ->
  post (E := ErrorCode) False False (after vm) (push_bool vm' s b).
Proof.
  intros Hl Hl' Hst Hs Ha Hn Hv. cbn.
  destruct (set_dstack_after vm' Hl' (n + 1) (PushBool s b) na) as [[? ?] _];
    [by apply PushBool_ok | done | lia | done|].
  split; [done | congruence].
Qed.

(** ** OP_CHECKSAFEMULTISIG *)

(** A pair of a public key and a signature authorizes the engine's input: the
    signature verifies, under the key, the hash of the engine's transaction. *)
Definition signed (vm : Engine) (r : bytes * bytes) : Prop :=
  exists pre ht p pk h,
    r.2 = pre ++ [ht] /\ parse_signature vm pre = Ok p /\ ParsePubKey r.1 = Ok pk /\
    safe_hash vm [] ht = Ok h /\ Verify p h pk = true.

(** Every pair authorizes the input and the hashes of their keys are among
    those given, each counted once. *)
Definition authorised (vm : Engine) (rs : list (bytes * bytes)) (keyHashes : list bytes) : Prop :=
  Forall (signed vm) rs /\ map (fun r => Hash160 r.1) rs ⊆+ keyHashes.

Lemma bounded_length (l : list nat) n : NoDup l -> Forall (fun k => (k < n)%nat) l -> (length l <= n)%nat.
Proof.
  intros Hd Hb. rewrite <- (length_seq n 0). apply submseteq_length, NoDup_submseteq; [done|].
  intros x Hx. rewrite Forall_forall in Hb. apply elem_of_seq. specialize (Hb x Hx). lia.
Qed.

(** Taking a matched hash away. *)
Lemma authorised_step vm r rs hs hs' :
  hs ≡ₚ Hash160 r.1 :: hs' -> signed vm r -> authorised vm (r :: rs) hs <-> authorised vm rs hs'.
Proof.
  intros Hp Hr. unfold authorised. rewrite Forall_cons, Hp. cbn [map]. split.
  - intros [[_ Hs] Hm]. split; [done|]. by apply (submseteq_app_inv_l _ _ [Hash160 r.1]) in Hm.
  - intros [Hs Hm]. split; [done|]. by apply submseteq_skip.
Qed.

Lemma authorised_not_signed vm r rs hs : ~ signed vm r -> ~ authorised vm (r :: rs) hs.
Proof. intros Hr [Hs _]. apply Forall_cons in Hs as [? _]. done. Qed.

Lemma authorised_no_hash vm r rs hs : Hash160 r.1 ∉ hs -> ~ authorised vm (r :: rs) hs.
Proof. intros Hh [_ Hm]. apply Hh. eapply elem_of_submseteq; [|exact Hm]. left. Qed.

(** The entry the loop works on. *)
Lemma current_entry sigs i num :
  0 <= i -> 0 < num -> i + num = len sigs ->
  exists info, idx (E := ErrorCode) sigs i = Ok info /\ sigs !! Z.to_nat i = Some info /\
    drop (Z.to_nat i) (raws sigs) =
      (info_pubKey info, info_signature info) :: drop (Z.to_nat (i + 1)) (raws sigs).
Proof.
  intros Hi Hn Hl. destruct (idx_in_range (E := ErrorCode) sigs i) as (info & Hx & Hs); [lia|].
  exists info. split_and!; [done | done |].
  rewrite Z2Nat.inj_add, Nat.add_1_r by lia. apply drop_S. unfold raws. by rewrite list_lookup_fmap, Hs.
Qed.

Lemma raws_signature info i (sigs : list parsedSigInfo) :
  sigs !! i = Some info -> info_signature info ∈ map snd (raws sigs).
Proof.
  intros Hl. unfold raws. rewrite map_map. cbn. apply list_elem_of_lookup. exists i.
  rewrite list_lookup_fmap, Hl. done.
Qed.

Lemma raws_length sigs sigs' : raws sigs' = raws sigs -> len sigs' = len sigs.
Proof. intros Hr. apply (f_equal length) in Hr. unfold raws in Hr. rewrite !length_map in Hr. unfold len. lia. Qed.

(** An empty signature is retried forever. *)
Lemma safe_loop_empty vm script kh sigs matched i num cache info :
  0 <= i -> 0 < num -> sigs !! Z.to_nat i = Some info -> info_signature info = [] ->
  forall fuel, safe_loop fuel vm script kh sigs matched i num cache = Hang.
Proof.
  intros Hi Hn Hl He fuel. induction fuel as [|fuel IH]; [done|]. cbn [safe_loop].
  replace (num <=? 0) with false by lia.
  assert (idx (E := ErrorCode) sigs i = Ok info) as -> by (by apply idx_Ok).
  cbn [mbind res_bind]. rewrite He. exact IH.
Qed.

(** One check of a parsed signature against its key. *)
Lemma check_pair vm script info pre ht p pk h cache :
  info_signature info = pre ++ [ht] -> sig_of vm pre = Some p -> ParsePubKey (info_pubKey info) = Ok pk ->
  safe_hash vm script ht = Ok h -> length h = 32%nat -> cache_ok cache ->
  ((verify_cached cache h p pk).1 = true <-> signed vm (info_pubKey info, info_signature info)) /\
  cache_ok (verify_cached cache h p pk).2.
Proof.
  intros Hs Hp Hk Hh Hl Hc. destruct (verify_cached_correct cache h p pk Hc Hl) as [-> Hc'].
  split; [|done]. assert (parse_signature vm pre = Ok p) as Hps.
  { unfold sig_of in Hp. by destruct (parse_signature vm pre); simplify_eq. }
  split.
  - intros Hv. by exists pre, ht, p, pk, h.
  - intros (pre' & ht' & p' & pk' & h' & Hs' & Hp' & Hk' & Hh' & Hv'). cbn in *.
    rewrite Hs in Hs'. apply app_inj_tail in Hs' as [<- <-].
    change (safe_hash vm [] ht) with (safe_hash vm script ht) in Hh'. congruence.
Qed.

(** A pair whose signature does not parse authorizes nothing. *)
Lemma not_parsed vm info pre ht :
  info_signature info = pre ++ [ht] -> sig_of vm pre = None ->
  ~ signed vm (info_pubKey info, info_signature info).
Proof.
  intros Hs Hp (pre' & ht' & p' & pk' & h' & Hs' & Hp' & _). cbn in *. rewrite Hs in Hs'.
  apply app_inj_tail in Hs' as [<- <-]. unfold sig_of in Hp. by rewrite Hp' in Hp.
Qed.

Lemma of_key_post P Q {A} (m : res string A) :
  m <> Panic -> m <> Hang -> post (E := ErrorCode) P Q (fun a => m = Ok a) (of_key m).
Proof. by destruct m. Qed.

(** One attempt to use the signature [i]: it is signed, and the loop goes on
    with [next], or it is not, and the loop goes on with [retry]. *)
Lemma attempt_post {A} vm script sigs i info pre ht cache (P F : Prop) (Q : A -> Prop)
    (next retry : list parsedSigInfo -> option SigCache.SigCache -> res ErrorCode A) :
  input_ok vm -> 0 <= i -> sigs !! Z.to_nat i = Some info -> info_signature info = pre ++ [ht] ->
  Forall (info_ok vm) sigs -> cache_ok cache -> (crashing vm pre -> P) ->
  (forall sigs' c, raws sigs' = raws sigs -> Forall (info_ok vm) sigs' -> cache_ok c ->
     signed vm (info_pubKey info, info_signature info) -> post P F Q (next sigs' c)) ->
  (forall sigs' c, raws sigs' = raws sigs -> Forall (info_ok vm) sigs' -> cache_ok c ->
     ~ signed vm (info_pubKey info, info_signature info) -> post P F Q (retry sigs' c)) ->
  post P F Q
    ('(hashType, signature) ← split_sig (info_signature info);
     '(sigs, parsedSig) ← parse_once vm sigs i info hashType signature;
     match parsedSig with
     | None => retry sigs cache
     | Some p =>
         _ ← checkPubKeyEncoding vm (info_pubKey info);
         parsedPubKey ← of_key (ParsePubKey (info_pubKey info));
         hash ← safe_hash vm script hashType;
         let '(valid, cache) := verify_cached cache hash p parsedPubKey in
         if (valid : bool) then next sigs cache else retry sigs cache
     end).
Proof.
  intros Hin Hi Hl Hs Hok Hc Hcrash Hnext Hretry. rewrite Hs, split_sig_snoc. cbn [mbind res_bind].
  eapply post_bind; [eapply post_weaken; [by apply (parse_once_post vm sigs i info ht pre ht) | done | done | by auto]|].
  intros [sigs' psig] (Hraw & Hok' & ->).
  destruct (sig_of vm pre) as [p|] eqn:Hsig; [|by apply Hretry; [..|eapply not_parsed]].
  eapply post_bind; [apply returns_post, checkPubKeyEncoding_returns|]. intros _ _.
  eapply post_bind; [apply of_key_post; [apply ParsePubKey_no_panic | apply ParsePubKey_no_hang]|].
  cbv beta. intros pk Hpk. destruct (safe_hash vm script ht) as [h|e| |] eqn:Hh;
    [|done|by pose proof (safe_hash_returns vm script ht Hin) as Hr; rewrite Hh in Hr..].
  pose proof (post_Ok _ _ _ _ h (safe_hash_returns vm script ht Hin) Hh) as Hlen32.
  destruct (check_pair vm script info pre ht p pk h cache Hs Hsig Hpk Hh Hlen32 Hc) as [Hv Hc'].
  cbn [mbind res_bind]. destruct (verify_cached cache h p pk) as [valid cache']. cbn [fst snd] in *.
  destruct valid; [apply Hnext | apply Hretry]; try done; [by apply Hv|].
  intros Hsg. by apply Hv in Hsg.
Qed.

Lemma safe_loop_post vm script kh :
  input_ok vm -> forall fuel sigs matched i num cache,
  Forall (info_ok vm) sigs -> 0 <= i -> i + num = len sigs -> NoDup matched ->
  Forall (fun k => (k < length kh)%nat) matched -> (length kh < fuel + length matched)%nat ->
  cache_ok cache ->
  post (crash_in vm (map snd (raws sigs))) ([] ∈ map snd (raws sigs))
    (fun '(b, cache') => cache_ok cache' /\
       (b = true <-> authorised vm (drop (Z.to_nat i) (raws sigs)) (unmatched matched 0 kh)))
    (safe_loop fuel vm script kh sigs matched i num cache).
Proof.
  intros Hin. induction fuel as [|fuel IH]; intros sigs matched i num cache Hok Hi Hlen Hd Hb Hf Hc.
  { pose proof (bounded_length matched (length kh) Hd Hb). lia. }
  destruct (Z.leb_spec num 0) as [Hnum|Hnum].
  { cbn [safe_loop]. replace (num <=? 0) with true by lia. cbn [post]. split; [done|]. split; [intros _|done].
    rewrite drop_ge by (unfold raws; rewrite length_map; unfold len in Hlen; lia).
    split; [constructor | apply submseteq_nil_l]. }
  destruct (current_entry sigs i num Hi Hnum Hlen) as (info & Hx & Hl & Hdrop).
  pose proof (raws_signature info _ _ Hl) as Hmem.
  destruct (Z.eqb_spec (len (info_signature info)) 0) as [He|He].
  { apply len_0 in He. rewrite (safe_loop_empty _ _ _ _ _ _ _ _ info) by done. cbn. by rewrite <- He. }
  cbn [safe_loop]. replace (num <=? 0) with false by lia. rewrite Hx. cbn [mbind res_bind].
  replace (len (info_signature info) =? 0) with false by lia.
  destruct (nonempty_snoc (info_signature info)) as (pre & ht & Hs); [lia|].
  change (ripemd160 (sha256 (info_pubKey info))) with (Hash160 (info_pubKey info)). rewrite Hdrop.
  destruct (find_hash _ matched 0 kh) as [k|] eqn:Hfind.
  2: { apply find_hash_None in Hfind. cbn [post]. split; [done|]. split; [done|]. intros Ha. exfalso.
       by eapply authorised_no_hash in Ha. }
  apply find_hash_Some in Hfind as (Hk & Hkm & Hperm).
  apply (attempt_post vm script sigs i info pre ht cache _ _ _
    (fun sigs c => safe_loop fuel vm script kh sigs (k :: matched) (i + 1) (num - 1) c)
    (fun sigs c => safe_loop fuel vm script kh sigs (k :: matched) i num c)); try done.
  - intros ?. exists pre, ht. by rewrite <- Hs.
  - intros sigs' c Hraw Hok' Hc' Hsg. rewrite <- Hraw.
    eapply post_weaken; [apply IH; try done | done | done |].
    + lia.
    + rewrite (raws_length sigs sigs' Hraw). lia.
    + by constructor.
    + constructor; [lia | done].
    + cbn [length]. lia.
    + intros [b c'] [? Hb']. split; [done|]. rewrite Hb'. symmetry. by apply authorised_step.
  - intros sigs' c Hraw Hok' Hc' Hns. rewrite <- Hraw at 1 2.
    eapply post_weaken; [apply IH; try done | done | done |].
    + by rewrite (raws_length sigs sigs' Hraw).
    + by constructor.
    + constructor; [lia | done].
    + cbn [length]. lia.
    + intros [b c'] [? Hb']. split; [done|]. rewrite Hb', Hraw, Hdrop.
      split; intros Ha; exfalso; by eapply authorised_not_signed in Ha.
Qed.

Lemma Int32_id v : - 2 ^ 31 < v < 2 ^ 31 -> Int32 v = v.
Proof.
  intros Hv. unfold Int32. change maxInt32 with (2 ^ 31 - 1). change minInt32 with (- 2 ^ 31).
  rewrite wraps_small by (unfold is_s; lia). repeat case_if; lia.
Qed.

Lemma set_numOps_limits vm k :
  limits MaxStackSize vm -> 0 <= k -> (MaxOpsPerScript <? numOps vm + k) = false ->
  limits MaxStackSize (set_numOps vm (numOps vm + k)).
Proof. intros (? & ? & ? & ?) Hk Hn. split_and!; try done; cbn; lia. Qed.

(** What OP_CHECKSAFEMULTISIG finds on the stack and what it leaves. *)
Definition safe_multisig_effect (vm vm' : Engine) : Prop :=
  exists rest sigs m kh n b,
    stk (dstack vm) = rest ++ reverse (pair_items sigs) ++ [m] ++ reverse kh ++ [n] /\
    num_value m = len sigs /\ num_value n = len kh /\ len kh <= MaxPubKeysPerMultiSig /\
    stk (dstack vm') = rest ++ [fromBool b] /\
    (b = true <-> authorised vm (raws sigs) kh).

Lemma authorised_static vm vm' rs hs :
  static vm' = static vm -> authorised vm' rs hs <-> authorised vm rs hs.
Proof.
  intros Hst. unfold static in Hst. injection Hst as _ _ _ Htx Hix Ham Hfl Hhc _ _ _ _.
  assert (forall r, signed vm' r <-> signed vm r) as Hs.
  { intros r. unfold signed, parse_signature, hasFlag, safe_hash. by rewrite Hfl, Htx, Hix, Ham, Hhc. }
  unfold authorised. by rewrite (Forall_iff _ _ _ Hs).
Qed.

Lemma crash_in_static vm vm' items items' :
  static vm' = static vm -> items' ⊆ items -> crash_in vm' items' -> crash_in vm items.
Proof.
  intros Hst Hsub (sig & ht & Hin & Hc). exists sig, ht. split; [by apply Hsub|].
  unfold static in Hst. injection Hst as _ _ _ _ _ _ Hfl _ _ _ _ _.
  unfold crashing, parse_signature, checkSignatureEncoding, checkSigIntegers, hasFlag in *.
  by rewrite Hfl in Hc.
Qed.

Lemma raws_items sigs : map snd (raws sigs) ⊆ pair_items sigs.
Proof. unfold raws, pair_items. induction sigs as [|i sigs IH]; cbn; set_solver. Qed.

Lemma opcodeCheckSafeMultiSig_post op vm :
  limits MaxStackSize vm -> input_ok vm -> pc_ok vm -> cache_ok (sigCache vm) ->
  post (crash_in vm (stk (dstack vm))) ([] ∈ stk (dstack vm))
    (fun vm' => after vm vm' /\ cache_ok (sigCache vm') /\ safe_multisig_effect vm vm')
    (opcodeCheckSafeMultiSig op vm).
Proof.
  intros Hlim Hin Hpc Hc. pose proof Hlim as [(nd & na & Hd & Ha & Hn) (_ & _ & Hsep)].
  pose proof (sok_nonneg _ _ Ha). pose proof Hn as Hn'. unfold MaxStackSize in Hn'.
  unfold opcodeCheckSafeMultiSig.
  eapply post_bind; [apply returns_post; eapply PopInt_ok; [done | lia]|].
  intros [nk s1] (Hnk & Hs1 & Hv1 & _ & n & Hstk1 & Hnn). rewrite (Int32_id nk) by done.
  destruct (_ || _) eqn:Hrange; [done|].
  destruct (MaxOpsPerScript <? _) eqn:Hops; [done|]. cbn [numOps set_numOps] in Hops.
  pose proof (set_numOps_limits vm nk Hlim ltac:(lia) Hops) as Hlim'.
  set (vm1 := set_numOps vm (numOps vm + nk)) in *.
  eapply post_bind; [apply returns_post; eapply pop_hashes_ok; [done | lia]|].
  intros [kh s2] (Hkh & Hs2 & Hv2 & Hstk2).
  eapply post_bind; [apply returns_post; eapply PopInt_ok; [done | lia]|].
  intros [ns s3] (Hns & Hs3 & Hv3 & _ & m & Hstk3 & Hmn). rewrite (Int32_id ns) by done.
  destruct (Z.ltb_spec ns 0); [done|]. destruct (Z.ltb_spec nk ns); [done|].
  eapply post_bind; [apply returns_post; eapply pop_pairs_ok; [done | lia]|].
  intros [sigs s4] (Hsigs & Hfresh & Hs4 & Hv4 & Hstk4).
  assert (stk (dstack vm) = stk s4 ++ reverse (pair_items sigs) ++ [m] ++ reverse kh ++ [n]) as Hstk
    by (rewrite Hstk1, Hstk2, Hstk3, Hstk4, <- !app_assoc; done).
  assert (map snd (raws sigs) ⊆ stk (dstack vm)) as Hsub.
  { rewrite Hstk. intros x Hx%raws_items. apply elem_of_app. right.
    apply elem_of_app. left. by apply elem_of_reverse. }
  eapply post_bind; [apply returns_post; by apply subScript_returns|]. intros script _.
  eapply post_bind.
  { eapply post_weaken; [apply (safe_loop_post vm1 (remove_pairs script sigs) kh)|..]; try done.
    - eapply Forall_impl; [exact Hfresh | intros ?; apply fresh_info_ok].
    - unfold len. lia.
    - constructor.
    - unfold safe_fuel. cbn. lia.
    - by apply crash_in_static.
    - intros He. by apply Hsub. }
  cbv beta. intros [b cache] [Hc' Hb]. destruct (null_fail _ _ _); [done|].
  rewrite drop_0, unmatched_nil in Hb. split; [|split].
  - apply (push_bool_after vm (set_sigCache vm1 cache) s4 _ na b Hlim Hlim' eq_refl Hs4 Ha);
      [unfold MaxStackSize; lia | cbn; congruence].
  - done.
  - exists (stk s4), sigs, m, kh, n, b. split_and!; [done | unfold len; lia.. | done |].
    by rewrite Hb, authorised_static.
Qed.


(** ** OP_CHECKMULTISIG *)

(** A signature of the old kind for the engine's input and a public key. *)
Definition valid_for (vm : Engine) (script : list parsedOpcode) (key sig : bytes) : Prop :=
  exists pre ht p pk h,
    sig = pre ++ [ht] /\ parse_signature vm pre = Ok p /\ ParsePubKey key = Ok pk /\
    calcSignatureHash script ht (vm_tx vm) (txIdx vm) = Ok h /\ Verify p h pk = true.

(** The signatures are valid for some of the keys, in the same order. *)
Inductive in_order (vm : Engine) (script : list parsedOpcode) : list bytes -> list bytes -> Prop :=
  | in_order_nil keys : in_order vm script keys []
  | in_order_skip key keys sigs : in_order vm script keys sigs -> in_order vm script (key :: keys) sigs
  | in_order_take key keys sig sigs :
      valid_for vm script key sig -> in_order vm script keys sigs ->
      in_order vm script (key :: keys) (sig :: sigs).

Lemma in_order_length vm script keys sigs : in_order vm script keys sigs -> len sigs <= len keys.
Proof. induction 1; rewrite ?len_cons; [apply len_nonneg | lia..]. Qed.

Lemma in_order_tail vm script keys sig sigs :
  in_order vm script keys (sig :: sigs) -> in_order vm script keys sigs.
Proof.
  intros Ho. remember (sig :: sigs) as l eqn:Hl. revert sig sigs Hl.
  induction Ho as [|key keys l Ho IH|key keys sig' l Hv Ho IH]; intros sig sigs Hl; [done | |].
  - apply in_order_skip. by eapply IH.
  - injection Hl as -> ->. by apply in_order_skip.
Qed.

(** The first key that fits can be taken. *)
Lemma in_order_greedy vm script key keys sig sigs :
  valid_for vm script key sig ->
  in_order vm script (key :: keys) (sig :: sigs) <-> in_order vm script keys sigs.
Proof.
  intros Hv. split; [|by apply in_order_take].
  intros Ho. inversion Ho as [|? ? ? Ho'|]; subst; [by eapply in_order_tail | done].
Qed.

Lemma in_order_miss vm script key keys sig sigs :
  ~ valid_for vm script key sig ->
  in_order vm script (key :: keys) (sig :: sigs) <-> in_order vm script keys (sig :: sigs).
Proof.
  intros Hv. split; [|by apply in_order_skip]. intros Ho. by inversion Ho.
Qed.

Lemma valid_for_static vm vm' script key sig :
  static vm' = static vm -> valid_for vm' script key sig <-> valid_for vm script key sig.
Proof.
  intros Hst. unfold static in Hst. injection Hst as _ _ _ Htx Hix _ Hfl _ _ _ _ _.
  unfold valid_for, parse_signature, hasFlag. by rewrite Hfl, Htx, Hix.
Qed.

Lemma in_order_static vm vm' script keys sigs :
  static vm' = static vm -> in_order vm' script keys sigs <-> in_order vm script keys sigs.
Proof.
  intros Hst. split; induction 1; constructor; try done; by eapply (valid_for_static vm vm').
Qed.

(** One check of a parsed signature against a key. *)
Lemma check_key vm script key pre ht p pk h cache :
  sig_of vm pre = Some p -> ParsePubKey key = Ok pk ->
  calcSignatureHash script ht (vm_tx vm) (txIdx vm) = Ok h -> length h = 32%nat -> cache_ok cache ->
  ((verify_cached cache h p pk).1 = true <-> valid_for vm script key (pre ++ [ht])) /\
  cache_ok (verify_cached cache h p pk).2.
Proof.
  intros Hp Hk Hh Hl Hc. destruct (verify_cached_correct cache h p pk Hc Hl) as [-> Hc'].
  split; [|done]. assert (parse_signature vm pre = Ok p) as Hps.
  { unfold sig_of in Hp. by destruct (parse_signature vm pre); simplify_eq. }
  split.
  - intros Hv. by exists pre, ht, p, pk, h.
  - intros (pre' & ht' & p' & pk' & h' & Hs' & Hp' & Hk' & Hh' & Hv').
    apply app_inj_tail in Hs' as [<- <-]. congruence.
Qed.

Lemma not_valid_parse vm script key pre ht :
  sig_of vm pre = None -> ~ valid_for vm script key (pre ++ [ht]).
Proof.
  intros Hp (pre' & ht' & p' & pk' & h' & Hs' & Hp' & _).
  apply app_inj_tail in Hs' as [<- <-]. unfold sig_of in Hp. by rewrite Hp' in Hp.
Qed.

(** One attempt of the signature [i] with a key. *)
Lemma attempt_key_post {A} vm script sigs i info key pre ht cache (P F : Prop) (Q : A -> Prop)
    (next retry : list parsedSigInfo -> option SigCache.SigCache -> res ErrorCode A) :
  input_ok vm -> 0 <= i -> sigs !! Z.to_nat i = Some info -> info_signature info = pre ++ [ht] ->
  Forall (info_ok vm) sigs -> cache_ok cache -> (crashing vm pre -> P) ->
  (forall sigs' c, raws sigs' = raws sigs -> Forall (info_ok vm) sigs' -> cache_ok c ->
     valid_for vm script key (info_signature info) -> post P F Q (next sigs' c)) ->
  (forall sigs' c, raws sigs' = raws sigs -> Forall (info_ok vm) sigs' -> cache_ok c ->
     ~ valid_for vm script key (info_signature info) -> post P F Q (retry sigs' c)) ->
  post P F Q
    ('(hashType, signature) ← split_sig (info_signature info);
     '(sigs, parsedSig) ← parse_once vm sigs i info hashType signature;
     match parsedSig with
     | None => retry sigs cache
     | Some p =>
         _ ← checkPubKeyEncoding vm key;
         match ParsePubKey key with
         | Err _ => retry sigs cache
         | Panic => Panic
         | Hang => Hang
         | Ok parsedPubKey =>
             hash ← calcSignatureHash script hashType (vm_tx vm) (txIdx vm);
             let '(valid, cache) := verify_cached cache hash p parsedPubKey in
             if (valid : bool) then next sigs cache else retry sigs cache
         end
     end).
Proof.
  intros Hin Hi Hl Hs Hok Hc Hcrash Hnext Hretry. rewrite Hs in *. rewrite split_sig_snoc. cbn [mbind res_bind].
  eapply post_bind; [eapply post_weaken; [by apply (parse_once_post vm sigs i info ht pre ht) | done | done | by auto]|].
  intros [sigs' psig] (Hraw & Hok' & ->).
  destruct (sig_of vm pre) as [p|] eqn:Hsig; [|by apply Hretry; [..|apply not_valid_parse]].
  eapply post_bind; [apply returns_post, checkPubKeyEncoding_returns|]. intros _ _.
  destruct (ParsePubKey key) as [pk|e| |] eqn:Hpk;
    [|apply Hretry; try done|by apply ParsePubKey_no_panic in Hpk|by apply ParsePubKey_no_hang in Hpk].
  2: { intros (? & ? & ? & ? & ? & _ & _ & Hpk' & _). congruence. }
  pose proof (calcSignatureHash_returns script ht _ _ Hin) as Hr.
  destruct (calcSignatureHash script ht (vm_tx vm) (txIdx vm)) as [h|e| |] eqn:Hh; try done.
  destruct (check_key vm script key pre ht p pk h cache Hsig Hpk Hh Hr Hc) as [Hv Hc'].
  cbn [mbind res_bind]. destruct (verify_cached cache h p pk) as [valid cache']. cbn [fst snd] in *.
  destruct valid; [apply Hnext | apply Hretry]; try done; [by apply Hv|].
  intros Hsg. by apply Hv in Hsg.
Qed.

Lemma multi_loop_post vm script keys :
  input_ok vm -> forall fuel sigs numKeys ki i num cache,
  Forall (info_ok vm) sigs -> 0 <= i -> i + num = len sigs -> -1 <= ki -> numKeys = len keys - ki ->
  1 <= numKeys < Z.of_nat fuel -> cache_ok cache ->
  post (crash_in vm (map snd (raws sigs))) False
    (fun '(b, cache') => cache_ok cache' /\
       (b = true <-> in_order vm script (drop (Z.to_nat (ki + 1)) keys)
                                (map snd (drop (Z.to_nat i) (raws sigs)))))
    (multi_loop fuel vm script keys sigs numKeys ki i num cache).
Proof.
  intros Hin. induction fuel as [|fuel IH]; intros sigs numKeys ki i num cache Hok Hi Hlen Hki Hnk Hf Hc; [lia|].
  cbn [multi_loop]. destruct (Z.leb_spec num 0) as [Hnum|Hnum].
  { cbn [post]. split; [done|]. split; [intros _|done].
    rewrite (drop_ge (raws sigs)) by (unfold raws; rewrite length_map; unfold len in Hlen; lia).
    apply in_order_nil. }
  destruct (current_entry sigs i num Hi Hnum Hlen) as (info & Hx & Hl & Hdrop).
  rewrite Hdrop. cbn [map snd].
  assert (len (drop (Z.to_nat (ki + 1)) keys) = numKeys - 1) as Hkeys
    by (unfold len in *; rewrite length_drop; lia).
  assert (len (map snd (drop (Z.to_nat (i + 1)) (raws sigs))) = num - 1) as Hrest
    by (unfold len, raws in *; rewrite length_map, length_drop, length_map; lia).
  destruct (Z.ltb_spec (numKeys - 1) num) as [Hfew|Hfew].
  { cbn [post]. split; [done|]. split; [done|]. intros Ho%in_order_length. rewrite len_cons in Ho. lia. }
  rewrite Hx. cbn [mbind res_bind].
  destruct (idx_in_range (E := ErrorCode) keys (ki + 1)) as (key & -> & Hkey); [lia|]. cbn [mbind res_bind].
  rewrite (drop_S keys key) by done. replace (S (Z.to_nat (ki + 1))) with (Z.to_nat (ki + 1 + 1)) by lia.
  assert (forall sigs' c, raws sigs' = raws sigs -> Forall (info_ok vm) sigs' -> cache_ok c ->
    ~ valid_for vm script key (info_signature info) ->
    post (crash_in vm (map snd (raws sigs))) False
      (fun '(b, cache') => cache_ok cache' /\
         (b = true <-> in_order vm script (key :: drop (Z.to_nat (ki + 1 + 1)) keys)
            (info_signature info :: map snd (drop (Z.to_nat (i + 1)) (raws sigs)))))
      (multi_loop fuel vm script keys sigs' (numKeys - 1) (ki + 1) i num c)) as Hretry.
  { intros sigs' c Hraw Hok' Hc' Hv. rewrite <- Hraw.
    eapply post_weaken; [apply IH; try done; try lia | done | done |].
    - by rewrite (raws_length sigs sigs' Hraw).
    - intros [b c'] [? Hb]. split; [done|]. rewrite Hb, Hraw, Hdrop. symmetry. by apply in_order_miss. }
  destruct (Z.eqb_spec (len (info_signature info)) 0) as [He|He].
  { apply Hretry; try done. apply len_0 in He. rewrite He. intros (? & ? & ? & ? & ? & Hs & _).
    by destruct x. }
  destruct (nonempty_snoc (info_signature info)) as (pre & ht & Hs); [lia|].
  apply (attempt_key_post vm script sigs i info key pre ht cache _ _ _
    (fun sigs c => multi_loop fuel vm script keys sigs (numKeys - 1) (ki + 1) (i + 1) (num - 1) c)
    (fun sigs c => multi_loop fuel vm script keys sigs (numKeys - 1) (ki + 1) i num c)); try done.
  - intros ?. exists pre, ht. rewrite <- Hs. split; [by eapply raws_signature | done].
  - intros sigs' c Hraw Hok' Hc' Hv. rewrite <- Hraw.
    eapply post_weaken; [apply IH; try done; try lia | done | done |].
    + rewrite (raws_length sigs sigs' Hraw). lia.
    + intros [b c'] [? Hb]. split; [done|]. rewrite Hb. symmetry. by apply in_order_greedy.
Qed.

(** What OP_CHECKMULTISIG finds on the stack and what it leaves. *)
Definition multisig_effect (vm vm' : Engine) : Prop :=
  exists rest dummy sigs m keys n b script,
    stk (dstack vm) = rest ++ [dummy] ++ reverse sigs ++ [m] ++ reverse keys ++ [n] /\
    num_value m = len sigs /\ num_value n = len keys /\
    stk (dstack vm') = rest ++ [fromBool b] /\
    subScript vm = Ok script /\
    (b = true <-> in_order vm (fold_left removeOpcodeByData sigs script) keys sigs).



Lemma fold_left_map_items script items :
  fold_left (fun script i => removeOpcodeByData script (info_signature i))
    (map (fun sig => mkSigInfo [] sig None false) items) script =
  fold_left removeOpcodeByData items script.
Proof. revert script. induction items as [|x items IH]; intros script; cbn; [done | apply IH]. Qed.

Lemma opcodeCheckMultiSig_post op vm :
  limits MaxStackSize vm -> input_ok vm -> pc_ok vm -> cache_ok (sigCache vm) ->
  post (crash_in vm (stk (dstack vm))) False
    (fun vm' => after vm vm' /\ cache_ok (sigCache vm') /\ multisig_effect vm vm')
    (opcodeCheckMultiSig op vm).
Proof.
  intros Hlim Hin Hpc Hc. pose proof Hlim as [(nd & na & Hd & Ha & Hn) (_ & _ & Hsep)].
  pose proof (sok_nonneg _ _ Ha). pose proof Hn as Hn'. unfold MaxStackSize in Hn'.
  unfold opcodeCheckMultiSig.
  eapply post_bind; [apply returns_post; eapply PopInt_ok; [done | lia]|].
  intros [nk s1] (Hnk & Hs1 & Hv1 & _ & n & Hstk1 & Hnn). rewrite (Int32_id nk) by done.
  destruct (Z.ltb_spec nk 0); [done|]. destruct (_ <? nk) eqn:Hrange; [done|].
  destruct (MaxOpsPerScript <? _) eqn:Hops; [done|]. cbn [numOps set_numOps] in Hops.
  pose proof (set_numOps_limits vm nk Hlim ltac:(lia) Hops) as Hlim'.
  set (vm1 := set_numOps vm (numOps vm + nk)) in *.
  eapply post_bind; [apply returns_post; eapply pop_items_ok; [done | lia]|].
  intros [keys s2] (Hkeys & Hs2 & Hv2 & Hstk2).
  eapply post_bind; [apply returns_post; eapply PopInt_ok; [done | lia]|].
  intros [ns s3] (Hns & Hs3 & Hv3 & _ & m & Hstk3 & Hmn). rewrite (Int32_id ns) by done.
  destruct (Z.ltb_spec ns 0); [done|]. destruct (Z.ltb_spec nk ns); [done|].
  eapply post_bind; [apply returns_post; eapply pop_items_ok; [done | lia]|].
  intros [items s4] (Hitems & Hs4 & Hv4 & Hstk4).
  eapply post_bind; [apply returns_post; eapply PopByteArray_ok; [done | lia]|].
  intros [dummy s5] (_ & Hs5 & Hv5 & _ & Hstk5). destruct (_ && _); [done|].
  assert (stk (dstack vm) = stk s5 ++ [dummy] ++ reverse items ++ [m] ++ reverse keys ++ [n]) as Hstk
    by (rewrite Hstk1, Hstk2, Hstk3, Hstk4, Hstk5, <- !app_assoc; done).
  set (sigs := map (fun sig => mkSigInfo [] sig None false) items).
  assert (map snd (raws sigs) = items) as Hraws by (unfold raws, sigs; by rewrite !map_map, map_id).
  destruct (subScript vm1) as [script|e| |] eqn:Hsub;
    [|done|by pose proof (subScript_returns vm1 Hpc Hsep) as Hr; rewrite Hsub in Hr..].
  cbn [mbind res_bind]. eapply post_bind.
  { eapply post_weaken; [apply (multi_loop_post vm1
      (fold_left (fun script i => removeOpcodeByData script (info_signature i)) sigs script) keys)|..]; try done.
    - apply Forall_forall. intros i (x & -> & _)%list_elem_of_fmap. by apply fresh_info_ok.
    - unfold len, sigs. rewrite length_map. lia.
    - unfold len. lia.
    - unfold multi_fuel, len. lia.
    - rewrite Hraws. apply crash_in_static; [done|]. rewrite Hstk. set_solver. }
  cbv beta. intros [b cache] [Hc' Hb]. rewrite !drop_0, Hraws in Hb. split; [|split].
  - apply (push_bool_after vm (set_sigCache vm1 cache) s5 _ na b Hlim Hlim' eq_refl Hs5 Ha);
      [unfold MaxStackSize; lia | cbn; congruence].
  - done.
  - exists (stk s5), dummy, items, m, keys, n, b, script.
    split_and!; [done | unfold len; lia | unfold len; lia | done | done |].
    rewrite Hb, (in_order_static vm vm1), <- fold_left_map_items; done.
Qed.

(** ** OP_CHECKSIG *)

(** What OP_CHECKSIG finds on the stack and what it leaves. *)
Definition checksig_effect (vm vm' : Engine) : Prop :=
  exists rest sig key b script,
    stk (dstack vm) = rest ++ [sig; key] /\ stk (dstack vm') = rest ++ [fromBool b] /\
    subScript vm = Ok script /\
    (b = true <-> valid_for vm (removeOpcodeByData script sig) key sig).

Lemma opcodeCheckSig_post op vm :
  limits MaxStackSize vm -> input_ok vm -> pc_ok vm -> cache_ok (sigCache vm) ->
  post (crash_in vm (stk (dstack vm))) False
    (fun vm' => after vm vm' /\ cache_ok (sigCache vm') /\ checksig_effect vm vm')
    (opcodeCheckSig op vm).
Proof.
  intros Hlim Hi Hpc Hc. pose proof Hlim as [(nd & na & Hd & Ha & Hn) (_ & _ & Hsep)].
  pose proof (sok_nonneg _ _ Ha). unfold opcodeCheckSig. pose proof Hn as Hn'. unfold MaxStackSize in Hn'.
  eapply post_bind; [apply returns_post; eapply PopByteArray_ok; [done | lia]|].
  intros [key s1] (_ & Hs1 & Hv1 & _ & Hstk1).
  eapply post_bind; [apply returns_post; eapply PopByteArray_ok; [done | lia]|].
  intros [full s2] (_ & Hs2 & Hv2 & _ & Hstk2).
  assert (stk (dstack vm) = stk s2 ++ [full; key]) as Hstk by (rewrite Hstk1, Hstk2, <- app_assoc; done).
  destruct (subScript vm) as [script|e| |] eqn:Hsub;
    [|by pose proof (subScript_total vm Hpc Hsep) as (? & ?); congruence..].
  assert (forall c b, cache_ok c -> (b = true <-> valid_for vm (removeOpcodeByData script full) key full) ->
    post (crash_in vm (stk (dstack vm))) False
      (fun vm' => after vm vm' /\ cache_ok (sigCache vm') /\ checksig_effect vm vm')
      (push_bool (set_sigCache vm c) s2 b)) as Hpush.
  { intros c b Hc' Hb. split_and!; [|done|by exists (stk s2), full, key, b, script].
    apply (push_bool_after vm (set_sigCache vm c) s2 _ na b Hlim Hlim eq_refl Hs2 Ha);
      [unfold MaxStackSize; lia | cbn; congruence]. }
  assert (forall b, (b = true <-> valid_for vm (removeOpcodeByData script full) key full) ->
    post (crash_in vm (stk (dstack vm))) False
      (fun vm' => after vm vm' /\ cache_ok (sigCache vm') /\ checksig_effect vm vm')
      (push_bool vm s2 b)) as Hpush'.
  { intros b Hb. pose proof (Hpush (sigCache vm) b Hc Hb) as Hp.
    by assert (set_sigCache vm (sigCache vm) = vm) as Hsame by (by destruct vm); rewrite Hsame in Hp. }
  destruct (Z.ltb_spec (len full) 1) as [Hl|Hl].
  { apply Hpush'. split; [done|]. intros (pre & ht & _ & _ & _ & -> & _).
    rewrite len_app in Hl. change (len [ht]) with 1 in Hl. pose proof (len_nonneg pre). lia. }
  destruct (nonempty_snoc full) as (sig & ht & ->); [lia|].
  pose proof (split_sig_snoc sig ht) as Hsplit. unfold split_sig in Hsplit.
  apply bind_Ok in Hsplit as (ht' & -> & Hsplit). apply bind_Ok in Hsplit as (sig' & -> & Hsplit).
  injection Hsplit as -> ->. cbn [mbind res_bind].
  assert (crashing vm sig -> crash_in vm (stk (dstack vm))) as Hcrash.
  { intros Hcr. exists sig, ht. split; [|done]. rewrite Hstk. set_solver. }
  eapply post_bind; [apply returns_post, checkHashTypeEncoding_returns|]. intros _ _.
  eapply post_bind; [eapply post_weaken; [apply checkSignatureEncoding_post | done | done | done]|]. intros _ _.
  eapply post_bind; [apply returns_post, checkPubKeyEncoding_returns|]. intros _ _. cbn [mbind res_bind].
  pose proof (calcSignatureHash_returns (removeOpcodeByData script (sig ++ [ht])) ht _ _ Hi) as Hr.
  destruct (calcSignatureHash _ ht (vm_tx vm) (txIdx vm)) as [h|e| |] eqn:Hh; try done. cbn [mbind res_bind].
  destruct (ParsePubKey key) as [pk|e| |] eqn:Hpk;
    [| |by apply ParsePubKey_no_panic in Hpk | by apply ParsePubKey_no_hang in Hpk].
  2: { apply Hpush'. split; [done|].
       intros (? & ? & ? & ? & ? & _ & _ & Hpk' & _). congruence. }
  destruct (parse_signature vm sig) as [p|e| |] eqn:Hps;
    [| | by apply Hcrash; right | by apply parse_signature_no_hang in Hps].
  2: { apply Hpush'. split; [done|]. intros Hvf. exfalso. revert Hvf. apply not_valid_parse.
       unfold sig_of. by rewrite Hps. }
  destruct (check_key vm (removeOpcodeByData script (sig ++ [ht])) key sig ht p pk h (sigCache vm)) as [Hv Hc']; try done.
  { unfold sig_of. by rewrite Hps. }
  destruct (verify_cached _ _ _ _) as [valid cache]. cbn [fst snd] in *. destruct (_ && _); [done|].
  by apply Hpush.
Qed.

End cached.

End SigSpec.
