(* ===== verification/Machine.v ===== *)
(** The fetch and execute cycle of the script engine: [executeOpcode], [Step]
    and [Execute] of [src/txscript/engine.go]. *)
From S2P Require Import Prelude PubKey Opcode ScriptNum Stack Wire Crypto Signature.
From S2P Require Import Script ScriptBuilder SigCache Engine Handlers SigOps.
Import btcec Opcode ScriptNum Stack wire Crypto Script Engine Handlers SigOps.
#[local] Open Scope Z_scope.

Module Machine.

Section machine.
Context `{Primitives} `{SigCache.Random}.

(** The function an entry of the opcode table holds. *)
Definition run_opfunc (f : opfunc) : parsedOpcode -> Engine -> res ErrorCode Engine :=
  match f with
  | f_opcodeFalse => opcodeFalse
  | f_opcodePushData => opcodePushData
  | f_opcode1Negate => opcode1Negate
  | f_opcodeReserved => opcodeReserved
  | f_opcodeN => opcodeN
  | f_opcodeNop => opcodeNop
  | f_opcodeIf => opcodeIf
  | f_opcodeNotIf => opcodeNotIf
  | f_opcodeElse => opcodeElse
  | f_opcodeEndif => opcodeEndif
  | f_opcodeVerify => opcodeVerify
  | f_opcodeReturn => opcodeReturn
  | f_opcodeCheckLockTimeVerify => opcodeCheckLockTimeVerify
  | f_opcodeCheckSequenceVerify => opcodeCheckSequenceVerify
  | f_opcodeToAltStack => opcodeToAltStack
  | f_opcodeFromAltStack => opcodeFromAltStack
  | f_opcode2Drop => opcode2Drop
  | f_opcode2Dup => opcode2Dup
  | f_opcode3Dup => opcode3Dup
  | f_opcode2Over => opcode2Over
  | f_opcode2Rot => opcode2Rot
  | f_opcode2Swap => opcode2Swap
  | f_opcodeIfDup => opcodeIfDup
  | f_opcodeDepth => opcodeDepth
  | f_opcodeDrop => opcodeDrop
  | f_opcodeDup => opcodeDup
  | f_opcodeNip => opcodeNip
  | f_opcodeOver => opcodeOver
  | f_opcodePick => opcodePick
  | f_opcodeRoll => opcodeRoll
  | f_opcodeRot => opcodeRot
  | f_opcodeSwap => opcodeSwap
  | f_opcodeTuck => opcodeTuck
  | f_opcodeDisabled => opcodeDisabled
  | f_opcodeSize => opcodeSize
  | f_opcodeEqual => opcodeEqual
  | f_opcodeEqualVerify => opcodeEqualVerify
  | f_opcode1Add => opcode1Add
  | f_opcode1Sub => opcode1Sub
  | f_opcodeNegate => opcodeNegate
  | f_opcodeAbs => opcodeAbs
  | f_opcodeNot => opcodeNot
  | f_opcode0NotEqual => opcode0NotEqual
  | f_opcodeAdd => opcodeAdd
  | f_opcodeSub => opcodeSub
  | f_opcodeBoolAnd => opcodeBoolAnd
  | f_opcodeBoolOr => opcodeBoolOr
  | f_opcodeNumEqual => opcodeNumEqual
  | f_opcodeNumEqualVerify => opcodeNumEqualVerify
  | f_opcodeNumNotEqual => opcodeNumNotEqual
  | f_opcodeLessThan => opcodeLessThan
  | f_opcodeGreaterThan => opcodeGreaterThan
  | f_opcodeLessThanOrEqual => opcodeLessThanOrEqual
  | f_opcodeGreaterThanOrEqual => opcodeGreaterThanOrEqual
  | f_opcodeMin => opcodeMin
  | f_opcodeMax => opcodeMax
  | f_opcodeWithin => opcodeWithin
  | f_opcodeRipemd160 => opcodeRipemd160
  | f_opcodeSha1 => opcodeSha1
  | f_opcodeSha256 => opcodeSha256
  | f_opcodeHash160 => opcodeHash160
  | f_opcodeHash256 => opcodeHash256
  | f_opcodeCodeSeparator => opcodeCodeSeparator
  | f_opcodeCheckSig => opcodeCheckSig
  | f_opcodeCheckSigVerify => opcodeCheckSigVerify
  | f_opcodeCheckMultiSig => opcodeCheckMultiSig
  | f_opcodeCheckMultiSigVerify => opcodeCheckMultiSigVerify
  | f_opcodeCheckSafeMultiSig => opcodeCheckSafeMultiSig
  | f_opcodeInvalid => opcodeInvalid
  end.

(** The operation count, or the size of the element of a push. *)
Definition count_op (vm : Engine) (pop : parsedOpcode) : res ErrorCode Engine :=
  if OP_16 <? pop_value pop then
    let vm := set_numOps vm (numOps vm + 1) in
    if MaxOpsPerScript <? numOps vm then Err ErrTooManyOperations else Ok vm
  else if MaxScriptElementSize <? len (pop_data pop) then Err ErrElementTooBig
  else Ok vm.

Definition executeOpcode (vm : Engine) (pop : parsedOpcode) : res ErrorCode Engine :=
  if isDisabled pop then Err ErrDisabledOpcode
  else if alwaysIllegal pop then Err ErrReservedOpcode
  else
  vm ← count_op vm pop;
  if negb (isBranchExecuting vm) && negb (isConditional pop) then Ok vm
  else
  _ ← (if verifyMinimalData (dstack vm) && isBranchExecuting vm &&
          (0 <=? pop_value pop) && (pop_value pop <=? OP_PUSHDATA4)
       then checkMinimalDataPush pop else Ok ());
  run_opfunc (op_func (pop_opcode pop)) pop vm.

(** The scripts after the one that just ended: a pay-to-script-hash output adds
    the script that the signature script pushed. *)
Definition next_script (vm : Engine) : res ErrorCode Engine :=
  if (scriptIdx vm =? 0) && bip16 vm then
    let vm := set_scriptIdx vm (scriptIdx vm + 1) in
    Ok (set_savedFirstStack vm (GetStack vm))
  else if (scriptIdx vm =? 1) && bip16 vm then
    let vm := set_scriptIdx vm (scriptIdx vm + 1) in
    vm ← CheckErrorCondition vm false;
    let saved := savedFirstStack vm in
    script ← idx saved (len saved - 1);
    pops ← ParseScript script;
    let vm := set_scripts vm (scripts vm ++ [pops]) in
    rest ← slice saved 0 (len saved - 1);
    SetStack vm rest
  else Ok (set_scriptIdx vm (scriptIdx vm + 1)).

(** The end of a script. *)
Definition end_script (vm : Engine) : res ErrorCode (bool * Engine) :=
  if negb (len (condStack vm) =? 0) then Err ErrUnbalancedConditional
  else
  a ← drop_all (astack vm);
  let vm := set_scriptOff (set_numOps (set_astack vm a) 0) 0 in
  vm ← next_script vm;
  skip ← (if scriptIdx vm <? len (scripts vm) then
            script ← idx (scripts vm) (scriptIdx vm);
            Ok (len script <=? scriptOff vm)
          else Ok false);
  let vm := if (skip : bool) then set_scriptIdx vm (scriptIdx vm + 1) else vm in
  let vm := set_lastCodeSep vm 0 in
  Ok (len (scripts vm) <=? scriptIdx vm, vm).

(** One instruction; the boolean says that the last one was executed. *)
Definition Step (vm : Engine) : res ErrorCode (bool * Engine) :=
  _ ← validPC vm;
  script ← idx (scripts vm) (scriptIdx vm);
  pop ← idx script (scriptOff vm);
  vm ← executeOpcode vm pop;
  let combinedStackSize := i32 (Depth (dstack vm) + Depth (astack vm)) in
  if MaxStackSize <? combinedStackSize then Err ErrStackOverflow
  else
  let vm := set_scriptOff vm (scriptOff vm + 1) in
  script ← idx (scripts vm) (scriptIdx vm);
  if len script <=? scriptOff vm then end_script vm else Ok (false, vm).

Fixpoint execute_loop (fuel : nat) (vm : Engine) : res ErrorCode Engine :=
  match fuel with
  | O => Hang
  | S fuel =>
      '(done, vm) ← Step vm;
      if (done : bool) then Ok vm else execute_loop fuel vm
  end.

(** The number of opcodes of the scripts, and of one more that a
    pay-to-script-hash output can add. *)
Definition execute_fuel (vm : Engine) : nat :=
  S (sum_list (map length (scripts vm)) + Z.to_nat MaxScriptElementSize).

Definition Execute (vm : Engine) : res ErrorCode unit :=
  vm ← execute_loop (execute_fuel vm) vm;
  _ ← CheckErrorCondition vm true;
  Ok ().

End machine.

End Machine.
