(* ===== verification/MachineSpec.v ===== *)
(** The script engine as a whole: the limits that hold after every step, the
    outcomes an execution can have, and its termination. *)
From S2P Require Import Prelude PubKey Opcode ScriptNum Stack Wire Crypto Signature Script.
From S2P Require Import ScriptBuilder SigCache Engine StackSpec Handlers HandlerSpec SigOps SigSpec Machine.
Import btcec Opcode ScriptNum Stack wire Crypto Sig Script Engine StackSpec Handlers HandlerSpec.
Import SigOps SigSpec Machine.
#[local] Open Scope Z_scope.

Module MachineSpec.

(** The handlers that check signatures. *)
Definition checks_sig (f : opfunc) : bool :=
  match f with
  | f_opcodeCheckSig | f_opcodeCheckSigVerify | f_opcodeCheckMultiSig | f_opcodeCheckMultiSigVerify
  | f_opcodeCheckSafeMultiSig => true
  | _ => false
  end.

Section machine.
Context `{Primitives} `{SigCache.Random}.

(** * One opcode *)

(** The engine before an opcode is executed. *)
Definition ready (vm : Engine) : Prop :=
  limits MaxStackSize vm /\ input_ok vm /\ pc_ok vm /\ cache_ok (sigCache vm).

Definition panics (f : opfunc) (vm : Engine) : Prop :=
  checks_sig f = true /\ crash_in vm (stk (dstack vm)).

Definition hangs (f : opfunc) (vm : Engine) : Prop :=
  f = f_opcodeCheckSafeMultiSig /\ [] ∈ stk (dstack vm).

Lemma quiet_post P F vm (m : res ErrorCode Engine) :
  cache_ok (sigCache vm) -> returns (quiet vm) m ->
  post P F (fun vm' => after vm vm' /\ cache_ok (sigCache vm')) m.
Proof.
  intros Hc Hm. apply returns_post. eapply post_weaken; [exact Hm | tauto..|].
  intros vm' [Ha He]. split; [done | congruence].
Qed.

Lemma verify_cache_post P F vm op c (m : res ErrorCode Engine) :
  post P F (fun vm' => after vm vm' /\ cache_ok (sigCache vm')) m ->
  post P F (fun vm' => after vm vm' /\ cache_ok (sigCache vm')) (vm' ← m; abstractVerify op vm' c).
Proof.
  intros Hm. eapply post_weaken; [apply (verify_after P F vm) | tauto..|].
  - eapply post_weaken; [exact Hm | tauto..|]. by intros ? [? _].
  - cbv beta. intros vm2 [? (vm1 & -> & ?)]. destruct Hm as [_ ?]. split; [done | congruence].
Qed.

Lemma int64_i64 v : - 2 ^ 62 < v < 2 ^ 62 -> - 2 ^ 63 < i64 v < 2 ^ 63.
Proof. intros Hv. rewrite wraps_small by (unfold is_s; lia). lia. Qed.

Lemma bool_num_int64 b : - 2 ^ 63 < bool_num b < 2 ^ 63.
Proof. destruct b; cbn; lia. Qed.

Lemma item_digest n b : bytes_ok b -> length b = n -> (n <= 32)%nat -> item_ok b.
Proof. intros Hok Hl Hn. split; [done|]. unfold len, MaxScriptElementSize. lia. Qed.

Lemma item_ripemd160 b : item_ok (ripemd160 b).
Proof. apply (item_digest 20); [apply ripemd160_ok | apply ripemd160_length | lia]. Qed.
Lemma item_sha1 b : item_ok (sha1 b).
Proof. apply (item_digest 20); [apply sha1_ok | apply sha1_length | lia]. Qed.
Lemma item_sha256 b : item_ok (sha256 b).
Proof. apply (item_digest 32); [apply sha256_ok | apply sha256_length | lia]. Qed.

(** A handler reduced to the shape it shares with others, and the lemma of that
    shape or of the handler. *)
Ltac unfold_handler :=
  cbv [opcodeFalse opcodePushData opcode1Negate opcodeN opcodeVerify opcode2Drop opcode2Dup opcode3Dup
       opcode2Over opcode2Rot opcode2Swap opcodeDrop opcodeDup opcodeNip opcodeOver opcodeRot opcodeSwap
       opcodeTuck opcodeEqualVerify opcode1Add opcode1Sub opcodeNegate opcodeAbs opcodeNot
       opcode0NotEqual opcodeAdd opcodeSub opcodeBoolAnd opcodeBoolOr opcodeNumEqualVerify opcodeNumEqual
       opcodeNumNotEqual opcodeLessThan opcodeGreaterThan opcodeLessThanOrEqual
       opcodeGreaterThanOrEqual opcodeMin opcodeMax opcodeRipemd160 opcodeSha1 opcodeSha256 opcodeHash160
       opcodeHash256 opcodeCheckSigVerify opcodeCheckMultiSigVerify].

Ltac handler_lemma :=
  lazymatch goal with
  | |- post _ _ _ (mbind _ _) => apply verify_quiet; handler_lemma
  | |- post _ _ _ (Ok (set_dstack _ _)) => apply push_after
  | |- post _ _ _ (on_dstack _ (PushInt _ _)) => apply push_num_after
  | |- post _ _ _ (on_dstack _ (DropN _ _)) => apply DropN_after
  | |- post _ _ _ (on_dstack _ (DupN _ _)) => apply DupN_after
  | |- post _ _ _ (on_dstack _ (OverN _ _)) => apply OverN_after
  | |- post _ _ _ (on_dstack _ (RotN _ _)) => apply RotN_after
  | |- post _ _ _ (on_dstack _ (SwapN _ _)) => apply SwapN_after
  | |- post _ _ _ (on_dstack _ (NipN _ _)) => apply NipN_after
  | |- post _ _ _ (on_dstack _ (Tuck _)) => apply Tuck_after
  | |- post _ _ _ (unary _ _) => apply unary_after
  | |- post _ _ _ (binary _ _) => apply binary_after
  | |- post _ _ _ (hashing _ _) => apply hashing_after
  | |- post _ _ _ (abstractVerify _ _ _) => idtac
  | |- post _ _ _ (opcodeIf _ _) => apply opcodeIf_after
  | |- post _ _ _ (opcodeNotIf _ _) => apply opcodeNotIf_after
  | |- post _ _ _ (opcodeElse _ _) => apply opcodeElse_after
  | |- post _ _ _ (opcodeEndif _ _) => apply opcodeEndif_after
  | |- post _ _ _ (opcodeCheckLockTimeVerify _ _) => apply opcodeCheckLockTimeVerify_after
  | |- post _ _ _ (opcodeCheckSequenceVerify _ _) => apply opcodeCheckSequenceVerify_after
  | |- post _ _ _ (opcodeToAltStack _ _) => apply opcodeToAltStack_after
  | |- post _ _ _ (opcodeFromAltStack _ _) => apply opcodeFromAltStack_after
  | |- post _ _ _ (opcodeIfDup _ _) => apply opcodeIfDup_after
  | |- post _ _ _ (opcodeDepth _ _) => apply opcodeDepth_after
  | |- post _ _ _ (opcodeSize _ _) => apply opcodeSize_after
  | |- post _ _ _ (opcodePick _ _) => apply opcodePick_after
  | |- post _ _ _ (opcodeRoll _ _) => apply opcodeRoll_after
  | |- post _ _ _ (opcodeEqual _ _) => apply opcodeEqual_after
  | |- post _ _ _ (opcodeWithin _ _) => apply opcodeWithin_after
  | _ => idtac
  end.

(** The bound of a number that a handler computes. *)
Ltac num_bound :=
  intros; repeat case_match;
  lazymatch goal with
  | |- _ < i64 _ < _ => apply int64_i64; lia
  | |- _ < bool_num _ < _ => apply bool_num_int64
  | |- _ < u8 _ < _ => apply u8_int64
  | _ => lia
  end.

(** A handler that checks no signature. *)
Lemma run_opfunc_quiet f op vm :
  ready vm -> checks_sig f = false -> (f = f_opcodePushData -> item_ok (pop_data op)) ->
  returns (quiet vm) (run_opfunc f op vm).
Proof.
  intros (Hl & Hi & Hpc & Hc) Hf Hdata. pose proof (keep vm Hl) as Hkeep.
  destruct f; try discriminate Hf; cbn [run_opfunc]; unfold_handler; handler_lemma;
    try exact Hl; try exact Hi; try exact I; try solve [num_bound];
    try (intros b; solve [apply item_ripemd160 | apply item_sha1 | apply item_sha256]).
  - split; [constructor | done].
  - by apply Hdata.
  - unfold opcodeNop. by destruct (_ && _).
  - eapply post_weaken; [apply (abstractVerify_limits MaxStackSize); [unfold MaxStackSize; lia | done] | tauto..|].
    cbv beta. intros vm' (Hl' & ? & ?). split; [split; [|done]|done].
    destruct Hl' as [(nd & na & ? & ? & ?) ?]. split; [|done]. exists nd, na. split_and!; (done || lia).
  - cbn. destruct Hkeep as [[Hl' _] _]. split; [|done]. split; [|done]. destruct Hl' as (? & ? & ? & ?).
    destruct Hpc as (_ & ? & _). split_and!; cbn; (done || lia).
Qed.

(** Every handler keeps the limits; only the signature handlers can panic and
    only OP_CHECKSAFEMULTISIG can run forever. *)
Lemma run_opfunc_post f op vm :
  ready vm -> (f = f_opcodePushData -> item_ok (pop_data op)) ->
  post (panics f vm) (hangs f vm) (fun vm' => after vm vm' /\ cache_ok (sigCache vm')) (run_opfunc f op vm).
Proof.
  intros Hr Hdata. destruct (checks_sig f) eqn:Hf.
  2: { apply quiet_post; [apply Hr | by apply run_opfunc_quiet]. }
  destruct Hr as (Hl & Hi & Hpc & Hc). unfold panics, hangs.
  destruct f; try discriminate Hf; cbn [run_opfunc]; unfold_handler; try apply verify_cache_post;
    (eapply post_weaken; [first [by apply opcodeCheckSig_post | by apply opcodeCheckMultiSig_post
                                | by apply opcodeCheckSafeMultiSig_post] | try tauto..]);
    by intros ? (? & ? & _).
Qed.

(** A byte that codes a push is not counted as an operation. *)
Lemma push_value b :
  is_byte b -> op_func (opcodeArray b) = f_opcodePushData -> b <= OP_16.
Proof.
  intros Hb Hf. pose proof (opcodeArray_forall
    (fun b o => (b <=? OP_16) || negb (bool_decide (op_func o = f_opcodePushData)))
    eq_refl b Hb) as Hall. cbv beta in Hall. rewrite Hf in Hall.
  rewrite (bool_decide_true (f_opcodePushData = f_opcodePushData) eq_refl), orb_false_r in Hall. lia.
Qed.

Lemma checkMinimalDataPush_returns pop : returns (fun _ => True) (checkMinimalDataPush pop).
Proof. unfold checkMinimalDataPush. repeat case_match; done. Qed.

Lemma count_op_post vm pop :
  ready vm -> wf_pop pop ->
  returns (fun vm' => ready vm' /\ static vm' = static vm /\ dstack vm' = dstack vm /\
             condStack vm' = condStack vm /\
             (op_func (pop_opcode pop) = f_opcodePushData -> item_ok (pop_data pop))) (count_op vm pop).
Proof.
  intros Hr (b & Hb & Hop & Hok & _). pose proof Hr as ((Hs & Hn & Hc & Hl) & Hi & Hpc & Hcache).
  unfold count_op, pop_value. rewrite Hop, opcodeArray_value by done.
  destruct (Z.ltb_spec OP_16 b) as [Hv|Hv].
  - destruct (Z.ltb_spec MaxOpsPerScript (numOps (set_numOps vm (numOps vm + 1)))) as [|Hm]; [done|].
    cbn [post]. split_and!; [|done..|].
    + split; [|done]. split; [done|]. split; [|done]. cbn in *. lia.
    + intros Hf. apply push_value in Hf; [lia | done].
  - destruct (Z.ltb_spec MaxScriptElementSize (len (pop_data pop))); [done|].
    cbn [post]. split_and!; done.
Qed.

Lemma executeOpcode_post vm pop :
  ready vm -> wf_pop pop ->
  let f := op_func (pop_opcode pop) in
  post (panics f vm) (hangs f vm) (fun vm' => after vm vm' /\ cache_ok (sigCache vm')) (executeOpcode vm pop).
Proof.
  intros Hr Hwf f. unfold executeOpcode. destruct (isDisabled pop); [done|].
  destruct (alwaysIllegal pop); [done|].
  eapply post_bind; [apply returns_post, count_op_post; done|]. cbv beta.
  intros vm1 (Hr1 & Hst & Hd & _ & Hitem).
  destruct (_ && _).
  { cbn [post]. split; [|apply Hr1]. split; [|done]. by apply (keep vm1 (proj1 Hr1)). }
  eapply (post_bind _ _ (fun _ => True)).
  { apply returns_post. destruct (_ && _); [apply checkMinimalDataPush_returns | done]. }
  intros _ _. eapply post_weaken; [by apply run_opfunc_post| | |].
  - intros [Hf Hcr]. split; [done|]. rewrite Hd in Hcr. by apply (crash_in_static vm vm1 (stk (dstack vm)) (stk (dstack vm)) Hst).
  - intros [Hf Hcr]. split; [done|]. by rewrite Hd in Hcr.
  - cbv beta. intros vm2 [[Hl2 Hs2] Hc2]. split; [split; [done | congruence] | done].
Qed.

(** OP_HASH160 needs an item. *)
Lemma executeOpcode_hash160 vm pop vm' :
  ready vm -> wf_pop pop -> pop_value pop = OP_HASH160 -> condStack vm = [] ->
  executeOpcode vm pop = Ok vm' -> stk (dstack vm) <> [].
Proof.
  intros Hr Hwf Hv Hc Hex Hnil. unfold executeOpcode in Hex. destruct (isDisabled pop); [done|].
  destruct (alwaysIllegal pop); [done|]. pose proof (count_op_post vm pop Hr Hwf) as Hcount.
  apply bind_Ok in Hex as (vm1 & Hco & Hex). rewrite Hco in Hcount. destruct Hcount as (_ & _ & Hd & Hcs & _).
  unfold isBranchExecuting in Hex. rewrite Hcs, Hc in Hex. cbn [negb andb] in Hex.
  apply bind_Ok in Hex as (_ & _ & Hrun).
  destruct Hwf as (b & Hb & Hop & _). unfold pop_value in Hv. rewrite Hop, opcodeArray_value in Hv by done.
  rewrite Hop, Hv in Hrun. change (hashing (fun b => ripemd160 (sha256 b)) vm1 = Ok vm') in Hrun. unfold hashing in Hrun.
  rewrite Hd in Hrun. destruct (dstack vm) as [st md]. cbn in Hnil. subst st. done.
Qed.

(** * Saving and restoring the stack *)
Lemma getStack_stk n s : sok n s -> n < 2 ^ 31 -> getStack s = stk s.
Proof.
  intros Hs Hn. unfold getStack. rewrite (sok_Depth n) by done. destruct Hs as [_ <-].
  assert (forall suf pre, stk s = pre ++ suf ->
    map (fun i => match PeekByteArray s i with Ok b => b | _ => [] end) (seqZ 0 (len suf)) = reverse suf) as Hmap.
  { induction suf as [|x suf IH]; intros pre Hpre; [done|].
    rewrite len_cons. replace (1 + len suf) with (Z.of_nat (length suf) + 1) by (unfold len; lia).
    rewrite seqZ_app by lia. change (Z.of_nat (length suf)) with (len suf).
    rewrite map_app, (IH (pre ++ [x])) by (by rewrite <- app_assoc).
    replace (seqZ (0 + len suf) 1) with [len suf] by (unfold seqZ; cbn; f_equal; lia). cbn [map].
    rewrite (PeekByteArray_middle s pre x suf) by (done || unfold small; lia).
    by rewrite reverse_cons. }
  rewrite (Hmap (stk s) []) by done. apply reverse_involutive.
Qed.

Lemma drop_all_nil n s : sok n s -> n < 2 ^ 31 -> drop_all s = Ok (set_stk s []).
Proof.
  intros Hs Hn. unfold drop_all. rewrite (sok_Depth n) by done. unfold DropN.
  destruct Hs as [Hf Hl]. destruct (Z.ltb_spec n 1) as [H1|H1].
  - assert (stk s = []) as Hnil by (apply length_zero_iff_nil; unfold len in Hl; lia).
    destruct s as [st md]. cbn in *. by subst st.
  - rewrite <- Hl. unfold len. rewrite Nat2Z.id.
    rewrite (drop_loop_spec (stk s) s []) by (done || unfold small; lia). done.
Qed.

Lemma push_all_ok data n s :
  sok n s -> Forall item_ok data -> sok (n + len data) (fold_left PushByteArray data s).
Proof.
  intros Hs Hd. revert n s Hs. induction Hd as [|x data Hx _ IH]; intros n s Hs; cbn [fold_left].
  - change (len []) with 0. by rewrite Z.add_0_r.
  - rewrite len_cons, Z.add_assoc. apply IH. by apply push_ok.
Qed.

Lemma setStack_ok n s data :
  sok n s -> n < 2 ^ 31 -> Forall item_ok data -> returns (sok (len data)) (setStack s data).
Proof.
  intros Hs Hn Hd. unfold setStack. rewrite (drop_all_nil n) by done. cbn [mbind res_bind post].
  replace (len data) with (0 + len data) by lia. apply push_all_ok; [|done]. split; [constructor | done].
Qed.

(** * The invariant of an execution *)

(** What holds at every point of [Step]. *)
Definition core (vm : Engine) : Prop :=
  stacks_ok MaxStackSize vm /\ input_ok vm /\ cache_ok (sigCache vm) /\
  Forall (Forall wf_pop) (scripts vm) /\
  Forall item_ok (savedFirstStack vm) /\ len (savedFirstStack vm) <= MaxStackSize.

(** The two scripts, and a third one once a pay-to-script-hash output ended. *)
Definition two_or_three (vm : Engine) : Prop :=
  len (scripts vm) = 2 \/ (len (scripts vm) = 3 /\ 2 <= scriptIdx vm).

(** A pay-to-script-hash execution: the saved stack is the one the signature
    script left, and is not empty once OP_HASH160 succeeded. *)
Definition p2sh_ok (first : bool) (vm : Engine) : Prop :=
  bip16 vm = true -> 2 <= scriptIdx vm \/
  exists s0 s1, scripts vm = [s0; s1] /\ isScriptHash s1 = true /\
    (scriptIdx vm = 0 \/
     (scriptIdx vm = 1 /\ if first then stk (dstack vm) = savedFirstStack vm
                          else savedFirstStack vm <> [])).

Definition inv (vm : Engine) : Prop :=
  core vm /\ ready vm /\ two_or_three vm /\ (scriptOff vm = 0 -> condStack vm = []) /\
  p2sh_ok (scriptOff vm =? 0) vm.

(** The opcodes of the scripts from the current one on, with those that a
    pay-to-script-hash output can still add. *)
Definition remaining (vm : Engine) : Z :=
  len (concat (drop (Z.to_nat (scriptIdx vm)) (scripts vm))) +
  (if bip16 vm && (scriptIdx vm <? 2) then MaxScriptElementSize else 0).

Definition measure (vm : Engine) : Z := remaining vm - scriptOff vm.

Lemma remaining_next vm script :
  0 <= scriptIdx vm -> scripts vm !! Z.to_nat (scriptIdx vm) = Some script ->
  remaining (set_scriptIdx vm (scriptIdx vm + 1)) + len script <= remaining vm.
Proof.
  intros Hi Hs. unfold remaining. rewrite (drop_S _ _ _ Hs). cbn [concat]. rewrite len_app. cbn.
  replace (Z.to_nat (scriptIdx vm + 1)) with (S (Z.to_nat (scriptIdx vm))) by lia.
  unfold MaxScriptElementSize. destruct (bip16 vm), (Z.ltb_spec (scriptIdx vm) 2), (Z.ltb_spec (scriptIdx vm + 1) 2); cbn [andb]; lia.
Qed.

Lemma CheckErrorCondition_ok nd na vm b :
  sok nd (dstack vm) -> sok na (astack vm) -> nd < 2 ^ 31 ->
  returns (fun vm' => exists s, vm' = set_dstack vm s /\ sok (nd - 1) s) (CheckErrorCondition vm b).
Proof.
  intros Hd Ha Hn. unfold CheckErrorCondition. destruct (_ <? _); [done|].
  destruct (_ && _ && _); [done|]. destruct (_ <? 1); [done|].
  eapply post_bind; [by eapply PopBool_ok|]. intros [v s] (Hs & _). destruct v; [|done].
  cbn [post]. by exists s.
Qed.

(** The state after the script that just ended. *)
Definition moved (vm : Engine) (script : list parsedOpcode) (vm' : Engine) : Prop :=
  core vm' /\ two_or_three vm' /\ p2sh_ok true vm' /\ 1 <= scriptIdx vm' /\
  (numOps vm', condStack vm', scriptOff vm') = (numOps vm, condStack vm, scriptOff vm) /\
  remaining vm' + len script <= remaining vm.

(** The redeem script pushed by the signature script. *)
Lemma redeem_script_post vm script :
  core vm -> sok 0 (astack vm) -> scriptIdx vm = 1 -> bip16 vm = true -> p2sh_ok false vm ->
  scripts vm !! 1%nat = Some script -> returns (moved vm script) (next_script vm).
Proof.
  intros ((nd & na & Hd & Ha' & Hn) & Hi & Hc & Hwf & Hsv & Hsl) Ha Hidx Hb Hp Hs.
  assert (na = 0) as -> by (destruct Ha as [_ <-]; by destruct Ha' as [_ ->]).
  pose proof (sok_nonneg _ _ Ha). pose proof (sok_nonneg _ _ Hd). unfold MaxStackSize in *.
  destruct (Hp Hb) as [?|(s0 & s1 & Hscr & Hsh & [?|(_ & Hne)])]; [lia.. |].
  unfold next_script. rewrite Hidx, Hb. cbn [Z.eqb Pos.eqb andb].
  eapply post_bind; [apply (CheckErrorCondition_ok nd 0); [done | done | lia]|].
  cbv beta. intros ? (s & -> & Hs'). cbn [savedFirstStack set_dstack set_scriptIdx].
  destruct (exists_last Hne) as (pre & redeem & Hsave). rewrite Hsave in Hsv, Hsl |- *.
  apply Forall_app in Hsv as [Hpre Hred]. apply Forall_cons_1 in Hred as [[Hrok Hrlen] _].
  rewrite len_app in Hsl. change (len [redeem]) with 1 in Hsl. pose proof (len_nonneg pre).
  rewrite idx_last. cbn [mbind res_bind].
  eapply post_bind; [by apply ParseScript_wf|]. cbv beta. intros pops (Hpw & _ & Hpl).
  rewrite slice_init.
  cbn [mbind res_bind]. unfold SetStack.
  eapply post_bind; [eapply setStack_ok; [exact Hs' | lia | done]|]. intros s' Hs2. cbn [post].
  rewrite Hscr in Hs, Hwf. cbn in Hs. injection Hs as <-.
  split; [|split_and!].
  - split_and!; [|done | done | | |]; cbn.
    + exists (len pre), 0. split_and!; [done | done | unfold MaxStackSize; lia].
    + rewrite Hscr. apply Forall_app. split; [done | by constructor].
    + rewrite Hsave. apply Forall_app. split; [done | by constructor].
    + rewrite Hsave, len_app. change (len [redeem]) with 1. unfold MaxStackSize. lia.
  - right. cbn. rewrite Hscr. split; [done | lia].
  - intros _. left. cbn. lia.
  - cbn. lia.
  - done.
  - unfold remaining. cbn. rewrite Hscr, Hb, Hidx.
    change (Z.to_nat (1 + 1)) with 2%nat. change (Z.to_nat 1) with 1%nat. change (1 + 1 <? 2) with false.
    cbn [app drop concat]. rewrite !app_nil_r. change (1 <? 2) with true. cbn [andb].
    unfold MaxScriptElementSize, len in *. lia.
Qed.

Lemma save_stack_post vm script :
  core vm -> two_or_three vm -> scriptIdx vm = 0 -> bip16 vm = true -> p2sh_ok false vm ->
  scripts vm !! Z.to_nat (scriptIdx vm) = Some script -> returns (moved vm script) (next_script vm).
Proof.
  intros (Hst & Hi & Hc & Hwf & _) H23 Hidx Hb Hp Hs. unfold next_script.
  rewrite Hb, (proj2 (Z.eqb_eq _ _) Hidx). cbn [andb post].
  pose proof Hst as (nd & na & Hd & Ha & Hn). pose proof (sok_nonneg _ _ Ha).
  assert (GetStack (set_scriptIdx vm (scriptIdx vm + 1)) = stk (dstack vm)) as ->.
  { apply (getStack_stk nd); [done | unfold MaxStackSize in Hn; lia]. }
  split_and!.
  - split_and!; [done..| |]; cbn; [apply Hd | destruct Hd as [_ ->]; lia].
  - destruct H23 as [?|[_ ?]]; [by left | lia].
  - intros _. right. destruct (Hp Hb) as [?|(s0 & s1 & Hscr & Hsh & _)]; [lia|].
    exists s0, s1. split_and!; [done..|]. right. cbn. split; [lia | done].
  - cbn. lia.
  - done.
  - apply (remaining_next vm); [lia | done].
Qed.

Lemma next_script_post vm script :
  core vm -> sok 0 (astack vm) -> two_or_three vm -> 0 <= scriptIdx vm -> p2sh_ok false vm ->
  scripts vm !! Z.to_nat (scriptIdx vm) = Some script -> returns (moved vm script) (next_script vm).
Proof.
  intros Hcore Ha H23 Hi Hp Hs.
  destruct (decide (bip16 vm = true /\ scriptIdx vm = 0)) as [[Hb H0']|Hn0]; [by apply save_stack_post|].
  destruct (decide (bip16 vm = true /\ scriptIdx vm = 1)) as [[Hb H1]|Hn1].
  { rewrite H1 in Hs. by apply redeem_script_post. }
  unfold next_script.
  destruct (bip16 vm) eqn:Hb, (Z.eqb_spec (scriptIdx vm) 0), (Z.eqb_spec (scriptIdx vm) 1); try tauto;
    cbn [andb post]; (split_and!; [done | | | cbn; lia | done | by apply remaining_next]).
  all: try (destruct H23 as [?|[? ?]]; [by left | right; cbn; lia]).
  all: try (intros Hb'; cbn in Hb'; congruence).
  intros _. destruct (Hp Hb) as [?|(s0 & s1 & _ & _ & [?|[? _]])]; [left; cbn; lia | tauto..].
Qed.

(** An empty script is skipped; it can only be the last one. *)
Lemma skip_empty_post vm :
  core vm -> two_or_three vm -> p2sh_ok true vm -> 1 <= scriptIdx vm ->
  (numOps vm, condStack vm, scriptOff vm) = (0, [], 0) ->
  returns (fun '(over, vm') => core vm' /\ (over = false -> inv vm' /\ measure vm' <= remaining vm))
    (skip ← (if scriptIdx vm <? len (scripts vm) then
               script ← idx (scripts vm) (scriptIdx vm);
               Ok (len script <=? scriptOff vm)
             else Ok (E := ErrorCode) false);
     let vm := if (skip : bool) then set_scriptIdx vm (scriptIdx vm + 1) else vm in
     let vm := set_lastCodeSep vm 0 in
     Ok (len (scripts vm) <=? scriptIdx vm, vm)).
Proof.
  intros Hcore H23 Hp Hi Heq. injection Heq as Hno Hcd Hoff.
  destruct (Z.ltb_spec (scriptIdx vm) (len (scripts vm))) as [Hlt|Hge].
  2: { cbn [mbind res_bind post]. split; [done|]. cbn. lia. }
  destruct (idx_in_range (E := ErrorCode) (scripts vm) (scriptIdx vm)) as (script & -> & Hs); [lia|].
  cbn [mbind res_bind]. rewrite Hoff. destruct (Z.leb_spec (len script) 0) as [He|He]; cbn [post].
  { split; [done|]. cbn. destruct H23 as [?|[? ?]]; lia. }
  split; [done|]. intros _. pose proof Hcore as (Hst & Hin & Hca & _).
  split; [|change (remaining vm - scriptOff vm <= remaining vm); lia].
  split_and!; [done | | done | done | ].
  - split_and!; [|done | | done].
    + split_and!; cbn; rewrite ?Hno, ?Hcd, ?Hoff; unfold MaxOpsPerScript; (done || lia).
    + split_and!; [cbn; lia.. |]. exists script. split; [done | cbn; lia].
  - cbn [scriptOff set_lastCodeSep]. by rewrite Hoff.
Qed.

(** The end of a script: the next one starts, or the execution is over. *)
Lemma end_script_post vm script :
  core vm -> two_or_three vm -> 0 <= scriptIdx vm -> p2sh_ok false vm ->
  scripts vm !! Z.to_nat (scriptIdx vm) = Some script ->
  returns (fun '(over, vm') => core vm' /\
             (over = false -> inv vm' /\ measure vm' + len script <= remaining vm)) (end_script vm).
Proof.
  intros Hcore H23 Hi Hp Hs. unfold end_script.
  destruct (Z.eqb_spec (len (condStack vm)) 0) as [Hc|]; [|done]. cbn [negb].
  assert (condStack vm = []) as Hcs by (apply length_zero_iff_nil; unfold len in Hc; lia).
  pose proof Hcore as ((nd & na & Hd & Ha & Hn) & Hin & Hca & Hwf & Hsv).
  pose proof (sok_nonneg _ _ Hd). unfold MaxStackSize in Hn.
  rewrite (drop_all_nil na) by (done || lia). cbn [mbind res_bind].
  eapply post_bind; [apply (next_script_post _ script)|].
  - split; [|done]. exists nd, 0. split_and!; [done | by split; [constructor|] | unfold MaxStackSize].
    pose proof (sok_nonneg _ _ Ha). lia.
  - by split; [constructor|].
  - done.
  - done.
  - done.
  - done.
  - cbv beta. intros vm1 (Hco & H23' & Hp' & Hi' & Heq & Hrem). cbn in Heq.
    rewrite Hcs in Heq.
    eapply post_weaken; [apply skip_empty_post; done | tauto.. |].
    intros [over vm'] [Hco' Hover]. split; [done|]. intros Ho. destruct (Hover Ho) as [? ?].
    split; [done|]. unfold remaining in Hrem at 2. cbn in Hrem. fold (remaining vm) in Hrem. lia.
Qed.

(** * One step *)

(** The opcode that a step executes. *)
Definition at_pc (vm : Engine) (pop : parsedOpcode) : Prop :=
  exists script, scripts vm !! Z.to_nat (scriptIdx vm) = Some script /\
                 script !! Z.to_nat (scriptOff vm) = Some pop.

Definition step_panics (vm : Engine) : Prop :=
  exists pop, at_pc vm pop /\ panics (op_func (pop_opcode pop)) vm.

Definition step_hangs (vm : Engine) : Prop :=
  exists pop, at_pc vm pop /\ hangs (op_func (pop_opcode pop)) vm.

Lemma validPC_returns vm : pc_ok vm -> validPC vm = Ok ().
Proof.
  intros (Hi & Ho & script & Hs & Hl). unfold validPC.
  pose proof (lookup_lt_Some _ _ _ Hs). replace (len (scripts vm) <=? scriptIdx vm) with false by (unfold len; lia).
  rewrite (proj2 (idx_Ok (E := ErrorCode) _ _ _) (conj Hi Hs)). cbn [mbind res_bind].
  by replace (len script <=? scriptOff vm) with false by lia.
Qed.

(** The limit on the two stacks, restored after each opcode. *)
Lemma combined_size vm :
  limits (MaxStackSize + 3) vm ->
  (i32 (Depth (dstack vm) + Depth (astack vm)) <= MaxStackSize <-> limits MaxStackSize vm).
Proof.
  intros [(nd & na & Hd & Ha & Hn) Hrest]. pose proof (sok_nonneg _ _ Hd). pose proof (sok_nonneg _ _ Ha).
  unfold MaxStackSize in Hn. rewrite (sok_Depth nd), (sok_Depth na) by (done || lia).
  rewrite wraps_small by (lia || unfold is_s; lia). split.
  - intros Hle. split; [|done]. by exists nd, na.
  - intros [(nd' & na' & Hd' & Ha' & Hn') _]. destruct Hd as [_ <-], Ha as [_ <-], Hd' as [_ <-], Ha' as [_ <-]. done.
Qed.

(** After OP_HASH160 the saved stack is known not to be empty. *)
Lemma p2sh_step vm pop vm' :
  inv vm -> at_pc vm pop -> executeOpcode vm pop = Ok vm' -> wf_pop pop -> static vm' = static vm ->
  p2sh_ok false vm'.
Proof.
  intros (Hcore & Hr & _ & Hcs & Hp) (script & Hs & Hpop) Hex Hwf Hst Hb.
  unfold static in Hst. injection Hst as Hscr Hidx Hoff _ _ _ _ _ Hbip Hsave _ _.
  rewrite Hbip in Hb. rewrite Hidx, Hscr, Hsave. destruct (Hp Hb) as [?|(s0 & s1 & Hsc & Hsh & Hcase)]; [by left|].
  right. exists s0, s1. split_and!; [done..|]. destruct Hcase as [?|[H1 Hfirst]]; [by left | right].
  split; [done|]. destruct (Z.eqb_spec (scriptOff vm) 0) as [H0'|]; [|done]. rewrite <- Hfirst.
  apply (executeOpcode_hash160 vm pop vm'); auto.
  rewrite H1, Hsc in Hs. cbn in Hs. injection Hs as <-. rewrite H0' in Hpop.
  destruct s1 as [|p0 [|p1 [|p2 [|]]]]; try done. cbn in Hpop. injection Hpop as <-.
  cbn in Hsh. lia.
Qed.

(** The rest of a step, after its opcode. *)
Lemma advance_post vm script vm1 :
  inv vm -> scripts vm !! Z.to_nat (scriptIdx vm) = Some script ->
  limits (MaxStackSize + 3) vm1 -> static vm1 = static vm -> cache_ok (sigCache vm1) -> p2sh_ok false vm1 ->
  returns (fun '(over, vm') => core vm' /\ (over = false -> inv vm' /\ measure vm' < measure vm))
    (let combinedStackSize := i32 (Depth (dstack vm1) + Depth (astack vm1)) in
     if MaxStackSize <? combinedStackSize then Err ErrStackOverflow
     else
     let vm := set_scriptOff vm1 (scriptOff vm1 + 1) in
     script ← idx (scripts vm) (scriptIdx vm);
     if len script <=? scriptOff vm then end_script vm else Ok (false, vm)).
Proof.
  intros ((_ & Hin & _ & Hwf & Hsv) & (_ & _ & Hpc & _) & H23 & _ & _) Hs Hl1 Hst Hc1 Hp1.
  destruct Hpc as (Hi & Ho & script' & Hs' & Hlt). rewrite Hs in Hs'. injection Hs' as <-.
  pose proof Hst as Heq. unfold static in Heq. injection Heq as Hscr Hidx Hoff Htx Hti _ _ _ Hbip Hsave _ _.
  cbv zeta. destruct (Z.ltb_spec MaxStackSize (i32 (Depth (dstack vm1) + Depth (astack vm1)))) as [|Hsz]; [done|].
  apply (combined_size vm1 Hl1) in Hsz as (Hstk & Hno & Hcd & Hsep).
  set (vm2 := set_scriptOff vm1 (scriptOff vm1 + 1)).
  assert (core vm2) as Hcore2.
  { split_and!; [done | unfold input_ok; cbn; rewrite Htx, Hti; apply Hin | done |..]; cbn;
      rewrite ?Hscr, ?Hsave; apply Hwf || apply Hsv. }
  assert (two_or_three vm2) as H23' by (unfold two_or_three; cbn; rewrite Hscr, Hidx; apply H23).
  assert (remaining vm2 = remaining vm) as Hrem by (unfold remaining; cbn; by rewrite Hscr, Hidx, Hbip).
  assert (scripts vm2 !! Z.to_nat (scriptIdx vm2) = Some script) as Hs2 by (cbn; by rewrite Hscr, Hidx).
  assert (0 <= scriptIdx vm2) as Hi2 by (cbn; lia).
  rewrite (proj2 (idx_Ok (E := ErrorCode) _ _ _) (conj Hi2 Hs2)). cbn [mbind res_bind].
  destruct (Z.leb_spec (len script) (scriptOff vm2)) as [Hend|Hend].
  - eapply post_weaken; [by apply (end_script_post vm2 script) | tauto.. |].
    intros [over vm'] [Hc' Ho']. split; [done|]. intros Hov. destruct (Ho' Hov) as [? ?].
    split; [done|]. rewrite Hrem in *. unfold measure in *. lia.
  - cbn [post]. split; [done|]. intros _. split; [|unfold measure; rewrite Hrem; cbn; lia].
    split_and!; [done | | done | cbn; lia |].
    + split_and!; [split_and!; cbn; (done || lia) | apply Hcore2 | | done].
      split_and!; [lia | cbn; lia |]. by exists script.
    + cbn [scriptOff vm2 set_scriptOff]. by rewrite (proj2 (Z.eqb_neq _ _)) by lia.
Qed.

(** A step keeps the invariant and moves on; it can panic only in a signature
    opcode, and run forever only in OP_CHECKSAFEMULTISIG. *)
Lemma Step_post vm :
  inv vm ->
  post (step_panics vm) (step_hangs vm)
    (fun '(over, vm') => core vm' /\ (over = false -> inv vm' /\ measure vm' < measure vm)) (Step vm).
Proof.
  intros Hinv. pose proof Hinv as ((Hst & Hin & Hca & Hwf & Hsv) & Hr & H23 & Hcs & Hp).
  pose proof Hr as (_ & _ & Hpc & _). pose proof Hpc as (Hi & Ho & script & Hs & Hl).
  unfold Step. rewrite validPC_returns by done. cbn [mbind res_bind].
  rewrite (proj2 (idx_Ok (E := ErrorCode) _ _ _) (conj Hi Hs)). cbn [mbind res_bind].
  destruct (idx_in_range (E := ErrorCode) script (scriptOff vm)) as (pop & -> & Hpop); [lia|].
  cbn [mbind res_bind]. assert (at_pc vm pop) as Hat by (by exists script).
  assert (wf_pop pop) as Hwp by (eapply Forall_lookup_1 in Hwf; [|exact Hs]; by eapply Forall_lookup_1 in Hwf).
  destruct (executeOpcode vm pop) as [vm1| | |] eqn:Hex; cbn [mbind res_bind]; [|done|..].
  2,3: pose proof (executeOpcode_post vm pop Hr Hwp) as Hpost; rewrite Hex in Hpost; exists pop; by split.
  pose proof (executeOpcode_post vm pop Hr Hwp) as Hpost. rewrite Hex in Hpost.
  destruct Hpost as [[Hl1 Hst1] Hc1].
  apply returns_post, (advance_post vm script vm1); try done. by apply (p2sh_step vm pop vm1).
Qed.

(** * Executions *)

(** The states between two steps of an execution. *)
Definition steps_to : Engine -> Engine -> Prop := rtc (fun vm vm' => Step vm = Ok (false, vm')).

Lemma Step_inv vm vm' : inv vm -> Step vm = Ok (false, vm') -> inv vm' /\ measure vm' < measure vm.
Proof. intros Hinv Hs. pose proof (Step_post vm Hinv) as Hp. rewrite Hs in Hp. by apply Hp. Qed.

Lemma steps_to_inv vm vm' : inv vm -> steps_to vm vm' -> inv vm'.
Proof. intros Hi Hs. induction Hs as [|vm1 vm2 vm3 Hs _ IH]; [done|]. by apply IH, (Step_inv vm1). Qed.

Lemma measure_nonneg vm : inv vm -> 0 <= measure vm.
Proof.
  intros (_ & (_ & _ & (Hi & _ & script & Hs & Hl) & _) & _). unfold measure, remaining.
  rewrite (drop_S _ _ _ Hs). cbn [concat]. rewrite len_app.
  pose proof (len_nonneg (concat (drop (S (Z.to_nat (scriptIdx vm))) (scripts vm)))).
  unfold MaxScriptElementSize. destruct (_ && _); lia.
Qed.

(** The loop of [Execute] ends, with enough fuel, unless one of its steps does
    not. *)
Lemma execute_loop_post fuel : forall vm,
  inv vm -> measure vm < Z.of_nat fuel ->
  post (exists vm', steps_to vm vm' /\ step_panics vm') (exists vm', steps_to vm vm' /\ step_hangs vm')
    core (execute_loop fuel vm).
Proof.
  induction fuel as [|fuel IH]; intros vm Hinv Hm.
  { pose proof (measure_nonneg vm Hinv). lia. }
  cbn [execute_loop]. pose proof (Step_post vm Hinv) as Hstep.
  destruct (Step vm) as [[over vm1]|e| |] eqn:Hs; cbn [mbind res_bind]; [|done|..].
  2,3: exists vm; by split; [apply rtc_refl|].
  destruct Hstep as [Hcore Hnext]. destruct over; [done|]. destruct (Hnext eq_refl) as [Hinv1 Hm1].
  eapply post_weaken; [apply (IH vm1 Hinv1); lia | | |done].
  all: intros (vm' & Hr & ?); exists vm'; split; [by eapply rtc_l|done].
Qed.

Lemma concat_sum {A} (l : list (list A)) : length (concat l) = sum_list (map length l).
Proof. induction l as [|x l IH]; cbn; [done|]. by rewrite length_app, IH. Qed.

Lemma execute_fuel_enough vm : inv vm -> measure vm < Z.of_nat (execute_fuel vm).
Proof.
  intros (_ & (_ & _ & (_ & Ho & _) & _) & _). unfold measure, remaining, execute_fuel, MaxScriptElementSize.
  rewrite <- concat_sum. set (k := Z.to_nat (scriptIdx vm)).
  assert (len (concat (drop k (scripts vm))) <= len (concat (scripts vm))) as Hle.
  { rewrite <- (take_drop k (scripts vm)) at 2. rewrite concat_app, len_app.
    pose proof (len_nonneg (concat (take k (scripts vm)))). lia. }
  unfold len in *. destruct (_ && _); lia.
Qed.

(** The last check finds the stack within its limits. *)
Lemma Execute_post vm :
  inv vm ->
  post (exists vm', steps_to vm vm' /\ step_panics vm') (exists vm', steps_to vm vm' /\ step_hangs vm')
    (fun _ => True) (Execute vm).
Proof.
  intros Hinv. unfold Execute.
  eapply post_bind; [apply execute_loop_post; [done | by apply execute_fuel_enough]|].
  intros vm1 ((nd & na & Hd & Ha & Hn) & _). pose proof (sok_nonneg _ _ Ha). unfold MaxStackSize in Hn.
  eapply post_bind; [apply returns_post, (CheckErrorCondition_ok nd na); (done || lia)|].
  by intros vm2 _.
Qed.

Lemma parse_two a b scrs :
  parse_scripts [a; b] = Ok scrs -> exists s0 s1, scrs = [s0; s1] /\ ParseScript a = Ok s0 /\ ParseScript b = Ok s1.
Proof.
  cbn [parse_scripts]. intros Hp. destruct (_ <? len a); [done|]. apply bind_Ok in Hp as (s0 & Ha & Hp).
  destruct (_ <? len b); [done|]. cbn [mbind res_bind] in Hp.
  destruct (ParseScript b) as [s1| | |]; [|done..]. injection Hp as <-. by exists s0, s1.
Qed.

Lemma parsed_script b pops :
  bytes_ok b -> ParseScript b = Ok pops -> Forall wf_pop pops /\ (len b <> 0 -> 0 < len pops).
Proof.
  intros Hok Hp. pose proof (ParseScript_wf b Hok) as Hw. rewrite Hp in Hw. destruct Hw as (Hw & -> & _).
  split; [done|]. destruct pops; [done|]. intros _. rewrite len_cons. pose proof (len_nonneg pops). lia.
Qed.

(** What a new engine holds. *)
Lemma NewEngine_start pkScript tx i fl cache hashes amount vm :
  NewEngine pkScript tx i fl cache hashes amount = Ok vm ->
  exists ti s0 s1 start p2sh minimal,
    0 <= i < len (tx_TxIn tx) /\ tx_TxIn tx !! Z.to_nat i = Some ti /\
    ParseScript (SignatureScript ti) = Ok s0 /\ ParseScript pkScript = Ok s1 /\
    start = (if len (SignatureScript ti) =? 0 then 1 else 0) /\
    ~ (len (SignatureScript ti) = 0 /\ len pkScript = 0) /\
    (p2sh = true -> isScriptHash s1 = true) /\
    vm = mkEngine [s0; s1] start 0 0 (mkStack [] minimal) (mkStack [] minimal) tx i [] 0 fl cache hashes p2sh [] amount.
Proof.
  intros Hnew. unfold NewEngine in Hnew. destruct (_ || _) eqn:Hi; [done|].
  apply bind_Ok in Hnew as (ti & Hti & Hnew). apply idx_Ok in Hti as [_ Hti]. cbv zeta in Hnew.
  destruct ((len (SignatureScript ti) =? 0) && (len pkScript =? 0)) eqn:Hempty; [done|].
  destruct (_ && _) in Hnew; [done|]. destruct (_ && _) in Hnew; [done|].
  apply bind_Ok in Hnew as (scrs & Hscrs & Hnew).
  apply parse_two in Hscrs as (s0 & s1 & -> & Hs0 & Hs1).
  change (idx [s0; s1] 0) with (@Ok ErrorCode _ s0) in Hnew.
  change (idx [s0; s1] 1) with (@Ok ErrorCode _ s1) in Hnew. cbn [mbind res_bind] in Hnew.
  destruct (_ && _) in Hnew; [done|]. injection Hnew as <-.
  do 6 eexists. split_and!; [lia | lia | exact Hti | exact Hs0 | exact Hs1 | reflexivity | lia | | reflexivity].
  intros Hp. by apply andb_true_iff in Hp as [_ ?].
Qed.

(** A new engine satisfies the invariant. *)
Lemma NewEngine_inv pkScript tx i fl cache hashes amount vm :
  bytes_ok pkScript -> Forall (fun ti => bytes_ok (SignatureScript ti)) (tx_TxIn tx) -> cache_ok cache ->
  NewEngine pkScript tx i fl cache hashes amount = Ok vm -> inv vm.
Proof.
  intros Hpk Htx Hc Hnew.
  apply NewEngine_start in Hnew as (ti & s0 & s1 & start & p2sh & md & Hi & Hti & Hs0 & Hs1 & Hst & Hempty & Hsh & ->).
  pose proof (Forall_lookup_1 _ _ _ _ Htx Hti) as Hsig. cbv beta in Hsig.
  apply parsed_script in Hs0 as [Hw0 Hn0]; [|done]. apply parsed_script in Hs1 as [Hw1 Hn1]; [|done].
  assert (forall m, sok 0 (mkStack [] m)) as Hnil by (by split; [constructor|]).
  split_and!.
  - split_and!; cbn; [by exists 0, 0 | done | done | by repeat constructor | constructor | done].
  - split_and!; [split_and!; cbn; [by exists 0, 0 | done.. | constructor | done | done] | done | | done].
    unfold pc_ok. cbn. subst start. destruct (Z.eqb_spec (len (SignatureScript ti)) 0); split_and!; try done.
    + exists s1. split; [done|]. apply Hn1. tauto.
    + exists s0. split; [done|]. by apply Hn0.
  - by left.
  - done.
  - intros Hb. right. exists s0, s1. cbn in *. split_and!; [done | by apply Hsh |].
    subst start. destruct (_ =? 0); [by right | by left].
Qed.

(** C14: the limits of a script execution.  After any number of steps of an
    engine built by [NewEngine], the two stacks hold at most 1000 items
    together, none longer than 520 bytes, at most 201 operations were counted
    in the current script, and the program counter points to an opcode. *)
Theorem engine_limits pkScript tx i fl cache hashes amount vm vm' :
  bytes_ok pkScript -> Forall (fun ti => bytes_ok (SignatureScript ti)) (tx_TxIn tx) -> cache_ok cache ->
  NewEngine pkScript tx i fl cache hashes amount = Ok vm -> steps_to vm vm' ->
  len (stk (dstack vm')) + len (stk (astack vm')) <= MaxStackSize /\
  Forall (fun b => len b <= MaxScriptElementSize) (stk (dstack vm') ++ stk (astack vm')) /\
  0 <= numOps vm' <= MaxOpsPerScript /\ validPC vm' = Ok ().
Proof.
  intros Hpk Htx Hc Hnew Hs. pose proof (NewEngine_inv _ _ _ _ _ _ _ _ Hpk Htx Hc Hnew) as Hinv.
  apply (steps_to_inv _ _ Hinv) in Hs as (((nd & na & Hd & Ha & Hn) & _) & (Hl & _ & Hpc & _) & _).
  destruct Hd as [Hfd <-], Ha as [Hfa <-]. split_and!; [done | | apply Hl.. | by apply validPC_returns].
  apply Forall_app. split; [eapply Forall_impl; [exact Hfd|] | eapply Forall_impl; [exact Hfa|]]; by intros b [_ ?].
Qed.

(** C13: the outcomes of a script execution.  [Execute] on an engine built by
    [NewEngine] returns success or an error, unless it reaches an opcode that
    checks signatures while the stack holds a signature on which a signature
    parser panics, or OP_CHECKSAFEMULTISIG while the stack holds an empty item.
    In particular the loop over the opcodes always ends. *)
Theorem execution_outcome pkScript tx i fl cache hashes amount vm :
  bytes_ok pkScript -> Forall (fun ti => bytes_ok (SignatureScript ti)) (tx_TxIn tx) -> cache_ok cache ->
  NewEngine pkScript tx i fl cache hashes amount = Ok vm ->
  match Execute vm with
  | Ok _ | Err _ => True
  | Panic => exists vm' pop, steps_to vm vm' /\ at_pc vm' pop /\
               checks_sig (op_func (pop_opcode pop)) = true /\ crash_in vm' (stk (dstack vm'))
  | Hang => exists vm' pop, steps_to vm vm' /\ at_pc vm' pop /\
              op_func (pop_opcode pop) = f_opcodeCheckSafeMultiSig /\ [] ∈ stk (dstack vm')
  end.
Proof.
  intros Hpk Htx Hc Hnew. pose proof (Execute_post vm (NewEngine_inv _ _ _ _ _ _ _ _ Hpk Htx Hc Hnew)) as Hp.
  destruct (Execute vm); [done | done | |];
    destruct Hp as (vm' & Hs & pop & Hat & ? & ?); exists vm', pop; done.
Qed.

(** C15: OP_CHECKSAFEMULTISIG.  When the handler succeeds, it has taken [n], [n]
    key hashes, [m] and [m] pairs from the stack, in each of which the signature is
    above its key, and has left a boolean, which is true exactly when every
    signature is valid for its key and the engine's input and the hashes of the keys
    are among the hashes, in any order and each counted once.  The signature cache
    does not change the result.  It panics only on a signature on which a parser
    panics, and runs forever only with an empty item on the stack. *)
Theorem checkSafeMultiSig_spec op vm :
  ready vm ->
  match opcodeCheckSafeMultiSig op vm with
  | Ok vm' => static vm' = static vm /\ cache_ok (sigCache vm') /\ safe_multisig_effect vm vm'
  | Err _ => True
  | Panic => crash_in vm (stk (dstack vm))
  | Hang => [] ∈ stk (dstack vm)
  end.
Proof.
  intros (Hl & Hi & Hpc & Hc). pose proof (opcodeCheckSafeMultiSig_post op vm Hl Hi Hpc Hc) as Hp.
  destruct (opcodeCheckSafeMultiSig op vm); [|done..]. by destruct Hp as ([_ ?] & ? & ?).
Qed.

(** OP_CHECKMULTISIG.  When the handler succeeds, it has taken [n], [n] keys,
    [m], [m] signatures and one more item from the stack and has left a boolean,
    which is true exactly when the signatures are valid for some of the keys in
    the same order.  It always returns, and panics only on a signature on which a
    parser panics. *)
Theorem checkMultiSig_spec op vm :
  ready vm ->
  match opcodeCheckMultiSig op vm with
  | Ok vm' => static vm' = static vm /\ cache_ok (sigCache vm') /\ multisig_effect vm vm'
  | Err _ => True
  | Panic => crash_in vm (stk (dstack vm))
  | Hang => False
  end.
Proof.
  intros (Hl & Hi & Hpc & Hc). pose proof (opcodeCheckMultiSig_post op vm Hl Hi Hpc Hc) as Hp.
  destruct (opcodeCheckMultiSig op vm); [|done..]. by destruct Hp as ([_ ?] & ? & ?).
Qed.

(** OP_CHECKSIG.  When the handler succeeds, it has replaced a key and a
    signature on the stack by a boolean, which is true exactly when the signature
    is valid for the key and the engine's input.  It always returns, and panics
    only on a signature on which a parser panics. *)
Theorem checkSig_spec op vm :
  ready vm ->
  match opcodeCheckSig op vm with
  | Ok vm' => static vm' = static vm /\ cache_ok (sigCache vm') /\ checksig_effect vm vm'
  | Err _ => True
  | Panic => crash_in vm (stk (dstack vm))
  | Hang => False
  end.
Proof.
  intros (Hl & Hi & Hpc & Hc). pose proof (opcodeCheckSig_post op vm Hl Hi Hpc Hc) as Hp.
  destruct (opcodeCheckSig op vm); [|done..]. by destruct Hp as ([_ ?] & ? & ?).
Qed.

(** C16: an empty signature makes OP_CHECKSAFEMULTISIG run forever.  The loop
    over the signatures does not end, whatever the number of rounds it is given,
    when the next signature is empty, since it is tried again and again. *)
Theorem empty_signature_diverges vm script keyHashes sigs matched i num cache info :
  0 <= i -> 0 < num -> sigs !! Z.to_nat i = Some info -> info_signature info = [] ->
  forall fuel, safe_loop fuel vm script keyHashes sigs matched i num cache = Hang.
Proof. apply safe_loop_empty. Qed.

End machine.

(** * Examples *)
#[local] Existing Instance example_primitives.
#[local] Existing Instance SigCache.example_random.

(** A transaction that spends with the signature script [sig]. *)
Definition example_spend (sig : bytes) : MsgTx :=
  mkMsgTx 1 [mkTxIn (mkOutPoint (replicate 32 0) 0) sig 0xffffffff] [mkTxOut 0 [OP_RETURN]] 0.

(** The engine for an output [pk] spent with [sig]. *)
Definition example_engine (pk sig : bytes) : Engine :=
  match NewEngine pk (example_spend sig) 0 StandardVerifyFlags None None 0 with
  | Ok vm => vm
  | _ => mkEngine [] 0 0 0 (mkStack [] false) (mkStack [] false) (example_spend sig) 0 [] 0 0 None None false [] 0
  end.

Lemma example_sig_ok sig : bytes_ok sig -> Forall (fun ti => bytes_ok (SignatureScript ti)) (tx_TxIn (example_spend sig)).
Proof. intros Hs. by repeat constructor. Qed.

Lemma engine_limits_witness :
  exists vm', steps_to (example_engine [OP_ADD; OP_3; OP_EQUAL] [OP_1; OP_2]) vm' /\
    stk (dstack vm') = [[1]] /\
    (len (stk (dstack vm')) + len (stk (astack vm')) <= MaxStackSize /\
     Forall (fun b => len b <= MaxScriptElementSize) (stk (dstack vm') ++ stk (astack vm')) /\
     0 <= numOps vm' <= MaxOpsPerScript /\ validPC vm' = Ok ()).
Proof.
  destruct (Step (example_engine [OP_ADD; OP_3; OP_EQUAL] [OP_1; OP_2])) as [[over vm1]| | |] eqn:Hs;
    vm_compute in Hs; try discriminate Hs.
  exists vm1. injection Hs as <- <-. split; [|split; [reflexivity|]].
  - apply rtc_once. vm_compute. reflexivity.
  - apply (engine_limits [OP_ADD; OP_3; OP_EQUAL] (example_spend [OP_1; OP_2]) 0 StandardVerifyFlags None None 0
             (example_engine [OP_ADD; OP_3; OP_EQUAL] [OP_1; OP_2])).
    + by repeat constructor.
    + by apply example_sig_ok; repeat constructor.
    + exact I.
    + vm_compute. reflexivity.
    + apply rtc_once. vm_compute. reflexivity.
Defined.

(** The engine of an example after a number of steps. *)
Fixpoint run_steps (k : nat) (vm : Engine) : Engine :=
  match k with
  | O => vm
  | S k => match Step vm with Ok (false, vm') => run_steps k vm' | _ => vm end
  end.

Lemma run_steps_inv k vm : inv vm -> inv (run_steps k vm).
Proof.
  revert vm. induction k as [|k IH]; intros vm Hinv; [done|]. cbn [run_steps].
  destruct (Step vm) as [[[] vm']| | |] eqn:Hs; try done. apply IH. by apply (Step_inv vm).
Qed.

Lemma example_ready k pk sig :
  bytesb pk = true -> bytesb sig = true ->
  NewEngine pk (example_spend sig) 0 StandardVerifyFlags None None 0 = Ok (example_engine pk sig) ->
  ready (run_steps k (example_engine pk sig)).
Proof.
  intros Hpk Hsig Hnew. apply bytesb_ok in Hpk, Hsig.
  apply (run_steps_inv k), (NewEngine_inv pk (example_spend sig) 0 StandardVerifyFlags None None 0); try done.
  by apply example_sig_ok.
Qed.

(** A signature for another key. *)
Definition safe_example : Engine :=
  run_steps 5 (example_engine ([OP_1; OP_DATA_20] ++ replicate 20 33 ++ [OP_1; OP_CHECKSAFEMULTISIG])
                              [OP_DATA_2; 2; 2; OP_DATA_2; 1; 1]).

Lemma checkSafeMultiSig_spec_witness :
  let vm := safe_example in
  stk (dstack vm) = [[2; 2]; [1; 1]; [1]; replicate 20 33; [1]] /\
  match opcodeCheckSafeMultiSig (mkPop (opcodeArray OP_CHECKSAFEMULTISIG) []) vm with
  | Ok vm' => static vm' = static vm /\ cache_ok (sigCache vm') /\ safe_multisig_effect vm vm'
  | Err _ => True
  | Panic => crash_in vm (stk (dstack vm))
  | Hang => [] ∈ stk (dstack vm)
  end.
Proof.
  split; [vm_compute; reflexivity|].
  apply (checkSafeMultiSig_spec (mkPop (opcodeArray OP_CHECKSAFEMULTISIG) []) safe_example).
  apply example_ready; vm_compute; reflexivity.
Defined.

(** An empty signature. *)
Definition multi_example : Engine :=
  run_steps 5 (example_engine [OP_CHECKMULTISIG] [OP_0; OP_0; OP_1; OP_2; OP_1]).

Lemma empty_signature_diverges_witness :
  info_signature (mkSigInfo [2] [] None false) = [] /\
  forall fuel, safe_loop fuel safe_example [] [replicate 20 33] [mkSigInfo [2] [] None false] [] 0 1 None = Hang.
Proof.
  split; [reflexivity|].
  apply (empty_signature_diverges safe_example [] [replicate 20 33] [mkSigInfo [2] [] None false] [] 0 1 None
           (mkSigInfo [2] [] None false)); (lia || reflexivity).
Defined.

(** An empty signature for a one-of-one output: the engine does not return. *)
Definition hanging_engine : Engine :=
  example_engine ([OP_1; OP_DATA_20] ++ replicate 20 33 ++ [OP_1; OP_CHECKSAFEMULTISIG])
                 ([OP_DATA_33] ++ replicate 33 2 ++ [OP_0]).

Lemma execution_outcome_witness :
  Execute hanging_engine = Hang /\
  exists vm' pop, steps_to hanging_engine vm' /\ at_pc vm' pop /\
    op_func (pop_opcode pop) = f_opcodeCheckSafeMultiSig /\ [] ∈ stk (dstack vm').
Proof.
  pose proof (execution_outcome ([OP_1; OP_DATA_20] ++ replicate 20 33 ++ [OP_1; OP_CHECKSAFEMULTISIG])
    (example_spend ([OP_DATA_33] ++ replicate 33 2 ++ [OP_0])) 0 StandardVerifyFlags None None 0 hanging_engine) as Ho.
  assert (Execute hanging_engine = Hang) as He by (vm_compute; reflexivity).
  rewrite He in Ho. split; [done|]. apply Ho.
  - by repeat constructor.
  - by apply example_sig_ok; repeat constructor.
  - exact I.
  - vm_compute. reflexivity.
Defined.

End MachineSpec.
