(* ===== verification/SpendLive.v ===== *)
(** The other direction of [SpendSpec]: a signature script that pushes enough
    well-encoded signatures spends the output. *)
From S2P Require Import Prelude PubKey SecpPrime Opcode ScriptNum Stack Wire Crypto Signature Script.
From S2P Require Import ScriptBuilder SigCache Engine StackSpec Handlers HandlerSpec SigOps SigSpec.
From S2P Require Import Machine MachineSpec SpendSpec.
Import btcec Opcode ScriptNum Stack wire Crypto Sig Script Engine StackSpec Handlers HandlerSpec.
Import SigOps SigSpec Machine MachineSpec SpendSpec.
#[local] Open Scope Z_scope.

Module SpendLive.

(** A pair of a public key and a signature passes the encoding checks. *)
Definition well_encoded (vm : Engine) (r : bytes * bytes) : Prop :=
  exists pre ht, r.2 = pre ++ [ht] /\ checkHashTypeEncoding vm ht = Ok () /\
    checkSignatureEncoding vm pre = Ok () /\ checkPubKeyEncoding vm r.1 = Ok ().

Definition fresh (r : bytes * bytes) : parsedSigInfo := mkSigInfo r.1 r.2 None false.

Section live.
Context `{Primitives} `{SigCache.Random}.

(** One round of the loop with a good signature. *)
Lemma safe_loop_good vm script kh fuel done r rs matched cache k :
  input_ok vm -> well_encoded vm r -> signed vm r -> cache_ok cache ->
  find_hash (Hash160 r.1) matched 0 kh = Some k ->
  exists info cache', cache_ok cache' /\
    safe_loop (S fuel) vm script kh (done ++ map fresh (r :: rs)) matched (len done) (len (r :: rs)) cache =
    safe_loop fuel vm script kh ((done ++ [info]) ++ map fresh rs) (k :: matched)
      (len (done ++ [info])) (len rs) cache'.
Proof.
  intros Hin (pre & ht & Hr & Hht & Henc & Hpk) (pre' & ht' & p & pk & h & Hr' & Hp & Hkey & Hh & Hv) Hc Hf.
  rewrite Hr in Hr'. apply app_inj_tail in Hr' as [<- <-].
  pose proof (len_nonneg rs) as Hlr. pose proof (len_nonneg pre) as Hlp.
  pose proof (safe_hash_returns vm [] ht Hin) as Hl. rewrite Hh in Hl. cbn [post] in Hl.
  destruct (verify_cached_correct cache h p pk Hc Hl) as [Hver Hc']. rewrite Hv in Hver.
  exists (set_parsed (fresh r) (Some p)), (verify_cached cache h p pk).2. split; [done|].
  cbn [safe_loop map]. rewrite len_cons. replace (1 + len rs <=? 0) with false by lia.
  rewrite idx_middle. cbn [mbind res_bind info_signature info_pubKey fresh]. rewrite Hr, len_app.
  change (len [ht]) with 1. replace (len pre + 1 =? 0) with false by lia.
  change (ripemd160 (sha256 r.1)) with (Hash160 r.1). rewrite Hf, split_sig_snoc. cbn [mbind res_bind].
  unfold parse_once. cbn [parsed fresh negb]. rewrite Hht, Henc, Hp. cbn [mbind res_bind].
  rewrite set_idx_middle. cbn [mbind res_bind]. rewrite Hpk, Hkey. cbn [mbind res_bind of_key].
  change (safe_hash vm script ht) with (safe_hash vm [] ht). rewrite Hh. cbn [mbind res_bind].
  destruct (verify_cached cache h p pk) as [b c]. cbn [fst snd] in *. subst b. cbv iota.
  rewrite len_app, <- app_assoc. change (len [_]) with 1. cbn [app].
  by replace (1 + len rs - 1) with (len rs) by lia.
Qed.

Lemma safe_loop_complete vm script kh : input_ok vm -> forall rs fuel done matched cache,
  Forall (well_encoded vm) rs -> authorised vm rs (unmatched matched 0 kh) -> (length rs < fuel)%nat ->
  cache_ok cache ->
  exists cache', safe_loop fuel vm script kh (done ++ map fresh rs) matched (len done) (len rs) cache = Ok (true, cache').
Proof.
  intros Hin rs. induction rs as [|r rs IH]; intros fuel done matched cache Henc Hau Hf Hc.
  { destruct fuel as [|fuel]; [cbn in Hf; lia|]. by exists cache. }
  destruct fuel as [|fuel]; [lia|]. apply Forall_cons in Henc as [Hr Henc].
  pose proof Hau as [Hsg _]. apply Forall_cons in Hsg as [Hsr _].
  destruct (find_hash (Hash160 r.1) matched 0 kh) as [k|] eqn:Hfind.
  2: { apply find_hash_None in Hfind. by apply authorised_no_hash in Hau. }
  destruct (safe_loop_good vm script kh fuel done r rs matched cache k) as (info & c & Hc' & ->); try done.
  apply find_hash_Some in Hfind as (_ & _ & Hperm).
  apply IH; [done | | cbn in Hf; lia | done]. by apply (authorised_step vm r rs _ _ Hperm Hsr).
Qed.

(** ** The items on the stack *)
Lemma PopInt_snoc s pre n :
  small s -> stk s = pre ++ [[n]] -> 1 <= n <= 127 -> PopInt s = Ok (n, set_stk s pre).
Proof.
  intros Hs Hstk Hn. unfold PopInt. rewrite (PopByteArray_snoc s pre [n]) by done. cbn [mbind res_bind].
  assert (n ∈ seqZ 1 127) as Hin by (apply elem_of_seqZ; lia).
  assert (forallb (fun n => forallb (fun md => match makeScriptNum [n] md 4 with Ok k => k =? n | _ => false end) [true; false])
            (seqZ 1 127) = true) as Hall by (vm_compute; reflexivity).
  rewrite forallb_forall in Hall. apply list_elem_of_In in Hin. specialize (Hall n Hin).
  rewrite forallb_forall in Hall. specialize (Hall (verifyMinimalData s)).
  cbn [verifyMinimalData set_stk]. unfold defaultScriptNumLen.
  destruct (makeScriptNum [n] (verifyMinimalData s) 4) as [k| | |];
    (destruct (verifyMinimalData s); specialize (Hall ltac:(cbn; auto))); try done; cbn; f_equal; f_equal; lia.
Qed.

Lemma pop_hashes_snoc kh : forall s pre,
  small s -> stk s = pre ++ reverse kh -> Forall (fun h => len h = 20) kh ->
  pop_hashes (length kh) s = Ok (kh, set_stk s pre).
Proof.
  induction kh as [|h kh IH]; intros s pre Hs Hstk Hok.
  { rewrite app_nil_r in Hstk. cbn. rewrite <- Hstk. by destruct s. }
  apply Forall_cons in Hok as [Hh Hok]. rewrite reverse_cons, app_assoc in Hstk. cbn [length pop_hashes].
  rewrite (PopByteArray_snoc s _ h) by done. cbn [mbind res_bind]. rewrite Hh. cbn [Z.eqb Pos.eqb negb].
  rewrite (IH _ pre); [done | | done | done].
  unfold small in *. cbn. rewrite Hstk, len_app in Hs. pose proof (len_nonneg [h]). lia.
Qed.

Lemma pop_pairs_snoc rs : forall s pre,
  small s -> stk s = pre ++ reverse (pair_items (map fresh rs)) ->
  pop_pairs (length rs) s = Ok (map fresh rs, set_stk s pre).
Proof.
  induction rs as [|[pk sg] rs IH]; intros s pre Hs Hstk.
  { rewrite app_nil_r in Hstk. cbn. rewrite <- Hstk. by destruct s. }
  change (pair_items (map fresh ((pk, sg) :: rs))) with (sg :: pk :: pair_items (map fresh rs)) in Hstk.
  rewrite !reverse_cons, !app_assoc in Hstk. cbn [length pop_pairs].
  assert (forall l, len (stk (set_stk s l)) = len l) as Hset by done.
  unfold small in Hs. rewrite Hstk, !len_app in Hs. change (len [pk]) with 1 in Hs. change (len [sg]) with 1 in Hs.
  rewrite (PopByteArray_snoc s ((pre ++ reverse (pair_items (map fresh rs))) ++ [pk]) sg);
    [|unfold small; rewrite Hstk, !len_app; exact Hs | done].
  cbn [mbind res_bind]. rewrite (PopByteArray_snoc _ (pre ++ reverse (pair_items (map fresh rs))) pk);
    [|unfold small; rewrite Hset, !len_app; change (len [pk]) with 1; lia | done].
  cbn [mbind res_bind]. rewrite (IH _ pre); [done | | done].
  unfold small. cbn [stk set_stk]. rewrite len_app. lia.
Qed.

(** ** The handler *)

(** What the handler pops. *)
Lemma pop_all s rest rs hs :
  small s -> stk s = rest ++ reverse (pair_items (map fresh rs)) ++ [[len rs]] ++ hs ++ [[len hs]] ->
  1 <= len rs <= 127 -> 1 <= len hs <= 127 -> Forall (fun h => len h = 20) hs ->
  exists s1 s2 s3,
    PopInt s = Ok (len hs, s1) /\ pop_hashes (Z.to_nat (len hs)) s1 = Ok (reverse hs, s2) /\
    PopInt s2 = Ok (len rs, s3) /\ pop_pairs (Z.to_nat (len rs)) s3 = Ok (map fresh rs, set_stk s rest).
Proof.
  intros Hsm Hstk Hm Hn Hh.
  assert (forall l l', stk s = l ++ l' -> small (set_stk s l)) as Hpre.
  { intros l l' Hl. unfold small in *. rewrite Hl, len_app in Hsm. pose proof (len_nonneg l'). cbn. lia. }
  set (l1 := rest ++ reverse (pair_items (map fresh rs))).
  exists (set_stk s ((l1 ++ [[len rs]]) ++ hs)), (set_stk s (l1 ++ [[len rs]])), (set_stk s l1).
  split_and!.
  - apply PopInt_snoc; [done | unfold l1; by rewrite Hstk, <- !app_assoc | done].
  - replace (Z.to_nat (len hs)) with (length (reverse hs)) by (rewrite length_reverse; unfold len; lia).
    apply (pop_hashes_snoc (reverse hs) (set_stk s ((l1 ++ [[len rs]]) ++ hs)) (l1 ++ [[len rs]])); [|by rewrite reverse_involutive | by apply Forall_reverse].
    apply (Hpre _ [[len hs]]). unfold l1. by rewrite Hstk, <- !app_assoc.
  - apply (PopInt_snoc (set_stk s (l1 ++ [[len rs]])) l1); [|done | done]. apply (Hpre _ (hs ++ [[len hs]])). unfold l1. by rewrite Hstk, <- !app_assoc.
  - replace (Z.to_nat (len rs)) with (length rs) by (unfold len; lia). apply (pop_pairs_snoc rs (set_stk s l1) rest); [|done].
    apply (Hpre _ ([[len rs]] ++ hs ++ [[len hs]])). unfold l1. by rewrite Hstk, <- !app_assoc.
Qed.

Lemma safe_multisig_live op vm rest rs hs :
  ready vm -> stk (dstack vm) = rest ++ reverse (pair_items (map fresh rs)) ++ [[len rs]] ++ hs ++ [[len hs]] ->
  1 <= len rs <= 127 -> 1 <= len hs <= MaxPubKeysPerMultiSig -> Forall (fun h => len h = 20) hs ->
  numOps vm + len hs <= MaxOpsPerScript -> Forall (well_encoded vm) rs -> authorised vm rs hs ->
  exists cache, opcodeCheckSafeMultiSig op vm =
    Ok (set_dstack (set_sigCache (set_numOps vm (numOps vm + len hs)) cache)
          (set_stk (dstack vm) (rest ++ [fromBool true]))).
Proof.
  intros (Hlim & Hin & Hpc & Hca) Hstk Hm Hn Hh Hops Henc Hau.
  pose proof Hlim as [(nd & na & Hd & Ha & Hsz) (_ & _ & Hsep)]. pose proof (sok_nonneg _ _ Ha).
  unfold MaxPubKeysPerMultiSig in Hn. destruct (pop_all (dstack vm) rest rs hs) as (s1 & s2 & s3 & Hp1 & Hp2 & Hp3 & Hp4); try done; [|lia|].
  { apply (sok_small nd); [done | unfold MaxStackSize in Hsz; lia]. }
  assert (len rs <= len hs) as Hle.
  { destruct Hau as [_ Hau]. apply submseteq_length in Hau. rewrite length_map in Hau. unfold len. lia. }
  unfold opcodeCheckSafeMultiSig. rewrite Hp1. cbn [mbind res_bind].
  rewrite Int32_id by lia. unfold MaxPubKeysPerMultiSig. replace ((len hs <? 0) || (20 <? len hs)) with false by lia.
  set (vm1 := set_numOps vm (numOps vm + len hs)).
  replace (MaxOpsPerScript <? numOps vm1) with false by (unfold vm1; cbn; lia).
  rewrite Hp2. cbn [mbind res_bind]. rewrite Hp3. cbn [mbind res_bind]. rewrite Int32_id by lia.
  replace (len rs <? 0) with false by lia. replace (len hs <? len rs) with false by lia.
  rewrite Hp4. cbn [mbind res_bind]. destruct (subScript_total vm1 Hpc Hsep) as [script ->]. cbn [mbind res_bind].
  destruct (safe_loop_complete vm1 (remove_pairs script (map fresh rs)) (reverse hs) Hin rs (safe_fuel (reverse hs))
    [] [] (sigCache vm)) as [cache Hloop]; [done | | | done |].
  { rewrite unmatched_nil. destruct Hau as [? ?]. split; [done|]. by rewrite reverse_Permutation. }
  { unfold safe_fuel. rewrite length_reverse. unfold len in Hle. lia. }
  change (len (A := parsedSigInfo) []) with 0 in Hloop. cbn [app] in Hloop.
  exists cache. change (sigCache vm1) with (sigCache vm). rewrite Hloop. cbn [mbind res_bind].
  unfold null_fail. cbn [negb andb]. unfold push_bool, PushBool, PushByteArray. done.
Qed.

(** ** The execution *)

(** A first script of pushes only. *)
Lemma run_first fuel vm pushes vs s1 :
  inv vm -> Forall2 is_push pushes vs -> pushes <> [] -> scripts vm = [pushes; s1] -> s1 <> [] ->
  scriptIdx vm = 0 -> scriptOff vm = 0 -> bip16 vm = false -> depths vm + len vs <= MaxStackSize ->
  let vm' := restarted (fold_left pushed vs vm) in
  inv vm' /\ execute_loop (length vs + fuel) vm = execute_loop fuel vm'.
Proof.
  intros Hinv Hp Hne Hs Hs1 Hi Ho Hb Hd vm'. pose proof Hinv as (_ & _ & _ & Hcs & _).
  destruct (exists_last Hne) as (init & p & ->). apply Forall2_app_inv_l in Hp as (vi & vl & Hp & Hl & ->).
  inversion Hl as [|? v ? ? Hv Hnil]; subst. inversion Hnil; subst.
  rewrite len_app in Hd. change (len [v]) with 1 in Hd. pose proof (len_nonneg vi).
  pose proof (run_pushes init vi Hp (1 + fuel) vm [] [p] Hinv (Hcs Ho)) as Hrun. cbv zeta in Hrun.
  replace (MaxStackSize <? depths vm + len vi) with false in Hrun by lia.
  destruct Hrun as [Hk Hloop]; [by rewrite Hi, Hs | done | done|].
  rewrite length_app. cbn [length]. rewrite <- Nat.add_assoc, Hloop. clear Hloop.
  unfold vm'. rewrite fold_left_app. cbn [fold_left]. set (vmk := fold_left pushed vi vm) in *.
  assert (scriptOff vmk = len init /\ depths vmk = depths vm + len vi /\ scriptIdx vmk = 0 /\
    scripts vmk = [init ++ [p]; s1] /\ bip16 vmk = false /\ condStack vmk = [] /\ astack vmk = astack vm)
    as (Hok & Hdk & Hik & Hsk & Hbk & Hck & Hak).
  { unfold vmk. rewrite pushed_all. unfold depths. cbn. rewrite len_app, Ho. apply Forall2_length in Hp.
    split_and!; try done; [unfold len; lia | lia | by apply Hcs]. }
  assert (Step vmk = Ok (false, restarted (pushed vmk v))) as Hstep.
  { rewrite (Step_push vmk (init ++ [p]) p v); [|done | done | by rewrite Hik, Hsk | | done].
    - replace (MaxStackSize <? depths vmk + 1) with false by lia.
      rewrite len_app, Hok. change (len [p]) with 1. rewrite Z.leb_refl.
      destruct Hinv as (((nd & na & Hd' & Ha & Hn) & _) & _). pose proof (sok_nonneg _ _ Hd'). unfold MaxStackSize in Hn.
      rewrite (end_script_plain _ na (init ++ [p]) s1); cbn; rewrite ?Hak, ?Hik, ?Hck; (done || lia).
    - rewrite Hok. unfold len. rewrite Nat2Z.id. by rewrite lookup_app_r, Nat.sub_diag by lia. }
  split; [by apply (Step_inv vmk) in Hstep as [? _]|].
  cbn [Nat.add execute_loop]. rewrite Hstep. done.
Qed.

Lemma pair_items_len rs : len (reverse (pair_items (map fresh rs))) = 2 * len rs.
Proof.
  unfold len. rewrite length_reverse. induction rs as [|[pk sg] rs IH]; [done|].
  change (pair_items (map fresh ((pk, sg) :: rs))) with (sg :: pk :: pair_items (map fresh rs)). cbn [length]. lia.
Qed.

Lemma well_encoded_context vm vm' r : context vm' = context vm -> well_encoded vm r -> well_encoded vm' r.
Proof.
  intros Hc (pre & ht & Hr & ?). unfold context in Hc. injection Hc as _ _ _ _ Hfl _ _.
  exists pre, ht. split; [done|].
  unfold checkHashTypeEncoding, checkSignatureEncoding, checkSigIntegers, checkPubKeyEncoding, hasFlag in *.
  by rewrite Hfl.
Qed.

(** The last opcode of the output script. *)
Lemma run_last fuel vm s0 pushes rs hs lastop :
  inv vm -> scripts vm = [s0; pushes ++ [lastop]] -> scriptIdx vm = 1 -> scriptOff vm = len pushes ->
  bip16 vm = false -> condStack vm = [] -> numOps vm = 0 -> stk (astack vm) = [] ->
  stk (dstack vm) = reverse (pair_items (map fresh rs)) ++ [[len rs]] ++ hs ++ [[len hs]] ->
  is_safe_pops (len rs) hs lastop -> len hs <= MaxPubKeysPerMultiSig -> Forall (well_encoded vm) rs -> authorised vm rs hs ->
  exists vmf, execute_loop (S fuel) vm = Ok vmf /\
    stk (dstack vmf) = [fromBool true] /\ scriptIdx vmf = 2 /\ scripts vmf = scripts vm.
Proof.
  intros Hinv Hs Hi Ho Hb Hc Hno Ha Hstk (Hm & Hn & Hh & Hlast) Hmax Henc Hau.
  set (vm0 := set_numOps vm (numOps vm + 1)).
  assert (numOps vm0 = 1) as Hno0 by (unfold vm0; cbn; lia).
  assert (ready vm0) as Hr.
  { destruct Hinv as (_ & ((? & _ & ? & ?) & ? & ? & ?) & _).
    split; [|done]. split; [done|]. split; [rewrite Hno0; unfold MaxOpsPerScript; lia | done]. }
  destruct (safe_multisig_live lastop vm0 [] rs hs) as [cache Hop]; try done; [lia| |].
  { rewrite Hno0. unfold MaxOpsPerScript. lia. }
  assert (executeOpcode vm lastop = opcodeCheckSafeMultiSig lastop vm0) as Hex.
  { rewrite executeOpcode_safe by done. cbv zeta. fold vm0. rewrite Hno0. done. }
  rewrite Hop in Hex. cbn [execute_loop].
  erewrite (Step_end vm _ (pushes ++ [lastop]) lastop s0 (pushes ++ [lastop]));
    [|done | done | by destruct pushes | lia | done | by rewrite Hi, Hs | | | by apply wf_safe_multisig | exact Hex].
  - cbn [dstack astack condStack set_dstack set_sigCache set_numOps vm0]. unfold Depth. cbn [stk set_stk app].
    rewrite Ha, Hc. change (len (A := bytes) []) with 0. change (len [fromBool true]) with 1.
    change (MaxStackSize <? _) with false. change (len (A := Z) [] =? 0) with true. rewrite Hi. cbn [mbind res_bind].
    eexists. split; [reflexivity|]. cbn. rewrite Hi, Hs. done.
  - rewrite Ho. unfold len. rewrite Nat2Z.id. by rewrite lookup_app_r, Nat.sub_diag by lia.
  - rewrite len_app, Ho. by change (len [lastop]) with 1.
Qed.

(** The output script after the pushes of the signature script. *)
Lemma run_second fuel vm s0 rs hs lastop :
  inv vm -> scripts vm = [s0; safe_pops (len rs) hs lastop] -> scriptIdx vm = 1 -> scriptOff vm = 0 ->
  bip16 vm = false -> numOps vm = 0 -> stk (astack vm) = [] ->
  stk (dstack vm) = reverse (pair_items (map fresh rs)) -> is_safe_pops (len rs) hs lastop ->
  len hs <= MaxPubKeysPerMultiSig -> Forall (well_encoded vm) rs -> authorised vm rs hs ->
  exists vmf, execute_loop (length hs + 3 + fuel) vm = Ok vmf /\
    stk (dstack vmf) = [fromBool true] /\ scriptIdx vmf = 2 /\ scripts vmf = scripts vm.
Proof.
  intros Hinv Hs Hi Ho Hb Hno Hast Hstk Hsafe Hmax Henc Hau. pose proof Hinv as (_ & _ & _ & Hcs & _).
  pose proof (safe_pushes _ _ _ Hsafe) as Hp. pose proof Hsafe as (Hm & Hn & Hh & Hlast).
  set (pushes := number (len rs) :: map hash_push hs ++ [number (len hs)]) in *.
  set (vs := [len rs] :: hs ++ [[len hs]]) in *.
  pose proof (run_pushes pushes vs Hp (1 + fuel) vm [] [lastop] Hinv (Hcs Ho)) as Hrun. cbv zeta in Hrun.
  assert (len vs = len hs + 2) as Hlv by (unfold vs; rewrite len_cons, len_app; change (len [[len hs]]) with 1; lia).
  assert (depths vm = 2 * len rs) as Hd by (unfold depths; rewrite Hstk, Hast, pair_items_len; change (len []) with 0; lia).
  replace (MaxStackSize <? depths vm + len vs) with false in Hrun by (unfold MaxStackSize; lia).
  destruct Hrun as [Hk Hloop]; [by rewrite Hi, Hs | done | done|].
  replace (length hs + 3 + fuel)%nat with (length vs + (1 + fuel))%nat by (unfold len in Hlv; lia).
  rewrite Hloop. clear Hloop.
  assert (fold_left pushed vs vm =
    set_scriptOff (set_dstack vm (set_stk (dstack vm) (stk (dstack vm) ++ vs))) (scriptOff vm + len vs)) as Hvk
    by apply pushed_all.
  set (vmk := fold_left pushed vs vm) in *.
  assert (context vmk = context vm) as Hctx by (by rewrite Hvk).
  rewrite <- (authorised_context vm vmk rs hs hs Hctx) in Hau by done.
  assert (Forall (well_encoded vmk) rs) as Henc'
    by (eapply Forall_impl; [exact Henc | intros r; by apply well_encoded_context]).
  destruct (run_last fuel vmk s0 pushes rs hs lastop) as (vmf & Hx & Hd' & Hi' & Hs'); try done; rewrite ?Hvk; try done.
  - cbn. apply Forall2_length in Hp. unfold len. lia.
  - cbn. by apply Hcs.
  - cbn. by rewrite Hstk.
  - exists vmf. rewrite <- Hvk. split_and!; [done..|]. by rewrite Hs', Hvk.
Qed.

(** The signature script and the output script, from the start. *)
Lemma spend_live vm s0 rs hs lastop :
  inv vm -> scripts vm = [s0; safe_pops (len rs) hs lastop] -> bip16 vm = false ->
  scriptIdx vm = 0 -> scriptOff vm = 0 -> stk (dstack vm) = [] -> stk (astack vm) = [] ->
  is_safe_pops (len rs) hs lastop -> len hs <= MaxPubKeysPerMultiSig ->
  Forall2 is_push s0 (reverse (pair_items (map fresh rs))) ->
  Forall (well_encoded vm) rs -> authorised vm rs hs -> Execute vm = Ok ().
Proof.
  intros Hinv Hs Hb Hi Ho Hd Ha Hsafe Hmax Hp Henc Hau. pose proof Hsafe as (Hm & Hn & _).
  set (vs := reverse (pair_items (map fresh rs))) in *. pose proof (pair_items_len rs) as Hlv. fold vs in Hlv.
  assert (length (safe_pops (len rs) hs lastop) = (length hs + 3)%nat) as Hls.
  { unfold safe_pops. cbn [app length]. rewrite !length_app, length_map. cbn [length]. lia. }
  assert (exists fuel, execute_fuel vm = (length vs + (length hs + 3 + fuel))%nat) as [fuel Hfuel].
  { apply Forall2_length in Hp. unfold execute_fuel. rewrite Hs. cbn [map]. rewrite Hls, Hp.
    exists (S (Z.to_nat MaxScriptElementSize)). generalize (Z.to_nat MaxScriptElementSize). cbn. lia. }
  destruct (run_first (length hs + 3 + fuel) vm s0 vs (safe_pops (len rs) hs lastop)) as [Hinv1 Hloop1]; try done.
  { intros ->. apply Forall2_length in Hp. unfold len in *. cbn in Hp. lia. }
  { unfold depths. rewrite Hd, Ha. change (len []) with 0. unfold MaxStackSize. lia. }
  set (vm1 := restarted (fold_left pushed vs vm)) in *.
  assert (context vm1 = context vm /\ scripts vm1 = scripts vm /\ scriptIdx vm1 = 1 /\ scriptOff vm1 = 0 /\
    bip16 vm1 = bip16 vm /\ numOps vm1 = 0 /\ stk (astack vm1) = [] /\ stk (dstack vm1) = vs)
    as (Hctx & Hs1 & Hi1 & Ho1 & Hb1 & Hn1 & Ha1 & Hd1).
  { unfold vm1. rewrite pushed_all. cbn. rewrite Hd, Hi. done. }
  destruct (run_second fuel vm1 s0 rs hs lastop) as (vmf & Hloop2 & Hdf & Hif & Hsf); try done; try congruence.
  { eapply Forall_impl; [exact Henc|]. intros r. by apply well_encoded_context. }
  { by apply (authorised_context vm vm1 rs hs hs). }
  unfold Execute. rewrite Hfuel, Hloop1, Hloop2. cbn [mbind res_bind].
  unfold CheckErrorCondition, PopBool, PopByteArray. rewrite Hif, Hsf, Hs1, Hs.
  change (2 <? len _) with false. destruct (dstack vmf) as [st md]. cbn in Hdf. subst st.
  change (Depth (mkStack [fromBool true] md)) with 1. change (negb (1 =? 1)) with false. by rewrite andb_false_r.
Qed.

(** * Theorems *)

(** The signature [r.2], for the key [r.1], signs the input [i] of [tx] that
    spends [amount]. *)
Definition signs (tx : MsgTx) (i amount : Z) (r : bytes * bytes) : Prop :=
  exists pre ht p key h, r.2 = pre ++ [ht] /\ (ParseDERSignature pre = Ok p \/ ParseSignature pre = Ok p) /\
    ParsePubKey r.1 = Ok key /\ calcSignatureHashNew [] (NewTxSigHashes tx) ht tx i amount = Ok h /\
    Verify p h key = true.

(** The items that a signature script with these pairs pushes, in order. *)
Definition push_order (rs : list (bytes * bytes)) : list bytes := concat (map (fun r => [r.1; r.2]) rs).

Lemma push_order_reverse rs : reverse (pair_items (map fresh (reverse rs))) = push_order rs.
Proof.
  unfold pair_items, push_order. induction rs as [|r rs IH]; [done|].
  rewrite reverse_cons, map_app, map_app, concat_app, reverse_app, IH. done.
Qed.

Lemma signed_signs vm tx i amount r :
  vm_tx vm = tx -> txIdx vm = i -> inputAmount vm = amount ->
  hashCache vm = None \/ hashCache vm = Some (NewTxSigHashes tx) -> signed vm r -> signs tx i amount r.
Proof.
  intros <- <- <- Hh (pre & ht & p & pk & h & Hr & Hp & Hk & Hs & Hv). exists pre, ht, p, pk, h.
  unfold parse_signature in Hp. unfold safe_hash in Hs.
  split_and!; [done | destruct (_ || _); auto | done | | done]. destruct Hh as [Hh|Hh]; by rewrite Hh in Hs.
Qed.

Lemma safe_not_p2sh m hs lastop : 1 <= len hs -> isScriptHash (safe_pops m hs lastop) = false.
Proof. destruct hs as [|h1 [|h2 hs]]; [done | done |]. intros _. unfold safe_pops. cbn. by destruct hs. Qed.

(** Only the holders of the keys can spend.  Take an output script that asks for
    [m] signatures by the keys with the hashes [hs].  Whatever the signature
    script is, the engine accepts only if there are [m] signatures of this input
    of this transaction, for this amount, by keys whose hashes are among [hs],
    each entry of [hs] counted at most once.  With more hashes than the opcode
    takes it never accepts. *)
Lemma safe_output_authorised pkScript tx i fl cache hashes amount vm m hs lastop :
  bytes_ok pkScript -> Forall (fun ti => bytes_ok (SignatureScript ti)) (tx_TxIn tx) -> cache_ok cache ->
  hashes = None \/ hashes = Some (NewTxSigHashes tx) ->
  ParseScript pkScript = Ok (safe_pops m hs lastop) -> is_safe_pops m hs lastop ->
  NewEngine pkScript tx i fl cache hashes amount = Ok vm -> Execute vm = Ok () ->
  len hs <= MaxPubKeysPerMultiSig /\
  exists rs, len rs = m /\ Forall (signs tx i amount) rs /\ map (fun r => Hash160 r.1) rs ⊆+ hs.
Proof.
  intros Hpk Htx Hc Hh Hps Hsafe Hnew Hex. pose proof (NewEngine_inv _ _ _ _ _ _ _ _ Hpk Htx Hc Hnew) as Hinv.
  apply NewEngine_start in Hnew as (ti & s0 & s1 & start & p2sh & md & _ & _ & _ & Hs1 & Hst & _ & Hsh & Hvm).
  rewrite Hps in Hs1. injection Hs1 as <-. pose proof Hsafe as (_ & Hn & _).
  assert (p2sh = false) as ->.
  { destruct p2sh; [|done]. specialize (Hsh eq_refl). by rewrite safe_not_p2sh in Hsh by lia. }
  destruct (spend_sound vm s0 m hs lastop) as (Hmax & rs & Hl & Hs & Hm); try done; try (by rewrite Hvm).
  { rewrite Hvm, Hst. cbn. destruct (_ =? 0); [by right | by left]. }
  split; [done|]. exists rs. split_and!; [done | | done]. eapply Forall_impl; [exact Hs|]. intros r.
  apply signed_signs; rewrite Hvm; done.
Qed.

(** The holders of enough keys can spend.  If the signature script pushes pairs
    of a key and a signature that pass the encoding checks, sign the input and
    belong to different entries of [hs], as many as the output asks for, then
    the engine accepts. *)
Lemma safe_output_spendable pkScript tx i fl cache hashes amount vm ti s0 rs hs lastop :
  bytes_ok pkScript -> Forall (fun ti => bytes_ok (SignatureScript ti)) (tx_TxIn tx) -> cache_ok cache ->
  ParseScript pkScript = Ok (safe_pops (len rs) hs lastop) -> is_safe_pops (len rs) hs lastop ->
  len hs <= MaxPubKeysPerMultiSig -> NewEngine pkScript tx i fl cache hashes amount = Ok vm ->
  tx_TxIn tx !! Z.to_nat i = Some ti -> ParseScript (SignatureScript ti) = Ok s0 ->
  Forall2 is_push s0 (push_order rs) -> Forall (well_encoded vm) rs -> authorised vm rs hs ->
  Execute vm = Ok ().
Proof.
  intros Hpk Htx Hc Hps Hsafe Hmax Hnew Hti Hs0 Hpush Henc Hau.
  pose proof (NewEngine_inv _ _ _ _ _ _ _ _ Hpk Htx Hc Hnew) as Hinv.
  apply NewEngine_start in Hnew as (ti' & s0' & s1 & start & p2sh & md & _ & Hti' & Hs0' & Hs1 & Hst & _ & Hsh & Hvm).
  rewrite Hps in Hs1. injection Hs1 as <-. rewrite Hti in Hti'. injection Hti' as <-.
  rewrite Hs0 in Hs0'. injection Hs0' as <-. pose proof Hsafe as (Hm & Hn & _).
  assert (p2sh = false) as ->.
  { destruct p2sh; [|done]. specialize (Hsh eq_refl). by rewrite safe_not_p2sh in Hsh by lia. }
  assert (len (reverse rs) = len rs) as Hl by (unfold len; by rewrite length_reverse).
  rewrite <- push_order_reverse in Hpush. rewrite <- Hl in Hvm, Hsafe.
  apply (spend_live vm s0 (reverse rs) hs lastop); try done; try (by rewrite Hvm).
  - rewrite Hvm, Hst. cbn. destruct (Z.eqb_spec (len (SignatureScript ti)) 0) as [He|]; [|done].
    assert (SignatureScript ti = []) as Hnil by (apply length_zero_iff_nil; unfold len in He; lia).
    rewrite Hnil in Hs0. injection Hs0 as <-. pose proof (pair_items_len (reverse rs)) as Hlen.
    apply Forall2_length in Hpush. unfold len in *. cbn in Hpush. lia.
  - by apply Forall_reverse.
  - destruct Hau as [Hsg Hsub]. split; [by apply Forall_reverse|].
    by rewrite (Permutation_map _ (reverse_Permutation rs)).
Qed.

End live.

(** * An example

    A one-of-one output spent with the generator of the curve as the key; with
    the example primitives every key has the same hash. *)
#[local] Existing Instance example_primitives.
#[local] Existing Instance SigCache.example_random.

Definition example_hash : bytes := replicate 20 32.
Definition example_pkScript : bytes := [OP_1; OP_DATA_20] ++ example_hash ++ [OP_1; OP_CHECKSAFEMULTISIG].
Definition example_pubKey : bytes := Eval vm_compute in SerializeCompressed SecpPrime.example_key.
Definition example_signature : bytes := [0x30; 0x25; 2; 0x20] ++ drop 1 example_pubKey ++ [2; 1; 1].
Definition example_pair : bytes * bytes := (example_pubKey, example_signature ++ [1]).
Definition example_sigScript : bytes :=
  [OP_DATA_33] ++ example_pair.1 ++ [OP_DATA_40] ++ example_pair.2.
Definition spend_engine : Engine := example_engine example_pkScript example_sigScript.
Definition example_sig_pops : list parsedOpcode :=
  [mkPop (opcodeArray OP_DATA_33) example_pair.1; mkPop (opcodeArray OP_DATA_40) example_pair.2].
Definition example_last : parsedOpcode := mkPop (opcodeArray OP_CHECKSAFEMULTISIG) [].

Lemma example_bytes : bytes_ok example_pkScript /\ bytes_ok example_sigScript.
Proof. split; by repeat (constructor; [unfold is_byte; vm_compute; done|]). Qed.

Lemma example_NewEngine :
  NewEngine example_pkScript (example_spend example_sigScript) 0 StandardVerifyFlags None None 0 = Ok spend_engine.
Proof. vm_compute. reflexivity. Qed.

Lemma example_safe_pops : is_safe_pops 1 [example_hash] example_last.
Proof. split_and!; try (vm_compute; done); [repeat constructor | by left]. Qed.

Lemma example_hashed : exists h, safe_hash spend_engine [] 1 = Ok h.
Proof. eexists. reflexivity. Qed.

Lemma example_parsed : ParsePubKey example_pubKey = Ok SecpPrime.example_key.
Proof.
  assert (example_pubKey = SerializeCompressed SecpPrime.example_key) as -> by (vm_compute; reflexivity).
  apply SecpPrime.SerializeCompressed_parse, SecpPrime.valid_example_key.
Qed.

Lemma example_authorised : authorised spend_engine [example_pair] [example_hash].
Proof.
  split.
  - constructor; [|constructor]. destruct example_hashed as [h Hh].
    exists example_signature, 1, (mkSignature (X SecpPrime.example_key) 1), SecpPrime.example_key, h.
    split_and!; [reflexivity | vm_compute; reflexivity | exact example_parsed | exact Hh | reflexivity].
  - cbn [map]. unfold Hash160, example_hash. cbn [ripemd160 example_primitives]. unfold len.
    rewrite sha256_length. done.
Qed.

Lemma example_parsed_scripts :
  ParseScript example_pkScript = Ok (safe_pops 1 [example_hash] example_last) /\
  ParseScript example_sigScript = Ok example_sig_pops.
Proof. split; vm_compute; reflexivity. Qed.

Lemma example_pushes : Forall2 is_push example_sig_pops (push_order [example_pair]).
Proof.
  constructor; [|constructor; [|constructor]]; right;
    (split; [left; vm_compute; split; discriminate | vm_compute; reflexivity]).
Qed.

Lemma example_well_encoded : Forall (well_encoded spend_engine) [example_pair].
Proof. constructor; [|constructor]. exists example_signature, 1. split_and!; vm_compute; reflexivity. Qed.

Lemma example_executes : Execute spend_engine = Ok ().
Proof.
  apply (spend_live spend_engine example_sig_pops [example_pair] [example_hash] example_last).
  - apply (NewEngine_inv example_pkScript (example_spend example_sigScript) 0 StandardVerifyFlags None None 0);
      [apply example_bytes | apply example_sig_ok, example_bytes | exact I | apply example_NewEngine].
  - vm_compute. reflexivity.
  - vm_compute. reflexivity.
  - vm_compute. reflexivity.
  - vm_compute. reflexivity.
  - vm_compute. reflexivity.
  - vm_compute. reflexivity.
  - exact example_safe_pops.
  - vm_compute. discriminate.
  - exact example_pushes.
  - exact example_well_encoded.
  - exact example_authorised.
Qed.

End SpendLive.
