(* ===== verification/Utxo.v ===== *)
(** The view of the unspent transaction outputs: [src/blockchain/utxoviewpoint.go].

    A nil entry of the map is [Some None].  The entries and the outputs are
    reached only through the view, so a pointer to one of them is the value in
    the map, written back when the code changes it.  A nil script is [None].  A
    function that decompresses an output returns the changed entry.  The hash of
    a transaction is recomputed where the code caches it; the hash of a block is
    a field of the block. *)
From S2P Require Import Prelude Wire Crypto Script Compress SigCache.
Import wire Crypto Script Compress.
#[local] Open Scope Z_scope.

Module Utxo.

Record utxoOutput := mkUtxoOutput {
  out_spent : bool; out_compressed : bool; out_amount : Z; out_pkScript : option bytes }.

Record UtxoEntry := mkUtxoEntry {
  ent_modified : bool;
  ent_version : Z;
  ent_isCoinBase : bool;
  ent_blockHeight : Z;
  sparseOutputs : gmap Z utxoOutput
}.

Record UtxoViewpoint := mkUtxoViewpoint { entries : gmap bytes (option UtxoEntry); bestHash : bytes }.

(** What is recorded of a spent output. *)
Record spentTxOut := mkSpentTxOut {
  stxo_compressed : bool; stxo_version : Z; stxo_amount : Z; stxo_pkScript : option bytes;
  stxo_height : Z; stxo_isCoinBase : bool }.

(** The parts of a block that the view uses. *)
Record Block := mkBlock { Transactions : list MsgTx; Height : Z; BlockHash : bytes; PrevBlock : bytes }.

Definition set_sparseOutputs (e : UtxoEntry) (m : gmap Z utxoOutput) : UtxoEntry :=
  mkUtxoEntry (ent_modified e) (ent_version e) (ent_isCoinBase e) (ent_blockHeight e) m.
Definition set_modified (e : UtxoEntry) (b : bool) : UtxoEntry :=
  mkUtxoEntry b (ent_version e) (ent_isCoinBase e) (ent_blockHeight e) (sparseOutputs e).
Definition set_spent (o : utxoOutput) (b : bool) : utxoOutput :=
  mkUtxoOutput b (out_compressed o) (out_amount o) (out_pkScript o).
Definition set_entry (view : UtxoViewpoint) (h : bytes) (e : UtxoEntry) : UtxoViewpoint :=
  mkUtxoViewpoint (<[h := Some e]> (entries view)) (bestHash view).

(** [decompressScript] returns nil for an empty slice and for a public key that
    does not parse, and an empty slice for an empty script. *)
Definition decompressed (c : bytes) : res string (option bytes) :=
  s ← decompressScript c;
  let code := fst (deserializeVLQ c) in
  Ok (if (len s =? 0) && ((len c =? 0) || (code =? cstPayToPubKeyUncomp4) || (code =? cstPayToPubKeyUncomp5))
      then None else Some s).

Definition maybeDecompress (o : utxoOutput) : res string utxoOutput :=
  if negb (out_compressed o) then Ok o
  else
    s ← decompressed (default [] (out_pkScript o));
    Ok (mkUtxoOutput (out_spent o) false (i64 (decompressTxOutAmount (u64 (out_amount o)))) s).

(** * Entries *)
Definition IsOutputSpent (entry : UtxoEntry) (outputIndex : Z) : bool :=
  match sparseOutputs entry !! outputIndex with
  | None => true
  | Some output => out_spent output
  end.

Definition SpendOutput (entry : UtxoEntry) (outputIndex : Z) : UtxoEntry :=
  match sparseOutputs entry !! outputIndex with
  | None => entry
  | Some output =>
      if out_spent output then entry
      else set_modified (set_sparseOutputs entry (<[outputIndex := set_spent output true]> (sparseOutputs entry))) true
  end.

Definition IsFullySpent (entry : UtxoEntry) : bool :=
  bool_decide (map_Forall (fun _ o => out_spent o = true) (sparseOutputs entry)).

Definition AmountByIndex (entry : UtxoEntry) (outputIndex : Z) : res string (Z * UtxoEntry) :=
  match sparseOutputs entry !! outputIndex with
  | None => Ok (0, entry)
  | Some output =>
      output ← maybeDecompress output;
      Ok (out_amount output, set_sparseOutputs entry (<[outputIndex := output]> (sparseOutputs entry)))
  end.

Definition PkScriptByIndex (entry : UtxoEntry) (outputIndex : Z) : res string (option bytes * UtxoEntry) :=
  match sparseOutputs entry !! outputIndex with
  | None => Ok (None, entry)
  | Some output =>
      output ← maybeDecompress output;
      Ok (out_pkScript output, set_sparseOutputs entry (<[outputIndex := output]> (sparseOutputs entry)))
  end.

Definition Clone (entry : option UtxoEntry) : option UtxoEntry :=
  match entry with
  | None => None
  | Some e => Some (mkUtxoEntry false (ent_version e) (ent_isCoinBase e) (ent_blockHeight e) (sparseOutputs e))
  end.

Definition newUtxoEntry (version : Z) (isCoinBase : bool) (blockHeight : Z) : UtxoEntry :=
  mkUtxoEntry false version isCoinBase blockHeight ∅.

(** * Connecting transactions *)
Definition SetBestHash (view : UtxoViewpoint) (hash : bytes) : UtxoViewpoint :=
  mkUtxoViewpoint (entries view) hash.

Definition LookupEntry (view : UtxoViewpoint) (txHash : bytes) : option UtxoEntry :=
  match entries view !! txHash with Some (Some entry) => Some entry | _ => None end.

Definition zeroHash : bytes := replicate 32 0.

Definition isNullOutpoint (outpoint : OutPoint) : bool :=
  (Index outpoint =? 2 ^ 32 - 1) && bool_decide (Hash outpoint = zeroHash).

Definition IsCoinBaseTx (msgTx : MsgTx) : bool :=
  match tx_TxIn msgTx with
  | [ti] => isNullOutpoint (PreviousOutPoint ti)
  | _ => false
  end.

(** The loop over the outputs; an output that is already there gets the same
    fields as a new one. *)
Fixpoint add_outs (outs : gmap Z utxoOutput) (txOutIdx : Z) (txOuts : list TxOut) : gmap Z utxoOutput :=
  match txOuts with
  | [] => outs
  | txOut :: rest =>
      let outs :=
        if IsUnspendable (PkScript txOut) then outs
        else <[u32 txOutIdx := mkUtxoOutput false false (Value txOut) (Some (PkScript txOut))]> outs in
      add_outs outs (txOutIdx + 1) rest
  end.

Definition AddTxOuts (view : UtxoViewpoint) (tx : MsgTx) (blockHeight : Z) : UtxoViewpoint :=
  let hash := SigCache.TxHash tx in
  let entry :=
    match LookupEntry view hash with
    | None => newUtxoEntry (tx_Version tx) (IsCoinBaseTx tx) blockHeight
    | Some e => mkUtxoEntry (ent_modified e) (ent_version e) (ent_isCoinBase e) blockHeight (sparseOutputs e)
    end in
  let entry := set_modified entry true in
  set_entry view hash (set_sparseOutputs entry (add_outs (sparseOutputs entry) 0 (tx_TxOut tx))).

(** The inputs of a transaction, spent one after the other. *)
Fixpoint spend_inputs (view : UtxoViewpoint) (ins : list TxIn) (stxos : option (list spentTxOut))
    : res string (UtxoViewpoint * option (list spentTxOut)) :=
  match ins with
  | [] => Ok (view, stxos)
  | txIn :: rest =>
      let hash := Hash (PreviousOutPoint txIn) in
      let originIndex := Index (PreviousOutPoint txIn) in
      match LookupEntry view hash with
      | None => Err "view missing input"
      | Some entry =>
          let entry := SpendOutput entry originIndex in
          match stxos with
          | None => spend_inputs (set_entry view hash entry) rest None
          | Some l =>
              '(amount, entry) ← AmountByIndex entry originIndex;
              '(pkScript, entry) ← PkScriptByIndex entry originIndex;
              let stxo :=
                if IsFullySpent entry
                then mkSpentTxOut false (ent_version entry) amount pkScript (ent_blockHeight entry) (ent_isCoinBase entry)
                else mkSpentTxOut false (ent_version entry) amount pkScript 0 false in
              spend_inputs (set_entry view hash entry) rest (Some (l ++ [stxo]))
          end
      end
  end.

Definition connectTransaction (view : UtxoViewpoint) (tx : MsgTx) (blockHeight : Z)
    (stxos : option (list spentTxOut)) : res string (UtxoViewpoint * option (list spentTxOut)) :=
  if IsCoinBaseTx tx then Ok (AddTxOuts view tx blockHeight, stxos)
  else
    '(view, stxos) ← spend_inputs view (tx_TxIn tx) stxos;
    Ok (AddTxOuts view tx blockHeight, stxos).

Fixpoint connect_txs (view : UtxoViewpoint) (txs : list MsgTx) (height : Z) (stxos : option (list spentTxOut))
    : res string (UtxoViewpoint * option (list spentTxOut)) :=
  match txs with
  | [] => Ok (view, stxos)
  | tx :: rest =>
      '(view, stxos) ← connectTransaction view tx height stxos;
      connect_txs view rest height stxos
  end.

Definition connectTransactions (view : UtxoViewpoint) (block : Block) (stxos : option (list spentTxOut))
    : res string (UtxoViewpoint * option (list spentTxOut)) :=
  '(view, stxos) ← connect_txs view (Transactions block) (Height block) stxos;
  Ok (SetBestHash view (BlockHash block), stxos).

(** * Disconnecting transactions *)

(** [block.Transactions()[1:]] panics on a block without transactions. *)
Definition countSpentOutputs (block : Block) : res string Z :=
  txs ← slice (Transactions block) 1 (len (Transactions block));
  Ok (fold_left (fun n tx => n + len (tx_TxIn tx)) txs 0).

(** An output that a disconnected input spent. *)
Definition unspend (view : UtxoViewpoint) (txIn : TxIn) (stxo : spentTxOut) : UtxoViewpoint :=
  let originHash := Hash (PreviousOutPoint txIn) in
  let originIndex := Index (PreviousOutPoint txIn) in
  let entry :=
    match LookupEntry view originHash with
    | None => newUtxoEntry (stxo_version stxo) (stxo_isCoinBase stxo) (stxo_height stxo)
    | Some e => e
    end in
  let entry := set_modified entry true in
  let output :=
    match sparseOutputs entry !! originIndex with
    | None => mkUtxoOutput false (stxo_compressed stxo) (stxo_amount stxo) (stxo_pkScript stxo)
    | Some output => set_spent output false
    end in
  set_entry view originHash (set_sparseOutputs entry (<[originIndex := output]> (sparseOutputs entry))).

(** The inputs of a transaction, the last one first. *)
Fixpoint unspend_inputs (view : UtxoViewpoint) (rev_ins : list TxIn) (stxos : list spentTxOut) (stxoIdx : Z)
    : res string (UtxoViewpoint * Z) :=
  match rev_ins with
  | [] => Ok (view, stxoIdx)
  | txIn :: rest =>
      stxo ← idx stxos stxoIdx;
      unspend_inputs (unspend view txIn stxo) rest stxos (stxoIdx - 1)
  end.

(** The entry of a disconnected transaction, emptied. *)
Definition clear_tx (view : UtxoViewpoint) (tx : MsgTx) (isCoinbase : bool) (height : Z) : UtxoViewpoint :=
  let hash := SigCache.TxHash tx in
  let entry :=
    match LookupEntry view hash with
    | None => newUtxoEntry (tx_Version tx) isCoinbase height
    | Some e => e
    end in
  set_entry view hash (set_sparseOutputs (set_modified entry true) ∅).

(** The transactions with their position, the last one first. *)
Fixpoint disconnect_txs (view : UtxoViewpoint) (rev_txs : list (Z * MsgTx)) (height : Z)
    (stxos : list spentTxOut) (stxoIdx : Z) : res string UtxoViewpoint :=
  match rev_txs with
  | [] => Ok view
  | (txIdx, tx) :: rest =>
      let isCoinbase := txIdx =? 0 in
      let view := clear_tx view tx isCoinbase height in
      if isCoinbase then disconnect_txs view rest height stxos stxoIdx
      else
        '(view, stxoIdx) ← unspend_inputs view (reverse (tx_TxIn tx)) stxos stxoIdx;
        disconnect_txs view rest height stxos stxoIdx
  end.

Definition numbered (txs : list MsgTx) : list (Z * MsgTx) := zip (seqZ 0 (len txs)) txs.

Definition disconnectTransactions (view : UtxoViewpoint) (block : Block) (stxos : list spentTxOut)
    : res string UtxoViewpoint :=
  n ← countSpentOutputs block;
  if negb (len stxos =? n) then Err "disconnectTransactions called with bad spent transaction out information"
  else
    view ← disconnect_txs view (reverse (numbered (Transactions block))) (Height block) stxos (len stxos - 1);
    Ok (SetBestHash view (PrevBlock block)).

(** * Storing and loading *)
Definition commit_entry (entry : option UtxoEntry) : option (option UtxoEntry) :=
  match entry with
  | None => None
  | Some e => if ent_modified e && IsFullySpent e then None else Some (Some (set_modified e false))
  end.

Definition commit (view : UtxoViewpoint) : UtxoViewpoint :=
  mkUtxoViewpoint (omap commit_entry (entries view)) (bestHash view).

Definition NewUtxoViewpoint : UtxoViewpoint := mkUtxoViewpoint ∅ zeroHash.

End Utxo.
