(* ===== verification/GoTime.v ===== *)
(** Go's [time] package, as far as the chain uses it.

    A [Time] counts seconds from the year 1 in an int64, with the nanoseconds of
    the second apart; a [Duration] is an int64 of nanoseconds. *)
From S2P Require Import Prelude.
#[local] Open Scope Z_scope.

Module GoTime.

Record Time := mkTime { sec : Z; nsec : Z }.

(** The seconds between the year 1 and the Unix epoch. *)
Definition unixToInternal : Z := 62135596800.

Definition Nanosecond : Z := 1.
Definition Millisecond : Z := 1000000.
Definition Second : Z := 1000000000.

Definition Unix (t : Time) : Z := i64 (sec t - unixToInternal).
Definition UnixNano (t : Time) : Z := i64 (Unix t * Second + nsec t).

(** [time.Unix(s, 0)]. *)
Definition time_Unix (s : Z) : Time := mkTime (i64 (s + unixToInternal)) 0.

(** A difference that does not fit saturates. *)
Definition Sub (t u : Time) : Z :=
  Z.max (- 2 ^ 63) (Z.min (2 ^ 63 - 1) ((sec t - sec u) * Second + (nsec t - nsec u))).

Definition After (t u : Time) : bool := (sec u <? sec t) || ((sec t =? sec u) && (nsec u <? nsec t)).
Definition Equal (t u : Time) : bool := (sec t =? sec u) && (nsec t =? nsec u).

(** A time that a Go program can hold, and one without a fraction of a second. *)
Definition time_ok (t : Time) : Prop := is_s 64 (sec t) /\ 0 <= nsec t < Second.
Definition whole (t : Time) : Prop := is_s 64 (sec t) /\ nsec t = 0.

Lemma wraps_idem w x : 0 < w -> wraps w (wraps w x) = wraps w x.
Proof. intros Hw. apply wraps_small; [done|]. by apply wraps_range. Qed.

Lemma Unix_time_Unix s : is_s 64 s -> Unix (time_Unix s) = s.
Proof.
  intros Hs. unfold Unix, time_Unix. cbn [sec]. rewrite <- Z.add_opp_r, wraps_add_wraps.
  replace (s + unixToInternal + - unixToInternal) with s by lia. by apply wraps_small.
Qed.

Lemma time_Unix_Unix t : whole t -> time_Unix (Unix t) = t.
Proof.
  intros [Hs Hn]. unfold Unix, time_Unix. rewrite wraps_add_wraps.
  replace (sec t - unixToInternal + unixToInternal) with (sec t) by lia.
  rewrite wraps_small by done. destruct t. cbn in *. by subst.
Qed.

Lemma whole_time_Unix s : whole (time_Unix s).
Proof. split; [|done]. by apply wraps_range. Qed.

(** The test that a time has no fraction of a second. *)
Lemma Equal_whole t : is_s 64 (sec t) -> Equal t (time_Unix (Unix t)) = true <-> whole t.
Proof.
  intros Hs. unfold Equal, Unix, time_Unix, whole. cbn [sec nsec]. rewrite wraps_add_wraps.
  replace (sec t - unixToInternal + unixToInternal) with (sec t) by lia.
  rewrite wraps_small by done. rewrite andb_true_iff, !Z.eqb_eq. tauto.
Qed.

End GoTime.
