(* ===== verification/Header.v ===== *)
(** Block headers: [src/wire/blockheader.go].

    The proof-of-work hash is SHA-3 of an external package: it is the operation
    of the class [PowHash], with the length of a digest as its law.  Signing a
    header (a private key) is not modelled. *)
From S2P Require Import Prelude PubKey Wire Crypto Signature GoTime.
Import btcec wire Crypto GoTime.
#[local] Open Scope Z_scope.

Module Header.

Definition BlockValidatingPubKeySize : Z := 33.
Definition BlockSignatureSize : Z := 80.
Definition MaxBlockHeaderPayload : Z := 32 + HashSize * 2 + BlockValidatingPubKeySize + BlockSignatureSize.

Record BlockHeader := mkBlockHeader {
  hdr_Version : Z; hdr_PrevBlock : bytes; hdr_MerkleRoot : bytes; hdr_Timestamp : Time; hdr_Bits : Z;
  hdr_Height : Z; hdr_Size : Z; hdr_Nonce : Z; hdr_ValidatingPubKey : bytes; hdr_Signature : bytes }.

(** SHA3-256 of golang.org/x/crypto/sha3. *)
Class PowHash := {
  sha3_Sum256 : bytes -> bytes;
  sha3_length : forall b, length (sha3_Sum256 b) = 32%nat;
  sha3_ok : forall b, bytes_ok (sha3_Sum256 b);
}.

Definition PowHashB `{PowHash} (b : bytes) : bytes := sha3_Sum256 b.
Definition PowHashH `{PowHash} (b : bytes) : bytes := sha3_Sum256 b.

(** * Encoding *)
Definition writeBlockHeader (bh : BlockHeader) : bytes :=
  putUint 4 (hdr_Version bh) ++ hdr_PrevBlock bh ++ hdr_MerkleRoot bh ++
  putUint 8 (u64 (Unix (hdr_Timestamp bh))) ++ putUint 4 (hdr_Bits bh) ++ putUint 4 (hdr_Height bh) ++
  putUint 4 (hdr_Size bh) ++ putUint 8 (hdr_Nonce bh) ++ hdr_ValidatingPubKey bh ++ hdr_Signature bh.

Definition readBlockHeader (r : bytes) : res string (BlockHeader * bytes) :=
  '(version, r) ← readUint 4 r;
  '(prev, r) ← readFull HashSize r;
  '(root, r) ← readFull HashSize r;
  '(t, r) ← readUint 8 r;
  '(bits, r) ← readUint 4 r;
  '(height, r) ← readUint 4 r;
  '(size, r) ← readUint 4 r;
  '(nonce, r) ← readUint 8 r;
  '(key, r) ← readFull BlockValidatingPubKeySize r;
  '(sig, r) ← readFull BlockSignatureSize r;
  Ok (mkBlockHeader version prev root (time_Unix (i64 t)) bits height size nonce key sig, r).

Definition Serialize (h : BlockHeader) : bytes := writeBlockHeader h.
Definition Deserialize (r : bytes) : res string (BlockHeader * bytes) := readBlockHeader r.

(** * Hashes *)
Section hashes.
Context `{PowHash}.

Definition BlockHash (h : BlockHeader) : bytes := PowHashH (writeBlockHeader h).

Definition hashForSigning (h : BlockHeader) : bytes :=
  PowHashB (putUint 4 (hdr_Version h) ++ putUint 8 (u64 (Unix (hdr_Timestamp h))) ++
            hdr_PrevBlock h ++ hdr_MerkleRoot h).

Definition Verify `{Primitives} (h : BlockHeader) (pubKey : PublicKey) : res string bool :=
  match Sig.ParseDERSignature (hdr_Signature h) with
  | Err _ => Ok false
  | Ok sig => Ok (Crypto.Verify sig (hashForSigning h) pubKey)
  | Panic => Panic
  | Hang => Hang
  end.
End hashes.

(** * Well-formed headers *)
Definition wf_header (h : BlockHeader) : Prop :=
  is_u 32 (hdr_Version h) /\ (len (hdr_PrevBlock h) = 32 /\ bytes_ok (hdr_PrevBlock h)) /\
  (len (hdr_MerkleRoot h) = 32 /\ bytes_ok (hdr_MerkleRoot h)) /\ whole (hdr_Timestamp h) /\
  is_u 32 (hdr_Bits h) /\ is_u 32 (hdr_Height h) /\ is_u 32 (hdr_Size h) /\ is_u 64 (hdr_Nonce h) /\
  (len (hdr_ValidatingPubKey h) = 33 /\ bytes_ok (hdr_ValidatingPubKey h)) /\
  (len (hdr_Signature h) = 80 /\ bytes_ok (hdr_Signature h)).

#[global] Instance readHash_codec : Codec (readFull HashSize) (fun b => b) (fun b => len b = 32 /\ bytes_ok b).
Proof. by apply (readFull_codec HashSize). Qed.
#[global] Instance readKey_codec :
  Codec (readFull BlockValidatingPubKeySize) (fun b => b) (fun b => len b = 33 /\ bytes_ok b).
Proof. by apply (readFull_codec BlockValidatingPubKeySize). Qed.
#[global] Instance readSig_codec :
  Codec (readFull BlockSignatureSize) (fun b => b) (fun b => len b = 80 /\ bytes_ok b).
Proof. by apply (readFull_codec BlockSignatureSize). Qed.

(** A read of a fixed number of bytes that were written. *)
Lemma read_hash b rest : len b = 32 /\ bytes_ok b -> readFull HashSize (b ++ rest) = Ok (b, rest).
Proof. apply (@codec_read _ _ _ _ readHash_codec). Qed.
Lemma read_key b rest : len b = 33 /\ bytes_ok b -> readFull BlockValidatingPubKeySize (b ++ rest) = Ok (b, rest).
Proof. apply (@codec_read _ _ _ _ readKey_codec). Qed.
Lemma read_sig b rest : len b = 80 /\ bytes_ok b -> readFull BlockSignatureSize (b ++ rest) = Ok (b, rest).
Proof. apply (@codec_read _ _ _ _ readSig_codec). Qed.

#[global] Instance readBlockHeader_codec : Codec readBlockHeader writeBlockHeader wf_header.
Proof.
  split.
  - intros [ver prev root t bits height size nonce key sig] rest
      (Hv & Hp & Hm & Ht & Hb & Hh & Hs & Hn & Hk & Hg).
    unfold readBlockHeader, writeBlockHeader.
    cbn [hdr_Version hdr_PrevBlock hdr_MerkleRoot hdr_Timestamp hdr_Bits hdr_Height hdr_Size hdr_Nonce
         hdr_ValidatingPubKey hdr_Signature] in *.
    rewrite <- !app_assoc.
    rewrite codec_read by done. cbn [mbind res_bind]. rewrite read_hash by done. cbn [mbind res_bind].
    rewrite read_hash by done. cbn [mbind res_bind].
    rewrite codec_read by (apply wrapu_range; lia). cbn [mbind res_bind].
    do 3 (rewrite codec_read by done; cbn [mbind res_bind]).
    rewrite codec_read by done. cbn [mbind res_bind].
    rewrite read_key by done. cbn [mbind res_bind]. rewrite read_sig by done. cbn [mbind res_bind].
    rewrite wraps_wrapu by (try done; by apply wraps_range). by rewrite time_Unix_Unix.
  - intros r h rest Hok Hr. unfold readBlockHeader in Hr.
    read_inv Hr Hv E1. read_inv Hr Hp E2. read_inv Hr Hm E3. read_inv Hr Ht E4. read_inv Hr Hb E5.
    read_inv Hr Hh E6. read_inv Hr Hs E7. read_inv Hr Hn E8. read_inv Hr Hk E9. read_inv Hr Hg E10.
    injection Hr as <- <-. unfold wf_header, writeBlockHeader.
    cbn [hdr_Version hdr_PrevBlock hdr_MerkleRoot hdr_Timestamp hdr_Bits hdr_Height hdr_Size hdr_Nonce
         hdr_ValidatingPubKey hdr_Signature].
    destruct_and!. split; [split_and!; try done; apply whole_time_Unix|]. subst.
    rewrite Unix_time_Unix by (by apply wraps_range). rewrite wrapu_wraps by done. by rewrite <- !app_assoc.
Qed.

Lemma len_writeBlockHeader h : wf_header h -> len (writeBlockHeader h) = MaxBlockHeaderPayload.
Proof.
  intros (_ & [Hp _] & [Hm _] & _ & _ & _ & _ & _ & [Hk _] & [Hg _]). unfold writeBlockHeader.
  rewrite !len_app, !len_putUint, Hp, Hm, Hk, Hg. done.
Qed.

End Header.
