(* ===== verification/MsgBlock.v ===== *)
(** Blocks: [src/wire/msgblock.go], and the wrapper of [src/provautil/block.go].

    The wrapper caches the hash, the bytes and the wrapped transactions; a cached
    value is recomputed here, except for the bytes, which are kept as they were
    read. *)
From S2P Require Import Prelude Wire Crypto SigCache GoTime Header Utxo.
Import wire Crypto Header.
#[local] Open Scope Z_scope.

Module MsgBlock.

Definition MaxBlockPayload : Z := 2500000.
Definition minTxPayload : Z := 10.
Definition maxTxPerBlock : Z := MaxBlockPayload / minTxPayload + 1.

Record TxLoc := mkTxLoc { TxStart : Z; TxLen : Z }.

Record MsgBlock := mkMsgBlock { msg_Header : BlockHeader; msg_Transactions : list MsgTx }.

Definition AddTransaction (msg : MsgBlock) (tx : MsgTx) : MsgBlock :=
  mkMsgBlock (msg_Header msg) (msg_Transactions msg ++ [tx]).

Definition ClearTransactions (msg : MsgBlock) : MsgBlock := mkMsgBlock (msg_Header msg) [].

(** * Encoding *)
Definition BtcEncode (msg : MsgBlock) : bytes :=
  writeBlockHeader (msg_Header msg) ++ WriteVarInt (len (msg_Transactions msg)) ++
  concat (map wire.Serialize (msg_Transactions msg)).

Definition Serialize (msg : MsgBlock) : bytes := BtcEncode msg.

Definition SerializeSize (msg : MsgBlock) : Z :=
  let n := MaxBlockHeaderPayload + VarIntSerializeSize (len (msg_Transactions msg)) in
  fold_left (fun n tx => n + wire.SerializeSize tx) (msg_Transactions msg) n.

(** * Decoding *)
Definition BtcDecode (r : bytes) : res string (MsgBlock * bytes) :=
  '(header, r) ← readBlockHeader r;
  '(txCount, r) ← ReadVarInt r;
  if maxTxPerBlock <? txCount then Err "too many transactions to fit into a block"
  else
    '(txs, r) ← readMany wire.BtcDecode (Z.to_nat txCount) r;
    Ok (mkMsgBlock header txs, r).

Definition Deserialize (r : bytes) : res string (MsgBlock * bytes) := BtcDecode r.

(** The transactions with their places in the buffer, whose length is [fullLen]. *)
Fixpoint read_locs (fullLen : Z) (count : nat) (r : bytes) : res string (list MsgTx * list TxLoc * bytes) :=
  match count with
  | O => Ok ([], [], r)
  | S count =>
      let txStart := fullLen - len r in
      '(tx, r) ← wire.Deserialize r;
      let txLen := (fullLen - len r) - txStart in
      '(txs, txLocs, r) ← read_locs fullLen count r;
      Ok (tx :: txs, mkTxLoc txStart txLen :: txLocs, r)
  end.

Definition DeserializeTxLoc (r : bytes) : res string (MsgBlock * list TxLoc * bytes) :=
  let fullLen := len r in
  '(header, r) ← readBlockHeader r;
  '(txCount, r) ← ReadVarInt r;
  if maxTxPerBlock <? txCount then Err "too many transactions to fit into a block"
  else
    '(txs, txLocs, r) ← read_locs fullLen (Z.to_nat txCount) r;
    Ok (mkMsgBlock header txs, txLocs, r).

(** * Hashes *)
Definition TxHashWithSig (msg : MsgTx) : bytes := DoubleHashH (wire.Serialize msg).

Definition TxHashes (msg : MsgBlock) : list bytes := map SigCache.TxHash (msg_Transactions msg).

Definition BlockHash `{PowHash} (msg : MsgBlock) : bytes := Header.BlockHash (msg_Header msg).

(** * The wrapper of provautil *)
Record Block := mkBlock { msgBlock : MsgBlock; serializedBlock : bytes }.

Definition Bytes (b : Block) : bytes :=
  if negb (len (serializedBlock b) =? 0) then serializedBlock b else Serialize (msgBlock b).

(** The test for the range lets the number of transactions through. *)
Definition Tx (b : Block) (txNum : Z) : res string MsgTx :=
  let numTx := len (msg_Transactions (msgBlock b)) in
  if (txNum <? 0) || (numTx <? u64 txNum) then Err "transaction index is out of range"
  else idx (msg_Transactions (msgBlock b)) txNum.

Definition TxLocs (b : Block) : res string (list TxLoc) :=
  '(_, txLocs, _) ← DeserializeTxLoc (Bytes b); Ok txLocs.

Definition SetHeight (b : Block) (height : Z) : Block :=
  let h := msg_Header (msgBlock b) in
  mkBlock (mkMsgBlock (mkBlockHeader (hdr_Version h) (hdr_PrevBlock h) (hdr_MerkleRoot h) (hdr_Timestamp h)
    (hdr_Bits h) height (hdr_Size h) (hdr_Nonce h) (hdr_ValidatingPubKey h) (hdr_Signature h))
    (msg_Transactions (msgBlock b))) (serializedBlock b).

Definition NewBlockFromBytes (serialized : bytes) : res string Block :=
  '(msg, _) ← Deserialize serialized; Ok (mkBlock msg serialized).

(** What the views use of a block. *)
Definition utxo_block `{PowHash} (msg : MsgBlock) : Utxo.Block :=
  Utxo.mkBlock (msg_Transactions msg) (hdr_Height (msg_Header msg)) (BlockHash msg) (hdr_PrevBlock (msg_Header msg)).

(** * Well-formed blocks *)
Definition wf_block (msg : MsgBlock) : Prop :=
  wf_header (msg_Header msg) /\ Forall wf_tx (msg_Transactions msg) /\ len (msg_Transactions msg) <= maxTxPerBlock.

Lemma maxTxPerBlock_eq : maxTxPerBlock = 250001.
Proof. done. Qed.

#[global] Instance BtcDecode_block_codec : Codec BtcDecode Serialize wf_block.
Proof.
  split.
  - intros [h txs] rest (Hh & Htx & Hl). unfold BtcDecode, Serialize, BtcEncode.
    cbn [msg_Header msg_Transactions] in *. rewrite maxTxPerBlock_eq in *. pose proof (len_nonneg txs).
    rewrite <- !app_assoc, codec_read by done. cbn [mbind res_bind].
    rewrite codec_read by (unfold is_u; lia). cbn [mbind res_bind].
    replace (250001 <? len txs) with false by lia.
    rewrite (@codec_read _ _ _ _ (readMany_codec wire.BtcDecode wire.Serialize wf_tx _))
      by (split; [unfold len; lia | done]).
    done.
  - intros r msg rest Hok Hr. unfold BtcDecode in Hr. rewrite maxTxPerBlock_eq in Hr.
    read_inv Hr Hh E1. read_inv Hr Hn E2. case_match eqn:Hm; [done|].
    read_inv Hr Htx E3. injection Hr as <- <-. destruct Htx as [Hl Htx]. unfold is_u in Hn.
    unfold wf_block, Serialize, BtcEncode. cbn [msg_Header msg_Transactions].
    match type of Hl with length ?l = Z.to_nat ?z => assert (len l = z) as -> by (unfold len; lia) end.
    rewrite maxTxPerBlock_eq. split; [split_and!; [done | done | lia]|]. subst. by rewrite <- !app_assoc.
Qed.

(** * Sizes and places *)
Lemma fold_sizes txs n : fold_left (fun n tx => n + wire.SerializeSize tx) txs n = n + sum (map wire.SerializeSize txs).
Proof.
  revert n. induction txs as [|tx txs IH]; intros n; cbn [fold_left map sum fold_right]; [lia|].
  rewrite IH. unfold sum. lia.
Qed.

Lemma len_Serialize_tx tx : wf_tx tx -> len (wire.Serialize tx) = wire.SerializeSize tx.
Proof.
  intros (_ & Hin & _). apply len_btcEncode. eapply Forall_impl; [exact Hin|]. by intros ti (? & _).
Qed.

Lemma len_Serialize msg : wf_block msg -> len (Serialize msg) = SerializeSize msg.
Proof.
  intros (Hh & Htx & _). unfold Serialize, BtcEncode, SerializeSize.
  rewrite !len_app, len_writeBlockHeader, len_WriteVarInt, fold_sizes by done.
  rewrite (len_concat_map wire.Serialize wire.SerializeSize); [lia|].
  eapply Forall_impl; [exact Htx|]. apply len_Serialize_tx.
Qed.

(** The places found are those of the serialized transactions. *)
Lemma read_locs_spec txs pre rest :
  Forall wf_tx txs ->
  exists locs,
    read_locs (len pre + len (concat (map wire.Serialize txs) ++ rest)) (length txs)
      (concat (map wire.Serialize txs) ++ rest) = Ok (txs, locs, rest) /\
    Forall2 (fun tx l => slice (pre ++ concat (map wire.Serialize txs) ++ rest) (TxStart l) (TxStart l + TxLen l) =
      @Ok string bytes (wire.Serialize tx)) txs locs.
Proof.
  intros Hwf. revert pre. induction Hwf as [|tx txs Htx Hwf IH]; intros pre; [by exists []|].
  cbn [map concat length read_locs].
  destruct (IH (pre ++ wire.Serialize tx)) as (locs & Hlocs & Hall).
  pose proof (codec_read (read := wire.Deserialize) tx (concat (map wire.Serialize txs) ++ rest) Htx) as Hr.
  rewrite <- app_assoc. rewrite Hr. cbn [mbind res_bind].
  replace (len pre + len (wire.Serialize tx ++ concat (map wire.Serialize txs) ++ rest))
    with (len (pre ++ wire.Serialize tx) + len (concat (map wire.Serialize txs) ++ rest)) by (rewrite !len_app; lia).
  rewrite Hlocs. cbn [mbind res_bind]. eexists. split; [done|].
  rewrite <- app_assoc in Hall. constructor; [|done]. cbn [TxStart TxLen].
  apply slice_Ok. rewrite !len_app. pose proof (len_nonneg pre). pose proof (len_nonneg (wire.Serialize tx)).
  pose proof (len_nonneg (concat (map wire.Serialize txs))). pose proof (len_nonneg rest).
  split_and!; [lia..|].
  replace (Z.to_nat (len pre + _ + _ - _)) with (length pre) by (unfold len; lia).
  rewrite drop_app_length. replace (Z.to_nat _) with (length (wire.Serialize tx)) by (unfold len; lia).
  by rewrite take_app_length.
Qed.

(** A block is read back from its bytes, and whatever is read is a
    well-formed block with the consumed bytes as its serialization.  The size that the header of
    a block is compared with is the length of these bytes, and the places that
    [DeserializeTxLoc] returns are those of the serialized transactions. *)
Theorem block_roundtrip msg rest :
  wf_block msg ->
  Deserialize (Serialize msg ++ rest) = Ok (msg, rest) /\
  SerializeSize msg = len (Serialize msg) /\
  (forall r msg' rest', bytes_ok r -> Deserialize r = Ok (msg', rest') ->
     wf_block msg' /\ r = Serialize msg' ++ rest') /\
  exists locs, DeserializeTxLoc (Serialize msg ++ rest) = Ok (msg, locs, rest) /\
    Forall2 (fun tx l => slice (Serialize msg ++ rest) (TxStart l) (TxStart l + TxLen l) =
      @Ok string bytes (wire.Serialize tx)) (msg_Transactions msg) locs.
Proof.
  intros Hwf. pose proof (codec_read (read := BtcDecode) msg rest Hwf) as Hr.
  split_and!; [done | symmetry; by apply len_Serialize | |].
  - intros r msg' rest'. apply (codec_inv (read := BtcDecode)).
  - destruct msg as [h txs]. destruct Hwf as (Hh & Htx & Hl). cbn [msg_Header msg_Transactions] in *.
    rewrite maxTxPerBlock_eq in Hl. pose proof (len_nonneg txs).
    unfold DeserializeTxLoc, Serialize, BtcEncode. cbn [msg_Header msg_Transactions].
    set (pre := writeBlockHeader h ++ WriteVarInt (len txs)).
    destruct (read_locs_spec txs pre rest Htx) as (locs & Hlocs & Hall). exists locs.
    replace ((writeBlockHeader h ++ WriteVarInt (len txs) ++ concat (map wire.Serialize txs)) ++ rest)
      with (pre ++ concat (map wire.Serialize txs) ++ rest) by (unfold pre; by rewrite <- !app_assoc).
    split; [|done]. rewrite len_app. unfold pre at 2. rewrite <- app_assoc.
    rewrite (codec_read (read := readBlockHeader)) by done. cbn [mbind res_bind].
    rewrite codec_read by (unfold is_u; lia). cbn [mbind res_bind]. rewrite maxTxPerBlock_eq.
    replace (250001 <? len txs) with false by lia.
    replace (Z.to_nat (len txs)) with (length txs) by (unfold len; lia). by rewrite Hlocs.
Qed.

Definition example_header : BlockHeader :=
  mkBlockHeader 4 (replicate 32 1) (replicate 32 2) (GoTime.time_Unix 1500000000) 0x1d00ffff 7 500 99
    (replicate 33 3) (replicate 80 4).

Lemma wf_example_header : wf_header example_header.
Proof.
  unfold wf_header, example_header.
  cbn [hdr_Version hdr_PrevBlock hdr_MerkleRoot hdr_Timestamp hdr_Bits hdr_Height hdr_Size hdr_Nonce
       hdr_ValidatingPubKey hdr_Signature].
  split_and!; try (unfold is_u; lia); try reflexivity; try (apply bytesb_ok; reflexivity).
  apply GoTime.whole_time_Unix.
Qed.

(** The wrapper panics for the index just past the last transaction. *)
Lemma Tx_off_by_one b :
  len (msg_Transactions (msgBlock b)) < 2 ^ 63 -> Tx b (len (msg_Transactions (msgBlock b))) = Panic.
Proof.
  intros Hl. unfold Tx. pose proof (len_nonneg (msg_Transactions (msgBlock b))).
  rewrite wrapu_small by (unfold is_u; lia). replace (_ || _) with false by lia.
  apply idx_out_of_range. lia.
Qed.

End MsgBlock.
