(* ===== verification/NetMsg.v ===== *)
(** The messages of the peer protocol: [src/wire/netaddress.go], [invvect.go] and
    the [msg*.go] files beside transactions and blocks.

    A message is encoded into a buffer, whose writes do not fail, so an encoder
    returns the bytes or the error of a limit.  A string is its bytes.  The limit
    tests before the loops of the decoders make the appends in them succeed. *)
From S2P Require Import Prelude Wire GoTime Header MsgBlock.
Import wire GoTime Header.
#[local] Open Scope Z_scope.

Module NetMsg.

(** * Protocol versions (protocol.go) and limits *)
Definition ProtocolVersion : Z := 70013.
Definition MultipleAddressVersion : Z := 209.
Definition NetAddressTimeVersion : Z := 31402.
Definition BIP0031Version : Z := 60000.
Definition BIP0035Version : Z := 60002.
Definition BIP0037Version : Z := 70001.
Definition RejectVersion : Z := 70002.
Definition SendHeadersVersion : Z := 70012.
Definition FeeFilterVersion : Z := 70013.

Definition MaxVarIntPayload : Z := 9.
Definition MaxUserAgentLen : Z := 256.
Definition MaxAddrPerMsg : Z := 1000.
Definition MaxInvPerMsg : Z := 50000.
Definition maxInvVectPayload : Z := 4 + HashSize.
Definition MaxBlockLocatorsPerMsg : Z := 500.
Definition MaxBlockHeadersPerMsg : Z := 2000.
Definition maxFlagsPerMerkleBlock : Z := MsgBlock.maxTxPerBlock / 8.
Definition MaxFilterAddDataSize : Z := 520.
Definition MaxFilterLoadHashFuncs : Z := 50.
Definition MaxFilterLoadFilterSize : Z := 36000.
Definition fixedAlertSize : Z := 45.
Definition maxSignatureSize : Z := 72.
Definition maxAlertSize : Z := MaxMessagePayload - maxSignatureSize - MaxVarIntPayload - 1.
Definition maxCountSetCancel : Z := (maxAlertSize - fixedAlertSize - MaxVarIntPayload + 1) / 4.
Definition maxCountSetSubVer : Z := (maxAlertSize - fixedAlertSize - MaxVarIntPayload + 1) / 256.

(** * Strings and byte arrays (common.go) *)
Definition ReadVarString (r : bytes) : res string (bytes * bytes) :=
  '(count, r) ← ReadVarInt r;
  if MaxMessagePayload <? count then Err "variable length string is too long"
  else readFull count r.

Definition WriteVarString (str : bytes) : bytes := WriteVarInt (len str) ++ str.

Definition ReadVarBytes (maxAllowed : Z) (r : bytes) : res string (bytes * bytes) :=
  '(count, r) ← ReadVarInt r;
  if maxAllowed <? count then Err "larger than the max allowed size"
  else readFull count r.

Definition read_bool (r : bytes) : res string (bool * bytes) :=
  '(rv, r) ← readUint 1 r;
  Ok (negb (rv =? 0x00), r).

Definition write_bool (b : bool) : bytes := putUint 1 (if b then 0x01 else 0x00).

(** * Network addresses (netaddress.go) *)

(** [net.IP] is a slice of bytes, nil when it is empty. *)
Record NetAddress := mkNetAddress { na_Timestamp : Time; na_Services : Z; na_IP : bytes; na_Port : Z }.

(** The zero value of [time.Time]. *)
Definition zero_time : Time := mkTime 0 0.

Definition HasService (services service : Z) : bool := Z.land services service =? service.
Definition AddService (services service : Z) : Z := Z.lor services service.

Definition maxNetAddressPayload (pver : Z) : Z :=
  let plen := 26 in
  if NetAddressTimeVersion <=? pver then plen + 4 else plen.

(** [net.IP.To16]: four bytes are mapped into the last four of an IPv6 address. *)
Definition To16 (ip : bytes) : bytes :=
  if len ip =? 4 then replicate 10 0 ++ [0xff; 0xff] ++ ip
  else if len ip =? 16 then ip
  else [].

(** The array after [copy(ip[:], na.IP.To16())]. *)
Definition ip16 (ip : bytes) : bytes :=
  let b := To16 ip in
  b ++ replicate (16 - length b) 0.

Definition readNetAddress (pver : Z) (ts : bool) (r : bytes) : res string (NetAddress * bytes) :=
  '(t, r) ← (if ts && (NetAddressTimeVersion <=? pver)
             then '(rv, r) ← readUint 4 r; Ok (time_Unix rv, r)
             else Ok (zero_time, r));
  '(services, r) ← readUint 8 r;
  '(ip, r) ← readFull 16 r;
  '(port, r) ← readFull 2 r;
  Ok (mkNetAddress t services ip (be_decode port), r).

Definition writeNetAddress (pver : Z) (ts : bool) (na : NetAddress) : bytes :=
  (if ts && (NetAddressTimeVersion <=? pver) then putUint 4 (u32 (Unix (na_Timestamp na))) else []) ++
  putUint 8 (na_Services na) ++ ip16 (na_IP na) ++ be_encode 2 (na_Port na).

(** * Version (msgversion.go) *)
Record MsgVersion := mkMsgVersion {
  ver_ProtocolVersion : Z; ver_Services : Z; ver_Timestamp : Time; ver_AddrYou : NetAddress; ver_AddrMe : NetAddress;
  ver_Nonce : Z; ver_UserAgent : bytes; ver_LastBlock : Z; ver_DisableRelayTx : bool }.

Definition validateUserAgent (userAgent : bytes) : res string unit :=
  if MaxUserAgentLen <? len userAgent then Err "user agent too long" else Ok ().

(** The fields after the first address are read while bytes are left. *)
Definition when_left {A} (r : bytes) (f : reader A) (default : A) : res string (A * bytes) :=
  if 0 <? len r then f r else Ok (default, r).

Definition zero_address : NetAddress := mkNetAddress zero_time 0 [] 0.

Definition read_user_agent (r : bytes) : res string (bytes * bytes) :=
  '(userAgent, r) ← ReadVarString r;
  _ ← validateUserAgent userAgent;
  Ok (userAgent, r).

Definition MsgVersion_BtcDecode (pver : Z) (r : bytes) : res string (MsgVersion * bytes) :=
  '(version, r) ← readUint 4 r;
  '(services, r) ← readUint 8 r;
  '(t, r) ← readUint 8 r;
  '(you, r) ← readNetAddress pver false r;
  '(me, r) ← when_left r (readNetAddress pver false) zero_address;
  '(nonce, r) ← when_left r (readUint 8) 0;
  '(userAgent, r) ← when_left r read_user_agent [];
  '(lastBlock, r) ← when_left r (readUint 4) 0;
  '(relayTx, r) ← when_left r read_bool true;
  Ok (mkMsgVersion (i32 version) services (time_Unix (i64 t)) you me nonce userAgent lastBlock (negb relayTx), r).

Definition MsgVersion_BtcEncode (pver : Z) (msg : MsgVersion) : res string bytes :=
  _ ← validateUserAgent (ver_UserAgent msg);
  Ok (putUint 4 (u32 (ver_ProtocolVersion msg)) ++ putUint 8 (ver_Services msg) ++ putUint 8 (u64 (Unix (ver_Timestamp msg))) ++
      writeNetAddress pver false (ver_AddrYou msg) ++ writeNetAddress pver false (ver_AddrMe msg) ++
      putUint 8 (ver_Nonce msg) ++ WriteVarString (ver_UserAgent msg) ++ putUint 4 (ver_LastBlock msg) ++
      (if BIP0037Version <=? pver then write_bool (negb (ver_DisableRelayTx msg)) else [])).

Definition MsgVersion_MaxPayloadLength (pver : Z) : Z :=
  33 + maxNetAddressPayload pver * 2 + MaxVarIntPayload + MaxUserAgentLen.

(** * Lists of addresses (msgaddr.go) *)
Definition AddAddress (addrList : list NetAddress) (na : NetAddress) : res string (list NetAddress) :=
  if MaxAddrPerMsg <? len addrList + 1 then Err "too many addresses in message" else Ok (addrList ++ [na]).

Definition MsgAddr_BtcDecode (pver : Z) (r : bytes) : res string (list NetAddress * bytes) :=
  '(count, r) ← ReadVarInt r;
  if MaxAddrPerMsg <? count then Err "too many addresses for message"
  else readMany (readNetAddress pver true) (Z.to_nat count) r.

Definition MsgAddr_BtcEncode (pver : Z) (addrList : list NetAddress) : res string bytes :=
  let count := len addrList in
  if (pver <? MultipleAddressVersion) && (1 <? count) then Err "too many addresses for message of protocol version"
  else if MaxAddrPerMsg <? count then Err "too many addresses for message"
  else Ok (WriteVarInt count ++ concat (map (writeNetAddress pver true) addrList)).

Definition MsgAddr_MaxPayloadLength (pver : Z) : Z :=
  if pver <? MultipleAddressVersion then MaxVarIntPayload + maxNetAddressPayload pver
  else MaxVarIntPayload + MaxAddrPerMsg * maxNetAddressPayload pver.

(** * Inventories (invvect.go, msginv.go, msggetdata.go, msgnotfound.go) *)
Record InvVect := mkInvVect { iv_Type : Z; iv_Hash : bytes }.

Definition readInvVect (r : bytes) : res string (InvVect * bytes) :=
  '(t, r) ← readUint 4 r;
  '(h, r) ← readFull HashSize r;
  Ok (mkInvVect t h, r).

Definition writeInvVect (iv : InvVect) : bytes := putUint 4 (iv_Type iv) ++ iv_Hash iv.

Definition AddInvVect (invList : list InvVect) (iv : InvVect) : res string (list InvVect) :=
  if MaxInvPerMsg <? len invList + 1 then Err "too many invvect in message" else Ok (invList ++ [iv]).

Definition MsgInv_BtcDecode (r : bytes) : res string (list InvVect * bytes) :=
  '(count, r) ← ReadVarInt r;
  if MaxInvPerMsg <? count then Err "too many invvect in message"
  else readMany readInvVect (Z.to_nat count) r.

Definition MsgInv_BtcEncode (invList : list InvVect) : res string bytes :=
  let count := len invList in
  if MaxInvPerMsg <? count then Err "too many invvect in message"
  else Ok (WriteVarInt count ++ concat (map writeInvVect invList)).

Definition MsgInv_MaxPayloadLength : Z := MaxVarIntPayload + MaxInvPerMsg * maxInvVectPayload.

(** The three inventory messages have the same code. *)
Definition MsgGetData_BtcDecode : reader (list InvVect) := MsgInv_BtcDecode.
Definition MsgGetData_BtcEncode : list InvVect -> res string bytes := MsgInv_BtcEncode.
Definition MsgNotFound_BtcDecode : reader (list InvVect) := MsgInv_BtcDecode.
Definition MsgNotFound_BtcEncode : list InvVect -> res string bytes := MsgInv_BtcEncode.

(** * Block locators (msggetblocks.go, msggetheaders.go) *)
Record MsgGetBlocks := mkMsgGetBlocks { gb_ProtocolVersion : Z; gb_BlockLocatorHashes : list bytes; gb_HashStop : bytes }.

Definition AddBlockLocatorHash (hashes : list bytes) (hash : bytes) : res string (list bytes) :=
  if MaxBlockLocatorsPerMsg <? len hashes + 1 then Err "too many block locator hashes for message" else Ok (hashes ++ [hash]).

Definition MsgGetBlocks_BtcDecode (r : bytes) : res string (MsgGetBlocks * bytes) :=
  '(version, r) ← readUint 4 r;
  '(count, r) ← ReadVarInt r;
  if MaxBlockLocatorsPerMsg <? count then Err "too many block locator hashes for message"
  else
    '(hashes, r) ← readMany (readFull HashSize) (Z.to_nat count) r;
    '(stop, r) ← readFull HashSize r;
    Ok (mkMsgGetBlocks version hashes stop, r).

Definition MsgGetBlocks_BtcEncode (msg : MsgGetBlocks) : res string bytes :=
  let count := len (gb_BlockLocatorHashes msg) in
  if MaxBlockLocatorsPerMsg <? count then Err "too many block locator hashes for message"
  else Ok (putUint 4 (gb_ProtocolVersion msg) ++ WriteVarInt count ++ concat (gb_BlockLocatorHashes msg) ++ gb_HashStop msg).

Definition MsgGetBlocks_MaxPayloadLength : Z := 4 + MaxVarIntPayload + MaxBlockLocatorsPerMsg * HashSize + HashSize.

Definition MsgGetHeaders_BtcDecode : reader MsgGetBlocks := MsgGetBlocks_BtcDecode.
Definition MsgGetHeaders_BtcEncode : MsgGetBlocks -> res string bytes := MsgGetBlocks_BtcEncode.

(** * Headers (msgheaders.go) *)
Definition AddBlockHeader (headers : list BlockHeader) (bh : BlockHeader) : res string (list BlockHeader) :=
  if MaxBlockHeadersPerMsg <? len headers + 1 then Err "too many block headers in message" else Ok (headers ++ [bh]).

Definition read_bare_header (r : bytes) : res string (BlockHeader * bytes) :=
  '(bh, r) ← readBlockHeader r;
  '(txCount, r) ← ReadVarInt r;
  if 0 <? txCount then Err "block headers may not contain transactions" else Ok (bh, r).

Definition MsgHeaders_BtcDecode (r : bytes) : res string (list BlockHeader * bytes) :=
  '(count, r) ← ReadVarInt r;
  if MaxBlockHeadersPerMsg <? count then Err "too many block headers for message"
  else readMany read_bare_header (Z.to_nat count) r.

Definition MsgHeaders_BtcEncode (headers : list BlockHeader) : res string bytes :=
  let count := len headers in
  if MaxBlockHeadersPerMsg <? count then Err "too many block headers for message"
  else Ok (WriteVarInt count ++ concat (map (fun bh => writeBlockHeader bh ++ WriteVarInt 0) headers)).

Definition MsgHeaders_MaxPayloadLength : Z := MaxVarIntPayload + (MaxBlockHeaderPayload + 1) * MaxBlockHeadersPerMsg.

(** * Keep-alive (msgping.go, msgpong.go) *)
Definition MsgPing_BtcDecode (pver : Z) (r : bytes) : res string (Z * bytes) :=
  if BIP0031Version <? pver then readUint 8 r else Ok (0, r).

Definition MsgPing_BtcEncode (pver : Z) (nonce : Z) : res string bytes :=
  Ok (if BIP0031Version <? pver then putUint 8 nonce else []).

Definition MsgPing_MaxPayloadLength (pver : Z) : Z := if BIP0031Version <? pver then 8 else 0.

Definition MsgPong_BtcDecode (pver : Z) (r : bytes) : res string (Z * bytes) :=
  if pver <=? BIP0031Version then Err "pong message invalid for protocol version" else readUint 8 r.

Definition MsgPong_BtcEncode (pver : Z) (nonce : Z) : res string bytes :=
  if pver <=? BIP0031Version then Err "pong message invalid for protocol version" else Ok (putUint 8 nonce).

Definition MsgPong_MaxPayloadLength (pver : Z) : Z := if BIP0031Version <? pver then 8 else 0.

(** * Bloom filters (msgfilteradd.go, msgfilterload.go, msgmerkleblock.go) *)
Definition MsgFilterAdd_BtcDecode (pver : Z) (r : bytes) : res string (bytes * bytes) :=
  if pver <? BIP0037Version then Err "filteradd message invalid for protocol version"
  else ReadVarBytes MaxFilterAddDataSize r.

Definition MsgFilterAdd_BtcEncode (pver : Z) (data : bytes) : res string bytes :=
  if pver <? BIP0037Version then Err "filteradd message invalid for protocol version"
  else if MaxFilterAddDataSize <? len data then Err "filteradd size too large for message"
  else Ok (WriteVarBytes data).

Definition MsgFilterAdd_MaxPayloadLength : Z := VarIntSerializeSize MaxFilterAddDataSize + MaxFilterAddDataSize.

Record MsgFilterLoad := mkMsgFilterLoad { fl_Filter : bytes; fl_HashFuncs : Z; fl_Tweak : Z; fl_Flags : Z }.

Definition MsgFilterLoad_BtcDecode (pver : Z) (r : bytes) : res string (MsgFilterLoad * bytes) :=
  if pver <? BIP0037Version then Err "filterload message invalid for protocol version"
  else
    '(f, r) ← ReadVarBytes MaxFilterLoadFilterSize r;
    '(hashFuncs, r) ← readUint 4 r;
    '(tweak, r) ← readUint 4 r;
    '(flags, r) ← readUint 1 r;
    if MaxFilterLoadHashFuncs <? hashFuncs then Err "too many filter hash functions for message"
    else Ok (mkMsgFilterLoad f hashFuncs tweak flags, r).

Definition MsgFilterLoad_BtcEncode (pver : Z) (msg : MsgFilterLoad) : res string bytes :=
  if pver <? BIP0037Version then Err "filterload message invalid for protocol version"
  else if MaxFilterLoadFilterSize <? len (fl_Filter msg) then Err "filterload filter size too large for message"
  else if MaxFilterLoadHashFuncs <? fl_HashFuncs msg then Err "too many filter hash functions for message"
  else Ok (WriteVarBytes (fl_Filter msg) ++ putUint 4 (fl_HashFuncs msg) ++ putUint 4 (fl_Tweak msg) ++ putUint 1 (fl_Flags msg)).

Definition MsgFilterLoad_MaxPayloadLength : Z := VarIntSerializeSize MaxFilterLoadFilterSize + MaxFilterLoadFilterSize + 9.

Record MsgMerkleBlock := mkMsgMerkleBlock { mb_Header : BlockHeader; mb_Transactions : Z; mb_Hashes : list bytes; mb_Flags : bytes }.

Definition AddTxHash (hashes : list bytes) (hash : bytes) : res string (list bytes) :=
  if MsgBlock.maxTxPerBlock <? len hashes + 1 then Err "too many tx hashes for message" else Ok (hashes ++ [hash]).

Definition MsgMerkleBlock_BtcDecode (pver : Z) (r : bytes) : res string (MsgMerkleBlock * bytes) :=
  if pver <? BIP0037Version then Err "merkleblock message invalid for protocol version"
  else
    '(header, r) ← readBlockHeader r;
    '(txs, r) ← readUint 4 r;
    '(count, r) ← ReadVarInt r;
    if MsgBlock.maxTxPerBlock <? count then Err "too many transaction hashes for message"
    else
      '(hashes, r) ← readMany (readFull HashSize) (Z.to_nat count) r;
      '(flags, r) ← ReadVarBytes maxFlagsPerMerkleBlock r;
      Ok (mkMsgMerkleBlock header txs hashes flags, r).

Definition MsgMerkleBlock_BtcEncode (pver : Z) (msg : MsgMerkleBlock) : res string bytes :=
  if pver <? BIP0037Version then Err "merkleblock message invalid for protocol version"
  else
    let numHashes := len (mb_Hashes msg) in
    if MsgBlock.maxTxPerBlock <? numHashes then Err "too many transaction hashes for message"
    else if maxFlagsPerMerkleBlock <? len (mb_Flags msg) then Err "too many flag bytes for message"
    else Ok (writeBlockHeader (mb_Header msg) ++ putUint 4 (mb_Transactions msg) ++ WriteVarInt numHashes ++
             concat (mb_Hashes msg) ++ WriteVarBytes (mb_Flags msg)).

(** A message without a body that needs a protocol version. *)
Definition empty_BtcDecode (minimum pver : Z) (r : bytes) : res string (unit * bytes) :=
  if pver <? minimum then Err "message invalid for protocol version" else Ok ((), r).

Definition empty_BtcEncode (minimum pver : Z) : res string bytes :=
  if pver <? minimum then Err "message invalid for protocol version" else Ok [].

(** * Fees (msgfeefilter.go) *)
Definition MsgFeeFilter_BtcDecode (pver : Z) (r : bytes) : res string (Z * bytes) :=
  if pver <? FeeFilterVersion then Err "feefilter message invalid for protocol version"
  else '(fee, r) ← readUint 8 r; Ok (i64 fee, r).

Definition MsgFeeFilter_BtcEncode (pver : Z) (minFee : Z) : res string bytes :=
  if pver <? FeeFilterVersion then Err "feefilter message invalid for protocol version"
  else Ok (putUint 8 (u64 minFee)).

(** * Commands (message.go) *)

(** The bytes of a string constant. *)
Definition str (s : string) : bytes := map (fun c => Z.of_N (Ascii.N_of_ascii c)) (String.list_ascii_of_string s).

Definition CmdVersion : bytes := str "version".
Definition CmdVerAck : bytes := str "verack".
Definition CmdGetAddr : bytes := str "getaddr".
Definition CmdAddr : bytes := str "addr".
Definition CmdGetBlocks : bytes := str "getblocks".
Definition CmdInv : bytes := str "inv".
Definition CmdGetData : bytes := str "getdata".
Definition CmdNotFound : bytes := str "notfound".
Definition CmdBlock : bytes := str "block".
Definition CmdTx : bytes := str "tx".
Definition CmdGetHeaders : bytes := str "getheaders".
Definition CmdHeaders : bytes := str "headers".
Definition CmdPing : bytes := str "ping".
Definition CmdPong : bytes := str "pong".
Definition CmdAlert : bytes := str "alert".
Definition CmdMemPool : bytes := str "mempool".
Definition CmdFilterAdd : bytes := str "filteradd".
Definition CmdFilterClear : bytes := str "filterclear".
Definition CmdFilterLoad : bytes := str "filterload".
Definition CmdMerkleBlock : bytes := str "merkleblock".
Definition CmdReject : bytes := str "reject".
Definition CmdSendHeaders : bytes := str "sendheaders".
Definition CmdFeeFilter : bytes := str "feefilter".

(** * Rejections (msgreject.go) *)
Record MsgReject := mkMsgReject { rej_Cmd : bytes; rej_Code : Z; rej_Reason : bytes; rej_Hash : bytes }.

Definition has_hash (cmd : bytes) : bool := bool_decide (cmd = CmdBlock) || bool_decide (cmd = CmdTx).

Definition zero_hash : bytes := replicate 32 0.

Definition MsgReject_BtcDecode (pver : Z) (r : bytes) : res string (MsgReject * bytes) :=
  if pver <? RejectVersion then Err "reject message invalid for protocol version"
  else
    '(cmd, r) ← ReadVarString r;
    '(code, r) ← readUint 1 r;
    '(reason, r) ← ReadVarString r;
    '(hash, r) ← (if has_hash cmd then readFull HashSize r else Ok (zero_hash, r));
    Ok (mkMsgReject cmd code reason hash, r).

Definition MsgReject_BtcEncode (pver : Z) (msg : MsgReject) : res string bytes :=
  if pver <? RejectVersion then Err "reject message invalid for protocol version"
  else Ok (WriteVarString (rej_Cmd msg) ++ putUint 1 (rej_Code msg) ++ WriteVarString (rej_Reason msg) ++
           (if has_hash (rej_Cmd msg) then rej_Hash msg else [])).

Definition MsgReject_MaxPayloadLength (pver : Z) : Z := if RejectVersion <=? pver then MaxMessagePayload else 0.

(** * Alerts (msgalert.go) *)
Record Alert := mkAlert {
  al_Version : Z; al_RelayUntil : Z; al_Expiration : Z; al_ID : Z; al_Cancel : Z; al_SetCancel : list Z;
  al_MinVer : Z; al_MaxVer : Z; al_SetSubVer : list bytes; al_Priority : Z;
  al_Comment : bytes; al_StatusBar : bytes; al_Reserved : bytes }.

Definition Alert_Serialize (alert : Alert) : res string bytes :=
  let count := len (al_SetCancel alert) in
  if maxCountSetCancel <? count then Err "too many cancel alert IDs for alert"
  else
    let count2 := len (al_SetSubVer alert) in
    if maxCountSetSubVer <? count2 then Err "too many sub versions for alert"
    else Ok (putUint 4 (u32 (al_Version alert)) ++ putUint 8 (u64 (al_RelayUntil alert)) ++ putUint 8 (u64 (al_Expiration alert)) ++
             putUint 4 (u32 (al_ID alert)) ++ putUint 4 (u32 (al_Cancel alert)) ++
             WriteVarInt count ++ concat (map (fun c => putUint 4 (u32 c)) (al_SetCancel alert)) ++
             putUint 4 (u32 (al_MinVer alert)) ++ putUint 4 (u32 (al_MaxVer alert)) ++
             WriteVarInt count2 ++ concat (map WriteVarString (al_SetSubVer alert)) ++
             putUint 4 (u32 (al_Priority alert)) ++ WriteVarString (al_Comment alert) ++ WriteVarString (al_StatusBar alert) ++
             WriteVarString (al_Reserved alert)).

Definition read_int32 (r : bytes) : res string (Z * bytes) := '(v, r) ← readUint 4 r; Ok (i32 v, r).
Definition read_int64 (r : bytes) : res string (Z * bytes) := '(v, r) ← readUint 8 r; Ok (i64 v, r).

Definition Alert_Deserialize (r : bytes) : res string (Alert * bytes) :=
  '(version, r) ← read_int32 r;
  '(relayUntil, r) ← read_int64 r;
  '(expiration, r) ← read_int64 r;
  '(id, r) ← read_int32 r;
  '(cancel, r) ← read_int32 r;
  '(count, r) ← ReadVarInt r;
  if maxCountSetCancel <? count then Err "too many cancel alert IDs for alert"
  else
    '(setCancel, r) ← readMany read_int32 (Z.to_nat count) r;
    '(minVer, r) ← read_int32 r;
    '(maxVer, r) ← read_int32 r;
    '(count, r) ← ReadVarInt r;
    if maxCountSetSubVer <? count then Err "too many sub versions for alert"
    else
      '(setSubVer, r) ← readMany ReadVarString (Z.to_nat count) r;
      '(priority, r) ← read_int32 r;
      '(comment, r) ← ReadVarString r;
      '(statusBar, r) ← ReadVarString r;
      '(reserved, r) ← ReadVarString r;
      Ok (mkAlert version relayUntil expiration id cancel setCancel minVer maxVer setSubVer priority comment statusBar reserved, r).

Definition NewAlertFromPayload (serializedPayload : bytes) : res string Alert :=
  '(alert, _) ← Alert_Deserialize serializedPayload; Ok alert.

Record MsgAlert := mkMsgAlert { ma_SerializedPayload : bytes; ma_Signature : bytes; ma_Payload : option Alert }.

Definition MsgAlert_BtcDecode (r : bytes) : res string (MsgAlert * bytes) :=
  '(serializedPayload, r) ← ReadVarBytes MaxMessagePayload r;
  let payload := match NewAlertFromPayload serializedPayload with Ok a => Some a | _ => None end in
  '(signature, r) ← ReadVarBytes MaxMessagePayload r;
  Ok (mkMsgAlert serializedPayload signature payload, r).

(** The bytes of the alert: those of the payload where there is one and it can be
    serialized. *)
Definition alert_bytes (msg : MsgAlert) : bytes :=
  match ma_Payload msg with
  | Some alert => match Alert_Serialize alert with Ok b => b | _ => ma_SerializedPayload msg end
  | None => ma_SerializedPayload msg
  end.

Definition MsgAlert_BtcEncode (msg : MsgAlert) : res string bytes :=
  let serializedpayload := alert_bytes msg in
  let slen := len serializedpayload in
  if slen =? 0 then Err "empty serialized payload"
  else Ok (WriteVarBytes serializedpayload ++ WriteVarBytes (ma_Signature msg)).

End NetMsg.
