(* ===== verification/Message.v ===== *)
(** Messages with their headers: [src/wire/message.go].

    A message is sent as a header (network, command, length and checksum of the
    payload) and the payload.  The reader is the bytes still to come, and reading
    returns the bytes that are left also when it fails: what follows a rejected
    message is the next message. *)
From S2P Require Import Prelude Wire Crypto GoTime Header MsgBlock NetMsg.
Import wire Crypto GoTime Header NetMsg.
#[local] Open Scope Z_scope.

Module Message.

Definition MessageHeaderSize : Z := 24.
Definition CommandSize : Z := 12.

Inductive Message :=
  | MVersion (msg : MsgVersion) | MVerAck | MGetAddr | MAddr (addrList : list NetAddress) | MGetBlocks (msg : MsgGetBlocks)
  | MBlock (msg : MsgBlock.MsgBlock) | MInv (invList : list InvVect) | MGetData (invList : list InvVect)
  | MNotFound (invList : list InvVect) | MTx (msg : MsgTx) | MPing (nonce : Z) | MPong (nonce : Z)
  | MGetHeaders (msg : MsgGetBlocks) | MHeaders (headers : list BlockHeader) | MAlert (msg : MsgAlert) | MMemPool
  | MFilterAdd (data : bytes) | MFilterClear | MFilterLoad (msg : MsgFilterLoad) | MMerkleBlock (msg : MsgMerkleBlock)
  | MReject (msg : MsgReject) | MSendHeaders | MFeeFilter (minFee : Z).

(** * The interface of the messages *)
Definition Command (msg : Message) : bytes :=
  match msg with
  | MVersion _ => CmdVersion | MVerAck => CmdVerAck | MGetAddr => CmdGetAddr | MAddr _ => CmdAddr | MGetBlocks _ => CmdGetBlocks
  | MBlock _ => CmdBlock | MInv _ => CmdInv | MGetData _ => CmdGetData | MNotFound _ => CmdNotFound | MTx _ => CmdTx
  | MPing _ => CmdPing | MPong _ => CmdPong | MGetHeaders _ => CmdGetHeaders | MHeaders _ => CmdHeaders | MAlert _ => CmdAlert
  | MMemPool => CmdMemPool | MFilterAdd _ => CmdFilterAdd | MFilterClear => CmdFilterClear | MFilterLoad _ => CmdFilterLoad
  | MMerkleBlock _ => CmdMerkleBlock | MReject _ => CmdReject | MSendHeaders => CmdSendHeaders | MFeeFilter _ => CmdFeeFilter
  end.

Definition BtcEncode (msg : Message) (pver : Z) : res string bytes :=
  match msg with
  | MVersion m => MsgVersion_BtcEncode pver m
  | MVerAck | MGetAddr => Ok []
  | MAddr l => MsgAddr_BtcEncode pver l
  | MGetBlocks m => MsgGetBlocks_BtcEncode m
  | MBlock m => Ok (MsgBlock.BtcEncode m)
  | MInv l => MsgInv_BtcEncode l
  | MGetData l => MsgGetData_BtcEncode l
  | MNotFound l => MsgNotFound_BtcEncode l
  | MTx m => Ok (btcEncode m false)
  | MPing n => MsgPing_BtcEncode pver n
  | MPong n => MsgPong_BtcEncode pver n
  | MGetHeaders m => MsgGetHeaders_BtcEncode m
  | MHeaders l => MsgHeaders_BtcEncode l
  | MAlert m => MsgAlert_BtcEncode m
  | MMemPool => empty_BtcEncode BIP0035Version pver
  | MFilterAdd d => MsgFilterAdd_BtcEncode pver d
  | MFilterClear => empty_BtcEncode BIP0037Version pver
  | MFilterLoad m => MsgFilterLoad_BtcEncode pver m
  | MMerkleBlock m => MsgMerkleBlock_BtcEncode pver m
  | MReject m => MsgReject_BtcEncode pver m
  | MSendHeaders => empty_BtcEncode SendHeadersVersion pver
  | MFeeFilter f => MsgFeeFilter_BtcEncode pver f
  end.

(** The type of an empty message, which decides how the payload is decoded. *)
Inductive Kind :=
  | KVersion | KVerAck | KGetAddr | KAddr | KGetBlocks | KBlock | KInv | KGetData | KNotFound | KTx | KPing | KPong
  | KGetHeaders | KHeaders | KAlert | KMemPool | KFilterAdd | KFilterClear | KFilterLoad | KMerkleBlock | KReject
  | KSendHeaders | KFeeFilter.

Definition kind_of (msg : Message) : Kind :=
  match msg with
  | MVersion _ => KVersion | MVerAck => KVerAck | MGetAddr => KGetAddr | MAddr _ => KAddr | MGetBlocks _ => KGetBlocks
  | MBlock _ => KBlock | MInv _ => KInv | MGetData _ => KGetData | MNotFound _ => KNotFound | MTx _ => KTx
  | MPing _ => KPing | MPong _ => KPong | MGetHeaders _ => KGetHeaders | MHeaders _ => KHeaders | MAlert _ => KAlert
  | MMemPool => KMemPool | MFilterAdd _ => KFilterAdd | MFilterClear => KFilterClear | MFilterLoad _ => KFilterLoad
  | MMerkleBlock _ => KMerkleBlock | MReject _ => KReject | MSendHeaders => KSendHeaders | MFeeFilter _ => KFeeFilter
  end.

Definition MaxPayloadLength (k : Kind) (pver : Z) : Z :=
  match k with
  | KVersion => MsgVersion_MaxPayloadLength pver
  | KVerAck | KGetAddr => 0
  | KAddr => MsgAddr_MaxPayloadLength pver
  | KGetBlocks | KGetHeaders => MsgGetBlocks_MaxPayloadLength
  | KBlock | KTx | KMerkleBlock => MsgBlock.MaxBlockPayload
  | KInv | KGetData | KNotFound => MsgInv_MaxPayloadLength
  | KPing => MsgPing_MaxPayloadLength pver
  | KPong => MsgPong_MaxPayloadLength pver
  | KHeaders => MsgHeaders_MaxPayloadLength
  | KAlert => MaxMessagePayload
  | KMemPool | KFilterClear | KSendHeaders => 0
  | KFilterAdd => MsgFilterAdd_MaxPayloadLength
  | KFilterLoad => MsgFilterLoad_MaxPayloadLength
  | KReject => MsgReject_MaxPayloadLength pver
  | KFeeFilter => 8
  end.

(** A decoder, with its result as a message. *)
Definition as_msg {A} (f : A -> Message) (d : res string (A * bytes)) : res string (Message * bytes) :=
  '(x, r) ← d; Ok (f x, r).

Definition BtcDecode (k : Kind) (pver : Z) (r : bytes) : res string (Message * bytes) :=
  match k with
  | KVersion => as_msg MVersion (MsgVersion_BtcDecode pver r)
  | KVerAck => Ok (MVerAck, r)
  | KGetAddr => Ok (MGetAddr, r)
  | KAddr => as_msg MAddr (MsgAddr_BtcDecode pver r)
  | KGetBlocks => as_msg MGetBlocks (MsgGetBlocks_BtcDecode r)
  | KBlock => as_msg MBlock (MsgBlock.BtcDecode r)
  | KInv => as_msg MInv (MsgInv_BtcDecode r)
  | KGetData => as_msg MGetData (MsgGetData_BtcDecode r)
  | KNotFound => as_msg MNotFound (MsgNotFound_BtcDecode r)
  | KTx => as_msg MTx (wire.BtcDecode r)
  | KPing => as_msg MPing (MsgPing_BtcDecode pver r)
  | KPong => as_msg MPong (MsgPong_BtcDecode pver r)
  | KGetHeaders => as_msg MGetHeaders (MsgGetHeaders_BtcDecode r)
  | KHeaders => as_msg MHeaders (MsgHeaders_BtcDecode r)
  | KAlert => as_msg MAlert (MsgAlert_BtcDecode r)
  | KMemPool => as_msg (fun _ => MMemPool) (empty_BtcDecode BIP0035Version pver r)
  | KFilterAdd => as_msg MFilterAdd (MsgFilterAdd_BtcDecode pver r)
  | KFilterClear => as_msg (fun _ => MFilterClear) (empty_BtcDecode BIP0037Version pver r)
  | KFilterLoad => as_msg MFilterLoad (MsgFilterLoad_BtcDecode pver r)
  | KMerkleBlock => as_msg MMerkleBlock (MsgMerkleBlock_BtcDecode pver r)
  | KReject => as_msg MReject (MsgReject_BtcDecode pver r)
  | KSendHeaders => as_msg (fun _ => MSendHeaders) (empty_BtcDecode SendHeadersVersion pver r)
  | KFeeFilter => as_msg MFeeFilter (MsgFeeFilter_BtcDecode pver r)
  end.

Definition commands : list (bytes * Kind) :=
  [(CmdVersion, KVersion); (CmdVerAck, KVerAck); (CmdGetAddr, KGetAddr); (CmdAddr, KAddr); (CmdGetBlocks, KGetBlocks);
   (CmdBlock, KBlock); (CmdInv, KInv); (CmdGetData, KGetData); (CmdNotFound, KNotFound); (CmdTx, KTx); (CmdPing, KPing);
   (CmdPong, KPong); (CmdGetHeaders, KGetHeaders); (CmdHeaders, KHeaders); (CmdAlert, KAlert); (CmdMemPool, KMemPool);
   (CmdFilterAdd, KFilterAdd); (CmdFilterClear, KFilterClear); (CmdFilterLoad, KFilterLoad); (CmdMerkleBlock, KMerkleBlock);
   (CmdReject, KReject); (CmdSendHeaders, KSendHeaders); (CmdFeeFilter, KFeeFilter)].

Definition makeEmptyMessage (command : bytes) : res string Kind :=
  match list_find (fun c => c.1 = command) commands with
  | Some (_, (_, k)) => Ok k
  | None => Err "unhandled command"
  end.

(** * Headers *)
Record messageHeader := mkMessageHeader { mh_magic : Z; mh_command : bytes; mh_length : Z; mh_checksum : bytes }.

(** [io.ReadFull]: the number of bytes read, the bytes if there are enough, and what
    is left; a short read takes everything. *)
Definition ReadFull (n : Z) (r : bytes) : Z * option bytes * bytes :=
  if n <=? len r then (n, Some (take (Z.to_nat n) r), drop (Z.to_nat n) r) else (len r, None, []).

(** [bytes.TrimRight(b, string(0))]. *)
Fixpoint trim_zeros (rev : bytes) : bytes :=
  match rev with
  | 0 :: rest => trim_zeros rest
  | _ => rev
  end.
Definition TrimRight (b : bytes) : bytes := reverse (trim_zeros (reverse b)).

Definition parseHeader (b : bytes) : messageHeader :=
  mkMessageHeader (le_decode (take 4 b)) (TrimRight (take 12 (drop 4 b))) (le_decode (take 4 (drop 16 b))) (take 4 (drop 20 b)).

Definition readMessageHeader (r : bytes) : Z * option messageHeader * bytes :=
  let '(n, headerBytes, r) := ReadFull MessageHeaderSize r in
  (n, parseHeader <$> headerBytes, r).

Fixpoint discard_loop (numReads : nat) (maxSize : Z) (r : bytes) : bytes :=
  match numReads with
  | O => r
  | S numReads => discard_loop numReads maxSize (ReadFull maxSize r).2
  end.

Definition discardInput (r : bytes) (n : Z) : bytes :=
  let maxSize := 10 * 1024 in
  let numReads := n / maxSize in
  let bytesRemaining := n mod maxSize in
  let r := if 0 <? n then discard_loop (Z.to_nat numReads) maxSize r else r in
  if 0 <? bytesRemaining then (ReadFull bytesRemaining r).2 else r.

(** [utf8.ValidString]. *)
Definition cont (b : Z) : bool := (0x80 <=? b) && (b <=? 0xBF).
Definition between (lo hi b : Z) : bool := (lo <=? b) && (b <=? hi).

Fixpoint ValidString (s : bytes) : bool :=
  match s with
  | [] => true
  | b0 :: s1 =>
      if b0 <? 0x80 then ValidString s1
      else match s1 with
      | b1 :: s2 =>
          if between 0xC2 0xDF b0 then cont b1 && ValidString s2
          else match s2 with
          | b2 :: s3 =>
              if between 0xE0 0xEF b0 then
                between (if b0 =? 0xE0 then 0xA0 else 0x80) (if b0 =? 0xED then 0x9F else 0xBF) b1 && cont b2 && ValidString s3
              else match s3 with
              | b3 :: s4 =>
                  between 0xF0 0xF4 b0 &&
                  between (if b0 =? 0xF0 then 0x90 else 0x80) (if b0 =? 0xF4 then 0x8F else 0xBF) b1 && cont b2 && cont b3 &&
                  ValidString s4
              | [] => false
              end
          | [] => false
          end
      | [] => false
      end
  end.

(** * Writing *)
Definition WriteMessageN (msg : Message) (pver btcnet : Z) : res string bytes :=
  let cmd := Command msg in
  if CommandSize <? len cmd then Err "command is too long"
  else
    let command := cmd ++ replicate (12 - length cmd) 0 in
    payload ← BtcEncode msg pver;
    let lenp := len payload in
    if MaxMessagePayload <? lenp then Err "message payload is too large"
    else
      let mpl := MaxPayloadLength (kind_of msg) pver in
      if mpl <? u32 lenp then Err "message payload is too large for its type"
      else
        Ok (putUint 4 btcnet ++ command ++ putUint 4 (u32 lenp) ++ take 4 (DoubleHashB payload) ++ payload).

(** * Reading *)

(** The number of bytes read as it is reported, the message with its payload, and
    the bytes that are left. *)
Definition ReadMessageN (r : bytes) (pver btcnet : Z) : Z * res string (Message * bytes) * bytes :=
  let '(totalBytes, hdr, r) := readMessageHeader r in
  match hdr with
  | None => (totalBytes, Err "EOF", r)
  | Some hdr =>
      if MaxMessagePayload <? mh_length hdr then (totalBytes, Err "message payload is too large", r)
      else if negb (mh_magic hdr =? btcnet) then (totalBytes, Err "message from other network", discardInput r (mh_length hdr))
      else if negb (ValidString (mh_command hdr)) then (totalBytes, Err "invalid command", discardInput r (mh_length hdr))
      else
        match makeEmptyMessage (mh_command hdr) with
        | Ok k =>
            let mpl := MaxPayloadLength k pver in
            if mpl <? mh_length hdr then (totalBytes, Err "payload exceeds max length", discardInput r (mh_length hdr))
            else
              let '(n, payload, r) := ReadFull (mh_length hdr) r in
              let totalBytes := totalBytes + n in
              match payload with
              | None => (totalBytes, Err "EOF", r)
              | Some payload =>
                  if bool_decide (take 4 (DoubleHashB payload) = mh_checksum hdr) then
                    match BtcDecode k pver payload with
                    | Ok (msg, _) => (totalBytes, Ok (msg, payload), r)
                    | Err e => (totalBytes, Err e, r)
                    | Panic => (totalBytes, Panic, r)
                    | Hang => (totalBytes, Hang, r)
                    end
                  else (totalBytes, Err "payload checksum failed", r)
              end
        | _ => (totalBytes, Err "unhandled command", discardInput r (mh_length hdr))
        end
  end.

End Message.
