(* ===== verification/MessageSpec.v ===== *)
(** Correctness of the peer messages: what is written is read back, whatever the
    outcome of reading a message the next one starts where it should, and the
    payloads fit in the limits of their types. *)
From S2P Require Import Prelude Wire Crypto GoTime Header MsgBlock NetMsg Message.
Import wire Crypto GoTime Header NetMsg Message.
#[local] Open Scope Z_scope.

Module MessageSpec.

(** * What a peer receives

    A writer and a reader where the reader returns what survives of the value. *)
Class Sends {A} (read : reader A) (write : A -> bytes) (wf : A -> Prop) (recv : A -> A) : Prop :=
  sends : forall x rest, wf x -> read (write x ++ rest) = Ok (recv x, rest).

#[global] Instance codec_sends {A} (read : reader A) write wf `{!Codec read write wf} : Sends read write wf id.
Proof. intros x rest. apply codec_read. Qed.

Lemma sends_many {A} (read : reader A) write wf recv `{!Sends read write wf recv} l rest n : Forall wf l -> n = length l ->
  readMany read n (concat (map write l) ++ rest) = Ok (map recv l, rest).
Proof.
  intros Hl ->. induction Hl as [|x l Hx Hl IH]; [done|]. cbn [length readMany map concat].
  rewrite <- app_assoc, sends by done. cbn [mbind res_bind]. by rewrite IH.
Qed.

Definition string_ok (s : bytes) : Prop := bytes_ok s /\ len s <= MaxMessagePayload.

#[global] Instance ReadVarString_codec : Codec ReadVarString WriteVarString string_ok.
Proof.
  pose proof (readScript_codec MaxMessagePayload MaxMessagePayload_range) as Hc.
  assert (forall r x, ReadVarString r = Ok x <-> readScript MaxMessagePayload r = Ok x) as E.
  { intros r x. unfold ReadVarString, readScript. destruct (ReadVarInt r) as [[c r1]| | |]; [|done..]. cbn [mbind res_bind]. by case_if. }
  split.
  - intros x rest Hx. apply E. by apply (codec_read (read := readScript MaxMessagePayload)).
  - intros r x rest Hr H%E. by apply (codec_inv (read := readScript MaxMessagePayload)).
Qed.

Lemma readFull_app b rest n : n = len b -> readFull n (b ++ rest) = Ok (b, rest).
Proof.
  intros ->. unfold readFull. rewrite len_app. pose proof (len_nonneg rest). rewrite (proj2 (Z.leb_le _ _)) by lia.
  unfold len. by rewrite Nat2Z.id, take_app_length, drop_app_length.
Qed.

Lemma ReadVarBytes_sends maxAllowed b rest : maxAllowed < 2 ^ 64 -> len b <= maxAllowed ->
  ReadVarBytes maxAllowed (WriteVarBytes b ++ rest) = Ok (b, rest).
Proof.
  intros Hm Hl. unfold ReadVarBytes, WriteVarBytes. pose proof (len_nonneg b). rewrite <- app_assoc, codec_read by (unfold is_u; lia).
  cbn [mbind res_bind]. rewrite (proj2 (Z.ltb_ge _ _)) by lia. by apply readFull_app.
Qed.

#[global] Instance read_int32_sends : Sends read_int32 (fun v => putUint 4 (u32 v)) (is_s 32) id.
Proof.
  intros v rest Hv. unfold read_int32. rewrite codec_read by (apply wrapu_range; lia). cbn [mbind res_bind].
  by rewrite wraps_wrapu.
Qed.

#[global] Instance read_int64_sends : Sends read_int64 (fun v => putUint 8 (u64 v)) (is_s 64) id.
Proof.
  intros v rest Hv. unfold read_int64. rewrite codec_read by (apply wrapu_range; lia). cbn [mbind res_bind].
  by rewrite wraps_wrapu.
Qed.

Lemma sends_int32 v rest : is_s 32 v -> read_int32 (putUint 4 (u32 v) ++ rest) = Ok (v, rest).
Proof. apply read_int32_sends. Qed.
Lemma sends_int64 v rest : is_s 64 v -> read_int64 (putUint 8 (u64 v) ++ rest) = Ok (v, rest).
Proof. apply read_int64_sends. Qed.

#[global] Instance read_bool_sends : Sends read_bool write_bool (fun _ => True) id.
Proof. intros b rest _. unfold read_bool, write_bool. rewrite codec_read by (by destruct b). by destruct b. Qed.

(** ** Addresses *)
Definition addr_ok (na : NetAddress) : Prop :=
  is_u 64 (na_Services na) /\ bytes_ok (na_IP na) /\ is_u 16 (na_Port na).

(** An address keeps the seconds of its time if they are sent, and its IP address in
    the form of 16 bytes. *)
Definition addr_recv (pver : Z) (ts : bool) (na : NetAddress) : NetAddress :=
  mkNetAddress (if ts && (NetAddressTimeVersion <=? pver) then time_Unix (u32 (Unix (na_Timestamp na))) else zero_time)
    (na_Services na) (ip16 (na_IP na)) (na_Port na).

Lemma ip16_ok ip : bytes_ok ip -> len (ip16 ip) = 16 /\ bytes_ok (ip16 ip).
Proof.
  intros Hip. unfold ip16, To16. destruct (Z.eqb_spec (len ip) 4) as [H4|]; [|destruct (Z.eqb_spec (len ip) 16) as [H16|]].
  - unfold len in *. rewrite !length_app, !length_replicate. cbn [length]. split; [lia|].
    repeat (apply Forall_app; split); try (by apply Forall_replicate); [|done]. repeat constructor; by vm_compute.
  - unfold len in *. rewrite !length_app, length_replicate. split; [lia|]. apply Forall_app. split; [done|by apply Forall_replicate].
  - unfold len. split; [done|]. by apply Forall_replicate.
Qed.

Lemma read_16 b rest : len b = 16 /\ bytes_ok b -> readFull 16 (b ++ rest) = Ok (b, rest).
Proof. apply (@codec_read _ _ _ _ (readFull_codec 16 ltac:(done))). Qed.

Lemma read_port p rest : is_u 16 p -> readFull 2 (be_encode 2 p ++ rest) = Ok (be_encode 2 p, rest).
Proof.
  intros Hp. apply (@codec_read _ _ _ _ (readFull_codec 2 ltac:(done))). unfold len. rewrite length_be_encode. split; [done|apply be_encode_ok].
Qed.

#[global] Instance readNetAddress_sends pver ts : Sends (readNetAddress pver ts) (writeNetAddress pver ts) addr_ok (addr_recv pver ts).
Proof.
  intros na rest (Hs & Hip & Hp). unfold readNetAddress, writeNetAddress, addr_recv. rewrite <- !app_assoc.
  assert (forall t k, (
    '(services, r) ← readUint 8 (putUint 8 (na_Services na) ++ ip16 (na_IP na) ++ be_encode 2 (na_Port na) ++ rest);
    '(ip, r) ← readFull 16 r;
    '(port, r) ← readFull 2 r;
    Ok (mkNetAddress t services ip (be_decode port), r)) = k -> k = @Ok string _ (mkNetAddress t (na_Services na) (ip16 (na_IP na)) (na_Port na), rest)) as Hrest.
  { intros t k <-. rewrite codec_read by done. cbn [mbind res_bind]. rewrite read_16 by (by apply ip16_ok). cbn [mbind res_bind].
    rewrite read_port by done. cbn [mbind res_bind]. rewrite be_decode_encode, Z.mod_small by done. done. }
  destruct (ts && (NetAddressTimeVersion <=? pver)); [|by apply Hrest].
  rewrite codec_read by (apply wrapu_range; lia). cbn [mbind res_bind]. by apply Hrest.
Qed.

(** ** Messages *)
Definition hash_ok (h : bytes) : Prop := len h = 32 /\ bytes_ok h.
Definition inv_ok (iv : InvVect) : Prop := is_u 32 (iv_Type iv) /\ hash_ok (iv_Hash iv).
Definition locator_ok (m : MsgGetBlocks) : Prop :=
  is_u 32 (gb_ProtocolVersion m) /\ Forall hash_ok (gb_BlockLocatorHashes m) /\ hash_ok (gb_HashStop m).

(** The ranges of the types of the fields. *)
Definition typed (msg : Message) : Prop :=
  match msg with
  | MVersion m => is_s 32 (ver_ProtocolVersion m) /\ is_u 64 (ver_Services m) /\ addr_ok (ver_AddrYou m) /\ addr_ok (ver_AddrMe m) /\
      is_u 64 (ver_Nonce m) /\ bytes_ok (ver_UserAgent m) /\ is_u 32 (ver_LastBlock m)
  | MAddr l => Forall addr_ok l
  | MGetBlocks m | MGetHeaders m => locator_ok m
  | MBlock m => MsgBlock.wf_block m
  | MInv l | MGetData l | MNotFound l => Forall inv_ok l
  | MTx m => wf_tx m
  | MPing n | MPong n => is_u 64 n
  | MHeaders l => Forall wf_header l
  | MFilterLoad m => is_u 32 (fl_HashFuncs m) /\ is_u 32 (fl_Tweak m) /\ is_u 8 (fl_Flags m)
  | MMerkleBlock m => wf_header (mb_Header m) /\ is_u 32 (mb_Transactions m) /\ Forall hash_ok (mb_Hashes m)
  | MReject m => bytes_ok (rej_Cmd m) /\ is_u 8 (rej_Code m) /\ bytes_ok (rej_Reason m) /\ hash_ok (rej_Hash m)
  | MFeeFilter f => is_s 64 f
  | MVerAck | MGetAddr | MAlert _ | MMemPool | MFilterAdd _ | MFilterClear | MSendHeaders => True
  end.

(** The message that the peer gets at a protocol version: the fields that are not
    sent have their zero values, the time of the version message has whole seconds
    and the time of an address is a 32-bit number of seconds. *)
Definition received (pver : Z) (msg : Message) : Message :=
  match msg with
  | MVersion m => MVersion (mkMsgVersion (ver_ProtocolVersion m) (ver_Services m) (time_Unix (Unix (ver_Timestamp m)))
      (addr_recv pver false (ver_AddrYou m)) (addr_recv pver false (ver_AddrMe m)) (ver_Nonce m) (ver_UserAgent m) (ver_LastBlock m)
      ((BIP0037Version <=? pver) && ver_DisableRelayTx m))
  | MAddr l => MAddr (map (addr_recv pver true) l)
  | MPing n => MPing (if BIP0031Version <? pver then n else 0)
  | MAlert m => MAlert (mkMsgAlert (alert_bytes m) (ma_Signature m)
      (match NewAlertFromPayload (alert_bytes m) with Ok a => Some a | _ => None end))
  | MReject m => MReject (mkMsgReject (rej_Cmd m) (rej_Code m) (rej_Reason m) (if has_hash (rej_Cmd m) then rej_Hash m else zero_hash))
  | _ => msg
  end.

#[global] Instance readInvVect_sends : Sends readInvVect writeInvVect inv_ok id.
Proof.
  intros [t h] rest [Ht Hh]. unfold readInvVect, writeInvVect. cbn [iv_Type iv_Hash] in *. rewrite <- app_assoc, codec_read by done.
  cbn [mbind res_bind]. by rewrite read_hash.
Qed.

#[global] Instance read_bare_header_sends : Sends read_bare_header (fun bh => writeBlockHeader bh ++ WriteVarInt 0) wf_header id.
Proof.
  intros bh rest Hh. unfold read_bare_header. rewrite <- app_assoc, codec_read by done. cbn [mbind res_bind].
  by rewrite (codec_read 0).
Qed.

Lemma sends_hashes l rest n : Forall hash_ok l -> n = length l -> readMany (readFull HashSize) n (concat l ++ rest) = Ok (l, rest).
Proof. intros Hl Hn. pose proof (sends_many (readFull HashSize) (fun b => b) _ id l rest n Hl Hn) as H. by rewrite !map_id in H. Qed.

Lemma Z_to_nat_len {A} (l : list A) : Z.to_nat (len l) = length l.
Proof. unfold len. lia. Qed.

(** The count of a list that fits, and the list. *)
Lemma sends_counted {A} (read : reader A) write wf recv `{!Sends read write wf recv} (max : Z) e l rest : max < 2 ^ 64 -> len l <= max -> Forall wf l ->
  ('(count, r) ← ReadVarInt (WriteVarInt (len l) ++ concat (map write l) ++ rest);
   if max <? count then Err e else readMany read (Z.to_nat count) r) = Ok (map recv l, rest).
Proof.
  intros Hm Hl Hwf. pose proof (len_nonneg l). rewrite codec_read by (unfold is_u; lia). cbn [mbind res_bind].
  rewrite (proj2 (Z.ltb_ge _ _)) by lia. by apply (sends_many read write wf recv); [|apply Z_to_nat_len].
Qed.

(** A field that is read while bytes are left, where it was written. *)
Lemma when_left_sends {A} (read : reader A) write wf recv `{!Sends read write wf recv} d x rest : wf x -> 0 < len (write x) ->
  when_left (write x ++ rest) read d = Ok (recv x, rest).
Proof.
  intros Hx Hl. unfold when_left. rewrite len_app. pose proof (len_nonneg rest). rewrite (proj2 (Z.ltb_lt _ _)) by lia. by apply sends.
Qed.

Lemma len_WriteVarInt_pos n : 0 < len (WriteVarInt n).
Proof. rewrite len_WriteVarInt. unfold VarIntSerializeSize. repeat case_if; lia. Qed.

Lemma len_WriteVarString s : 0 < len (WriteVarString s).
Proof. unfold WriteVarString. rewrite len_app. pose proof (len_WriteVarInt_pos (len s)). pose proof (len_nonneg s). lia. Qed.

Lemma len_writeNetAddress pver ts na : bytes_ok (na_IP na) ->
  len (writeNetAddress pver ts na) = if ts && (NetAddressTimeVersion <=? pver) then 30 else 26.
Proof.
  intros Hip. unfold writeNetAddress. rewrite !len_app, len_putUint. destruct (ip16_ok _ Hip) as [-> _].
  unfold len at 2. rewrite length_be_encode. destruct (ts && _); [by rewrite len_putUint|done].
Qed.

Definition agent_ok (s : bytes) : Prop := bytes_ok s /\ len s <= MaxUserAgentLen.

#[global] Instance read_user_agent_sends : Sends read_user_agent WriteVarString agent_ok id.
Proof.
  intros s rest [Hb Hl]. unfold read_user_agent. rewrite codec_read by (split; [done|]; unfold MaxUserAgentLen, MaxMessagePayload in *; lia).
  cbn [mbind res_bind]. unfold validateUserAgent. by rewrite (proj2 (Z.ltb_ge _ _)).
Qed.

Lemma Version_sends pver m payload : typed (MVersion m) -> MsgVersion_BtcEncode pver m = Ok payload ->
  as_msg MVersion (MsgVersion_BtcDecode pver payload) = Ok (received pver (MVersion m), []).
Proof.
  intros (Hv & Hs & Hy & Hme & Hn & Hu & Hl) E. unfold MsgVersion_BtcEncode in E. apply bind_Ok in E as ([] & Hval & <-%(inj Ok)).
  unfold validateUserAgent in Hval. case_match eqn:Hua; [done|]. apply Z.ltb_ge in Hua.
  unfold MsgVersion_BtcDecode. rewrite codec_read by (apply wrapu_range; lia). cbn [mbind res_bind].
  rewrite codec_read by done. cbn [mbind res_bind]. rewrite codec_read by (apply wrapu_range; lia). cbn [mbind res_bind].
  rewrite sends by done. cbn [mbind res_bind].
  rewrite (when_left_sends (readNetAddress pver false) (writeNetAddress pver false) addr_ok (addr_recv pver false)) by
    (done || (rewrite len_writeNetAddress by apply Hme; done)). cbn [mbind res_bind].
  rewrite (when_left_sends (readUint 8) (putUint 8) _ id) by done. cbn [mbind res_bind].
  rewrite (when_left_sends read_user_agent WriteVarString agent_ok id) by (done || apply len_WriteVarString). cbn [mbind res_bind].
  rewrite (when_left_sends (readUint 4) (putUint 4) _ id) by done. cbn [mbind res_bind].
  assert (i64 (u64 (Unix (ver_Timestamp m))) = Unix (ver_Timestamp m)) as -> by (apply wraps_wrapu; [done|]; by apply wraps_range).
  rewrite wraps_wrapu by done. unfold received. destruct (BIP0037Version <=? pver); [|done].
  rewrite <- (app_nil_r (write_bool _)), (when_left_sends read_bool write_bool (fun _ => True) id) by done. cbn. by rewrite negb_involutive.
Qed.

Lemma Reject_sends pver m payload : typed (MReject m) -> MsgReject_BtcEncode pver m = Ok payload -> len payload <= MaxMessagePayload ->
  as_msg MReject (MsgReject_BtcDecode pver payload) = Ok (received pver (MReject m), []).
Proof.
  intros (Hc & Hn & Hr & Hh) E Hl. unfold MsgReject_BtcEncode, MsgReject_BtcDecode in *. destruct (pver <? RejectVersion); [done|].
  apply (inj Ok) in E as <-. unfold WriteVarString in Hl. rewrite !len_app, len_putUint in Hl.
  pose proof (len_WriteVarInt_pos (len (rej_Cmd m))). pose proof (len_WriteVarInt_pos (len (rej_Reason m))).
  pose proof (len_nonneg (rej_Cmd m)). pose proof (len_nonneg (rej_Reason m)). pose proof (len_nonneg (if has_hash (rej_Cmd m) then rej_Hash m else [])).
  rewrite codec_read by (split; [done|lia]). cbn [mbind res_bind]. rewrite codec_read by done. cbn [mbind res_bind].
  rewrite codec_read by (split; [done|lia]). cbn [mbind res_bind]. unfold received. destruct (has_hash (rej_Cmd m)); [|done].
  rewrite <- (app_nil_r (rej_Hash m)) at 1. by rewrite read_hash.
Qed.

Lemma MerkleBlock_sends pver m payload : typed (MMerkleBlock m) -> MsgMerkleBlock_BtcEncode pver m = Ok payload ->
  as_msg MMerkleBlock (MsgMerkleBlock_BtcDecode pver payload) = Ok (MMerkleBlock m, []).
Proof.
  intros (Hh & Ht & Hs) E. unfold MsgMerkleBlock_BtcEncode, MsgMerkleBlock_BtcDecode in *. destruct (pver <? BIP0037Version); [done|].
  destruct (Z.ltb_spec MsgBlock.maxTxPerBlock (len (mb_Hashes m))); [done|].
  destruct (Z.ltb_spec maxFlagsPerMerkleBlock (len (mb_Flags m))) as [|Hf]; [done|]. apply (inj Ok) in E as <-.
  pose proof (len_nonneg (mb_Hashes m)). rewrite MsgBlock.maxTxPerBlock_eq in *.
  rewrite codec_read by done. cbn [mbind res_bind]. rewrite codec_read by done. cbn [mbind res_bind].
  rewrite codec_read by (unfold is_u; lia). cbn [mbind res_bind]. rewrite (proj2 (Z.ltb_ge _ _)) by lia.
  rewrite sends_hashes by (done || apply Z_to_nat_len). cbn [mbind res_bind].
  rewrite <- (app_nil_r (WriteVarBytes _)), ReadVarBytes_sends by done. by destruct m.
Qed.

Lemma GetBlocks_sends m payload : locator_ok m -> MsgGetBlocks_BtcEncode m = Ok payload -> MsgGetBlocks_BtcDecode payload = Ok (m, []).
Proof.
  intros (Hv & Hh & Hs) E. unfold MsgGetBlocks_BtcEncode, MsgGetBlocks_BtcDecode, MaxBlockLocatorsPerMsg in *.
  destruct (Z.ltb_spec 500 (len (gb_BlockLocatorHashes m))); [done|]. apply (inj Ok) in E as <-. pose proof (len_nonneg (gb_BlockLocatorHashes m)).
  rewrite codec_read by done. cbn [mbind res_bind]. rewrite codec_read by (unfold is_u; lia). cbn [mbind res_bind].
  rewrite (proj2 (Z.ltb_ge _ _)) by lia. rewrite sends_hashes by (done || apply Z_to_nat_len). cbn [mbind res_bind].
  rewrite <- (app_nil_r (gb_HashStop m)) at 1. rewrite read_hash by done. by destruct m.
Qed.

Lemma Alert_sends m payload pver : MsgAlert_BtcEncode m = Ok payload -> len payload <= MaxMessagePayload ->
  as_msg MAlert (MsgAlert_BtcDecode payload) = Ok (received pver (MAlert m), []).
Proof.
  intros E Hl. unfold MsgAlert_BtcEncode, MsgAlert_BtcDecode in *. destruct (len (alert_bytes m) =? 0); [done|]. apply (inj Ok) in E as <-.
  unfold WriteVarBytes in Hl at 1 2. rewrite !len_app in Hl. pose proof (len_WriteVarInt_pos (len (alert_bytes m))).
  pose proof (len_WriteVarInt_pos (len (ma_Signature m))). pose proof (len_nonneg (alert_bytes m)). pose proof (len_nonneg (ma_Signature m)).
  rewrite ReadVarBytes_sends by (done || lia). cbn [mbind res_bind].
  by rewrite <- (app_nil_r (WriteVarBytes (ma_Signature m))), ReadVarBytes_sends by (done || lia).
Qed.

Lemma FilterLoad_sends pver m payload : typed (MFilterLoad m) -> MsgFilterLoad_BtcEncode pver m = Ok payload ->
  MsgFilterLoad_BtcDecode pver payload = Ok (m, []).
Proof.
  intros (Hh & Ht & Hf) E. unfold MsgFilterLoad_BtcEncode, MsgFilterLoad_BtcDecode in *. destruct (pver <? BIP0037Version); [done|].
  destruct (Z.ltb_spec MaxFilterLoadFilterSize (len (fl_Filter m))); [done|]. destruct (Z.ltb_spec MaxFilterLoadHashFuncs (fl_HashFuncs m)); [done|].
  apply (inj Ok) in E as <-. rewrite ReadVarBytes_sends by done. cbn [mbind res_bind]. rewrite codec_read by done. cbn [mbind res_bind].
  rewrite codec_read by done. cbn [mbind res_bind]. rewrite <- (app_nil_r (putUint 1 _)), codec_read by done. cbn [mbind res_bind].
  rewrite (proj2 (Z.ltb_ge _ _)) by done. by destruct m.
Qed.

Lemma Inv_sends l payload : Forall inv_ok l -> MsgInv_BtcEncode l = Ok payload -> MsgInv_BtcDecode payload = Ok (l, []).
Proof.
  intros Hl E. unfold MsgInv_BtcEncode, MsgInv_BtcDecode in *. destruct (Z.ltb_spec MaxInvPerMsg (len l)); [done|]. apply (inj Ok) in E as <-.
  rewrite <- (app_nil_r (concat _)). rewrite (sends_counted readInvVect writeInvVect inv_ok id) by done. by rewrite map_id.
Qed.

Lemma empty_sends minimum pver payload : empty_BtcEncode minimum pver = Ok payload -> empty_BtcDecode minimum pver payload = Ok ((), []).
Proof. unfold empty_BtcEncode, empty_BtcDecode. destruct (pver <? minimum); [done|]. by intros <-%(inj Ok). Qed.

(** Decoding what was encoded gives what the peer receives, with nothing left. *)
Lemma decode_encode msg pver payload : typed msg -> BtcEncode msg pver = Ok payload -> len payload <= MaxMessagePayload ->
  BtcDecode (kind_of msg) pver payload = Ok (received pver msg, []).
Proof.
  intros Ht E Hl. destruct msg; cbn [BtcEncode BtcDecode kind_of typed] in *.
  - by apply Version_sends.
  - by apply (inj Ok) in E as <-.
  - by apply (inj Ok) in E as <-.
  - unfold MsgAddr_BtcEncode, MsgAddr_BtcDecode in *. destruct (_ && _); [done|]. destruct (Z.ltb_spec MaxAddrPerMsg (len addrList)); [done|].
    apply (inj Ok) in E as <-. rewrite <- (app_nil_r (concat _)).
    by rewrite (sends_counted (readNetAddress pver true) (writeNetAddress pver true) addr_ok (addr_recv pver true)).
  - by rewrite (GetBlocks_sends _ _ Ht E).
  - apply (inj Ok) in E as <-. rewrite <- (app_nil_r (MsgBlock.BtcEncode msg)). by rewrite (codec_read (read := MsgBlock.BtcDecode)).
  - by rewrite (Inv_sends _ _ Ht E).
  - unfold MsgGetData_BtcDecode. by rewrite (Inv_sends _ _ Ht E).
  - unfold MsgNotFound_BtcDecode. by rewrite (Inv_sends _ _ Ht E).
  - apply (inj Ok) in E as <-. change (btcEncode msg false) with (wire.Serialize msg). rewrite <- (app_nil_r (wire.Serialize msg)).
    by rewrite (codec_read (read := wire.BtcDecode)).
  - unfold MsgPing_BtcEncode, MsgPing_BtcDecode, received in *. apply (inj Ok) in E as <-. destruct (BIP0031Version <? pver); [|done].
    rewrite <- (app_nil_r (putUint 8 _)). by rewrite codec_read.
  - unfold MsgPong_BtcEncode, MsgPong_BtcDecode in *. destruct (pver <=? BIP0031Version); [done|]. apply (inj Ok) in E as <-.
    rewrite <- (app_nil_r (putUint 8 _)). by rewrite codec_read.
  - unfold MsgGetHeaders_BtcDecode. by rewrite (GetBlocks_sends _ _ Ht E).
  - unfold MsgHeaders_BtcEncode, MsgHeaders_BtcDecode in *. destruct (Z.ltb_spec MaxBlockHeadersPerMsg (len headers)); [done|].
    apply (inj Ok) in E as <-. rewrite <- (app_nil_r (concat _)).
    rewrite (sends_counted read_bare_header _ wf_header id) by done. cbn. by rewrite map_id.
  - by apply Alert_sends.
  - by rewrite (empty_sends _ _ _ E).
  - unfold MsgFilterAdd_BtcEncode, MsgFilterAdd_BtcDecode in *. destruct (pver <? BIP0037Version); [done|].
    destruct (Z.ltb_spec MaxFilterAddDataSize (len data)); [done|]. apply (inj Ok) in E as <-. rewrite <- (app_nil_r (WriteVarBytes _)).
    by rewrite ReadVarBytes_sends.
  - by rewrite (empty_sends _ _ _ E).
  - by rewrite (FilterLoad_sends _ _ _ Ht E).
  - by apply MerkleBlock_sends.
  - by apply Reject_sends.
  - by rewrite (empty_sends _ _ _ E).
  - unfold MsgFeeFilter_BtcEncode, MsgFeeFilter_BtcDecode in *. destruct (pver <? FeeFilterVersion); [done|]. apply (inj Ok) in E as <-.
    rewrite <- (app_nil_r (putUint 8 _)), codec_read by (apply wrapu_range; lia). cbn [mbind res_bind]. by rewrite wraps_wrapu.
Qed.

(** * Headers *)
Lemma command_trim msg : TrimRight (Command msg ++ replicate (12 - length (Command msg)) 0) = Command msg.
Proof. by destruct msg. Qed.

Lemma command_length msg : length (Command msg ++ replicate (12 - length (Command msg)) 0) = 12%nat.
Proof. by destruct msg. Qed.

Lemma command_short msg : (CommandSize <? len (Command msg)) = false.
Proof. by destruct msg. Qed.

Lemma command_valid msg : ValidString (Command msg) = true.
Proof. by destruct msg. Qed.

Lemma command_kind msg : makeEmptyMessage (Command msg) = Ok (kind_of msg).
Proof. by destruct msg; vm_compute. Qed.

Lemma kind_command c k msg : makeEmptyMessage c = Ok k -> kind_of msg = k -> Command msg = c.
Proof.
  unfold makeEmptyMessage. destruct (list_find _ commands) as [[i [c' k']]|] eqn:E; [|done]. intros [= ->] <-.
  apply list_find_Some in E as (E & Hc & _). cbn in Hc. subst c'.
  assert (Forall (fun x => x.2 = kind_of msg -> x.1 = Command msg) commands) as Hf by (destruct msg; repeat constructor; done).
  rewrite Forall_lookup in Hf. symmetry. exact (Hf _ _ E eq_refl).
Qed.

Lemma ReadFull_app b r : ReadFull (len b) (b ++ r) = (len b, Some b, r).
Proof.
  unfold ReadFull. rewrite len_app. pose proof (len_nonneg r). rewrite (proj2 (Z.leb_le _ _)) by lia.
  unfold len. by rewrite Nat2Z.id, take_app_length, drop_app_length.
Qed.

Lemma ReadFull_left n r : 0 <= n -> (ReadFull n r).2 = drop (Z.to_nat n) r.
Proof.
  intros Hn. unfold ReadFull. destruct (Z.leb_spec n (len r)); [done|]. cbn. rewrite drop_ge; [done|]. unfold len in *. lia.
Qed.

Lemma discard_loop_drop k n r : 0 <= n -> discard_loop k n r = drop (k * Z.to_nat n) r.
Proof.
  intros Hn. revert r. induction k as [|k IH]; intros r; [by rewrite drop_0|]. cbn [discard_loop]. rewrite ReadFull_left, IH, drop_drop by done. f_equal; lia.
Qed.

(** Discarding skips exactly the payload. *)
Lemma discardInput_drop r n : 0 <= n -> discardInput r n = drop (Z.to_nat n) r.
Proof.
  intros Hn. unfold discardInput. change (10 * 1024) with 10240. pose proof (Z.div_mod n 10240 ltac:(lia)) as Hd.
  pose proof (Z.mod_pos_bound n 10240 ltac:(lia)). pose proof (Z.div_pos n 10240 Hn ltac:(lia)). cbv zeta.
  assert ((if 0 <? n then discard_loop (Z.to_nat (n / 10240)) 10240 r else r) = drop (Z.to_nat (n / 10240 * 10240)) r) as ->.
  { destruct (Z.ltb_spec 0 n).
    - rewrite discard_loop_drop by lia. f_equal. lia.
    - replace n with 0 by lia. by rewrite drop_0. }
  destruct (Z.ltb_spec 0 (n mod 10240)).
  - rewrite ReadFull_left, drop_drop by lia. f_equal. lia.
  - f_equal. lia.
Qed.

Lemma parseHeader_fields a c l k : length a = 4%nat -> length c = 12%nat -> length l = 4%nat -> length k = 4%nat ->
  parseHeader (a ++ c ++ l ++ k) = mkMessageHeader (le_decode a) (TrimRight c) (le_decode l) k.
Proof.
  intros Ha Hc Hl Hk. do 4 (destruct a as [|? a]; [done|]). destruct a; [|done]. do 12 (destruct c as [|? c]; [done|]). destruct c; [|done].
  do 4 (destruct l as [|? l]; [done|]). destruct l; [|done]. by do 4 (destruct k as [|? k]; [done|]); destruct k; [|done].
Qed.

Lemma checksum_length payload : length (take 4 (DoubleHashB payload)) = 4%nat.
Proof. rewrite length_take. unfold DoubleHashB. by rewrite sha256_length. Qed.

Lemma length_putUint n v : length (putUint n v) = n.
Proof. apply length_le_encode. Qed.

(** The written header is read back. *)
Lemma read_written_header btcnet msg n k rest : is_u 32 btcnet -> is_u 32 n -> length k = 4%nat ->
  readMessageHeader (putUint 4 btcnet ++ (Command msg ++ replicate (12 - length (Command msg)) 0) ++ putUint 4 n ++ k ++ rest) =
  (24, Some (mkMessageHeader btcnet (Command msg) n k), rest).
Proof.
  intros Hb Hn Hk. unfold readMessageHeader. pose proof (command_length msg) as Hc.
  set (c := Command msg ++ _) in *. replace (putUint 4 btcnet ++ c ++ putUint 4 n ++ k ++ rest)
    with ((putUint 4 btcnet ++ c ++ putUint 4 n ++ k) ++ rest) by (by rewrite <- !app_assoc).
  assert (MessageHeaderSize = len (putUint 4 btcnet ++ c ++ putUint 4 n ++ k)) as E.
  { unfold len. rewrite !length_app, !length_putUint, Hc, Hk. done. }
  rewrite E, ReadFull_app, <- E. cbn [fmap option_fmap option_map].
  rewrite parseHeader_fields by (done || apply length_putUint). unfold putUint. rewrite !le_decode_encode, !Z.mod_small by done.
  subst c. by rewrite command_trim.
Qed.

Lemma read_written msg pver btcnet w rest : typed msg -> is_u 32 btcnet -> WriteMessageN msg pver btcnet = Ok w ->
  exists payload, BtcEncode msg pver = Ok payload /\ ReadMessageN (w ++ rest) pver btcnet = (len w, Ok (received pver msg, payload), rest).
Proof.
  intros Ht Hb E. unfold WriteMessageN in E. rewrite command_short in E. apply bind_Ok in E as (payload & Hp & E). exists payload. split; [done|].
  destruct (Z.ltb_spec MaxMessagePayload (len payload)) as [|Hl]; [done|]. pose proof (len_nonneg payload) as Hn.
  assert (is_u 32 (len payload)) as Hu by (unfold is_u, MaxMessagePayload in *; lia). rewrite (wrapu_small 32) in E by done.
  destruct (Z.ltb_spec (MaxPayloadLength (kind_of msg) pver) (len payload)) as [|Hm]; [done|]. apply (inj Ok) in E as <-.
  unfold ReadMessageN. rewrite <- !app_assoc. rewrite (app_assoc (Command msg)). rewrite read_written_header by (done || apply checksum_length).
  cbn [mh_length mh_magic mh_command mh_checksum]. rewrite (proj2 (Z.ltb_ge _ _)), Z.eqb_refl, command_valid, command_kind by done. cbn [negb].
  rewrite (proj2 (Z.ltb_ge _ _)) by done. rewrite ReadFull_app, bool_decide_true, (decode_encode _ _ _ Ht Hp Hl) by done.
  do 2 f_equal. pose proof (command_length msg) as Hc. rewrite length_app in Hc. unfold len.
  rewrite !length_app, !length_putUint, checksum_length. lia.
Qed.

(** * Decoders return *)
Definition safe {A} (m : res string A) : Prop := m <> Panic /\ m <> Hang.

Lemma safe_bind {A B} (m : res string A) (f : A -> res string B) : safe m -> (forall a, safe (f a)) -> safe (mbind f m).
Proof. intros [Hp Hh] Hf. destruct m; [apply Hf|done..]. Qed.

Lemma safe_Ok {A} (x : A) : safe (Ok x).
Proof. done. Qed.
Lemma safe_Err {A} e : safe (A := A) (Err e).
Proof. done. Qed.
Lemma safe_if {A} (c : bool) (a b : res string A) : safe a -> safe b -> safe (if c then a else b).
Proof. by destruct c. Qed.

Lemma readFull_safe n r : safe (readFull n r).
Proof. by apply safe_if. Qed.

Create HintDb safe.
#[export] Hint Resolve safe_bind safe_Ok safe_Err safe_if readFull_safe : safe.

(** Going through a decoder. *)
Ltac solve_safe := repeat (intros; lazymatch goal with
  | |- safe (mbind _ _) => apply safe_bind
  | |- safe (if _ then _ else _) => apply safe_if
  | |- safe (match ?x with pair _ _ => _ end) => destruct x
  | |- safe (Ok _) => apply safe_Ok
  | |- safe (Err _) => apply safe_Err
  | |- _ => solve [auto with safe]
  end).

Lemma readUint_safe n r : safe (readUint n r).
Proof. unfold readUint. solve_safe. Qed.
#[export] Hint Resolve readUint_safe : safe.
Lemma ReadVarInt_safe r : safe (ReadVarInt r).
Proof. unfold ReadVarInt. solve_safe. Qed.
#[export] Hint Resolve ReadVarInt_safe : safe.
Lemma readMany_safe {A} (f : reader A) n r : (forall r, safe (f r)) -> safe (readMany f n r).
Proof. intros Hf. revert r. induction n as [|n IH]; intros r; cbn [readMany]; solve_safe. Qed.
#[export] Hint Resolve readMany_safe : safe.
Lemma ReadVarString_safe r : safe (ReadVarString r).
Proof. unfold ReadVarString. solve_safe. Qed.
Lemma ReadVarBytes_safe n r : safe (ReadVarBytes n r).
Proof. unfold ReadVarBytes. solve_safe. Qed.
Lemma readScript_safe n r : safe (readScript n r).
Proof. unfold readScript. solve_safe. Qed.
#[export] Hint Resolve ReadVarString_safe ReadVarBytes_safe readScript_safe : safe.
Lemma readTxIn_safe r : safe (readTxIn r).
Proof. unfold readTxIn, readOutPoint. solve_safe. Qed.
Lemma readTxOut_safe r : safe (readTxOut r).
Proof. unfold readTxOut. solve_safe. Qed.
#[export] Hint Resolve readTxIn_safe readTxOut_safe : safe.
Lemma relocate_safe ss : safe (relocate ss).
Proof. by rewrite relocate_spec. Qed.
#[export] Hint Resolve relocate_safe : safe.
Lemma tx_BtcDecode_safe r : safe (wire.BtcDecode r).
Proof. unfold wire.BtcDecode. solve_safe. Qed.
Lemma readBlockHeader_safe r : safe (readBlockHeader r).
Proof. unfold readBlockHeader. solve_safe. Qed.
#[export] Hint Resolve tx_BtcDecode_safe readBlockHeader_safe : safe.
Lemma readNetAddress_safe pver ts r : safe (readNetAddress pver ts r).
Proof. unfold readNetAddress. solve_safe. Qed.
#[export] Hint Resolve readNetAddress_safe : safe.

Lemma when_left_safe {A} (f : reader A) d r : (forall r, safe (f r)) -> safe (when_left r f d).
Proof. unfold when_left. solve_safe. Qed.
#[export] Hint Resolve when_left_safe : safe.
Lemma read_user_agent_safe r : safe (read_user_agent r).
Proof. unfold read_user_agent, validateUserAgent. solve_safe. Qed.
Lemma read_bool_safe r : safe (read_bool r).
Proof. unfold read_bool. solve_safe. Qed.
Lemma readInvVect_safe r : safe (readInvVect r).
Proof. unfold readInvVect. solve_safe. Qed.
Lemma read_bare_header_safe r : safe (read_bare_header r).
Proof. unfold read_bare_header. solve_safe. Qed.
#[export] Hint Resolve read_user_agent_safe read_bool_safe readInvVect_safe read_bare_header_safe : safe.

Lemma BtcDecode_safe k pver r : safe (BtcDecode k pver r).
Proof.
  destruct k; cbn [BtcDecode]; unfold as_msg, MsgVersion_BtcDecode, MsgAddr_BtcDecode, MsgGetHeaders_BtcDecode, MsgGetBlocks_BtcDecode,
    MsgBlock.BtcDecode, MsgGetData_BtcDecode, MsgNotFound_BtcDecode, MsgInv_BtcDecode, MsgPing_BtcDecode, MsgPong_BtcDecode,
    MsgHeaders_BtcDecode, MsgAlert_BtcDecode, empty_BtcDecode, MsgFilterAdd_BtcDecode, MsgFilterLoad_BtcDecode,
    MsgMerkleBlock_BtcDecode, MsgReject_BtcDecode, MsgFeeFilter_BtcDecode; cbv zeta; solve_safe.
Qed.

Lemma decode_kind k pver r msg rest : BtcDecode k pver r = Ok (msg, rest) -> kind_of msg = k.
Proof.
  destruct k; cbn [BtcDecode]; unfold as_msg; try (by intros [= <- <-]); intros ([x r1] & _ & [= <- <-])%bind_Ok; done.
Qed.

(** * Framing *)
Definition header (r : bytes) : messageHeader := parseHeader (take 24 r).

Lemma header_length r : bytes_ok r -> 0 <= mh_length (header r).
Proof. intros Hr. apply (le_decode_range (take 4 (drop 16 (take 24 r)))). by apply Forall_take, Forall_drop, Forall_take. Qed.

(** A stream that ends within the header. *)
Lemma short_header r pver btcnet : len r < 24 -> ReadMessageN r pver btcnet = (len r, Err "EOF", []).
Proof.
  intros Hl. unfold ReadMessageN, readMessageHeader, ReadFull. change MessageHeaderSize with 24. by rewrite (proj2 (Z.leb_gt _ _)) by done.
Qed.

(** What reading a message does once the header is there. *)
Lemma framing r pver btcnet : bytes_ok r -> 24 <= len r ->
  let L := mh_length (header r) in
  let '(n, result, rest) := ReadMessageN r pver btcnet in
  safe result /\
  (MaxMessagePayload < L -> n = 24 /\ is_ok result = false /\ rest = drop 24 r) /\
  (L <= MaxMessagePayload -> rest = drop (24 + Z.to_nat L) r) /\
  (forall msg payload, result = Ok (msg, payload) ->
     payload = take (Z.to_nat L) (drop 24 r) /\ n = 24 + L /\ n <= len r /\ L <= MaxPayloadLength (kind_of msg) pver /\
     mh_magic (header r) = btcnet /\ mh_command (header r) = Command msg /\
     take 4 (DoubleHashB payload) = mh_checksum (header r) /\
     exists left, BtcDecode (kind_of msg) pver payload = Ok (msg, left)).
Proof.
  intros Hr Hl L. unfold ReadMessageN, readMessageHeader, ReadFull at 1. change MessageHeaderSize with 24.
  rewrite (proj2 (Z.leb_le _ _)) by done. change (Z.to_nat 24) with 24%nat. cbn [fmap option_fmap option_map]. fold (header r). fold L.
  pose proof (header_length r Hr) as HL. fold L in HL. rewrite !discardInput_drop, !drop_drop by done.
  destruct (Z.ltb_spec MaxMessagePayload L) as [|Hmax]; [split_and!; [done|done|lia|done]|].
  destruct (Z.eqb_spec (mh_magic (header r)) btcnet) as [Hm|]; cbn [negb]; [|split_and!; (done || (intros; lia))].
  destruct (ValidString (mh_command (header r))); cbn [negb]; [|split_and!; (done || (intros; lia))].
  destruct (makeEmptyMessage (mh_command (header r))) as [k| | |] eqn:Hk; [|split_and!; (done || (intros; lia))..].
  destruct (Z.ltb_spec (MaxPayloadLength k pver) L); [split_and!; (done || (intros; lia))|].
  pose proof (ReadFull_left L (drop 24 r) HL) as Hd. rewrite drop_drop in Hd. unfold ReadFull in *.
  destruct (Z.leb_spec L (len (drop 24 r))) as [HlL|]; cbn [snd] in Hd; [|split_and!; (done || (intros; lia))]. case_bool_decide as Hc; [|rewrite drop_drop; split_and!; (done || (intros; lia))].
  pose proof (BtcDecode_safe k pver (take (Z.to_nat L) (drop 24 r))) as [Hp Hh].
  destruct (BtcDecode k pver _) as [[msg left]| | |] eqn:E; [|rewrite drop_drop; split_and!; (done || (intros; lia))|done..]. rewrite drop_drop.
  split_and!; [done|lia|done|]. intros msg' payload' [= <- <-]. pose proof (decode_kind _ _ _ _ _ E) as <-.
  split_and!; [done|done| |done|done|symmetry; by eapply kind_command|done|eauto].
  unfold len in *. rewrite length_drop in HlL. lia.
Qed.

(** * Sizes *)

(** The messages whose contents have limits of their own. *)
Definition bounded (msg : Message) : bool :=
  match msg with MBlock _ | MTx _ | MMerkleBlock _ | MAlert _ | MReject _ => false | _ => true end.

Lemma len_concat_const {A} (f : A -> bytes) k l : Forall (fun x => len (f x) = k) l -> len (concat (map f l)) = k * len l.
Proof. intros H. rewrite (len_concat_map f (fun _ => k)) by done. apply sum_const. Qed.

Lemma len_WriteVarInt_max n : len (WriteVarInt n) <= MaxVarIntPayload.
Proof. rewrite len_WriteVarInt. unfold VarIntSerializeSize, MaxVarIntPayload. repeat case_if; lia. Qed.

Lemma len_addresses pver l : Forall addr_ok l -> len (concat (map (writeNetAddress pver true) l)) = maxNetAddressPayload pver * len l.
Proof.
  intros Hl. apply len_concat_const. eapply Forall_impl; [exact Hl|]. intros na (_ & Hip & _). cbv beta. rewrite len_writeNetAddress by done.
  unfold maxNetAddressPayload. cbn [andb]. by case_if.
Qed.

Lemma len_inventory l : Forall inv_ok l -> len (concat (map writeInvVect l)) = maxInvVectPayload * len l.
Proof.
  intros Hl. apply len_concat_const. eapply Forall_impl; [exact Hl|]. intros iv (_ & Hh & _). unfold writeInvVect.
  by rewrite len_app, len_putUint, Hh.
Qed.

Lemma len_headers l : Forall wf_header l -> len (concat (map (fun bh => writeBlockHeader bh ++ WriteVarInt 0) l)) = (MaxBlockHeaderPayload + 1) * len l.
Proof.
  intros Hl. apply len_concat_const. eapply Forall_impl; [exact Hl|]. intros h Hh. cbv beta. rewrite len_app, len_writeBlockHeader, len_WriteVarInt by done.
  done.
Qed.

Lemma len_locator m : locator_ok m -> len (concat (gb_BlockLocatorHashes m) ++ gb_HashStop m) = HashSize * len (gb_BlockLocatorHashes m) + HashSize.
Proof.
  intros (_ & Hh & Hs & _). rewrite len_app, Hs. rewrite <- (map_id (gb_BlockLocatorHashes m)) at 1. rewrite (len_concat_const _ 32); [done|].
  eapply Forall_impl; [exact Hh|]. by intros h [? _].
Qed.

Lemma version_fits m pver payload : typed (MVersion m) -> MsgVersion_BtcEncode pver m = Ok payload -> len payload <= MsgVersion_MaxPayloadLength pver.
Proof.
  intros (_ & _ & Hy & Hm & _ & _) E. unfold MsgVersion_BtcEncode, validateUserAgent in E.
  destruct (Z.ltb_spec MaxUserAgentLen (len (ver_UserAgent m))); [done|]. apply (inj Ok) in E as <-.
  rewrite !len_app, !len_putUint, !len_writeNetAddress by (apply Hy || apply Hm). unfold WriteVarString. rewrite len_app.
  pose proof (len_WriteVarInt_max (len (ver_UserAgent m))). unfold MsgVersion_MaxPayloadLength, maxNetAddressPayload, MaxUserAgentLen, MaxVarIntPayload in *. cbn [andb]. cbv iota.
  assert (len (if BIP0037Version <=? pver then write_bool (negb (ver_DisableRelayTx m)) else []) <= 1) by (by case_if).
  destruct (NetAddressTimeVersion <=? pver); lia.
Qed.

Lemma locator_fits m payload : locator_ok m -> MsgGetBlocks_BtcEncode m = Ok payload -> len payload <= MsgGetBlocks_MaxPayloadLength.
Proof.
  intros Hm E. unfold MsgGetBlocks_BtcEncode in E. destruct (Z.ltb_spec MaxBlockLocatorsPerMsg (len (gb_BlockLocatorHashes m))); [done|].
  apply (inj Ok) in E as <-. rewrite len_app, len_putUint, len_app, (len_locator m Hm).
  pose proof (len_WriteVarInt_max (len (gb_BlockLocatorHashes m))). unfold MsgGetBlocks_MaxPayloadLength, MaxBlockLocatorsPerMsg, HashSize in *. lia.
Qed.

Lemma inventory_fits l payload : Forall inv_ok l -> MsgInv_BtcEncode l = Ok payload -> len payload <= MsgInv_MaxPayloadLength.
Proof.
  intros Hl E. unfold MsgInv_BtcEncode in E. destruct (Z.ltb_spec MaxInvPerMsg (len l)); [done|]. apply (inj Ok) in E as <-.
  rewrite len_app, len_inventory by done. pose proof (len_WriteVarInt_max (len l)).
  unfold MsgInv_MaxPayloadLength, maxInvVectPayload, MaxInvPerMsg, HashSize in *. lia.
Qed.

Lemma addresses_fit l pver payload : Forall addr_ok l -> MsgAddr_BtcEncode pver l = Ok payload -> len payload <= MsgAddr_MaxPayloadLength pver.
Proof.
  intros Hl E. unfold MsgAddr_BtcEncode, MsgAddr_MaxPayloadLength in *. pose proof (len_WriteVarInt_max (len l)).
  assert (0 < maxNetAddressPayload pver) by (unfold maxNetAddressPayload; case_if; lia).
  destruct (Z.ltb_spec MaxAddrPerMsg (len l)); [destruct (_ && _); done|].
  destruct (Z.ltb_spec pver MultipleAddressVersion), (Z.ltb_spec 1 (len l)); cbn [andb] in E; try done; apply (inj Ok) in E as <-;
    rewrite len_app, len_addresses by done; unfold MaxAddrPerMsg in *; nia.
Qed.

Lemma headers_fit l payload : Forall wf_header l -> MsgHeaders_BtcEncode l = Ok payload -> len payload <= MsgHeaders_MaxPayloadLength.
Proof.
  intros Hl E. unfold MsgHeaders_BtcEncode in E. destruct (Z.ltb_spec MaxBlockHeadersPerMsg (len l)); [done|]. apply (inj Ok) in E as <-.
  rewrite len_app, len_headers by done. pose proof (len_WriteVarInt_max (len l)).
  unfold MsgHeaders_MaxPayloadLength, MaxBlockHeadersPerMsg in *. change (MaxBlockHeaderPayload + 1) with 210 in *. lia.
Qed.

Lemma filters_fit pver : 
  (forall d payload, MsgFilterAdd_BtcEncode pver d = Ok payload -> len payload <= MsgFilterAdd_MaxPayloadLength) /\
  (forall m payload, MsgFilterLoad_BtcEncode pver m = Ok payload -> len payload <= MsgFilterLoad_MaxPayloadLength).
Proof.
  assert (forall n max, 0 <= n <= max -> VarIntSerializeSize n <= VarIntSerializeSize max) as Hmono.
  { intros n max Hn. unfold VarIntSerializeSize. repeat case_if; lia. }
  split.
  - intros d payload E. unfold MsgFilterAdd_BtcEncode in E. destruct (pver <? BIP0037Version); [done|].
    destruct (Z.ltb_spec MaxFilterAddDataSize (len d)); [done|]. apply (inj Ok) in E as <-. unfold WriteVarBytes.
    rewrite len_app, len_WriteVarInt. pose proof (len_nonneg d). pose proof (Hmono (len d) MaxFilterAddDataSize ltac:(lia)).
    unfold MsgFilterAdd_MaxPayloadLength. lia.
  - intros m payload E. unfold MsgFilterLoad_BtcEncode in E. destruct (pver <? BIP0037Version); [done|].
    destruct (Z.ltb_spec MaxFilterLoadFilterSize (len (fl_Filter m))); [done|]. destruct (MaxFilterLoadHashFuncs <? fl_HashFuncs m); [done|].
    apply (inj Ok) in E as <-. unfold WriteVarBytes. rewrite !len_app, !len_putUint, len_WriteVarInt. pose proof (len_nonneg (fl_Filter m)).
    pose proof (Hmono (len (fl_Filter m)) MaxFilterLoadFilterSize ltac:(lia)). unfold MsgFilterLoad_MaxPayloadLength. lia.
Qed.

(** The payload of a message that can be encoded fits in the limit of its type. *)
Lemma payload_fits msg pver payload : typed msg -> bounded msg = true -> BtcEncode msg pver = Ok payload ->
  len payload <= MaxPayloadLength (kind_of msg) pver.
Proof.
  intros Ht Hb E. destruct msg; try done; cbn [BtcEncode kind_of MaxPayloadLength typed] in *;
    try (by apply (inj Ok) in E as <-); try (by unfold empty_BtcEncode in E; destruct (pver <? _); [|apply (inj Ok) in E as <-]).
  - by apply (version_fits msg).
  - by apply (addresses_fit addrList).
  - by apply (locator_fits msg).
  - by apply (inventory_fits invList).
  - by apply (inventory_fits invList).
  - by apply (inventory_fits invList).
  - apply (inj Ok) in E as <-. unfold MsgPing_MaxPayloadLength. by case_if.
  - unfold MsgPong_BtcEncode, MsgPong_MaxPayloadLength in *. destruct (Z.leb_spec pver BIP0031Version); [done|]. apply (inj Ok) in E as <-.
    by rewrite (proj2 (Z.ltb_lt _ _)).
  - by apply (locator_fits msg).
  - by apply (headers_fit headers).
  - by apply (proj1 (filters_fit pver) data).
  - by apply (proj2 (filters_fit pver) msg).
  - unfold MsgFeeFilter_BtcEncode in E. destruct (pver <? FeeFilterVersion); [done|]. by apply (inj Ok) in E as <-.
Qed.

Lemma bounded_limit msg pver : bounded msg = true -> MaxPayloadLength (kind_of msg) pver <= MaxMessagePayload.
Proof.
  intros Hb. destruct msg; try done; cbn [kind_of MaxPayloadLength];
    unfold MsgVersion_MaxPayloadLength, MsgAddr_MaxPayloadLength, MsgPing_MaxPayloadLength, MsgPong_MaxPayloadLength, maxNetAddressPayload;
    repeat case_if; done.
Qed.

(** * Alerts *)
Record alert_ok (a : Alert) : Prop := mkAlertOk {
  alert_ints : is_s 32 (al_Version a) /\ is_s 64 (al_RelayUntil a) /\ is_s 64 (al_Expiration a) /\ is_s 32 (al_ID a) /\ is_s 32 (al_Cancel a) /\
    is_s 32 (al_MinVer a) /\ is_s 32 (al_MaxVer a) /\ is_s 32 (al_Priority a);
  alert_cancel : Forall (is_s 32) (al_SetCancel a);
  alert_subver : Forall bytes_ok (al_SetSubVer a);
  alert_strings : bytes_ok (al_Comment a) /\ bytes_ok (al_StatusBar a) /\ bytes_ok (al_Reserved a)
}.

Lemma len_strings n l : len (concat (map WriteVarString l)) <= n -> Forall (fun s => len s <= n) l.
Proof.
  induction l as [|x l IH]; cbn [map concat]; intros Hn; [done|]. rewrite len_app in Hn. unfold WriteVarString in Hn at 1. rewrite len_app in Hn.
  pose proof (len_nonneg (WriteVarInt (len x))). pose proof (len_nonneg x). pose proof (len_nonneg (concat (map WriteVarString l))).
  constructor; [lia|]. apply IH. lia.
Qed.

Lemma len_string_le s : len s <= len (WriteVarString s).
Proof. unfold WriteVarString. rewrite len_app. pose proof (len_nonneg (WriteVarInt (len s))). lia. Qed.

(** An alert is read back from its serialization. *)
Lemma alert_roundtrip a b : alert_ok a -> Alert_Serialize a = Ok b -> len b <= MaxMessagePayload -> NewAlertFromPayload b = Ok a.
Proof.
  intros [(Hv & Hr & He & Hi & Hc & Hmin & Hmax & Hp) Hcan Hsub (Hco & Hst & Hre)] E Hl. unfold Alert_Serialize in E.
  destruct (Z.ltb_spec maxCountSetCancel (len (al_SetCancel a))) as [|H1]; [done|].
  destruct (Z.ltb_spec maxCountSetSubVer (len (al_SetSubVer a))) as [|H2]; [done|]. apply (inj Ok) in E as <-.
  rewrite !len_app, !len_putUint in Hl. pose proof (len_WriteVarInt_pos (len (al_SetCancel a))). pose proof (len_WriteVarInt_pos (len (al_SetSubVer a))).
  pose proof (len_nonneg (concat (map (fun c => putUint 4 (u32 c)) (al_SetCancel a)))). pose proof (len_nonneg (concat (map WriteVarString (al_SetSubVer a)))).
  pose proof (len_string_le (al_Comment a)). pose proof (len_string_le (al_StatusBar a)). pose proof (len_string_le (al_Reserved a)).
  pose proof (len_nonneg (al_Comment a)). pose proof (len_nonneg (al_StatusBar a)). pose proof (len_nonneg (al_Reserved a)).
  assert (Forall string_ok (al_SetSubVer a)) as Hs.
  { apply Forall_and. split; [done|]. apply len_strings. lia. }
  pose proof (len_nonneg (al_SetCancel a)). pose proof (len_nonneg (al_SetSubVer a)).
  assert (maxCountSetCancel < 2 ^ 64 /\ maxCountSetSubVer < 2 ^ 64) as [? ?] by done.
  unfold NewAlertFromPayload, Alert_Deserialize.
  rewrite sends_int32 by done. cbn [mbind res_bind]. do 2 (rewrite sends_int64 by done; cbn [mbind res_bind]).
  do 2 (rewrite sends_int32 by done; cbn [mbind res_bind]). rewrite codec_read by (unfold is_u; lia). cbn [mbind res_bind].
  rewrite (proj2 (Z.ltb_ge _ _)) by done. rewrite (sends_many read_int32 _ _ id) by (done || apply Z_to_nat_len). cbn [mbind res_bind].
  do 2 (rewrite sends_int32 by done; cbn [mbind res_bind]). rewrite codec_read by (unfold is_u; lia). cbn [mbind res_bind].
  rewrite (proj2 (Z.ltb_ge _ _)) by done. rewrite (sends_many ReadVarString WriteVarString string_ok id) by (done || apply Z_to_nat_len). cbn [mbind res_bind].
  rewrite sends_int32 by done. cbn [mbind res_bind]. rewrite codec_read by (split; [done|lia]). cbn [mbind res_bind].
  rewrite codec_read by (split; [done|lia]). cbn [mbind res_bind]. rewrite <- (app_nil_r (WriteVarString (al_Reserved a))), codec_read by (split; [done|lia]).
  cbn [mbind res_bind]. rewrite !map_id. by destruct a.
Qed.

(** * Properties *)
Definition example_address : NetAddress := mkNetAddress (time_Unix 1500000000) 1 [127; 0; 0; 1] 7979.
Definition example_version : Message := MVersion (mkMsgVersion 70013 1 (time_Unix 1500000000) example_address example_address 42 (str "/prova/") 7 true).

Lemma typed_example_version : typed example_version.
Proof.
  assert (addr_ok example_address) as Ha by (split_and!; [done|repeat constructor; by vm_compute|done]).
  split_and!; [done|done|done|done|done|repeat constructor; by vm_compute|done].
Qed.

(** A message that was written is read from the front of the stream, with the
    payload that was encoded and the bytes behind it left: every field that the
    protocol version sends has its value, an IP address in the form of 16 bytes,
    the time of the version message in whole seconds and the time of an address in
    whole seconds modulo 2^32.  The times of block headers are whole seconds, which
    is part of [typed]. *)
Theorem message_roundtrip msg pver btcnet w rest : typed msg -> is_u 32 btcnet -> WriteMessageN msg pver btcnet = Ok w ->
  exists payload, BtcEncode msg pver = Ok payload /\
    ReadMessageN (w ++ rest) pver btcnet = (len w, Ok (received pver msg, payload), rest).
Proof. apply read_written. Qed.

(** C35: Whatever bytes a peer sends, reading a message returns: it does not panic.  A
    stream that ends within the header is read to its end and gives an error.  When
    the declared length is within the overall limit the reader is then exactly
    behind the message, or at the end of a stream that is too short, also if the
    message was rejected for its network, its command, its length, its checksum or its
    contents; otherwise the message is rejected and only its header was read.  An
    accepted message has the network, the command, a length within the limit of its
    type and the checksum of the header, and is the decoding of the bytes that the
    header announces. *)
Theorem message_framing r pver btcnet : bytes_ok r ->
  let L := mh_length (header r) in
  let '(n, result, rest) := ReadMessageN r pver btcnet in
  safe result /\
  (len r < 24 -> n = len r /\ is_ok result = false /\ rest = []) /\
  (24 <= len r -> MaxMessagePayload < L -> n = 24 /\ is_ok result = false /\ rest = drop 24 r) /\
  (24 <= len r -> L <= MaxMessagePayload -> rest = drop (24 + Z.to_nat L) r) /\
  (forall msg payload, result = Ok (msg, payload) ->
     payload = take (Z.to_nat L) (drop 24 r) /\ n = 24 + L /\ n <= len r /\ L <= MaxPayloadLength (kind_of msg) pver /\
     mh_magic (header r) = btcnet /\ mh_command (header r) = Command msg /\
     take 4 (DoubleHashB payload) = mh_checksum (header r) /\
     exists left, BtcDecode (kind_of msg) pver payload = Ok (msg, left)).
Proof.
  intros Hr L. destruct (Z.ltb_spec (len r) 24) as [Hs|Hl].
  - rewrite (short_header r pver btcnet Hs). split_and!; [done | done | lia | lia | done].
  - pose proof (framing r pver btcnet Hr Hl) as Hf. cbv zeta in Hf. fold L in Hf. destruct (ReadMessageN r pver btcnet) as [[n result] rest].
    destruct Hf as (H1 & H2 & H3 & H4). split_and!; [done | lia | by auto | by auto | done].
Qed.

(** A header for another network, its payload of two bytes, and the next message. *)
Definition example_stream : bytes := putUint 4 7 ++ CmdPing ++ replicate 8 0 ++ putUint 4 2 ++ replicate 4 0 ++ [1; 2] ++ [3; 4; 5].

Lemma message_framing_witness : (ReadMessageN example_stream 70013 0xd9b4bef9).2 = [3; 4; 5].
Proof.
  assert (bytes_ok example_stream) as Hb by (repeat constructor; by vm_compute).
  pose proof (message_framing example_stream 70013 0xd9b4bef9 Hb) as H. cbv zeta in H.
  destruct (ReadMessageN example_stream 70013 0xd9b4bef9) as [[n result] rest]. destruct H as (_ & _ & _ & H & _).
  cbn [snd]. rewrite H by (by vm_compute). by vm_compute.
Defined.

(** A message whose contents are within the limits that its encoder checks is
    written: the limits of the types of messages are large enough for every
    protocol version.  Blocks, transactions, merkle blocks, alerts and rejections
    have no limits of their own and can be refused. *)
Theorem message_written msg pver btcnet payload : typed msg -> bounded msg = true -> BtcEncode msg pver = Ok payload ->
  exists w, WriteMessageN msg pver btcnet = Ok w /\ len w = MessageHeaderSize + len payload.
Proof.
  intros Ht Hb E. pose proof (payload_fits _ _ _ Ht Hb E). pose proof (bounded_limit msg pver Hb). pose proof (len_nonneg payload).
  unfold WriteMessageN. rewrite command_short, E. cbn [mbind res_bind]. rewrite (proj2 (Z.ltb_ge _ _)) by lia.
  rewrite (wrapu_small 32) by (unfold is_u, MaxMessagePayload in *; lia). rewrite (proj2 (Z.ltb_ge _ _)) by lia. eexists. split; [done|].
  unfold len. rewrite !length_app, !length_putUint, checksum_length. pose proof (command_length msg) as Hc. rewrite length_app in Hc.
  unfold MessageHeaderSize. lia.
Qed.

End MessageSpec.
