(* ===== verification/Merkle.v ===== *)
(** Merkle trees over the transactions of a block: [src/blockchain/merkle.go].

    A nil hash is [None].  The exponent of the next power of two is computed in
    floating point by the code, which is exact for the numbers of transactions
    that fit a block. *)
From S2P Require Import Prelude Wire Crypto Script SigCache GoTime Header MsgBlock.
Import wire Crypto Script.
#[local] Open Scope Z_scope.

Module Merkle.

Definition nextPowerOfTwo (n : Z) : Z :=
  if Z.land n (n - 1) =? 0 then n else 1 ≪ (Z.log2 n + 1).

Definition HashMerkleBranches (left right : bytes) : bytes := DoubleHashH (left ++ right).

(** The parent of two nodes. *)
Definition parent (left right : option bytes) : option bytes :=
  match left, right with
  | None, _ => None
  | Some l, None => Some (HashMerkleBranches l l)
  | Some l, Some r => Some (HashMerkleBranches l r)
  end.

(** The loop over the transactions. *)
Fixpoint fill_leaves (nextPoT i : Z) (txs : list MsgTx) (merkles : list (option bytes))
    : res string (list (option bytes)) :=
  match txs with
  | [] => Ok merkles
  | tx :: rest =>
      merkles ← set_idx merkles i (Some (SigCache.TxHash tx));
      merkles ← set_idx merkles (i + nextPoT) (Some (MsgBlock.TxHashWithSig tx));
      fill_leaves nextPoT (i + 1) rest merkles
  end.

(** The loop over the nodes, [n] rounds from the pair at [i] on. *)
Fixpoint fill_parents (n : nat) (i offset : Z) (merkles : list (option bytes)) : res string (list (option bytes)) :=
  match n with
  | O => Ok merkles
  | S n =>
      l ← idx merkles i;
      r ← idx merkles (i + 1);
      merkles ← set_idx merkles offset (parent l r);
      fill_parents n (i + 2) (offset + 1) merkles
  end.

Definition BuildMerkleTreeStore (txs : list MsgTx) : res string (list (option bytes)) :=
  let nextPoT := nextPowerOfTwo (len txs) in
  let arraySize := nextPoT * 2 * 2 - 1 in
  if arraySize <? 0 then Panic
  else
    merkles ← fill_leaves nextPoT 0 txs (replicate (Z.to_nat arraySize) None);
    fill_parents (Z.to_nat ((arraySize - 1) / 2)) 0 (nextPoT * 2) merkles.

(** The root, as [checkBlockSanity] takes it from the array. *)
Definition merkle_root (txs : list MsgTx) : res string (option bytes) :=
  merkles ← BuildMerkleTreeStore txs; idx merkles (len merkles - 1).

(** * The tree *)

(** The node above [2 ^ d] leaves. *)
Fixpoint node (d : nat) (leaves : list (option bytes)) : option bytes :=
  match d with
  | O => match leaves with x :: _ => x | [] => None end
  | S d => parent (node d (take (2 ^ d) leaves)) (node d (drop (2 ^ d) leaves))
  end.

(** Hashes followed by missing leaves. *)
Definition padded (d : nat) (xs : list bytes) : list (option bytes) :=
  map Some xs ++ replicate (2 ^ d - length xs) None.

(** The tree over the transaction ids beside the tree over the hashes that
    include the signature scripts. *)
Definition tree_root (d : nat) (txs : list MsgTx) : option bytes :=
  parent (node d (padded d (map SigCache.TxHash txs))) (node d (padded d (map MsgBlock.TxHashWithSig txs))).

(** The buffers that are hashed for the node above two nodes, for the nodes above
    [2 ^ d] leaves, and for a tree with its transactions. *)
Definition joined (left right : option bytes) : list bytes :=
  match left, right with
  | None, _ => []
  | Some l, None => [l ++ l]
  | Some l, Some r => [l ++ r]
  end.

Fixpoint branches (d : nat) (leaves : list (option bytes)) : list bytes :=
  match d with
  | O => []
  | S d =>
      let l := take (2 ^ d) leaves in
      let r := drop (2 ^ d) leaves in
      joined (node d l) (node d r) ++ branches d l ++ branches d r
  end.

Definition hashed (txs : list MsgTx) : list bytes :=
  let d := Z.to_nat (Z.log2 (nextPowerOfTwo (len txs))) in
  let ids := padded d (map SigCache.TxHash txs) in
  let sids := padded d (map MsgBlock.TxHashWithSig txs) in
  map wire.Serialize txs ++ joined (node d ids) (node d sids) ++ branches d ids ++ branches d sids.

(** * Powers of two *)
Lemma nextPowerOfTwo_spec n : 0 < n ->
  exists d, nextPowerOfTwo n = 2 ^ Z.of_nat d /\ n <= 2 ^ Z.of_nat d < 2 * n.
Proof.
  intros Hn. unfold nextPowerOfTwo. pose proof (Z.log2_spec n Hn) as Hl. pose proof (Z.log2_nonneg n).
  destruct (Z.eqb_spec (Z.land n (n - 1)) 0) as [H0|H0].
  - exists (Z.to_nat (Z.log2 n)). rewrite Z2Nat.id by lia.
    assert (n = 2 ^ Z.log2 n) as Heq; [|lia].
    destruct (Z.eq_dec n (2 ^ Z.log2 n)) as [|Hne]; [done|]. exfalso.
    assert (Z.testbit (Z.land n (n - 1)) (Z.log2 n) = true) as Hb; [|by rewrite H0, Z.bits_0 in Hb].
    rewrite Z.land_spec, Z.bit_log2 by lia. cbn [andb].
    assert (Z.log2 (n - 1) = Z.log2 n) as <-; [|apply Z.bit_log2; lia].
    apply Z.log2_unique; lia.
  - exists (Z.to_nat (Z.log2 n + 1)). rewrite Z2Nat.id, Z.shiftl_1_l by lia.
    rewrite Z.add_1_r. split; [done|]. split; [lia|].
    destruct (Z.eq_dec n (2 ^ Z.log2 n)) as [Heq|]; [|rewrite Z.pow_succ_r by lia; lia].
    exfalso. apply H0.
    assert (Z.land (2 ^ Z.log2 n) (2 ^ Z.log2 n - 1) = 0) as Hz
      by (rewrite land_ones_mod by lia; apply Z.mod_same; lia).
    by rewrite <- Heq in Hz.
Qed.

Lemma pow_nat d : Z.of_nat (2 ^ d) = 2 ^ Z.of_nat d.
Proof. rewrite Nat2Z.inj_pow. done. Qed.

(** * The array *)

(** An array in which every node after the leaves is the parent of its two
    children, for the first [j] of these nodes. *)
Definition linked (n : nat) (j : nat) (a : list (option bytes)) : Prop :=
  forall t l r, (t < j)%nat -> a !! (2 * t)%nat = Some l -> a !! (2 * t + 1)%nat = Some r ->
  a !! (n + t)%nat = Some (parent l r).

Lemma fill_leaves_spec pot txs i pre mid suf0 suf1 suf :
  length pre = Z.to_nat i -> 0 <= i -> length suf0 = length txs -> length suf1 = length txs ->
  Z.of_nat (length pre + length suf0 + length mid) = pot + i -> 
  fill_leaves pot i txs (pre ++ suf0 ++ mid ++ suf1 ++ suf) =
    Ok (pre ++ map (fun tx => Some (SigCache.TxHash tx)) txs ++ mid ++
        map (fun tx => Some (MsgBlock.TxHashWithSig tx)) txs ++ suf).
Proof.
  revert i pre mid suf0 suf1. induction txs as [|tx txs IH]; intros i pre mid suf0 suf1 Hp Hi H0 H1 Hpot.
  - destruct suf0, suf1; done.
  - destruct suf0 as [|x suf0]; [done|]. destruct suf1 as [|y suf1]; [done|].
    cbn [fill_leaves map]. 
    assert (i = len pre) as -> by (unfold len; lia). cbn [app].
    rewrite set_idx_middle. cbn [mbind res_bind].
    set (h := Some (SigCache.TxHash tx)). set (hs := Some (MsgBlock.TxHashWithSig tx)).
    replace (pre ++ h :: suf0 ++ mid ++ y :: suf1 ++ suf)
      with ((pre ++ h :: suf0 ++ mid) ++ y :: suf1 ++ suf) by (rewrite <- !app_assoc; cbn; rewrite <- ?app_assoc; done).
    assert (len pre + pot = len (pre ++ h :: suf0 ++ mid)) as ->.
    { unfold len in *. rewrite length_app. cbn [length] in *. rewrite length_app. lia. }
    rewrite set_idx_middle. cbn [mbind res_bind].
    replace ((pre ++ h :: suf0 ++ mid) ++ hs :: suf1 ++ suf)
      with ((pre ++ [h]) ++ suf0 ++ (mid ++ [hs]) ++ suf1 ++ suf)
      by (rewrite <- !app_assoc; cbn; rewrite <- ?app_assoc; done).
    rewrite IH.
    + rewrite <- !app_assoc. cbn. by rewrite <- ?app_assoc.
    + rewrite length_app. unfold len. cbn [length]. lia.
    + unfold len. lia.
    + cbn in H0. lia.
    + cbn in H1. lia.
    + unfold len in *. rewrite !length_app. cbn [length] in *. lia.
Qed.

(** The parents are filled in one after the other. *)
Lemma fill_parents_spec n m j a :
  (length a = 2 * n - 1)%nat -> (m + j = n - 1)%nat -> linked n j a ->
  exists a', fill_parents m (Z.of_nat (2 * j)) (Z.of_nat (n + j)) a = Ok a' /\
    length a' = length a /\ linked n (n - 1) a' /\ take n a' = take n a.
Proof.
  revert j a. induction m as [|m IH]; intros j a Hl Hm Hlk.
  - exists a. split_and!; try done. by replace (n - 1)%nat with j by lia.
  - cbn [fill_parents].
    destruct (idx_in_range (E := string) a (Z.of_nat (2 * j))) as (l & -> & Hl1); [unfold len; lia|].
    cbn [mbind res_bind].
    destruct (idx_in_range (E := string) a (Z.of_nat (2 * j) + 1)) as (r & -> & Hr1); [unfold len; lia|].
    cbn [mbind res_bind]. rewrite set_idx_Ok by (unfold len; lia). cbn [mbind res_bind].
    rewrite Nat2Z.id in *. replace (Z.to_nat (Z.of_nat (2 * j) + 1)) with (2 * j + 1)%nat in Hr1 by lia.
    replace (Z.of_nat (2 * j) + 2) with (Z.of_nat (2 * S j)) by lia.
    replace (Z.of_nat (n + j) + 1) with (Z.of_nat (n + S j)) by lia.
    destruct (IH (S j) (<[(n + j)%nat := parent l r]> a)) as (a' & Ha' & Hla & Hlk' & Ht).
    + by rewrite length_insert.
    + lia.
    + intros t l' r' Hj H1 H2. rewrite list_lookup_insert_ne in H1, H2 by lia.
      destruct (decide (t = j)) as [->|].
      * rewrite list_lookup_insert_eq by lia. congruence.
      * rewrite list_lookup_insert_ne by lia. apply Hlk; [lia | done | done].
    + exists a'. rewrite length_insert in Hla. split_and!; try done. rewrite Ht.
      apply take_insert_ge. lia.
Qed.

(** The node at the [d]-th level, over the leaves from [t * 2 ^ d] on. *)
Lemma linked_node k a d t :
  linked (2 ^ k) (2 ^ k - 1) a -> (length a = 2 * 2 ^ k - 1)%nat -> (d <= k)%nat -> (t < 2 ^ (k - d))%nat ->
  a !! (2 * 2 ^ k - 2 * 2 ^ (k - d) + t)%nat = Some (node d (take (2 ^ d) (drop (t * 2 ^ d) (take (2 ^ k) a)))).
Proof.
  intros Hlk Hla. revert t. induction d as [|d IH]; intros t Hd Ht.
  - rewrite Nat.sub_0_r in *. cbn [node]. rewrite Nat.mul_1_r.
    replace (2 * 2 ^ k - 2 * 2 ^ k + t)%nat with t by lia.
    destruct (lookup_lt_is_Some_2 a t) as [x Hx]; [lia|]. rewrite Hx.
    assert (take (2 ^ k) a !! t = Some x) as Hx' by (rewrite lookup_take_lt by lia; done).
    rewrite (drop_S _ _ _ Hx'). by cbn.
  - assert (2 ^ (k - d) = 2 * 2 ^ (k - S d))%nat as Hp
      by (replace (k - d)%nat with (S (k - S d)) by lia; cbn; lia).
    assert (1 <= 2 ^ (k - S d) <= 2 ^ k)%nat as Hle
      by (split; [apply Nat.neq_0_lt_0, Nat.pow_nonzero; lia | apply Nat.pow_le_mono_r; lia]).
    assert (2 * 2 ^ (k - S d) <= 2 ^ k)%nat as Hle2 by (rewrite <- Hp; apply Nat.pow_le_mono_r; lia).
    pose proof (IH (2 * t)%nat ltac:(lia) ltac:(lia)) as Hl.
    pose proof (IH (2 * t + 1)%nat ltac:(lia) ltac:(lia)) as Hr.
    replace (2 * 2 ^ k - 2 * 2 ^ (k - S d) + t)%nat with (2 ^ k + (2 ^ k - 2 * 2 ^ (k - S d) + t))%nat by lia.
    rewrite (Hlk _ (node d (take (2 ^ d) (drop (2 * t * 2 ^ d) (take (2 ^ k) a))))
                   (node d (take (2 ^ d) (drop ((2 * t + 1) * 2 ^ d) (take (2 ^ k) a))))).
    + cbn [node]. f_equal. f_equal; f_equal.
      * rewrite take_take. f_equal; [cbn; lia|]. f_equal. cbn. lia.
      * rewrite (skipn_firstn_comm (2 ^ d) (2 ^ S d)), drop_drop. cbn [Nat.pow]. f_equal; [lia|]. f_equal. lia.
    + lia.
    + rewrite <- Hl. f_equal. lia.
    + rewrite <- Hr. f_equal. lia.
Qed.

Lemma length_padded d xs : (length xs <= 2 ^ d)%nat -> length (padded d xs) = (2 ^ d)%nat.
Proof. intros H. unfold padded. rewrite length_app, length_map, length_replicate. lia. Qed.

(** The last element of the array is the root of the tree. *)
Lemma merkle_root_tree txs d :
  txs <> [] -> nextPowerOfTwo (len txs) = 2 ^ Z.of_nat d -> len txs <= 2 ^ Z.of_nat d ->
  merkle_root txs = Ok (tree_root d txs).
Proof.
  intros Hne Hd Hle. unfold merkle_root, BuildMerkleTreeStore. rewrite Hd, <- pow_nat. rewrite <- pow_nat in Hle.
  unfold len in Hle. set (ids := map SigCache.TxHash txs). set (sids := map MsgBlock.TxHashWithSig txs).
  assert (1 <= 2 ^ d)%nat as Hpos by (apply Nat.neq_0_lt_0, Nat.pow_nonzero; lia).
  replace (Z.of_nat (2 ^ d) * 2 * 2 - 1 <? 0) with false by lia.
  replace (Z.to_nat (Z.of_nat (2 ^ d) * 2 * 2 - 1)) with
    (length txs + ((2 ^ d - length txs) + (length txs + ((2 ^ d - length txs) + (2 * 2 ^ d - 1)))))%nat by lia.
  rewrite !replicate_add.
  pose proof (fill_leaves_spec (Z.of_nat (2 ^ d)) txs 0 [] (replicate (2 ^ d - length txs) None)
    (replicate (length txs) None) (replicate (length txs) None)
    (replicate (2 ^ d - length txs) None ++ replicate (2 * 2 ^ d - 1) None)) as Hf.
  cbn [app] in Hf. rewrite Hf; [|done|lia|by rewrite length_replicate..|cbn [length]; rewrite !length_replicate; lia].
  clear Hf. cbn [mbind res_bind].
  assert (map (fun tx => Some (SigCache.TxHash tx)) txs = map Some ids) as -> by (unfold ids; by rewrite map_map).
  assert (map (fun tx => Some (MsgBlock.TxHashWithSig tx)) txs = map Some sids) as -> by (unfold sids; by rewrite map_map).
  assert (length ids = length txs) as Hids by (unfold ids; by rewrite length_map).
  assert (length sids = length txs) as Hsids by (unfold sids; by rewrite length_map).
  set (a := map Some ids ++ _).
  assert (a = (padded d ids ++ padded d sids) ++ replicate (2 * 2 ^ d - 1) None) as Ha.
  { unfold a, padded. rewrite Hids, Hsids, <- !app_assoc. done. }
  assert (length (padded d ids ++ padded d sids) = 2 ^ S d)%nat as Hlen
    by (rewrite length_app, !length_padded by lia; cbn; lia).
  assert (length a = 2 * 2 ^ S d - 1)%nat as Hla
    by (rewrite Ha, length_app, Hlen, length_replicate; cbn; lia).
  replace (Z.to_nat ((Z.of_nat (2 ^ d) * 2 * 2 - 1 - 1) / 2)) with (2 ^ S d - 1)%nat.
  2: { replace (Z.of_nat (2 ^ d) * 2 * 2 - 1 - 1) with ((Z.of_nat (2 ^ S d) - 1) * 2) by (cbn; lia).
       rewrite Z.div_mul by lia. lia. }
  destruct (fill_parents_spec (2 ^ S d) (2 ^ S d - 1) 0 a) as (a' & Ha' & Hla' & Hlk & Ht); [done | lia | by intros ? ? ? ?; lia |].
  replace (Z.of_nat (2 ^ d) * 2) with (Z.of_nat (2 ^ S d + 0)) by (cbn; lia).
  change (Z.of_nat (2 * 0)) with 0 in Ha'. rewrite Ha'. cbn [mbind res_bind].
  pose proof (linked_node (S d) a' (S d) 0 Hlk ltac:(lia) ltac:(lia)) as Hn.
  rewrite Nat.sub_diag in Hn. specialize (Hn ltac:(cbn; lia)).
  assert (2 ^ S d = 2 * 2 ^ d)%nat as HS by (cbn; lia). change (2 ^ 0)%nat with 1%nat in Hn.
  apply idx_Ok. split; [unfold len; lia|].
  replace (Z.to_nat (len a' - 1)) with (2 * 2 ^ S d - 2 * 1 + 0)%nat by (unfold len; lia).
  rewrite Hn. f_equal. rewrite Nat.mul_0_l, drop_0, Ht, Ha, take_app_length', take_ge by lia.
  cbn [node]. unfold tree_root.
  by rewrite take_app_length', drop_app_length' by (rewrite length_padded by lia; done).
Qed.

(** * What the root commits to *)

Lemma length_HashMerkleBranches l r : length (HashMerkleBranches l r) = 32%nat.
Proof. apply sha256_length. Qed.

Lemma branches_inj a b a' b' :
  length a = 32%nat -> length a' = 32%nat -> HashMerkleBranches a b = HashMerkleBranches a' b' ->
  (a = a' /\ b = b') \/ colliding (a ++ b) (a' ++ b').
Proof.
  intros Ha Ha' H. apply hash_eq in H as [H|H]; [|by right]. left. apply app_inj_1 in H; [done | congruence].
Qed.

Lemma padded_split d xs : (length xs <= 2 ^ S d)%nat ->
  take (2 ^ d) (padded (S d) xs) = padded d (take (2 ^ d) xs) /\
  drop (2 ^ d) (padded (S d) xs) = padded d (drop (2 ^ d) xs).
Proof.
  intros Hl. cbn [Nat.pow] in Hl. unfold padded. rewrite length_take, length_drop.
  destruct (Nat.le_gt_cases (length xs) (2 ^ d)) as [Hle|Hgt].
  - rewrite (take_ge xs), (drop_ge xs) by done. rewrite Nat.min_r by done.
    rewrite take_app_ge, drop_app_ge by (rewrite length_map; lia). rewrite length_map, take_replicate, drop_replicate.
    cbn [map app Nat.pow]. split; [f_equal|]; f_equal; lia.
  - rewrite take_app_le, drop_app_le by (rewrite length_map; lia). rewrite fmap_take || rewrite firstn_map.
    rewrite skipn_map. rewrite Nat.min_l by lia. rewrite Nat.sub_diag, app_nil_r.
    cbn [Nat.pow]. split; [done|]. f_equal. f_equal; lia.
Qed.

Lemma node_hash d xs : (length xs <= 2 ^ d)%nat -> Forall (fun h => length h = 32%nat) xs ->
  match node d (padded d xs) with
  | Some h => xs <> [] /\ length h = 32%nat
  | None => xs = []
  end.
Proof.
  revert xs. induction d as [|d IH]; intros xs Hl Hall.
  - destruct xs as [|x xs]; [done|]. cbn. inversion Hall. by split.
  - cbn [node]. destruct (padded_split d xs Hl) as [-> ->]. cbn [Nat.pow] in Hl.
    pose proof (IH (take (2 ^ d) xs) ltac:(rewrite length_take; lia) (Forall_take _ _ _ Hall)) as H1.
    pose proof (IH (drop (2 ^ d) xs) ltac:(rewrite length_drop; lia) (Forall_drop _ _ _ Hall)) as H2.
    assert (1 <= 2 ^ d)%nat by (apply Nat.neq_0_lt_0, Nat.pow_nonzero; lia).
    destruct (node d (padded d (take (2 ^ d) xs))) as [l|]; cbn [parent].
    + assert (xs <> []) by (destruct H1 as [H1 _]; intros ->; by rewrite take_nil in H1).
      by destruct (node d (padded d (drop (2 ^ d) xs))); split; try done; apply length_HashMerkleBranches.
    + destruct xs; [done|]. exfalso. destruct (2 ^ d)%nat; [lia | done].
Qed.

(** Two of the buffers collide. *)
Definition collision (bufs : list bytes) : Prop := exists a b, a ∈ bufs /\ b ∈ bufs /\ colliding a b.

Lemma NoDup_halves {A} n (xs : list A) :
  NoDup xs -> NoDup (take n xs) /\ NoDup (drop n xs) /\ (take n xs = drop n xs -> take n xs = []).
Proof.
  intros H. rewrite <- (take_drop n xs) in H. apply NoDup_app in H as (H1 & H2 & H3).
  split_and!; [done | done |]. intros Heq. destruct (take n xs) as [|x l]; [done|].
  exfalso. apply (H2 x); [left|]. rewrite <- Heq. left.
Qed.

(** Distinct hashes that fit under a node. *)
Definition fits (d : nat) (xs : list bytes) : Prop :=
  (length xs <= 2 ^ d)%nat /\ Forall (fun h => length h = 32%nat) xs /\ NoDup xs.

Definition binds (bufs : list bytes) (d : nat) : Prop := forall xs ys,
  fits d xs -> fits d ys -> branches d (padded d xs) ⊆ bufs -> branches d (padded d ys) ⊆ bufs ->
  node d (padded d xs) = node d (padded d ys) -> xs = ys \/ collision bufs.

Lemma fits_hash d xs : fits d xs ->
  (xs = [] /\ node d (padded d xs) = None) \/
  (xs <> [] /\ exists h, node d (padded d xs) = Some h /\ length h = 32%nat).
Proof.
  intros (Hl & Hall & _). pose proof (node_hash d xs Hl Hall) as H.
  destruct (node d (padded d xs)) as [h|]; [right | left]; naive_solver.
Qed.

(** Equal parents of hashes. *)
Lemma joined_inj bufs l r l' r' a a' :
  l = Some a -> l' = Some a' -> length a = 32%nat -> length a' = 32%nat -> joined l r ⊆ bufs -> joined l' r' ⊆ bufs ->
  parent l r = parent l' r' -> (l = l' /\ default a r = default a' r') \/ collision bufs.
Proof.
  intros -> -> La La' Sl Sr Heq.
  assert (a ++ default a r ∈ bufs /\ a' ++ default a' r' ∈ bufs) as [Ha Ha'] by (clear Heq; destruct r, r'; split; [apply Sl | apply Sr | apply Sl | apply Sr | apply Sl | apply Sr | apply Sl | apply Sr]; left).
  assert (HashMerkleBranches a (default a r) = HashMerkleBranches a' (default a' r')) as E by (destruct r, r'; exact (inj Some _ _ Heq)). clear Heq.
  destruct (branches_inj _ _ _ _ La La' E) as [[<- Hb]|Hc]; [left; split; [reflexivity | exact Hb]|].
  right. exists (a ++ default a r), (a' ++ default a' r'). split; [exact Ha|]. split; [exact Ha' | exact Hc].
Qed.

Lemma binding_step bufs d x1 x2 y1 y2 :
  binds bufs d -> fits d x1 -> fits d x2 -> fits d y1 -> fits d y2 ->
  (forall l, l ∈ [x1; x2; y1; y2] -> branches d (padded d l) ⊆ bufs) ->
  joined (node d (padded d x1)) (node d (padded d x2)) ⊆ bufs -> joined (node d (padded d y1)) (node d (padded d y2)) ⊆ bufs ->
  (x1 = [] -> x2 = []) -> (y1 = [] -> y2 = []) -> (x1 = x2 -> x1 = []) -> (y1 = y2 -> y1 = []) ->
  parent (node d (padded d x1)) (node d (padded d x2)) = parent (node d (padded d y1)) (node d (padded d y2)) ->
  (x1 = y1 /\ x2 = y2) \/ collision bufs.
Proof.
  intros IH X1 X2 Y1 Y2 HS Jx Jy Ex Ey Nx Ny Heq.
  pose proof (HS x1 ltac:(set_solver)) as S1. pose proof (HS x2 ltac:(set_solver)) as S2.
  pose proof (HS y1 ltac:(set_solver)) as S3. pose proof (HS y2 ltac:(set_solver)) as S4. clear HS.
  destruct (fits_hash d x1 X1) as [[-> E1]|(N1 & a & E1 & La)].
  { rewrite E1 in Heq. cbn [parent] in Heq. rewrite (Ex eq_refl).
    destruct (fits_hash d y1 Y1) as [[-> _]|(_ & b & E3 & _)]; [rewrite (Ey eq_refl); by left|].
    rewrite E3 in Heq. by destruct (node d (padded d y2)). }
  destruct (fits_hash d y1 Y1) as [[-> E3]|(N3 & b & E3 & Lb)].
  { rewrite E1, E3 in Heq. by destruct (node d (padded d x2)). }
  destruct (joined_inj bufs _ _ _ _ a b E1 E3 La Lb Jx Jy Heq) as [[E Er]|]; [|by right].
  destruct (IH x1 y1 X1 Y1 S1 S3 E) as [->|]; [|by right]. assert (a = b) as <- by congruence. clear X1 S1 E Heq Jx Jy E1.
  destruct (fits_hash d x2 X2) as [[-> E2]|(N2 & r & E2 & _)];
    destruct (fits_hash d y2 Y2) as [[-> E4]|(N4 & t & E4 & _)]; rewrite ?E2, ?E4 in Er; cbn in Er; subst.
  - by left.
  - destruct (IH y1 y2 Y1 Y2 S3 S4) as [Hyy|]; [congruence | | by right]. destruct N3. by apply Ny.
  - destruct (IH y1 x2 Y1 X2 S3 S2) as [Hyy|]; [congruence | | by right]. destruct N1. by apply Nx.
  - destruct (IH x2 y2 X2 Y2 S2 S4) as [->|]; [congruence | by left | by right].
Qed.

Lemma node_binding bufs d : binds bufs d.
Proof.
  induction d as [|d IH]; intros xs ys (Hx & Fx & Nx) (Hy & Fy & Ny) Sx Sy Heq.
  - cbn in Hx, Hy. destruct xs as [|x [|]], ys as [|y [|]]; cbn in *; try lia; naive_solver.
  - cbn [node] in Heq. cbn [branches] in Sx, Sy. destruct (padded_split d xs Hx) as [E1 E2], (padded_split d ys Hy) as [E3 E4].
    rewrite E1, E2 in Heq, Sx. rewrite E3, E4 in Heq, Sy. cbn [Nat.pow] in Hx, Hy.
    destruct (NoDup_halves (2 ^ d) xs Nx) as (Nx1 & Nx2 & Nx3), (NoDup_halves (2 ^ d) ys Ny) as (Ny1 & Ny2 & Ny3).
    assert (1 <= 2 ^ d)%nat as Hpos by (apply Nat.neq_0_lt_0, Nat.pow_nonzero; lia).
    assert (forall l : list bytes, take (2 ^ d) l = [] -> drop (2 ^ d) l = []) as Hnil
      by (intros [|y l] Hl; [by rewrite drop_nil | destruct (2 ^ d)%nat; [lia | done]]).
    rewrite <- (take_drop (2 ^ d) xs), <- (take_drop (2 ^ d) ys).
    destruct (binding_step bufs d (take (2 ^ d) xs) (drop (2 ^ d) xs) (take (2 ^ d) ys) (drop (2 ^ d) ys)) as [[-> ->]|]; auto.
    1-4: split_and!; auto using Forall_take, Forall_drop; rewrite ?length_take, ?length_drop; lia.
    all: set_solver.
Qed.

(** A transaction is determined by its hash with signatures. *)
Lemma TxHashWithSig_inj bufs t1 t2 :
  wf_tx t1 -> wf_tx t2 -> wire.Serialize t1 ∈ bufs -> wire.Serialize t2 ∈ bufs ->
  MsgBlock.TxHashWithSig t1 = MsgBlock.TxHashWithSig t2 -> t1 = t2 \/ collision bufs.
Proof.
  intros H1 H2 S1 S2 H. apply hash_eq in H as [H|H]; [left | right; exists (wire.Serialize t1), (wire.Serialize t2); split; [exact S1|]; split; [exact S2 | exact H]].
  pose proof (codec_read (read := wire.BtcDecode) t1 [] H1) as E1.
  pose proof (codec_read (read := wire.BtcDecode) t2 [] H2) as E2. rewrite H, E2 in E1. congruence.
Qed.

Lemma TxHashWithSig_map_inj bufs l1 l2 :
  Forall wf_tx l1 -> Forall wf_tx l2 -> map wire.Serialize l1 ⊆ bufs -> map wire.Serialize l2 ⊆ bufs ->
  map MsgBlock.TxHashWithSig l1 = map MsgBlock.TxHashWithSig l2 -> l1 = l2 \/ collision bufs.
Proof.
  intros H1. revert l2. induction H1 as [|t1 l1 Ht1 H1 IH]; intros [|t2 l2] H2 S1 S2 H; [by left | done | done |].
  apply Forall_cons in H2 as [Ht2 H2]. pose proof (inj Some _ _ (f_equal head H)) as Hh. pose proof (f_equal tail H) as Ht. cbn [map tail] in Ht, S1, S2.
  destruct (TxHashWithSig_inj bufs t1 t2 Ht1 Ht2 ltac:(apply S1; left) ltac:(apply S2; left) Hh) as [->|Hc]; [|right; exact Hc].
  destruct (IH l2 H2) as [->|Hc]; [intros x Hx; apply S1; right; exact Hx | intros x Hx; apply S2; right; exact Hx | exact Ht | left; reflexivity | right; exact Hc].
Qed.

Lemma sids_NoDup bufs txs : Forall wf_tx txs -> map wire.Serialize txs ⊆ bufs -> NoDup (map SigCache.TxHash txs) ->
  NoDup (map MsgBlock.TxHashWithSig txs) \/ collision bufs.
Proof.
  intros Hwf. induction Hwf as [|tx txs Htx Hwf IH]; intros HS Hnd; cbn [map] in *; [left; constructor|].
  apply NoDup_cons in Hnd as [Hni Hnd]. destruct (IH ltac:(intros x Hx; apply HS; right; exact Hx) Hnd) as [IH'|]; [|by right].
  destruct (decide (MsgBlock.TxHashWithSig tx ∈ map MsgBlock.TxHashWithSig txs)) as [Hin|Hnin];
    [|left; by constructor].
  apply list_elem_of_fmap in Hin as (tx' & Heq & Hin). pose proof (list_elem_of_fmap_2 wire.Serialize _ _ Hin) as Hin'.
  rewrite Forall_forall in Hwf.
  destruct (TxHashWithSig_inj bufs tx tx' Htx (Hwf _ Hin) ltac:(apply HS; left) ltac:(apply HS; right; exact Hin') Heq) as [->|]; [|by right].
  exfalso. apply Hni. apply list_elem_of_fmap. eauto.
Qed.

Lemma fits_hashes d (f : MsgTx -> bytes) txs :
  (length txs <= 2 ^ d)%nat -> (forall tx, length (f tx) = 32%nat) -> NoDup (map f txs) -> fits d (map f txs).
Proof.
  intros Hl H32 Hnd. split_and!; [by rewrite length_map | | done]. apply Forall_map, Forall_forall. auto.
Qed.

Lemma hashed_parts bufs txs d : nextPowerOfTwo (len txs) = 2 ^ Z.of_nat d -> hashed txs ⊆ bufs ->
  map wire.Serialize txs ⊆ bufs /\
  joined (node d (padded d (map SigCache.TxHash txs))) (node d (padded d (map MsgBlock.TxHashWithSig txs))) ⊆ bufs /\
  branches d (padded d (map MsgBlock.TxHashWithSig txs)) ⊆ bufs.
Proof.
  intros Hd. unfold hashed. rewrite Hd, Z.log2_pow2, Nat2Z.id by lia. generalize (joined (node d (padded d (map SigCache.TxHash txs)))
    (node d (padded d (map MsgBlock.TxHashWithSig txs)))) as js, (branches d (padded d (map SigCache.TxHash txs))) as bs0,
    (branches d (padded d (map MsgBlock.TxHashWithSig txs))) as bs, (map wire.Serialize txs) as ts. set_solver.
Qed.

(** C22: the root commits to the transactions.  Two blocks without repeated
    transactions, of sizes that give trees of the same height, have the same root
    only if they have the same transactions, signature scripts included, or if two
    different ones of the buffers hashed for these two trees, the serialized
    transactions and the pairs of nodes, have the same double SHA-256.  Repeated
    transactions must be excluded, as the rules for blocks do: repeating the last one
    of three does not change the root. *)
Theorem merkle_binding txs1 txs2 :
  txs1 <> [] -> txs2 <> [] -> Forall wf_tx txs1 -> Forall wf_tx txs2 ->
  NoDup (map SigCache.TxHash txs1) -> NoDup (map SigCache.TxHash txs2) ->
  nextPowerOfTwo (len txs1) = nextPowerOfTwo (len txs2) ->
  (merkle_root txs1 = merkle_root txs2 -> txs1 = txs2 \/ collision (hashed txs1 ++ hashed txs2)) /\
  forall a b c, merkle_root [a; b; c] = merkle_root [a; b; c; c].
Proof.
  intros Hne1 Hne2 Hwf1 Hwf2 Hnd1 Hnd2 Hpot. split.
  2: { intros a b c. rewrite (merkle_root_tree [a; b; c] 2), (merkle_root_tree [a; b; c; c] 2) by done. reflexivity. }
  assert (forall l : list MsgTx, l <> [] -> 0 < len l) as Hpos by (intros [|]; [done|]; intros; rewrite len_cons; pose proof (len_nonneg l); lia).
  destruct (nextPowerOfTwo_spec (len txs1) (Hpos _ Hne1)) as (d & Hd1 & Hle1 & _).
  destruct (nextPowerOfTwo_spec (len txs2) (Hpos _ Hne2)) as (d' & Hd2 & Hle2 & _).
  assert (2 ^ Z.of_nat d = 2 ^ Z.of_nat d') as Hdd by congruence. rewrite <- Hdd in Hd2, Hle2.
  rewrite (merkle_root_tree txs1 d), (merkle_root_tree txs2 d) by done. unfold tree_root. intros [= Heq].
  set (bufs := hashed txs1 ++ hashed txs2). rewrite <- pow_nat in Hle1, Hle2. unfold len in Hle1, Hle2.
  destruct (hashed_parts bufs txs1 d Hd1) as (T1 & J1 & B1); [unfold bufs; intros x Hx; apply elem_of_app; by left|].
  destruct (hashed_parts bufs txs2 d Hd2) as (T2 & J2 & B2); [unfold bufs; intros x Hx; apply elem_of_app; by right|].
  destruct (sids_NoDup bufs txs1 Hwf1 T1 Hnd1) as [Hs1|]; [|by right]. destruct (sids_NoDup bufs txs2 Hwf2 T2 Hnd2) as [Hs2|]; [|by right].
  assert (forall tx, length (SigCache.TxHash tx) = 32%nat) as H32 by (intros; apply sha256_length).
  assert (forall tx, length (MsgBlock.TxHashWithSig tx) = 32%nat) as H32' by (intros; apply sha256_length).
  pose proof (fits_hashes d _ txs1 ltac:(lia) H32 Hnd1) as F1. pose proof (fits_hashes d _ txs2 ltac:(lia) H32 Hnd2) as F2.
  pose proof (fits_hashes d _ txs1 ltac:(lia) H32' Hs1) as G1. pose proof (fits_hashes d _ txs2 ltac:(lia) H32' Hs2) as G2.
  destruct (fits_hash d _ F1) as [[E _]|(_ & a & Ea & La)]; [by destruct txs1|].
  destruct (fits_hash d _ F2) as [[E _]|(_ & b & Eb & Lb)]; [by destruct txs2|].
  destruct (fits_hash d _ G1) as [[E _]|(_ & r & Er & _)]; [by destruct txs1|].
  destruct (fits_hash d _ G2) as [[E _]|(_ & t & Et & _)]; [by destruct txs2|].
  destruct (joined_inj bufs _ _ _ _ a b Ea Eb La Lb J1 J2 Heq) as [[_ E]|Hc]; [|by right].
  destruct (node_binding bufs d _ _ G1 G2 B1 B2) as [Hmap|Hc]; [| |by right].
  - rewrite Er, Et in E |- *. cbn in E. by rewrite E.
  - by apply TxHashWithSig_map_inj.
Qed.

Lemma merkle_binding_witness :
  (merkle_root [example_tx] = merkle_root [example_tx] -> [example_tx] = [example_tx] \/ collision (hashed [example_tx] ++ hashed [example_tx])) /\
  forall a b c, merkle_root [a; b; c] = merkle_root [a; b; c; c].
Proof.
  apply (merkle_binding [example_tx] [example_tx]); try discriminate; try reflexivity.
  - constructor; [apply wf_example_tx | constructor].
  - constructor; [apply wf_example_tx | constructor].
  - apply NoDup_singleton.
  - apply NoDup_singleton.
Defined.

End Merkle.
