(* ===== verification/Database.v ===== *)
(** The database as its users see it: the contract of [src/database/interface.go],
    with the error codes of [src/database/error.go].

    The state holds the pairs of the metadata bucket, the buckets below it and
    the blocks.  [View] and [Update] run a function in a transaction; when the
    function of [Update] fails its changes are rolled back.  Transactions are
    always open and, in [Update], writable, and the storage itself does not
    fail.  [None] is the nil slice that [Get] returns for a missing key; a nil
    bucket is used only to call a method on it, which panics. *)
From S2P Require Import Prelude Wire Header MsgBlock.
Import wire Header.
#[local] Open Scope Z_scope.

Module Database.

Inductive ErrorCode :=
  | ErrDbTypeRegistered | ErrDbUnknownType | ErrDbDoesNotExist | ErrDbExists | ErrDbNotOpen | ErrDbAlreadyOpen
  | ErrInvalid | ErrCorruption | ErrTxClosed | ErrTxNotWritable | ErrBucketNotFound | ErrBucketExists
  | ErrBucketNameRequired | ErrKeyRequired | ErrKeyTooLarge | ErrValueTooLarge | ErrIncompatibleValue
  | ErrBlockNotFound | ErrBlockExists | ErrBlockRegionInvalid | ErrDriverSpecific.

Record DB := mkDB {
  metadata : gmap bytes bytes;
  buckets : gmap bytes (gmap bytes bytes);
  blocks : gmap bytes bytes
}.

Definition empty_db : DB := mkDB ∅ ∅ ∅.

(** * The metadata bucket *)
Definition Get (db : DB) (key : bytes) : option bytes := metadata db !! key.

Definition Put (db : DB) (key value : bytes) : res ErrorCode DB :=
  if len key =? 0 then Err ErrKeyRequired
  else if bool_decide (is_Some (buckets db !! key)) then Err ErrIncompatibleValue
  else Ok (mkDB (<[key := value]> (metadata db)) (buckets db) (blocks db)).

Definition CreateBucket (db : DB) (key : bytes) : res ErrorCode DB :=
  if len key =? 0 then Err ErrBucketNameRequired
  else if bool_decide (is_Some (buckets db !! key)) then Err ErrBucketExists
  else if bool_decide (is_Some (metadata db !! key)) then Err ErrIncompatibleValue
  else Ok (mkDB (metadata db) (<[key := ∅]> (buckets db)) (blocks db)).

(** * The buckets below it *)
Definition set_bucket (db : DB) (name : bytes) (b : gmap bytes bytes) : DB :=
  mkDB (metadata db) (<[name := b]> (buckets db)) (blocks db).

Definition bucket_Get {E} (db : DB) (name key : bytes) : res E (option bytes) :=
  match buckets db !! name with Some b => Ok (b !! key) | None => Panic end.

Definition bucket_Put (db : DB) (name key value : bytes) : res ErrorCode DB :=
  match buckets db !! name with
  | None => Panic
  | Some b => if len key =? 0 then Err ErrKeyRequired else Ok (set_bucket db name (<[key := value]> b))
  end.

Definition bucket_Delete (db : DB) (name key : bytes) : res ErrorCode DB :=
  match buckets db !! name with
  | None => Panic
  | Some b => if len key =? 0 then Err ErrKeyRequired else Ok (set_bucket db name (delete key b))
  end.

(** * Blocks *)
Definition HasBlock (db : DB) (hash : bytes) : bool := bool_decide (is_Some (blocks db !! hash)).

Definition StoreBlock `{PowHash} (db : DB) (block : MsgBlock.Block) : res ErrorCode DB :=
  let hash := MsgBlock.BlockHash (MsgBlock.msgBlock block) in
  if HasBlock db hash then Err ErrBlockExists
  else Ok (mkDB (metadata db) (buckets db) (<[hash := MsgBlock.Bytes block]> (blocks db))).

Definition FetchBlock (db : DB) (hash : bytes) : res ErrorCode bytes :=
  match blocks db !! hash with Some b => Ok b | None => Err ErrBlockNotFound end.

Definition FetchBlockHeader (db : DB) (hash : bytes) : res ErrorCode bytes :=
  match blocks db !! hash with Some b => slice b 0 MaxBlockHeaderPayload | None => Err ErrBlockNotFound end.

(** * Transactions *)
Definition View {E A} (db : DB) (fn : DB -> res E A) : res E A := fn db.

Definition Update {E} (db : DB) (fn : DB -> res E DB) : DB * res E unit :=
  match fn db with
  | Ok db' => (db', Ok tt)
  | Err e => (db, Err e)
  | Panic => (db, Panic)
  | Hang => (db, Hang)
  end.

(** * Facts *)
Lemma bucket_Put_Ok db name b key value :
  buckets db !! name = Some b -> key <> [] -> bucket_Put db name key value = Ok (set_bucket db name (<[key := value]> b)).
Proof.
  intros Hb Hk. unfold bucket_Put. rewrite Hb. destruct (Z.eqb_spec (len key) 0) as [H|]; [|done].
  by apply len_0 in H.
Qed.

Lemma bucket_Delete_Ok db name b key :
  buckets db !! name = Some b -> key <> [] -> bucket_Delete db name key = Ok (set_bucket db name (delete key b)).
Proof.
  intros Hb Hk. unfold bucket_Delete. rewrite Hb. destruct (Z.eqb_spec (len key) 0) as [H|]; [|done].
  by apply len_0 in H.
Qed.

Lemma set_bucket_same db name b : buckets (set_bucket db name b) !! name = Some b.
Proof. apply lookup_insert_eq. Qed.

Lemma set_bucket_other db name name' b : name <> name' -> buckets (set_bucket db name b) !! name' = buckets db !! name'.
Proof. intros H. by apply lookup_insert_ne. Qed.

(** A failed update changes nothing, and a successful one is what the function
    computed. *)
Lemma Update_atomic {E} (db : DB) (fn : DB -> res E DB) :
  match Update db fn with
  | (db', Ok _) => fn db = Ok db'
  | (db', _) => db' = db /\ forall db'', fn db <> Ok db''
  end.
Proof. unfold Update. destruct (fn db); done. Qed.

End Database.
