(* ===== verification/Params.v ===== *)
(** The parameters of a network: [src/chaincfg/params.go].

    Names, ports, seeds and address magics are left out.  A [time.Duration] is an
    int64 of nanoseconds. *)
From S2P Require Import Prelude PubKey Wire GoTime Header MsgBlock.
Import btcec wire GoTime Header MsgBlock.
#[local] Open Scope Z_scope.

Module Params.

Record Checkpoint := mkCheckpoint { cp_Height : Z; cp_Hash : bytes }.

Record Params := mkParams {
  GenesisBlock : MsgBlock; GenesisHash : bytes;
  AdminKeySets : gmap KeySetType PublicKeySet; ASPKeyIdMap : KeyIdMap;
  PowLimit : Z; PowLimitBits : Z; CoinbaseMaturity : Z; SubsidyReductionInterval : Z; TargetTimePerBlock : Z;
  Checkpoints : list Checkpoint;
  BlockEnforceNumRequired : Z; BlockRejectNumRequired : Z; BlockUpgradeNumToCheck : Z;
  PowAveragingWindow : Z; PowMaxAdjustDown : Z; PowMaxAdjustUp : Z;
  ChainWindowMaxBlocks : Z; MaximumFeeAmount : Z }.

Definition AveragingWindowTimespan (p : Params) : Z := i64 (PowAveragingWindow p * TargetTimePerBlock p).

Definition MaxActualTimespan (p : Params) : Z :=
  let dampenPercentage := i64 (100 + PowMaxAdjustDown p) in
  Z.quot (i64 (AveragingWindowTimespan p * dampenPercentage)) 100.

Definition MinActualTimespan (p : Params) : Z :=
  let dampenPercentage := i64 (100 - PowMaxAdjustUp p) in
  Z.quot (i64 (AveragingWindowTimespan p * dampenPercentage)) 100.

(** The quotient in floating point, rounded up; an infinite quotient converts to
    the smallest integer on the usual platforms. *)
Definition MinValidateKeySetSize (p : Params) : Z :=
  if ChainWindowMaxBlocks p =? 0 then - 2 ^ 63
  else - ((- PowAveragingWindow p) / ChainWindowMaxBlocks p).

(** The numbers of the main network, with a genesis block and key sets given. *)
Definition MainNetParams (genesis : MsgBlock) (hash : bytes) (keys : gmap KeySetType PublicKeySet) (ids : KeyIdMap) : Params :=

  mkParams genesis hash keys ids (2 ^ 243 - 1) 0x1f07ffff 100 210000 (Second * 150) [] 750 950 1000 31 32 16 3 5000000.

End Params.
