(* ===== verification/Difficulty.v ===== *)
(** Proof-of-work targets: [src/blockchain/difficulty.go].

    [math/big] integers are [Z].  The walk over the nodes of the chain in
    [calcNextRequiredDifficulty] is in Node.v. *)
From S2P Require Import Prelude PubKey GoTime Header MsgBlock Params.
Import btcec GoTime Params.
#[local] Open Scope Z_scope.

Module Difficulty.

Definition oneLsh256 : Z := 1 ≪ 256.

(** The loop that reverses the bytes of the hash in place. *)
Fixpoint swap_loop (n : nat) (i : Z) (buf : bytes) : res string bytes :=
  match n with
  | O => Ok buf
  | S n =>
      a ← idx buf i;
      b ← idx buf (len buf - 1 - i);
      buf ← set_idx buf i b;
      buf ← set_idx buf (len buf - 1 - i) a;
      swap_loop n (i + 1) buf
  end.

Definition HashToBig (hash : bytes) : res string Z :=
  buf ← swap_loop (Z.to_nat (len hash / 2)) 0 hash; Ok (be_decode buf).

Definition CompactToBig (compact : Z) : Z :=
  let mantissa := Z.land compact 0x007fffff in
  let isNegative := negb (Z.land compact 0x00800000 =? 0) in
  let exponent := compact ≫ 24 in
  let bn := if exponent <=? 3 then mantissa ≫ (8 * (3 - exponent)) else mantissa ≪ (8 * (exponent - 3)) in
  if isNegative then - bn else bn.

Definition BigToCompact (n : Z) : Z :=
  if n =? 0 then 0
  else
    let exponent := len (bigBytes (Z.abs n)) in
    let mantissa :=
      if exponent <=? 3 then u32 (u32 (Z.abs n) ≪ (8 * (3 - exponent)))
      else u32 (Z.abs (n ≫ (8 * (exponent - 3)))) in
    let '(mantissa, exponent) :=
      if negb (Z.land mantissa 0x00800000 =? 0) then (mantissa ≫ 8, exponent + 1) else (mantissa, exponent) in
    let compact := Z.lor (u32 (exponent ≪ 24)) mantissa in
    if n <? 0 then Z.lor compact 0x00800000 else compact.

Definition CalcWork (bits : Z) : Z :=
  let difficultyNum := CompactToBig bits in
  if difficultyNum <=? 0 then 0
  else let denominator := difficultyNum + 1 in oneLsh256 / denominator.

(** A division by a window shorter than a millisecond panics. *)
Definition nextRequiredDifficulty (chainParams : Params) (firstNodeTime lastNodeTime : Time) (avgDifficulty : Z)
    : res string Z :=
  let timespan := i64 (UnixNano lastNodeTime - UnixNano firstNodeTime) in
  let timespan := i64 (AveragingWindowTimespan chainParams +
                       Z.quot (i64 (timespan - AveragingWindowTimespan chainParams)) 4) in
  let timespan :=
    if timespan <? MinActualTimespan chainParams then MinActualTimespan chainParams
    else if MaxActualTimespan chainParams <? timespan then MaxActualTimespan chainParams
    else timespan in
  let avgWindowTimespan := Z.quot (AveragingWindowTimespan chainParams) Millisecond in
  if avgWindowTimespan =? 0 then Panic
  else
    let avgDifficulty := avgDifficulty / avgWindowTimespan in
    let avgDifficulty := avgDifficulty * Z.quot timespan Millisecond in
    let avgDifficulty := if PowLimit chainParams <? avgDifficulty then PowLimit chainParams else avgDifficulty in
    Ok (BigToCompact avgDifficulty).

(** * The compact form *)

Lemma bigBytes_size n : 0 < n -> 1 <= len (bigBytes n) /\ 256 ^ (len (bigBytes n) - 1) <= n < 256 ^ len (bigBytes n).
Proof.
  intros Hn. unfold bigBytes. replace (n <=? 0) with false by lia.
  unfold len. rewrite length_be_encode. pose proof (Z.log2_nonneg n). pose proof (Z.log2_spec n Hn) as Hl.
  pose proof (Z.div_pos (Z.log2 n) 8 ltac:(lia) ltac:(lia)).
  rewrite Z2Nat.id by lia. split; [lia|].
  change 256 with (2 ^ 8). rewrite <- !Z.pow_mul_r by lia.
  pose proof (Z.mul_div_le (Z.log2 n) 8 ltac:(lia)). pose proof (Z.mul_succ_div_gt (Z.log2 n) 8 ltac:(lia)).
  split.
  - etransitivity; [|apply Hl]. apply Z.pow_le_mono_r; lia.
  - eapply Z.lt_le_trans; [apply Hl|]. apply Z.pow_le_mono_r; lia.
Qed.

Lemma bit23_clear m : 0 <= m < 2 ^ 24 -> (Z.land m 0x00800000 =? 0) = (m <? 2 ^ 23).
Proof.
  intros Hm. change 0x00800000 with (1 ≪ 23). 
  destruct (Z.ltb_spec m (2 ^ 23)).
  - rewrite Z.land_comm, land_shiftl_small by lia. done.
  - apply Z.eqb_neq. intros H0.
    assert (Z.testbit (Z.land m (1 ≪ 23)) 23 = false) as Hb by (rewrite H0; apply Z.bits_0).
    rewrite Z.land_spec, Z.shiftl_spec, andb_true_r in Hb by lia.
    rewrite Z.testbit_eqb in Hb by lia.
    replace (m / 2 ^ 23) with 1 in Hb; [done|]. apply Z.div_unique with (m - 2 ^ 23); lia.
Qed.

(** A compact number with its parts. *)
Definition pack (e m : Z) : Z := e * 2 ^ 24 + m.

Lemma pack_lor e m : 0 <= e < 256 -> 0 <= m < 2 ^ 24 -> Z.lor (u32 (e ≪ 24)) m = pack e m.
Proof.
  intros He Hm. rewrite wrapu_small.
  - by rewrite lor_shiftl_add by lia.
  - unfold is_u. rewrite Z.shiftl_mul_pow2 by lia. lia.
Qed.

Lemma CompactToBig_pack e m : 0 <= e -> 0 <= m < 2 ^ 23 ->
  CompactToBig (pack e m) = if e <=? 3 then m / 256 ^ (3 - e) else m * 256 ^ (e - 3).
Proof.
  intros He Hm. unfold CompactToBig.
  assert (Z.land (pack e m) 0x007fffff = m) as ->.
  { change 0x007fffff with (2 ^ 23 - 1). rewrite land_ones_mod by lia. unfold pack.
    replace (e * 2 ^ 24 + m) with (m + (2 * e) * 2 ^ 23) by lia. rewrite Z_mod_plus_full. by apply Z.mod_small. }
  assert (Z.land (pack e m) 0x00800000 = 0) as ->.
  { unfold pack. rewrite <- lor_shiftl_add, Z.land_lor_distr_l, (land_shiftl_small e) by lia.
    rewrite Z.lor_0_l. apply Z.eqb_eq. rewrite bit23_clear by lia. lia. }
  assert (pack e m ≫ 24 = e) as ->.
  { rewrite Z.shiftr_div_pow2 by lia. symmetry. apply Z.div_unique with m; unfold pack; lia. }
  cbn [Z.eqb negb]. destruct (Z.leb_spec e 3).
  - rewrite Z.shiftr_div_pow2 by lia. rewrite Z.pow_mul_r by lia. done.
  - rewrite Z.shiftl_mul_pow2 by lia. rewrite Z.pow_mul_r by lia. done.
Qed.

(** The parts that a positive number gets. *)
Lemma BigToCompact_parts n : 0 < n < 256 ^ 254 ->
  exists e m, BigToCompact n = pack e m /\ 0 <= e <= 255 /\ 2 ^ 15 <= m < 2 ^ 23 /\
    (if e <=? 3 then m = n * 256 ^ (3 - e) else m = n / 256 ^ (e - 3)).
Proof.
  intros Hn. unfold BigToCompact. replace (n =? 0) with false by lia. replace (n <? 0) with false by lia.
  rewrite Z.abs_eq by lia. destruct (bigBytes_size n) as (He & Hlo & Hhi); [lia|].
  set (e := len (bigBytes n)) in *.
  assert (e <= 254) as He'.
  { apply Z.le_trans with ((e - 1) + 1); [lia|]. apply Z.le_succ_l, (Z.pow_lt_mono_r_iff 256); lia. }
  set (m0 := if e <=? 3 then n * 256 ^ (3 - e) else n / 256 ^ (e - 3)).
  assert (2 ^ 16 <= m0 < 2 ^ 24) as Hm0.
  { unfold m0. destruct (Z.leb_spec e 3).
    - assert (e = 1 \/ e = 2 \/ e = 3) as [-> | [-> | ->]] by lia; cbn in *; lia.
    - replace (e - 1) with ((e - 3) + 2) in Hlo by lia. replace e with ((e - 3) + 3) in Hhi by lia.
      rewrite Z.pow_add_r in Hlo, Hhi by lia.
      pose proof (Z.pow_pos_nonneg 256 (e - 3) ltac:(lia) ltac:(lia)).
      split; [apply Z.div_le_lower_bound; lia | apply Z.div_lt_upper_bound; lia]. }
  assert ((if e <=? 3 then u32 (u32 n ≪ (8 * (3 - e))) else u32 (Z.abs (n ≫ (8 * (e - 3))))) = m0) as ->.
  { unfold m0 in *. destruct (Z.leb_spec e 3).
    - assert (n < 2 ^ 24) by (eapply Z.lt_le_trans; [apply Hhi|]; change (2 ^ 24) with (256 ^ 3); apply Z.pow_le_mono_r; lia).
      rewrite (wrapu_small 32 n), Z.shiftl_mul_pow2, Z.pow_mul_r by (unfold is_u; lia).
      change (2 ^ 8) with 256. apply wrapu_small. unfold is_u. lia.
    - rewrite Z.shiftr_div_pow2, Z.pow_mul_r by lia. change (2 ^ 8) with 256. rewrite Z.abs_eq by lia.
      apply wrapu_small. unfold is_u. lia. }
  rewrite bit23_clear by lia. destruct (Z.ltb_spec m0 (2 ^ 23)) as [Hlt|Hge]; cbn [negb].
  - exists e, m0. rewrite pack_lor by lia. split_and!; [done | lia.. | unfold m0; by case_match].
  - exists (e + 1), (m0 / 256). rewrite Z.shiftr_div_pow2 by lia. change (2 ^ 8) with 256.
    assert (2 ^ 15 <= m0 / 256 < 2 ^ 23) by (split; [apply Z.div_le_lower_bound | apply Z.div_lt_upper_bound]; lia).
    rewrite pack_lor by lia. split_and!; [done | lia..|]. unfold m0.
    destruct (Z.leb_spec e 3), (Z.leb_spec (e + 1) 3); try lia.
    + replace (3 - e) with (3 - (e + 1) + 1) by lia. rewrite Z.pow_add_r by lia.
      rewrite Z.mul_assoc, Z.div_mul by lia. done.
    + assert (e = 3) as -> by lia. cbn. by rewrite Z.mul_1_r.
    + replace (e + 1 - 3) with (e - 3 + 1) by lia. rewrite Z.pow_add_r by lia. rewrite Z.div_div by lia. done.
Qed.

(** What is left of a number in compact form: its highest bytes, with 15 to 23
    significant bits when something is cut off. *)
Lemma compact_rounds n : 0 < n < 256 ^ 254 ->
  exists k, 0 <= k /\ CompactToBig (BigToCompact n) = n / 256 ^ k * 256 ^ k /\ (k = 0 \/ 2 ^ 15 <= n / 256 ^ k).
Proof.
  intros Hn. destruct (BigToCompact_parts n Hn) as (e & m & -> & He & Hm & Hme).
  rewrite CompactToBig_pack by lia. destruct (Z.leb_spec e 3).
  - exists 0. rewrite Z.div_1_r, Z.mul_1_r, Hme, Z.div_mul by (apply Z.pow_nonzero; lia). split_and!; auto; lia.
  - exists (e - 3). subst m. split_and!; auto; lia.
Qed.

Lemma compact_exact a j : 0 < a < 2 ^ 23 -> 0 <= j -> a * 256 ^ j < 256 ^ 254 ->
  CompactToBig (BigToCompact (a * 256 ^ j)) = a * 256 ^ j.
Proof.
  intros Ha Hj Hlt. pose proof (Z.pow_pos_nonneg 256 j ltac:(lia) Hj).
  destruct (compact_rounds (a * 256 ^ j)) as (k & Hk & -> & Hmin); [nia|].
  destruct (Z.le_gt_cases k j) as [Hkj|Hkj].
  - replace j with ((j - k) + k) by lia. rewrite Z.pow_add_r by lia. rewrite Z.mul_assoc.
    rewrite Z.div_mul by (apply Z.pow_nonzero; lia). done.
  - destruct Hmin as [->|Hmin]; [lia|]. exfalso.
    pose proof (Z.mul_div_le (a * 256 ^ j) (256 ^ k) (Z.pow_pos_nonneg 256 k ltac:(lia) Hk)) as Hd.
    assert (256 ^ (j + 1) <= 256 ^ k) as Hp by (apply Z.pow_le_mono_r; lia).
    rewrite Z.pow_add_r in Hp by lia. change (256 ^ 1) with 256 in Hp. nia.
Qed.

Lemma compact_fields c : is_u 32 c -> Z.land c 0x00800000 = 0 ->
  exists e m, c = pack e m /\ 0 <= e <= 255 /\ 0 <= m < 2 ^ 23.
Proof.
  intros Hc Hs. unfold is_u in Hc. exists (c / 2 ^ 24), (c mod 2 ^ 24).
  pose proof (Z.mod_pos_bound c (2 ^ 24) ltac:(lia)). split_and!.
  - unfold pack. rewrite (Z.div_mod c (2 ^ 24)) at 1 by lia. lia.
  - apply Z.div_pos; lia.
  - apply Z.lt_succ_r, Z.div_lt_upper_bound; lia.
  - lia.
  - assert (Z.land (c mod 2 ^ 24) 0x00800000 =? 0 = true) as Hb.
    { apply Z.eqb_eq. rewrite <- Hs.
      change 0x00800000 with (Z.land 0x00800000 (2 ^ 24 - 1)) at 1. rewrite <- (land_ones_mod c 24) by lia.
      rewrite <- !Z.land_assoc. f_equal. }
    rewrite bit23_clear in Hb by lia. lia.
Qed.

(** The compact form of targets.  A number keeps its highest bytes, at least
    15 bits of them, and loses nothing else: the compact form never stands for
    more than the number.  A target that comes from a compact form without sign
    is kept exactly, so the targets of headers are stable under the conversions. *)
Theorem compact_target n c :
  0 < n < 256 ^ 254 -> is_u 32 c -> Z.land c 0x00800000 = 0 -> CompactToBig c < 256 ^ 254 ->
  (exists k, 0 <= k /\ CompactToBig (BigToCompact n) = n / 256 ^ k * 256 ^ k /\ (k = 0 \/ 2 ^ 15 <= n / 256 ^ k)) /\
  CompactToBig (BigToCompact n) <= n < 2 * CompactToBig (BigToCompact n) /\
  CompactToBig (BigToCompact (CompactToBig c)) = CompactToBig c.
Proof.
  intros Hn Hc Hs Hlt. pose proof (compact_rounds n Hn) as Hr. split_and!; [done | | |].
  - destruct Hr as (k & Hk & -> & _). rewrite Z.mul_comm. apply Z.mul_div_le, Z.pow_pos_nonneg; lia.
  - destruct Hr as (k & Hk & -> & Hmin). pose proof (Z.pow_pos_nonneg 256 k ltac:(lia) Hk).
    pose proof (Z.mul_succ_div_gt n (256 ^ k) ltac:(lia)).
    destruct Hmin as [->|Hmin]; [rewrite Z.div_1_r in *; lia | nia].
  - destruct (compact_fields c Hc Hs) as (e & m & -> & He & Hm).
    rewrite CompactToBig_pack in * by lia.
    destruct (Z.leb_spec e 3).
    + set (v := m / 256 ^ (3 - e)) in *.
      assert (0 <= v < 2 ^ 23).
      { pose proof (Z.pow_pos_nonneg 256 (3 - e) ltac:(lia) ltac:(lia)).
        split; [apply Z.div_pos; lia | apply Z.div_lt_upper_bound; nia]. }
      destruct (decide (v = 0)) as [->|]; [done|].
      pose proof (compact_exact v 0 ltac:(lia) ltac:(lia)) as He0. rewrite Z.mul_1_r in He0. by apply He0.
    + destruct (decide (m = 0)) as [->|]; [done|]. apply compact_exact; lia.
Qed.

(** * Work *)
Lemma CalcWork_pos bits : 0 < CompactToBig bits < 2 ^ 256 -> 0 < CalcWork bits.
Proof.
  intros H. unfold CalcWork, oneLsh256. replace (CompactToBig bits <=? 0) with false by lia.
  apply Z.div_str_pos. rewrite Z.shiftl_1_l. lia.
Qed.

Lemma CalcWork_nonneg bits : 0 <= CalcWork bits.
Proof.
  unfold CalcWork, oneLsh256. case_if; [done|]. apply Z.div_pos; [rewrite Z.shiftl_1_l|]; lia.
Qed.

(** A smaller target is at least as much work. *)
Lemma CalcWork_antitone b1 b2 :
  0 < CompactToBig b1 <= CompactToBig b2 -> CalcWork b2 <= CalcWork b1.
Proof.
  intros H. unfold CalcWork, oneLsh256. replace (CompactToBig b1 <=? 0) with false by lia.
  replace (CompactToBig b2 <=? 0) with false by lia.
  apply Z.div_le_compat_l; [rewrite Z.shiftl_1_l|]; lia.
Qed.

(** A hash is a little-endian number. *)
Lemma HashToBig_spec h : length h = 32%nat -> HashToBig h = Ok (le_decode h).
Proof.
  intros Hl. do 32 (destruct h as [|? h]; [discriminate Hl|]). destruct h; [reflexivity | discriminate Hl].
Qed.

(** * Retargeting *)

(** Parameters for which the durations do not overflow. *)
Definition sane (p : Params) : Prop :=
  Millisecond <= PowAveragingWindow p * TargetTimePerBlock p /\
  PowAveragingWindow p * TargetTimePerBlock p * 200 < 2 ^ 63 /\
  0 <= PowMaxAdjustUp p < 100 /\ 0 <= PowMaxAdjustDown p <= 100 /\ 0 <= PowLimit p < 256 ^ 254.

Lemma timespans p : sane p ->
  AveragingWindowTimespan p = PowAveragingWindow p * TargetTimePerBlock p /\
  MinActualTimespan p = PowAveragingWindow p * TargetTimePerBlock p * (100 - PowMaxAdjustUp p) / 100 /\
  MaxActualTimespan p = PowAveragingWindow p * TargetTimePerBlock p * (100 + PowMaxAdjustDown p) / 100 /\
  0 <= MinActualTimespan p <= MaxActualTimespan p.
Proof.
  intros (Hw & Hw' & Hu & Hd & _). unfold Millisecond in Hw.
  assert (AveragingWindowTimespan p = PowAveragingWindow p * TargetTimePerBlock p) as Ha.
  { unfold AveragingWindowTimespan. apply wraps_small; unfold is_s; lia. }
  unfold MinActualTimespan, MaxActualTimespan. rewrite Ha. set (w := PowAveragingWindow p * TargetTimePerBlock p) in *.
  rewrite (wraps_small 64 (100 + _)), (wraps_small 64 (100 - _)) by (unfold is_s; lia).
  rewrite !wraps_small by (unfold is_s; nia). rewrite !Z.quot_div_nonneg by nia.
  split_and!; [done.. | apply Z.div_pos; nia | apply Z.div_le_mono; nia].
Qed.

Lemma quot_ms_mono a b : 0 <= a <= b -> 0 <= Z.quot a Millisecond <= Z.quot b Millisecond.
Proof.
  intros H. unfold Millisecond. rewrite !Z.quot_div_nonneg by lia.
  split; [apply Z.div_pos | apply Z.div_le_mono]; lia.
Qed.

(** C23: the difficulty moves in bounds.  Whatever the times of the blocks, also
    when they run backwards or overflow, the next target is at most the limit of
    the network and lies between the average target scaled with the smallest and
    with the largest timespan that the parameters allow. *)
Theorem retarget_bounds p t1 t2 avg :
  sane p -> 0 <= avg ->
  let q := avg / Z.quot (AveragingWindowTimespan p) Millisecond in
  exists target,
    nextRequiredDifficulty p t1 t2 avg = Ok (BigToCompact target) /\
    CompactToBig (BigToCompact target) <= target <= PowLimit p /\
    Z.min (PowLimit p) (q * Z.quot (MinActualTimespan p) Millisecond) <= target <=
      q * Z.quot (MaxActualTimespan p) Millisecond.
Proof.
  intros Hs Havg q. destruct (timespans p Hs) as (Ha & _ & _ & Hmm). destruct Hs as (Hw & Hw' & Hu & Hd & Hl).
  unfold nextRequiredDifficulty.
  set (t0 := i64 (AveragingWindowTimespan p + _)).
  set (t := if t0 <? MinActualTimespan p then _ else _).
  assert (MinActualTimespan p <= t <= MaxActualTimespan p) as Ht
    by (unfold t; destruct (Z.ltb_spec t0 (MinActualTimespan p)), (Z.ltb_spec (MaxActualTimespan p) t0); lia).
  pose proof (quot_ms_mono (MinActualTimespan p) t ltac:(lia)).
  pose proof (quot_ms_mono t (MaxActualTimespan p) ltac:(lia)).
  assert (0 < Z.quot (AveragingWindowTimespan p) Millisecond) as Hms.
  { rewrite Ha, Z.quot_div_nonneg by (unfold Millisecond in *; lia). apply Z.div_str_pos. unfold Millisecond in *. lia. }
  replace (_ =? 0) with false by lia. fold q.
  assert (0 <= q) by (apply Z.div_pos; lia).
  set (target := if PowLimit p <? q * _ then _ else _). exists target. split; [done|].
  assert (0 <= target <= PowLimit p) as Htar
    by (unfold target; destruct (Z.ltb_spec (PowLimit p) (q * Z.quot t Millisecond)); nia).
  split.
  - split; [|lia]. destruct (decide (target = 0)) as [->|]; [done|].
    destruct (compact_rounds target ltac:(lia)) as (k & Hk & -> & _).
    rewrite Z.mul_comm. apply Z.mul_div_le, Z.pow_pos_nonneg; lia.
  - unfold target. destruct (Z.ltb_spec (PowLimit p) (q * Z.quot t Millisecond)); nia.
Qed.

Lemma retarget_bounds_witness :
  let p := MainNetParams (MsgBlock.mkMsgBlock MsgBlock.example_header []) [] ∅ ∅ in
  exists target, nextRequiredDifficulty p (time_Unix 100) (time_Unix 50) (2 ^ 200) = Ok (BigToCompact target) /\
    CompactToBig (BigToCompact target) <= target <= PowLimit p.
Proof.
  destruct (retarget_bounds (MainNetParams (MsgBlock.mkMsgBlock MsgBlock.example_header []) [] ∅ ∅)
    (time_Unix 100) (time_Unix 50) (2 ^ 200)) as (target & H1 & H2 & _).
  - unfold sane, Millisecond. cbn [PowAveragingWindow TargetTimePerBlock PowMaxAdjustUp PowMaxAdjustDown PowLimit MainNetParams].
    unfold Second. split_and!; vm_compute; congruence.
  - lia.
  - exists target. split; [exact H1 | exact H2].
Defined.

End Difficulty.
