(* ===== verification/UtxoSpec.v ===== *)
(** The view of the unspent outputs as a set of coins: connecting a block spends
    and creates exactly the coins it says, and disconnecting it gives the coins
    back, even from a view that was stored and pruned in between. *)
From S2P Require Import Prelude Wire Crypto Script Compress SigCache Utxo.
Import wire Crypto Script Compress Utxo.
#[local] Open Scope Z_scope.

Module UtxoSpec.

(** * Coins *)

(** The amount and the script of an output, uncompressed. *)
Definition contents (o : utxoOutput) : option (Z * option bytes) :=
  match maybeDecompress o with Ok o' => Some (out_amount o', out_pkScript o') | _ => None end.

(** What the view knows of the transaction of a coin. *)
Definition meta (e : UtxoEntry) : Z * bool * Z := (ent_version e, ent_isCoinBase e, ent_blockHeight e).

(** The coin at an outpoint: its contents and the data of its transaction. *)
Definition coin (view : UtxoViewpoint) (h : bytes) (i : Z) : option (option (Z * option bytes) * (Z * bool * Z)) :=
  match LookupEntry view h with
  | Some e =>
      match sparseOutputs e !! i with
      | Some o => if out_spent o then None else Some (contents o, meta e)
      | None => None
      end
  | None => None
  end.

Lemma lookup_set_entry view h e h' :
  LookupEntry (set_entry view h e) h' = if decide (h' = h) then Some e else LookupEntry view h'.
Proof.
  unfold LookupEntry, set_entry. cbn. destruct (decide (h' = h)) as [->|Hne].
  - by rewrite lookup_insert_eq.
  - by rewrite lookup_insert_ne by done.
Qed.

Lemma maybeDecompress_idemp o o' : maybeDecompress o = Ok o' -> maybeDecompress o' = Ok o' /\ out_spent o' = out_spent o.
Proof.
  unfold maybeDecompress. destruct (out_compressed o) eqn:Hc; cbn [negb].
  - destruct (decompressed _); [|done..]. intros [= <-]. done.
  - intros [= <-]. by rewrite Hc.
Qed.

Lemma contents_decompress o o' : maybeDecompress o = Ok o' -> contents o' = contents o.
Proof. intros Hd. unfold contents. rewrite Hd. by apply maybeDecompress_idemp in Hd as [-> _]. Qed.

Lemma contents_set_spent o b : contents (set_spent o b) = contents o.
Proof.
  unfold contents, maybeDecompress, set_spent. cbn. destruct (out_compressed o); [|done]. cbn [negb].
  by destruct (decompressed _).
Qed.

(** The coin spent by an input, with its recorded data. *)
Definition spent_by (view : UtxoViewpoint) (ti : TxIn) : option (option (Z * option bytes) * (Z * bool * Z)) :=
  coin view (Hash (PreviousOutPoint ti)) (Index (PreviousOutPoint ti)).

(** * Spending one input *)

(** The entry after its output [i] is spent and read. *)
Lemma spend_one view ti l view' stxos :
  spend_inputs view [ti] (Some l) = Ok (view', stxos) -> spent_by view ti <> None ->
  exists e o o', let h := Hash (PreviousOutPoint ti) in let i := Index (PreviousOutPoint ti) in
    LookupEntry view h = Some e /\ sparseOutputs e !! i = Some o /\ out_spent o = false /\
    maybeDecompress (set_spent o true) = Ok o' /\
    let e' := set_sparseOutputs (set_modified e true) (<[i := o']> (sparseOutputs e)) in
    view' = set_entry view h e' /\
    stxos = Some (l ++ [if IsFullySpent e'
                        then mkSpentTxOut false (ent_version e) (out_amount o') (out_pkScript o') (ent_blockHeight e) (ent_isCoinBase e)
                        else mkSpentTxOut false (ent_version e) (out_amount o') (out_pkScript o') 0 false]).
Proof.
  cbn [spend_inputs]. unfold spent_by, coin. intros Hs Hc.
  destruct (LookupEntry view _) as [e|] eqn:He; [|done]. destruct (sparseOutputs e !! _) as [o|] eqn:Ho; [|done].
  destruct (out_spent o) eqn:Hsp; [done|]. exists e, o.
  unfold SpendOutput in Hs. rewrite Ho, Hsp in Hs. unfold AmountByIndex, PkScriptByIndex in Hs.
  cbn [sparseOutputs set_modified set_sparseOutputs] in Hs. rewrite lookup_insert_eq in Hs.
  destruct (maybeDecompress (set_spent o true)) as [o'| | |] eqn:Hd; [|done..]. cbn [mbind res_bind] in Hs.
  cbn [sparseOutputs set_modified set_sparseOutputs] in Hs. rewrite lookup_insert_eq in Hs.
  pose proof (maybeDecompress_idemp _ _ Hd) as [Hd' _]. rewrite Hd' in Hs. cbn [mbind res_bind] in Hs.
  rewrite !insert_insert_eq in Hs. injection Hs as <- <-. exists o'. done.
Qed.

(** * Views with the same coins *)

(** [w] has the coins of [v] outside the transactions [D], and what else it
    knows of them agrees with [v]; spent outputs and entries without coins can be
    missing. *)
Definition pruned (D : list bytes) (v w : UtxoViewpoint) : Prop :=
  forall h, h ∉ D ->
    (forall i, coin w h i = coin v h i) /\
    (forall ew, LookupEntry w h = Some ew ->
       exists ev, LookupEntry v h = Some ev /\ meta ew = meta ev /\
         forall i o, sparseOutputs ew !! i = Some o ->
           exists o', sparseOutputs ev !! i = Some o' /\ out_spent o = out_spent o' /\ contents o = contents o').

Lemma pruned_refl D v : pruned D v v.
Proof. intros h _. split; [done|]. intros ew He. exists ew. split_and!; [done..|]. intros i o Ho. by exists o. Qed.

(** An entry without coins is fully spent. *)
Lemma no_coins_spent view h e :
  LookupEntry view h = Some e -> (forall i, coin view h i = None) -> IsFullySpent e = true.
Proof.
  intros He Hc. apply bool_decide_eq_true. intros i o Ho. specialize (Hc i). unfold coin in Hc.
  rewrite He, Ho in Hc. by destruct (out_spent o).
Qed.

(** The coins after an entry is replaced. *)
Lemma coin_set_entry view h e h' i :
  coin (set_entry view h e) h' i =
  if decide (h' = h) then
    match sparseOutputs e !! i with Some o => if out_spent o then None else Some (contents o, meta e) | None => None end
  else coin view h' i.
Proof. unfold coin. rewrite lookup_set_entry. by destruct (decide (h' = h)). Qed.

Lemma contents_recorded o m :
  maybeDecompress o = Ok m -> contents (mkUtxoOutput false false (out_amount m) (out_pkScript m)) = contents o.
Proof. intros Hd. unfold contents. by rewrite Hd. Qed.

(** Two views that differ at one entry only. *)
Lemma pruned_entry D v h w ew :
  (forall h', h' <> h -> h' ∉ D ->
    (forall i, coin w h' i = coin v h' i) /\
    (forall ew, LookupEntry w h' = Some ew ->
       exists ev, LookupEntry v h' = Some ev /\ meta ew = meta ev /\
         forall i o, sparseOutputs ew !! i = Some o ->
           exists o', sparseOutputs ev !! i = Some o' /\ out_spent o = out_spent o' /\ contents o = contents o')) ->
  (forall i, coin (set_entry w h ew) h i = coin v h i) ->
  (exists ev, LookupEntry v h = Some ev /\ meta ew = meta ev /\
     forall i o, sparseOutputs ew !! i = Some o ->
       exists o', sparseOutputs ev !! i = Some o' /\ out_spent o = out_spent o' /\ contents o = contents o') ->
  pruned D v (set_entry w h ew).
Proof.
  intros Hother Hcoin Hent h' HD. destruct (decide (h' = h)) as [->|Hne].
  - split; [done|]. intros e. rewrite lookup_set_entry, decide_True by done. by intros [= <-].
  - destruct (Hother h' Hne HD) as [Hc He]. split.
    + intros i. by rewrite coin_set_entry, decide_False by done.
    + intros e. rewrite lookup_set_entry, decide_False by done. apply He.
Qed.

(** The entry of [w'] that [unspend] changes has the data of the spent coin. *)
Lemma unspend_entry D v' w' h i e' o' stxo :
  h ∉ D -> pruned D v' w' -> LookupEntry v' h = Some e' -> sparseOutputs e' !! i = Some o' ->
  out_spent o' = true -> maybeDecompress o' = Ok o' ->
  stxo = (if IsFullySpent e'
          then mkSpentTxOut false (ent_version e') (out_amount o') (out_pkScript o') (ent_blockHeight e') (ent_isCoinBase e')
          else mkSpentTxOut false (ent_version e') (out_amount o') (out_pkScript o') 0 false) ->
  let ew := match LookupEntry w' h with
            | None => newUtxoEntry (stxo_version stxo) (stxo_isCoinBase stxo) (stxo_height stxo)
            | Some e => e
            end in
  let out := match sparseOutputs ew !! i with
             | None => mkUtxoOutput false (stxo_compressed stxo) (stxo_amount stxo) (stxo_pkScript stxo)
             | Some output => set_spent output false
             end in
  meta ew = meta e' /\ out_spent out = false /\ contents out = contents o' /\
  (forall j oj, sparseOutputs ew !! j = Some oj ->
     exists oj', sparseOutputs e' !! j = Some oj' /\ out_spent oj = out_spent oj' /\ contents oj = contents oj') /\
  (forall j, coin w' h j = match sparseOutputs ew !! j with
                          | Some o => if out_spent o then None else Some (contents o, meta ew)
                          | None => None
                          end).
Proof.
  intros HD Hp He' Ho' Hsp Hd Hst ew out. destruct (Hp h HD) as [Hcoin Hent].
  assert (contents (mkUtxoOutput false (stxo_compressed stxo) (stxo_amount stxo) (stxo_pkScript stxo)) = contents o') as Hrec.
  { rewrite Hst. destruct (IsFullySpent e'); cbn; by apply contents_recorded. }
  destruct (LookupEntry w' h) as [e0|] eqn:Hw.
  - destruct (Hent e0 eq_refl) as (ev & Hev & Hm & Hout). rewrite He' in Hev. injection Hev as <-.
    assert (ew = e0) as Hew by done. unfold out. rewrite Hew. clear ew out Hew.
    split_and!; [done | | | done | intros j; unfold coin; by rewrite Hw]; destruct (sparseOutputs e0 !! i) as [oo|] eqn:Hoo; try done.
    destruct (Hout i oo Hoo) as (o2 & Ho2 & _ & Hc2). rewrite Ho' in Ho2. injection Ho2 as <-.
    by rewrite contents_set_spent.
  - assert (IsFullySpent e' = true) as Hfull.
    { apply (no_coins_spent v' h); [done|]. intros j. rewrite <- Hcoin. unfold coin. by rewrite Hw. }
    unfold out, ew. cbn. rewrite lookup_empty. split_and!; try done.
    + rewrite Hst, Hfull. done.
    + intros j. unfold coin. by rewrite Hw, lookup_empty.
Qed.

(** Disconnecting an input undoes spending it. *)
Lemma unspend_pruned D v ti l v' stxo w' :
  spent_by v ti <> None -> Hash (PreviousOutPoint ti) ∉ D ->
  spend_inputs v [ti] (Some l) = Ok (v', Some (l ++ [stxo])) -> pruned D v' w' ->
  pruned D v (unspend w' ti stxo).
Proof.
  intros Hc HD Hs Hp. destruct (spend_one v ti l v' _ Hs Hc) as (e & o & o' & He & Ho & Hsp & Hd & Hv' & Hst).
  set (h := Hash (PreviousOutPoint ti)) in *. set (i := Index (PreviousOutPoint ti)) in *.
  set (e' := set_sparseOutputs (set_modified e true) (<[i := o']> (sparseOutputs e))) in *.
  injection Hst as Hst. apply app_inj_tail in Hst as [_ Hst].
  pose proof (maybeDecompress_idemp _ _ Hd) as [Hd' Hsp']. cbn in Hsp'.
  assert (contents o' = contents o) as Hco by (by rewrite (contents_decompress _ _ Hd), contents_set_spent).
  assert (LookupEntry v' h = Some e') as He' by (rewrite Hv', lookup_set_entry; by rewrite decide_True).
  destruct (unspend_entry D v' w' h i e' o' stxo HD Hp He') as (Hm & Hos & Hoc & Hout & Hcw);
    [by apply lookup_insert_eq | done..|].
  unfold unspend. fold h i. cbv zeta. set (ew := match LookupEntry w' h with Some e => e | None => _ end) in *.
  change (sparseOutputs (set_modified ew true)) with (sparseOutputs ew).
  set (out := match sparseOutputs ew !! i with Some o => _ | None => _ end) in *. clearbody ew out.
  apply pruned_entry.
  - intros h' Hne HD'. destruct (Hp h' HD') as [Hcoin Hent]. rewrite Hv' in Hcoin, Hent. split.
    + intros j. by rewrite Hcoin, coin_set_entry, decide_False.
    + intros e0 He0. destruct (Hent e0 He0) as (ev & Hev & Hrest). rewrite lookup_set_entry, decide_False in Hev by done.
      by exists ev.
  - intros j. rewrite coin_set_entry, decide_True by done. cbn. destruct (decide (j = i)) as [->|Hj].
    + rewrite lookup_insert_eq, Hos, Hoc, Hco. unfold coin. rewrite He, Ho, Hsp. do 2 f_equal. exact Hm.
    + rewrite lookup_insert_ne by done. destruct (Hp h HD) as [Hcoin _]. specialize (Hcoin j). rewrite Hcw in Hcoin.
      rewrite Hv', coin_set_entry, decide_True in Hcoin by done. cbn in Hcoin. rewrite lookup_insert_ne in Hcoin by done.
      unfold coin. rewrite He. exact Hcoin.
  - exists e. split_and!; [done | exact Hm |]. intros j oj Hj. cbn in Hj. destruct (decide (j = i)) as [->|Hne].
    + rewrite lookup_insert_eq in Hj. injection Hj as <-. exists o. split_and!; [done | congruence | congruence].
    + rewrite lookup_insert_ne in Hj by done. destruct (Hout j oj Hj) as (oj' & Hj' & ? & ?).
      cbn in Hj'. rewrite lookup_insert_ne in Hj' by done. by exists oj'.
Qed.

(** * Several inputs *)

(** Every input finds its coin when its turn comes. *)
Fixpoint ins_available (view : UtxoViewpoint) (ins : list TxIn) : Prop :=
  match ins with
  | [] => True
  | ti :: rest => spent_by view ti <> None /\
      forall view' s, spend_inputs view [ti] (Some []) = Ok (view', s) -> ins_available view' rest
  end.

(** The records are appended to those given. *)
Lemma spend_inputs_records ins : forall view l l0 view' st,
  spend_inputs view ins (Some l) = Ok (view', st) ->
  exists new, st = Some (l ++ new) /\ length new = length ins /\
    spend_inputs view ins (Some l0) = Ok (view', Some (l0 ++ new)).
Proof.
  induction ins as [|ti ins IH]; intros view l l0 view' st Hs; cbn [spend_inputs] in *.
  { injection Hs as <- <-. exists []. by rewrite !app_nil_r. }
  destruct (LookupEntry view _) as [e|]; [|done].
  destruct (AmountByIndex _ _) as [[a e1]| | |]; [|done..]. cbn [mbind res_bind] in *.
  destruct (PkScriptByIndex _ _) as [[pk e2]| | |]; [|done..]. cbn [mbind res_bind] in *.
  set (stxo := if IsFullySpent e2 then _ else _) in *.
  destruct (IH _ _ (l0 ++ [stxo]) _ _ Hs) as (new & -> & Hl & Heq). exists (stxo :: new).
  rewrite <- !app_assoc in *. cbn [app] in *. split_and!; [done | cbn; lia | done].
Qed.

Lemma spend_inputs_cons ti ins view l view' st :
  spend_inputs view (ti :: ins) (Some l) = Ok (view', st) ->
  exists view1 stxo, spend_inputs view [ti] (Some l) = Ok (view1, Some (l ++ [stxo])) /\
    spend_inputs view1 ins (Some (l ++ [stxo])) = Ok (view', st).
Proof.
  cbn [spend_inputs]. intros Hs. destruct (LookupEntry view _) as [e|]; [|done].
  destruct (AmountByIndex _ _) as [[a e1]| | |]; [|done..]. cbn [mbind res_bind] in *.
  destruct (PkScriptByIndex _ _) as [[pk e2]| | |]; [|done..]. cbn [mbind res_bind] in *. by do 2 eexists.
Qed.

(** The transactions in [D] have no coins. *)
Definition dead (D : list bytes) (w : UtxoViewpoint) : Prop := forall h i, h ∈ D -> coin w h i = None.

Lemma unspend_dead D w ti stxo : Hash (PreviousOutPoint ti) ∉ D -> dead D w -> dead D (unspend w ti stxo).
Proof.
  intros HD Hd h i Hh. unfold unspend. rewrite coin_set_entry, decide_False; [by apply Hd|]. intros ->. done.
Qed.

Lemma unspend_inputs_app a b w stxos k :
  unspend_inputs w (a ++ b) stxos k = ('(w, k) ← unspend_inputs w a stxos k; unspend_inputs w b stxos k).
Proof.
  revert w k. induction a as [|ti a IH]; intros w k; cbn [app unspend_inputs]; [done|].
  destruct (idx stxos k); [|done..]. cbn [mbind res_bind]. apply IH.
Qed.

(** Nothing is known of the transactions in [D], so their coins may change. *)
Lemma unspend_pruned_any D v ti l v' stxo w' :
  spent_by v ti <> None -> spend_inputs v [ti] (Some l) = Ok (v', Some (l ++ [stxo])) -> pruned D v' w' ->
  pruned D v (unspend w' ti stxo).
Proof.
  intros Hc Hs Hp. destruct (decide (Hash (PreviousOutPoint ti) ∈ D)) as [Hin|Hout]; [|by eapply unspend_pruned].
  destruct (spend_one v ti l v' _ Hs Hc) as (e & o & o' & He & Ho & Hsp & Hd & -> & _).
  intros h HD. assert (h <> Hash (PreviousOutPoint ti)) as Hne by (intros ->; done). destruct (Hp h HD) as [Hcoin Hent].
  unfold unspend. split.
  - intros i. by rewrite coin_set_entry, decide_False, Hcoin, coin_set_entry, decide_False.
  - intros ew. rewrite lookup_set_entry, decide_False by done. intros Hew.
    destruct (Hent ew Hew) as (ev & Hev & Hrest). rewrite lookup_set_entry, decide_False in Hev by done. by exists ev.
Qed.

(** Disconnecting the inputs of a transaction undoes spending them. *)
Lemma unspend_inputs_pruned D E ins : forall v l v' new w' tail,
  ins_available v ins -> Forall (fun ti => Hash (PreviousOutPoint ti) ∉ E) ins ->
  spend_inputs v ins (Some l) = Ok (v', Some (l ++ new)) -> pruned D v' w' -> dead E w' ->
  exists w, unspend_inputs w' (reverse ins) (l ++ new ++ tail) (len l + len new - 1) = Ok (w, len l - 1) /\
    pruned D v w /\ dead E w.
Proof.
  induction ins as [|ti ins IH]; intros v l v' new w' tail Hav HD Hs Hp Hd.
  { injection Hs as <- Hnew. assert (new = []) as -> by (apply (app_inv_head l); by rewrite app_nil_r).
    exists w'.
    change (len []) with 0. rewrite Z.add_0_r. done. }
  apply Forall_cons in HD as [HDi HD]. destruct Hav as [Hc Hav].
  apply spend_inputs_cons in Hs as (v1 & stxo & Hs1 & Hs).
  destruct (spend_inputs_records _ _ _ [] _ _ Hs) as (new2 & Hnew & Hl2 & _).
  injection Hnew as Hnew. rewrite <- app_assoc in Hnew. apply app_inv_head in Hnew. subst new.
  destruct (spend_inputs_records _ _ _ [] _ _ Hs1) as (n1 & _ & _ & Hs1').
  specialize (Hav _ _ Hs1'). rewrite app_assoc in Hs.
  destruct (IH v1 (l ++ [stxo]) v' new2 w' tail Hav HD Hs Hp Hd) as (w1 & Hun & Hp1 & Hd1).
  exists (unspend w1 ti stxo). rewrite reverse_cons, unspend_inputs_app.
  assert (l ++ ([stxo] ++ new2) ++ tail = (l ++ [stxo]) ++ new2 ++ tail) as Heq by (by rewrite <- !app_assoc).
  cbn [app] in Heq |- *. rewrite Heq.
  replace (len l + len (stxo :: new2) - 1) with (len (l ++ [stxo]) + len new2 - 1)
    by (rewrite len_app, (len_cons stxo new2); change (len [stxo]) with 1; lia).
  rewrite Hun. cbn [mbind res_bind unspend_inputs].
  replace (len (l ++ [stxo]) - 1) with (len l) by (rewrite len_app; change (len [stxo]) with 1; lia).
  rewrite <- !app_assoc. cbn [app]. rewrite idx_middle. cbn [mbind res_bind].
  split_and!; [done | by eapply unspend_pruned_any | by apply unspend_dead].
Qed.

(** * Transactions *)

(** Emptying the entry of a transaction undoes creating its coins. *)
Lemma clear_pruned D E v tx height w' cb h :
  pruned D (AddTxOuts v tx height) w' -> dead E w' ->
  pruned (SigCache.TxHash tx :: D) v (clear_tx w' tx cb h) /\ dead (SigCache.TxHash tx :: E) (clear_tx w' tx cb h).
Proof.
  intros Hp Hd. split.
  - intros h' HD. apply not_elem_of_cons in HD as [Hne HD]. destruct (Hp h' HD) as [Hc He].
    unfold AddTxOuts in Hc, He. unfold clear_tx. split.
    + intros i. rewrite coin_set_entry, decide_False by done. rewrite Hc, coin_set_entry. by rewrite decide_False.
    + intros ew. rewrite lookup_set_entry, decide_False by done. intros Hew.
      destruct (He ew Hew) as (ev & Hev & Hrest). rewrite lookup_set_entry, decide_False in Hev by done. by exists ev.
  - intros h' i Hh. unfold clear_tx. rewrite coin_set_entry. destruct (decide (h' = SigCache.TxHash tx)) as [->|Hne].
    + cbn. by rewrite lookup_empty.
    + apply Hd. by apply elem_of_cons in Hh as [->|?].
Qed.

(** The transactions of a block can be connected to the view: only the first is a
    coinbase, every input finds its coin when its turn comes, and no input refers
    to its own transaction or to a later one. *)
Fixpoint txs_ok (height : Z) (view : UtxoViewpoint) (k : Z) (txs : list MsgTx) : Prop :=
  match txs with
  | [] => True
  | tx :: rest =>
      IsCoinBaseTx tx = (k =? 0) /\
      (IsCoinBaseTx tx = false -> ins_available view (tx_TxIn tx) /\
         Forall (fun ti => Hash (PreviousOutPoint ti) ∉ map SigCache.TxHash (tx :: rest)) (tx_TxIn tx)) /\
      forall view' s, connectTransaction view tx height (Some []) = Ok (view', s) -> txs_ok height view' (k + 1) rest
  end.

Fixpoint numbered_from (k : Z) (txs : list MsgTx) : list (Z * MsgTx) :=
  match txs with [] => [] | tx :: rest => (k, tx) :: numbered_from (k + 1) rest end.

Lemma numbered_eq txs : numbered txs = numbered_from 0 txs.
Proof.
  unfold numbered. generalize 0. induction txs as [|tx txs IH]; intros k; [done|]. cbn [numbered_from].
  rewrite <- IH, len_cons, seqZ_cons by (pose proof (len_nonneg txs); lia). cbn.
  by replace (Z.pred (1 + len txs)) with (len txs) by lia.
Qed.

Lemma connectTransaction_records view tx height l l0 view' st :
  connectTransaction view tx height (Some l) = Ok (view', st) ->
  exists new, st = Some (l ++ new) /\
    length new = (if IsCoinBaseTx tx then 0 else length (tx_TxIn tx))%nat /\
    connectTransaction view tx height (Some l0) = Ok (view', Some (l0 ++ new)).
Proof.
  unfold connectTransaction. destruct (IsCoinBaseTx tx).
  { intros [= <- <-]. exists []. by rewrite !app_nil_r. }
  intros Hc. apply bind_Ok in Hc as ([v1 s1] & Hs & Hc). injection Hc as <- <-.
  destruct (spend_inputs_records _ _ _ l0 _ _ Hs) as (new & -> & Hl & ->). by exists new.
Qed.

Lemma connect_txs_records height txs : forall view l view' st,
  connect_txs view txs height (Some l) = Ok (view', st) -> exists new, st = Some (l ++ new).
Proof.
  induction txs as [|tx txs IH]; intros view l view' st Hc; cbn [connect_txs] in Hc.
  { injection Hc as <- <-. exists []. by rewrite app_nil_r. }
  apply bind_Ok in Hc as ([v1 s1] & H1 & Hc). apply (connectTransaction_records _ _ _ _ []) in H1 as (n1 & -> & _).
  apply IH in Hc as (n2 & ->). exists (n1 ++ n2). by rewrite app_assoc.
Qed.

(** Disconnecting one transaction undoes connecting it. *)
Lemma disconnect_one D E height tx k v l v' new w' tail :
  IsCoinBaseTx tx = (k =? 0) ->
  (IsCoinBaseTx tx = false -> ins_available v (tx_TxIn tx) /\
     Forall (fun ti => Hash (PreviousOutPoint ti) ∉ SigCache.TxHash tx :: E) (tx_TxIn tx)) ->
  connectTransaction v tx height (Some l) = Ok (v', Some (l ++ new)) -> pruned D v' w' -> dead E w' ->
  exists w, pruned (SigCache.TxHash tx :: D) v w /\ dead (SigCache.TxHash tx :: E) w /\
    forall rest, disconnect_txs w' ((k, tx) :: rest) height (l ++ new ++ tail) (len l + len new - 1) =
                 disconnect_txs w rest height (l ++ new ++ tail) (len l - 1).
Proof.
  intros Hk Hins Hc Hp Hd. unfold connectTransaction in Hc. cbn [disconnect_txs]. rewrite <- Hk.
  destruct (IsCoinBaseTx tx).
  - injection Hc as <- Hnew. assert (new = []) as -> by (apply (app_inv_head l); by rewrite app_nil_r).
    destruct (clear_pruned _ _ _ _ _ _ true height Hp Hd) as [Hp' Hd'].
    eexists. split; [exact Hp'|]. split; [exact Hd'|]. intros rest. change (len []) with 0. by rewrite Z.add_0_r.
  - apply bind_Ok in Hc as ([v1 s1] & Hs & Hc). injection Hc as <- ->.
    destruct (clear_pruned _ _ _ _ _ _ false height Hp Hd) as [Hp' Hd']. destruct (Hins eq_refl) as [Hav HD].
    destruct (unspend_inputs_pruned _ _ _ _ _ _ _ _ tail Hav HD Hs Hp' Hd') as (w & Hun & Hpw & Hdw).
    exists w. split; [done|]. split; [done|]. intros rest. by rewrite Hun.
Qed.

(** Disconnecting the transactions of a block undoes connecting them. *)
Lemma disconnect_pruned B height txs : forall k v l v' new w' tail,
  txs_ok height v k txs -> connect_txs v txs height (Some l) = Ok (v', Some (l ++ new)) -> pruned B v' w' ->
  exists w, pruned (map SigCache.TxHash txs ++ B) v w /\ dead (map SigCache.TxHash txs) w /\
    forall rest, disconnect_txs w' (reverse (numbered_from k txs) ++ rest) height (l ++ new ++ tail) (len l + len new - 1) =
                 disconnect_txs w rest height (l ++ new ++ tail) (len l - 1).
Proof.
  induction txs as [|tx txs IH]; intros k v l v' new w' tail Hok Hc Hp; cbn [connect_txs] in Hc.
  { injection Hc as <- Hnew. assert (new = []) as -> by (apply (app_inv_head l); by rewrite app_nil_r).
    exists w'. split_and!; [done | by intros h i ?%elem_of_nil |]. intros rest. change (len []) with 0. by rewrite Z.add_0_r. }
  destruct Hok as (Hk & Hins & Hnext). apply bind_Ok in Hc as ([v1 s1] & H1 & Hc).
  destruct (connectTransaction_records _ _ _ _ [] _ _ H1) as (n1 & -> & _ & H1'). specialize (Hnext _ _ H1').
  destruct (connect_txs_records _ _ _ _ _ _ Hc) as (n2 & Hn). injection Hn as Hn.
  rewrite <- app_assoc in Hn. apply app_inv_head in Hn. subst new. rewrite app_assoc in Hc.
  destruct (IH (k + 1) v1 (l ++ n1) v' n2 w' tail Hnext Hc Hp) as (w1 & Hp1 & Hd1 & Hdis1).
  destruct (disconnect_one _ _ height tx k v l v1 n1 w1 (n2 ++ tail) Hk Hins H1 Hp1 Hd1) as (w & Hpw & Hdw & Hdis).
  exists w. split; [done|]. split; [done|]. intros rest. cbn [numbered_from]. rewrite reverse_cons, <- app_assoc.
  rewrite !len_app, <- !app_assoc in *. rewrite <- Hdis. cbn [app].
  replace (len l + (len n1 + len n2) - 1) with (len l + len n1 + len n2 - 1) by lia. by rewrite Hdis1.
Qed.

(** The number of records. *)
Lemma connect_txs_count height txs : forall k view l view' new n,
  1 <= k -> txs_ok height view k txs -> connect_txs view txs height (Some l) = Ok (view', Some (l ++ new)) ->
  fold_left (fun n tx => n + len (tx_TxIn tx)) txs n = n + len new.
Proof.
  induction txs as [|tx txs IH]; intros k view l view' new n Hk Hok Hc; cbn [connect_txs] in Hc.
  { injection Hc as <- Hnew. assert (new = []) as -> by (apply (app_inv_head l); by rewrite app_nil_r).
    cbn. change (len []) with 0. lia. }
  destruct Hok as (Hcb & _ & Hnext). apply bind_Ok in Hc as ([v1 s1] & H1 & Hc).
  destruct (connectTransaction_records _ _ _ _ [] _ _ H1) as (n1 & -> & Hn1 & H1'). specialize (Hnext _ _ H1').
  destruct (connect_txs_records _ _ _ _ _ _ Hc) as (n2 & Hn). injection Hn as Hn.
  rewrite <- app_assoc in Hn. apply app_inv_head in Hn. subst new. rewrite app_assoc in Hc.
  cbn [fold_left]. rewrite (IH (k + 1) v1 (l ++ n1) view' n2) by (done || lia).
  rewrite Hcb, (proj2 (Z.eqb_neq k 0)) in Hn1 by lia. rewrite len_app. unfold len. lia.
Qed.

(** Pruning the entries without coins keeps the coins. *)
Lemma commit_pruned view : pruned [] view (commit view).
Proof.
  intros h _. assert (LookupEntry (commit view) h =
    match LookupEntry view h with
    | Some e => if ent_modified e && IsFullySpent e then None else Some (set_modified e false)
    | None => None
    end) as Hl.
  { unfold LookupEntry, commit. cbn. rewrite lookup_omap. destruct (entries view !! h) as [[e|]|]; cbn; [|done..].
    by destruct (_ && _). }
  unfold coin. rewrite Hl. destruct (LookupEntry view h) as [e|]; [|by split]. split.
  - intros i. destruct (ent_modified e && IsFullySpent e) eqn:Hm; [|done].
    apply andb_true_iff in Hm as [_ Hf%bool_decide_eq_true]. destruct (sparseOutputs e !! i) as [o|] eqn:Ho; [|done].
    by rewrite (Hf i o Ho).
  - intros ew. destruct (_ && _); [done|]. intros [= <-]. exists e. split_and!; [done..|]. intros i o Ho. by exists o.
Qed.

(** ** The coins of one entry *)
Definition entry_coin (e : UtxoEntry) (i : Z) : option (option (Z * option bytes)) :=
  match sparseOutputs e !! i with Some o => if out_spent o then None else Some (contents o) | None => None end.

Lemma coin_entry view h i :
  coin view h i = match LookupEntry view h with
                  | Some e => match entry_coin e i with Some c => Some (c, meta e) | None => None end
                  | None => None
                  end.
Proof.
  unfold coin, entry_coin. destruct (LookupEntry view h) as [e|]; [|done].
  destruct (sparseOutputs e !! i) as [o|]; [|done]. by destruct (out_spent o).
Qed.

Lemma SpendOutput_coin e i j :
  meta (SpendOutput e i) = meta e /\ entry_coin (SpendOutput e i) j = if decide (j = i) then None else entry_coin e j.
Proof.
  unfold SpendOutput, entry_coin. destruct (sparseOutputs e !! i) as [o|] eqn:Ho.
  - destruct (out_spent o) eqn:Hs; (split; [done|]); destruct (decide (j = i)) as [->|Hj]; cbn;
      rewrite ?Ho, ?Hs, ?lookup_insert_eq, ?lookup_insert_ne by done; done.
  - split; [done|]. destruct (decide (j = i)) as [->|]; [|done]. by rewrite Ho.
Qed.

Lemma decompress_coin e i o o' j :
  sparseOutputs e !! i = Some o -> maybeDecompress o = Ok o' ->
  entry_coin (set_sparseOutputs e (<[i := o']> (sparseOutputs e))) j = entry_coin e j.
Proof.
  intros Ho Hd. unfold entry_coin. cbn. destruct (decide (j = i)) as [->|Hj].
  - rewrite lookup_insert_eq, Ho, (contents_decompress _ _ Hd). by apply maybeDecompress_idemp in Hd as [_ ->].
  - by rewrite lookup_insert_ne by done.
Qed.

Lemma AmountByIndex_coin e i a e' :
  AmountByIndex e i = Ok (a, e') -> meta e' = meta e /\ forall j, entry_coin e' j = entry_coin e j.
Proof.
  unfold AmountByIndex. destruct (sparseOutputs e !! i) as [o|] eqn:Ho; [|by intros [= <- <-]].
  destruct (maybeDecompress o) as [o'| | |] eqn:Hd; [|done..]. intros [= <- <-]. split; [done|].
  intros j. by apply (decompress_coin e i o).
Qed.

Lemma PkScriptByIndex_coin e i s e' :
  PkScriptByIndex e i = Ok (s, e') -> meta e' = meta e /\ forall j, entry_coin e' j = entry_coin e j.
Proof.
  unfold PkScriptByIndex. destruct (sparseOutputs e !! i) as [o|] eqn:Ho; [|by intros [= <- <-]].
  destruct (maybeDecompress o) as [o'| | |] eqn:Hd; [|done..]. intros [= <- <-]. split; [done|].
  intros j. by apply (decompress_coin e i o).
Qed.

(** The coins after some inputs are spent. *)
Lemma spend_inputs_coins ins : forall view st view' st',
  spend_inputs view ins st = Ok (view', st') -> forall h i,
  coin view' h i = if decide (mkOutPoint h i ∈ map PreviousOutPoint ins) then None else coin view h i.
Proof.
  induction ins as [|ti ins IH]; intros view st view' st' Hs h i; cbn [spend_inputs] in Hs.
  { injection Hs as <- <-. cbn [map]. by rewrite decide_False by (by intros ?%elem_of_nil). }
  cbn [map]. destruct (PreviousOutPoint ti) as [h0 i0] eqn:Hop. cbn [Hash Index] in Hs.
  destruct (LookupEntry view h0) as [e|] eqn:He; [|done].
  assert (exists e' st1, spend_inputs (set_entry view h0 e') ins st1 = Ok (view', st') /\ meta e' = meta e /\
    forall j, entry_coin e' j = if decide (j = i0) then None else entry_coin e j) as (e' & st1 & Hrest & Hm & Hout).
  { destruct st as [l|].
    - apply bind_Ok in Hs as ([a e1] & Ha & Hs). apply bind_Ok in Hs as ([pk e2] & Hpk & Hs).
      apply AmountByIndex_coin in Ha as [Hm1 Ha]. apply PkScriptByIndex_coin in Hpk as [Hm2 Hpk].
      exists e2. eexists. split; [exact Hs|]. destruct (SpendOutput_coin e i0 0) as [Hm _].
      split; [congruence|]. intros j. rewrite Hpk, Ha. apply SpendOutput_coin.
    - eexists _, _. split; [exact Hs|]. split; [by apply (SpendOutput_coin e i0 0) | apply SpendOutput_coin]. }
  rewrite (IH _ _ _ _ Hrest h i), !coin_entry, lookup_set_entry.
  destruct (decide (mkOutPoint h i ∈ map PreviousOutPoint ins)) as [Hin|Hnin].
  { rewrite decide_True; [done | by apply elem_of_cons; right]. }
  destruct (decide (h = h0)) as [->|Hh].
  - rewrite Hout, Hm, He. destruct (decide (i = i0)) as [->|Hi].
    + by rewrite decide_True by (left).
    + rewrite decide_False; [done|]. intros [[= ->]|?]%elem_of_cons; done.
  - rewrite decide_False; [done|]. intros [[= -> ->]|?]%elem_of_cons; done.
Qed.

(** ** Created coins *)

(** The coin that the output [i] of a transaction becomes. *)
Definition created (tx : MsgTx) (height : Z) (i : Z) : option (option (Z * option bytes) * (Z * bool * Z)) :=
  if i <? 0 then None
  else match tx_TxOut tx !! Z.to_nat i with
       | Some o => if IsUnspendable (PkScript o) then None
                   else Some (Some (Value o, Some (PkScript o)), (tx_Version tx, IsCoinBaseTx tx, height))
       | None => None
       end.

Lemma add_outs_lookup outs : forall m k i,
  0 <= k -> k + len outs <= 2 ^ 32 ->
  add_outs m k outs !! i =
  match (if i <? k then None else outs !! Z.to_nat (i - k)) with
  | Some o => if IsUnspendable (PkScript o) then m !! i
              else Some (mkUtxoOutput false false (Value o) (Some (PkScript o)))
  | None => m !! i
  end.
Proof.
  induction outs as [|o outs IH]; intros m k i Hk Hl; cbn [add_outs].
  { rewrite lookup_nil. by destruct (i <? k). }
  rewrite len_cons in Hl. pose proof (len_nonneg outs). rewrite IH by lia.
  rewrite wrapu_small by (unfold is_u; lia).
  destruct (Z.ltb_spec i k) as [Hik|Hik].
  { replace (i <? k + 1) with true by lia. destruct (IsUnspendable _); [done|]. by rewrite lookup_insert_ne by lia. }
  destruct (decide (i = k)) as [->|Hne].
  { replace (k <? k + 1) with true by lia. rewrite Z.sub_diag. change (Z.to_nat 0) with 0%nat. cbn [lookup list_lookup]. destruct (IsUnspendable _); [done|].
    by rewrite lookup_insert_eq. }
  replace (i <? k + 1) with false by lia.
  replace (Z.to_nat (i - k)) with (S (Z.to_nat (i - (k + 1)))) by lia. cbn [lookup list_lookup].
  destruct (IsUnspendable (PkScript o)); [done|]. destruct (outs !! Z.to_nat (i - (k + 1))) as [o'|].
  - destruct (IsUnspendable (PkScript o')); [|done]. by rewrite lookup_insert_ne by lia.
  - by rewrite lookup_insert_ne by lia.
Qed.

Lemma AddTxOuts_coins view tx height h i :
  LookupEntry view (SigCache.TxHash tx) = None -> len (tx_TxOut tx) <= 2 ^ 32 ->
  coin (AddTxOuts view tx height) h i = if decide (h = SigCache.TxHash tx) then created tx height i else coin view h i.
Proof.
  intros Hn Hl. unfold AddTxOuts. rewrite Hn, coin_set_entry. destruct (decide (h = SigCache.TxHash tx)); [|done].
  cbn. rewrite add_outs_lookup by (done || lia). rewrite lookup_empty, Z.sub_0_r. unfold created.
  destruct (i <? 0); [done|]. destruct (tx_TxOut tx !! Z.to_nat i) as [o|]; [|done]. by destruct (IsUnspendable _).
Qed.

(** Connecting a transaction that is not a coinbase, whose hash is not in the
    view and that does not spend its own outputs.  The coins after [connectTransaction] are the
    coins before without those its inputs refer to, and with one coin for each
    of its outputs that is not provably unspendable, with the value, the script,
    the version, the coinbase flag and the height of the transaction.  Nothing
    else changes, whether or not the spent outputs are recorded. *)
Theorem connect_coins view tx height stxos view' stxos' :
  LookupEntry view (SigCache.TxHash tx) = None ->
  Forall (fun ti => Hash (PreviousOutPoint ti) <> SigCache.TxHash tx) (tx_TxIn tx) ->
  IsCoinBaseTx tx = false -> len (tx_TxOut tx) <= 2 ^ 32 ->
  connectTransaction view tx height stxos = Ok (view', stxos') ->
  forall h i, coin view' h i =
    if decide (h = SigCache.TxHash tx) then created tx height i
    else if decide (mkOutPoint h i ∈ map PreviousOutPoint (tx_TxIn tx)) then None
    else coin view h i.
Proof.
  intros Hn Hself Hcb Hl Hc h i. unfold connectTransaction in Hc. rewrite Hcb in Hc.
  apply bind_Ok in Hc as ([v1 s1] & Hs & Hc). injection Hc as <- <-.
  pose proof (spend_inputs_coins _ _ _ _ _ Hs) as Hcoins.
  assert (LookupEntry v1 (SigCache.TxHash tx) = None) as Hn1.
  { clear -Hs Hself Hn. revert view stxos Hn Hs. induction Hself as [|ti ins Hti _ IH]; intros view st Hn Hs;
      cbn [spend_inputs] in Hs; [by injection Hs as <- <-|].
    destruct (LookupEntry view (Hash (PreviousOutPoint ti))) as [e|]; [|done]. destruct st as [l|].
    - apply bind_Ok in Hs as ([a e1] & _ & Hs). apply bind_Ok in Hs as ([pk e2] & _ & Hs).
      eapply IH; [|exact Hs]. by rewrite lookup_set_entry, decide_False by congruence.
    - eapply IH; [|exact Hs]. by rewrite lookup_set_entry, decide_False by congruence. }
  rewrite AddTxOuts_coins by done. destruct (decide (h = SigCache.TxHash tx)); [done|]. apply Hcoins.
Qed.

(** Disconnecting restores the coins, also from a view that knows nothing of the
    block's own transactions. *)
Lemma disconnect_upto view block view' stxos w' :
  Transactions block <> [] -> txs_ok (Height block) view 0 (Transactions block) ->
  connectTransactions view block (Some []) = Ok (view', Some stxos) ->
  pruned (map SigCache.TxHash (Transactions block)) view' w' ->
  exists w, disconnectTransactions w' block stxos = Ok w /\ bestHash w = PrevBlock block /\
    forall h i, coin w h i = if decide (h ∈ map SigCache.TxHash (Transactions block)) then None else coin view h i.
Proof.
  intros Hne Hok Hc Hp. unfold connectTransactions in Hc. apply bind_Ok in Hc as ([v1 s1] & Hc & Heq).
  injection Heq as <- ->. destruct (disconnect_pruned _ _ _ 0 view [] v1 stxos w' [] Hok Hc Hp) as (w & Hpw & Hdw & Hdis).
  exists (SetBestHash w (PrevBlock block)). split_and!; [|done|].
  - unfold disconnectTransactions, countSpentOutputs. destruct (Transactions block) as [|tx txs] eqn:Htx; [done|].
    assert (slice (tx :: txs) 1 (len (tx :: txs)) = @Ok string _ txs) as ->.
    { apply slice_Ok. rewrite len_cons. pose proof (len_nonneg txs). split_and!; [lia..|]. change (drop (Z.to_nat 1) (tx :: txs)) with (drop 0 txs). rewrite drop_0.
      rewrite take_ge; [done|]. unfold len. lia. }
    cbn [mbind res_bind]. destruct Hok as (Hcb & _ & Hnext). cbn [connect_txs] in Hc.
    apply bind_Ok in Hc as ([v2 s2] & H1 & Hc). pose proof H1 as H1'.
    apply (connectTransaction_records _ _ _ _ []) in H1 as (n1 & -> & Hn1 & _). rewrite Hcb in Hn1. destruct n1; [|done].
    rewrite (connect_txs_count (Height block) txs 1 v2 [] v1 stxos) by (done || apply (Hnext _ _ H1')).
    rewrite Z.add_0_l, Z.eqb_refl. cbn [negb]. specialize (Hdis []). rewrite <- numbered_eq, !app_nil_r in Hdis.
    cbn [app] in Hdis. change (len []) with 0 in Hdis. rewrite Z.add_0_l in Hdis. by rewrite Hdis.
  - intros h i. destruct (decide (h ∈ map SigCache.TxHash (Transactions block))) as [Hin|Hout]; [by apply Hdw|].
    destruct (Hpw h) as [Hcoin _]; [rewrite elem_of_app; tauto | apply Hcoin].
Qed.

(** C17: disconnecting a block.  Connect a block whose inputs all find their coins
    and record the spent outputs.  Then disconnecting it with these records
    succeeds and gives back exactly the coins from before, and none of the
    block's own transactions.  This holds for the connected view itself and for
    any view with the same coins that forgot spent outputs and spent entries,
    such as the one that [commit] leaves or that is loaded from the database. *)
Theorem disconnect_restores view block view' stxos w' :
  Transactions block <> [] -> txs_ok (Height block) view 0 (Transactions block) ->
  connectTransactions view block (Some []) = Ok (view', Some stxos) -> pruned [] view' w' ->
  exists w, disconnectTransactions w' block stxos = Ok w /\ bestHash w = PrevBlock block /\
    forall h i, coin w h i = if decide (h ∈ map SigCache.TxHash (Transactions block)) then None else coin view h i.
Proof.
  intros Hne Hok Hc Hp. apply (disconnect_upto view block view'); try done.
  intros h _. apply (Hp h). by intros ?%elem_of_nil.
Qed.

(** * An example *)

(** A view with one coin, and a block that spends it. *)
Definition example_outpoint : OutPoint := mkOutPoint (replicate 32 1) 0.
Definition example_entry (height : Z) : UtxoEntry := mkUtxoEntry false 1 false height {[ 0 := mkUtxoOutput false false 50 (Some [81]) ]}.
Definition example_view (height : Z) : UtxoViewpoint :=
  mkUtxoViewpoint {[ replicate 32 1 := Some (example_entry height) ]} zeroHash.
Definition example_coinbase : MsgTx :=
  mkMsgTx 1 [mkTxIn (mkOutPoint zeroHash (2 ^ 32 - 1)) [1] 0] [mkTxOut 0 [82]] 0.
Definition example_spend : MsgTx := mkMsgTx 1 [mkTxIn example_outpoint [] 0] [mkTxOut 50 [83]; mkTxOut 0 [106]] 0.
Definition example_block : Block := mkBlock [example_coinbase; example_spend] 8 (replicate 32 2) (replicate 32 3).

Lemma example_hash : Hash example_outpoint <> SigCache.TxHash example_spend.
Proof. apply (bool_decide_eq_false_1 (Hash example_outpoint = SigCache.TxHash example_spend)). vm_compute. reflexivity. Qed.

Lemma example_connects :
  exists view' stxos, connectTransaction (example_view 7) example_spend 8 (Some []) = Ok (view', stxos).
Proof. eexists _, _. reflexivity. Qed.


Lemma example_coinbase_hash : Hash example_outpoint <> SigCache.TxHash example_coinbase.
Proof. apply (bool_decide_eq_false_1 (Hash example_outpoint = SigCache.TxHash example_coinbase)). vm_compute. reflexivity. Qed.

Lemma lookup_AddTxOuts_ne view tx height h :
  h <> SigCache.TxHash tx -> LookupEntry (AddTxOuts view tx height) h = LookupEntry view h.
Proof. intros Hne. unfold AddTxOuts. cbv zeta. by rewrite lookup_set_entry, decide_False. Qed.

Lemma connect_coinbase view tx height stxos :
  IsCoinBaseTx tx = true -> connectTransaction view tx height stxos = Ok (AddTxOuts view tx height, stxos).
Proof. intros Hcb. unfold connectTransaction. by rewrite Hcb. Qed.

Lemma example_spend_connects height view l :
  LookupEntry view (Hash example_outpoint) = Some (example_entry height) ->
  exists view' stxos, connectTransaction view example_spend 8 (Some l) = Ok (view', Some stxos).
Proof.
  intros He. unfold connectTransaction. change (IsCoinBaseTx example_spend) with false. cbv iota.
  cbn [tx_TxIn example_spend spend_inputs PreviousOutPoint]. rewrite He. eexists _, _. reflexivity.
Qed.

Lemma connect_two view a b height hash prev st v1 st1 v2 st2 :
  connectTransaction view a height st = Ok (v1, st1) -> connectTransaction v1 b height st1 = Ok (v2, st2) ->
  connectTransactions view (mkBlock [a; b] height hash prev) st = Ok (SetBestHash v2 hash, st2).
Proof.
  intros Ha Hb. unfold connectTransactions. cbn [Transactions Height connect_txs].
  rewrite Ha. cbn [mbind res_bind]. by rewrite Hb.
Qed.

Lemma example_lookup height :
  LookupEntry (AddTxOuts (example_view height) example_coinbase 8) (Hash example_outpoint) = Some (example_entry height).
Proof. rewrite (lookup_AddTxOuts_ne _ _ _ _ example_coinbase_hash). reflexivity. Qed.

Lemma example_block_connects height :
  exists view' stxos, connectTransactions (example_view height) example_block (Some []) = Ok (view', Some stxos).
Proof.
  destruct (example_spend_connects _ _ [] (example_lookup height)) as (v & s & Hs). exists (SetBestHash v (replicate 32 2)), s.
  exact (connect_two _ _ _ _ _ _ _ _ _ _ _ (connect_coinbase (example_view height) example_coinbase 8 (Some []) eq_refl) Hs).
Qed.

Lemma example_txs_ok height : txs_ok 8 (example_view height) 0 [example_coinbase; example_spend].
Proof.
  split; [reflexivity|]. split; [discriminate|]. intros view' s Hc.
  rewrite connect_coinbase in Hc by reflexivity. injection Hc as <- <-.
  split; [reflexivity|]. split; [|done]. intros _. split.
  - split; [|done]. unfold spent_by, coin. cbn [PreviousOutPoint].
    rewrite example_lookup. discriminate.
  - repeat constructor. cbn [map PreviousOutPoint]. intros Hin. apply elem_of_cons in Hin as [Hin|Hin].
    + by apply example_hash.
    + by apply elem_of_nil in Hin.
Qed.

Lemma disconnect_restores_witness :
  exists view' stxos w, connectTransactions (example_view 7) example_block (Some []) = Ok (view', Some stxos) /\
    disconnectTransactions (commit view') example_block stxos = Ok w /\ bestHash w = PrevBlock example_block /\
    forall h i, coin w h i =
      if decide (h ∈ map SigCache.TxHash (Transactions example_block)) then None else coin (example_view 7) h i.
Proof.
  destruct (example_block_connects 7) as (view' & stxos & Hc). exists view', stxos.
  destruct (disconnect_restores (example_view 7) example_block view' stxos (commit view')) as (w & Hd & Hb & Hcoins).
  - discriminate.
  - exact (example_txs_ok 7).
  - exact Hc.
  - apply commit_pruned.
  - exists w. split_and!; [exact Hc | exact Hd | exact Hb | exact Hcoins].
Defined.

End UtxoSpec.
