(* ===== verification/KeyView.v ===== *)
(** The view of the admin state: [src/blockchain/keyviewpoint.go], with
    [CopyThreadTips] of [src/provautil/threadid.go] and [DeepCopy] of
    [src/btcec/pubkeyset.go].

    A key set of a view is reached only through the view ([SetKeys] copies), so
    the slice that [Remove] changes in place is the value in the map.  A missing
    key set is the nil slice, the empty list.  The pointers to the thread tips
    are never nil. *)
From S2P Require Import Prelude PubKey Opcode Wire Crypto Script Standard SigCache Utxo.
Import btcec Opcode wire Crypto Script Standard Utxo.
#[local] Open Scope Z_scope.

Module KeyView.

Record KeyViewpoint := mkKeyViewpoint {
  threadTips : gmap Z OutPoint;
  lastKeyID : Z;
  totalSupply : Z;
  adminKeySets : gmap KeySetType PublicKeySet;
  aspKeyIdMap : KeyIdMap
}.

Definition set_threadTips (v : KeyViewpoint) x :=
  mkKeyViewpoint x (lastKeyID v) (totalSupply v) (adminKeySets v) (aspKeyIdMap v).
Definition set_adminKeySets (v : KeyViewpoint) x :=
  mkKeyViewpoint (threadTips v) (lastKeyID v) (totalSupply v) x (aspKeyIdMap v).
Definition set_aspKeyIdMap (v : KeyViewpoint) x :=
  mkKeyViewpoint (threadTips v) (lastKeyID v) (totalSupply v) (adminKeySets v) x.

Definition CopyThreadTips (threadTips : gmap Z OutPoint) : gmap Z OutPoint :=
  (fun outPoint => mkOutPoint (Hash outPoint) (Index outPoint)) <$> threadTips.

Definition SetThreadTips (view : KeyViewpoint) (tips : gmap Z OutPoint) : KeyViewpoint :=
  set_threadTips view (CopyThreadTips tips).

Definition SetLastKeyID (v : KeyViewpoint) (lastKeyID : Z) : KeyViewpoint :=
  mkKeyViewpoint (threadTips v) lastKeyID (totalSupply v) (adminKeySets v) (aspKeyIdMap v).

Definition SetTotalSupply (v : KeyViewpoint) (totalSupply : Z) : KeyViewpoint :=
  mkKeyViewpoint (threadTips v) (lastKeyID v) totalSupply (adminKeySets v) (aspKeyIdMap v).

(** [make] and [copy]: a fresh slice with the keys of each set. *)
Definition DeepCopy (adminKeySets : gmap KeySetType PublicKeySet) : gmap KeySetType PublicKeySet :=
  (fun keySet => take (length keySet) keySet) <$> adminKeySets.

(** [None] is the nil map. *)
Definition SetKeys (view : KeyViewpoint) (keys : option (gmap KeySetType PublicKeySet)) : KeyViewpoint :=
  match keys with Some keys => set_adminKeySets view (DeepCopy keys) | None => view end.

Definition SetKeyIDs (view : KeyViewpoint) (keyIDs : option KeyIdMap) : res string KeyViewpoint :=
  match keyIDs with
  | Some keyIDs => m ← KeyIdMap_DeepCopy keyIDs; Ok (set_aspKeyIdMap view m)
  | None => Ok view
  end.

(** The zero value of a missing set is the nil slice. *)
Definition key_set (v : KeyViewpoint) (t : KeySetType) : PublicKeySet := default [] (adminKeySets v !! t).

(** [KeySetType(threadID)]: the numbers of the key sets. *)
Definition thread_key_set (threadID : Z) : option KeySetType :=
  if threadID =? 0 then Some RootKeySet
  else if threadID =? 1 then Some ProvisionKeySet
  else if threadID =? 2 then Some IssueKeySet
  else if threadID =? 3 then Some ValidateKeySet
  else if threadID =? 4 then Some ASPKeySet
  else None.

Section hashes.
Context `{Primitives}.

Definition GetAdminKeyHashes (view : KeyViewpoint) (threadID : Z) : list bytes :=
  let pubs := match thread_key_set threadID with Some t => key_set view t | None => [] end in
  map (fun pubKey => Hash160 (SerializeCompressed pubKey)) pubs.

(** A key id without a key stands for the hash of twenty zeros. *)
Definition key_id_hash (view : KeyViewpoint) (keyID : Z) : bytes :=
  match get_key (aspKeyIdMap view) keyID with
  | Some pubKey => Hash160 (SerializeCompressed pubKey)
  | None => replicate 20 0
  end.

Definition LookupKeyIDs (view : KeyViewpoint) (keyIDs : list Z) : gmap Z bytes :=
  fold_left (fun keyIdMap keyID => <[keyID := key_id_hash view keyID]> keyIdMap) keyIDs ∅.
End hashes.

Definition applyAdminOp (view : KeyViewpoint) (isAddOp : bool) (keySetType : KeySetType)
    (pubKey : option PublicKey) (keyID : Z) : res string KeyViewpoint :=
  if bool_decide (keySetType = ASPKeySet) then
    if isAddOp
    then Ok (SetLastKeyID (set_aspKeyIdMap view (<[keyID := pubKey]> (aspKeyIdMap view))) keyID)
    else Ok (set_aspKeyIdMap view (delete keyID (aspKeyIdMap view)))
  else if isAddOp then
    set ← Add (key_set view keySetType) pubKey;
    Ok (set_adminKeySets view (<[keySetType := set]> (adminKeySets view)))
  else
    pos ← Pos (key_set view keySetType) pubKey;
    set ← Remove (key_set view keySetType) pos;
    Ok (set_adminKeySets view (<[keySetType := set]> (adminKeySets view))).

(** * The total supply

    [sign] is 1 where the code adds and -1 where it subtracts. *)
Definition change_supply (sign : Z) (supply value : Z) : Z := u64 (supply + sign * u64 value).

Fixpoint destruction_loop (sign : Z) (txOuts : list TxOut) (i : Z) (adminOutputs : list (list parsedOpcode))
    (supply : Z) : res string Z :=
  match adminOutputs with
  | [] => Ok supply
  | out :: rest =>
      if bool_decide (TypeOfScript out = NullDataTy) then
        o ← idx txOuts (i + 1);
        destruction_loop sign txOuts (i + 1) rest (change_supply sign supply (Value o))
      else destruction_loop sign txOuts (i + 1) rest supply
  end.

Definition issuance_loop (sign : Z) (txOuts : list TxOut) (supply : Z) : Z :=
  fold_left (fun s o => change_supply sign s (Value o)) (drop 1 txOuts) supply.

(** The outputs of an issue transaction; a destruction has several inputs. *)
Definition issue_supply (issue : Z) (tx : MsgTx) (adminOutputs : list (list parsedOpcode)) (supply : Z)
    : res string Z :=
  if 1 <? len (tx_TxIn tx) then destruction_loop (- issue) (tx_TxOut tx) 0 adminOutputs supply
  else Ok (issuance_loop issue (tx_TxOut tx) supply).

(** * Connecting *)
Fixpoint apply_ops (view : KeyViewpoint) (adminOutputs : list (list parsedOpcode)) : res string KeyViewpoint :=
  match adminOutputs with
  | [] => Ok view
  | out :: rest =>
      '(isAddOp, keySetType, pubKey, keyID) ← ExtractAdminOpData out;
      view ← applyAdminOp view isAddOp keySetType pubKey keyID;
      apply_ops view rest
  end.

Definition set_tip (view : KeyViewpoint) (threadId : Z) (tip : OutPoint) : KeyViewpoint :=
  set_threadTips view (<[threadId := tip]> (threadTips view)).

Definition ProcessAdminOuts (view : KeyViewpoint) (tx : MsgTx) (blockHeight : Z) : res string KeyViewpoint :=
  let '(threadInt, adminOutputs) := GetAdminDetailsMsgTx tx in
  if threadInt <? 0 then Ok view
  else if u8 threadInt =? IssueThread then
    supply ← issue_supply 1 tx adminOutputs (totalSupply view);
    Ok (set_tip (SetTotalSupply view supply) IssueThread (mkOutPoint (SigCache.TxHash tx) 0))
  else
    view ← apply_ops view adminOutputs;
    Ok (set_tip view (u8 threadInt) (mkOutPoint (SigCache.TxHash tx) 0)).

Definition connectTransaction (view : KeyViewpoint) (tx : MsgTx) (blockHeight : Z) : res string KeyViewpoint :=
  ProcessAdminOuts view tx blockHeight.

Fixpoint connect_txs (view : KeyViewpoint) (txs : list MsgTx) (blockHeight : Z) : res string KeyViewpoint :=
  match txs with
  | [] => Ok view
  | tx :: rest => view ← connectTransaction view tx blockHeight; connect_txs view rest blockHeight
  end.

Definition connectTransactions (view : KeyViewpoint) (block : Block) : res string KeyViewpoint :=
  connect_txs view (Transactions block) (Height block).

(** * Disconnecting *)
Definition undo_op (view : KeyViewpoint) (out : list parsedOpcode) : res string KeyViewpoint :=
  '(isAddOp, keySetType, pubKey, keyID) ← ExtractAdminOpData out;
  if bool_decide (keySetType = ASPKeySet) then
    if (isAddOp : bool)
    then Ok (SetLastKeyID (set_aspKeyIdMap view (delete keyID (aspKeyIdMap view))) (u32 (keyID - 1)))
    else Ok (set_aspKeyIdMap view (<[keyID := pubKey]> (aspKeyIdMap view)))
  else applyAdminOp view (negb isAddOp) keySetType pubKey keyID.

Fixpoint undo_ops (view : KeyViewpoint) (adminOutputs : list (list parsedOpcode)) : res string KeyViewpoint :=
  match adminOutputs with
  | [] => Ok view
  | out :: rest => view ← undo_op view out; undo_ops view rest
  end.

Definition disconnect_tx (view : KeyViewpoint) (tx : MsgTx) : res string KeyViewpoint :=
  let '(threadInt, adminOutputs) := GetAdminDetailsMsgTx tx in
  if RootThread <=? threadInt then
    let threadId := u8 threadInt in
    view ← (if threadId =? IssueThread then
              supply ← issue_supply (-1) tx adminOutputs (totalSupply view);
              Ok (SetTotalSupply view supply)
            else undo_ops view adminOutputs);
    txIn ← idx (tx_TxIn tx) 0;
    Ok (set_tip view threadId (PreviousOutPoint txIn))
  else Ok view.

(** The transactions come last first. *)
Fixpoint disconnect_txs (view : KeyViewpoint) (rev_txs : list MsgTx) : res string KeyViewpoint :=
  match rev_txs with
  | [] => Ok view
  | tx :: rest => view ← disconnect_tx view tx; disconnect_txs view rest
  end.

Definition disconnectTransactions (view : KeyViewpoint) (block : Block) : res string KeyViewpoint :=
  disconnect_txs view (reverse (Transactions block)).

Definition NewKeyViewpoint : KeyViewpoint := mkKeyViewpoint ∅ 0 0 ∅ ∅.

End KeyView.
