(* ===== verification/Validate.v ===== *)
(** The rules for transactions: [src/blockchain/validate.go], with the error
    codes of [src/blockchain/error.go] and the limits of [src/provautil/const.go].

    The text of an error is not modelled, only its kind.  Looking up the script
    or the amount of an output can decompress it, so the checks on the inputs
    return the view. *)
From S2P Require Import Prelude PubKey Opcode Wire Crypto Script Standard SigCache Engine Utxo GoTime Header MsgBlock Database Params KeyView.
Import btcec Opcode wire Crypto Script Standard Engine Utxo Params KeyView.
#[local] Open Scope Z_scope.

Module Validate.

(** * Errors *)
Inductive RuleErrorCode :=
  | ErrDuplicateBlock | ErrBlockTooBig | ErrBlockVersionTooOld | ErrInvalidTime | ErrTimeTooOld | ErrTimeTooNew
  | ErrDifficultyTooLow | ErrUnexpectedDifficulty | ErrBadHeight | ErrBadBlockSignature | ErrHighHash
  | ErrBadMerkleRoot | ErrBadCheckpoint | ErrForkTooOld | ErrCheckpointTimeTooOld | ErrNoTransactions
  | ErrTooManyTransactions | ErrNoTxInputs | ErrNoTxOutputs | ErrTxTooBig | ErrBadTxOutValue
  | ErrDuplicateTxInputs | ErrBadTxInput | ErrMissingTx | ErrUnfinalizedTx | ErrDuplicateTx | ErrOverwriteTx
  | ErrImmatureSpend | ErrDoubleSpend | ErrSpendTooHigh | ErrBadFees | ErrTooManySigOps | ErrFirstTxNotCoinbase
  | ErrMultipleCoinbases | ErrBadCoinbaseScriptLen | ErrBadCoinbaseValue | ErrScriptMalformed
  | ErrScriptValidation | ErrExcessiveChainShare | ErrInconsistentBlkSize | ErrInvalidCoinbase | ErrInvalidTx
  | ErrInvalidValidateKey | ErrInvalidAdminTx | ErrInvalidAdminOp | ErrFeeTooHigh.

#[global] Instance RuleErrorCode_eq_dec : EqDecision RuleErrorCode.
Proof. solve_decision. Defined.

(** A value of Go's [error]: a broken rule, an internal error, the two errors of
    [src/blockchain/chainio.go], an error of the database, or the error of another
    package. *)
Inductive error :=
  | RuleError (code : RuleErrorCode) | AssertError (s : string) | errDeserialize (s : string)
  | errNotInMainChain (s : string) | DatabaseError (code : Database.ErrorCode) | OtherError (s : string).

Definition ruleError {A} (c : RuleErrorCode) : res error A := Err (RuleError c).

(** An error of the views, as an error of a rule. *)
Definition asserted {A} (m : res string A) : res error A :=
  match m with Ok a => Ok a | Err s => Err (AssertError s) | Panic => Panic | Hang => Hang end.

(** A failed script operation, reported as a broken rule. *)
Definition or_rule {A} (c : RuleErrorCode) (m : res ErrorCode A) : res error A :=
  match m with Ok a => Ok a | Err _ => ruleError c | Panic => Panic | Hang => Hang end.

(** * Limits and parameters *)
Definition AtomsPerGram : Z := 10 ^ 6.
Definition MaxAtoms : Z := 21 * 10 ^ 8 * AtomsPerGram.
Definition MaxSigOpsPerBlock : Z := MsgBlock.MaxBlockPayload / 50.
Definition MinCoinbaseScriptLen : Z := 2.
Definition MaxCoinbaseScriptLen : Z := 100.
Definition baseSubsidy : Z := 0 * AtomsPerGram.
Definition MaxAdminKeySetSize : Z := 42.

(** * Lock times and subsidy *)
Definition IsCoinBase (tx : MsgTx) : bool := IsCoinBaseTx tx.

Record SequenceLock := mkSequenceLock { lock_Seconds : Z; lock_BlockHeight : Z }.

Definition SequenceLockActive (sequenceLock : SequenceLock) (blockHeight medianTimePast : Z) : bool :=
  if (medianTimePast <=? lock_Seconds sequenceLock) || (blockHeight <=? lock_BlockHeight sequenceLock)
  then false else true.

Definition IsFinalizedTransaction (tx : MsgTx) (blockHeight blockTime : Z) : bool :=
  let lockTime := tx_LockTime tx in
  if lockTime =? 0 then true
  else
    let blockTimeOrHeight := if lockTime <? LockTimeThreshold then blockHeight else blockTime in
    if lockTime <? blockTimeOrHeight then true
    else forallb (fun txIn => Sequence txIn =? 0xffffffff) (tx_TxIn tx).

Definition CalcBlockSubsidy (height : Z) (chainParams : Params) : Z :=
  if SubsidyReductionInterval chainParams =? 0 then baseSubsidy
  else baseSubsidy ≫ (height / SubsidyReductionInterval chainParams).

(** * The sanity of a transaction *)

(** The script rules for an output of an admin transaction. *)
Definition check_admin_out (msgTx : MsgTx) (threadInt : Z) (scriptClass : ScriptClass) (txOutIndex : Z)
    (txOut : TxOut) : res error unit :=
  if negb (u8 threadInt =? IssueThread) then
    if negb (Value txOut =? 0) then ruleError ErrInvalidAdminTx else Ok tt
  else if 0 <? txOutIndex then
    let isDestruction := 1 <? len (tx_TxIn msgTx) in
    if bool_decide (scriptClass = NullDataTy) then
      if negb isDestruction then ruleError ErrInvalidAdminTx
      else if Value txOut =? 0 then ruleError ErrInvalidAdminTx else Ok tt
    else if negb (bool_decide (scriptClass = ProvaTy)) && negb (bool_decide (scriptClass = GeneralProvaTy))
    then ruleError ErrInvalidAdminTx
    else if Value txOut =? 0 then ruleError ErrInvalidAdminTx else Ok tt
  else Ok tt.

Fixpoint check_outs (msgTx : MsgTx) (threadInt : Z) (txOutIndex totalAtoms : Z) (outs : list TxOut)
    : res error unit :=
  match outs with
  | [] => Ok tt
  | txOut :: rest =>
      let atoms := Value txOut in
      if atoms <? 0 then ruleError ErrBadTxOutValue
      else if MaxAtoms <? atoms then ruleError ErrBadTxOutValue
      else
        let totalAtoms := i64 (totalAtoms + atoms) in
        if totalAtoms <? 0 then ruleError ErrBadTxOutValue
        else if MaxAtoms <? totalAtoms then ruleError ErrBadTxOutValue
        else
          let scriptClass := GetScriptClass (PkScript txOut) in
          if bool_decide (scriptClass = ProvaAdminTy) && negb (txOutIndex =? 0) then ruleError ErrInvalidAdminTx
          else
            _ ← (if 0 <=? threadInt then check_admin_out msgTx threadInt scriptClass txOutIndex txOut else Ok tt);
            check_outs msgTx threadInt (txOutIndex + 1) totalAtoms rest
  end.

(** [existingTxOut]: the outpoints seen so far. *)
Fixpoint duplicate_inputs (existingTxOut : list OutPoint) (ins : list TxIn) : bool :=
  match ins with
  | [] => false
  | txIn :: rest =>
      if bool_decide (PreviousOutPoint txIn ∈ existingTxOut) then true
      else duplicate_inputs (PreviousOutPoint txIn :: existingTxOut) rest
  end.

Definition CheckTransactionSanity (msgTx : MsgTx) : res error unit :=
  if len (tx_TxIn msgTx) =? 0 then ruleError ErrNoTxInputs
  else if len (tx_TxOut msgTx) =? 0 then ruleError ErrNoTxOutputs
  else if MsgBlock.MaxBlockPayload <? SerializeSize msgTx then ruleError ErrTxTooBig
  else
    let '(threadInt, adminOutputs) := GetAdminDetailsMsgTx msgTx in
    let hasAdminOut := 0 <=? threadInt in
    _ ← check_outs msgTx threadInt 0 0 (tx_TxOut msgTx);
    if duplicate_inputs [] (tx_TxIn msgTx) then ruleError ErrDuplicateTxInputs
    else if IsCoinBase msgTx then
      if negb (IsProvaTx msgTx) then ruleError ErrInvalidCoinbase
      else
        ti ← idx (tx_TxIn msgTx) 0;
        let slen := len (SignatureScript ti) in
        if (slen <? MinCoinbaseScriptLen) || (MaxCoinbaseScriptLen <? slen)
        then ruleError ErrBadCoinbaseScriptLen else Ok tt
    else
      let threadId := u8 threadInt in
      _ ← (if hasAdminOut && ((threadId =? RootThread) || (threadId =? ProvisionThread)) then
             if 1 <? len (tx_TxIn msgTx) then ruleError ErrInvalidAdminTx
             else if len (tx_TxOut msgTx) <? 2 then ruleError ErrInvalidAdminTx
             else if forallb (fun adminOpOut => IsValidAdminOp adminOpOut threadId) adminOutputs then Ok tt
             else ruleError ErrInvalidAdminTx
           else Ok tt);
      if negb hasAdminOut && negb (IsProvaTx msgTx) then ruleError ErrInvalidTx
      else if existsb (fun txIn => isNullOutpoint (PreviousOutPoint txIn)) (tx_TxIn msgTx)
      then ruleError ErrBadTxInput else Ok tt.

(** * Signature operations *)
Definition CountSigOps (tx : MsgTx) : Z :=
  let ins := fold_left (fun n txIn => i64 (n + GetSigOpCount (SignatureScript txIn))) (tx_TxIn tx) 0 in
  fold_left (fun n txOut => i64 (n + GetSigOpCount (PkScript txOut))) (tx_TxOut tx) ins.

Fixpoint p2sh_sigops (utxoView : UtxoViewpoint) (totalSigOps : Z) (ins : list TxIn)
    : res error (Z * UtxoViewpoint) :=
  match ins with
  | [] => Ok (totalSigOps, utxoView)
  | txIn :: rest =>
      let originTxHash := Hash (PreviousOutPoint txIn) in
      let originTxIndex := Index (PreviousOutPoint txIn) in
      match LookupEntry utxoView originTxHash with
      | None => ruleError ErrMissingTx
      | Some txEntry =>
          if IsOutputSpent txEntry originTxIndex then ruleError ErrMissingTx
          else
            '(pkScript, txEntry) ← asserted (PkScriptByIndex txEntry originTxIndex);
            let utxoView := set_entry utxoView originTxHash txEntry in
            let pkScript := default [] pkScript in
            if negb (IsPayToScriptHash pkScript) then p2sh_sigops utxoView totalSigOps rest
            else
              let numSigOps := GetPreciseSigOpCount (SignatureScript txIn) pkScript true in
              let lastSigOps := totalSigOps in
              let totalSigOps := i64 (totalSigOps + numSigOps) in
              if totalSigOps <? lastSigOps then ruleError ErrTooManySigOps
              else p2sh_sigops utxoView totalSigOps rest
      end
  end.

Definition CountP2SHSigOps (tx : MsgTx) (isCoinBaseTx : bool) (utxoView : UtxoViewpoint)
    : res error (Z * UtxoViewpoint) :=
  if isCoinBaseTx then Ok (0, utxoView) else p2sh_sigops utxoView 0 (tx_TxIn tx).

(** * The inputs of a transaction *)

(** An input that spends an admin thread; the result is [hasAdminIn]. *)
Definition check_thread_in (tx : MsgTx) (hasAdminOut hasAdminIn : bool) (txInIndex : Z) (originPkScript : bytes)
    : res error bool :=
  first ← idx (tx_TxOut tx) 0;
  let thisPkScript := PkScript first in
  hasAdminIn ← (if bool_decide (GetScriptClass originPkScript = ProvaAdminTy) then
                  if negb (txInIndex =? 0) then ruleError ErrInvalidAdminTx
                  else if negb hasAdminOut then ruleError ErrInvalidAdminTx
                  else
                    a0 ← idx thisPkScript 0;
                    b0 ← idx originPkScript 0;
                    if negb (a0 =? b0) then ruleError ErrInvalidAdminTx
                    else
                      a1 ← idx thisPkScript 1;
                      b1 ← idx originPkScript 1;
                      if negb (a1 =? b1) then ruleError ErrInvalidAdminTx else Ok true
                else Ok hasAdminIn);
  if hasAdminOut && negb hasAdminIn then ruleError ErrInvalidAdminTx else Ok hasAdminIn.

Fixpoint check_inputs (tx : MsgTx) (hasAdminOut : bool) (txHeight : Z) (chainParams : Params)
    (utxoView : UtxoViewpoint) (hasAdminIn : bool) (txInIndex totalAtomsIn : Z) (ins : list TxIn)
    : res error (Z * UtxoViewpoint) :=
  match ins with
  | [] => Ok (totalAtomsIn, utxoView)
  | txIn :: rest =>
      let originTxHash := Hash (PreviousOutPoint txIn) in
      let originTxIndex := Index (PreviousOutPoint txIn) in
      match LookupEntry utxoView originTxHash with
      | None => ruleError ErrMissingTx
      | Some utxoEntry =>
          '(originPkScript, utxoEntry) ← asserted (PkScriptByIndex utxoEntry originTxIndex);
          hasAdminIn ← check_thread_in tx hasAdminOut hasAdminIn txInIndex (default [] originPkScript);
          if ent_isCoinBase utxoEntry &&
             (u32 (txHeight - ent_blockHeight utxoEntry) <? u32 (CoinbaseMaturity chainParams))
          then ruleError ErrImmatureSpend
          else if IsOutputSpent utxoEntry originTxIndex then ruleError ErrDoubleSpend
          else
            '(originTxAtoms, utxoEntry) ← asserted (AmountByIndex utxoEntry originTxIndex);
            if originTxAtoms <? 0 then ruleError ErrBadTxOutValue
            else if MaxAtoms <? originTxAtoms then ruleError ErrBadTxOutValue
            else
              let lastAtomsIn := totalAtomsIn in
              let totalAtomsIn := i64 (totalAtomsIn + originTxAtoms) in
              if (totalAtomsIn <? lastAtomsIn) || (MaxAtoms <? totalAtomsIn) then ruleError ErrBadTxOutValue
              else check_inputs tx hasAdminOut txHeight chainParams (set_entry utxoView originTxHash utxoEntry)
                     hasAdminIn (txInIndex + 1) totalAtomsIn rest
      end
  end.

(** The total of the outputs; the accumulator is 64 bits wide. *)
Definition atoms_out (outs : list TxOut) : Z := fold_left (fun n txOut => i64 (n + Value txOut)) outs 0.

Definition CheckTransactionInputs (tx : MsgTx) (txHeight : Z) (utxoView : UtxoViewpoint) (chainParams : Params)
    : res error (Z * UtxoViewpoint) :=
  if IsCoinBase tx then Ok (0, utxoView)
  else
    let threadInt := (GetAdminDetailsMsgTx tx).1 in
    let hasAdminOut := 0 <=? threadInt in
    '(totalAtomsIn, utxoView) ←
      check_inputs tx hasAdminOut txHeight chainParams utxoView false 0 0 (tx_TxIn tx);
    let totalAtomsOut := atoms_out (tx_TxOut tx) in
    let isIssueThread := hasAdminOut && (u8 threadInt =? IssueThread) in
    let isDestruction := isIssueThread && (1 <? len (tx_TxIn tx)) in
    if (totalAtomsIn <? totalAtomsOut) && (negb isIssueThread || isDestruction) then ruleError ErrSpendTooHigh
    else
      let txFeeInAtoms := i64 (totalAtomsIn - totalAtomsOut) in
      let txFeeInAtoms := if isIssueThread && (txFeeInAtoms <? 0) then 0 else txFeeInAtoms in
      if MaximumFeeAmount chainParams <? txFeeInAtoms then ruleError ErrFeeTooHigh
      else Ok (txFeeInAtoms, utxoView).

(** * The outputs of a transaction *)
Definition CheckProvaOutput (keyIDs : list Z) (keyView : KeyViewpoint) : res error unit :=
  if forallb (fun keyID => match get_key (aspKeyIdMap keyView) keyID with Some _ => true | None => false end) keyIDs
  then Ok tt else ruleError ErrInvalidTx.

Fixpoint check_prova_outs (keyView : KeyViewpoint) (hasNullDataOutput : bool) (outs : list TxOut)
    : res error unit :=
  match outs with
  | [] => Ok tt
  | txOut :: rest =>
      output ← or_rule ErrInvalidTx (ParseScript (PkScript txOut));
      if (Value txOut =? 0) && bool_decide (TypeOfScript output = NullDataTy) then
        if hasNullDataOutput then ruleError ErrInvalidTx else check_prova_outs keyView true rest
      else
        keyIDs ← or_rule ErrInvalidTx (ExtractKeyIDs output);
        _ ← CheckProvaOutput keyIDs keyView;
        check_prova_outs keyView hasNullDataOutput rest
  end.

Fixpoint check_issue_outs (keyView : KeyViewpoint) (adminOutputs : list (list parsedOpcode)) : res error unit :=
  match adminOutputs with
  | [] => Ok tt
  | output :: rest =>
      _ ← (if 2 <? len output then
             keyIDs ← or_rule ErrInvalidTx (ExtractKeyIDs output);
             CheckProvaOutput keyIDs keyView
           else Ok tt);
      check_issue_outs keyView rest
  end.

(** Adding and revoking a key of a key set. *)
Definition check_set_op (keyView : KeyViewpoint) (chainParams : Params) (isAddOp : bool)
    (keySetType : KeySetType) (pubKey : option PublicKey) : res error unit :=
  let keySet := key_set keyView keySetType in
  pos ← Pos keySet pubKey;
  if isAddOp then
    if 0 <=? pos then ruleError ErrInvalidAdminOp
    else if MaxAdminKeySetSize <=? len keySet then ruleError ErrInvalidAdminOp else Ok tt
  else if pos =? -1 then ruleError ErrInvalidAdminOp
  else
    let minLen := if bool_decide (keySetType = ValidateKeySet) then MinValidateKeySetSize chainParams else 0 in
    if len keySet <=? minLen then ruleError ErrInvalidAdminOp else Ok tt.

(** The operations of a transaction; [revokedMap] holds the key ids revoked so far. *)
Fixpoint check_admin_ops (keyView : KeyViewpoint) (chainParams : Params) (lastKeyId : Z) (revokedMap : list Z)
    (adminOutputs : list (list parsedOpcode)) : res error unit :=
  match adminOutputs with
  | [] => Ok tt
  | out :: rest =>
      '(isAddOp, keySetType, pubKey, keyID) ← ExtractAdminOpData out;
      if bool_decide (keySetType = ASPKeySet) then
        if (isAddOp : bool) then
          let lastKeyId := u32 (lastKeyId + 1) in
          match get_key (aspKeyIdMap keyView) keyID with
          | Some _ => ruleError ErrInvalidAdminOp
          | None =>
              if negb (keyID =? lastKeyId) then ruleError ErrInvalidAdminOp
              else check_admin_ops keyView chainParams lastKeyId revokedMap rest
          end
        else
          match get_key (aspKeyIdMap keyView) keyID with
          | None => ruleError ErrInvalidAdminOp
          | Some key =>
              if bool_decide (keyID ∈ revokedMap) then ruleError ErrInvalidAdminOp
              else
                match pubKey with
                | None => Panic
                | Some k =>
                    if negb (IsEqual key k) then ruleError ErrInvalidAdminOp
                    else check_admin_ops keyView chainParams lastKeyId (keyID :: revokedMap) rest
                end
          end
      else
        _ ← check_set_op keyView chainParams isAddOp keySetType pubKey;
        check_admin_ops keyView chainParams lastKeyId revokedMap rest
  end.

Definition CheckTransactionOutputs (tx : MsgTx) (keyView : KeyViewpoint) (chainParams : Params) : res error unit :=
  let '(threadInt, adminOutputs) := GetAdminDetailsMsgTx tx in
  if negb (0 <=? threadInt) then check_prova_outs keyView false (tx_TxOut tx)
  else if u8 threadInt =? IssueThread then check_issue_outs keyView adminOutputs
  else check_admin_ops keyView chainParams (lastKeyID keyView) [] adminOutputs.

End Validate.
