(* ===== verification/ChainIO.v ===== *)
(** The chain state in the database: [src/blockchain/chainio.go].

    Part one is the formats: the spend journal, the utxo entries, the key sets
    and the best state.  Part two is the functions that read and write them in a
    transaction.  [sort.Ints] is stdpp's [merge_sort].  A range over a map
    visits the pairs in the order of [map_to_list]; that the results do not
    depend on the order is part of what is proved of them.  A nil slice that is
    stored is an empty value. *)
From S2P Require Import Prelude PubKey Wire Crypto Script Standard Compress SigCache Utxo GoTime Header MsgBlock Database.
From S2P Require Import Params KeyView Validate.
From stdpp Require Import sorting.
Import btcec wire Crypto Script Standard Compress Utxo Header Params KeyView Validate.
#[local] Open Scope Z_scope.

Module ChainIO.

Definition hashIndexBucketName : bytes := [104; 97; 115; 104; 105; 100; 120].
Definition heightIndexBucketName : bytes := [104; 101; 105; 103; 104; 116; 105; 100; 120].
Definition chainStateKeyName : bytes := [99; 104; 97; 105; 110; 115; 116; 97; 116; 101].
Definition spendJournalBucketName : bytes := [115; 112; 101; 110; 100; 106; 111; 117; 114; 110; 97; 108].
Definition utxoSetBucketName : bytes := [117; 116; 120; 111; 115; 101; 116].
Definition keySetBucketName : bytes := [107; 101; 121; 115; 101; 116].

Definition isNotInMainChainErr (err : error) : bool := match err with errNotInMainChain _ => true | _ => false end.
Definition isDeserializeErr (err : error) : bool := match err with errDeserialize _ => true | _ => false end.

(** A call that writes through [target[offset:]]. *)
Definition at_offset (target : bytes) (offset : Z) (put : bytes -> res string (bytes * Z)) : res string (bytes * Z) :=
  tl ← slice target offset (len target);
  '(tl, n) ← put tl;
  Ok (take (Z.to_nat offset) target ++ tl, offset + n).

(** * The spend journal *)
Definition spentTxOutHeaderCode (stxo : spentTxOut) : Z :=
  if stxo_height stxo =? 0 then 0
  else
    let headerCode := u64 (stxo_height stxo ≪ 1) in
    if stxo_isCoinBase stxo then Z.lor headerCode 0x01 else headerCode.

Definition spentTxOutSerializeSize (stxo : spentTxOut) : res string Z :=
  let headerCode := spentTxOutHeaderCode stxo in
  size ← serializeSizeVLQ headerCode;
  size ← (if negb (headerCode =? 0) then n ← serializeSizeVLQ (u64 (stxo_version stxo)); Ok (size + n) else Ok size);
  n ← compressedTxOutSize (u64 (stxo_amount stxo)) (default [] (stxo_pkScript stxo)) (stxo_compressed stxo);
  Ok (size + n).

Definition putSpentTxOut (target : bytes) (stxo : spentTxOut) : res string (bytes * Z) :=
  let headerCode := spentTxOutHeaderCode stxo in
  '(target, offset) ← putVLQ target headerCode;
  '(target, offset) ← (if negb (headerCode =? 0)
                       then at_offset target offset (fun t => putVLQ t (u64 (stxo_version stxo)))
                       else Ok (target, offset));
  at_offset target offset (fun t =>
    putCompressedTxOut t (u64 (stxo_amount stxo)) (default [] (stxo_pkScript stxo)) (stxo_compressed stxo)).

(** The zero value, which the entries of a fresh slice have. *)
Definition zero_stxo : spentTxOut := mkSpentTxOut false 0 0 None 0 false.

(** The compressed output at the end of an entry. *)
Definition decode_stxo_out (serialized : bytes) (offset version height : Z) (isCoinBase : bool)
    : res error (spentTxOut * Z) :=
  tl ← slice serialized offset (len serialized);
  match decodeCompressedTxOut tl with
  | Ok (compAmount, compScript, bytesRead) =>
      Ok (mkSpentTxOut true version (i64 compAmount) (Some compScript) height isCoinBase, offset + bytesRead)
  | Err _ => Err (errDeserialize "unable to decode txout")
  | Panic => Panic
  | Hang => Hang
  end.

Definition decodeSpentTxOut (serialized : bytes) (stxo : spentTxOut) (txVersion : Z) : res error (spentTxOut * Z) :=
  if len serialized =? 0 then Err (errDeserialize "no serialized bytes")
  else
    let '(code, offset) := deserializeVLQ serialized in
    if len serialized <=? offset then Err (errDeserialize "unexpected end of data after header code")
    else if negb (code =? 0) then
      tl ← slice serialized offset (len serialized);
      let '(version, bytesRead) := deserializeVLQ tl in
      let offset := offset + bytesRead in
      if len serialized <=? offset then Err (errDeserialize "unexpected end of data after version")
      else decode_stxo_out serialized offset (i32 version) (u32 (code ≫ 1)) (negb (Z.land code 0x01 =? 0))
    else if txVersion =? 0 then Err (AssertError "decodeSpentTxOut called without a containing tx version")
    else decode_stxo_out serialized offset txVersion (stxo_height stxo) (stxo_isCoinBase stxo).

(** The inputs of a transaction, the last one first. *)
Fixpoint read_stxos (serialized : bytes) (view : UtxoViewpoint) (rev_ins : list TxIn)
    (st : Z * gmap bytes Z * Z * list spentTxOut) : res error (Z * gmap bytes Z * Z * list spentTxOut) :=
  match rev_ins with
  | [] => Ok st
  | txIn :: rest =>
      let '(stxoIdx, stxoInFlight, offset, stxos) := st in
      stxo ← idx stxos stxoIdx;
      let originHash := Hash (PreviousOutPoint txIn) in
      '(txVersion, stxoInFlight) ←
        match LookupEntry view originHash with
        | Some entry => Ok (ent_version entry, stxoInFlight)
        | None =>
            match stxoInFlight !! originHash with
            | Some i => s ← idx stxos i; Ok (stxo_version s, stxoInFlight)
            | None => Ok (0, <[originHash := stxoIdx]> stxoInFlight)
            end
        end;
      tl ← slice serialized offset (len serialized);
      match decodeSpentTxOut tl stxo txVersion with
      | Ok (stxo, n) =>
          stxos ← set_idx stxos stxoIdx stxo;
          read_stxos serialized view rest (stxoIdx - 1, stxoInFlight, offset + n, stxos)
      | Err _ => Err (errDeserialize "unable to decode stxo")
      | Panic => Panic
      | Hang => Hang
      end
  end.

Fixpoint read_journal (serialized : bytes) (view : UtxoViewpoint) (rev_txns : list MsgTx)
    (st : Z * gmap bytes Z * Z * list spentTxOut) : res error (Z * gmap bytes Z * Z * list spentTxOut) :=
  match rev_txns with
  | [] => Ok st
  | tx :: rest => st ← read_stxos serialized view (reverse (tx_TxIn tx)) st; read_journal serialized view rest st
  end.

Definition deserializeSpendJournalEntry (serialized : bytes) (txns : list MsgTx) (view : UtxoViewpoint)
    : res error (list spentTxOut) :=
  let numStxos := fold_left (fun n tx => n + len (tx_TxIn tx)) txns 0 in
  if len serialized =? 0 then
    if negb (numStxos =? 0) then Err (AssertError "mismatched spend journal serialization") else Ok []
  else
    '(_, _, _, stxos) ← read_journal serialized view (reverse txns)
                          (numStxos - 1, ∅, 0, replicate (Z.to_nat numStxos) zero_stxo);
    Ok stxos.

Fixpoint journal_size (stxos : list spentTxOut) (size : Z) : res string Z :=
  match stxos with
  | [] => Ok size
  | stxo :: rest => n ← spentTxOutSerializeSize stxo; journal_size rest (size + n)
  end.

(** The entries, the last one first. *)
Fixpoint put_stxos (rev_stxos : list spentTxOut) (serialized : bytes) (offset : Z) : res string bytes :=
  match rev_stxos with
  | [] => Ok serialized
  | stxo :: rest =>
      '(serialized, offset) ← at_offset serialized offset (fun t => putSpentTxOut t stxo);
      put_stxos rest serialized offset
  end.

Definition serializeSpendJournalEntry (stxos : list spentTxOut) : res string bytes :=
  if len stxos =? 0 then Ok []
  else
    size ← journal_size stxos 0;
    serialized ← make_bytes size;
    put_stxos (reverse stxos) serialized 0.

(** * Utxo entries *)
Definition utxoEntryHeaderCode (entry : UtxoEntry) (highestOutputIndex : Z) : res error (Z * Z) :=
  let numBitmapBytes := u32 (highestOutputIndex + 6) / 8 in
  let output0Unspent := negb (IsOutputSpent entry 0) in
  let output1Unspent := negb (IsOutputSpent entry 1) in
  let none := negb output0Unspent && negb output1Unspent in
  if none && (numBitmapBytes =? 0)
  then Err (AssertError "attempt to serialize utxo header for fully spent transaction")
  else
    let headerCode := u64 (u64 (numBitmapBytes - (if none then 1 else 0)) ≪ 3) in
    let headerCode := if ent_isCoinBase entry then Z.lor headerCode 0x01 else headerCode in
    let headerCode := if output0Unspent then Z.lor headerCode 0x02 else headerCode in
    let headerCode := if output1Unspent then Z.lor headerCode 0x04 else headerCode in
    Ok (headerCode, numBitmapBytes).

Definition output_order (entry : UtxoEntry) : list Z :=
  merge_sort Z.le (map fst (map_to_list (sparseOutputs entry))).

Fixpoint outputs_size (entry : UtxoEntry) (outputOrder : list Z) (size : Z) : res string Z :=
  match outputOrder with
  | [] => Ok size
  | outputIndex :: rest =>
      match sparseOutputs entry !! u32 outputIndex with
      | None => Panic
      | Some out =>
          if out_spent out then outputs_size entry rest size
          else
            n ← compressedTxOutSize (u64 (out_amount out)) (default [] (out_pkScript out)) (out_compressed out);
            outputs_size entry rest (size + n)
      end
  end.

(** The eight outputs of one byte of the bitmap, from bit [j] on. *)
Fixpoint unspent_bits (entry : UtxoEntry) (i : Z) (n : nat) (j unspentBits : Z) : Z :=
  match n with
  | O => unspentBits
  | S n =>
      let unspentBits := if negb (IsOutputSpent entry (u32 (2 + i * 8 + j)))
                         then Z.lor unspentBits (u8 (1 ≪ j)) else unspentBits in
      unspent_bits entry i n (j + 1) unspentBits
  end.

Fixpoint put_bitmap (entry : UtxoEntry) (n : nat) (i : Z) (serialized : bytes) (offset : Z) : res string (bytes * Z) :=
  match n with
  | O => Ok (serialized, offset)
  | S n =>
      serialized ← set_idx serialized offset (unspent_bits entry i 8 0 0);
      put_bitmap entry n (i + 1) serialized (offset + 1)
  end.

Fixpoint put_outputs (entry : UtxoEntry) (outputOrder : list Z) (serialized : bytes) (offset : Z) : res string bytes :=
  match outputOrder with
  | [] => Ok serialized
  | outputIndex :: rest =>
      match sparseOutputs entry !! u32 outputIndex with
      | None => Panic
      | Some out =>
          if out_spent out then put_outputs entry rest serialized offset
          else
            '(serialized, offset) ← at_offset serialized offset (fun t =>
               putCompressedTxOut t (u64 (out_amount out)) (default [] (out_pkScript out)) (out_compressed out));
            put_outputs entry rest serialized offset
      end
  end.

(** [None] is the nil slice of a fully spent entry. *)
Definition serializeUtxoEntry (entry : UtxoEntry) : res error (option bytes) :=
  if IsFullySpent entry then Ok None
  else
    let outputOrder := output_order entry in
    highIndex ← idx outputOrder (len outputOrder - 1);
    '(headerCode, numBitmapBytes) ← utxoEntryHeaderCode entry (u32 highIndex);
    asserted (
      a ← serializeSizeVLQ (u64 (ent_version entry));
      b ← serializeSizeVLQ (ent_blockHeight entry);
      c ← serializeSizeVLQ headerCode;
      size ← outputs_size entry outputOrder (a + b + c + numBitmapBytes);
      serialized ← make_bytes size;
      '(serialized, offset) ← putVLQ serialized (u64 (ent_version entry));
      '(serialized, offset) ← at_offset serialized offset (fun t => putVLQ t (ent_blockHeight entry));
      '(serialized, offset) ← at_offset serialized offset (fun t => putVLQ t headerCode);
      '(serialized, offset) ← put_bitmap entry (Z.to_nat numBitmapBytes) 0 serialized offset;
      serialized ← put_outputs entry outputOrder serialized offset;
      Ok (Some serialized)).

(** The outputs that the bits from bit [j] on name. *)
Fixpoint bit_indexes (i : Z) (n : nat) (j unspentBits : Z) : list Z :=
  match n with
  | O => []
  | S n =>
      (if negb (Z.land unspentBits 0x01 =? 0) then [u32 (2 + i * 8 + j)] else []) ++
      bit_indexes i n (j + 1) (unspentBits ≫ 1)
  end.

Fixpoint bitmap_indexes (serialized : bytes) (n : nat) (i offset : Z) : res error (list Z * Z) :=
  match n with
  | O => Ok ([], offset)
  | S n =>
      unspentBits ← idx serialized offset;
      '(rest, offset) ← bitmap_indexes serialized n (i + 1) (offset + 1);
      Ok (bit_indexes i 8 0 unspentBits ++ rest, offset)
  end.

Fixpoint read_outputs (serialized : bytes) (offset : Z) (outputIndexes : list Z) (outs : gmap Z utxoOutput)
    : res error (gmap Z utxoOutput) :=
  match outputIndexes with
  | [] => Ok outs
  | outputIndex :: rest =>
      tl ← slice serialized offset (len serialized);
      match decodeCompressedTxOut tl with
      | Ok (compAmount, compScript, bytesRead) =>
          read_outputs serialized (offset + bytesRead) rest
            (<[outputIndex := mkUtxoOutput false true (i64 compAmount) (Some compScript)]> outs)
      | Err _ => Err (errDeserialize "unable to decode utxo")
      | Panic => Panic
      | Hang => Hang
      end
  end.

Definition deserializeUtxoEntry (serialized : bytes) : res error UtxoEntry :=
  let '(version, bytesRead) := deserializeVLQ serialized in
  let offset := bytesRead in
  if len serialized <=? offset then Err (errDeserialize "unexpected end of data after version")
  else
    tl ← slice serialized offset (len serialized);
    let '(blockHeight, bytesRead) := deserializeVLQ tl in
    let offset := offset + bytesRead in
    if len serialized <=? offset then Err (errDeserialize "unexpected end of data after height")
    else
      tl ← slice serialized offset (len serialized);
      let '(code, bytesRead) := deserializeVLQ tl in
      let offset := offset + bytesRead in
      if len serialized <=? offset then Err (errDeserialize "unexpected end of data after header")
      else
        let isCoinBase := negb (Z.land code 0x01 =? 0) in
        let output0Unspent := negb (Z.land code 0x02 =? 0) in
        let output1Unspent := negb (Z.land code 0x04 =? 0) in
        let numBitmapBytes := code ≫ 3 in
        let numBitmapBytes := if negb output0Unspent && negb output1Unspent
                              then u64 (numBitmapBytes + 1) else numBitmapBytes in
        if len serialized - offset <? numBitmapBytes
        then Err (errDeserialize "unexpected end of data for unspentness bitmap")
        else
          let entry := newUtxoEntry (i32 version) isCoinBase (u32 blockHeight) in
          let outputIndexes := (if output0Unspent then [0] else []) ++ (if output1Unspent then [1] else []) in
          '(more, offset) ← bitmap_indexes serialized (Z.to_nat (u32 numBitmapBytes)) 0 offset;
          outs ← read_outputs serialized offset (outputIndexes ++ more) (sparseOutputs entry);
          Ok (set_sparseOutputs entry outs).

(** * The key sets *)
Definition adminKeysOrder : list KeySetType := [RootKeySet; ProvisionKeySet; IssueKeySet; ValidateKeySet].
Definition threadOrder : list Z := [RootThread; ProvisionThread; IssueThread].

(** [byteOrder.PutUint32(target[offset:], v)] and its 64-bit version. *)
Definition PutUint {E} (n : nat) (target : bytes) (offset v : Z) : res E bytes :=
  tl ← slice target offset (len target);
  if len tl <? Z.of_nat n then Panic else copy_at target offset (le_encode n v).

(** [byteOrder.Uint32(serialized[offset : offset+4])] and its 64-bit version. *)
Definition GetUint {E} (n : nat) (serialized : bytes) (offset : Z) : res E Z :=
  b ← slice serialized offset (offset + Z.of_nat n); Ok (le_decode b).

Definition set_of (adminKeySets : gmap KeySetType PublicKeySet) (t : KeySetType) : PublicKeySet :=
  default [] (adminKeySets !! t).

Definition keySetSize (adminKeySets : gmap KeySetType PublicKeySet) (aspKeyIdMap : KeyIdMap) : Z :=
  let serializedLen := u32 (3 * (HashSize + 4) + KeyIDSize + 8) in
  let serializedLen := fold_left (fun n t =>
    u32 (u32 (n + 4) + u32 (len (set_of adminKeySets t) * PubKeyBytesLenCompressed))) adminKeysOrder serializedLen in
  u32 (serializedLen + u32 (4 + u32 (Z.of_nat (size aspKeyIdMap) * (4 + PubKeyBytesLenCompressed)))).

Fixpoint put_tips (threadTips : gmap Z OutPoint) (threads : list Z) (data : bytes) (offset : Z)
    : res string (bytes * Z) :=
  match threads with
  | [] => Ok (data, offset)
  | threadId :: rest =>
      match threadTips !! threadId with
      | Some tip =>
          data ← copy_at data offset (Hash tip);
          data ← PutUint 4 data (offset + HashSize) (Index tip);
          put_tips threadTips rest data (offset + HashSize + 4)
      | None => put_tips threadTips rest data (offset + HashSize + 4)
      end
  end.

Fixpoint put_keys (keys : list PublicKey) (data : bytes) (offset : Z) : res string (bytes * Z) :=
  match keys with
  | [] => Ok (data, offset)
  | key :: rest =>
      data ← copy_at data offset (SerializeCompressed key);
      put_keys rest data (offset + PubKeyBytesLenCompressed)
  end.

Fixpoint put_sets (adminKeySets : gmap KeySetType PublicKeySet) (order : list KeySetType) (data : bytes) (offset : Z)
    : res string (bytes * Z) :=
  match order with
  | [] => Ok (data, offset)
  | keySet :: rest =>
      data ← PutUint 4 data offset (u32 (len (set_of adminKeySets keySet)));
      '(data, offset) ← put_keys (set_of adminKeySets keySet) data (offset + 4);
      put_sets adminKeySets rest data offset
  end.

Fixpoint put_key_ids (aspKeyIdMap : KeyIdMap) (keyIDs : list Z) (data : bytes) (offset : Z) : res string (bytes * Z) :=
  match keyIDs with
  | [] => Ok (data, offset)
  | keyID :: rest =>
      data ← PutUint 4 data offset (u32 keyID);
      match get_key aspKeyIdMap (u32 keyID) with
      | None => Panic
      | Some pubKey =>
          data ← copy_at data (offset + 4) (SerializeCompressed pubKey);
          put_key_ids aspKeyIdMap rest data (offset + 4 + PubKeyBytesLenCompressed)
      end
  end.

Definition serializeKeySet (adminKeySets : gmap KeySetType PublicKeySet) (aspKeyIdMap : KeyIdMap)
    (threadTips : gmap Z OutPoint) (lastKeyID totalSupply : Z) : res string bytes :=
  data ← make_bytes (keySetSize adminKeySets aspKeyIdMap);
  '(data, offset) ← put_tips threadTips threadOrder data 0;
  data ← PutUint 4 data offset lastKeyID;
  data ← PutUint 8 data (offset + KeyIDSize) totalSupply;
  '(data, offset) ← put_sets adminKeySets adminKeysOrder data (offset + KeyIDSize + 8);
  data ← PutUint 4 data offset (u32 (Z.of_nat (size aspKeyIdMap)));
  let keyIDs := merge_sort Z.le (map fst (map_to_list aspKeyIdMap)) in
  '(data, _) ← put_key_ids aspKeyIdMap keyIDs data (offset + 4);
  Ok data.

Definition corrupt {A} : res error A := Err (DatabaseError Database.ErrCorruption).

(** [NewHash] never fails on 32 bytes. *)
Fixpoint get_tips (serialized : bytes) (threads : list Z) (offset : Z) (tips : gmap Z OutPoint)
    : res error (gmap Z OutPoint * Z) :=
  match threads with
  | [] => Ok (tips, offset)
  | threadId :: rest =>
      hash ← slice serialized offset (offset + HashSize);
      index ← GetUint 4 serialized (offset + HashSize);
      get_tips serialized rest (offset + HashSize + 4) (<[threadId := mkOutPoint hash index]> tips)
  end.

(** The error of [ParsePubKey] is dropped. *)
Definition parse_at (serialized : bytes) (offset : Z) : res error (option PublicKey) :=
  b ← slice serialized offset (offset + PubKeyBytesLenCompressed);
  match ParsePubKey b with
  | Ok key => Ok (Some key)
  | Err _ => Ok None
  | Panic => Panic
  | Hang => Hang
  end.

(** Copying the key out of a nil pointer panics. *)
Fixpoint get_keys (serialized : bytes) (n : nat) (offset : Z) : res error (list PublicKey * Z) :=
  match n with
  | O => Ok ([], offset)
  | S n =>
      pubKey ← parse_at serialized offset;
      match pubKey with
      | None => Panic
      | Some key =>
          '(keys, offset) ← get_keys serialized n (offset + PubKeyBytesLenCompressed);
          Ok (key :: keys, offset)
      end
  end.

Fixpoint get_sets (serialized : bytes) (order : list KeySetType) (offset : Z) (sets : gmap KeySetType PublicKeySet)
    : res error (gmap KeySetType PublicKeySet * Z) :=
  match order with
  | [] => Ok (sets, offset)
  | keySet :: rest =>
      tl ← slice serialized offset (len serialized);
      if len tl <? 4 then corrupt
      else
        keySetLength ← GetUint 4 serialized offset;
        tl ← slice serialized (offset + 4) (len serialized);
        if u32 (len tl) <? u32 (keySetLength * PubKeyBytesLenCompressed) then corrupt
        else
          '(keys, offset) ← get_keys serialized (Z.to_nat keySetLength) (offset + 4);
          get_sets serialized rest offset (<[keySet := keys]> sets)
  end.

Fixpoint get_key_ids (serialized : bytes) (n : nat) (offset : Z) (m : KeyIdMap) : res error KeyIdMap :=
  match n with
  | O => Ok m
  | S n =>
      keyID ← GetUint 4 serialized offset;
      pubKey ← parse_at serialized (offset + 4);
      get_key_ids serialized n (offset + 4 + PubKeyBytesLenCompressed) (<[keyID := pubKey]> m)
  end.

Definition deserializeKeySet (serialized : bytes)
    : res error (gmap KeySetType PublicKeySet * KeyIdMap * gmap Z OutPoint * Z * Z) :=
  if len serialized <? 3 * (HashSize + 4) + KeyIDSize + 8 then corrupt
  else
    '(threadTips, offset) ← get_tips serialized threadOrder 0 ∅;
    lastKeyID ← GetUint 4 serialized offset;
    totalSupply ← GetUint 8 serialized (offset + KeyIDSize);
    '(adminKeys, offset) ← get_sets serialized adminKeysOrder (offset + KeyIDSize + 8) ∅;
    tl ← slice serialized offset (len serialized);
    if len tl <? 4 then corrupt
    else
      keyIdMapLen ← GetUint 4 serialized offset;
      tl ← slice serialized (offset + 4) (len serialized);
      if u32 (len tl) <? u32 (keyIdMapLen * (4 + PubKeyBytesLenCompressed)) then corrupt
      else
        aspKeyIdMap ← get_key_ids serialized (Z.to_nat keyIdMapLen) (offset + 4) ∅;
        Ok (adminKeys, aspKeyIdMap, threadTips, lastKeyID, totalSupply).

(** * The best state *)
Record bestChainState := mkBestChainState {
  best_hash : bytes; best_height : Z; best_totalTxns : Z; best_workSum : Z }.

(** [Bytes] of a big integer gives its absolute value. *)
Definition serializeBestChainState (state : bestChainState) : res string bytes :=
  let workSumBytes := bigBytes (Z.abs (best_workSum state)) in
  let workSumBytesLen := u32 (len workSumBytes) in
  data ← make_bytes (u32 (HashSize + 4 + 8 + 4 + workSumBytesLen));
  data ← copy_range data 0 HashSize (best_hash state);
  data ← PutUint 4 data HashSize (best_height state);
  data ← PutUint 8 data (HashSize + 4) (best_totalTxns state);
  data ← PutUint 4 data (HashSize + 12) workSumBytesLen;
  copy_at data (HashSize + 16) workSumBytes.

Definition deserializeBestChainState (serialized : bytes) : res error bestChainState :=
  if len serialized <? HashSize + 16 then corrupt
  else
    hash ← slice serialized 0 HashSize;
    height ← GetUint 4 serialized HashSize;
    totalTxns ← GetUint 8 serialized (HashSize + 4);
    workSumBytesLen ← GetUint 4 serialized (HashSize + 12);
    tl ← slice serialized (HashSize + 16) (len serialized);
    if u32 (len tl) <? workSumBytesLen then corrupt
    else
      workSumBytes ← slice serialized (HashSize + 16) (u32 (HashSize + 16 + workSumBytesLen));
      Ok (mkBestChainState hash height totalTxns (be_decode workSumBytes)).

(** * Reading and writing in a transaction *)

(** An error of the database. *)
Definition db_err {A} (m : res Database.ErrorCode A) : res error A :=
  match m with Ok a => Ok a | Err c => Err (DatabaseError c) | Panic => Panic | Hang => Hang end.

(** An error of package wire. *)
Definition other {A} (m : res string A) : res error A :=
  match m with Ok a => Ok a | Err s => Err (OtherError s) | Panic => Panic | Hang => Hang end.

(** A deserialization error, reported as corruption of the database. *)
Definition or_corrupt {A} (m : res error A) : res error A :=
  match m with Err e => if isDeserializeErr e then corrupt else Err e | _ => m end.

Definition dbPutSpendJournalEntry (db : Database.DB) (blockHash : bytes) (stxos : list spentTxOut)
    : res error Database.DB :=
  serialized ← asserted (serializeSpendJournalEntry stxos);
  db_err (Database.bucket_Put db spendJournalBucketName blockHash serialized).

Definition dbRemoveSpendJournalEntry (db : Database.DB) (blockHash : bytes) : res error Database.DB :=
  db_err (Database.bucket_Delete db spendJournalBucketName blockHash).

Definition dbFetchSpendJournalEntry (db : Database.DB) (block : Utxo.Block) (view : UtxoViewpoint)
    : res error (list spentTxOut) :=
  serialized ← Database.bucket_Get db spendJournalBucketName (Utxo.BlockHash block);
  blockTxns ← slice (Transactions block) 1 (len (Transactions block));
  or_corrupt (deserializeSpendJournalEntry (default [] serialized) blockTxns view).

Definition dbFetchUtxoEntry (db : Database.DB) (hash : bytes) : res error (option UtxoEntry) :=
  serializedUtxo ← Database.bucket_Get db utxoSetBucketName hash;
  match serializedUtxo with
  | None => Ok None
  | Some s =>
      if len s =? 0 then Err (AssertError "database contains entry for fully spent tx")
      else entry ← or_corrupt (deserializeUtxoEntry s); Ok (Some entry)
  end.

(** One entry of the view. *)
Definition put_utxo_entry (db : Database.DB) (txHash : bytes) (entry : option UtxoEntry) : res error Database.DB :=
  match entry with
  | None => Ok db
  | Some e =>
      if negb (ent_modified e) then Ok db
      else
        serialized ← serializeUtxoEntry e;
        match serialized with
        | None => db_err (Database.bucket_Delete db utxoSetBucketName txHash)
        | Some s => db_err (Database.bucket_Put db utxoSetBucketName txHash s)
        end
  end.

Fixpoint put_utxo_entries (db : Database.DB) (l : list (bytes * option UtxoEntry)) : res error Database.DB :=
  match l with
  | [] => Ok db
  | (txHash, entry) :: rest => db ← put_utxo_entry db txHash entry; put_utxo_entries db rest
  end.

Definition dbPutUtxoView (db : Database.DB) (view : UtxoViewpoint) : res error Database.DB :=
  put_utxo_entries db (map_to_list (entries view)).

Definition dbPutBlockIndex (db : Database.DB) (hash : bytes) (height : Z) : res error Database.DB :=
  let serializedHeight := le_encode 4 height in
  db ← db_err (Database.bucket_Put db hashIndexBucketName hash serializedHeight);
  db_err (Database.bucket_Put db heightIndexBucketName serializedHeight hash).

Definition dbRemoveBlockIndex (db : Database.DB) (hash : bytes) (height : Z) : res error Database.DB :=
  db ← db_err (Database.bucket_Delete db hashIndexBucketName hash);
  db_err (Database.bucket_Delete db heightIndexBucketName (le_encode 4 height)).

(** [Uint32] of a shorter value panics. *)
Definition dbFetchHeightByHash (db : Database.DB) (hash : bytes) : res error Z :=
  serializedHeight ← Database.bucket_Get db hashIndexBucketName hash;
  match serializedHeight with
  | None => Err (errNotInMainChain "block is not in the main chain")
  | Some s => GetUint 4 s 0
  end.

Definition dbFetchHashByHeight (db : Database.DB) (height : Z) : res error bytes :=
  hashBytes ← Database.bucket_Get db heightIndexBucketName (le_encode 4 height);
  match hashBytes with
  | None => Err (errNotInMainChain "no block at this height exists")
  | Some b => copy_at (replicate 32 0) 0 b
  end.

Definition dbPutKeySet (db : Database.DB) (adminKeys : gmap KeySetType PublicKeySet) (keyIdMap : KeyIdMap)
    (threadTips : gmap Z OutPoint) (lastKeyID totalSupply : Z) : res error Database.DB :=
  serializedData ← other (serializeKeySet adminKeys keyIdMap threadTips lastKeyID totalSupply);
  db_err (Database.Put db keySetBucketName serializedData).

Definition dbFetchHeaderByHash (db : Database.DB) (hash : bytes) : res error BlockHeader :=
  headerBytes ← db_err (Database.FetchBlockHeader db hash);
  '(header, _) ← other (Header.Deserialize headerBytes);
  Ok header.

Definition dbFetchHeaderByHeight (db : Database.DB) (height : Z) : res error BlockHeader :=
  hash ← dbFetchHashByHeight db height; dbFetchHeaderByHash db hash.

Definition dbFetchBlockByHash (db : Database.DB) (hash : bytes) : res error MsgBlock.Block :=
  blockBytes ← db_err (Database.FetchBlock db hash); other (MsgBlock.NewBlockFromBytes blockBytes).

Definition dbFetchBlockByHeight (db : Database.DB) (height : Z) : res error MsgBlock.Block :=
  hash ← dbFetchHashByHeight db height;
  blockBytes ← db_err (Database.FetchBlock db hash); other (MsgBlock.NewBlockFromBytes blockBytes).

Definition dbMainChainHasBlock (db : Database.DB) (hash : bytes) : res error bool :=
  h ← Database.bucket_Get db hashIndexBucketName hash;
  Ok (match h with Some _ => true | None => false end).

(** * Loading a view *)

(** The requested hashes, in any order. *)
Fixpoint fetch_entries (db : Database.DB) (view : UtxoViewpoint) (txSet : list bytes) : res error UtxoViewpoint :=
  match txSet with
  | [] => Ok view
  | hash :: rest =>
      entry ← dbFetchUtxoEntry db hash;
      fetch_entries db (mkUtxoViewpoint (<[hash := entry]> (entries view)) (bestHash view)) rest
  end.

Definition fetchUtxosMain (view : UtxoViewpoint) (db : Database.DB) (txSet : gset bytes) : res error UtxoViewpoint :=
  fetch_entries db view (elements txSet).

Definition fetchUtxos (view : UtxoViewpoint) (db : Database.DB) (txSet : gset bytes) : res error UtxoViewpoint :=
  fetchUtxosMain view db (filter (fun hash => entries view !! hash = None) txSet).

(** [txInFlight]: the last position of every hash. *)
Definition txInFlight (txs : list MsgTx) : gmap bytes Z :=
  fold_left (fun m itx => <[SigCache.TxHash (snd itx) := fst itx]> m) (numbered txs) ∅.

(** The inputs of the transaction after position [i]. *)
Fixpoint needed_ins (block : Utxo.Block) (inFlight : gmap bytes Z) (i : Z) (ins : list TxIn)
    (st : UtxoViewpoint * gset bytes) : res error (UtxoViewpoint * gset bytes) :=
  match ins with
  | [] => Ok st
  | txIn :: rest =>
      let '(view, txNeededSet) := st in
      let originHash := Hash (PreviousOutPoint txIn) in
      match inFlight !! originHash with
      | Some inFlightIndex =>
          if inFlightIndex <=? i then
            originTx ← idx (Transactions block) inFlightIndex;
            needed_ins block inFlight i rest (AddTxOuts view originTx (Height block), txNeededSet)
          else
            needed_ins block inFlight i rest
              (view, if bool_decide (is_Some (entries view !! originHash)) then txNeededSet
                     else {[originHash]} ∪ txNeededSet)
      | None =>
          needed_ins block inFlight i rest
            (view, if bool_decide (is_Some (entries view !! originHash)) then txNeededSet
                   else {[originHash]} ∪ txNeededSet)
      end
  end.

Fixpoint needed_txs (block : Utxo.Block) (inFlight : gmap bytes Z) (i : Z) (txs : list MsgTx)
    (st : UtxoViewpoint * gset bytes) : res error (UtxoViewpoint * gset bytes) :=
  match txs with
  | [] => Ok st
  | tx :: rest => st ← needed_ins block inFlight i (tx_TxIn tx) st; needed_txs block inFlight (i + 1) rest st
  end.

Definition fetchInputUtxos (view : UtxoViewpoint) (db : Database.DB) (block : Utxo.Block) : res error UtxoViewpoint :=
  txs ← slice (Transactions block) 1 (len (Transactions block));
  '(view, txNeededSet) ← needed_txs block (txInFlight (Transactions block)) 0 txs (view, ∅);
  fetchUtxosMain view db txNeededSet.

End ChainIO.
