(* ===== verification/ChainIOSpec.v ===== *)
(** The formats of the chain state: what is written is read back. *)
From S2P Require Import Prelude PubKey SecpPrime Wire Crypto Script Standard Compress SigCache Utxo UtxoSpec GoTime Header.
From S2P Require Import MsgBlock Database Params KeyView Validate ChainIO.
From stdpp Require Import sorting.
Import btcec wire Crypto Script Standard Compress Utxo UtxoSpec Header Params KeyView Validate ChainIO.
#[local] Open Scope Z_scope.

Module ChainIOSpec.

(** * Writing into a buffer *)

(** [put] fills the front of its target with [enc]. *)
Definition writes (put : bytes -> res string (bytes * Z)) (enc : bytes) : Prop :=
  forall mid post, length mid = length enc -> put (mid ++ post) = Ok (enc ++ post, len enc).

Lemma slice_from {E A} (pre todo : list A) : @slice E A (pre ++ todo) (len pre) (len (pre ++ todo)) = Ok todo.
Proof.
  pose proof (@slice_prefix E A pre todo []) as Hs. rewrite app_nil_r in Hs. by rewrite len_app.
Qed.

Lemma writes_front put enc todo : writes put enc -> (length enc <= length todo)%nat ->
  put todo = Ok (enc ++ drop (length enc) todo, len enc).
Proof.
  intros Hw Hl. rewrite <- (take_drop (length enc) todo) at 1. apply Hw. rewrite length_take. lia.
Qed.

Lemma at_offset_writes put enc pre todo : writes put enc -> (length enc <= length todo)%nat ->
  at_offset (pre ++ todo) (len pre) put = Ok ((pre ++ enc) ++ drop (length enc) todo, len (pre ++ enc)).
Proof.
  intros Hw Hl. unfold at_offset. rewrite slice_from. cbn [mbind res_bind].
  rewrite (writes_front put enc) by done. cbn [mbind res_bind].
  unfold len at 1. by rewrite Nat2Z.id, take_app_length, <- app_assoc, len_app.
Qed.

Lemma writes_vlq n : is_u 64 n -> writes (fun t => putVLQ t n) (vlq n).
Proof. intros Hn mid post Hl. by apply putVLQ_spec. Qed.

(** * Stored outputs *)

(** The amount [a] and the script [s] that the fields of an output stand for. *)
Definition out_bounds (a : Z) (s : bytes) : Prop := 0 <= a /\ 9 * a < 2 ^ 64 /\ bytes_ok s /\ len s < 2 ^ 62.

Definition stored (compressed : bool) (amount : Z) (pkScript : option bytes) (a : Z) (s : bytes) : Prop :=
  out_bounds a s /\
  if compressed then amount = i64 (compressTxOutAmount a) /\ pkScript = Some (compress_script s)
  else amount = a /\ pkScript = Some s.

Section stored.
Context (compressed : bool) (amount : Z) (pkScript : option bytes) (a : Z) (s : bytes).
Hypothesis Hst : stored compressed amount pkScript a s.

Lemma stored_size :
  compressedTxOutSize (u64 amount) (default [] pkScript) compressed = Ok (len (compress_txout a s)).
Proof.
  destruct Hst as [(Ha & H9 & Hok & Hl) Hc]. pose proof (compressTxOutAmount_bound a Ha H9) as Hb.
  unfold compressedTxOutSize, compress_txout. rewrite len_app. destruct compressed; destruct Hc as [-> ->]; cbn [default from_option id].
  - rewrite wrapu_wraps by (done || lia). by rewrite serializeSizeVLQ_spec by done.
  - rewrite wrapu_small by (unfold is_u; lia).
    by rewrite serializeSizeVLQ_spec, compressedScriptSize_spec by (unfold is_u, numSpecialScripts; lia).
Qed.

Lemma stored_writes :
  writes (fun t => putCompressedTxOut t (u64 amount) (default [] pkScript) compressed) (compress_txout a s).
Proof.
  destruct Hst as [(Ha & H9 & Hok & Hl) Hc]. pose proof (compressTxOutAmount_bound a Ha H9) as Hb.
  intros mid post Hm. destruct compressed; destruct Hc as [-> ->]; cbn [default from_option id].
  - rewrite wrapu_wraps by (done || lia). unfold putCompressedTxOut, compress_txout in *. rewrite length_app in Hm.
    rewrite <- (take_drop (length (vlq (compressTxOutAmount a))) mid), <- app_assoc.
    rewrite putVLQ_spec by (first [done | rewrite length_take; lia]). cbn [mbind res_bind].
    rewrite copy_at_full by (rewrite length_drop; lia). cbn [mbind res_bind]. by rewrite <- app_assoc, len_app.
  - rewrite wrapu_small by (unfold is_u; lia). apply putCompressedTxOut_spec; try done; unfold numSpecialScripts; lia.
Qed.

Lemma stored_decode rest :
  decodeCompressedTxOut (compress_txout a s ++ rest) =
  Ok (compressTxOutAmount a, compress_script s, len (compress_txout a s)).
Proof.
  destruct Hst as [(Ha & H9 & Hok & Hl) _]. unfold compress_txout.
  rewrite decode_txout by (try done; unfold numSpecialScripts; lia). by rewrite len_app.
Qed.

Lemma stored_contents spent : contents (mkUtxoOutput spent compressed amount pkScript) = Some (a, Some s).
Proof.
  destruct Hst as [(Ha & H9 & Hok & Hl) Hc]. pose proof (compressTxOutAmount_bound a Ha H9) as Hb.
  unfold contents, maybeDecompress. cbn [out_compressed out_spent out_amount out_pkScript].
  destruct compressed; destruct Hc as [-> ->]; cbn [negb default from_option id]; [|done].
  unfold decompressed. pose proof (decompressScript_spec s [] Hok ltac:(unfold numSpecialScripts; lia)) as Hd.
  rewrite app_nil_r in Hd. rewrite Hd. cbn [mbind res_bind].
  rewrite wrapu_wraps, decompress_compress_amount, wraps_small by (first [done | lia | unfold is_s; lia]).
  replace (_ && _) with false; [done|]. symmetry. apply andb_false_iff.
  destruct (Z.eqb_spec (len s) 0) as [H0|]; [right|by left]. by apply len_0 in H0 as ->.
Qed.
End stored.

Lemma stored_compressed c am sc a s :
  stored c am sc a s -> stored true (i64 (compressTxOutAmount a)) (Some (compress_script s)) a s.
Proof. intros [Hb _]. by split. Qed.


(** * Utxo entries *)
Definition unspent (e : UtxoEntry) (i : Z) : Prop := IsOutputSpent e i = false.

#[global] Instance unspent_dec e i : Decision (unspent e i).
Proof. unfold unspent. apply _. Defined.

Definition wf_entry (e : UtxoEntry) : Prop :=
  is_s 32 (ent_version e) /\ is_u 32 (ent_blockHeight e) /\
  (forall i o, sparseOutputs e !! i = Some o -> 0 <= i < 2 ^ 31) /\
  (forall i o, sparseOutputs e !! i = Some o -> out_spent o = false ->
     exists a s, stored (out_compressed o) (out_amount o) (out_pkScript o) a s).

(** The stored form of output [i]. *)
Definition enc_out (e : UtxoEntry) (i : Z) : bytes :=
  match sparseOutputs e !! i with
  | Some o => match contents o with Some (a, Some s) => compress_txout a s | _ => [] end
  | None => []
  end.

Definition enc_outs (e : UtxoEntry) (l : list Z) : bytes := concat (map (enc_out e) l).

Lemma unspent_Some e i : unspent e i <-> exists o, sparseOutputs e !! i = Some o /\ out_spent o = false.
Proof. unfold unspent, IsOutputSpent. destruct (sparseOutputs e !! i); naive_solver. Qed.

Lemma spent_not_unspent e i o : sparseOutputs e !! i = Some o -> out_spent o = true -> ~ unspent e i.
Proof. intros Ho Hs (o' & Ho' & Hs')%unspent_Some. congruence. Qed.

Lemma unspent_stored e i : wf_entry e -> unspent e i ->
  exists o a s, sparseOutputs e !! i = Some o /\ out_spent o = false /\
    stored (out_compressed o) (out_amount o) (out_pkScript o) a s /\ contents o = Some (a, Some s) /\
    enc_out e i = compress_txout a s.
Proof.
  intros (_ & _ & _ & Hst) Hu. apply unspent_Some in Hu as (o & Ho & Hs).
  destruct (Hst i o Ho Hs) as (a & s & Hd). exists o, a, s.
  assert (contents o = Some (a, Some s)) as Hc by (destruct o; by apply stored_contents).
  split_and!; try done. unfold enc_out. by rewrite Ho, Hc.
Qed.

Lemma compress_txout_pos a s : 0 < len (compress_txout a s).
Proof.
  unfold compress_txout. rewrite len_app. pose proof (vlq_length (compressTxOutAmount a)).
  pose proof (len_nonneg (compress_script s)). lia.
Qed.

Definition known (e : UtxoEntry) (order : list Z) : Prop := Forall (fun i => is_Some (sparseOutputs e !! i)) order.

Lemma known_u32 e i : wf_entry e -> is_Some (sparseOutputs e !! i) -> u32 i = i.
Proof. intros (_ & _ & Hr & _) [o Ho]. specialize (Hr i o Ho). apply wrapu_small. unfold is_u. lia. Qed.

Lemma outputs_size_spec e order size : wf_entry e -> known e order ->
  outputs_size e order size = Ok (size + len (enc_outs e (filter (unspent e) order))).
Proof.
  intros Hwf Hk. revert size. induction Hk as [|i order Hi Hk IH]; intros size.
  { change (enc_outs _ _) with (@nil Z). by rewrite len_nil, Z.add_0_r. }
  cbn [outputs_size]. rewrite (known_u32 e) by done. destruct Hi as [o Ho]. rewrite Ho.
  destruct (out_spent o) eqn:Hs.
  - rewrite filter_cons_False; [apply IH | by eapply spent_not_unspent].
  - assert (unspent e i) as Hu by (apply unspent_Some; eauto). rewrite filter_cons_True by done.
    destruct (unspent_stored e i Hwf Hu) as (o' & a & s & Ho' & _ & Hst & _ & He). simplify_eq.
    rewrite (stored_size _ _ _ a s) by done. cbn [mbind res_bind]. rewrite IH. f_equal.
    unfold enc_outs. cbn [map concat]. rewrite len_app, He. lia.
Qed.

Lemma put_outputs_spec e order pre todo : wf_entry e -> known e order ->
  length (enc_outs e (filter (unspent e) order)) = length todo ->
  put_outputs e order (pre ++ todo) (len pre) = Ok (pre ++ enc_outs e (filter (unspent e) order)).
Proof.
  intros Hwf Hk. revert pre todo. induction Hk as [|i order Hi Hk IH]; intros pre todo Hl.
  { by destruct todo. }
  cbn [put_outputs]. rewrite (known_u32 e) by done. destruct Hi as [o Ho]. rewrite Ho.
  destruct (out_spent o) eqn:Hs.
  - rewrite filter_cons_False in Hl |- * by (by eapply spent_not_unspent). by apply IH.
  - assert (unspent e i) as Hu by (apply unspent_Some; eauto). rewrite filter_cons_True in Hl |- * by done.
    destruct (unspent_stored e i Hwf Hu) as (o' & a & s & Ho' & _ & Hst & _ & He). simplify_eq.
    unfold enc_outs in *. cbn [map concat] in *. rewrite He in *. rewrite length_app in Hl.
    rewrite (at_offset_writes _ (compress_txout a s)) by (by apply stored_writes || lia).
    cbn [mbind res_bind]. rewrite IH by (rewrite length_drop; lia). by rewrite <- app_assoc.
Qed.

(** ** The bitmap *)
Definition bitmap (e : UtxoEntry) (n : nat) (i : Z) : bytes := map (fun k => unspent_bits e k 8 0 0) (seqZ i (Z.of_nat n)).

Lemma bitmap_S e n i : bitmap e (S n) i = unspent_bits e i 8 0 0 :: bitmap e n (i + 1).
Proof.
  unfold bitmap. rewrite seqZ_cons by lia. cbn [map]. f_equal. f_equal. f_equal; lia.
Qed.

Lemma put_bitmap_spec e n i pre todo : (n <= length todo)%nat ->
  put_bitmap e n i (pre ++ todo) (len pre) = Ok ((pre ++ bitmap e n i) ++ drop n todo, len (pre ++ bitmap e n i)).
Proof.
  revert i pre todo. induction n as [|n IH]; intros i pre todo Hl.
  { cbn. by rewrite !app_nil_r, drop_0. }
  destruct todo as [|b todo]; [cbn in Hl; lia|]. cbn [put_bitmap]. rewrite set_idx_middle. cbn [mbind res_bind].
  replace (len pre + 1) with (len (pre ++ [unspent_bits e i 8 0 0])) by (rewrite len_app; done).
  replace (pre ++ unspent_bits e i 8 0 0 :: todo) with ((pre ++ [unspent_bits e i 8 0 0]) ++ todo)
    by (rewrite <- app_assoc; done).
  rewrite IH by (cbn in Hl; lia). rewrite bitmap_S. by rewrite <- (app_assoc pre).
Qed.

(** Eight flags packed into a byte, and the positions read from it. *)
Fixpoint pack (bs : list bool) (j acc : Z) : Z :=
  match bs with [] => acc | b :: bs => pack bs (j + 1) (if b then Z.lor acc (u8 (1 ≪ j)) else acc) end.

Fixpoint unpack (xs : list Z) (b : Z) : list Z :=
  match xs with [] => [] | x :: xs => (if negb (Z.land b 0x01 =? 0) then [x] else []) ++ unpack xs (b ≫ 1) end.

Fixpoint chosen (bs : list bool) (xs : list Z) : list Z :=
  match bs, xs with b :: bs, x :: xs => (if b then [x] else []) ++ chosen bs xs | _, _ => [] end.

Lemma pack_unpack (bs : list bool) (xs : list Z) :
  length bs = 8%nat -> length xs = 8%nat -> unpack xs (pack bs 0 0) = chosen bs xs.
Proof.
  intros Hb Hx. do 8 (destruct bs as [|? bs]; [done|]; destruct xs as [|? xs]; [done|]).
  destruct bs; [|done]. destruct xs; [|done].
  repeat match goal with b : bool |- _ => destruct b end; reflexivity.
Qed.

Lemma unspent_bits_pack e i n j acc :
  unspent_bits e i n j acc = pack (map (fun k => negb (IsOutputSpent e (u32 (2 + i * 8 + k)))) (seqZ j (Z.of_nat n))) j acc.
Proof.
  revert j acc. induction n as [|n IH]; intros j acc; [done|]. rewrite seqZ_cons by lia. cbn [unspent_bits map pack].
  rewrite IH. do 3 f_equal; lia.
Qed.

Lemma bit_indexes_unpack i n j b :
  bit_indexes i n j b = unpack (map (fun k => u32 (2 + i * 8 + k)) (seqZ j (Z.of_nat n))) b.
Proof.
  revert j b. induction n as [|n IH]; intros j b; [done|]. rewrite seqZ_cons by lia. cbn [bit_indexes map unpack].
  rewrite IH. do 4 f_equal; lia.
Qed.

Lemma chosen_filter e l : chosen (map (fun k => negb (IsOutputSpent e k)) l) l = filter (unspent e) l.
Proof.
  induction l as [|k l IH]; [done|]. cbn [map chosen]. rewrite filter_cons, IH.
  destruct (decide (unspent e k)) as [Hk|Hk]; unfold unspent in Hk.
  - by rewrite Hk.
  - apply not_false_is_true in Hk. by rewrite Hk.
Qed.

(** Writing eight bits and reading them back. *)
Lemma bits_roundtrip e i : 0 <= i -> 2 + i * 8 + 8 < 2 ^ 32 ->
  bit_indexes i 8 0 (unspent_bits e i 8 0 0) = filter (unspent e) (seqZ (2 + i * 8) 8).
Proof.
  intros Hi Hlt. rewrite bit_indexes_unpack, unspent_bits_pack, pack_unpack by (rewrite length_map, length_seqZ; done).
  set (f := fun k => u32 (2 + i * 8 + k)).
  rewrite <- (map_map f (fun k => negb (IsOutputSpent e k))).
  replace (map f (seqZ 0 (Z.of_nat 8))) with (seqZ (2 + i * 8) 8); [apply chosen_filter|].
  rewrite <- (Z.add_0_r (2 + i * 8)) at 1. rewrite <- fmap_add_seqZ. apply map_ext_in. intros k Hk.
  apply list_elem_of_In, elem_of_seqZ in Hk. unfold f. symmetry. apply wrapu_small. unfold is_u. lia.
Qed.

Lemma bitmap_indexes_spec e n i pre post : 0 <= i -> 2 + (i + Z.of_nat n) * 8 < 2 ^ 32 ->
  bitmap_indexes (pre ++ bitmap e n i ++ post) n i (len pre) =
    Ok (filter (unspent e) (seqZ (2 + i * 8) (Z.of_nat n * 8)), len (pre ++ bitmap e n i)).
Proof.
  revert i pre. induction n as [|n IH]; intros i pre Hi Hlt.
  { cbn. by rewrite app_nil_r. }
  cbn [bitmap_indexes]. rewrite bitmap_S. cbn [app]. rewrite idx_middle. cbn [mbind res_bind].
  replace (pre ++ unspent_bits e i 8 0 0 :: bitmap e n (i + 1) ++ post)
    with ((pre ++ [unspent_bits e i 8 0 0]) ++ bitmap e n (i + 1) ++ post) by (rewrite <- app_assoc; done).
  replace (len pre + 1) with (len (pre ++ [unspent_bits e i 8 0 0])) by (rewrite len_app; done).
  rewrite IH by lia. cbn [mbind res_bind]. rewrite bits_roundtrip by lia. rewrite <- filter_app, <- app_assoc. cbn [app].
  f_equal. f_equal. f_equal. replace (Z.of_nat (S n) * 8) with (8 + Z.of_nat n * 8) by lia.
  rewrite seqZ_app by lia. f_equal. f_equal; lia.
Qed.


(** ** The order of the outputs *)
Lemma StronglySorted_filter {A} (R : relation A) (P : A -> Prop) `{!forall x, Decision (P x)} l :
  StronglySorted R l -> StronglySorted R (filter P l).
Proof.
  induction 1 as [|x l Hl IH Hx]; [constructor|]. rewrite filter_cons. case_decide; [|done]. constructor; [done|].
  rewrite Forall_forall in Hx |- *. intros y Hy. apply list_elem_of_filter in Hy as [_ Hy]. auto.
Qed.

Lemma StronglySorted_seqZ m n : StronglySorted Z.le (seqZ m (Z.of_nat n)).
Proof.
  revert m. induction n as [|n IH]; intros m; [constructor|]. rewrite seqZ_cons by lia.
  replace (Z.pred (Z.of_nat (S n))) with (Z.of_nat n) by lia. constructor; [apply IH|]. apply Forall_seqZ. lia.
Qed.

Lemma sorted_keys {A} (m : gmap Z A) :
  let l := merge_sort Z.le (map fst (map_to_list m)) in
  StronglySorted Z.le l /\ NoDup l /\ forall i, i ∈ l <-> is_Some (m !! i).
Proof.
  cbn zeta. set (l := merge_sort _ _). assert (l ≡ₚ map fst (map_to_list m)) as Hp by apply merge_sort_Permutation.
  split_and!.
  - apply StronglySorted_merge_sort; apply _.
  - rewrite Hp. apply NoDup_fst_map_to_list.
  - intros i. rewrite Hp. split.
    + intros ((k & v) & -> & Hkv)%list_elem_of_fmap. apply elem_of_map_to_list in Hkv. by exists v.
    + intros [v Hv]. apply list_elem_of_fmap. exists (i, v). split; [done | by apply elem_of_map_to_list].
Qed.

Lemma sorted_last (l : list Z) hi i :
  StronglySorted Z.le l -> idx (E := error) l (len l - 1) = Ok hi -> i ∈ l -> i <= hi.
Proof.
  intros Hs Hidx Hi. apply idx_Ok in Hidx as [Hr Hl]. destruct (list_elem_of_split _ _ Hi) as (l1 & l2 & ->).
  unfold len in *. rewrite length_app in *. cbn [length] in *.
  rewrite lookup_app_r in Hl by lia. replace (Z.to_nat _ - length l1)%nat with (length l2) in Hl by lia.
  apply StronglySorted_app_1_r in Hs. apply StronglySorted_cons in Hs as [Hall _].
  destruct (decide (l2 = [])) as [->|Hne]; [cbn in Hl; injection Hl as <-; lia|].
  rewrite Forall_forall in Hall. apply Hall. apply list_elem_of_lookup. exists (length l2 - 1)%nat.
  destruct (length l2) as [|n] eqn:Hn; [by apply length_zero_iff_nil in Hn|]. cbn in Hl |- *. by rewrite Nat.sub_0_r.
Qed.

Lemma known_order e : known e (output_order e).
Proof. apply Forall_forall. intros i Hi. by apply (sorted_keys (sparseOutputs e)) in Hi. Qed.

(** The unspent outputs in order, as the bitmap lists them. *)
Lemma order_unspent e n :
  (forall i, is_Some (sparseOutputs e !! i) -> 0 <= i < Z.of_nat n) ->
  filter (unspent e) (output_order e) = filter (unspent e) (seqZ 0 (Z.of_nat n)).
Proof.
  intros Hr. destruct (sorted_keys (sparseOutputs e)) as (Hs & Hnd & Hin).
  apply (StronglySorted_unique Z.le).
  - by apply StronglySorted_filter.
  - apply StronglySorted_filter, StronglySorted_seqZ.
  - apply NoDup_Permutation; [by apply NoDup_filter | apply NoDup_filter, NoDup_seqZ |].
    intros i. rewrite !list_elem_of_filter, elem_of_seqZ. split; intros [Hu Hi]; (split; [done|]).
    + apply Hin, Hr in Hi. lia.
    + apply Hin. apply unspent_Some in Hu as (o & Ho & _). by exists o.
Qed.

(** ** Reading the outputs *)
Lemma read_outputs_spec e l pre outs : wf_entry e -> Forall (unspent e) l -> NoDup l ->
  exists m, read_outputs (pre ++ enc_outs e l) (len pre) l outs = Ok m /\
    forall i, if decide (i ∈ l)
              then exists a s o, sparseOutputs e !! i = Some o /\ out_spent o = false /\ contents o = Some (a, Some s) /\
                     stored (out_compressed o) (out_amount o) (out_pkScript o) a s /\
                     m !! i = Some (mkUtxoOutput false true (i64 (compressTxOutAmount a)) (Some (compress_script s)))
              else m !! i = outs !! i.
Proof.
  intros Hwf Hall. revert pre outs. induction Hall as [|k l Hk Hall IH]; intros pre outs Hnd.
  { exists outs. split; [done|]. intros i. by rewrite decide_False by (by intros ?%elem_of_nil). }
  apply NoDup_cons in Hnd as [Hni Hnd]. destruct (unspent_stored e k Hwf Hk) as (o & a & s & Ho & Hsp & Hst & Hc & He).
  cbn [read_outputs]. rewrite slice_from. cbn [mbind res_bind]. unfold enc_outs. cbn [map concat]. rewrite He.
  rewrite (stored_decode _ _ _ a s Hst). rewrite app_assoc, <- len_app.
  destruct (IH (pre ++ compress_txout a s) (<[k := mkUtxoOutput false true (i64 (compressTxOutAmount a)) (Some (compress_script s))]> outs) Hnd)
    as (m & Hm & Hmi).
  exists m. split; [done|]. intros i. specialize (Hmi i). destruct (decide (i ∈ l)) as [Hil|Hil].
  { by rewrite decide_True by (by right). }
  destruct (decide (i = k)) as [->|Hne].
  - rewrite decide_True by left. exists a, s, o. rewrite Hmi, lookup_insert_eq. done.
  - rewrite decide_False by (by intros [|]%elem_of_cons). by rewrite Hmi, lookup_insert_ne.
Qed.

(** ** The header code *)
Lemma header_bits x k m : 0 <= x -> 0 <= k < 8 -> 0 <= m < 8 ->
  Z.land (Z.lor (x ≪ 3) k) m = Z.land k m /\ Z.lor (x ≪ 3) k ≫ 3 = x.
Proof.
  intros Hx Hk Hm. split.
  - by rewrite Z.land_lor_distr_l, land_shiftl_small by lia.
  - rewrite Z.shiftr_lor, Z.shiftr_shiftl_l, Z.sub_diag, Z.shiftl_0_r by lia.
    rewrite (Z.shiftr_div_pow2 k), Z.div_small, Z.lor_0_r by lia. done.
Qed.

Definition flags (c u0 u1 : bool) : Z := (if c then 1 else 0) + (if u0 then 2 else 0) + (if u1 then 4 else 0).

Lemma header_code_eq x c u0 u1 : 0 <= x < 2 ^ 60 ->
  (let h := u64 (u64 x ≪ 3) in let h := if c : bool then Z.lor h 0x01 else h in
   let h := if u0 : bool then Z.lor h 0x02 else h in if u1 : bool then Z.lor h 0x04 else h) =
  Z.lor (x ≪ 3) (flags c u0 u1).
Proof.
  intros Hx. cbn zeta. rewrite (wrapu_small 64 x) by (unfold is_u; lia).
  rewrite wrapu_small by (unfold is_u; rewrite Z.shiftl_mul_pow2 by lia; lia).
  destruct c, u0, u1; rewrite <- ?Z.lor_assoc, ?Z.lor_0_r; reflexivity.
Qed.

(** The header code of an entry whose largest index is [hi]: its [n] bytes of
    bitmap reach [hi], and the decoder reads [n] and the flags from it. *)
Lemma utxoEntryHeaderCode_spec e hi i : 0 <= i <= hi -> hi < 2 ^ 31 -> unspent e i ->
  let u0 := negb (IsOutputSpent e 0) in let u1 := negb (IsOutputSpent e 1) in
  exists code n, utxoEntryHeaderCode e hi = Ok (code, Z.of_nat n) /\ is_u 64 code /\
    hi < 2 + 8 * Z.of_nat n /\ 2 + 8 * Z.of_nat n < 2 ^ 32 /\
    negb (Z.land code 0x01 =? 0) = ent_isCoinBase e /\ negb (Z.land code 0x02 =? 0) = u0 /\
    negb (Z.land code 0x04 =? 0) = u1 /\
    (if negb u0 && negb u1 then u64 (code ≫ 3 + 1) else code ≫ 3) = Z.of_nat n.
Proof.
  intros Hi Hhi Hu u0 u1. unfold utxoEntryHeaderCode. fold u0 u1.
  rewrite (wrapu_small 32) by (unfold is_u; lia). set (n := (hi + 6) / 8).
  assert (0 <= n < 2 ^ 29) as Hn.
  { unfold n. split; [apply Z.div_pos; lia | apply Z.div_lt_upper_bound; lia]. }
  assert (hi < 2 + 8 * n) by (unfold n; pose proof (Z.mod_pos_bound (hi + 6) 8); pose proof (Z.div_mod (hi + 6) 8); lia).
  set (none := negb u0 && negb u1).
  assert (none && (n =? 0) = false) as Hnone.
  { destruct none eqn:Hno; [|done]. apply andb_true_iff in Hno as [H0%negb_true_iff H1%negb_true_iff]. cbn [andb].
    apply Z.eqb_neq. intros Hn0. unfold u0, u1, unspent in *.
    apply negb_false_iff in H0, H1. destruct (decide (i = 0)) as [->|]; [congruence|].
    destruct (decide (i = 1)) as [->|]; [congruence|]. lia. }
  rewrite Hnone. set (x := n - (if none then 1 else 0)).
  assert (0 <= x < 2 ^ 60) as Hx by (unfold x; destruct none; [apply Z.eqb_neq in Hnone|]; lia).
  pose proof (header_code_eq x (ent_isCoinBase e) u0 u1 Hx) as Hcode. cbn zeta in Hcode. rewrite Hcode. clear Hcode.
  set (k := flags _ u0 u1). assert (0 <= k < 8) as Hk by (unfold k, flags; destruct (ent_isCoinBase e), u0, u1; lia).
  exists (Z.lor (x ≪ 3) k), (Z.to_nat n). rewrite !Z2Nat.id by lia.
  destruct (header_bits x k 1) as [-> ->]; [lia..|]. destruct (header_bits x k 2) as [-> _]; [lia..|].
  destruct (header_bits x k 4) as [-> _]; [lia..|]. split_and!; try done; try lia.
  - rewrite lor_shiftl_add by lia. unfold is_u. lia.
  - unfold k, flags. by destruct (ent_isCoinBase e), u0, u1.
  - unfold k, flags. by destruct (ent_isCoinBase e), u0, u1.
  - unfold k, flags. by destruct (ent_isCoinBase e), u0, u1.
  - fold none. unfold x. destruct none; [|lia]. rewrite Z.sub_add, wrapu_small by (unfold is_u; lia). done.
Qed.

(** ** Entries *)

(** The stored form of an entry whose bitmap has [n] bytes. *)
Definition enc_entry (e : UtxoEntry) (code : Z) (n : nat) : bytes :=
  vlq (u64 (ent_version e)) ++ vlq (ent_blockHeight e) ++ vlq code ++ bitmap e n 0 ++
  enc_outs e (filter (unspent e) (output_order e)).

Lemma length_bitmap e n i : length (bitmap e n i) = n.
Proof. unfold bitmap. rewrite length_map, length_seqZ. lia. Qed.

Lemma IsFullySpent_false e : IsFullySpent e = false -> exists i, unspent e i.
Proof.
  intros Hf. apply bool_decide_eq_false in Hf. apply map_not_Forall in Hf as (i & o & Ho & Hs); [|apply _].
  exists i. apply unspent_Some. exists o. split; [done | by apply not_true_is_false].
Qed.

(** What the header code tells the decoder. *)
Definition header_ok (e : UtxoEntry) (code : Z) (n : nat) : Prop :=
  let u0 := negb (IsOutputSpent e 0) in let u1 := negb (IsOutputSpent e 1) in
  is_u 64 code /\ (forall i, is_Some (sparseOutputs e !! i) -> 0 <= i < 2 + 8 * Z.of_nat n) /\
  2 + 8 * Z.of_nat n < 2 ^ 32 /\
  negb (Z.land code 0x01 =? 0) = ent_isCoinBase e /\ negb (Z.land code 0x02 =? 0) = u0 /\
  negb (Z.land code 0x04 =? 0) = u1 /\
  (if negb u0 && negb u1 then u64 (code ≫ 3 + 1) else code ≫ 3) = Z.of_nat n.

Lemma serializeUtxoEntry_spec e : wf_entry e -> IsFullySpent e = false ->
  exists code n, header_ok e code n /\ serializeUtxoEntry e = Ok (Some (enc_entry e code n)).
Proof.
  intros Hwf Hf. destruct (IsFullySpent_false e Hf) as [i Hi]. pose proof Hwf as (Hv & Hh & Hr & _).
  destruct (sorted_keys (sparseOutputs e)) as (Hs & Hnd & Hin). fold (output_order e) in Hs, Hnd, Hin.
  assert (i ∈ output_order e) as Hmem by (apply Hin; apply unspent_Some in Hi as (o & Ho & _); by exists o).
  assert (0 < len (output_order e)) by (destruct (output_order e); [by apply elem_of_nil in Hmem | rewrite len_cons; pose proof (len_nonneg l); lia]).
  destruct (idx_in_range (E := error) (output_order e) (len (output_order e) - 1)) as (hi & Hhi & Hl); [lia|].
  assert (is_Some (sparseOutputs e !! hi)) as Hsome by (apply Hin; apply list_elem_of_lookup; eauto).
  destruct Hsome as [o Ho]. pose proof (Hr hi o Ho) as Hhr.
  assert (0 <= i <= hi) as Hile.
  { split; [|by apply (sorted_last (output_order e))]. apply unspent_Some in Hi as (oi & Hoi & _). by apply (Hr i oi). }
  destruct (utxoEntryHeaderCode_spec e hi i Hile ltac:(lia) Hi) as (code & n & Hcode & Hc64 & Hn & Hflags).
  exists code, n. split.
  { split; [done|]. split; [|done]. intros j [oj Hj]. pose proof (Hr j oj Hj).
    assert (j <= hi); [|lia]. apply (sorted_last (output_order e)); [done | done |]. apply Hin. by exists oj. } unfold serializeUtxoEntry. rewrite Hf. cbn zeta. rewrite Hhi. cbn [mbind res_bind].
  rewrite (wrapu_small 32 hi) by (unfold is_u; lia). rewrite Hcode. cbn [mbind res_bind].
  assert (is_u 64 (u64 (ent_version e))) as Hv64 by (apply wrapu_range; lia).
  assert (is_u 64 (ent_blockHeight e)) as Hh64 by (unfold is_u in *; lia).
  rewrite !serializeSizeVLQ_spec by done. cbn [mbind res_bind].
  rewrite outputs_size_spec by (done || apply known_order). cbn [mbind res_bind].
  set (enc := enc_outs e _). set (v1 := vlq (u64 _)). set (v2 := vlq (ent_blockHeight e)). set (v3 := vlq code).
  unfold make_bytes. pose proof (len_nonneg v1). pose proof (len_nonneg v2). pose proof (len_nonneg v3). pose proof (len_nonneg enc).
  destruct (Z.ltb_spec (len v1 + len v2 + len v3 + Z.of_nat n + len enc) 0); [lia|]. cbn [mbind res_bind].
  set (todo := replicate _ 0).
  assert (length todo = length v1 + length v2 + length v3 + n + length enc)%nat as Ht
    by (unfold todo, len; rewrite length_replicate; lia).
  rewrite (writes_front (fun t => putVLQ t (u64 (ent_version e))) v1) by (by apply writes_vlq || lia). cbn [mbind res_bind].
  rewrite (at_offset_writes _ v2) by (by apply writes_vlq || (rewrite ?length_drop; lia)). cbn [mbind res_bind].
  rewrite (at_offset_writes _ v3) by (by apply writes_vlq || (rewrite ?length_drop; lia)). cbn [mbind res_bind].
  rewrite Nat2Z.id, put_bitmap_spec by (rewrite !length_drop; lia). cbn [mbind res_bind].
  rewrite put_outputs_spec by (done || apply known_order || (rewrite !length_drop; fold enc; lia)).
  cbn [mbind res_bind asserted]. fold enc. unfold enc_entry. fold v1 v2 v3 enc. by rewrite <- !app_assoc.
Qed.

Lemma enc_outs_pos e l i : wf_entry e -> unspent e i -> i ∈ l -> 0 < len (enc_outs e l).
Proof.
  intros Hwf Hu Hi. destruct (list_elem_of_split _ _ Hi) as (l1 & l2 & ->). unfold enc_outs.
  rewrite map_app, concat_app, len_app. cbn [map concat]. rewrite len_app.
  destruct (unspent_stored e i Hwf Hu) as (o & a & s & _ & _ & _ & _ & ->). pose proof (compress_txout_pos a s).
  pose proof (len_nonneg (concat (map (enc_out e) l1))). pose proof (len_nonneg (concat (map (enc_out e) l2))). lia.
Qed.

Lemma header_indexes e n :
  (if negb (IsOutputSpent e 0) then [0] else []) ++ (if negb (IsOutputSpent e 1) then [1] else []) ++
  filter (unspent e) (seqZ 2 (Z.of_nat n * 8)) = filter (unspent e) (seqZ 0 (2 + 8 * Z.of_nat n)).
Proof.
  rewrite (seqZ_cons 0), (seqZ_cons (Z.succ 0)) by lia. change (Z.succ 0) with 1. change (Z.succ 1) with 2.
  replace (Z.pred (Z.pred (2 + 8 * Z.of_nat n))) with (Z.of_nat n * 8) by lia. rewrite <- !chosen_filter. done.
Qed.

Lemma i32_u64 v : is_s 32 v -> i32 (u64 v) = v.
Proof.
  intros Hv. transitivity (i32 v); [|by apply wraps_small]. unfold wraps, wrapu.
  rewrite (Z.mod_eq v (2 ^ 64)) by lia. f_equal.
  replace (v - 2 ^ 64 * (v / 2 ^ 64) + 2 ^ (32 - 1)) with (v + 2 ^ (32 - 1) + - (2 ^ 32 * (v / 2 ^ 64)) * 2 ^ 32) by lia.
  by rewrite Z.mod_add by lia.
Qed.

Definition all_unspent (e : UtxoEntry) : Prop := forall i o, sparseOutputs e !! i = Some o -> out_spent o = false.

(** The outputs that were read have the coins of the entry that was stored. *)
Lemma read_coins e m version cb height (l : list Z) :
  wf_entry e -> is_s 32 version -> is_u 32 height -> (forall i, i ∈ l <-> unspent e i) ->
  (forall i, if decide (i ∈ l)
             then exists a s o, sparseOutputs e !! i = Some o /\ out_spent o = false /\ contents o = Some (a, Some s) /\
                    stored (out_compressed o) (out_amount o) (out_pkScript o) a s /\
                    m !! i = Some (mkUtxoOutput false true (i64 (compressTxOutAmount a)) (Some (compress_script s)))
             else m !! i = (∅ : gmap Z utxoOutput) !! i) ->
  let e' := set_sparseOutputs (newUtxoEntry version cb height) m in
  (forall i, entry_coin e' i = entry_coin e i) /\ wf_entry e' /\ ent_modified e' = false /\ all_unspent e'.
Proof.
  intros (_ & _ & Hr & _) Hv Hh Hl Hm e'. split_and!; [|split_and!| |]; try done; intros i; specialize (Hm i).
  - unfold entry_coin. cbn [e' set_sparseOutputs sparseOutputs]. destruct (decide (i ∈ l)) as [Hi|Hi].
    + destruct Hm as (a & s & o & -> & -> & -> & Hst & ->). cbn [out_spent].
      f_equal. apply (stored_contents true _ _ a s). by eapply stored_compressed.
    + rewrite Hm, lookup_empty. destruct (sparseOutputs e !! i) as [o|] eqn:Ho; [|done].
      destruct (out_spent o) eqn:Hs; [done|]. exfalso. apply Hi, Hl, unspent_Some. eauto.
  - intros o Ho. cbn [e' set_sparseOutputs sparseOutputs] in Ho. destruct (decide (i ∈ l)) as [Hi|Hi].
    + destruct Hm as (a & s & o' & Ho' & _). by apply (Hr i o').
    + by rewrite Hm, lookup_empty in Ho.
  - intros o Ho _. cbn [e' set_sparseOutputs sparseOutputs] in Ho. destruct (decide (i ∈ l)) as [Hi|Hi].
    + destruct Hm as (a & s & o' & _ & _ & _ & Hst & Hm). rewrite Hm in Ho. injection Ho as <-.
      exists a, s. by eapply stored_compressed.
    + by rewrite Hm, lookup_empty in Ho.
  - intros o Ho. cbn [e' set_sparseOutputs sparseOutputs] in Ho. destruct (decide (i ∈ l)) as [Hi|Hi].
    + destruct Hm as (a & s & o' & _ & _ & _ & _ & Hm). rewrite Hm in Ho. by injection Ho as <-.
    + by rewrite Hm, lookup_empty in Ho.
Qed.

Lemma deserializeUtxoEntry_spec e code n : wf_entry e -> IsFullySpent e = false -> header_ok e code n ->
  exists e', deserializeUtxoEntry (enc_entry e code n) = Ok e' /\ meta e' = meta e /\
    (forall i, entry_coin e' i = entry_coin e i) /\ wf_entry e' /\ ent_modified e' = false /\ all_unspent e'.
Proof.
  intros Hwf Hf (Hc & Hr & Hn & Hcb & Hu0 & Hu1 & Hbytes). pose proof Hwf as (Hv & Hh & Hr31 & _).
  destruct (IsFullySpent_false e Hf) as [i0 Hi0].
  unfold deserializeUtxoEntry, enc_entry. set (l := filter (unspent e) (output_order e)).
  assert (l = filter (unspent e) (seqZ 0 (2 + 8 * Z.of_nat n))) as Hl.
  { unfold l. replace (2 + 8 * Z.of_nat n) with (Z.of_nat (2 + 8 * n)) by lia. apply order_unspent.
    intros i Hi. specialize (Hr i Hi). lia. }
  assert (0 < len (enc_outs e l)) as Hpos.
  { apply (enc_outs_pos e l i0); try done. unfold l. apply list_elem_of_filter. split; [done|].
    apply (sorted_keys (sparseOutputs e)). apply unspent_Some in Hi0 as (o & Ho & _). by exists o. }
  set (v1 := vlq (u64 _)). set (v2 := vlq (ent_blockHeight e)). set (v3 := vlq code). set (bm := bitmap e n 0).
  set (outs := enc_outs e l) in *. set (S := v1 ++ v2 ++ v3 ++ bm ++ outs).
  assert (len bm = Z.of_nat n) as Hbm by (unfold len, bm; by rewrite length_bitmap).
  assert (len S = len v1 + len v2 + len v3 + Z.of_nat n + len outs) as HlenS by (unfold S; rewrite !len_app; lia).
  pose proof (len_nonneg v1). pose proof (len_nonneg v2). pose proof (len_nonneg v3).
  assert (slice S (len v1) (len S) = Ok (E := error) (v2 ++ v3 ++ bm ++ outs)) as HS1 by apply slice_from.
  assert (slice S (len v1 + len v2) (len S) = Ok (E := error) (v3 ++ bm ++ outs)) as HS2.
  { unfold S. rewrite <- len_app, (app_assoc v1). apply slice_from. }
  assert (bitmap_indexes S n 0 (len v1 + len v2 + len v3) =
    Ok (filter (unspent e) (seqZ 2 (Z.of_nat n * 8)), len (v1 ++ v2 ++ v3 ++ bm))) as HS3.
  { unfold S. rewrite <- !len_app, (app_assoc v2), (app_assoc v1), <- (app_assoc v1 v2 v3).
    unfold bm at 1. rewrite bitmap_indexes_spec by lia. by rewrite <- !app_assoc. }
  destruct (read_outputs_spec e l (v1 ++ v2 ++ v3 ++ bm) ∅ Hwf) as (m & Hm & Hmi).
  { apply Forall_forall. intros i Hi. by apply list_elem_of_filter in Hi as [? _]. }
  { apply NoDup_filter. apply (sorted_keys (sparseOutputs e)). }
  assert (deserializeVLQ S = (u64 (ent_version e), len v1)) as -> by (apply deserializeVLQ_vlq, wrapu_range; lia).
  destruct (Z.leb_spec (len S) (len v1)); [lia|]. rewrite HS1. cbn [mbind res_bind].
  assert (deserializeVLQ (v2 ++ v3 ++ bm ++ outs) = (ent_blockHeight e, len v2)) as ->
    by (apply deserializeVLQ_vlq; unfold is_u in *; lia).
  destruct (Z.leb_spec (len S) (len v1 + len v2)); [lia|]. rewrite HS2. cbn [mbind res_bind].
  assert (deserializeVLQ (v3 ++ bm ++ outs) = (code, len v3)) as -> by (by apply deserializeVLQ_vlq).
  destruct (Z.leb_spec (len S) (len v1 + len v2 + len v3)); [lia|]. rewrite Hcb, Hu0, Hu1, Hbytes.
  destruct (Z.ltb_spec (len S - (len v1 + len v2 + len v3)) (Z.of_nat n)); [lia|].
  rewrite (wrapu_small 32 (Z.of_nat n)), Nat2Z.id by (unfold is_u; lia). rewrite HS3. cbn [mbind res_bind].
  rewrite <- app_assoc, header_indexes, <- Hl. cbn [newUtxoEntry sparseOutputs].
  replace S with ((v1 ++ v2 ++ v3 ++ bm) ++ enc_outs e l) by (unfold S; by rewrite <- !app_assoc). rewrite Hm.
  cbn [mbind res_bind]. eexists. split; [done|]. rewrite i32_u64, (wrapu_small 32) by done.
  split; [done|].
  apply (read_coins e m _ _ _ l); try done. intros i. unfold l. rewrite list_elem_of_filter.
  split; [by intros [? _] | intros Hi; split; [done|]]. apply (sorted_keys (sparseOutputs e)).
  apply unspent_Some in Hi as (o & Ho & _). by exists o.
Qed.

(** C20: entries of the utxo set.  An entry with unspent outputs is stored as bytes
    that read back as an entry with the same version, height, coinbase flag and
    coins, none of them marked as spent or modified; the others are not stored. *)
Theorem utxo_entry_roundtrip e : wf_entry e ->
  if IsFullySpent e then serializeUtxoEntry e = Ok None
  else exists serialized e', serializeUtxoEntry e = Ok (Some serialized) /\ deserializeUtxoEntry serialized = Ok e' /\
         meta e' = meta e /\ (forall i, entry_coin e' i = entry_coin e i) /\ ent_modified e' = false /\ all_unspent e'.
Proof.
  intros Hwf. destruct (IsFullySpent e) eqn:Hf; [unfold serializeUtxoEntry; by rewrite Hf|].
  destruct (serializeUtxoEntry_spec e Hwf Hf) as (code & n & Hok & Hs).
  destruct (deserializeUtxoEntry_spec e code n Hwf Hf Hok) as (e' & Hd & Hm & Hc & _ & Hmod & Hu).
  exists (enc_entry e code n), e'. split_and!; done.
Qed.

(** A coinbase with two outputs left, far apart, one of them spent before. *)
Definition example_coins : UtxoEntry := mkUtxoEntry true 1 true 113931
  {[ 0 := mkUtxoOutput true false 7 (Some [81]); 3 := mkUtxoOutput false false 50 (Some [81; 82]);
     21 := mkUtxoOutput false false 1500000 (Some example_p2pkh) ]}.

Lemma utxo_entry_roundtrip_witness :
  IsFullySpent example_coins = false /\
  exists serialized e', serializeUtxoEntry example_coins = Ok (Some serialized) /\ deserializeUtxoEntry serialized = Ok e' /\
    meta e' = meta example_coins /\ (forall i, entry_coin e' i = entry_coin example_coins i) /\ ent_modified e' = false /\ all_unspent e'.
Proof.
  assert (IsFullySpent example_coins = false) as Hf by (vm_compute; reflexivity). split; [exact Hf|].
  pose proof (utxo_entry_roundtrip example_coins) as Hr. rewrite Hf in Hr. apply Hr.
  split_and!; [unfold is_s; cbn; lia | unfold is_u; cbn; lia | |].
  - intros i o Ho. cbn [sparseOutputs example_coins] in Ho. apply lookup_insert_Some in Ho as [[<- _]|[_ Ho]]; [lia|].
    apply lookup_insert_Some in Ho as [[<- _]|[_ Ho]]; [lia|]. apply lookup_singleton_Some in Ho as [<- _]. lia.
  - intros i o Ho Hs. cbn [sparseOutputs example_coins] in Ho. apply lookup_insert_Some in Ho as [[_ <-]|[_ Ho]]; [discriminate|].
    apply lookup_insert_Some in Ho as [[_ <-]|[_ Ho]].
    + exists 50, [81; 82]. split; [|done]. split_and!; [lia | lia | | vm_compute; reflexivity]. repeat constructor; lia.
    + apply lookup_singleton_Some in Ho as [_ <-]. exists 1500000, example_p2pkh. split; [|done].
      split_and!; [lia | lia | | vm_compute; reflexivity]. apply (bool_decide_unpack _); vm_compute; exact I.
Defined.

End ChainIOSpec.
