(* ===== verification/StateSpec.v ===== *)
(** The best state and the admin state in the database: what is written is read
    back. *)
From S2P Require Import Prelude PubKey SecpPrime Wire Standard Compress Utxo Header MsgBlock Database Params KeyView.
From S2P Require Import Validate ChainIO ChainIOSpec.
From stdpp Require Import sorting.
Import btcec wire Standard Compress Utxo Params KeyView Validate ChainIO ChainIOSpec.
#[local] Open Scope Z_scope.

Module StateSpec.

(** * Fields at an offset *)
Lemma copy_at_field {E} (pre todo src : bytes) : (length src <= length todo)%nat ->
  @copy_at E Z (pre ++ todo) (len pre) src = Ok ((pre ++ src) ++ drop (length src) todo).
Proof.
  intros Hl. rewrite <- (take_drop (length src) todo) at 1. rewrite copy_at_full by (rewrite length_take; lia).
  by rewrite <- app_assoc.
Qed.

Lemma PutUint_field {E} n (pre todo : bytes) v : (n <= length todo)%nat ->
  @PutUint E n (pre ++ todo) (len pre) v = Ok ((pre ++ le_encode n v) ++ drop n todo).
Proof.
  intros Hl. unfold PutUint. rewrite slice_from. cbn [mbind res_bind].
  destruct (Z.ltb_spec (len todo) (Z.of_nat n)); [unfold len in *; lia|].
  rewrite copy_at_field by (by rewrite length_le_encode). by rewrite length_le_encode.
Qed.

Lemma slice_field {E} (pre field post : bytes) n : len field = n ->
  @slice E Z (pre ++ field ++ post) (len pre) (len pre + n) = Ok field.
Proof. intros <-. apply slice_prefix. Qed.

Lemma GetUint_field {E} n (pre post : bytes) v : 0 <= v < 256 ^ Z.of_nat n ->
  @GetUint E n (pre ++ le_encode n v ++ post) (len pre) = Ok v.
Proof.
  intros Hv. unfold GetUint. rewrite slice_field by (unfold len; by rewrite length_le_encode). cbn [mbind res_bind].
  by rewrite le_decode_encode, Z.mod_small.
Qed.

(** An operation that writes [enc] at the end of what is written. *)
Definition appends {E} (op : bytes -> Z -> res E (bytes * Z)) (enc : bytes) : Prop :=
  forall pre todo, (length enc <= length todo)%nat ->
    op (pre ++ todo) (len pre) = Ok ((pre ++ enc) ++ drop (length enc) todo, len (pre ++ enc)).

(** * The best state *)
Definition wf_state (state : bestChainState) : Prop :=
  length (best_hash state) = 32%nat /\ is_u 32 (best_height state) /\ is_u 64 (best_totalTxns state) /\
  0 <= best_workSum state < 2 ^ 256.

Definition enc_state (state : bestChainState) : bytes :=
  best_hash state ++ le_encode 4 (best_height state) ++ le_encode 8 (best_totalTxns state) ++
  le_encode 4 (len (bigBytes (best_workSum state))) ++ bigBytes (best_workSum state).

Lemma serializeBestChainState_spec state : wf_state state -> serializeBestChainState state = Ok (enc_state state).
Proof.
  intros (Hl & Hh & Ht & Hw). unfold serializeBestChainState. rewrite Z.abs_eq by lia. set (w := bigBytes _).
  pose proof (bigBytes_length _ Hw) as Hwl. fold w in Hwl. pose proof (len_nonneg w) as Hw0. unfold HashSize.
  rewrite (wrapu_small 32 (len w)), wrapu_small by (unfold is_u; lia). unfold make_bytes.
  destruct (Z.ltb_spec (32 + 4 + 8 + 4 + len w) 0); [lia|]. cbn [mbind res_bind].
  set (data := replicate _ 0). assert (length data = (48 + length w)%nat) as Hd.
  { unfold data. rewrite length_replicate. unfold len. lia. }
  pose proof (copy_range_full (E := string) [] (take 32 data) (drop 32 data) (best_hash state)) as Hc.
  rewrite length_take in Hc. cbn [app] in Hc. rewrite take_drop in Hc. change (len []) with 0 in Hc.
  replace (0 + len (take 32 data)) with 32 in Hc by (unfold len; rewrite length_take; lia).
  rewrite Hc by lia. cbn [mbind res_bind].
  replace 32 with (len (best_hash state)) by (unfold len; lia).
  rewrite PutUint_field by (rewrite length_drop; lia). cbn [mbind res_bind]. rewrite drop_drop.
  replace (len (best_hash state) + 4) with (len (best_hash state ++ le_encode 4 (best_height state)))
    by (rewrite len_app; unfold len; by rewrite length_le_encode).
  rewrite PutUint_field by (rewrite length_drop; lia). cbn [mbind res_bind]. rewrite drop_drop.
  set (p2 := (_ ++ le_encode 8 _)).
  replace (len (best_hash state) + 12) with (len p2) by (unfold p2, len; rewrite !length_app, !length_le_encode; lia).
  rewrite PutUint_field by (rewrite length_drop; lia). cbn [mbind res_bind]. rewrite drop_drop.
  set (p3 := p2 ++ _).
  replace (len (best_hash state) + 16) with (len p3) by (unfold p3, p2, len; rewrite !length_app, !length_le_encode; lia).
  rewrite copy_at_field by (rewrite length_drop; lia). rewrite drop_drop, drop_ge by lia.
  unfold p3, p2, enc_state. fold w. by rewrite app_nil_r, <- !app_assoc.
Qed.

(** The best state.  What [serializeBestChainState] writes,
    [deserializeBestChainState] reads back: the hash, the height, the number of
    transactions and the work sum. *)
Theorem best_state_roundtrip state : wf_state state ->
  exists serialized, serializeBestChainState state = Ok serialized /\ deserializeBestChainState serialized = Ok state.
Proof.
  intros Hwf. exists (enc_state state). split; [by apply serializeBestChainState_spec|].
  destruct Hwf as (Hl & Hh & Ht & Hw). unfold deserializeBestChainState, enc_state. destruct state as [hash height txns work].
  cbn [best_hash best_height best_totalTxns best_workSum] in *.
  pose proof (bigBytes_length _ Hw) as Hwl. pose proof (len_nonneg (bigBytes work)) as Hw0. unfold HashSize.
  pose proof (be_decode_bigBytes work ltac:(lia)) as Hdec. set (w := bigBytes work) in *. set (e4 := le_encode 4 height). set (e8 := le_encode 8 txns).
  assert (length e4 = 4%nat /\ length e8 = 8%nat) as [H4 H8] by (unfold e4, e8; by rewrite !length_le_encode).
  set (el := le_encode 4 (len w)). assert (length el = 4%nat) as Hel by apply length_le_encode.
  set (S := hash ++ e4 ++ e8 ++ el ++ w). assert (len S = 48 + len w) as HS by (unfold S, len; rewrite !length_app; lia).
  destruct (Z.ltb_spec (len S) (32 + 16)); [lia|].
  assert (slice (E := error) S 0 32 = Ok hash) as -> by (apply (slice_field (E := error) [] hash); unfold len; lia).
  cbn [mbind res_bind].
  assert (GetUint (E := error) 4 S 32 = Ok height) as ->.
  { replace 32 with (len hash) by (unfold len; lia). apply GetUint_field. exact Hh. }
  cbn [mbind res_bind].
  assert (GetUint (E := error) 8 S (32 + 4) = Ok txns) as ->.
  { replace (32 + 4) with (len (hash ++ e4)) by (unfold len; rewrite length_app; lia). unfold S. rewrite app_assoc.
    apply GetUint_field. exact Ht. }
  cbn [mbind res_bind].
  assert (GetUint (E := error) 4 S (32 + 12) = Ok (len w)) as ->.
  { replace (32 + 12) with (len (hash ++ e4 ++ e8)) by (unfold len; rewrite !length_app; lia). unfold S.
    rewrite (app_assoc e4), (app_assoc hash). apply GetUint_field. lia. }
  cbn [mbind res_bind].
  assert (S = (hash ++ e4 ++ e8 ++ el) ++ w ++ []) as HSeq by (unfold S; by rewrite app_nil_r, <- !app_assoc).
  assert (len (hash ++ e4 ++ e8 ++ el) = 32 + 16) as Hp by (unfold len; rewrite !length_app; lia).
  rewrite (wrapu_small 32 (32 + 16 + len w)) by (unfold is_u; lia).
  assert (slice (E := error) S (32 + 16) (len S) = Ok w) as ->.
  { rewrite HSeq, app_nil_r, <- Hp. apply slice_from. }
  cbn [mbind res_bind]. rewrite (wrapu_small 32 (len w)) by (unfold is_u; lia). rewrite Z.ltb_irrefl.
  assert (slice (E := error) S (32 + 16) (32 + 16 + len w) = Ok w) as ->.
  { rewrite HSeq, <- Hp. by apply slice_field. }
  cbn [mbind res_bind]. by rewrite Hdec.
Qed.

(** The hash, the height and the number of transactions come first, whatever the
    work sum. *)
Lemma PutUint_inv {E} n (pre todo : bytes) v d : @PutUint E n (pre ++ todo) (len pre) v = Ok d ->
  d = (pre ++ le_encode n v) ++ drop n todo.
Proof.
  intros Hp. destruct (decide (n <= length todo)%nat) as [Hn|Hn]; [rewrite PutUint_field in Hp by done; congruence|].
  revert Hp. unfold PutUint. rewrite slice_from. cbn [mbind res_bind].
  destruct (Z.ltb_spec (len todo) (Z.of_nat n)); [done | unfold len in *; lia].
Qed.

Lemma serialized_state_prefix state data : length (best_hash state) = 32%nat -> serializeBestChainState state = Ok data ->
  exists rest, data = best_hash state ++ le_encode 4 (best_height state) ++ le_encode 8 (best_totalTxns state) ++ rest.
Proof.
  intros Hl. unfold serializeBestChainState, HashSize. intros (d0 & _ & (d1 & H1 & (d2 & H2 & (d3 & H3 & (d4 & H4 & H5)%bind_Ok)%bind_Ok)%bind_Ok)%bind_Ok)%bind_Ok.
  revert H1. unfold copy_range. case_if; [|done]. rewrite (take_ge (best_hash state)), Hl by lia. intros Hd1.
  change (Z.to_nat 0) with 0%nat in Hd1. rewrite take_0 in Hd1. cbn [app Nat.add] in Hd1. apply (inj Ok) in Hd1. subst d1. replace 32 with (len (best_hash state)) in H2 by (unfold len; lia). apply PutUint_inv in H2. subst d2.
  replace (32 + 4) with (len (best_hash state ++ le_encode 4 (best_height state))) in H3
    by (rewrite len_app; unfold len; rewrite length_le_encode; lia).
  apply PutUint_inv in H3. subst d3. set (p2 := (_ ++ le_encode 8 _)) in *.
  assert (length p2 = 44%nat) as Hp2 by (unfold p2; rewrite !length_app, !length_le_encode; lia).
  replace (32 + 12) with (len p2) in H4 by (unfold len; lia). apply PutUint_inv in H4. subst d4.
  set (el := le_encode 4 (u32 _)) in H5. assert (length el = 4%nat) as Hel by apply length_le_encode. clearbody el.
  revert H5. unfold copy_at. case_if; [|done]. intros Hd. apply (inj Ok) in Hd. subst data.
  replace (Z.to_nat (32 + 16)) with (length (p2 ++ el)) by (rewrite length_app; lia).
  rewrite take_app_length. eexists. unfold p2. by rewrite <- !app_assoc.
Qed.

Lemma stored_state_fields hash height txns rest st :
  length hash = 32%nat -> is_u 32 height -> is_u 64 txns ->
  deserializeBestChainState (hash ++ le_encode 4 height ++ le_encode 8 txns ++ rest) = Ok st ->
  best_hash st = hash /\ best_height st = height /\ best_totalTxns st = txns.
Proof.
  intros Hl Hh Ht. set (e4 := le_encode 4 height). set (e8 := le_encode 8 txns). unfold deserializeBestChainState, HashSize.
  assert (length e4 = 4%nat /\ length e8 = 8%nat) as [H4 H8] by (unfold e4, e8; by rewrite !length_le_encode).
  case_if; [done|].
  assert (slice (E := error) (hash ++ e4 ++ e8 ++ rest) 0 32 = Ok hash) as -> by (apply (slice_field (E := error) [] hash); unfold len; lia).
  cbn [mbind res_bind]. assert (GetUint (E := error) 4 (hash ++ e4 ++ e8 ++ rest) 32 = Ok height) as ->.
  { replace 32 with (len hash) by (unfold len; lia). by apply GetUint_field. }
  cbn [mbind res_bind].
  assert (GetUint (E := error) 8 (hash ++ e4 ++ e8 ++ rest) (32 + 4) = Ok txns) as ->.
  { replace (32 + 4) with (len (hash ++ e4)) by (unfold len; rewrite length_app; lia). rewrite app_assoc. by apply GetUint_field. }
  cbn [mbind res_bind]. intros (n & _ & (tl & _ & Hr)%bind_Ok)%bind_Ok. revert Hr. case_if; [done|].
  intros (w & _ & [= <-])%bind_Ok. done.
Qed.

(** * The admin state *)
Lemma appends_then {E} (op1 op2 : bytes -> Z -> res E (bytes * Z)) enc1 enc2 :
  appends op1 enc1 -> appends op2 enc2 -> appends (fun d o => '(d, o) ← op1 d o; op2 d o) (enc1 ++ enc2).
Proof.
  intros H1 H2 pre todo Hl. rewrite length_app in Hl. rewrite H1 by lia. cbn [mbind res_bind].
  rewrite H2 by (rewrite length_drop; lia). rewrite drop_drop, <- !app_assoc, length_app. done.
Qed.

Lemma appends_uint {E} n v k : k = Z.of_nat n ->
  appends (E := E) (fun d o => d ← PutUint n d o v; Ok (d, o + k)) (le_encode n v).
Proof.
  intros -> pre todo Hl. rewrite length_le_encode in *. rewrite PutUint_field by done. cbn [mbind res_bind].
  rewrite len_app. unfold len at 3. by rewrite length_le_encode.
Qed.

Lemma appends_copy {E} src k : k = len src -> appends (E := E) (fun d o => d ← copy_at d o src; Ok (d, o + k)) src.
Proof. intros -> pre todo Hl. rewrite copy_at_field by done. cbn [mbind res_bind]. by rewrite len_app. Qed.

Lemma appends_ext {E} (op1 op2 : bytes -> Z -> res E (bytes * Z)) enc :
  (forall d o, op2 d o = op1 d o) -> appends op1 enc -> appends op2 enc.
Proof. intros Heq H pre todo Hl. rewrite Heq. by apply H. Qed.

Lemma appends_nil {E} : appends (E := E) (fun d o => Ok (d, o)) [].
Proof. intros pre todo _. cbn [length]. by rewrite drop_0, app_nil_r. Qed.

Definition enc_tip (tip : OutPoint) : bytes := Hash tip ++ le_encode 4 (Index tip).
Definition enc_keys (keys : list PublicKey) : bytes := concat (map SerializeCompressed keys).
Definition enc_set (keys : list PublicKey) : bytes := le_encode 4 (len keys) ++ enc_keys keys.
Definition enc_id (m : KeyIdMap) (id : Z) : bytes :=
  le_encode 4 id ++ match get_key m id with Some k => SerializeCompressed k | None => [] end.

Definition enc_key_state (sets : gmap KeySetType PublicKeySet) (ids : KeyIdMap) (tips : list OutPoint) (lastKeyID totalSupply : Z) : bytes :=
  concat (map enc_tip tips) ++ (le_encode 4 lastKeyID ++ le_encode 8 totalSupply) ++
  concat (map (fun t => enc_set (set_of sets t)) adminKeysOrder) ++ le_encode 4 (Z.of_nat (size ids)) ++
  concat (map (enc_id ids) (merge_sort Z.le (map fst (map_to_list ids)))).

Lemma key_length k : SecpPrime.valid_key k -> len (SerializeCompressed k) = PubKeyBytesLenCompressed.
Proof.
  intros (Hx & _). pose proof P_bound. rewrite SerializeCompressed_eq by lia. unfold len. cbn [length].
  by rewrite length_be_encode.
Qed.

Lemma enc_keys_length keys : Forall SecpPrime.valid_key keys -> len (enc_keys keys) = len keys * 33.
Proof.
  intros Hk. unfold enc_keys. induction Hk as [|k keys Hk _ IH]; [done|]. cbn [map concat].
  rewrite len_app, len_cons, IH, key_length by done. unfold PubKeyBytesLenCompressed. lia.
Qed.

(** ** Writing *)
Lemma put_tips_appends threadTips : forall threads tips,
  Forall2 (fun t tip => threadTips !! t = Some tip /\ length (Hash tip) = 32%nat) threads tips ->
  appends (put_tips threadTips threads) (concat (map enc_tip tips)).
Proof.
  induction 1 as [|t tip threads tips [Htip Hl] _ IH]; [apply appends_nil|]. cbn [map concat]. unfold enc_tip. rewrite <- app_assoc.
  refine (appends_ext _ _ _ _ (appends_then _ _ _ _ (appends_copy (Hash tip) HashSize _)
            (appends_then _ _ _ _ (appends_uint 4 (Index tip) 4 eq_refl) IH))); [|unfold len; by rewrite Hl].
  intros d o. cbn [put_tips]. rewrite Htip. destruct (copy_at d o (Hash tip)); [|done..]. cbn [mbind res_bind].
  by destruct (PutUint 4 _ _ _).
Qed.

Lemma put_keys_appends keys : Forall SecpPrime.valid_key keys -> appends (put_keys keys) (enc_keys keys).
Proof.
  unfold enc_keys. induction 1 as [|k keys Hk _ IH]; [apply appends_nil|]. cbn [map concat].
  refine (appends_ext _ _ _ _ (appends_then _ _ _ _ (appends_copy (SerializeCompressed k) PubKeyBytesLenCompressed _) IH));
    [|by rewrite key_length].
  intros d o. cbn [put_keys]. by destruct (copy_at _ _ _).
Qed.

Lemma put_sets_appends sets order : (forall t, Forall SecpPrime.valid_key (set_of sets t)) ->
  (forall t, len (set_of sets t) < 2 ^ 32) ->
  appends (put_sets sets order) (concat (map (fun t => enc_set (set_of sets t)) order)).
Proof.
  intros Hk Hl. induction order as [|t order IH]; [apply appends_nil|]. cbn [map concat]. unfold enc_set. rewrite <- app_assoc.
  refine (appends_ext _ _ _ _ (appends_then _ _ _ _ (appends_uint 4 (len (set_of sets t)) 4 eq_refl)
            (appends_then _ _ _ _ (put_keys_appends _ (Hk t)) IH))).
  intros d o. cbn [put_sets]. rewrite wrapu_small by (pose proof (len_nonneg (set_of sets t)); unfold is_u; auto with lia).
  destruct (PutUint 4 _ _ _); [|done..]. cbn [mbind res_bind]. by destruct (put_keys _ _ _) as [[? ?]| | |].
Qed.

Lemma put_key_ids_appends ids l : Forall (fun id => is_u 32 id /\ exists k, get_key ids id = Some k /\ SecpPrime.valid_key k) l ->
  appends (put_key_ids ids l) (concat (map (enc_id ids) l)).
Proof.
  induction 1 as [|id l (Hid & k & Hk & Hv) _ IH]; [apply appends_nil|]. cbn [map concat]. unfold enc_id at 1. rewrite Hk, <- app_assoc.
  refine (appends_ext _ _ _ _ (appends_then _ _ _ _ (appends_uint 4 id 4 eq_refl)
            (appends_then _ _ _ _ (appends_copy (SerializeCompressed k) PubKeyBytesLenCompressed _) IH))); [|by rewrite key_length].
  intros d o. cbn [put_key_ids]. rewrite wrapu_small, Hk by done. destruct (PutUint 4 _ _ _); [|done..]. cbn [mbind res_bind].
  by destruct (copy_at _ _ _).
Qed.

(** The admin state that can be stored: every thread has a tip, the keys are valid
    and have an id of 32 bits, and the whole fits in 32 bits. *)
Record wf_key_state (sets : gmap KeySetType PublicKeySet) (ids : KeyIdMap) (threadTips : gmap Z OutPoint)
    (lastKeyID totalSupply : Z) : Prop := {
  ws_tips : forall t, is_Some (threadTips !! t) <-> t ∈ threadOrder;
  ws_tip : forall t tip, threadTips !! t = Some tip -> length (Hash tip) = 32%nat /\ is_u 32 (Index tip);
  ws_sets : forall t, is_Some (sets !! t) <-> t ∈ adminKeysOrder;
  ws_keys : forall t, Forall SecpPrime.valid_key (set_of sets t);
  ws_ids : forall id ok, ids !! id = Some ok -> is_u 32 id /\ exists k, ok = Some k /\ SecpPrime.valid_key k;
  ws_counters : is_u 32 lastKeyID /\ is_u 64 totalSupply;
  ws_size : 140 + 33 * (len (set_of sets RootKeySet) + len (set_of sets ProvisionKeySet) + len (set_of sets IssueKeySet) +
              len (set_of sets ValidateKeySet)) + 37 * Z.of_nat (size ids) < 2 ^ 32
}.

Section key_state.
Context (sets : gmap KeySetType PublicKeySet) (ids : KeyIdMap) (threadTips : gmap Z OutPoint) (lastKeyID totalSupply : Z).
Hypothesis Hwf : wf_key_state sets ids threadTips lastKeyID totalSupply.

Definition id_order : list Z := merge_sort Z.le (map fst (map_to_list ids)).

Lemma id_order_spec : NoDup id_order /\ (forall id, id ∈ id_order <-> is_Some (ids !! id)) /\ length id_order = size ids.
Proof.
  pose proof (merge_sort_Permutation Z.le (map fst (map_to_list ids))) as Hp. unfold id_order. split_and!.
  - rewrite Hp. apply NoDup_fst_map_to_list.
  - intros id. rewrite Hp, list_elem_of_fmap. split.
    + intros ([id' ok] & -> & Hin%elem_of_map_to_list). by exists ok.
    + intros [ok Hok]. exists (id, ok). split; [done|]. by apply elem_of_map_to_list.
  - rewrite Hp, length_map. apply length_map_to_list.
Qed.

Lemma id_keys : Forall (fun id => is_u 32 id /\ exists k, get_key ids id = Some k /\ SecpPrime.valid_key k) id_order.
Proof.
  apply Forall_forall. intros id [ok Hok]%id_order_spec. destruct (ws_ids _ _ _ _ _ Hwf id ok Hok) as (Hid & k & -> & Hv).
  split; [done|]. exists k. unfold get_key. by rewrite Hok.
Qed.

Lemma enc_ids_length l : Forall (fun id => is_u 32 id /\ exists k, get_key ids id = Some k /\ SecpPrime.valid_key k) l ->
  len (concat (map (enc_id ids) l)) = 37 * len l.
Proof.
  induction 1 as [|id l (_ & k & Hk & Hv) _ IH]; [done|]. cbn [map concat]. rewrite len_app, IH, len_cons. unfold enc_id.
  rewrite Hk, len_app, key_length by done. unfold len at 1. rewrite length_le_encode. unfold PubKeyBytesLenCompressed. lia.
Qed.

Lemma enc_set_length t : len (enc_set (set_of sets t)) = 4 + 33 * len (set_of sets t).
Proof.
  unfold enc_set. rewrite len_app, enc_keys_length by apply (ws_keys _ _ _ _ _ Hwf). unfold len at 1. rewrite length_le_encode. lia.
Qed.

Lemma tips_spec : exists tips, Forall2 (fun t tip => threadTips !! t = Some tip /\ length (Hash tip) = 32%nat) threadOrder tips /\
  Forall (fun tip => is_u 32 (Index tip)) tips.
Proof.
  assert (forall l, (forall t, t ∈ l -> t ∈ threadOrder) ->
    exists tips, Forall2 (fun t tip => threadTips !! t = Some tip /\ length (Hash tip) = 32%nat) l tips /\ Forall (fun tip => is_u 32 (Index tip)) tips) as Hl.
  { induction l as [|t l IH]; intros Hin; [exists []; split; constructor|]. destruct IH as (tips & H1 & H2); [intros ? ?; apply Hin; by right|].
    destruct (proj2 (ws_tips _ _ _ _ _ Hwf t) (Hin t ltac:(left))) as [tip Htip].
    destruct (ws_tip _ _ _ _ _ Hwf t tip Htip) as [Hlen Hi]. exists (tip :: tips). by split; constructor. }
  by apply Hl.
Qed.

Lemma keySetSize_spec tips : length tips = 3%nat -> Forall (fun tip => length (Hash tip) = 32%nat) tips ->
  keySetSize sets ids = len (enc_key_state sets ids tips lastKeyID totalSupply).
Proof.
  intros H3 Htips. pose proof (ws_size _ _ _ _ _ Hwf) as Hsz. unfold keySetSize, enc_key_state, adminKeysOrder.
  change (3 * (HashSize + 4) + KeyIDSize + 8) with 120. cbn [fold_left map concat]. rewrite !len_app, !enc_set_length.
  destruct id_order_spec as (_ & _ & Hidl). fold id_order. rewrite (enc_ids_length _ id_keys).
  replace (len (concat (map enc_tip tips))) with 108.
  2: { destruct tips as [|t1 [|t2 [|t3 [|]]]]; try done. repeat apply Forall_cons in Htips as [? Htips]. cbn [map concat]. unfold enc_tip, len.
       rewrite !length_app, !length_le_encode. cbn [length]. lia. }
  assert (forall n z, len (le_encode n z) = Z.of_nat n) as Hle by (intros; unfold len; by rewrite length_le_encode). rewrite !Hle, len_nil.
  replace (len id_order) with (Z.of_nat (size ids)) by (unfold len; by rewrite Hidl). unfold PubKeyBytesLenCompressed.
  pose proof (len_nonneg (set_of sets RootKeySet)). pose proof (len_nonneg (set_of sets ProvisionKeySet)).
  pose proof (len_nonneg (set_of sets IssueKeySet)). pose proof (len_nonneg (set_of sets ValidateKeySet)).
  repeat match goal with |- context [wrapu 32 ?x] =>
    lazymatch x with context [wrapu] => fail | _ => rewrite (wrapu_small 32 x) by (unfold is_u; lia) end end. lia.
Qed.

Lemma set_sizes : (forall t, len (set_of sets t) < 2 ^ 32) /\ is_u 32 (Z.of_nat (size ids)).
Proof.
  pose proof (ws_size _ _ _ _ _ Hwf). pose proof (len_nonneg (set_of sets RootKeySet)). pose proof (len_nonneg (set_of sets ProvisionKeySet)).
  pose proof (len_nonneg (set_of sets IssueKeySet)). pose proof (len_nonneg (set_of sets ValidateKeySet)).
  split; [|unfold is_u; lia]. intros t. destruct t; try lia. unfold set_of. destruct (sets !! ASPKeySet) as [l|] eqn:E; [|done].
  exfalso. assert (ASPKeySet ∈ adminKeysOrder) as Hin by (apply (ws_sets _ _ _ _ _ Hwf); by exists l).
  unfold adminKeysOrder in Hin. repeat (apply elem_of_cons in Hin as [Hin|Hin]; [discriminate|]). by apply elem_of_nil in Hin.
Qed.

(** The steps of [serializeKeySet] after the buffer is made. *)
Definition put_key_state (d : bytes) (o : Z) : res string (bytes * Z) :=
  '(d, o) ← put_tips threadTips threadOrder d o; d ← PutUint 4 d o lastKeyID;
  d ← PutUint 8 d (o + KeyIDSize) totalSupply; '(d, o) ← put_sets sets adminKeysOrder d (o + KeyIDSize + 8);
  d ← PutUint 4 d o (u32 (Z.of_nat (size ids))); put_key_ids ids id_order d (o + 4).

Lemma serialize_steps : serializeKeySet sets ids threadTips lastKeyID totalSupply =
  (d ← make_bytes (keySetSize sets ids); '(d, _) ← put_key_state d 0; Ok d).
Proof.
  unfold serializeKeySet, put_key_state, id_order. destruct (make_bytes _); [|done..]. cbn [mbind res_bind].
  destruct (put_tips _ _ _ _) as [[? ?]| | |]; [|done..]. cbn [mbind res_bind].
  destruct (PutUint 4 _ _ lastKeyID); [|done..]. cbn [mbind res_bind]. destruct (PutUint 8 _ _ _); [|done..]. cbn [mbind res_bind].
  destruct (put_sets _ _ _ _) as [[? ?]| | |]; [|done..]. cbn [mbind res_bind]. by destruct (PutUint 4 _ _ _).
Qed.

Lemma put_key_state_appends tips :
  Forall2 (fun t tip => threadTips !! t = Some tip /\ length (Hash tip) = 32%nat) threadOrder tips ->
  appends put_key_state (enc_key_state sets ids tips lastKeyID totalSupply).
Proof.
  intros Htips. destruct set_sizes as [Hsets Hids]. unfold enc_key_state. rewrite <- !app_assoc. fold id_order.
  refine (appends_ext _ _ _ _ (appends_then _ _ _ _ (put_tips_appends threadTips threadOrder tips Htips)
    (appends_then _ _ _ _ (appends_uint 4 lastKeyID 4 eq_refl) (appends_then _ _ _ _ (appends_uint 8 totalSupply 8 eq_refl)
      (appends_then _ _ _ _ (put_sets_appends sets adminKeysOrder (ws_keys _ _ _ _ _ Hwf) Hsets)
        (appends_then _ _ _ _ (appends_uint 4 (Z.of_nat (size ids)) 4 eq_refl) (put_key_ids_appends ids id_order id_keys))))))).
  intros d o. unfold put_key_state. rewrite wrapu_small by done.
  unfold KeyIDSize. destruct (put_tips _ _ _ _) as [[? ?]| | |]; [|done..]. cbn [mbind res_bind].
  destruct (PutUint 4 _ _ lastKeyID); [|done..]. cbn [mbind res_bind]. destruct (PutUint 8 _ _ _); [|done..]. cbn [mbind res_bind].
  destruct (put_sets _ _ _ _) as [[? ?]| | |]; [|done..]. cbn [mbind res_bind]. by destruct (PutUint 4 _ _ _).
Qed.

Lemma serializeKeySet_spec tips :
  Forall2 (fun t tip => threadTips !! t = Some tip /\ length (Hash tip) = 32%nat) threadOrder tips ->
  serializeKeySet sets ids threadTips lastKeyID totalSupply = Ok (enc_key_state sets ids tips lastKeyID totalSupply).
Proof.
  intros Htips. rewrite serialize_steps, (keySetSize_spec tips).
  2: { symmetry. exact (Forall2_length _ _ _ Htips). }
  2: { eapply Forall2_Forall_r; [exact Htips|]. apply Forall_forall. by intros t _ tip [_ ?]. }
  pose proof (put_key_state_appends tips Htips) as Hop. set (enc := enc_key_state sets ids tips lastKeyID totalSupply) in *.
  unfold make_bytes. destruct (Z.ltb_spec (len enc) 0); [pose proof (len_nonneg enc); lia|]. cbn [mbind res_bind].
  specialize (Hop [] (replicate (Z.to_nat (len enc)) 0)). cbn [app] in Hop. change (len []) with 0 in Hop.
  rewrite Hop by (rewrite length_replicate; unfold len; lia). cbn [mbind res_bind].
  rewrite drop_ge by (rewrite length_replicate; unfold len; lia). by rewrite app_nil_r.
Qed.

(** ** Reading *)
Lemma get_tips_spec : forall threads tips pre post m, Forall (fun tip => length (Hash tip) = 32%nat /\ is_u 32 (Index tip)) tips ->
  length threads = length tips ->
  get_tips (pre ++ concat (map enc_tip tips) ++ post) threads (len pre) m =
  Ok (fold_left (fun m p => <[fst p := snd p]> m) (zip threads tips) m, len (pre ++ concat (map enc_tip tips))).
Proof.
  induction threads as [|t threads IH]; intros [|tip tips] pre post m Hall Hl; try done; cbn [map concat].
  { cbn [get_tips fold_left zip zip_with]. by rewrite app_nil_r. }
  apply Forall_cons in Hall as [[H32 Hi] Hall]. cbn [get_tips].
  change (enc_tip tip) with (Hash tip ++ le_encode 4 (Index tip)). rewrite <- !app_assoc.
  rewrite (slice_field pre (Hash tip)) by (unfold len, HashSize; by rewrite H32). cbn [mbind res_bind].
  replace (len pre + HashSize) with (len (pre ++ Hash tip)) by (rewrite len_app; unfold len, HashSize; lia).
  rewrite app_assoc, GetUint_field by exact Hi. cbn [mbind res_bind].
  replace (len (pre ++ Hash tip) + 4) with (len ((pre ++ Hash tip) ++ le_encode 4 (Index tip)))
    by (rewrite len_app; unfold len; by rewrite length_le_encode).
  rewrite app_assoc, IH by (try done; cbn in Hl; lia). cbn [zip zip_with fold_left fst snd].
  replace (mkOutPoint (Hash tip) (Index tip)) with tip by (by destruct tip). by rewrite <- !app_assoc.
Qed.

Lemma parse_at_spec k pre post : SecpPrime.valid_key k -> parse_at (pre ++ SerializeCompressed k ++ post) (len pre) = Ok (Some k).
Proof.
  intros Hk. unfold parse_at. rewrite slice_field by (by apply key_length). cbn [mbind res_bind].
  by rewrite SecpPrime.SerializeCompressed_parse.
Qed.

Lemma get_keys_spec keys : Forall SecpPrime.valid_key keys -> forall pre post,
  get_keys (pre ++ enc_keys keys ++ post) (length keys) (len pre) = Ok (keys, len (pre ++ enc_keys keys)).
Proof.
  unfold enc_keys. induction 1 as [|k keys Hk _ IH]; intros pre post; cbn [map concat length get_keys].
  { by rewrite app_nil_r. }
  rewrite <- app_assoc, parse_at_spec by done. cbn [mbind res_bind].
  replace (len pre + PubKeyBytesLenCompressed) with (len (pre ++ SerializeCompressed k)) by (by rewrite len_app, key_length).
  rewrite app_assoc, IH. cbn [mbind res_bind]. by rewrite <- app_assoc.
Qed.

Lemma get_sets_spec order : forall pre post m, len (pre ++ concat (map (fun t => enc_set (set_of sets t)) order) ++ post) < 2 ^ 32 ->
  get_sets (pre ++ concat (map (fun t => enc_set (set_of sets t)) order) ++ post) order (len pre) m =
  Ok (fold_left (fun m t => <[t := set_of sets t]> m) order m, len (pre ++ concat (map (fun t => enc_set (set_of sets t)) order))).
Proof.
  induction order as [|t order IH]; intros pre post m Hsz; cbn [map concat] in *.
  { cbn [get_sets fold_left]. by rewrite app_nil_r. }
  cbn [get_sets]. rewrite slice_from. cbn [mbind res_bind]. set (rest := concat _) in *. set (keys := set_of sets t) in *.
  rewrite <- app_assoc in *. change (enc_set keys) with (le_encode 4 (len keys) ++ enc_keys keys) in *. rewrite <- app_assoc in *.
  pose proof (ws_keys _ _ _ _ _ Hwf t) as Hk. fold keys in Hk. pose proof (enc_keys_length keys Hk) as Hkl.
  pose proof (len_nonneg keys). pose proof (len_nonneg pre). pose proof (len_nonneg (rest ++ post)).
  assert (len (le_encode 4 (len keys)) = 4) as H4 by (unfold len; by rewrite length_le_encode).
  rewrite !(len_app (le_encode 4 _)), H4, !(len_app (enc_keys _)), Hkl.
  rewrite (len_app pre), (len_app (le_encode 4 _)), H4, (len_app (enc_keys _)), Hkl in Hsz.
  destruct (Z.ltb_spec (4 + (len keys * 33 + len (rest ++ post))) 4); [lia|].
  rewrite GetUint_field by lia. cbn [mbind res_bind].
  assert (len pre + 4 = len (pre ++ le_encode 4 (len keys))) as -> by (rewrite len_app; lia).
  rewrite app_assoc, slice_from. cbn [mbind res_bind]. rewrite (len_app (enc_keys _)), Hkl. unfold PubKeyBytesLenCompressed.
  rewrite !(wrapu_small 32) by (unfold is_u; lia).
  destruct (Z.ltb_spec (len keys * 33 + len (rest ++ post)) (len keys * 33)); [lia|].
  replace (Z.to_nat (len keys)) with (length keys) by (unfold len; lia). rewrite get_keys_spec by done. cbn [mbind res_bind].
  rewrite app_assoc, IH by (rewrite !len_app, Hkl, H4 in *; unfold rest in *; lia). cbn [fold_left]. by rewrite <- !app_assoc.
Qed.

Lemma get_key_ids_spec l : Forall (fun id => is_u 32 id /\ exists k, get_key ids id = Some k /\ SecpPrime.valid_key k) l ->
  forall pre post m, get_key_ids (pre ++ concat (map (enc_id ids) l) ++ post) (length l) (len pre) m =
  Ok (fold_left (fun m id => <[id := get_key ids id]> m) l m).
Proof.
  induction 1 as [|id l (Hid & k & Hk & Hv) _ IH]; intros pre post m; [done|].
  cbn [map concat length get_key_ids fold_left].
  assert (enc_id ids id = le_encode 4 id ++ SerializeCompressed k) as -> by (unfold enc_id; by rewrite Hk).
  rewrite Hk, <- !app_assoc.
  rewrite GetUint_field by exact Hid. cbn [mbind res_bind].
  assert (len pre + 4 = len (pre ++ le_encode 4 id)) as -> by (rewrite len_app; unfold len; by rewrite length_le_encode).
  rewrite app_assoc, parse_at_spec by done. cbn [mbind res_bind].
  replace (len (pre ++ le_encode 4 id) + PubKeyBytesLenCompressed) with (len ((pre ++ le_encode 4 id) ++ SerializeCompressed k))
    by (by rewrite (len_app (pre ++ _)), key_length).
  rewrite app_assoc. apply IH.
Qed.

Lemma fold_insert {K V} `{Countable K} (f : K -> V) l : forall (m : gmap K V) k,
  fold_left (fun m k => <[k := f k]> m) l m !! k = if decide (k ∈ l) then Some (f k) else m !! k.
Proof.
  induction l as [|k0 l IH]; intros m k; cbn [fold_left]; [rewrite decide_False; [done | apply not_elem_of_nil]|].
  rewrite IH. destruct (decide (k ∈ l)) as [Hin|Hin]; [rewrite decide_True; [done | by right]|].
  destruct (decide (k = k0)) as [->|Hne].
  - rewrite lookup_insert_eq, decide_True; [done | left].
  - rewrite lookup_insert_ne, decide_False; [done | by apply not_elem_of_cons | done].
Qed.

Lemma read_ids : fold_left (fun m id => <[id := get_key ids id]> m) id_order ∅ = ids.
Proof.
  apply map_eq. intros id. rewrite fold_insert. destruct id_order_spec as (_ & Hin & _).
  destruct (ids !! id) as [ok|] eqn:E.
  - rewrite decide_True by (apply Hin; by exists ok). unfold get_key. by rewrite E.
  - rewrite decide_False; [done|]. rewrite Hin, E. by intros [? ?].
Qed.

Lemma read_sets : fold_left (fun m t => <[t := set_of sets t]> m) adminKeysOrder ∅ = sets.
Proof.
  apply map_eq. intros t. rewrite fold_insert. pose proof (ws_sets _ _ _ _ _ Hwf t) as Hin.
  destruct (sets !! t) as [l|] eqn:E.
  - rewrite decide_True by (apply Hin; by exists l). unfold set_of. by rewrite E.
  - rewrite decide_False; [done|]. intros Hx. by apply Hin in Hx as [? ?].
Qed.

Lemma read_tips tips :
  Forall2 (fun t tip => threadTips !! t = Some tip /\ length (Hash tip) = 32%nat) threadOrder tips ->
  fold_left (fun m p => <[fst p := snd p]> m) (zip threadOrder tips) ∅ = threadTips.
Proof.
  intros Htips. assert (forall l tips (m : gmap Z OutPoint), Forall2 (fun t tip => threadTips !! t = Some tip /\ length (Hash tip) = 32%nat) l tips ->
    fold_left (fun m p => <[fst p := snd p]> m) (zip l tips) m =
    fold_left (fun m t => <[t := default (mkOutPoint [] 0) (threadTips !! t)]> m) l m) as Hf.
  { intros l0 tips0 m Hl. revert m. induction Hl as [|t tip l tips1 [Ht _] _ IH]; intros m; [done|].
    cbn [zip zip_with fold_left fst snd]. rewrite Ht. apply IH. }
  rewrite Hf by done. apply map_eq. intros t. rewrite fold_insert. pose proof (ws_tips _ _ _ _ _ Hwf t) as Hin.
  destruct (threadTips !! t) as [tip|] eqn:E.
  - rewrite decide_True by (apply Hin; by exists tip). done.
  - rewrite decide_False; [done|]. intros Hx. by apply Hin in Hx as [? ?].
Qed.

Lemma deserializeKeySet_spec tips :
  Forall2 (fun t tip => threadTips !! t = Some tip /\ length (Hash tip) = 32%nat) threadOrder tips ->
  Forall (fun tip => is_u 32 (Index tip)) tips ->
  deserializeKeySet (enc_key_state sets ids tips lastKeyID totalSupply) = Ok (sets, ids, threadTips, lastKeyID, totalSupply).
Proof.
  intros Htips Hidx. pose proof (read_tips tips Htips) as Hrt. pose proof (Forall2_length _ _ _ Htips) as Hl3.
  assert (Forall (fun tip => length (Hash tip) = 32%nat) tips) as H32.
  { eapply Forall2_Forall_r; [exact Htips|]. apply Forall_forall. by intros t _ tip [_ ?]. }
  pose proof (keySetSize_spec tips (eq_sym Hl3) H32) as Hsize. destruct set_sizes as [_ Hids].
  assert (len (enc_key_state sets ids tips lastKeyID totalSupply) < 2 ^ 32) as Hlt.
  { rewrite <- Hsize. unfold keySetSize. apply wrapu_range. lia. }
  clear Hsize. destruct (ws_counters _ _ _ _ _ Hwf) as [Hlast Htot]. destruct id_order_spec as (_ & _ & Hidl).
  unfold deserializeKeySet, enc_key_state in *. fold id_order in *.
  set (T := concat (map enc_tip tips)) in *. set (L := le_encode 4 lastKeyID) in *. set (P := le_encode 8 totalSupply) in *.
  set (A := concat (map (fun t => enc_set (set_of sets t)) adminKeysOrder)) in *. set (N := le_encode 4 (Z.of_nat (size ids))) in *.
  set (I := concat (map (enc_id ids) id_order)) in *.
  assert (len L = 4 /\ len P = 8 /\ len N = 4) as (HL & HP & HN) by (unfold L, P, N, len; by rewrite !length_le_encode).
  assert (len I = 37 * Z.of_nat (size ids)) as HI by (unfold I; rewrite (enc_ids_length _ id_keys); unfold len; by rewrite Hidl).
  assert (get_tips (T ++ (L ++ P) ++ A ++ N ++ I) threadOrder 0 ∅ = Ok (threadTips, len T)) as HT.
  { pose proof (get_tips_spec threadOrder tips [] ((L ++ P) ++ A ++ N ++ I) ∅) as Hg. rewrite Hrt in Hg. apply Hg; [|done].
    rewrite Forall_forall in *. auto. }
  assert (len T = 108) as HTl.
  { destruct tips as [|t1 [|t2 [|t3 [|]]]]; try done. repeat apply Forall_cons in H32 as [? H32]. unfold T. cbn [map concat].
    unfold enc_tip, len. rewrite !length_app, !length_le_encode. cbn [length]. lia. }
  rewrite !len_app in Hlt. pose proof (len_nonneg A). pose proof (len_nonneg I).
  destruct (Z.ltb_spec (len (T ++ (L ++ P) ++ A ++ N ++ I)) (3 * (HashSize + 4) + KeyIDSize + 8));
    [rewrite !len_app in *; unfold HashSize, KeyIDSize in *; lia|].
  assert (forall pre post, GetUint (E := error) 4 (pre ++ L ++ post) (len pre) = Ok lastKeyID) as GL by (intros; by apply GetUint_field).
  assert (forall pre post, GetUint (E := error) 8 (pre ++ P ++ post) (len pre) = Ok totalSupply) as GP by (intros; by apply GetUint_field).
  assert (forall pre post, GetUint (E := error) 4 (pre ++ N ++ post) (len pre) = Ok (Z.of_nat (size ids))) as GN by (intros; by apply GetUint_field).
  rewrite HT. cbn [mbind res_bind]. rewrite <- !app_assoc, GL. cbn [mbind res_bind].
  replace (len T + KeyIDSize) with (len (T ++ L)) by (rewrite len_app; unfold KeyIDSize; lia).
  rewrite app_assoc, GP. cbn [mbind res_bind].
  replace (len (T ++ L) + 8) with (len ((T ++ L) ++ P)) by (rewrite len_app; lia).
  rewrite app_assoc. unfold A. rewrite get_sets_spec by (fold A; rewrite !len_app; lia). fold A. cbn [mbind res_bind]. rewrite read_sets.
  assert (forall l : bytes, len l < 2 ^ 32 -> u32 (len l) = len l) as Hw by (intros l ?; apply wrapu_small; pose proof (len_nonneg l); unfold is_u; lia).
  set (pre := (T ++ L) ++ P) in *. rewrite (app_assoc pre A), slice_from. cbn [mbind res_bind].
  destruct (Z.ltb_spec (len (N ++ I)) 4); [rewrite len_app in *; lia|].
  rewrite GN. cbn [mbind res_bind].
  replace (len (pre ++ A) + 4) with (len ((pre ++ A) ++ N)) by (rewrite (len_app (pre ++ A)); lia).
  rewrite (app_assoc (pre ++ A)), slice_from. cbn [mbind res_bind]. rewrite (Hw I) by lia.
  unfold PubKeyBytesLenCompressed. rewrite wrapu_small by (unfold is_u; lia).
  destruct (Z.ltb_spec (len I) (Z.of_nat (size ids) * (4 + 33))); [lia|]. rewrite Nat2Z.id, <- Hidl.
  pose proof (get_key_ids_spec id_order id_keys ((pre ++ A) ++ N) [] ∅) as Hg. rewrite app_nil_r, read_ids in Hg. fold I in Hg.
  by rewrite Hg.
Qed.

End key_state.

(** C21: the admin state.  What [serializeKeySet] writes, [deserializeKeySet] reads
    back: the admin key sets, the keys of the account service providers by their
    ids, the tips of the three threads, the last key id and the total supply. *)
Theorem key_state_roundtrip sets ids threadTips lastKeyID totalSupply :
  wf_key_state sets ids threadTips lastKeyID totalSupply ->
  exists serialized, serializeKeySet sets ids threadTips lastKeyID totalSupply = Ok serialized /\
    deserializeKeySet serialized = Ok (sets, ids, threadTips, lastKeyID, totalSupply).
Proof.
  intros Hwf. destruct (tips_spec _ _ _ _ _ Hwf) as (tips & Htips & Hidx). eexists. split.
  - by apply serializeKeySet_spec.
  - by apply deserializeKeySet_spec.
Qed.

(** ** An example: one key in the root set, and one provider. *)
Definition example_sets : gmap KeySetType PublicKeySet :=
  {[ RootKeySet := [SecpPrime.example_key]; ProvisionKeySet := []; IssueKeySet := []; ValidateKeySet := [SecpPrime.example_key] ]}.
Definition example_ids : KeyIdMap := {[ 65537 := Some SecpPrime.example_key ]}.
Definition example_tips : gmap Z OutPoint :=
  {[ 0 := mkOutPoint (replicate 32 5) 0; 1 := mkOutPoint (replicate 32 5) 1; 2 := mkOutPoint (replicate 32 5) 2 ]}.

Lemma example_wf_state : wf_key_state example_sets example_ids example_tips 65537 1000.
Proof.
  split.
  - intros t. unfold example_tips, threadOrder, RootThread, ProvisionThread, IssueThread. rewrite !elem_of_cons, elem_of_nil.
    destruct (decide (t = 0)) as [->|H0]; [split; [by left | done]|]. destruct (decide (t = 1)) as [->|H1]; [split; [by right; left | done]|].
    destruct (decide (t = 2)) as [->|H2]; [split; [by right; right; left | done]|].
    rewrite !lookup_insert_ne, lookup_singleton_ne by done. split; [by intros [? ?] | naive_solver].
  - intros t tip. unfold example_tips. rewrite !lookup_insert_Some, lookup_singleton_Some. unfold is_u. naive_solver lia.
  - intros t. apply (bool_decide_unpack _). by destruct t; vm_compute.
  - intros []; repeat constructor; apply SecpPrime.valid_example_key.
  - intros id ok. unfold example_ids. rewrite lookup_singleton_Some. intros [<- <-]. split; [unfold is_u; lia|].
    exists SecpPrime.example_key. split; [done | apply SecpPrime.valid_example_key].
  - unfold is_u. lia.
  - vm_compute. reflexivity.
Qed.

Lemma key_state_roundtrip_witness :
  exists serialized, serializeKeySet example_sets example_ids example_tips 65537 1000 = Ok serialized /\
    deserializeKeySet serialized = Ok (example_sets, example_ids, example_tips, 65537, 1000).
Proof. apply (key_state_roundtrip example_sets example_ids example_tips 65537 1000). exact example_wf_state. Defined.

End StateSpec.
