(* ===== verification/JournalSpec.v ===== *)
(** The spend journal: what a block spent is read back when the block is
    disconnected. *)
From S2P Require Import Prelude Wire Crypto Script Compress SigCache Utxo UtxoSpec Header MsgBlock Database Validate ChainIO ChainIOSpec.
Import wire Crypto Script Compress Utxo UtxoSpec Validate ChainIO ChainIOSpec.
#[local] Open Scope Z_scope.

Module JournalSpec.

(** * One entry *)

(** What a record says of the output. *)
Definition stxo_data (stxo : spentTxOut) : option (Z * option bytes) :=
  contents (mkUtxoOutput false (stxo_compressed stxo) (stxo_amount stxo) (stxo_pkScript stxo)).

Definition same_stxo (s1 s2 : spentTxOut) : Prop :=
  stxo_data s1 = stxo_data s2 /\ stxo_version s1 = stxo_version s2 /\ stxo_height s1 = stxo_height s2 /\
  stxo_isCoinBase s1 = stxo_isCoinBase s2.

Definition wf_stxo (stxo : spentTxOut) : Prop :=
  is_s 32 (stxo_version stxo) /\ is_u 32 (stxo_height stxo) /\
  exists a s, stored (stxo_compressed stxo) (stxo_amount stxo) (stxo_pkScript stxo) a s.

(** What is needed of a record that stores no height: a record of version 0 is
    refused, and the flag is not stored. *)
Definition plain (stxo : spentTxOut) : Prop := stxo_version stxo <> 0 /\ stxo_isCoinBase stxo = false.

(** The stored form of a record. *)
Definition enc_stxo (stxo : spentTxOut) : bytes :=
  let code := spentTxOutHeaderCode stxo in
  vlq code ++ (if code =? 0 then [] else vlq (u64 (stxo_version stxo))) ++
  match stxo_data stxo with Some (a, Some s) => compress_txout a s | _ => [] end.

(** The record that is read from it. *)
Definition canon (stxo : spentTxOut) : spentTxOut :=
  match stxo_data stxo with
  | Some (a, Some s) =>
      mkSpentTxOut true (stxo_version stxo) (i64 (compressTxOutAmount a)) (Some (compress_script s))
        (stxo_height stxo) (stxo_isCoinBase stxo)
  | _ => stxo
  end.

Lemma wf_stxo_data stxo a s :
  stored (stxo_compressed stxo) (stxo_amount stxo) (stxo_pkScript stxo) a s -> stxo_data stxo = Some (a, Some s).
Proof. intros Hst. by apply stored_contents. Qed.

Lemma same_canon stxo : wf_stxo stxo -> same_stxo stxo (canon stxo).
Proof.
  intros (_ & _ & a & s & Hst). unfold canon. rewrite (wf_stxo_data stxo a s Hst). split_and!; try done.
  rewrite (wf_stxo_data stxo a s Hst). symmetry. apply wf_stxo_data. by eapply stored_compressed.
Qed.

Lemma wf_canon stxo : wf_stxo stxo -> wf_stxo (canon stxo).
Proof.
  intros (Hv & Hh & a & s & Hst). unfold canon. rewrite (wf_stxo_data stxo a s Hst). split_and!; try done.
  exists a, s. by eapply stored_compressed.
Qed.

Lemma header_code_height stxo : is_u 32 (stxo_height stxo) -> stxo_height stxo <> 0 ->
  let code := spentTxOutHeaderCode stxo in
  is_u 64 code /\ code <> 0 /\ u32 (code ≫ 1) = stxo_height stxo /\ negb (Z.land code 0x01 =? 0) = stxo_isCoinBase stxo.
Proof.
  intros Hh Hne. unfold spentTxOutHeaderCode. rewrite (proj2 (Z.eqb_neq _ _) Hne).
  set (h := stxo_height stxo) in *. unfold is_u in Hh.
  rewrite wrapu_small by (unfold is_u; rewrite Z.shiftl_mul_pow2 by lia; lia).
  assert (Z.lor (h ≪ 1) 1 = h * 2 + 1) as E1 by (by rewrite lor_shiftl_add by lia).
  assert (h ≪ 1 = h * 2) as E0 by (rewrite Z.shiftl_mul_pow2 by lia; lia).
  rewrite !Z.shiftr_div_pow2, (land_ones_mod _ 1) by lia. change (2 ^ 1) with 2.
  destruct (stxo_isCoinBase stxo); cbn zeta; rewrite ?E1, ?E0; unfold is_u; split_and!; try lia.
  - rewrite Z.div_add_l, Z.div_small, Z.add_0_r, wrapu_small by (unfold is_u; lia). done.
  - rewrite Z.add_comm, Z.mod_add by lia. done.
  - rewrite Z.div_mul, wrapu_small by (unfold is_u; lia). done.
  - rewrite Z.mod_mul by lia. done.
Qed.

Lemma header_code_zero stxo : stxo_height stxo = 0 -> spentTxOutHeaderCode stxo = 0.
Proof. intros H. unfold spentTxOutHeaderCode. by rewrite H. Qed.

Lemma header_code_u64 stxo : wf_stxo stxo -> is_u 64 (spentTxOutHeaderCode stxo).
Proof.
  intros (_ & Hh & _). destruct (decide (stxo_height stxo = 0)) as [H0|H0].
  - rewrite header_code_zero by done. unfold is_u. lia.
  - by apply header_code_height.
Qed.

Lemma spentTxOutSerializeSize_spec stxo : wf_stxo stxo -> spentTxOutSerializeSize stxo = Ok (len (enc_stxo stxo)).
Proof.
  intros Hwf. pose proof (header_code_u64 stxo Hwf) as Hc. destruct Hwf as (_ & _ & a & s & Hst).
  unfold spentTxOutSerializeSize, enc_stxo. rewrite (wf_stxo_data stxo a s Hst). cbn zeta.
  rewrite (serializeSizeVLQ_spec (spentTxOutHeaderCode stxo) Hc). cbn [mbind res_bind]. rewrite !len_app.
  destruct (spentTxOutHeaderCode stxo =? 0); cbn [negb].
  - cbn [mbind res_bind]. rewrite (stored_size _ _ _ a s) by done. cbn [mbind res_bind]. f_equal.
  - rewrite serializeSizeVLQ_spec by (apply wrapu_range; lia). cbn [mbind res_bind].
    rewrite (stored_size _ _ _ a s) by done. cbn [mbind res_bind]. f_equal. lia.
Qed.

Lemma putSpentTxOut_writes stxo : wf_stxo stxo -> writes (fun t => putSpentTxOut t stxo) (enc_stxo stxo).
Proof.
  intros Hwf mid post Hl. pose proof (header_code_u64 stxo Hwf) as Hc. destruct Hwf as (_ & _ & a & s & Hst).
  unfold putSpentTxOut, enc_stxo in *. rewrite (wf_stxo_data stxo a s Hst) in *. cbn zeta in *.
  rewrite !length_app in Hl.
  rewrite (writes_front (fun t => putVLQ t (spentTxOutHeaderCode stxo)) (vlq (spentTxOutHeaderCode stxo)))
    by (by apply writes_vlq || (rewrite length_app; lia)).
  cbn [mbind res_bind]. destruct (spentTxOutHeaderCode stxo =? 0); cbn [negb app length] in *.
  - cbn [mbind res_bind]. rewrite (at_offset_writes _ (compress_txout a s))
      by (by apply stored_writes || (rewrite length_drop, length_app; lia)).
    rewrite drop_drop, drop_app_length' by lia. done.
  - rewrite (at_offset_writes _ (vlq (u64 (stxo_version stxo))))
      by ((apply writes_vlq, wrapu_range; lia) || (rewrite length_drop, length_app; lia)).
    cbn [mbind res_bind]. rewrite (at_offset_writes _ (compress_txout a s))
      by (by apply stored_writes || (rewrite !length_drop, length_app; lia)).
    rewrite !drop_drop, drop_app_length' by lia. by rewrite <- !app_assoc.
Qed.

Lemma decode_stxo_out_spec pre stxo rest version height cb a s :
  stored (stxo_compressed stxo) (stxo_amount stxo) (stxo_pkScript stxo) a s ->
  decode_stxo_out (pre ++ compress_txout a s ++ rest) (len pre) version height cb =
  Ok (mkSpentTxOut true version (i64 (compressTxOutAmount a)) (Some (compress_script s)) height cb,
      len pre + len (compress_txout a s)).
Proof.
  intros Hst. unfold decode_stxo_out. rewrite slice_from. cbn [mbind res_bind].
  by rewrite (stored_decode _ _ _ a s Hst).
Qed.

Lemma decode_stxo stxo rest txVersion : wf_stxo stxo ->
  (stxo_height stxo = 0 -> txVersion = stxo_version stxo /\ plain stxo) ->
  decodeSpentTxOut (enc_stxo stxo ++ rest) zero_stxo txVersion = Ok (canon stxo, len (enc_stxo stxo)).
Proof.
  intros Hwf Hver. pose proof (header_code_u64 stxo Hwf) as Hc. destruct Hwf as (Hv & Hh & a & s & Hst).
  unfold decodeSpentTxOut, enc_stxo, canon. rewrite (wf_stxo_data stxo a s Hst). cbn zeta.
  set (code := spentTxOutHeaderCode stxo) in *. pose proof (compress_txout_pos a s) as Hpos.
  pose proof (vlq_length code) as Hl1. pose proof (len_nonneg rest) as Hl2.
  rewrite <- !app_assoc, deserializeVLQ_vlq by done. rewrite !len_app.
  pose proof (len_nonneg (if code =? 0 then [] else vlq (u64 (stxo_version stxo)))) as Hl3.
  destruct (Z.eqb_spec (len (vlq code) + (len (if code =? 0 then [] else vlq (u64 (stxo_version stxo))) + (len (compress_txout a s) + len rest))) 0); [lia|].
  destruct (Z.leb_spec (len (vlq code) + (len (if code =? 0 then [] else vlq (u64 (stxo_version stxo))) + (len (compress_txout a s) + len rest))) (len (vlq code))); [lia|].
  destruct (decide (stxo_height stxo = 0)) as [H0|H0].
  - rewrite (header_code_zero _ H0 : code = 0). cbn [Z.eqb negb app]. destruct (Hver H0) as (-> & Hv0 & Hcb).
    rewrite (proj2 (Z.eqb_neq _ _) Hv0). rewrite (decode_stxo_out_spec _ stxo) by done.
    by rewrite Hcb, H0.
  - destruct (header_code_height stxo Hh H0) as (_ & Hne & Hheight & Hflag). fold code in Hne, Hheight, Hflag.
    rewrite (proj2 (Z.eqb_neq _ _) Hne) in *. cbn [negb].
    set (v := vlq (u64 (stxo_version stxo))) in *.
    pose proof (@slice_from error Z (vlq code) (v ++ compress_txout a s ++ rest)) as Hsl. rewrite !len_app in Hsl.
    rewrite Hsl. cbn [mbind res_bind]. unfold v at 1. rewrite deserializeVLQ_vlq by (apply wrapu_range; lia). fold v.
    destruct (Z.leb_spec (len (vlq code) + (len v + (len (compress_txout a s) + len rest))) (len (vlq code) + len v)); [lia|].
    rewrite <- len_app, (app_assoc (vlq code)), (decode_stxo_out_spec _ stxo) by done.
    rewrite Hheight, Hflag, i32_u64 by done. rewrite !len_app. f_equal. f_equal. lia.
Qed.

(** * The journal *)

(** The versions of the records that do not store one are found: in the view, or
    in a record read before for the same transaction.  [F] has the versions of
    the latter. *)
Fixpoint resolves (w : UtxoViewpoint) (rev_ins : list TxIn) (rev_stxos : list spentTxOut) (F : gmap bytes Z) : Prop :=
  match rev_ins, rev_stxos with
  | [], [] => True
  | ti :: ins, stxo :: st =>
      let h := Hash (PreviousOutPoint ti) in
      match LookupEntry w h with
      | Some e => (stxo_height stxo = 0 -> ent_version e = stxo_version stxo /\ plain stxo) /\ resolves w ins st F
      | None =>
          match F !! h with
          | Some v => (stxo_height stxo = 0 -> v = stxo_version stxo /\ plain stxo) /\ resolves w ins st F
          | None => stxo_height stxo <> 0 /\ resolves w ins st (<[h := stxo_version stxo]> F)
          end
      end
  | _, _ => False
  end.

Definition enc_journal (rev_stxos : list spentTxOut) : bytes := concat (map enc_stxo rev_stxos).

(** The map of the positions in flight, for the records from [k] on. *)
Definition in_flight (F infl : gmap bytes Z) (k : Z) (stxos : list spentTxOut) : Prop :=
  forall h, match infl !! h with
            | Some i => k <= i /\ exists s, stxos !! Z.to_nat i = Some s /\ F !! h = Some (stxo_version s)
            | None => F !! h = None
            end.

Lemma canon_version stxo : stxo_version (canon stxo) = stxo_version stxo.
Proof. unfold canon. by destruct (stxo_data stxo) as [[? [?|]]|]. Qed.

Lemma in_flight_record F infl k stxo done :
  in_flight F infl (Z.of_nat (S k)) (replicate (S k) zero_stxo ++ done) ->
  in_flight F infl (Z.of_nat k) (replicate k zero_stxo ++ canon stxo :: done).
Proof.
  intros Hi h. specialize (Hi h). destruct (infl !! h) as [i|]; [|done]. destruct Hi as (Hk & s & Hs & HF).
  split; [lia|]. exists s. split; [|done].
  rewrite lookup_app_r in Hs |- * by (rewrite length_replicate; lia). rewrite length_replicate in Hs |- *.
  by replace (Z.to_nat i - k)%nat with (S (Z.to_nat i - S k)) by lia.
Qed.

Lemma in_flight_add F infl h k stxo done :
  in_flight F infl (Z.of_nat (S k)) (replicate (S k) zero_stxo ++ done) ->
  in_flight (<[h := stxo_version stxo]> F) (<[h := Z.of_nat k]> infl) (Z.of_nat k)
    (replicate k zero_stxo ++ canon stxo :: done).
Proof.
  intros Hi h'. destruct (decide (h' = h)) as [->|Hne].
  - rewrite !lookup_insert_eq. split; [lia|]. exists (canon stxo). rewrite canon_version. split; [|done].
    rewrite Nat2Z.id, lookup_app_r, length_replicate, Nat.sub_diag by (rewrite length_replicate; lia). done.
  - rewrite !lookup_insert_ne by done. apply (in_flight_record _ _ _ stxo) in Hi. apply Hi.
Qed.

(** One record: its version is found, and the rest resolves. *)
Lemma resolve_step w ti ins stxo st F infl done :
  let h := Hash (PreviousOutPoint ti) in let k := length st in
  let stxos := replicate (S k) zero_stxo ++ done in
  resolves w (ti :: ins) (stxo :: st) F -> in_flight F infl (Z.of_nat (S k)) stxos ->
  exists txVersion infl' F',
    match LookupEntry w h with
    | Some entry => Ok (ent_version entry, infl)
    | None => match infl !! h with
              | Some i => s ← idx stxos i; Ok (stxo_version s, infl)
              | None => Ok (0, <[h := Z.of_nat k]> infl)
              end
    end = Ok (E := error) (txVersion, infl') /\
    (stxo_height stxo = 0 -> txVersion = stxo_version stxo /\ plain stxo) /\
    resolves w ins st F' /\ in_flight F' infl' (Z.of_nat k) (replicate k zero_stxo ++ canon stxo :: done).
Proof.
  cbn zeta. cbn [resolves]. intros Hr Hi. set (h := Hash (PreviousOutPoint ti)) in *.
  destruct (LookupEntry w h) as [e|].
  { destruct Hr as [Hv Hr]. eexists _, infl, F. split; [done|]. split; [exact Hv|]. split; [exact Hr|]. by apply in_flight_record. }
  pose proof (Hi h) as Hh. destruct (infl !! h) as [i|].
  - destruct Hh as (Hk & s & Hs & HF). rewrite HF in Hr. destruct Hr as [Hv Hr].
    assert (idx (E := error) (replicate (S (length st)) zero_stxo ++ done) i = Ok s) as ->.
    { apply idx_Ok. pose proof (lookup_lt_Some _ _ _ Hs). unfold len. split; [lia | done]. }
    eexists _, infl, F. split; [done|]. split; [exact Hv|]. split; [exact Hr|]. by apply in_flight_record.
  - rewrite Hh in Hr. destruct Hr as [Hv Hr]. eexists _, _, _.
    split; [done|]. split; [done|]. split; [exact Hr|]. by apply in_flight_add.
Qed.

Lemma read_stxos_spec w rev_ins : forall rev_stxos F infl pre post done,
  Forall wf_stxo rev_stxos -> resolves w rev_ins rev_stxos F ->
  in_flight F infl (len rev_stxos) (replicate (length rev_stxos) zero_stxo ++ done) ->
  exists infl', read_stxos (pre ++ enc_journal rev_stxos ++ post) w rev_ins
    (len rev_stxos - 1, infl, len pre, replicate (length rev_stxos) zero_stxo ++ done) =
  Ok (-1, infl', len (pre ++ enc_journal rev_stxos), reverse (map canon rev_stxos) ++ done).
Proof.
  induction rev_ins as [|ti ins IH]; intros [|stxo st] F infl pre post done Hwf Hr Hi; try (exfalso; exact Hr).
  { exists infl. cbn. by rewrite app_nil_r. }
  apply Forall_cons in Hwf as [Hws Hwf]. cbn [read_stxos]. unfold enc_journal. cbn [map concat length].
  rewrite len_cons in Hi |- *. replace (1 + len st - 1) with (Z.of_nat (length st)) by (unfold len; lia).
  replace (1 + len st) with (Z.of_nat (S (length st))) in Hi by (unfold len; lia). cbn [length] in Hi.
  assert (replicate (S (length st)) zero_stxo ++ done = replicate (length st) zero_stxo ++ zero_stxo :: done) as Hrep
    by (by rewrite <- Nat.add_1_r, replicate_add, <- app_assoc).
  assert (Z.of_nat (length st) = len (replicate (length st) zero_stxo)) as Hk by (by rewrite len_replicate).
  assert (idx (E := error) (replicate (S (length st)) zero_stxo ++ done) (Z.of_nat (length st)) = Ok zero_stxo) as ->
    by (rewrite Hrep, Hk; apply idx_middle).
  cbn [mbind res_bind]. destruct (resolve_step w ti ins stxo st F infl done Hr Hi) as (ver & infl2 & F2 & -> & Hver & Hr2 & Hi2).
  cbn [mbind res_bind]. rewrite slice_from. cbn [mbind res_bind]. rewrite <- app_assoc, decode_stxo by done.
  assert (set_idx (E := error) (replicate (S (length st)) zero_stxo ++ done) (Z.of_nat (length st)) (canon stxo) =
    Ok (replicate (length st) zero_stxo ++ canon stxo :: done)) as -> by (rewrite Hrep, Hk; apply set_idx_middle).
  cbn [mbind res_bind]. rewrite <- len_app. fold (enc_journal st). rewrite (app_assoc pre).
  change (Z.of_nat (length st)) with (len st) in Hi2 |- *.
  destruct (IH st F2 infl2 (pre ++ enc_stxo stxo) post (canon stxo :: done) Hwf Hr2 Hi2) as (infl3 & ->).
  exists infl3. rewrite reverse_cons, <- !app_assoc. done.
Qed.

Lemma read_stxos_app serialized w a b st :
  read_stxos serialized w (a ++ b) st = (st ← read_stxos serialized w a st; read_stxos serialized w b st).
Proof.
  revert st. induction a as [|ti a IH]; intros [[[k infl] off] stxos]; cbn [app read_stxos]; [done|].
  destruct (idx stxos k) as [s0| | |]; [|done..]. cbn [mbind res_bind].
  destruct (match LookupEntry w _ with Some _ => _ | None => _ end) as [[ver infl']| | |]; [|done..]. cbn [mbind res_bind].
  destruct (slice _ _ _); [|done..]. cbn [mbind res_bind]. destruct (decodeSpentTxOut _ _ _) as [[s1 n]| | |]; [|done..].
  destruct (set_idx _ _ _); [|done..]. cbn [mbind res_bind]. apply IH.
Qed.

Lemma read_journal_flat serialized w txns st :
  read_journal serialized w (reverse txns) st = read_stxos serialized w (reverse (concat (map tx_TxIn txns))) st.
Proof.
  assert (forall rev_txns st, read_journal serialized w rev_txns st =
            read_stxos serialized w (concat (map (fun tx => reverse (tx_TxIn tx)) rev_txns)) st) as Hj.
  { induction rev_txns as [|tx rest IH]; intros st'; [done|]. cbn [read_journal map concat]. rewrite read_stxos_app.
    destruct (read_stxos _ _ (reverse (tx_TxIn tx)) st'); [|done..]. cbn [mbind res_bind]. apply IH. }
  rewrite Hj. f_equal. clear. induction txns as [|tx txns IH]; [done|].
  rewrite reverse_cons, map_app, concat_app, IH. cbn [map concat]. by rewrite app_nil_r, reverse_app.
Qed.

Lemma journal_size_spec stxos size : Forall wf_stxo stxos ->
  journal_size stxos size = Ok (size + len (enc_journal stxos)).
Proof.
  intros Hwf. revert size. induction Hwf as [|stxo stxos Hs Hwf IH]; intros size; cbn [journal_size].
  - f_equal. unfold enc_journal. cbn [map concat]. rewrite len_nil. lia.
  - rewrite spentTxOutSerializeSize_spec by done. cbn [mbind res_bind]. rewrite IH. f_equal.
    unfold enc_journal. cbn [map concat]. rewrite len_app. lia.
Qed.

Lemma put_stxos_spec rev_stxos pre todo : Forall wf_stxo rev_stxos -> length todo = length (enc_journal rev_stxos) ->
  put_stxos rev_stxos (pre ++ todo) (len pre) = Ok (pre ++ enc_journal rev_stxos).
Proof.
  intros Hwf. revert pre todo. induction Hwf as [|stxo st Hs Hwf IH]; intros pre todo Hl; cbn [put_stxos].
  - by destruct todo.
  - unfold enc_journal in *. cbn [map concat] in *. rewrite length_app in Hl.
    rewrite (at_offset_writes _ (enc_stxo stxo)) by (by apply putSpentTxOut_writes || lia). cbn [mbind res_bind].
    rewrite IH by (rewrite length_drop; lia). by rewrite <- app_assoc.
Qed.

Lemma concat_perm_length {A} (l1 l2 : list (list A)) : l1 ≡ₚ l2 -> length (concat l1) = length (concat l2).
Proof. induction 1; cbn [concat]; rewrite ?length_app; lia. Qed.

Lemma length_enc_reverse stxos : length (enc_journal (reverse stxos)) = length (enc_journal stxos).
Proof. apply concat_perm_length, Permutation_map, reverse_Permutation. Qed.

Lemma serialize_journal stxos : Forall wf_stxo stxos -> serializeSpendJournalEntry stxos = Ok (enc_journal (reverse stxos)).
Proof.
  intros Hwf. unfold serializeSpendJournalEntry. destruct stxos as [|stxo stxos]; [done|].
  destruct (Z.eqb_spec (len (stxo :: stxos)) 0) as [H0|_]; [by apply len_0 in H0|].
  rewrite journal_size_spec by done. cbn [mbind res_bind]. unfold make_bytes.
  pose proof (len_nonneg (enc_journal (stxo :: stxos))). destruct (Z.ltb_spec (0 + len (enc_journal (stxo :: stxos))) 0); [lia|].
  cbn [mbind res_bind]. pose proof (put_stxos_spec (reverse (stxo :: stxos)) []) as Hp. cbn [app] in Hp. apply Hp.
  - by apply Forall_reverse.
  - rewrite length_replicate. unfold len. 
    rewrite length_enc_reverse. lia.
Qed.

Lemma resolves_length w a b F : resolves w a b F -> length a = length b.
Proof.
  revert b F. induction a as [|ti a IH]; intros [|stxo b] F Hr; try done. cbn [resolves] in Hr. cbn [length].
  destruct (LookupEntry w _); [destruct Hr as [_ Hr]; by rewrite (IH _ _ Hr)|].
  destruct (F !! _); destruct Hr as [_ Hr]; by rewrite (IH _ _ Hr).
Qed.

Lemma num_stxos txns n : fold_left (fun n tx => n + len (tx_TxIn tx)) txns n = n + len (concat (map tx_TxIn txns)).
Proof.
  revert n. induction txns as [|tx txns IH]; intros n; cbn [fold_left map concat]; [rewrite len_nil; lia|].
  rewrite IH, len_app. lia.
Qed.

Lemma enc_stxo_pos stxo : 0 < len (enc_stxo stxo).
Proof.
  unfold enc_stxo. cbn zeta. rewrite len_app. pose proof (vlq_length (spentTxOutHeaderCode stxo)).
  match goal with |- context [len (vlq _) + len ?l] => pose proof (len_nonneg l) end. lia.
Qed.

(** What was written for a block is read back from it. *)
Lemma deserialize_journal txns stxos w :
  Forall wf_stxo stxos -> resolves w (reverse (concat (map tx_TxIn txns))) (reverse stxos) ∅ ->
  deserializeSpendJournalEntry (enc_journal (reverse stxos)) txns w = Ok (map canon stxos).
Proof.
  intros Hwf Hr. pose proof (resolves_length _ _ _ _ Hr) as Hl. rewrite !length_reverse in Hl.
  unfold deserializeSpendJournalEntry. rewrite num_stxos, Z.add_0_l.
  assert (len (concat (map tx_TxIn txns)) = len (reverse stxos)) as -> by (rewrite len_reverse; unfold len; by rewrite Hl).
  destruct (decide (stxos = [])) as [->|Hne]; [done|].
  assert (0 < len (enc_journal (reverse stxos))) as Hpos.
  { unfold len. rewrite length_enc_reverse. destruct stxos as [|stxo stxos]; [done|]. unfold enc_journal. cbn [map concat].
    pose proof (enc_stxo_pos stxo). rewrite length_app. unfold len in *. lia. }
  destruct (Z.eqb_spec (len (enc_journal (reverse stxos))) 0); [lia|]. rewrite read_journal_flat.
  destruct (read_stxos_spec w (reverse (concat (map tx_TxIn txns))) (reverse stxos) ∅ ∅ [] [] []) as (infl & Hread).
  - by apply Forall_reverse.
  - done.
  - intros h. by rewrite !lookup_empty.
  - cbn [app] in Hread. rewrite !app_nil_r in Hread. unfold len at 2. rewrite Nat2Z.id. change (len []) with 0 in Hread.
    rewrite Hread. cbn [mbind res_bind]. f_equal.
    change (map canon (reverse stxos)) with (canon <$> reverse stxos). rewrite fmap_reverse. apply reverse_involutive.
Qed.

(** * The records of a block *)

Definition wf_view (v : UtxoViewpoint) : Prop := forall h e, LookupEntry v h = Some e -> wf_entry e.

(** [B] are the transactions of the block. *)
Section records.
Context (B : list bytes).

(** No transaction of the view has version 0, and none of the block height 0. *)
Definition tagged (v : UtxoViewpoint) : Prop :=
  forall h e, LookupEntry v h = Some e -> ent_version e <> 0 /\ (h ∈ B -> ent_blockHeight e <> 0).

Definition wf_new (tx : MsgTx) : Prop :=
  is_s 32 (tx_Version tx) /\ tx_Version tx <> 0 /\ len (tx_TxOut tx) < 2 ^ 31 /\
  Forall (fun o => out_bounds (Value o) (PkScript o)) (tx_TxOut tx).

(** [w] and the versions [F] know what is needed of the entries of [v], and no
    transaction of height 0 has lost its last output. *)
Definition knows (v : UtxoViewpoint) (F : gmap bytes Z) (w : UtxoViewpoint) : Prop :=
  forall h ev, LookupEntry v h = Some ev ->
    (forall ew, LookupEntry w h = Some ew -> ent_version ew = ent_version ev) /\
    (forall ver, F !! h = Some ver -> ver = ent_version ev) /\
    (IsFullySpent ev = false -> LookupEntry w h <> None \/ F !! h <> None) /\
    (h ∉ B -> IsFullySpent ev = true -> ent_blockHeight ev <> 0).

Lemma wf_entry_insert e i o b : wf_entry e -> 0 <= i < 2 ^ 31 ->
  (out_spent o = false -> exists a s, stored (out_compressed o) (out_amount o) (out_pkScript o) a s) ->
  wf_entry (set_sparseOutputs (set_modified e b) (<[i := o]> (sparseOutputs e))).
Proof.
  intros (Hv & Hh & Hr & Hst) Hi Ho. split_and!; [done.. | |]; cbn [sparseOutputs set_sparseOutputs]; intros j oj Hj;
    destruct (decide (j = i)) as [->|Hne]; rewrite ?lookup_insert_eq, ?lookup_insert_ne in Hj by done; simplify_eq; eauto.
Qed.

Definition in_range (ti : TxIn) : Prop := 0 <= Index (PreviousOutPoint ti) < 2 ^ 31.

(** A spent output is recorded as it was. *)
Lemma spend_wf v ti l v1 stxo :
  wf_view v -> tagged v -> spent_by v ti <> None -> spend_inputs v [ti] (Some l) = Ok (v1, Some (l ++ [stxo])) ->
  (wf_stxo stxo /\ in_range ti) /\ wf_view v1 /\ tagged v1.
Proof.
  intros Hwf Htag Hc Hs. destruct (spend_one v ti l v1 _ Hs Hc) as (e & o & o' & He & Ho & Hsp & Hd & -> & Hst).
  injection Hst as Hst. apply app_inj_tail in Hst as [_ Hst]. pose proof (Hwf _ _ He) as Hwe.
  pose proof Hwe as (Hv & Hh & Hr & Hout). destruct (Hout _ o Ho Hsp) as (a & s & Hstored). destruct (Htag _ _ He) as [Hv0 Hh0].
  assert (contents o = Some (a, Some s)) as Hcon by (destruct o; by apply stored_contents).
  rewrite <- (contents_set_spent o true) in Hcon. unfold contents in Hcon. rewrite Hd in Hcon. injection Hcon as Ha Hs'.
  assert (stored false (out_amount o') (out_pkScript o') a s) as Hst' by (destruct Hstored as [Hb _]; by split).
  split_and!.
  - subst stxo. destruct (IsFullySpent _); split_and!; cbn; try done; try (unfold is_u; lia); by exists a, s.
  - by apply (Hr _ o).
  - intros h0 e0. rewrite lookup_set_entry. case_decide; [|by apply Hwf]. intros [= <-].
    apply wf_entry_insert; [done | by apply (Hr _ o) |]. intros Hs0. exfalso.
    apply maybeDecompress_idemp in Hd as [_ Hd]. cbn in Hd. congruence.
  - intros h0 e0. rewrite lookup_set_entry. case_decide; [|by apply Htag]. intros [= <-]. subst h0. exact (Htag _ e He).
Qed.

Lemma resolve_spend v ti l v1 stxo w F ins st :
  tagged v -> spent_by v ti <> None -> spend_inputs v [ti] (Some l) = Ok (v1, Some (l ++ [stxo])) -> knows v1 F w ->
  (forall F', knows v F' w -> resolves w ins st F') -> resolves w (ti :: ins) (stxo :: st) F.
Proof.
  intros Htag Hc Hs Hk Hrest. destruct (spend_one v ti l v1 _ Hs Hc) as (e & o & o' & He & Ho & Hsp & Hd & -> & Hst).
  injection Hst as Hst. apply app_inj_tail in Hst as [_ Hst]. destruct (Htag _ _ He) as [Hv0 HhB].
  set (h := Hash (PreviousOutPoint ti)) in *. set (e' := set_sparseOutputs _ _) in *.
  pose proof (Hk h e') as Hke. rewrite lookup_set_entry, decide_True in Hke by done. destruct (Hke eq_refl) as (Hw & HF & Hf & Hf0).
  change (ent_version e') with (ent_version e) in *. change (ent_blockHeight e') with (ent_blockHeight e) in *.
  assert (stxo_version stxo = ent_version e) as Hver by (subst stxo; by destruct (IsFullySpent e')).
  assert (IsFullySpent e' = true -> ent_blockHeight e <> 0) as Hne0.
  { intros Hfs. destruct (decide (h ∈ B)) as [HB|HB]; [by apply HhB | by apply Hf0]. }
  assert (stxo_height stxo = 0 -> plain stxo) as Hplain.
  { subst stxo. destruct (IsFullySpent e'); cbn; [|done]. intros H0. by destruct Hne0. }
  assert (IsFullySpent e = false) as Hef.
  { apply bool_decide_eq_false. intros Hall. specialize (Hall _ o Ho). cbn in Hall. congruence. }
  assert (forall F', (forall h' ver, h' <> h -> F' !! h' = Some ver -> F !! h' = Some ver) ->
            (forall h' ver, F !! h' = Some ver -> F' !! h' = Some ver) ->
            (forall ver, F' !! h = Some ver -> ver = ent_version e) -> (LookupEntry w h <> None \/ F' !! h <> None) ->
            knows v F' w) as Hback.
  { intros F' H1 H2 H3 H4 h' ev Hev. destruct (decide (h' = h)) as [->|Hne].
    - rewrite He in Hev. injection Hev as <-. split_and!; try done. congruence.
    - destruct (Hk h' ev) as (K1 & K2 & K3 & K4); [by rewrite lookup_set_entry, decide_False|].
      split_and!; [done | by eauto | | done]. intros Hfs. destruct (K3 Hfs) as [|Hn]; [by left | right].
      destruct (F !! h') as [ver|] eqn:HFh; [|done]. by rewrite (H2 _ _ HFh). }
  cbn [resolves]. fold h. destruct (LookupEntry w h) as [ew|] eqn:Hew.
  { rewrite (Hw ew eq_refl), Hver. split; [by eauto|]. apply Hrest, (Hback F); [done | done | exact HF | by left]. }
  destruct (F !! h) as [ver|] eqn:HFh.
  { rewrite (HF ver eq_refl), Hver. split; [by eauto|]. apply Hrest, (Hback F); [done | done | |right; by rewrite HFh]. intros ver'. rewrite HFh. intros [= <-]. by apply HF. }
  assert (IsFullySpent e' = true) as Hfull by (destruct (IsFullySpent e') eqn:Hf'; [done|]; naive_solver).
  rewrite Hver. split; [subst stxo; rewrite Hfull; by apply Hne0|]. apply Hrest, Hback.
  - intros h' ver Hne. by rewrite lookup_insert_ne.
  - intros h' ver Hh'. rewrite lookup_insert_ne by congruence. done.
  - intros ver. rewrite lookup_insert_eq. congruence.
  - rewrite lookup_insert_eq. by right.
Qed.

(** ** The outputs of a transaction *)
Lemma AddTxOuts_entry v tx height :
  exists e, LookupEntry (AddTxOuts v tx height) (SigCache.TxHash tx) = Some e /\ ent_blockHeight e = height /\
    ent_version e = match LookupEntry v (SigCache.TxHash tx) with Some e0 => ent_version e0 | None => tx_Version tx end /\
    sparseOutputs e = add_outs match LookupEntry v (SigCache.TxHash tx) with Some e0 => sparseOutputs e0 | None => ∅ end
                        0 (tx_TxOut tx).
Proof.
  unfold AddTxOuts. eexists. rewrite lookup_set_entry, decide_True by done. split; [done|].
  by destruct (LookupEntry v (SigCache.TxHash tx)).
Qed.

Lemma add_wf_entry v tx height e : (forall e0, LookupEntry v (SigCache.TxHash tx) = Some e0 -> wf_entry e0) ->
  wf_new tx -> is_u 32 height -> LookupEntry (AddTxOuts v tx height) (SigCache.TxHash tx) = Some e -> wf_entry e.
Proof.
  intros Hwf (Hv & Hv0 & Hl & Hall) Hh H0. destruct (AddTxOuts_entry v tx height) as (e' & He & Heh & Hev & Heo).
  rewrite He in H0. injection H0 as ->.
  assert (forall i o, sparseOutputs e !! i = Some o ->
            (exists e0, LookupEntry v (SigCache.TxHash tx) = Some e0 /\ sparseOutputs e0 !! i = Some o) \/
            (0 <= i < 2 ^ 31 /\ exists a s, stored (out_compressed o) (out_amount o) (out_pkScript o) a s)) as Hnew.
  { intros i o. rewrite Heo, add_outs_lookup by lia. destruct (Z.ltb_spec i 0).
    - destruct (LookupEntry v _) as [e0|]; [by eauto | by rewrite lookup_empty].
    - rewrite Z.sub_0_r. destruct (tx_TxOut tx !! Z.to_nat i) as [to|] eqn:Hto.
      + destruct (IsUnspendable _).
        * destruct (LookupEntry v _) as [e0|]; [by eauto | by rewrite lookup_empty].
        * intros [= <-]. right. pose proof (lookup_lt_Some _ _ _ Hto). unfold len in Hl. split; [lia|].
          rewrite Forall_lookup in Hall. exists (Value to), (PkScript to). split; [by eapply Hall | done].
      + destruct (LookupEntry v _) as [e0|]; [by eauto | by rewrite lookup_empty]. }
  split_and!.
  - rewrite Hev. destruct (LookupEntry v _) as [e0|] eqn:He0; [by apply (Hwf e0) | done].
  - by rewrite Heh.
  - intros i o Ho. destruct (Hnew i o Ho) as [(e0 & He0 & Ho0)|[Hi _]]; [|done].
    destruct (Hwf _ He0) as (_ & _ & Hr & _). by apply (Hr i o).
  - intros i o Ho Hs. destruct (Hnew i o Ho) as [(e0 & He0 & Ho0)|[_ Hst]]; [|done].
    destruct (Hwf _ He0) as (_ & _ & _ & Hst). by apply (Hst i).
Qed.

Lemma add_wf v tx height : wf_view v -> tagged v -> wf_new tx -> is_u 32 height -> height <> 0 ->
  wf_view (AddTxOuts v tx height) /\ tagged (AddTxOuts v tx height).
Proof.
  intros Hwf Htag Hnew Hh Hh0.
  split; intros h0 e0 H0; (destruct (decide (h0 = SigCache.TxHash tx)) as [->|Hne];
    [| rewrite lookup_AddTxOuts_ne in H0 by done; by eauto]).
  - apply (add_wf_entry v tx height); [apply Hwf | done..].
  - destruct (AddTxOuts_entry v tx height) as (e & He & Heh & Hev & _). rewrite He in H0. injection H0 as <-.
    rewrite Heh, Hev. split; [|done]. destruct (LookupEntry v _) as [e0|] eqn:He0; [by apply (Htag _ _ He0) | apply Hnew].
Qed.

Lemma knows_add v tx height F w : len (tx_TxOut tx) < 2 ^ 31 -> SigCache.TxHash tx ∈ B ->
  knows (AddTxOuts v tx height) F w -> knows v F w.
Proof.
  intros Hl HB Hk h ev Hev. destruct (decide (h = SigCache.TxHash tx)) as [->|Hne].
  2: { apply Hk. by rewrite lookup_AddTxOuts_ne. }
  destruct (AddTxOuts_entry v tx height) as (e & He & _ & Hver & Ho). rewrite Hev in Hver, Ho.
  destruct (Hk _ e He) as (K1 & K2 & K3 & K4). rewrite Hver in *. split_and!; [done | done | | done]. intros Hf. apply K3.
  destruct (IsFullySpent_false ev Hf) as [i Hi]. apply unspent_Some in Hi as (o & Hoi & Hs).
  apply bool_decide_eq_false. intros Hall. assert (exists o', sparseOutputs e !! i = Some o' /\ out_spent o' = false) as (o' & Ho' & Hs').
  { rewrite Ho, add_outs_lookup by lia. destruct (if i <? 0 then None else _) as [to|]; [|by eauto].
    destruct (IsUnspendable _); eauto. }
  specialize (Hall i o' Ho'). cbn in Hall. congruence.
Qed.

(** ** Several inputs and several transactions *)
Lemma spend_records_split ti ins v l v' new :
  spend_inputs v (ti :: ins) (Some l) = Ok (v', Some (l ++ new)) ->
  exists v1 stxo new2, new = stxo :: new2 /\ spend_inputs v [ti] (Some l) = Ok (v1, Some (l ++ [stxo])) /\
    spend_inputs v1 ins (Some (l ++ [stxo])) = Ok (v', Some ((l ++ [stxo]) ++ new2)) /\
    exists s, spend_inputs v [ti] (Some []) = Ok (v1, s).
Proof.
  intros Hs. apply spend_inputs_cons in Hs as (v1 & stxo & Hs1 & Hs).
  destruct (spend_inputs_records _ _ _ [] _ _ Hs) as (new2 & Hnew & _ & _). injection Hnew as Hnew.
  rewrite <- app_assoc in Hnew. apply app_inv_head in Hnew. subst new.
  destruct (spend_inputs_records _ _ _ [] _ _ Hs1) as (n1 & _ & _ & Hs1'). exists v1, stxo, new2.
  split_and!; [done | done | by rewrite <- app_assoc | by eexists].
Qed.

Lemma resolve_inputs w ins : forall v l v' new F tl tlst,
  wf_view v -> tagged v -> ins_available v ins -> spend_inputs v ins (Some l) = Ok (v', Some (l ++ new)) ->
  ((Forall wf_stxo new /\ Forall in_range ins) /\ wf_view v' /\ tagged v') /\
  (knows v' F w -> (forall F', knows v F' w -> resolves w tl tlst F') ->
   resolves w (reverse ins ++ tl) (reverse new ++ tlst) F).
Proof.
  induction ins as [|ti ins IH]; intros v l v' new F tl tlst Hwf Htag Hav Hs.
  { injection Hs as <- Hnew. assert (new = []) as -> by (apply (app_inv_head l); by rewrite app_nil_r).
    split; [split_and!; [constructor | constructor | done | done]|]. intros Hk Hrest. by apply Hrest. }
  destruct Hav as [Hc Hav]. apply spend_records_split in Hs as (v1 & stxo & new2 & -> & Hs1 & Hs & s0 & Hs0).
  destruct (spend_wf v ti l v1 stxo Hwf Htag Hc Hs1) as ([Hws Hri] & Hwf1 & Htag1).
  destruct (IH v1 _ v' new2 F (ti :: tl) (stxo :: tlst) Hwf1 Htag1 (Hav _ _ Hs0) Hs) as [([Hall Hrng] & Hwf' & Htag') Hres].
  split; [split_and!; [by constructor | by constructor | done | done]|]. intros Hk Hrest. rewrite !reverse_cons, <- !app_assoc. cbn [app].
  apply Hres; [done|]. intros F' Hk'. exact (resolve_spend v ti l v1 stxo w F' tl tlst Htag Hc Hs1 Hk' Hrest).
Qed.

Lemma connect_records_split tx txs height v l v' new :
  connect_txs v (tx :: txs) height (Some l) = Ok (v', Some (l ++ new)) ->
  exists v1 n1 n2, new = n1 ++ n2 /\ connectTransaction v tx height (Some l) = Ok (v1, Some (l ++ n1)) /\
    connect_txs v1 txs height (Some (l ++ n1)) = Ok (v', Some ((l ++ n1) ++ n2)) /\
    exists s, connectTransaction v tx height (Some []) = Ok (v1, s).
Proof.
  cbn [connect_txs]. intros Hc. apply bind_Ok in Hc as ([v1 s1] & H1 & Hc).
  destruct (connectTransaction_records _ _ _ _ [] _ _ H1) as (n1 & -> & _ & H1').
  destruct (connect_txs_records _ _ _ _ _ _ Hc) as (n2 & Hn). injection Hn as Hn.
  rewrite <- app_assoc in Hn. apply app_inv_head in Hn. subst new. exists v1, n1, n2.
  split_and!; [done | done | by rewrite <- app_assoc | by eexists].
Qed.

Lemma resolve_txs w height txs : is_u 32 height -> height <> 0 -> Forall (fun tx => wf_new tx /\ SigCache.TxHash tx ∈ B) txs ->
  forall k v l v' new F tl tlst, 1 <= k -> txs_ok height v k txs -> wf_view v -> tagged v ->
  connect_txs v txs height (Some l) = Ok (v', Some (l ++ new)) ->
  ((Forall wf_stxo new /\ Forall in_range (concat (map tx_TxIn txs))) /\ wf_view v' /\ tagged v') /\
  (knows v' F w -> (forall F', knows v F' w -> resolves w tl tlst F') ->
   resolves w (reverse (concat (map tx_TxIn txs)) ++ tl) (reverse new ++ tlst) F).
Proof.
  intros Hh Hh0 Hnew. induction Hnew as [|tx txs [Htx HtxB] Hnew IH]; intros k v l v' new F tl tlst Hk Hok Hwf Htag Hc.
  { injection Hc as <- Hn. assert (new = []) as -> by (apply (app_inv_head l); by rewrite app_nil_r).
    split; [split_and!; [constructor | constructor | done | done]|]. intros Hkn Hrest. by apply Hrest. }
  apply connect_records_split in Hc as (v1 & n1 & n2 & -> & H1 & Hc & s0 & H1').
  destruct Hok as (Hcb & Hins & Hnext). specialize (Hnext _ _ H1').
  rewrite (proj2 (Z.eqb_neq k 0)) in Hcb by lia. destruct (Hins Hcb) as [Hav _].
  unfold connectTransaction in H1. rewrite Hcb in H1. apply bind_Ok in H1 as ([v0 s1] & Hs & Heq). injection Heq as <- ->.
  destruct (resolve_inputs w (tx_TxIn tx) v l v0 n1 ∅ tl tlst Hwf Htag Hav Hs) as [([Hall1 Hr1] & Hwf0 & Htag0) _].
  destruct (add_wf v0 tx height Hwf0 Htag0 Htx Hh Hh0) as [Hwf1 Htag1].
  destruct (IH (k + 1) _ _ v' n2 F (reverse (tx_TxIn tx) ++ tl) (reverse n1 ++ tlst) ltac:(lia) Hnext Hwf1 Htag1 Hc)
    as [([Hall2 Hr2] & Hwf' & Htag') Hres].
  split; [split_and!; [by apply Forall_app | by apply Forall_app | done | done]|]. intros Hkn Hrest. cbn [map concat].
  rewrite !reverse_app, <- !app_assoc. apply Hres; [done|]. intros F' Hk'.
  destruct (resolve_inputs w (tx_TxIn tx) v l v0 n1 F' tl tlst Hwf Htag Hav Hs) as [_ Hres1].
  apply Hres1; [|done]. apply (knows_add v0 tx height); [by destruct Htx as (_ & _ & ? & _) | done | done].
Qed.

Lemma connect_coinbase_split tx txs height v v' stxos :
  txs_ok height v 0 (tx :: txs) -> connect_txs v (tx :: txs) height (Some []) = Ok (v', Some stxos) ->
  txs_ok height (AddTxOuts v tx height) 1 txs /\
  connect_txs (AddTxOuts v tx height) txs height (Some []) = Ok (v', Some stxos).
Proof.
  intros (Hcb & _ & Hnext) Hc. cbn [connect_txs] in Hc. rewrite connect_coinbase in Hc by done.
  split; [apply (Hnext _ (Some [])); by apply connect_coinbase | exact Hc].
Qed.

End records.

(** Only the entries of the transactions that are referred to matter. *)
Definition refs (ts : list MsgTx) : list bytes := map (fun ti => Hash (PreviousOutPoint ti)) (concat (map tx_TxIn ts)).

Lemma resolves_ext w w' ins : forall st F, (forall ti, ti ∈ ins -> LookupEntry w (Hash (PreviousOutPoint ti)) = LookupEntry w' (Hash (PreviousOutPoint ti))) ->
  resolves w' ins st F -> resolves w ins st F.
Proof.
  induction ins as [|ti ins IH]; intros [|stxo st] F Hext Hr; try done; try (exfalso; exact Hr). cbn [resolves] in *.
  rewrite (Hext ti) by left. assert (forall F, resolves w' ins st F -> resolves w ins st F) as Hrest.
  { intros F'. apply IH. intros ti' Hti. apply Hext. by right. }
  destruct (LookupEntry w' _); [by destruct Hr; eauto|]. destruct (F !! _); destruct Hr; eauto.
Qed.

(** What the records of a block are, and that they can be read. *)
Lemma block_journal view block view' stxos w w' :
  Transactions block <> [] -> txs_ok (Height block) view 0 (Transactions block) -> Forall wf_new (Transactions block) ->
  let B := map SigCache.TxHash (Transactions block) in
  wf_view view -> tagged B view -> is_u 32 (Height block) -> Height block <> 0 ->
  connectTransactions view block (Some []) = Ok (view', Some stxos) ->
  ((Forall wf_stxo stxos /\ Forall in_range (concat (map tx_TxIn (drop 1 (Transactions block))))) /\ wf_view view' /\ tagged B view') /\
  (knows B view' ∅ w' -> (forall h, h ∈ refs (drop 1 (Transactions block)) -> LookupEntry w h = LookupEntry w' h) ->
   serializeSpendJournalEntry stxos = Ok (enc_journal (reverse stxos)) /\
   deserializeSpendJournalEntry (enc_journal (reverse stxos)) (drop 1 (Transactions block)) w = Ok (map canon stxos)).
Proof.
  intros Hne Hok Hnew B Hwf Htag Hh Hh0 Hc. unfold connectTransactions in Hc. apply bind_Ok in Hc as ([v1 s1] & Hc & Heq).
  injection Heq as <- ->. assert (forall tx, tx ∈ Transactions block -> SigCache.TxHash tx ∈ B) as HB.
  { intros tx Htx. unfold B. apply list_elem_of_fmap. by exists tx. }
  clearbody B. destruct (Transactions block) as [|tx txs]; [done|].
  apply Forall_cons in Hnew as [Htx Hnew]. apply connect_coinbase_split in Hc as [Hok1 Hc]; [|done].
  destruct (add_wf B view tx (Height block) Hwf Htag Htx Hh Hh0) as [Hwf1 Htag1].
  assert (Forall (fun tx => wf_new tx /\ SigCache.TxHash tx ∈ B) txs) as HnewB.
  { rewrite Forall_forall in Hnew |- *. intros tx' Hin. split; [by apply Hnew | apply HB; by right]. }
  destruct (resolve_txs B w' (Height block) txs Hh Hh0 HnewB 1 _ [] v1 stxos ∅ [] [] ltac:(lia) Hok1 Hwf1 Htag1 Hc)
    as [([Hall Hrng] & Hwf' & Htag') Hres].
  change (drop 1 (tx :: txs)) with (drop 0 txs). rewrite drop_0.
  split; [done|]. intros Hk Hext. split; [by apply serialize_journal|].
  apply deserialize_journal; [done|]. apply (resolves_ext w w').
  - intros ti Hti. apply Hext. apply list_elem_of_fmap. exists ti. split; [done|]. by rewrite elem_of_reverse in Hti.
  - rewrite !app_nil_r in Hres. apply Hres; [|done]. exact Hk.
Qed.

(** C18: the spend journal.  Connect a block and store the records of what it
    spends.  Read the stored entry back with the block's transactions and a view
    that has an entry for each transaction which still has coins, such as the
    view loaded from the database: every record is there, in order, with the
    amount, the script and the version of the spent output, and with the height
    and the coinbase flag where it was the last of its transaction.  Two
    conditions are needed: no transaction has version 0, and none of height 0 has
    lost its last output. *)
Theorem journal_roundtrip view block view' stxos w :
  let B := map SigCache.TxHash (Transactions block) in
  Transactions block <> [] -> txs_ok (Height block) view 0 (Transactions block) -> Forall wf_new (Transactions block) ->
  wf_view view -> tagged B view -> is_u 32 (Height block) -> Height block <> 0 ->
  connectTransactions view block (Some []) = Ok (view', Some stxos) -> knows B view' ∅ w ->
  exists serialized stxos', serializeSpendJournalEntry stxos = Ok serialized /\
    deserializeSpendJournalEntry serialized (drop 1 (Transactions block)) w = Ok stxos' /\
    Forall2 same_stxo stxos stxos'.
Proof.
  intros B Hne Hok Hnew Hwf Htag Hh Hh0 Hc Hk.
  destruct (block_journal view block view' stxos w w Hne Hok Hnew Hwf Htag Hh Hh0 Hc) as [([Hall _] & _ & _) Hj].
  destruct (Hj Hk ltac:(done)) as [Hs Hd]. eexists _, _. split; [exact Hs|]. split; [exact Hd|].
  apply Forall2_fmap_r, Forall_Forall2_diag. eapply Forall_impl; [exact Hall|]. apply same_canon.
Qed.

(** * A record that cannot be read *)
Lemma spend_inputs_snoc ins ti : forall v st r,
  spend_inputs v (ins ++ [ti]) st = Ok r ->
  exists v1 st1, spend_inputs v ins st = Ok (v1, st1) /\ spend_inputs v1 [ti] st1 = Ok r.
Proof.
  induction ins as [|t ins IH]; intros v st r Hs; [by exists v, st|]. cbn [app spend_inputs] in *.
  destruct (LookupEntry v _) as [e|]; [|done]. destruct st as [l|]; [|by apply IH].
  destruct (AmountByIndex _ _) as [[a e1]| | |]; [|done..]. cbn [mbind res_bind] in *.
  destruct (PkScriptByIndex _ _) as [[pk e2]| | |]; [|done..]. cbn [mbind res_bind] in *. by apply IH.
Qed.

Lemma connect_txs_snoc txs tx height : forall v st r,
  connect_txs v (txs ++ [tx]) height st = Ok r ->
  exists v1 st1, connect_txs v txs height st = Ok (v1, st1) /\ connectTransaction v1 tx height st1 = Ok r.
Proof.
  induction txs as [|t txs IH]; intros v st r Hc; cbn [app connect_txs] in *.
  - apply bind_Ok in Hc as ([v1 s1] & H1 & Hc). injection Hc as <-. by exists v, st.
  - destruct (connectTransaction v t height st) as [[v1 s1]| | |]; [|done..]. cbn [mbind res_bind] in *. by apply IH.
Qed.

Lemma ins_available_snoc ins ti : forall v l v1 st,
  ins_available v (ins ++ [ti]) -> spend_inputs v ins (Some l) = Ok (v1, st) -> spent_by v1 ti <> None.
Proof.
  induction ins as [|t ins IH]; intros v l v1 st Hav Hs.
  - injection Hs as <- <-. by destruct Hav as [? _].
  - destruct Hav as [_ Hav]. apply spend_inputs_cons in Hs as (v2 & stxo & Hs1 & Hs).
    destruct (spend_inputs_records _ _ _ [] _ _ Hs1) as (n1 & _ & _ & Hs1'). by apply (IH v2 (l ++ [stxo]) v1 st); [apply (Hav _ _ Hs1')|].
Qed.

Lemma txs_ok_snoc height txs tx : forall v k l v1 st,
  txs_ok height v k (txs ++ [tx]) -> connect_txs v txs height (Some l) = Ok (v1, st) -> txs_ok height v1 (k + len txs) [tx].
Proof.
  induction txs as [|t txs IH]; intros v k l v1 st Hok Hc.
  - injection Hc as <- <-. by rewrite Z.add_0_r.
  - destruct Hok as (_ & _ & Hnext). cbn [connect_txs] in Hc. apply bind_Ok in Hc as ([v2 s2] & H1 & Hc).
    destruct (connectTransaction_records _ _ _ _ [] _ _ H1) as (n1 & -> & _ & H1').
    rewrite len_cons, Z.add_assoc. by apply (IH v2 (k + 1) (l ++ n1) v1 st); [apply (Hnext _ _ H1')|].
Qed.

(** Reading starts with a record that has no height and whose version is unknown. *)
Lemma read_zero w ti rest stxo st txns n : n = len st + 1 ->
  reverse (concat (map tx_TxIn txns)) = ti :: rest -> wf_stxo stxo -> stxo_height stxo = 0 ->
  LookupEntry w (Hash (PreviousOutPoint ti)) = None ->
  (if len (enc_journal (stxo :: st)) =? 0
   then if negb (n =? 0) then Err (AssertError "mismatched spend journal serialization") else Ok []
   else '(_, _, _, stxos) ← read_journal (enc_journal (stxo :: st)) w (reverse txns)
          (n - 1, ∅, 0, replicate (Z.to_nat (n)) zero_stxo);
        Ok stxos) = Err (errDeserialize "unable to decode stxo").
Proof.
  intros -> Hrev Hwf H0 Hw. pose proof (enc_stxo_pos stxo) as Hpos.
  assert (len (enc_journal (stxo :: st)) = len (enc_stxo stxo) + len (enc_journal st)) as Hlen by apply len_app.
  pose proof (len_nonneg (enc_journal st)) as Hnn. destruct (Z.eqb_spec (len (enc_journal (stxo :: st))) 0); [lia|].
  rewrite read_journal_flat, Hrev. cbn [read_stxos]. pose proof (len_nonneg st) as Hst.
  assert (idx (E := error) (replicate (Z.to_nat (len st + 1)) zero_stxo) (len st + 1 - 1) = Ok zero_stxo) as ->.
  { apply idx_Ok. split; [lia|]. apply lookup_replicate. split; [done | lia]. }
  cbn [mbind res_bind]. rewrite Hw, lookup_empty. cbn [mbind res_bind].
  pose proof (@slice_from error Z [] (enc_journal (stxo :: st))) as Hsl. cbn [app] in Hsl. change (len []) with 0 in Hsl.
  rewrite Hsl. cbn [mbind res_bind]. unfold decodeSpentTxOut. destruct (Z.eqb_spec (len (enc_journal (stxo :: st))) 0); [lia|].
  assert (deserializeVLQ (enc_journal (stxo :: st)) = (0, 1)) as ->.
  { unfold enc_journal. cbn [map concat]. unfold enc_stxo at 1. rewrite (header_code_zero _ H0). cbn zeta.
    rewrite <- app_assoc. rewrite (deserializeVLQ_vlq 0) by done. done. }
  destruct (_ <=? 1); done.
Qed.

(** The record of the last input, when its transaction has height 0. *)
Lemma last_record view txs tx ins ti height view' stxos e' :
  txs <> [] -> tx_TxIn tx = ins ++ [ti] -> txs_ok height view 0 (txs ++ [tx]) ->
  connect_txs view (txs ++ [tx]) height (Some []) = Ok (view', Some stxos) ->
  LookupEntry view' (Hash (PreviousOutPoint ti)) = Some e' -> ent_blockHeight e' = 0 ->
  exists stxos0 stxo, stxos = stxos0 ++ [stxo] /\ stxo_height stxo = 0.
Proof.
  intros Hne Hins Hok Hc He' He0. apply connect_txs_snoc in Hc as (v1 & st1 & Hc & Htx).
  destruct (connect_txs_records _ _ _ _ _ _ Hc) as (new & ->). pose proof (txs_ok_snoc _ _ _ _ _ _ _ _ Hok Hc) as (Hcb & Hi & _).
  destruct txs as [|t txs]; [done|]. rewrite len_cons in Hcb. pose proof (len_nonneg txs).
  rewrite (proj2 (Z.eqb_neq _ _)) in Hcb by lia. destruct (Hi Hcb) as [Hav Hown].
  unfold connectTransaction in Htx. rewrite Hcb in Htx. apply bind_Ok in Htx as ([v2 st2] & Hs & Heq). injection Heq as <- ->.
  rewrite Hins in *. pose proof Hs as (v3 & st3 & Hs3 & Hlast)%spend_inputs_snoc.
  destruct (spend_inputs_records _ _ _ [] _ _ Hs3) as (new3 & -> & _). pose proof (ins_available_snoc _ _ _ _ _ _ Hav Hs3) as Hspent.
  destruct (spend_one _ _ _ _ _ Hlast Hspent) as (e & o & o' & He & Ho & Hsp & Hd & -> & Hst). injection Hst as ->.
  eexists _, _. split; [done|]. apply Forall_app in Hown as [_ Hown]. apply Forall_cons in Hown as [Hown _].
  rewrite lookup_AddTxOuts_ne, lookup_set_entry, decide_True in He'.
  2: done.
  2: { intros Heq. apply Hown. rewrite Heq. left. }
  injection He' as <-. cbn in He0. destruct (IsFullySpent _); [exact He0 | done].
Qed.

(** C19: a block that cannot be disconnected.  The journal keeps no height for a
    record whose height is 0, which is also how it marks a record that was not
    the last of its transaction.  When the last input of a block spends the last
    output of a transaction of height 0, as the third of the admin threads does
    that spend the coinbase of the genesis block, the entry of the transaction is
    gone from the utxo set, and reading the block's journal entry fails. *)
Theorem height_zero_unreadable view block txs tx ins ti view' stxos e' w :
  let B := map SigCache.TxHash (Transactions block) in
  let h := Hash (PreviousOutPoint ti) in
  Transactions block = txs ++ [tx] -> txs <> [] -> tx_TxIn tx = ins ++ [ti] ->
  txs_ok (Height block) view 0 (Transactions block) -> Forall wf_new (Transactions block) ->
  wf_view view -> tagged B view -> is_u 32 (Height block) -> Height block <> 0 ->
  connectTransactions view block (Some []) = Ok (view', Some stxos) ->
  LookupEntry view' h = Some e' -> ent_blockHeight e' = 0 -> LookupEntry w h = None ->
  exists serialized, serializeSpendJournalEntry stxos = Ok serialized /\
    deserializeSpendJournalEntry serialized (drop 1 (Transactions block)) w = Err (errDeserialize "unable to decode stxo").
Proof.
  intros B h Htxs Hne Hins Hok Hnew Hwf Htag Hh Hh0 Hc He' He0 Hw.
  assert (Transactions block <> []) as Hne' by (rewrite Htxs; by destruct txs).
  destruct (block_journal view block view' stxos w w Hne' Hok Hnew Hwf Htag Hh Hh0 Hc) as [([Hall _] & _ & _) _].
  exists (enc_journal (reverse stxos)). split; [by apply serialize_journal|].
  unfold connectTransactions in Hc. apply bind_Ok in Hc as ([v1 s1] & Hc & Heq). injection Heq as <- ->.
  rewrite Htxs in Hok, Hc. destruct (last_record view txs tx ins ti _ v1 stxos e' Hne Hins Hok Hc He' He0) as (st0 & stxo & -> & H0).
  assert (connect_txs_len : len (concat (map tx_TxIn (drop 1 (Transactions block)))) = len (st0 ++ [stxo])).
  { destruct txs as [|cb txs]; [done|]. rewrite Htxs. cbn [app drop]. rewrite drop_0.
    destruct (connect_coinbase_split cb (txs ++ [tx]) _ _ _ _ Hok Hc) as [Hok1 Hc1].
    pose proof (connect_txs_count _ _ 1 _ [] _ (st0 ++ [stxo]) 0 ltac:(lia) Hok1 Hc1) as Hn. by rewrite num_stxos in Hn. }
  assert (exists rest, reverse (concat (map tx_TxIn (drop 1 (Transactions block)))) = ti :: rest) as [rest Hrest].
  { rewrite Htxs, drop_app_le by (destruct txs; cbn; [done | lia]). rewrite map_app, concat_app. cbn [map concat].
    rewrite Hins, app_nil_r, app_assoc, reverse_snoc. by eexists. }
  rewrite reverse_snoc. unfold deserializeSpendJournalEntry. rewrite num_stxos, connect_txs_len, Z.add_0_l.
  apply (read_zero w ti rest stxo (reverse st0) (drop 1 (Transactions block))); try done.
  { by rewrite len_app, len_reverse. }
  apply Forall_app in Hall as [_ Hall]. by apply Forall_cons in Hall as [? _].
Qed.

(** * The example *)
Lemma example_wf_new : Forall wf_new (Transactions example_block).
Proof. repeat constructor; vm_compute; intuition congruence. Qed.

Lemma example_heights : is_u 32 0 /\ is_u 32 7 /\ is_u 32 8 /\ 8 <> 0 /\ 7 <> 0.
Proof. unfold is_u. lia. Qed.

Lemma example_wf_view height : is_u 32 height ->
  wf_view (example_view height) /\ tagged (map SigCache.TxHash (Transactions example_block)) (example_view height).
Proof.
  intros Hh. assert (forall h e, LookupEntry (example_view height) h = Some e -> h = Hash example_outpoint /\ e = example_entry height) as Hl.
  { intros h e. unfold LookupEntry, example_view. cbn [entries]. destruct (decide (h = replicate 32 1)) as [->|Hne].
    - rewrite lookup_singleton_eq. by intros [= <-].
    - by rewrite lookup_singleton_ne. }
  split; intros h e He; apply Hl in He as [-> ->].
  - split_and!; [done | done | |]; cbn [sparseOutputs example_entry]; intros i o Ho; apply lookup_singleton_Some in Ho as [<- <-]; [lia|].
    intros _. exists 50, [81]. split; [|done]. split_and!; [lia | lia | | vm_compute; congruence]. repeat constructor; lia.
  - split; [done|]. cbn [map Transactions example_block]. intros [Hin|[Hin|Hin]%elem_of_cons]%elem_of_cons.
    + by apply example_coinbase_hash in Hin.
    + by apply example_hash in Hin.
    + by apply elem_of_nil in Hin.
Qed.

(** The entries after the block: the one that is spent keeps its height. *)
Lemma example_after height view' stxos : connectTransactions (example_view height) example_block (Some []) = Ok (view', Some stxos) ->
  exists e, LookupEntry view' (Hash example_outpoint) = Some e /\ ent_blockHeight e = height /\
    forall h e', LookupEntry view' h = Some e' -> h = Hash example_outpoint \/ h ∈ map SigCache.TxHash (Transactions example_block).
Proof.
  intros Hc. unfold connectTransactions in Hc. apply bind_Ok in Hc as ([v1 s1] & Hc & Heq). injection Heq as <- ->.
  apply connect_coinbase_split in Hc as [Hok Hc]; [|exact (example_txs_ok height)].
  cbn [connect_txs] in Hc. apply bind_Ok in Hc as ([v2 s2] & H2 & Hc). injection Hc as <- ->.
  destruct Hok as (Hcb & Hins & _). destruct (Hins Hcb) as [[Hsp _] _]. unfold connectTransaction in H2. rewrite Hcb in H2.
  apply bind_Ok in H2 as ([v3 s3] & Hs & Heq). injection Heq as <- ->.
  destruct (spend_one _ _ _ _ _ Hs Hsp) as (e & o & o' & He & _ & _ & _ & -> & _).
  change (PreviousOutPoint (mkTxIn example_outpoint [] 0)) with example_outpoint in *. rewrite example_lookup in He. injection He as <-.
  eexists. split_and!.
  - change (LookupEntry (SetBestHash ?v _) ?h) with (LookupEntry v h).
    rewrite lookup_AddTxOuts_ne by exact example_hash. by rewrite lookup_set_entry, decide_True.
  - done.
  - intros h e'. change (LookupEntry (SetBestHash ?v _) ?h) with (LookupEntry v h). cbn [map Transactions example_block].
    destruct (decide (h = SigCache.TxHash example_spend)) as [->|H1]; [intros _; right; right; left|].
    rewrite lookup_AddTxOuts_ne, lookup_set_entry by done. case_decide; [by left|].
    destruct (decide (h = SigCache.TxHash example_coinbase)) as [->|H2]; [intros _; right; left|].
    rewrite lookup_AddTxOuts_ne by done. unfold LookupEntry, example_view. cbn [entries]. by rewrite lookup_singleton_ne.
Qed.

Lemma journal_roundtrip_witness :
  exists view' stxos, connectTransactions (example_view 7) example_block (Some []) = Ok (view', Some stxos) /\
  exists serialized stxos', serializeSpendJournalEntry stxos = Ok serialized /\
    deserializeSpendJournalEntry serialized [example_spend] view' = Ok stxos' /\ Forall2 same_stxo stxos stxos'.
Proof.
  destruct (example_block_connects 7) as (view' & stxos & Hc). exists view', stxos. split; [exact Hc|].
  destruct (example_after 7 view' stxos Hc) as (e & He & Hh & Hall).
  destruct (example_wf_view 7 (proj1 (proj2 example_heights))) as [Hwf Htag].
  apply (journal_roundtrip (example_view 7) example_block view' stxos view').
  - discriminate.
  - exact (example_txs_ok 7).
  - exact example_wf_new.
  - exact Hwf.
  - exact Htag.
  - apply example_heights.
  - apply example_heights.
  - exact Hc.
  - intros h ev Hev. split; [intros ew Hew; rewrite Hev in Hew; apply (inj Some) in Hew as <-; reflexivity|].
    split; [intros ver Hver; rewrite lookup_empty in Hver; discriminate|]. split; [left; rewrite Hev; discriminate|].
    intros HB _. destruct (Hall h ev Hev) as [->|Hin]; [|destruct (HB Hin)]. rewrite He in Hev. apply (inj Some) in Hev as <-.
    rewrite Hh. apply example_heights.
Defined.

Lemma height_zero_unreadable_witness :
  exists view' stxos, connectTransactions (example_view 0) example_block (Some []) = Ok (view', Some stxos) /\
  exists serialized, serializeSpendJournalEntry stxos = Ok serialized /\
    deserializeSpendJournalEntry serialized [example_spend] NewUtxoViewpoint = Err (errDeserialize "unable to decode stxo").
Proof.
  destruct (example_block_connects 0) as (view' & stxos & Hc). exists view', stxos. split; [exact Hc|].
  destruct (example_after 0 view' stxos Hc) as (e & He & Hh & _). destruct (example_wf_view 0 (proj1 example_heights)) as [Hwf Htag].
  apply (height_zero_unreadable (example_view 0) example_block [example_coinbase] example_spend []
           (mkTxIn example_outpoint [] 0) view' stxos e NewUtxoViewpoint).
  - reflexivity.
  - discriminate.
  - reflexivity.
  - exact (example_txs_ok 0).
  - exact example_wf_new.
  - exact Hwf.
  - exact Htag.
  - apply example_heights.
  - apply example_heights.
  - exact Hc.
  - exact He.
  - exact Hh.
  - reflexivity.
Defined.

End JournalSpec.
