(* ===== verification/ViewSpec.v ===== *)
(** Disconnecting a block with records and views that are only equivalent: the
    amounts and scripts may be compressed, and entries that the block does not
    touch do not matter. *)
From S2P Require Import Prelude Wire Crypto Script Compress SigCache Utxo UtxoSpec Validate ChainIO ChainIOSpec JournalSpec.
Import wire Crypto Script Compress Utxo UtxoSpec Validate ChainIO ChainIOSpec JournalSpec.
#[local] Open Scope Z_scope.

Module ViewSpec.

(** * Equivalent views *)
Definition same_out (o1 o2 : utxoOutput) : Prop := out_spent o1 = out_spent o2 /\ contents o1 = contents o2.

Definition same_entry (e1 e2 : UtxoEntry) : Prop :=
  meta e1 = meta e2 /\ ent_modified e1 = ent_modified e2 /\
  forall i, option_Forall2 same_out (sparseOutputs e1 !! i) (sparseOutputs e2 !! i).

(** The entries of the transactions in [R] agree. *)
Definition same_on (R : list bytes) (w1 w2 : UtxoViewpoint) : Prop :=
  forall h, h ∈ R -> option_Forall2 same_entry (LookupEntry w1 h) (LookupEntry w2 h).

#[global] Instance same_out_equiv : Equivalence same_out.
Proof.
  split; [by intros o | by intros o1 o2 [] |]. intros o1 o2 o3 [H1 H2] [H3 H4]. split; congruence.
Qed.

Lemma same_entry_refl e : same_entry e e.
Proof. split_and!; [done..|]. intros i. destruct (sparseOutputs e !! i); constructor. done. Qed.

Lemma same_on_coin R w1 w2 h i : same_on R w1 w2 -> h ∈ R -> coin w1 h i = coin w2 h i.
Proof.
  intros Hs Hh. unfold coin. destruct (Hs h Hh) as [e1 e2 (Hm & _ & Ho)|]; [|done]. rewrite Hm.
  destruct (Ho i) as [o1 o2 [-> ->]|]; done.
Qed.

Lemma same_on_set R w1 w2 h e1 e2 : same_on R w1 w2 -> same_entry e1 e2 -> same_on R (set_entry w1 h e1) (set_entry w2 h e2).
Proof.
  intros Hs He h' Hh. rewrite !lookup_set_entry. destruct (decide (h' = h)); [by constructor | by apply Hs].
Qed.

Lemma same_entry_insert e1 e2 i o1 o2 b :
  same_entry e1 e2 -> same_out o1 o2 ->
  same_entry (set_sparseOutputs (set_modified e1 b) (<[i := o1]> (sparseOutputs e1)))
             (set_sparseOutputs (set_modified e2 b) (<[i := o2]> (sparseOutputs e2))).
Proof.
  intros (Hm & _ & Ho) Hout. split_and!; [exact Hm | done |]. intros j. cbn [sparseOutputs set_sparseOutputs].
  destruct (decide (j = i)) as [->|Hne]; [rewrite !lookup_insert_eq; by constructor | rewrite !lookup_insert_ne by done; apply Ho].
Qed.

Lemma unspend_same R w1 w2 ti s1 s2 :
  Hash (PreviousOutPoint ti) ∈ R -> same_on R w1 w2 -> same_stxo s1 s2 ->
  same_on R (unspend w1 ti s1) (unspend w2 ti s2).
Proof.
  intros HR Hs (Hd & Hv & Hh & Hc). unfold unspend. set (h := Hash (PreviousOutPoint ti)) in *.
  set (i := Index (PreviousOutPoint ti)). apply same_on_set; [done|].
  assert (same_entry match LookupEntry w1 h with Some e => e | None => newUtxoEntry (stxo_version s1) (stxo_isCoinBase s1) (stxo_height s1) end
                     match LookupEntry w2 h with Some e => e | None => newUtxoEntry (stxo_version s2) (stxo_isCoinBase s2) (stxo_height s2) end) as He.
  { destruct (Hs h HR) as [e1 e2 He|]; [done|]. rewrite Hv, Hc, Hh. apply same_entry_refl. }
  set (e1 := match LookupEntry w1 h with Some e => e | None => _ end) in *.
  set (e2 := match LookupEntry w2 h with Some e => e | None => _ end) in *. clearbody e1 e2.
  apply (same_entry_insert e1 e2); [done|].
  destruct He as (_ & _ & Ho). cbn [sparseOutputs set_modified]. destruct (Ho i) as [o1 o2 [_ Hcon]|].
  - split; [done|]. by rewrite !contents_set_spent.
  - split; [done | exact Hd].
Qed.

Lemma unspend_inputs_same R ins : forall w1 w2 st1 st2 k r1 k',
  Forall (fun ti => Hash (PreviousOutPoint ti) ∈ R) ins -> same_on R w1 w2 -> Forall2 same_stxo st1 st2 ->
  unspend_inputs w1 ins st1 k = Ok (r1, k') ->
  exists r2, unspend_inputs w2 ins st2 k = Ok (r2, k') /\ same_on R r1 r2.
Proof.
  induction ins as [|ti ins IH]; intros w1 w2 st1 st2 k r1 k' HR Hs Hst Hu; cbn [unspend_inputs] in *.
  { injection Hu as <- <-. by exists w2. }
  apply Forall_cons in HR as [HRi HR]. apply bind_Ok in Hu as (s1 & Hi1 & Hu). apply idx_Ok in Hi1 as [Hr Hi1].
  destruct (Forall2_lookup_l _ _ _ _ _ Hst Hi1) as (s2 & Hi2 & Hss).
  assert (idx (E := string) st2 k = Ok s2) as ->.
  { apply idx_Ok. done. }
  cbn [mbind res_bind]. eapply IH; [done | | done | done]. by apply unspend_same.
Qed.

Lemma clear_same R w1 w2 tx cb height : SigCache.TxHash tx ∈ R -> same_on R w1 w2 ->
  same_on R (clear_tx w1 tx cb height) (clear_tx w2 tx cb height).
Proof.
  intros HR Hs. unfold clear_tx. apply same_on_set; [done|].
  assert (forall e1 e2, meta e1 = meta e2 ->
    same_entry (set_sparseOutputs (set_modified e1 true) ∅) (set_sparseOutputs (set_modified e2 true) ∅)) as Hempty.
  { intros e1 e2 Hm. split_and!; [exact Hm | done |]. intros i. cbn. rewrite lookup_empty. constructor. }
  apply Hempty. destruct (Hs _ HR) as [e1 e2 (Hm & _)|]; done.
Qed.

(** The transactions whose entries disconnecting [txs] touches. *)
Definition touched (txs : list (Z * MsgTx)) (h : bytes) : Prop :=
  exists k tx, (k, tx) ∈ txs /\ (h = SigCache.TxHash tx \/ (k <> 0 /\ h ∈ map (fun ti => Hash (PreviousOutPoint ti)) (tx_TxIn tx))).

Lemma disconnect_same R rev_txs : forall w1 w2 height st1 st2 k r1,
  (forall h, touched rev_txs h -> h ∈ R) -> same_on R w1 w2 -> Forall2 same_stxo st1 st2 ->
  disconnect_txs w1 rev_txs height st1 k = Ok r1 ->
  exists r2, disconnect_txs w2 rev_txs height st2 k = Ok r2 /\ same_on R r1 r2.
Proof.
  induction rev_txs as [|[j tx] rest IH]; intros w1 w2 height st1 st2 k r1 HR Hs Hst Hd; cbn [disconnect_txs] in *.
  { injection Hd as <-. by exists w2. }
  assert (forall h, touched rest h -> h ∈ R) as HRrest.
  { intros h (j' & tx' & Hin & Ht). apply HR. exists j', tx'. split; [by right | done]. }
  assert (same_on R (clear_tx w1 tx (j =? 0) height) (clear_tx w2 tx (j =? 0) height)) as Hcl.
  { apply clear_same; [|done]. apply HR. exists j, tx. split; [left | by left]. }
  destruct (Z.eqb_spec j 0) as [->|Hj]; [by eapply IH|].
  apply bind_Ok in Hd as ([u1 k1] & Hu & Hd).
  assert (Forall (fun ti => Hash (PreviousOutPoint ti) ∈ R) (reverse (tx_TxIn tx))) as Hins.
  { apply Forall_forall. intros ti Hti. apply HR. exists j, tx. split; [left|]. right. split; [done|].
    apply list_elem_of_fmap. exists ti. split; [done|]. by rewrite elem_of_reverse in Hti. }
  destruct (unspend_inputs_same R _ _ _ st1 st2 k u1 k1 Hins Hcl Hst Hu) as (u2 & -> & Hsu).
  cbn [mbind res_bind]. by eapply IH.
Qed.

(** * What is left alone, and what is marked *)
Lemma entries_set w h e h' : h' <> h -> entries (set_entry w h e) !! h' = entries w !! h'.
Proof. intros Hne. unfold set_entry. cbn. by rewrite lookup_insert_ne. Qed.

Lemma unspend_inputs_frame ins : forall w st k r k' h,
  unspend_inputs w ins st k = Ok (r, k') -> h ∉ map (fun ti => Hash (PreviousOutPoint ti)) ins ->
  entries r !! h = entries w !! h.
Proof.
  induction ins as [|ti ins IH]; intros w st k r k' h Hu Hh; cbn [unspend_inputs map] in *.
  { by injection Hu as <- <-. }
  apply not_elem_of_cons in Hh as [Hne Hh]. apply bind_Ok in Hu as (s & _ & Hu).
  rewrite (IH _ _ _ _ _ _ Hu Hh). by apply entries_set.
Qed.

Lemma disconnect_frame rev_txs : forall w height st k r h,
  disconnect_txs w rev_txs height st k = Ok r -> ~ touched rev_txs h -> entries r !! h = entries w !! h.
Proof.
  induction rev_txs as [|[j tx] rest IH]; intros w height st k r h Hd Ht; cbn [disconnect_txs] in *.
  { by injection Hd as <-. }
  assert (~ touched rest h) as Htr by (intros (j' & tx' & Hin & Ht'); apply Ht; exists j', tx'; split; [by right | done]).
  assert (h <> SigCache.TxHash tx) as Hne by (intros ->; apply Ht; exists j, tx; split; [left | by left]).
  destruct (Z.eqb_spec j 0) as [->|Hj].
  { rewrite (IH _ _ _ _ _ _ Hd Htr). by apply entries_set. }
  apply bind_Ok in Hd as ([u k1] & Hu & Hd). rewrite (IH _ _ _ _ _ _ Hd Htr).
  rewrite (unspend_inputs_frame _ _ _ _ _ _ _ Hu); [by apply entries_set|].
  intros Hin. apply Ht. exists j, tx. split; [left|]. right. split; [done|].
  apply list_elem_of_fmap in Hin as (ti & -> & Hti). apply list_elem_of_fmap. exists ti. split; [done|].
  by rewrite elem_of_reverse in Hti.
Qed.

Definition marked (w : UtxoViewpoint) (h : bytes) : Prop := exists e, LookupEntry w h = Some e /\ ent_modified e = true.

Lemma marked_set w h e h' : ent_modified e = true -> (h' = h \/ marked w h') -> marked (set_entry w h e) h'.
Proof.
  intros He Hh. unfold marked. rewrite lookup_set_entry. destruct (decide (h' = h)) as [->|Hne]; [by eauto|].
  by destruct Hh as [->|].
Qed.

Lemma unspend_inputs_marked ins : forall w st k r k' h,
  unspend_inputs w ins st k = Ok (r, k') -> h ∈ map (fun ti => Hash (PreviousOutPoint ti)) ins \/ marked w h -> marked r h.
Proof.
  induction ins as [|ti ins IH]; intros w st k r k' h Hu Hh; cbn [unspend_inputs map] in *.
  { injection Hu as <- <-. by destruct Hh as [?%elem_of_nil|]. }
  apply bind_Ok in Hu as (s & _ & Hu). apply (IH _ _ _ _ _ _ Hu). destruct Hh as [[->|Hh]%elem_of_cons|Hh]; [right | by left | right].
  - apply marked_set; [done | by left].
  - apply marked_set; [done | by right].
Qed.

Lemma disconnect_marked rev_txs : forall w height st k r h,
  disconnect_txs w rev_txs height st k = Ok r -> touched rev_txs h \/ marked w h -> marked r h.
Proof.
  induction rev_txs as [|[j tx] rest IH]; intros w height st k r h Hd Ht; cbn [disconnect_txs] in *.
  { injection Hd as <-. destruct Ht as [(j' & tx' & ?%elem_of_nil & _)|]; done. }
  assert (h = SigCache.TxHash tx \/ marked w h -> marked (clear_tx w tx (j =? 0) height) h) as Hcl.
  { intros Hh. by apply marked_set. }
  assert (touched ((j, tx) :: rest) h -> touched rest h \/ h = SigCache.TxHash tx \/
            (j <> 0 /\ h ∈ map (fun ti => Hash (PreviousOutPoint ti)) (tx_TxIn tx))) as Hcase.
  { intros (j' & tx' & [[= -> ->]|Hin]%elem_of_cons & Ht'); [by right | left; by exists j', tx']. }
  destruct (Z.eqb_spec j 0) as [->|Hj].
  - apply (IH _ _ _ _ _ _ Hd). destruct Ht as [Ht|Ht]; [|right; apply Hcl; by right].
    destruct (Hcase Ht) as [|[|[]]]; [by left | right; apply Hcl; by left | done].
  - apply bind_Ok in Hd as ([u k1] & Hu & Hd). apply (IH _ _ _ _ _ _ Hd).
    assert (h ∈ map (fun ti => Hash (PreviousOutPoint ti)) (tx_TxIn tx) \/ h = SigCache.TxHash tx \/ marked w h -> marked u h) as Hum.
    { intros Hh. apply (unspend_inputs_marked _ _ _ _ _ _ _ Hu). destruct Hh as [Hh|Hh]; [left | right; by apply Hcl].
      apply list_elem_of_fmap in Hh as (ti & -> & Hti). apply list_elem_of_fmap. exists ti. split; [done|].
      by rewrite elem_of_reverse. }
    destruct Ht as [Ht|Ht]; [|right; apply Hum; by right; right].
    destruct (Hcase Ht) as [|[|[_ ?]]]; [by left | right; apply Hum; by right; left | right; apply Hum; by left].
Qed.

(** * Connecting *)
Lemma spend_inputs_entries ins : forall v l v' st,
  ins_available v ins -> spend_inputs v ins (Some l) = Ok (v', st) ->
  (forall h, h ∉ map (fun ti => Hash (PreviousOutPoint ti)) ins -> entries v' !! h = entries v !! h) /\
  (forall h, h ∈ map (fun ti => Hash (PreviousOutPoint ti)) ins \/ marked v h -> marked v' h) /\
  (forall P : bytes -> Z -> Prop, (forall h e, LookupEntry v h = Some e -> P h (ent_version e)) ->
     forall h e, LookupEntry v' h = Some e -> P h (ent_version e)).
Proof.
  induction ins as [|ti ins IH]; intros v l v' st Hav Hs.
  { injection Hs as <- <-. split_and!; [done | | done]. intros h [Hn|]; [by apply elem_of_nil in Hn | done]. }
  destruct Hav as [Hc Hav]. apply spend_inputs_cons in Hs as (v1 & stxo & Hs1 & Hs).
  destruct (spend_inputs_records _ _ _ [] _ _ Hs1) as (n1 & _ & _ & Hs1').
  destruct (IH v1 _ v' st (Hav _ _ Hs1') Hs) as (Hfr & Hmk & Hver).
  destruct (spend_one v ti l v1 _ Hs1 Hc) as (e & o & o' & He & Ho & Hsp & Hd & -> & Hst). cbn [map]. split_and!.
  - intros h [Hne Hh]%not_elem_of_cons. rewrite Hfr by done. by apply entries_set.
  - intros h Hh. apply Hmk. destruct Hh as [[->|Hh]%elem_of_cons|Hh]; [right | by left | right].
    + apply marked_set; [done | by left].
    + apply marked_set; [done | by right].
  - intros P HP. apply Hver. intros h e0. rewrite lookup_set_entry. case_decide; [|by apply HP]. intros [= <-]. subst h. exact (HP _ e He).
Qed.

Lemma AddTxOuts_marked v tx height h : h = SigCache.TxHash tx \/ marked v h -> marked (AddTxOuts v tx height) h.
Proof. intros Hh. unfold AddTxOuts. by apply marked_set. Qed.

Lemma AddTxOuts_version v tx height (P : bytes -> Z -> Prop) :
  (forall h e, LookupEntry v h = Some e -> P h (ent_version e)) -> P (SigCache.TxHash tx) (tx_Version tx) ->
  forall h e, LookupEntry (AddTxOuts v tx height) h = Some e -> P h (ent_version e).
Proof.
  intros HP Htx h e He. destruct (decide (h = SigCache.TxHash tx)) as [->|Hne].
  - destruct (AddTxOuts_entry v tx height) as (e' & He' & _ & Hv & _). rewrite He in He'. injection He' as <-.
    rewrite Hv. destruct (LookupEntry v _) as [e0|] eqn:He0; [by apply HP | done].
  - rewrite lookup_AddTxOuts_ne in He by done. by apply HP.
Qed.

Lemma connect_txs_entries height txs : forall k v l v' st, 1 <= k ->
  txs_ok height v k txs -> connect_txs v txs height (Some l) = Ok (v', st) ->
  (forall h, h ∉ refs txs ++ map SigCache.TxHash txs -> entries v' !! h = entries v !! h) /\
  (forall h, h ∈ refs txs ++ map SigCache.TxHash txs \/ marked v h -> marked v' h) /\
  (forall P : bytes -> Z -> Prop, Forall (fun tx => P (SigCache.TxHash tx) (tx_Version tx)) txs ->
     (forall h e, LookupEntry v h = Some e -> P h (ent_version e)) ->
     forall h e, LookupEntry v' h = Some e -> P h (ent_version e)) /\
  (forall i tx ti, txs !! i = Some tx -> ti ∈ tx_TxIn tx -> Hash (PreviousOutPoint ti) ∉ map SigCache.TxHash (drop i txs)).
Proof.
  induction txs as [|tx txs IH]; intros k v l v' st Hk Hok Hc; cbn [connect_txs] in Hc.
  { injection Hc as <- <-. split_and!; [done | | done | done]. intros h [Hn|]; [by apply elem_of_nil in Hn | done]. }
  destruct Hok as (Hcb & Hins & Hnext). apply bind_Ok in Hc as ([v1 s1] & H1 & Hc).
  destruct (connectTransaction_records _ _ _ _ [] _ _ H1) as (n1 & -> & _ & H1').
  destruct (IH (k + 1) v1 _ v' st ltac:(lia) (Hnext _ _ H1') Hc) as (Hfr & Hmk & Hver & Hnf).
  rewrite (proj2 (Z.eqb_neq k 0)) in Hcb by lia. destruct (Hins Hcb) as [Hav Hown].
  unfold connectTransaction in H1. rewrite Hcb in H1. apply bind_Ok in H1 as ([v0 s0] & Hs & Heq). injection Heq as <- ->.
  destruct (spend_inputs_entries _ _ _ _ _ Hav Hs) as (Hfr0 & Hmk0 & Hver0).
  assert (forall h, h ∈ refs (tx :: txs) ++ map SigCache.TxHash (tx :: txs) <->
    h ∈ map (fun ti => Hash (PreviousOutPoint ti)) (tx_TxIn tx) \/ h = SigCache.TxHash tx \/ h ∈ refs txs ++ map SigCache.TxHash txs) as Hsplit.
  { intros h. unfold refs. cbn [map concat]. rewrite map_app, !elem_of_app, elem_of_cons. tauto. }
  split_and!.
  - intros h Hh. rewrite Hsplit in Hh. rewrite Hfr by tauto. unfold AddTxOuts. rewrite entries_set by tauto. apply Hfr0. tauto.
  - intros h Hh. rewrite Hsplit in Hh. apply Hmk. destruct Hh as [[Hh|[Hh|Hh]]|Hh]; [right|right|by left|right];
      apply AddTxOuts_marked; first [by left | right; apply Hmk0; tauto].
  - intros P HP HPv. apply Forall_cons in HP as [HPt HP]. apply Hver; [done|]. apply AddTxOuts_version; [|done]. by apply Hver0.
  - intros [|i] tx' ti Htx Hti; [|by apply (Hnf i tx' ti)]. injection Htx as <-. rewrite Forall_forall in Hown. by apply Hown.
Qed.

(** * Disconnecting keeps the entries well formed *)
Definition wf_unspent (w : UtxoViewpoint) : Prop := forall h e, LookupEntry w h = Some e -> wf_entry e /\ all_unspent e.

Lemma wf_unspent_set w h e : wf_unspent w -> wf_entry e -> all_unspent e -> wf_unspent (set_entry w h e).
Proof. intros Hw He Hu h' e'. rewrite lookup_set_entry. case_decide; [by intros [= <-] | by apply Hw]. Qed.

Lemma wf_new_entry version cb height : is_s 32 version -> is_u 32 height ->
  wf_entry (newUtxoEntry version cb height) /\ all_unspent (newUtxoEntry version cb height).
Proof. intros Hv Hh. split; [split_and!; try done|]; intros i o; cbn; by rewrite lookup_empty. Qed.

Lemma unspend_wf w ti stxo : wf_unspent w -> wf_stxo stxo -> in_range ti -> wf_unspent (unspend w ti stxo).
Proof.
  intros Hw (Hv & Hh & a & sc & Hst) Hr. unfold unspend. set (e := match LookupEntry w _ with Some e => e | None => _ end).
  assert (wf_entry e /\ all_unspent e) as [He Hu].
  { unfold e. destruct (LookupEntry w _) as [e0|] eqn:He0; [by apply Hw in He0 | by apply wf_new_entry]. }
  clearbody e. apply wf_unspent_set; [done | |].
  - apply (wf_entry_insert e); [done..|]. cbn [sparseOutputs set_modified]. intros _.
    destruct (sparseOutputs e !! _) as [o|] eqn:Ho; [|by exists a, sc]. destruct He as (_ & _ & _ & He).
    by destruct (He _ o Ho (Hu _ o Ho)) as (a' & s' & ?); exists a', s'.
  - intros i o. cbn [sparseOutputs set_sparseOutputs]. destruct (decide (i = Index (PreviousOutPoint ti))) as [->|Hne].
    + rewrite lookup_insert_eq. intros [= <-]. by destruct (sparseOutputs _ !! _).
    + rewrite lookup_insert_ne by done. apply Hu.
Qed.

Lemma unspend_inputs_wf ins : forall w st k r k', wf_unspent w -> Forall wf_stxo st -> Forall in_range ins ->
  unspend_inputs w ins st k = Ok (r, k') -> wf_unspent r.
Proof.
  induction ins as [|ti ins IH]; intros w st k r k' Hw Hst Hr Hu; cbn [unspend_inputs] in Hu; [by injection Hu as <- <-|].
  apply Forall_cons in Hr as [Hri Hr]. apply bind_Ok in Hu as (s & Hi & Hu). apply idx_Ok in Hi as [_ Hi].
  refine (IH _ _ _ _ _ _ Hst Hr Hu). apply unspend_wf; [done | | done]. rewrite Forall_lookup in Hst. by apply (Hst _ _ Hi).
Qed.

Lemma disconnect_wf rev_txs : forall w height st k r, wf_unspent w -> Forall wf_stxo st -> is_u 32 height ->
  Forall (fun p => is_s 32 (tx_Version (snd p)) /\ (fst p <> 0 -> Forall in_range (tx_TxIn (snd p)))) rev_txs ->
  disconnect_txs w rev_txs height st k = Ok r -> wf_unspent r.
Proof.
  induction rev_txs as [|[j tx] rest IH]; intros w height st k r Hw Hst Hh Hall Hd; cbn [disconnect_txs] in Hd; [by injection Hd as <-|].
  apply Forall_cons in Hall as [[Hv Hr] Hall]. cbn [fst snd] in *.
  assert (wf_unspent (clear_tx w tx (j =? 0) height)) as Hcl.
  { unfold clear_tx. apply wf_unspent_set; [done | |]; [|by intros i o; cbn; rewrite lookup_empty].
    assert (wf_entry match LookupEntry w (SigCache.TxHash tx) with Some e => e | None => newUtxoEntry (tx_Version tx) (j =? 0) height end) as He.
    { destruct (LookupEntry w _) as [e0|] eqn:He0; [by apply Hw in He0 as [? _] | by apply wf_new_entry]. }
    destruct He as (? & ? & _). split_and!; try done; intros i o; cbn; by rewrite lookup_empty. }
  destruct (Z.eqb_spec j 0) as [->|Hj]; [by eapply IH|]. apply bind_Ok in Hd as ([u k1] & Hu & Hd).
  refine (IH _ _ _ _ _ _ Hst Hh Hall Hd). apply (unspend_inputs_wf _ _ _ _ _ _ Hcl Hst) in Hu; [done|]. apply Forall_forall. intros ti Hti.
  rewrite elem_of_reverse in Hti. specialize (Hr Hj). rewrite Forall_forall in Hr. by apply Hr.
Qed.

End ViewSpec.
