(* ===== verification/DbSpec.v ===== *)
(** The utxo set in the database: loading views from it and storing them.

    The last theorem composes the parts: a block that was connected, stored with
    its spend journal, and disconnected again leaves the coins of the database
    as they were. *)
From S2P Require Import Prelude Wire Crypto Script Compress SigCache Utxo UtxoSpec Header MsgBlock Database Validate ChainIO.
From S2P Require Import ChainIOSpec JournalSpec ViewSpec.
Import wire Crypto Script Compress Utxo UtxoSpec Validate ChainIO ChainIOSpec JournalSpec ViewSpec.
#[local] Open Scope Z_scope.

Module DbSpec.

(** * The coins in the database *)
Definition good_value (s : bytes) : Prop :=
  s <> [] /\ exists e, deserializeUtxoEntry s = Ok e /\ wf_entry e /\ ent_modified e = false /\ IsFullySpent e = false /\
    all_unspent e.

Definition db_ok (db : Database.DB) : Prop :=
  exists b, Database.buckets db !! utxoSetBucketName = Some b /\ map_Forall (fun _ s => good_value s) b.

Definition db_entry (db : Database.DB) (h : bytes) : option UtxoEntry :=
  match dbFetchUtxoEntry db h with Ok e => e | _ => None end.

Definition db_coin (db : Database.DB) (h : bytes) (i : Z) : option (option (Z * option bytes) * (Z * bool * Z)) :=
  match db_entry db h with
  | Some e => match entry_coin e i with Some c => Some (c, meta e) | None => None end
  | None => None
  end.

(** The rest of the database. *)
Definition same_rest (db db' : Database.DB) : Prop :=
  Database.metadata db' = Database.metadata db /\ Database.blocks db' = Database.blocks db /\
  forall name, name <> utxoSetBucketName -> Database.buckets db' !! name = Database.buckets db !! name.

Lemma same_rest_refl db : same_rest db db.
Proof. done. Qed.

Lemma same_rest_trans db1 db2 db3 : same_rest db1 db2 -> same_rest db2 db3 -> same_rest db1 db3.
Proof. intros (H1 & H2 & H3) (H4 & H5 & H6). split_and!; [congruence | congruence |]. intros name Hn. by rewrite H6, H3. Qed.

Lemma db_fetch db b h : Database.buckets db !! utxoSetBucketName = Some b -> map_Forall (fun _ s => good_value s) b ->
  match b !! h with
  | Some s => exists e, deserializeUtxoEntry s = Ok e /\ dbFetchUtxoEntry db h = Ok (Some e) /\ db_entry db h = Some e /\
                wf_entry e /\ ent_modified e = false /\ IsFullySpent e = false /\ all_unspent e
  | None => dbFetchUtxoEntry db h = Ok None /\ db_entry db h = None
  end.
Proof.
  intros Hb Hg. unfold db_entry, dbFetchUtxoEntry, Database.bucket_Get. rewrite Hb. cbn [mbind res_bind].
  destruct (b !! h) as [s|] eqn:Hs; [|done]. destruct (Hg h s Hs) as (Hne & e & He & Hwf & Hm & Hf). exists e.
  destruct (Z.eqb_spec (len s) 0) as [H0|_]; [by apply len_0 in H0|]. by rewrite He.
Qed.

Lemma db_fetch_ok db h : db_ok db -> dbFetchUtxoEntry db h = Ok (db_entry db h).
Proof.
  intros (b & Hb & Hg). pose proof (db_fetch db b h Hb Hg) as Hf. destruct (b !! h) as [s|].
  - destruct Hf as (e & _ & -> & -> & _). done.
  - destruct Hf as [-> ->]. done.
Qed.

Lemma db_entry_wf db h e : db_ok db -> db_entry db h = Some e ->
  wf_entry e /\ ent_modified e = false /\ IsFullySpent e = false /\ all_unspent e.
Proof.
  intros (b & Hb & Hg) He. pose proof (db_fetch db b h Hb Hg) as Hf. destruct (b !! h) as [s|].
  - destruct Hf as (e' & _ & _ & He' & Hwf). rewrite He' in He. by injection He as <-.
  - destruct Hf as [_ Hn]. congruence.
Qed.

(** The entries of a database whose bucket changes at one key. *)
Lemma db_entry_set db b' h :
  db_entry (Database.set_bucket db utxoSetBucketName b') h =
  match b' !! h with
  | None => None
  | Some s => if len s =? 0 then None else match deserializeUtxoEntry s with Ok e => Some e | _ => None end
  end.
Proof.
  unfold db_entry, dbFetchUtxoEntry, Database.bucket_Get. rewrite Database.set_bucket_same. cbn [mbind res_bind].
  destruct (b' !! h) as [s|]; [|done]. destruct (len s =? 0); [done|]. unfold or_corrupt.
  destruct (deserializeUtxoEntry s) as [e|e| |]; [done | by destruct (isDeserializeErr e) | done | done].
Qed.

Lemma db_entry_bucket db b h : Database.buckets db !! utxoSetBucketName = Some b ->
  db_entry db h = match b !! h with
  | None => None
  | Some s => if len s =? 0 then None else match deserializeUtxoEntry s with Ok e => Some e | _ => None end
  end.
Proof.
  intros Hb. rewrite <- (db_entry_set db b h). unfold db_entry, dbFetchUtxoEntry, Database.bucket_Get.
  by rewrite Hb, Database.set_bucket_same.
Qed.

(** Only the bucket of the utxo set matters. *)
Lemma db_bucket_ext db db' : Database.buckets db' !! utxoSetBucketName = Database.buckets db !! utxoSetBucketName ->
  (db_ok db -> db_ok db') /\ forall h, db_entry db' h = db_entry db h.
Proof.
  intros Hb. split.
  - intros (b & Hbk & Hg). exists b. by rewrite Hb.
  - intros h. unfold db_entry, dbFetchUtxoEntry, Database.bucket_Get. by rewrite Hb.
Qed.

(** * Storing a view *)

(** The database holds the coins of [e]. *)
Definition holds (oe : option UtxoEntry) (e : UtxoEntry) : Prop :=
  match oe with
  | Some e' => IsFullySpent e = false /\ meta e' = meta e /\ forall i, entry_coin e' i = entry_coin e i
  | None => IsFullySpent e = true
  end.

Lemma enc_entry_ne e code n : enc_entry e code n <> [].
Proof.
  intros He%(f_equal len). unfold enc_entry in He. cbn zeta in He. rewrite len_app in He.
  match type of He with len (vlq ?a) + len ?b = _ => pose proof (vlq_length a); pose proof (len_nonneg b) end. change (len []) with 0 in He. lia.
Qed.

Lemma entry_coin_unspent e : IsFullySpent e = false <-> exists i, entry_coin e i <> None.
Proof.
  split.
  - intros Hf. destruct (IsFullySpent_false e Hf) as [i Hi]. exists i. apply unspent_Some in Hi as (o & Ho & Hs).
    unfold entry_coin. by rewrite Ho, Hs.
  - intros [i Hi]. apply bool_decide_eq_false. intros Hall. unfold entry_coin in Hi.
    destruct (sparseOutputs e !! i) as [o|] eqn:Ho; [|done]. specialize (Hall i o Ho). cbn in Hall. by rewrite Hall in Hi.
Qed.

Lemma holds_coin oe e i : holds oe e ->
  match oe with Some e' => match entry_coin e' i with Some c => Some (c, meta e') | None => None end | None => None end =
  match entry_coin e i with Some c => Some (c, meta e) | None => None end.
Proof.
  destruct oe as [e'|]; cbn [holds].
  - by intros (_ & -> & ->).
  - intros Hf. destruct (entry_coin e i) eqn:He; [|done]. assert (IsFullySpent e = false); [|congruence].
    apply entry_coin_unspent. exists i. by rewrite He.
Qed.

Lemma put_entry_spec db h e : db_ok db -> h <> [] -> wf_entry e -> ent_modified e = true ->
  exists db', put_utxo_entry db h (Some e) = Ok db' /\ db_ok db' /\ same_rest db db' /\ holds (db_entry db' h) e /\
    forall h', h' <> h -> db_entry db' h' = db_entry db h'.
Proof.
  intros (b & Hb & Hg) Hh Hwf Hm. unfold put_utxo_entry. rewrite Hm. cbn [negb].
  assert (forall b', same_rest db (Database.set_bucket db utxoSetBucketName b')) as Hsame.
  { intros b'. split_and!; [done | done |]. intros name Hn. by apply Database.set_bucket_other. }
  destruct (IsFullySpent e) eqn:Hf.
  - unfold serializeUtxoEntry. rewrite Hf. cbn [mbind res_bind]. rewrite (Database.bucket_Delete_Ok _ _ b) by done.
    eexists. split; [done|]. split_and!; [|done| |].
    + exists (delete h b). split; [apply Database.set_bucket_same | by apply map_Forall_delete].
    + rewrite db_entry_set, lookup_delete_eq. done.
    + intros h' Hne. rewrite db_entry_set, lookup_delete_ne by done. by rewrite (db_entry_bucket db b).
  - destruct (serializeUtxoEntry_spec e Hwf Hf) as (code & n & Hok & ->). cbn [mbind res_bind].
    destruct (deserializeUtxoEntry_spec e code n Hwf Hf Hok) as (e' & Hd & Hmeta & Hcoin & Hwf' & Hm' & Hall').
    rewrite (Database.bucket_Put_Ok _ _ b) by done. eexists. split; [done|].
    assert (IsFullySpent e' = false) as Hf'.
    { apply entry_coin_unspent in Hf as [i Hi]. apply entry_coin_unspent. exists i. by rewrite Hcoin. }
    split_and!; [|done| |].
    + exists (<[h := enc_entry e code n]> b). split; [apply Database.set_bucket_same|]. apply map_Forall_insert_2; [|done].
      split; [apply enc_entry_ne | by exists e'].
    + rewrite db_entry_set, lookup_insert_eq, Hd. destruct (Z.eqb_spec (len (enc_entry e code n)) 0) as [H0|_]; [|done].
      apply len_0 in H0. by apply enc_entry_ne in H0.
    + intros h' Hne. rewrite db_entry_set, lookup_insert_ne by done. by rewrite (db_entry_bucket db b).
Qed.

(** The entry of [h] in a list of pairs, if it is to be stored. *)
Definition stored_entry (oe : option (option UtxoEntry)) : option UtxoEntry :=
  match oe with Some (Some e) => if ent_modified e then Some e else None | _ => None end.

Definition storable (oe : option UtxoEntry) : Prop :=
  match oe with Some e => ent_modified e = true -> wf_entry e | None => True end.

Lemma put_entries_spec l : forall db, db_ok db -> NoDup (map fst l) -> Forall (fun p => fst p <> [] /\ storable (snd p)) l ->
  exists db', put_utxo_entries db l = Ok db' /\ db_ok db' /\ same_rest db db' /\
    forall h, (forall e, (h, Some e) ∈ l -> ent_modified e = true -> holds (db_entry db' h) e) /\
              ((forall e, (h, Some e) ∈ l -> ent_modified e = false) -> db_entry db' h = db_entry db h).
Proof.
  induction l as [|[k oe] l IH]; intros db Hdb Hnd Hall; cbn [put_utxo_entries].
  { exists db. split_and!; [done | done | done |]. intros h. split; [|done]. by intros e ?%elem_of_nil. }
  apply NoDup_cons in Hnd as [Hni Hnd]. apply Forall_cons in Hall as [[Hk Hst] Hall]. cbn [fst snd] in *.
  assert (exists db1, put_utxo_entry db k oe = Ok db1 /\ db_ok db1 /\ same_rest db db1 /\
    (forall e, oe = Some e -> ent_modified e = true -> holds (db_entry db1 k) e) /\
    ((forall e, oe = Some e -> ent_modified e = false) -> db_entry db1 k = db_entry db k) /\
    forall h', h' <> k -> db_entry db1 h' = db_entry db h') as (db1 & -> & Hdb1 & Hsr & Hk1 & Hk2 & Hne).
  { destruct oe as [e|]; [|by exists db; split_and!]. destruct (ent_modified e) eqn:Hm.
    - destruct (put_entry_spec db k e Hdb Hk (Hst Hm) Hm) as (db1 & Hput & Hdb1 & Hsr & Hh & Hne).
      exists db1. split_and!; try done; [by intros e' [= <-] | intros Hx; specialize (Hx e eq_refl); congruence].
    - exists db. unfold put_utxo_entry. rewrite Hm. split_and!; try done. intros e' [= <-] ?. congruence. }
  cbn [mbind res_bind]. destruct (IH db1 Hdb1 Hnd Hall) as (db' & -> & Hdb' & Hsr' & Hspec).
  exists db'. split_and!; [done | done | by eapply same_rest_trans |]. intros h. destruct (Hspec h) as [Hs1 Hs2].
  destruct (decide (h = k)) as [->|Hhk].
  - assert (forall e, (k, Some e) ∉ l) as Hnot.
    { intros e Hin. apply Hni. apply list_elem_of_fmap. by exists (k, Some e). }
    rewrite Hs2 by (intros e Hin; by apply Hnot in Hin). split.
    + intros e [[= <-]|Hin]%elem_of_cons; [by apply Hk1 | by apply Hnot in Hin].
    + intros Hx. apply Hk2. intros e ->. apply Hx. left.
  - split.
    + intros e [[= ? ?]|Hin]%elem_of_cons; [done | by apply Hs1].
    + intros Hx. rewrite Hs2, Hne; [done | done |]. intros e Hin. apply Hx. by right.
Qed.

(** Storing a view: the database gets the coins of the modified entries and
    keeps the others, in whatever order the entries are visited. *)
Lemma put_view_spec db v : db_ok db -> (forall h e, entries v !! h = Some (Some e) -> ent_modified e = true -> h <> [] /\ wf_entry e) ->
  entries v !! [] = None ->
  exists db', dbPutUtxoView db v = Ok db' /\ db_ok db' /\ same_rest db db' /\
    forall h, match LookupEntry v h with
              | Some e => if ent_modified e then holds (db_entry db' h) e else db_entry db' h = db_entry db h
              | None => db_entry db' h = db_entry db h
              end.
Proof.
  intros Hdb Hv Hnil. unfold dbPutUtxoView. destruct (put_entries_spec (map_to_list (entries v)) db Hdb) as (db' & -> & Hdb' & Hsr & Hspec).
  - apply NoDup_fst_map_to_list.
  - apply Forall_forall. intros [h oe] Hin%elem_of_map_to_list. cbn. split; [intros ->; congruence|].
    destruct oe as [e|]; [|done]. intros Hm. by apply (Hv h e).
  - exists db'. split_and!; [done | done | done |]. intros h. destruct (Hspec h) as [H1 H2]. unfold LookupEntry.
    destruct (entries v !! h) as [[e|]|] eqn:He.
    + destruct (ent_modified e) eqn:Hm.
      * apply H1; [by apply elem_of_map_to_list | done].
      * apply H2. intros e' Hin%elem_of_map_to_list. congruence.
    + apply H2. intros e' Hin%elem_of_map_to_list. congruence.
    + apply H2. intros e' Hin%elem_of_map_to_list. congruence.
Qed.

(** * Loading a view *)
Lemma fetch_entries_spec db l : db_ok db -> forall view,
  exists view', fetch_entries db view l = Ok view' /\
    forall h, entries view' !! h = if decide (h ∈ l) then Some (db_entry db h) else entries view !! h.
Proof.
  intros Hdb. induction l as [|k l IH]; intros view; cbn [fetch_entries].
  { exists view. split; [done|]. intros h. rewrite decide_False; [done | apply not_elem_of_nil]. }
  rewrite db_fetch_ok by done. cbn [mbind res_bind].
  destruct (IH (mkUtxoViewpoint (<[k := db_entry db k]> (entries view)) (bestHash view))) as (view' & -> & Hv).
  exists view'. split; [done|]. intros h. rewrite Hv. cbn [entries].
  destruct (decide (h ∈ l)) as [Hin|Hni]; [rewrite decide_True; [done | by right]|].
  destruct (decide (h = k)) as [->|Hne].
  - rewrite lookup_insert_eq, decide_True; [done | left].
  - rewrite lookup_insert_ne, decide_False; [done | by apply not_elem_of_cons | done].
Qed.

Lemma fetch_main_spec db view S : db_ok db ->
  exists view', fetchUtxosMain view db S = Ok view' /\
    forall h, entries view' !! h = if decide (h ∈ S) then Some (db_entry db h) else entries view !! h.
Proof.
  intros Hdb. destruct (fetch_entries_spec db (elements S) Hdb view) as (view' & Hf & Hv). exists view'. split; [done|].
  intros h. rewrite Hv. destruct (decide (h ∈ S)); [rewrite decide_True | rewrite decide_False]; rewrite ?elem_of_elements; done.
Qed.

(** The last position of a hash among the transactions. *)
Lemma txInFlight_spec txs :
  forall h, match txInFlight txs !! h with
            | Some i => 0 <= i /\ (exists tx, txs !! Z.to_nat i = Some tx /\ SigCache.TxHash tx = h) /\
                        forall j tx, txs !! j = Some tx -> SigCache.TxHash tx = h -> Z.of_nat j <= i
            | None => h ∉ map SigCache.TxHash txs
            end.
Proof.
  unfold txInFlight. induction txs as [|tx txs IH] using rev_ind; intros h; [by apply not_elem_of_nil|].
  assert (numbered (txs ++ [tx]) = numbered txs ++ [(len txs, tx)]) as ->.
  { unfold numbered. rewrite len_app. change (len [tx]) with 1.
    rewrite seqZ_app by (pose proof (len_nonneg txs); lia). rewrite zip_with_app by (rewrite length_seqZ; unfold len; lia). done. }
  rewrite fold_left_app. cbn [fold_left fst snd]. specialize (IH h).
  destruct (decide (h = SigCache.TxHash tx)) as [->|Hne].
  - rewrite lookup_insert_eq. pose proof (len_nonneg txs). split_and!; [done | |].
    + exists tx. split; [|done]. unfold len. by rewrite Nat2Z.id, lookup_app_r, Nat.sub_diag.
    + intros j tx' Hj _. apply lookup_lt_Some in Hj. rewrite length_app in Hj. cbn in Hj. unfold len. lia.
  - rewrite lookup_insert_ne by congruence. destruct (_ !! h) as [i|].
    + destruct IH as (H0 & (tx' & Htx' & Hh) & Hlast). split_and!; [done | |].
      * exists tx'. split; [|done]. by apply lookup_app_l_Some.
      * intros j tj Hj Htj. apply lookup_app_Some in Hj as [Hj|[_ Hj]]; [by eapply Hlast|].
        apply list_lookup_singleton_Some in Hj as [_ <-]. congruence.
    + rewrite map_app. cbn. rewrite not_elem_of_app. split; [done|]. by apply not_elem_of_cons; split; [|apply not_elem_of_nil].
Qed.

(** ** The inputs of a block *)
Section loading.
Context (db : Database.DB) (block : Utxo.Block).
Notation txs := (Transactions block).
Notation B := (map SigCache.TxHash (Transactions block)).

Hypothesis (Hdb : db_ok db) (Hnew : Forall wf_new txs) (Hheight : is_u 32 (Height block)).

(** No input refers to its own transaction or to a later one. *)
Definition no_forward : Prop :=
  forall k tx ti, (1 <= k)%nat -> txs !! k = Some tx -> ti ∈ tx_TxIn tx ->
    Hash (PreviousOutPoint ti) ∉ map SigCache.TxHash (drop k txs).

Hypothesis Hnf : no_forward.

(** An entry that only this block's transaction [h] made. *)
Definition made (h : bytes) (e : UtxoEntry) : Prop :=
  (wf_entry e /\ all_unspent e) /\ ent_blockHeight e = Height block /\
  exists tx, tx ∈ txs /\ SigCache.TxHash tx = h /\ ent_version e = tx_Version tx.

Definition own (view : UtxoViewpoint) : Prop :=
  forall h oe, entries view !! h = Some oe -> h ∈ B /\ match oe with Some e => made h e | None => True end.

(** Of the hashes [ts], those of earlier blocks are to be fetched and the others
    have an entry. *)
Definition needs (ts : list bytes) (st : UtxoViewpoint * gset bytes) : Prop :=
  own (fst st) /\ (forall h, h ∈ snd st <-> h ∈ ts /\ h ∉ B) /\ (forall h, h ∈ ts -> h ∈ B -> LookupEntry (fst st) h <> None).

Lemma own_add view tx : own view -> tx ∈ txs -> own (AddTxOuts view tx (Height block)).
Proof.
  intros Ho Hin h oe Hh. destruct (decide (h = SigCache.TxHash tx)) as [->|Hne].
  2: { apply Ho. revert Hh. unfold AddTxOuts, set_entry. cbn [entries]. by rewrite lookup_insert_ne. }
  split; [apply list_elem_of_fmap; by exists tx|]. destruct oe as [e|]; [|done].
  assert (forall e0, LookupEntry view (SigCache.TxHash tx) = Some e0 -> made (SigCache.TxHash tx) e0) as Hmade.
  { intros e0 He0. unfold LookupEntry in He0. destruct (entries view !! _) as [[e1|]|] eqn:E; try done. injection He0 as ->.
    by apply Ho in E as [_ ?]. }
  assert (LookupEntry (AddTxOuts view tx (Height block)) (SigCache.TxHash tx) = Some e) as He by (unfold LookupEntry; by rewrite Hh).
  destruct (AddTxOuts_entry view tx (Height block)) as (e' & He' & Hht & Hver & Hout). rewrite He in He'. injection He' as <-.
  rewrite Forall_forall in Hnew. split_and!.
  - apply (add_wf_entry view tx (Height block)); [|by apply Hnew | done..]. intros e0 He0. by apply Hmade.
  - intros i o. rewrite Hout, add_outs_lookup by (destruct (Hnew tx Hin) as (_ & _ & ? & _); lia).
    assert (forall o, match LookupEntry view (SigCache.TxHash tx) with Some e0 => sparseOutputs e0 | None => ∅ end !! i = Some o ->
              out_spent o = false) as Hold.
    { intros o0. destruct (LookupEntry view _) as [e0|]; [|by rewrite lookup_empty].
      destruct (Hmade e0 eq_refl) as ((_ & Hu) & _). apply Hu. }
    destruct (if i <? 0 then None else _) as [to|]; [|apply Hold]. destruct (IsUnspendable _); [apply Hold | by intros [= <-]].
  - done.
  - destruct (LookupEntry view _) as [e0|]; [|by exists tx].
    destruct (Hmade e0 eq_refl) as (_ & _ & tx0 & ? & ? & ?). exists tx0. split_and!; congruence.
Qed.

Lemma needs_add ts view S tx : needs ts (view, S) -> tx ∈ txs ->
  needs (ts ++ [SigCache.TxHash tx]) (AddTxOuts view tx (Height block), S).
Proof.
  intros (Ho & HS & Hk) Hin. assert (SigCache.TxHash tx ∈ B) as HB by (apply list_elem_of_fmap; by exists tx).
  cbn [fst snd] in *. split_and!; cbn [fst snd].
  - by apply own_add.
  - intros h. rewrite HS, elem_of_app, list_elem_of_singleton. naive_solver.
  - intros h Hh HhB. destruct (decide (h = SigCache.TxHash tx)) as [->|Hne].
    + destruct (AddTxOuts_entry view tx (Height block)) as (e & -> & _). done.
    + rewrite lookup_AddTxOuts_ne by done. apply Hk; [|done]. by apply elem_of_app in Hh as [|?%list_elem_of_singleton].
Qed.

Lemma needs_fetch ts view S h : needs ts (view, S) -> h ∉ B ->
  needs (ts ++ [h]) (view, if bool_decide (is_Some (entries view !! h)) then S else {[h]} ∪ S).
Proof.
  intros (Ho & HS & Hk) HB. cbn [fst snd] in *. rewrite bool_decide_eq_false_2.
  2: { intros [oe Hoe]. by apply Ho in Hoe as [? _]. }
  split_and!; cbn [fst snd]; [done | |].
  - intros h'. rewrite elem_of_union, elem_of_singleton, HS, elem_of_app, list_elem_of_singleton. naive_solver.
  - intros h0 Hin HhB. apply elem_of_app in Hin as [Hh|Heq]; [by apply Hk|]. apply list_elem_of_singleton in Heq as ->. done.
Qed.

Lemma needed_ins_spec k tx ins : (1 <= k)%nat -> txs !! k = Some tx -> (forall ti, ti ∈ ins -> ti ∈ tx_TxIn tx) ->
  forall ts st, needs ts st ->
  exists st', needed_ins block (txInFlight txs) (Z.of_nat k - 1) ins st = Ok st' /\
    needs (ts ++ map (fun ti => Hash (PreviousOutPoint ti)) ins) st'.
Proof.
  intros Hk Htx. induction ins as [|ti ins IH]; intros Hsub ts [view S] Hn; cbn [needed_ins map].
  { exists (view, S). by rewrite app_nil_r. }
  set (h := Hash (PreviousOutPoint ti)).
  assert (forall st, needs (ts ++ [h]) st -> exists st', needed_ins block (txInFlight txs) (Z.of_nat k - 1) ins st = Ok st' /\
    needs (ts ++ h :: map (fun ti => Hash (PreviousOutPoint ti)) ins) st') as Hrest.
  { intros st Hst. destruct (IH ltac:(intros ti' ?; apply Hsub; by right) _ st Hst) as (st' & He & Hn').
    exists st'. split; [done|]. by rewrite <- app_assoc in Hn'. }
  pose proof (txInFlight_spec txs h) as Hfl. destruct (txInFlight txs !! h) as [j|].
  - destruct Hfl as (Hj0 & (otx & Hotx & Hoh) & _).
    assert (j <=? Z.of_nat k - 1 = true) as ->.
    { apply Z.leb_le. destruct (Z.leb_spec j (Z.of_nat k - 1)) as [|Hgt]; [done|]. exfalso.
      apply (Hnf k tx ti Hk Htx (Hsub ti ltac:(left))). apply list_elem_of_fmap. exists otx. split; [done|].
      apply list_elem_of_lookup. exists (Z.to_nat j - k)%nat. rewrite lookup_drop.
      by replace (k + (Z.to_nat j - k))%nat with (Z.to_nat j) by lia. }
    assert (idx (E := error) txs j = Ok otx) as -> by (by apply idx_Ok). cbn [mbind res_bind].
    apply Hrest. rewrite <- Hoh. apply needs_add; [done|]. by eapply list_elem_of_lookup_2.
  - apply Hrest. by apply needs_fetch.
Qed.

Lemma needed_txs_spec rest : forall k ts st, (1 <= k)%nat -> drop k txs = rest -> needs ts st ->
  exists st', needed_txs block (txInFlight txs) (Z.of_nat k - 1) rest st = Ok st' /\ needs (ts ++ refs rest) st'.
Proof.
  induction rest as [|tx rest IH]; intros k ts st Hk Hd Hn; cbn [needed_txs].
  { exists st. by rewrite app_nil_r. }
  assert (txs !! k = Some tx) as Htx.
  { rewrite <- (Nat.add_0_r k), <- lookup_drop, Hd. done. }
  destruct (needed_ins_spec k tx (tx_TxIn tx) Hk Htx ltac:(done) ts st Hn) as (st1 & -> & Hn1). cbn [mbind res_bind].
  assert (drop (S k) txs = rest) as Hd1 by (rewrite <- Nat.add_1_r, <- drop_drop, Hd; apply drop_0).
  destruct (IH (S k) _ st1 ltac:(lia) Hd1 Hn1) as (st' & He & Hn').
  exists st'. replace (Z.of_nat k - 1 + 1) with (Z.of_nat (S k) - 1) by lia. split; [done|].
  unfold refs. cbn [map concat]. by rewrite map_app, app_assoc.
Qed.

(** Loading the outputs that a block spends, into a view that has at most entries
    of the block's own transactions. *)
Lemma fetchInputUtxos_spec view : txs <> [] -> own view ->
  exists v, fetchInputUtxos view db block = Ok v /\
    (forall h, h ∉ B -> entries v !! h = if decide (h ∈ refs (drop 1 txs)) then Some (db_entry db h) else None) /\
    (forall h, h ∈ B -> match entries v !! h with Some (Some e) => made h e | _ => True end) /\
    (forall h, h ∈ B -> h ∈ refs (drop 1 txs) -> LookupEntry v h <> None).
Proof.
  intros Hne Ho. unfold fetchInputUtxos.
  destruct (needed_txs_spec (drop 1 txs) 1 [] (view, ∅) ltac:(lia) eq_refl) as ([view1 S] & Hneed & Ho1 & HS & Hk).
  { split_and!; [done | | by intros h ?%elem_of_nil]. intros h. cbn [snd]. rewrite elem_of_empty, elem_of_nil. naive_solver. }
  assert (slice (E := error) txs 1 (len txs) = Ok (drop 1 txs)) as ->.
  { destruct txs as [|tx ts]; [done|]. apply (slice_from [tx] ts). }
  cbn [mbind res_bind]. change (Z.of_nat 1 - 1) with 0 in Hneed. rewrite Hneed. cbn [mbind res_bind app fst snd] in *.
  destruct (fetch_main_spec db view1 S Hdb) as (v & -> & Hv). exists v. split; [done|]. split_and!.
  - intros h HB. rewrite Hv. destruct (decide (h ∈ refs (drop 1 txs))) as [Hr|Hr].
    + rewrite decide_True; [done|]. by apply HS.
    + rewrite decide_False by (rewrite HS; by intros [? _]). destruct (entries view1 !! h) as [oe|] eqn:Hoe; [|done].
      by apply Ho1 in Hoe as [? _].
  - intros h HB. rewrite Hv, decide_False by (rewrite HS; by intros [_ ?]).
    destruct (entries view1 !! h) as [[e|]|] eqn:Hoe; [|done..]. by apply Ho1 in Hoe as [_ ?].
  - intros h HB Hr. unfold LookupEntry. rewrite Hv, decide_False by (rewrite HS; by intros [_ ?]). by apply Hk.
Qed.

End loading.

(** * A block that is connected, stored and disconnected *)
Lemma numbered_in ts : forall k j tx, (j, tx) ∈ numbered_from k ts -> tx ∈ ts /\ k <= j.
Proof.
  induction ts as [|t ts IH]; intros k j tx Hj; [by apply elem_of_nil in Hj|].
  apply elem_of_cons in Hj as [[= -> ->]|Hj]; [split; [left | lia]|]. apply IH in Hj as [? ?]. split; [by right | lia].
Qed.

Lemma numbered_ex k ts tx : tx ∈ ts -> exists j, (j, tx) ∈ numbered_from k ts.
Proof.
  revert k. induction ts as [|t ts IH]; intros k Ht; [by apply elem_of_nil in Ht|].
  apply elem_of_cons in Ht as [->|Ht]; [exists k; left|]. destruct (IH (k + 1) Ht) as [j Hj]. exists j. by right.
Qed.

Lemma block_entries v block v' stxos :
  Transactions block <> [] -> txs_ok (Height block) v 0 (Transactions block) ->
  connectTransactions v block (Some []) = Ok (v', Some stxos) ->
  let D := refs (drop 1 (Transactions block)) ++ map SigCache.TxHash (Transactions block) in
  (forall h, h ∉ D -> entries v' !! h = entries v !! h) /\ (forall h, h ∈ D -> marked v' h) /\
  (forall P : bytes -> Z -> Prop, Forall (fun tx => P (SigCache.TxHash tx) (tx_Version tx)) (Transactions block) ->
     (forall h e, LookupEntry v h = Some e -> P h (ent_version e)) ->
     forall h e, LookupEntry v' h = Some e -> P h (ent_version e)) /\
  no_forward block.
Proof.
  intros Hne Hok Hc D. unfold connectTransactions in Hc. apply bind_Ok in Hc as ([v1 s1] & Hc & Heq). injection Heq as <- ->.
  unfold no_forward. destruct (Transactions block) as [|tx txs]; [done|]. subst D.
  change (drop 1 (tx :: txs)) with (drop 0 txs). rewrite drop_0. cbn [map].
  destruct (connect_coinbase_split _ _ _ _ _ _ Hok Hc) as [Hok1 Hc1].
  destruct (connect_txs_entries _ txs 1 _ _ _ _ ltac:(lia) Hok1 Hc1) as (Hfr & Hmk & Hver & Hnf).
  assert (forall h, h ∈ refs txs ++ SigCache.TxHash tx :: map SigCache.TxHash txs <->
    h = SigCache.TxHash tx \/ h ∈ refs txs ++ map SigCache.TxHash txs) as Hsplit.
  { intros h. rewrite !elem_of_app, elem_of_cons. tauto. }
  split_and!.
  - intros h Hh. rewrite Hsplit in Hh. cbn [SetBestHash entries]. rewrite Hfr by tauto. unfold AddTxOuts. apply entries_set. tauto.
  - intros h Hh. rewrite Hsplit in Hh. apply Hmk. destruct Hh as [->|Hh]; [right | by left]. apply AddTxOuts_marked. by left.
  - intros P HP HPv. apply Forall_cons in HP as [HPt HP]. apply (Hver P HP). by apply AddTxOuts_version.
  - intros [|k] tx' ti Hk Htx Hti; [lia|]. by apply (Hnf k tx' ti).
Qed.

Section restore.
Context (db : Database.DB) (block : Utxo.Block) (v0 v v' : UtxoViewpoint) (stxos : list spentTxOut).
Notation txs := (Transactions block).
Notation B := (map SigCache.TxHash (Transactions block)).
Notation R := (refs (drop 1 (Transactions block))).

(** The block is new to the database [db], its inputs have been loaded from it
    into [v], and it has been connected. *)
Record connected : Prop := {
  con_db : db_ok db;
  con_txs : txs <> [];
  con_new : Forall wf_new txs;
  con_height : is_u 32 (Height block) /\ Height block <> 0;
  con_nodup : NoDup B;
  con_hashes : [] ∉ R;
  con_fresh : forall h, h ∈ B -> db_entry db h = None;
  con_tagged : forall h e, h ∈ R -> db_entry db h = Some e -> ent_version e <> 0;
  con_own : own block v0;
  con_fetch : fetchInputUtxos v0 db block = Ok v;
  con_ok : txs_ok (Height block) v 0 txs;
  con_connect : connectTransactions v block (Some []) = Ok (v', Some stxos);
  con_final : forall h e, h ∈ R -> h ∉ B -> LookupEntry v' h = Some e -> IsFullySpent e = true -> ent_blockHeight e <> 0
}.

Hypothesis Hcon : connected.

Lemma con_loaded :
  (forall h, h ∉ B -> entries v !! h = if decide (h ∈ R) then Some (db_entry db h) else None) /\
  (forall h, h ∈ B -> match entries v !! h with Some (Some e) => made block h e | _ => True end) /\
  no_forward block.
Proof.
  destruct Hcon as [Hdb Hne Hnew [Hh Hh0] _ _ _ _ Hown Hf Hok Hc _].
  destruct (block_entries v block v' stxos Hne Hok Hc) as (_ & _ & _ & Hnf).
  destruct (fetchInputUtxos_spec db block Hdb Hnew Hh Hnf v0 Hne Hown) as (v1 & Hv1 & H1 & H2 & _).
  rewrite Hf in Hv1. injection Hv1 as <-. done.
Qed.

Lemma con_lookup h e : LookupEntry v h = Some e -> (h ∈ R /\ h ∉ B /\ db_entry db h = Some e) \/ (h ∈ B /\ made block h e).
Proof.
  destruct con_loaded as (H1 & H2 & _). unfold LookupEntry. destruct (decide (h ∈ B)) as [Hin|Hni].
  - specialize (H2 h Hin). destruct (entries v !! h) as [[e0|]|]; try done. intros [= <-]. by right.
  - rewrite H1 by done. destruct (decide (h ∈ R)); [|done]. destruct (db_entry db h) eqn:E; [|done]. intros [= <-]. by left.
Qed.

Lemma con_wf : wf_view v /\ tagged B v.
Proof.
  split; intros h e He; destruct (con_lookup h e He) as [(HR & HB & Hd)|(_ & (Hw & _) & Hht & tx & Htx & _ & Hver)].
  - by apply (db_entry_wf db h e (con_db Hcon)).
  - done.
  - split; [by apply (con_tagged Hcon h) | done].
  - rewrite Hver, Hht. split; [|intros _; apply (con_height Hcon)]. pose proof (con_new Hcon) as Hn. rewrite Forall_forall in Hn.
    by destruct (Hn tx Htx) as (_ & ? & _).
Qed.

Lemma con_hash_ne h : h ∈ R ++ B -> h <> [].
Proof.
  intros [Hh|Hh]%elem_of_app ->; [by apply (con_hashes Hcon)|]. apply list_elem_of_fmap in Hh as (tx & Htx & _).
  assert (length (SigCache.TxHash tx) = 32%nat) as H32 by apply sha256_length.
  by rewrite <- Htx in H32.
Qed.

(** The database after the view is stored. *)
Lemma con_stored : exists db1, dbPutUtxoView db v' = Ok db1 /\ db_ok db1 /\ same_rest db db1 /\
  (forall h, h ∈ R ++ B -> exists e, LookupEntry v' h = Some e /\ holds (db_entry db1 h) e) /\
  (forall h, h ∉ R ++ B -> db_entry db1 h = db_entry db h /\ entries v' !! h = None).
Proof.
  destruct con_wf as [Hwf Htag]. destruct Hcon as [Hdb Hne Hnew [Hh Hh0] _ _ _ _ Hown Hf Hok Hc _].
  destruct (block_entries v block v' stxos Hne Hok Hc) as (Hfr & Hmk & _ & Hnf).
  destruct (block_journal v block v' stxos v v Hne Hok Hnew Hwf Htag Hh Hh0 Hc) as [(_ & Hwf' & _) _].
  assert (forall h, h ∉ R ++ B -> entries v' !! h = None) as Hnone.
  { intros h Hh'. rewrite Hfr by done. apply not_elem_of_app in Hh' as [HR HB]. destruct con_loaded as (H1 & _ & _).
    by rewrite H1, decide_False. }
  destruct (put_view_spec db v' Hdb) as (db1 & Hput & Hdb1 & Hsr & Hspec).
  - intros h e He _. split; [|apply (Hwf' h); unfold LookupEntry; by rewrite He]. apply con_hash_ne.
    destruct (decide (h ∈ R ++ B)) as [|Hn]; [done|]. by rewrite Hnone in He.
  - apply Hnone. intros Hin. by apply con_hash_ne in Hin.
  - exists db1. split_and!; try done; intros h Hin; specialize (Hspec h).
    + destruct (Hmk h Hin) as (e & He & Hm). rewrite He, Hm in Hspec. by exists e.
    + unfold LookupEntry in Hspec. rewrite (Hnone h Hin) in Hspec. by rewrite Hnone.
Qed.

(** A view [W] with the entries of [w] for the transactions that the block refers
    to, and those of [v'] otherwise. *)
Section completion.
Context (db2 : Database.DB) (w W : UtxoViewpoint).
Hypothesis Hdb2 : db_ok db2.
Hypothesis Hheld : forall h, h ∈ R ++ B -> exists e, LookupEntry v' h = Some e /\ holds (db_entry db2 h) e.
Hypothesis Hout : forall h, h ∉ R ++ B -> entries v' !! h = None.
Hypothesis HW : forall h, entries W !! h = if decide (h ∈ R) then entries w !! h else entries v' !! h.
Hypothesis Hw1 : forall h, h ∉ B -> entries w !! h = if decide (h ∈ R) then Some (db_entry db2 h) else None.
Hypothesis Hw2 : forall h, h ∈ B -> match entries w !! h with Some (Some e) => made block h e | _ => True end.
Hypothesis Hw3 : forall h, h ∈ B -> h ∈ R -> LookupEntry w h <> None.

Lemma con_version h e : h ∈ B -> LookupEntry v' h = Some e \/ LookupEntry w h = Some e ->
  forall tx, tx ∈ txs -> SigCache.TxHash tx = h -> ent_version e = tx_Version tx.
Proof.
  intros HB He tx Htx Hh. destruct Hcon as [_ Hne _ _ Hnd _ _ _ _ _ Hok Hc _].
  assert (forall tx0 tx1, tx0 ∈ txs -> tx1 ∈ txs -> SigCache.TxHash tx0 = SigCache.TxHash tx1 -> tx0 = tx1) as Huniq.
  { intros tx0 tx1 Htx0 Htx1 Heq. apply list_elem_of_lookup in Htx0 as [i Hi], Htx1 as [j Hj].
    assert (i = j) as <-; [|congruence]. apply (NoDup_lookup B i j (SigCache.TxHash tx1)); [done|..];
      rewrite list_lookup_fmap, ?Hi, ?Hj; cbn; by f_equal. }
  assert (forall h e, made block h e -> forall tx, tx ∈ txs -> SigCache.TxHash tx = h -> ent_version e = tx_Version tx) as Hmade.
  { intros h0 e0 (_ & _ & tx0 & Htx0 & Hh0 & ->) tx1 Htx1 Hh1. f_equal. apply Huniq; [done | done | congruence]. }
  destruct He as [He|He].
  - destruct (block_entries v block v' stxos Hne Hok Hc) as (_ & _ & Hver & _).
    refine (Hver (fun h ver => h ∈ B -> forall tx, tx ∈ txs -> SigCache.TxHash tx = h -> ver = tx_Version tx) _ _ h e He HB tx Htx Hh).
    + apply Forall_forall. intros tx0 Htx0 _ tx1 Htx1 Hh1. f_equal. by apply Huniq.
    + intros h0 e0 He0 HB0. destruct (con_lookup h0 e0 He0) as [(_ & ? & _)|[_ Hm]]; [done | by apply Hmade].
  - specialize (Hw2 h HB). unfold LookupEntry in He. destruct (entries w !! h) as [[e0|]|]; try done. injection He as ->.
    by apply (Hmade h e).
Qed.

(** The entries of [w] that come from the database. *)
Lemma con_fetched h ew : LookupEntry w h = Some ew -> h ∉ B -> h ∈ R /\ db_entry db2 h = Some ew.
Proof.
  intros He HB. unfold LookupEntry in He. rewrite Hw1 in He by done. destruct (decide (h ∈ R)); [|done].
  destruct (db_entry db2 h); [|done]. by injection He as ->.
Qed.

Lemma con_knows : knows B v' ∅ W.
Proof.
  intros h ev Hev. assert (h ∈ R ++ B) as Hin.
  { destruct (decide (h ∈ R ++ B)) as [|Hn]; [done|]. unfold LookupEntry in Hev. by rewrite Hout in Hev. }
  destruct (Hheld h Hin) as (ev' & Hev' & Hh). rewrite Hev in Hev'. injection Hev' as <-.
  assert (LookupEntry W h = if decide (h ∈ R) then LookupEntry w h else LookupEntry v' h) as HWh.
  { unfold LookupEntry. rewrite HW. by destruct (decide (h ∈ R)). }
  rewrite HWh. split_and!; [|by intros ver; rewrite lookup_empty| |].
  - intros ew. destruct (decide (h ∈ R)) as [HR|HR]; [|congruence]. intros Hew. destruct (decide (h ∈ B)) as [HB|HB].
    + pose proof HB as (tx & Htx & Hin')%list_elem_of_fmap. rewrite (con_version h ew HB (or_intror Hew) tx) by done.
      symmetry. apply (con_version h ev HB); [by left | done | done].
    + destruct (con_fetched h ew Hew HB) as [_ Hd]. rewrite Hd in Hh. destruct Hh as (_ & Hm & _). unfold meta in Hm. congruence.
  - intros Hf. left. destruct (decide (h ∈ R)) as [HR|HR]; [|by rewrite Hev]. destruct (decide (h ∈ B)) as [HB|HB]; [by apply Hw3|].
    unfold LookupEntry. rewrite Hw1, decide_True by done. destruct (db_entry db2 h); [done|]. cbn in Hh. congruence.
  - intros HB. apply (con_final Hcon h); [|done|done]. by apply elem_of_app in Hin as [|].
Qed.

Lemma con_pruned : pruned B v' w.
Proof.
  intros h HB. destruct (decide (h ∈ R)) as [HR|HR].
  - destruct (Hheld h) as (ev & Hev & Hh); [apply elem_of_app; by left|].
    assert (LookupEntry w h = db_entry db2 h) as HWh.
    { unfold LookupEntry. rewrite Hw1, decide_True by done. by destruct (db_entry db2 h). }
    setoid_rewrite coin_entry. rewrite HWh, Hev. destruct (db_entry db2 h) as [e|] eqn:He; cbn [holds] in Hh.
    + destruct Hh as (_ & Hm & Hcoin). split; [intros i; by rewrite Hcoin, Hm|]. intros ew [= <-]. exists ev. split_and!; [done..|].
      intros i o Ho. destruct (db_entry_wf db2 h e Hdb2 He) as (_ & _ & _ & Hu). specialize (Hcoin i). specialize (Hu i o Ho).
      unfold entry_coin in Hcoin. rewrite Ho, Hu in Hcoin. destruct (sparseOutputs ev !! i) as [o'|]; [|done].
      destruct (out_spent o') eqn:Hs'; [done|]. exists o'. split_and!; congruence.
    + split; [|done]. intros i. assert (entry_coin ev i = None) as ->; [|done].
      unfold entry_coin. apply bool_decide_eq_true in Hh. destruct (sparseOutputs ev !! i) as [o|] eqn:Ho; [|done].
      by rewrite (Hh i o Ho).
  - assert (entries v' !! h = None) as Hn by (apply Hout; rewrite elem_of_app; tauto).
    assert (LookupEntry w h = None /\ LookupEntry v' h = None) as [H1 H2].
    { unfold LookupEntry. by rewrite Hw1, decide_False, Hn. }
    unfold coin. rewrite H1, H2. done.
Qed.

End completion.

(** Loading the block's inputs again, from a database that holds the coins of
    [v'].  [W] completes the loaded view with the rest of [v']. *)
Lemma con_reload db2 : db_ok db2 ->
  (forall h, h ∈ R ++ B -> exists e, LookupEntry v' h = Some e /\ holds (db_entry db2 h) e) ->
  (forall h, h ∉ R ++ B -> entries v' !! h = None) ->
  exists w W, fetchInputUtxos NewUtxoViewpoint db2 block = Ok w /\ wf_unspent w /\
    (forall h, h ∉ R ++ B -> LookupEntry w h = None) /\
    (forall h, h ∈ R -> LookupEntry W h = LookupEntry w h) /\
    knows B v' ∅ W /\ pruned B v' w.
Proof.
  intros Hdb2 Hheld Hout. destruct con_loaded as (_ & _ & Hnf).
  destruct Hcon as [Hdb Hne Hnew [Hh Hh0] Hnd _ _ _ Hown Hf Hok Hc _].
  destruct (block_entries v block v' stxos Hne Hok Hc) as (_ & _ & Hver & _).
  destruct (fetchInputUtxos_spec db2 block Hdb2 Hnew Hh Hnf NewUtxoViewpoint Hne) as (w & Hw & Hw1 & Hw2 & Hw3).
  { intros h oe. cbn. by rewrite lookup_empty. }
  set (W := mkUtxoViewpoint (map_imap (fun h oe => if decide (h ∈ R) then Some oe else None) (entries w) ∪
              map_imap (fun h oe => if decide (h ∈ R) then None else Some oe) (entries v')) []).
  assert (forall h, entries W !! h = if decide (h ∈ R) then entries w !! h else entries v' !! h) as HW.
  { intros h. unfold W. cbn [entries]. rewrite lookup_union, !map_lookup_imap. destruct (decide (h ∈ R));
      destruct (entries w !! h), (entries v' !! h); done. }
  assert (forall h ew, LookupEntry w h = Some ew -> h ∉ B -> db_entry db2 h = Some ew) as Hdbw.
  { intros h ew He HB. unfold LookupEntry in He. rewrite Hw1 in He by done. destruct (decide (h ∈ R)); [|done].
    destruct (db_entry db2 h); [|done]. by injection He as ->. }
  exists w, W. split_and!; [done | | | | |].
  - intros h e He. destruct (decide (h ∈ B)) as [HB|HB].
    + specialize (Hw2 h HB). unfold LookupEntry in He. destruct (entries w !! h) as [[e0|]|]; try done. injection He as ->. apply Hw2.
    + destruct (db_entry_wf db2 h e Hdb2 (Hdbw h e He HB)) as (? & _ & _ & ?). done.
  - intros h [HR HB]%not_elem_of_app. unfold LookupEntry. by rewrite Hw1, decide_False.
  - intros h HR. unfold LookupEntry. by rewrite HW, decide_True.
  - by apply (con_knows db2 w W).
  - by apply (con_pruned db2 w).
Qed.

Lemma touched_block h : touched (reverse (numbered txs)) h <-> h ∈ R ++ B.
Proof.
  rewrite numbered_eq. unfold touched, refs. pose proof (con_txs Hcon) as Hne. destruct txs as [|cb rest] eqn:E; [done|].
  cbn [numbered_from drop map]. rewrite elem_of_app, elem_of_cons. setoid_rewrite elem_of_reverse. setoid_rewrite elem_of_cons.
  assert (h ∈ map (fun ti => Hash (PreviousOutPoint ti)) (concat (map tx_TxIn rest)) <->
    exists tx, tx ∈ rest /\ h ∈ map (fun ti => Hash (PreviousOutPoint ti)) (tx_TxIn tx)) as Hrefs.
  { rewrite list_elem_of_fmap. setoid_rewrite list_elem_of_fmap. split.
    - intros (ti & -> & Hti). apply list_elem_of_In, in_concat in Hti as (l & Hl%list_elem_of_In & Hti%list_elem_of_In).
      apply list_elem_of_fmap in Hl as (tx & -> & Htx). exists tx. split; [done|]. by exists ti.
    - intros (tx & Htx & ti & -> & Hti). exists ti. split; [done|]. apply list_elem_of_In, in_concat. exists (tx_TxIn tx).
      split; [|by apply list_elem_of_In]. apply list_elem_of_In, list_elem_of_fmap. by exists tx. }
  rewrite drop_0, Hrefs, (list_elem_of_fmap SigCache.TxHash). split.
  - intros (j & tx & [[= -> ->]|Hj] & Ht).
    + destruct Ht as [->|[? _]]; [by right; left | done].
    + apply numbered_in in Hj as [Htx _]. destruct Ht as [->|[_ Ht]]; [right; right; by exists tx | left; by exists tx].
  - intros [(tx & Htx & Ht)|[->|(tx & -> & Htx)]].
    + destruct (numbered_ex 1 rest tx Htx) as [j Hj]. exists j, tx. split; [by right|]. right. split; [|done].
      apply numbered_in in Hj as [_ ?]. lia.
    + exists 0, cb. split; [by left | by left].
    + destruct (numbered_ex 1 rest tx Htx) as [j Hj]. exists j, tx. split; [by right | by left].
Qed.

Lemma con_absent db2 w : db_ok db2 -> fetchInputUtxos NewUtxoViewpoint db2 block = Ok w ->
  forall h, h ∉ R ++ B -> entries w !! h = None.
Proof.
  intros Hdb2 Hw h [HR HB]%not_elem_of_app. destruct con_loaded as (_ & _ & Hnf).
  destruct (fetchInputUtxos_spec db2 block Hdb2 (con_new Hcon) (proj1 (con_height Hcon)) Hnf NewUtxoViewpoint (con_txs Hcon))
    as (w' & Hw' & H1 & _).
  { intros h' oe. cbn. by rewrite lookup_empty. }
  rewrite Hw in Hw'. injection Hw' as <-. by rewrite H1, decide_False.
Qed.

(** The coins of the database before the block. *)
Lemma con_coin_v h i : h ∈ R ++ B -> db_coin db h i = if decide (h ∈ B) then None else coin v h i.
Proof.
  intros Hin. unfold db_coin. destruct (decide (h ∈ B)) as [HB|HB]; [by rewrite (con_fresh Hcon)|].
  apply elem_of_app in Hin as [HR|?]; [|done]. rewrite coin_entry. destruct con_loaded as (H1 & _).
  unfold LookupEntry. rewrite H1, decide_True by done. by destruct (db_entry db h).
Qed.

(** Disconnecting with what was loaded from the database. *)
Lemma con_disconnect w : wf_unspent w -> pruned B v' w ->
  exists w2, disconnectTransactions w block (map canon stxos) = Ok w2 /\ wf_unspent w2 /\ bestHash w2 = PrevBlock block /\
    (forall h, h ∈ R ++ B -> marked w2 h) /\ (forall h, h ∉ R ++ B -> entries w2 !! h = entries w !! h) /\
    forall h i, h ∈ R ++ B -> coin w2 h i = if decide (h ∈ B) then None else coin v h i.
Proof.
  intros Hwf Hp. destruct con_wf as [Hwfv Htag]. pose proof touched_block as Ht.
  destruct Hcon as [Hdb Hne Hnew [Hh Hh0] _ _ _ _ _ _ Hok Hc _].
  destruct (block_journal v block v' stxos w w Hne Hok Hnew Hwfv Htag Hh Hh0 Hc) as [([Hst Hrng] & _) _].
  destruct (disconnect_upto v block v' stxos w Hne Hok Hc Hp) as (r & Hd & _ & Hcoin).
  unfold disconnectTransactions in *. apply bind_Ok in Hd as (n & -> & Hd). cbn [mbind res_bind].
  assert (len (map canon stxos) = len stxos) as -> by (unfold len; by rewrite length_map).
  destruct (negb _); [done|]. apply bind_Ok in Hd as (r1 & Hd & Heq). injection Heq as <-.
  assert (same_on (R ++ B) w w) as Hrefl.
  { intros h _. destruct (LookupEntry w h); constructor. apply same_entry_refl. }
  destruct (disconnect_same (R ++ B) _ w w (Height block) stxos (map canon stxos) (len stxos - 1) r1 ltac:(intros h; by rewrite Ht) Hrefl)
    as (r2 & Hd2 & Hsame); [|done|].
  { apply Forall2_fmap_r, Forall_Forall2_diag. eapply Forall_impl; [exact Hst | apply same_canon]. }
  rewrite Hd2. cbn [mbind res_bind]. eexists. split; [done|]. split_and!; [|done| | |].
  - apply (disconnect_wf _ _ _ _ _ _ Hwf) in Hd2; [exact Hd2 | | done |].
    + apply Forall_map. eapply Forall_impl; [exact Hst | apply wf_canon].
    + apply Forall_forall. intros [j tx]. rewrite elem_of_reverse, numbered_eq. intros Hj. cbn [fst snd]. split.
      * apply numbered_in in Hj as [Hin _]. rewrite Forall_forall in Hnew. by apply Hnew.
      * intros Hj0. destruct txs as [|cb rest]; [done|]. cbn [numbered_from drop] in *. rewrite drop_0 in Hrng.
        apply elem_of_cons in Hj as [[= -> ->]|Hj]; [done|]. apply numbered_in in Hj as [Hin _].
        apply Forall_concat in Hrng. rewrite Forall_map, Forall_forall in Hrng. by apply Hrng.
  - intros h Hin. apply (disconnect_marked _ _ _ _ _ _ h Hd2). left. by apply Ht.
  - intros h Hin. cbn [SetBestHash entries]. apply (disconnect_frame _ _ _ _ _ _ h Hd2). by rewrite Ht.
  - intros h i Hin. change (coin (SetBestHash r2 _) h i) with (coin r2 h i). rewrite <- (same_on_coin _ r1 r2 h i Hsame Hin). apply Hcoin.
Qed.

(** The coins of the database are restored: [db1] is the database after storing the
    view of the connected block, and [db2] any database that has the utxo set of
    [db1] and the journal entry of the block. *)
Lemma con_restored db1 db2 journal serialized :
  dbPutUtxoView db v' = Ok db1 ->
  Database.buckets db2 !! utxoSetBucketName = Database.buckets db1 !! utxoSetBucketName ->
  Database.buckets db2 !! spendJournalBucketName = Some journal ->
  serializeSpendJournalEntry stxos = Ok serialized -> journal !! BlockHash block = Some serialized ->
  exists w stxos' w2 db3,
    fetchInputUtxos NewUtxoViewpoint db2 block = Ok w /\ dbFetchSpendJournalEntry db2 block w = Ok stxos' /\
    disconnectTransactions w block stxos' = Ok w2 /\ bestHash w2 = PrevBlock block /\ dbPutUtxoView db2 w2 = Ok db3 /\
    db_ok db3 /\ same_rest db2 db3 /\ forall h i, db_coin db3 h i = db_coin db h i.
Proof.
  intros Hput Hb2 Hj Hser Hjb. destruct con_stored as (db1' & Hput' & Hdb1 & _ & Hheld & Hrest).
  rewrite Hput in Hput'. injection Hput' as <-. destruct (db_bucket_ext db1 db2 Hb2) as [Hdb2 Hent]. specialize (Hdb2 Hdb1).
  destruct (con_reload db2 Hdb2) as (w & W & Hw & Hwf & Hnone & HWw & Hk & Hp).
  { intros h Hin. rewrite Hent. by apply Hheld. }
  { intros h Hin. by apply Hrest. }
  destruct con_wf as [Hwfv Htag]. destruct (con_disconnect w Hwf Hp) as (w2 & Hd & Hwf2 & Hbest & Hmk & Hfr & Hcoin).
  assert (forall h, h ∉ R ++ B -> entries w2 !! h = None) as Hn2.
  { intros h Hin. rewrite Hfr by done. apply (con_absent db2 w Hdb2 Hw h Hin). }
  destruct (put_view_spec db2 w2 Hdb2) as (db3 & Hput3 & Hdb3 & Hsr3 & Hspec).
  { intros h e He _. split; [|apply (Hwf2 h); unfold LookupEntry; by rewrite He].
    apply con_hash_ne. destruct (decide (h ∈ R ++ B)) as [|Hn]; [done|]. by rewrite Hn2 in He. }
  { apply Hn2. intros Hin. by apply con_hash_ne in Hin. }
  exists w, (map canon stxos), w2, db3. split_and!; try done.
  - unfold dbFetchSpendJournalEntry, Database.bucket_Get. rewrite Hj. cbn [mbind res_bind]. rewrite Hjb. cbn [default from_option id].
    destruct Hcon as [_ Hne Hnew [Hh Hh0] _ _ _ _ _ _ Hok Hc _].
    destruct (block_journal v block v' stxos w W Hne Hok Hnew Hwfv Htag Hh Hh0 Hc) as [_ Hjr].
    destruct (Hjr Hk ltac:(intros h Hin; symmetry; by apply HWw)) as [Hs Hdes]. rewrite Hser in Hs. injection Hs as ->.
    destruct txs as [|tx rest]; [done|]. pose proof (@slice_from error _ [tx] rest) as Hsl. cbn [app] in Hsl.
    change (len [tx]) with 1 in Hsl. rewrite Hsl. cbn [mbind res_bind drop] in *. rewrite drop_0 in Hdes. by rewrite Hdes.
  - intros h i. specialize (Hspec h). destruct (decide (h ∈ R ++ B)) as [Hin|Hin].
    + destruct (Hmk h Hin) as (e & He & Hm). rewrite He, Hm in Hspec. rewrite (con_coin_v h i) by done.
      specialize (Hcoin h i Hin). rewrite <- Hcoin, coin_entry, He. unfold db_coin. apply (holds_coin _ _ i Hspec).
    + unfold LookupEntry in Hspec. rewrite Hn2 in Hspec by done. unfold db_coin. rewrite Hspec, Hent.
      by destruct (Hrest h Hin) as [-> _].
Qed.

End restore.

End DbSpec.
