(* ===== verification/KeySpec.v ===== *)
(** The admin state: connecting the admin transactions of a block and
    disconnecting them again gives the same keys, key ids and supply, whatever the
    order of the keys in a set, and for each thread the tip that was spent first.
    The last key id is the exception: it is restored only when the first transaction
    that adds ASP keys adds one. *)
From S2P Require Import Prelude PubKey SecpPrime Opcode Wire Crypto Script Standard SigCache Utxo Header MsgBlock Params KeyView Validate.
Import btcec Opcode wire Crypto Script Standard Utxo Params KeyView Validate.
#[local] Open Scope Z_scope.

Module KeySpec.

(** * Admin operations *)

(** Add or revoke, the key set, the key and the key id. *)
Record op := mkOp { op_add : bool; op_set : KeySetType; op_key : PublicKey; op_id : Z }.

Definition decodes (out : list parsedOpcode) (o : op) : Prop :=
  forall E, @ExtractAdminOpData E out = Ok (op_add o, op_set o, Some (op_key o), op_id o).

(** An operation without its effect on the last key id; [undo] is the opposite
    operation. *)
Definition op_core (v : KeyViewpoint) (o : op) : res string KeyViewpoint :=
  if bool_decide (op_set o = ASPKeySet)
  then Ok (set_aspKeyIdMap v (if op_add o then <[op_id o := Some (op_key o)]> (aspKeyIdMap v)
                              else delete (op_id o) (aspKeyIdMap v)))
  else applyAdminOp v (op_add o) (op_set o) (Some (op_key o)) (op_id o).

Definition undo (o : op) : op := mkOp (negb (op_add o)) (op_set o) (op_key o) (op_id o).

Fixpoint run_core (v : KeyViewpoint) (ops : list op) : res string KeyViewpoint :=
  match ops with [] => Ok v | o :: rest => v ← op_core v o; run_core v rest end.

Definition adds_asp (o : op) : bool := bool_decide (op_set o = ASPKeySet) && op_add o.

Definition last_add (ops : list op) (last : Z) : Z :=
  fold_left (fun l o => if adds_asp o then op_id o else l) ops last.
Definition last_undo (ops : list op) (last : Z) : Z :=
  fold_left (fun l o => if adds_asp o then u32 (op_id o - 1) else l) ops last.

(** * Views *)

(** Every key is in a set once, and every key id has a key. *)
Definition nodup (v : KeyViewpoint) : Prop := forall t, NoDup (key_set v t).
Definition no_nil (v : KeyViewpoint) : Prop := forall id, aspKeyIdMap v !! id <> Some None.

(** The same keys, key ids and supply, up to the order of the keys in a set. *)
Definition similar (v w : KeyViewpoint) : Prop :=
  totalSupply v = totalSupply w /\ aspKeyIdMap v = aspKeyIdMap w /\
  forall t, key_set v t ≡ₚ key_set w t.

#[global] Instance similar_equivalence : Equivalence similar.
Proof.
  split.
  - intros v. by split_and!.
  - intros v w (? & ? & Hs). by split_and!.
  - intros u v w (? & ? & Hs1) (? & ? & Hs2). split_and!; try congruence. intros t. by rewrite Hs1.
Qed.

(** What an operation does to the rest of the view: nothing. *)
Definition framed (v w : KeyViewpoint) : Prop :=
  threadTips w = threadTips v /\ totalSupply w = totalSupply v /\ lastKeyID w = lastKeyID v.

(** ** One key set *)
Lemma set_op_spec {E} (S : PublicKeySet) (a : bool) k :
  NoDup S ->
  exists S', (if a then @Add E S (Some k) else pos ← Pos S (Some k); Remove S pos) = Ok S' /\ NoDup S' /\
    forall x, x ∈ S' <-> if decide (x = k) then a = true else x ∈ S.
Proof.
  intros Hnd. destruct a.
  - destruct (decide (k ∈ S)) as [Hk|Hk].
    + exists S. rewrite Add_in by done. split_and!; [done..|]. intros x. by destruct (decide (x = k)) as [->|].
    + exists (S ++ [k]). rewrite Add_not_in by done. split_and!; [done| |].
      * apply NoDup_app. split_and!; [done | | apply NoDup_singleton]. intros x Hx ->%list_elem_of_singleton. done.
      * intros x. rewrite elem_of_app, list_elem_of_singleton. destruct (decide (x = k)); naive_solver.
  - destruct (decide (k ∈ S)) as [Hk|Hk].
    + destruct (@Pos_in E S k Hk) as (i & -> & Hi). cbn [mbind res_bind].
      destruct (@Remove_perm E S i k Hi) as (S' & -> & Hp). exists S'. rewrite <- Hp in Hnd.
      apply NoDup_cons in Hnd as [Hnk Hnd]. split_and!; [done..|].
      intros x. assert (x ∈ S <-> x = k \/ x ∈ S') as Hx by (by rewrite <- Hp, elem_of_cons).
      destruct (decide (x = k)) as [->|]; naive_solver.
    + exists S. rewrite Pos_not_in by done. cbn [mbind res_bind]. split_and!; [done..|].
      intros x. by destruct (decide (x = k)) as [->|].
Qed.

Lemma key_set_insert v t S t' :
  key_set (set_adminKeySets v (<[t := S]> (adminKeySets v))) t' = if decide (t' = t) then S else key_set v t'.
Proof.
  unfold key_set. cbn. destruct (decide (t' = t)) as [->|Hne].
  - by rewrite lookup_insert_eq.
  - by rewrite lookup_insert_ne by done.
Qed.

(** Who is in a key set after an operation, and the key of a key id. *)
Lemma op_core_spec v o :
  nodup v ->
  exists w, op_core v o = Ok w /\ nodup w /\ framed v w /\
    (forall t k, k ∈ key_set w t <->
       if decide (op_set o <> ASPKeySet /\ t = op_set o /\ k = op_key o) then op_add o = true else k ∈ key_set v t) /\
    (forall id, aspKeyIdMap w !! id =
       if decide (op_set o = ASPKeySet /\ id = op_id o) then (if op_add o then Some (Some (op_key o)) else None)
       else aspKeyIdMap v !! id).
Proof.
  intros Hnd. unfold op_core. destruct o as [a t k id]. cbn [op_set op_add op_key op_id].
  destruct (bool_decide_reflect (t = ASPKeySet)) as [->|Hne].
  - eexists. split; [done|]. split_and!; [done.. | |].
    + intros t' k'. by rewrite decide_False by naive_solver.
    + intros id'. cbn. destruct (decide (_ /\ _)) as [[_ ->]|Hn].
      * destruct a; [apply lookup_insert_eq | apply lookup_delete_eq].
      * destruct a; [apply lookup_insert_ne | apply lookup_delete_ne]; naive_solver.
  - destruct (@set_op_spec string (key_set v t) a k (Hnd t)) as (S' & HS & HndS & Hin).
    exists (set_adminKeySets v (<[t := S']> (adminKeySets v))). unfold applyAdminOp.
    rewrite bool_decide_eq_false_2 by done. split_and!; [|intros t'| done.. | |].
    + destruct a; [by rewrite HS|]. apply bind_Ok in HS as (pos & -> & HR). cbn [mbind res_bind]. by rewrite HR.
    + rewrite key_set_insert. by destruct (decide _).
    + intros t' k'. rewrite key_set_insert. destruct (decide (t' = t)) as [->|].
      * rewrite Hin. destruct (decide (k' = k)), (decide (_ /\ _)); naive_solver.
      * rewrite decide_False by naive_solver. done.
    + intros id'. by rewrite decide_False by naive_solver.
Qed.

(** Several operations: only what they name changes, and the last operation on
    a key or a key id decides. *)
Lemma run_core_spec ops : forall v,
  nodup v ->
  exists w, run_core v ops = Ok w /\ nodup w /\ framed v w /\
    (forall t k, (k ∈ key_set w t <-> k ∈ key_set v t) /\ (forall o, o ∈ ops -> op_set o <> ASPKeySet -> (op_set o, op_key o) <> (t, k))
       \/ exists o, o ∈ ops /\ op_set o <> ASPKeySet /\ op_set o = t /\ op_key o = k /\ (k ∈ key_set w t <-> op_add o = true)) /\
    (forall id, aspKeyIdMap w !! id = aspKeyIdMap v !! id /\ (forall o, o ∈ ops -> op_set o = ASPKeySet -> op_id o <> id)
       \/ exists o, o ∈ ops /\ op_set o = ASPKeySet /\ op_id o = id /\
            aspKeyIdMap w !! id = if op_add o then Some (Some (op_key o)) else None).
Proof.
  induction ops as [|o ops IH]; intros v Hnd.
  { exists v. split_and!; [done..| |]; intros; left; (split; [done|]); intros o Ho; by apply elem_of_nil in Ho. }
  destruct (op_core_spec v o Hnd) as (v1 & Ho & Hnd1 & Hf1 & Hs1 & Ha1).
  destruct (IH v1 Hnd1) as (w & Hr & Hndw & Hf & Hs & Ha). exists w. cbn [run_core]. rewrite Ho.
  split_and!; [done | done | unfold framed in *; destruct_and!; split_and!; congruence | |].
  - intros t k. destruct (Hs t k) as [[Heq Hno]|(o' & Hin & ?)]; [|right; exists o'; split; [by right | done]].
    specialize (Hs1 t k). destruct (decide (_ /\ _ /\ _)) as [(Hne & -> & ->)|Hn].
    + right. exists o. split_and!; [by left | done..|]. by rewrite Heq.
    + left. split; [by rewrite Heq|]. intros o' [->|Hin']%elem_of_cons Hne'; [naive_solver | by apply Hno].
  - intros id. destruct (Ha id) as [[Heq Hno]|(o' & Hin & ?)]; [|right; exists o'; split; [by right | done]].
    specialize (Ha1 id). destruct (decide (_ /\ _)) as [(Hasp & ->)|Hn].
    + right. exists o. split_and!; [by left | done..|]. by rewrite Heq.
    + left. split; [by rewrite Heq|]. intros o' [->|Hin']%elem_of_cons Hasp'; [naive_solver | by apply Hno].
Qed.
(** * The last key id *)
Lemma op_core_last v o x : op_core (SetLastKeyID v x) o = (w ← op_core v o; Ok (SetLastKeyID w x)).
Proof.
  unfold op_core, applyAdminOp. destruct (bool_decide _); [done|]. change (key_set (SetLastKeyID v x)) with (key_set v).
  destruct (op_add o).
  - by destruct (Add _ _).
  - destruct (Pos _ _); [|done..]. cbn [mbind res_bind]. by destruct (Remove _ _).
Qed.

Lemma op_core_lastKeyID v o w : op_core v o = Ok w -> lastKeyID w = lastKeyID v.
Proof.
  unfold op_core, applyAdminOp. destruct (bool_decide _); [by intros [= <-]|].
  destruct (op_add o); intros Hr; go_inv Hr; done.
Qed.

Lemma run_core_last ops : forall v x, run_core (SetLastKeyID v x) ops = (w ← run_core v ops; Ok (SetLastKeyID w x)).
Proof.
  induction ops as [|o ops IH]; intros v x; [done|]. cbn [run_core]. rewrite op_core_last.
  destruct (op_core v o); [|done..]. cbn [mbind res_bind]. apply IH.
Qed.

(** An operation of the code is the core with its effect on the last key id. *)
Lemma applyAdminOp_core v o :
  applyAdminOp v (op_add o) (op_set o) (Some (op_key o)) (op_id o) =
  (w ← op_core v o; Ok (if adds_asp o then SetLastKeyID w (op_id o) else w)).
Proof.
  unfold op_core, adds_asp. destruct (bool_decide (op_set o = ASPKeySet)) eqn:Hasp.
  - unfold applyAdminOp. rewrite Hasp. by destruct (op_add o).
  - cbn [andb]. by destruct (applyAdminOp _ _ _ _ _).
Qed.

Lemma undo_op_core v out o :
  decodes out o ->
  undo_op v out = (w ← op_core v (undo o); Ok (if adds_asp o then SetLastKeyID w (u32 (op_id o - 1)) else w)).
Proof.
  intros Hd. unfold undo_op, op_core, adds_asp. rewrite Hd. cbn [mbind res_bind undo op_add op_set op_key op_id].
  destruct (bool_decide (op_set o = ASPKeySet)); [by destruct (op_add o)|].
  cbn [andb]. by destruct (applyAdminOp _ _ _ _ _).
Qed.

(** A loop over operations, each with its effect [f] on the last key id. *)
Lemma ops_core (loop : KeyViewpoint -> list (list parsedOpcode) -> res string KeyViewpoint)
    (step : KeyViewpoint -> list parsedOpcode -> res string KeyViewpoint) (g : op -> op) (f : op -> Z) :
  (forall v, loop v [] = Ok v) ->
  (forall v out rest, loop v (out :: rest) = (w ← step v out; loop w rest)) ->
  (forall v out o, decodes out o ->
     step v out = (w ← op_core v (g o); Ok (if adds_asp o then SetLastKeyID w (f o) else w))) ->
  forall outs ops, Forall2 decodes outs ops -> forall v,
  loop v outs = (w ← run_core v (map g ops);
                 Ok (SetLastKeyID w (fold_left (fun l o => if adds_asp o then f o else l) ops (lastKeyID v)))).
Proof.
  intros Hnil Hcons Hstep. induction 1 as [|out o outs ops Hd _ IH]; intros v.
  { rewrite Hnil. by destruct v. }
  rewrite Hcons, (Hstep _ _ _ Hd). cbn [map run_core fold_left].
  destruct (op_core v (g o)) as [w| | |] eqn:Hc; [|done..]. cbn [mbind res_bind].
  rewrite IH. apply op_core_lastKeyID in Hc. destruct (adds_asp o).
  - rewrite run_core_last. by destruct (run_core w (map g ops)).
  - by rewrite Hc.
Qed.

Lemma apply_ops_core outs ops v :
  Forall2 decodes outs ops ->
  apply_ops v outs = (w ← run_core v ops; Ok (SetLastKeyID w (last_add ops (lastKeyID v)))).
Proof.
  intros Hd. rewrite <- (map_id ops) at 1.
  apply (ops_core apply_ops (fun v out => '(a, t, k, id) ← ExtractAdminOpData out; applyAdminOp v a t k id) id op_id); try done.
  - intros v' out rest. cbn [apply_ops]. by destruct (ExtractAdminOpData out) as [[[[? ?] ?] ?]| | |].
  - intros v' out o Ho. rewrite Ho. apply applyAdminOp_core.
Qed.

Lemma undo_ops_core outs ops v :
  Forall2 decodes outs ops ->
  undo_ops v outs = (w ← run_core v (map undo ops); Ok (SetLastKeyID w (last_undo ops (lastKeyID v)))).
Proof.
  intros Hd. apply (ops_core undo_ops undo_op undo (fun o => u32 (op_id o - 1))); try done. apply undo_op_core.
Qed.

(** * What the checks establish *)

(** The operation changes the view: the key added is new, the key revoked is there. *)
Definition applicable (v : KeyViewpoint) (o : op) : Prop :=
  if bool_decide (op_set o = ASPKeySet)
  then aspKeyIdMap v !! op_id o = if op_add o then None else Some (Some (op_key o))
  else op_add o = true <-> op_key o ∉ key_set v (op_set o).

Lemma check_set_op_applicable v params a t k :
  check_set_op v params a t (Some k) = Ok tt -> a = true <-> k ∉ key_set v t.
Proof.
  unfold check_set_op. intros H. destruct (decide (k ∈ key_set v t)) as [Hk|Hk].
  - destruct (@Pos_in error _ _ Hk) as (i & Hi & _). rewrite Hi in H. cbn [mbind res_bind] in H.
    destruct a; [|naive_solver]. destruct (Z.leb_spec 0 (Z.of_nat i)); [done | lia].
  - rewrite Pos_not_in in H by done. cbn [mbind res_bind] in H. by destruct a.
Qed.

(** The number of ASP keys that the operations add. *)
Definition count_adds (ops : list op) : Z := len (List.filter adds_asp ops).

Lemma count_adds_cons o ops : count_adds (o :: ops) = (if adds_asp o then 1 else 0) + count_adds ops.
Proof. unfold count_adds. cbn [List.filter]. destruct (adds_asp o); [apply len_cons | done]. Qed.

(** The key ids that are added follow each other. *)
Definition follow (last : Z) (ops : list op) : Prop :=
  (forall x, x = u32 last -> last_add ops x = u32 (last + count_adds ops)) /\
  forall x, last_undo ops x = if count_adds ops =? 0 then x else u32 (last + count_adds ops - 1).

Lemma follow_nil last : follow last [].
Proof. split; [intros x ->; cbn; by rewrite Z.add_0_r | done]. Qed.

Lemma follow_add last o ops :
  adds_asp o = true -> op_id o = u32 (last + 1) -> follow (u32 (last + 1)) ops -> follow last (o :: ops).
Proof.
  intros Ho Hid [Ha Hu]. pose proof (len_nonneg (List.filter adds_asp ops)) as Hn. fold (count_adds ops) in Hn.
  unfold follow, last_add, last_undo in *. cbn [fold_left]. rewrite count_adds_cons, Ho. split.
  - intros x _. rewrite Ha, wrapu_wrapu_add_l; [f_equal; lia|].
    rewrite Hid. symmetry. apply wrapu_small, wrapu_range. lia.
  - intros x. rewrite Hu, Hid. replace (1 + count_adds ops =? 0) with false by lia.
    destruct (Z.eqb_spec (count_adds ops) 0) as [->|].
    + rewrite wrapu_wrapu_sub_l. by rewrite Z.add_0_r.
    + replace (u32 (last + 1) + count_adds ops - 1) with (u32 (last + 1) + (count_adds ops - 1)) by lia.
      rewrite wrapu_wrapu_add_l. f_equal. lia.
Qed.

Lemma follow_other last o ops : adds_asp o = false -> follow last ops -> follow last (o :: ops).
Proof.
  intros Ho [Ha Hu]. unfold follow, last_add, last_undo in *. cbn [fold_left]. by rewrite count_adds_cons, Ho.
Qed.

Lemma check_admin_ops_spec params v outs ops : Forall2 decodes outs ops -> forall last revoked,
  no_nil v -> check_admin_ops v params last revoked outs = Ok tt -> Forall (applicable v) ops /\ follow last ops.
Proof.
  induction 1 as [|out o outs ops Hd _ IH]; intros last revoked Hnil Hck.
  { split; [done | apply follow_nil]. }
  cbn [check_admin_ops] in Hck. rewrite Hd in Hck. cbn [mbind res_bind] in Hck.
  assert (adds_asp o = bool_decide (op_set o = ASPKeySet) && op_add o) as Hao by done.
  rewrite Forall_cons. unfold applicable at 1. destruct (bool_decide _) eqn:Hasp; cbn [andb] in Hao.
  - unfold get_key in Hck. pose proof (Hnil (op_id o)) as Hno. destruct (op_add o).
    + destruct (aspKeyIdMap v !! op_id o) as [[|]|]; [done.. |]. cbn in Hck.
      destruct (Z.eqb_spec (op_id o) (u32 (last + 1))) as [Hid|]; [|done]. cbn [negb] in Hck.
      destruct (IH _ _ Hnil Hck) as [Ha Hf]. split; [done | by apply follow_add].
    + destruct (aspKeyIdMap v !! op_id o) as [[key|]|]; [|done..]. cbn in Hck.
      destruct (bool_decide (op_id o ∈ revoked)); [done|]. destruct (IsEqual key (op_key o)) eqn:He; [|done].
      apply IsEqual_eq in He as ->. cbn [negb] in Hck. destruct (IH _ _ Hnil Hck) as [Ha Hf].
      split; [done | by apply follow_other].
  - apply bind_Ok in Hck as ([] & Hset & Hck). destruct (IH _ _ Hnil Hck) as [Ha Hf].
    split; [|by apply follow_other]. split; [|done]. by eapply check_set_op_applicable.
Qed.

(** * One transaction *)

(** Undoing the operations from any view with the same admin state. *)
Definition same_keys (v w : KeyViewpoint) : Prop :=
  aspKeyIdMap v = aspKeyIdMap w /\ forall t, key_set v t ≡ₚ key_set w t.

Lemma undo_restores v ops w u :
  nodup v -> nodup u -> Forall (applicable v) ops -> run_core v ops = Ok w -> same_keys u w ->
  exists x, run_core u (map undo ops) = Ok x /\ same_keys x v /\ nodup x /\ framed u x.
Proof.
  intros Hv Hu Hap Hw (Hasp & Hset). rewrite Forall_forall in Hap.
  destruct (run_core_spec ops v Hv) as (w' & Hw' & Hndw & Hfw & Hsw & Haw). rewrite Hw in Hw'. injection Hw' as <-.
  destruct (run_core_spec (map undo ops) u Hu) as (x & Hx & Hndx & Hfx & Hsx & Hax). exists x.
  split; [done|]. split; [|done]. split.
  - apply map_eq. intros id. destruct (Hax id) as [[-> Hno]|(o' & Hin & Ho & Hid & ->)].
    + rewrite Hasp. destruct (Haw id) as [[-> _]|(o & Hin & Ho & Hid & _)]; [done|].
      destruct (Hno (undo o)); [by apply list_elem_of_fmap_2 | done..].
    + apply list_elem_of_fmap in Hin as (o & -> & Hin). specialize (Hap o Hin). unfold applicable in Hap.
      cbn in *. rewrite bool_decide_eq_true_2 in Hap by done. rewrite <- Hid, Hap. by destruct (op_add o).
  - intros t. apply NoDup_Permutation; [done..|]. intros k. destruct (Hsx t k) as [[-> Hno]|(o' & Hin & Ho & <- & <- & ->)].
    + rewrite (Hset t). destruct (Hsw t k) as [[-> _]|(o & Hin & Ho & <- & <- & _)]; [done|].
      destruct (Hno (undo o)); [by apply list_elem_of_fmap_2 | done..].
    + apply list_elem_of_fmap in Hin as (o & -> & Hin). specialize (Hap o Hin). unfold applicable in Hap.
      cbn in *. rewrite bool_decide_eq_false_2 in Hap by done.
      destruct (op_add o), (decide (op_key o ∈ key_set v (op_set o))); naive_solver.
Qed.

(** * Admin transactions *)
Lemma admin_details tx th outs :
  GetAdminDetailsMsgTx tx = (th, outs) -> 0 <= th ->
  (th = 0 \/ th = 1 \/ th = 2) /\
  exists first rest pops, tx_TxOut tx = first :: rest /\ ParseScript (PkScript first) = Ok pops /\
    TypeOfScript pops = ProvaAdminTy /\ parse_outputs rest = Some outs.
Proof.
  unfold GetAdminDetailsMsgTx. intros Hd Hth. destruct (tx_TxOut tx) as [|first rest]; [simplify_eq; lia|].
  destruct (ParseScript (PkScript first)) as [pops| | |] eqn:Hp; try (simplify_eq; lia).
  destruct (bool_decide_reflect (TypeOfScript pops = ProvaAdminTy)) as [Hty|]; [|cbn in Hd; simplify_eq; lia]. cbn [negb] in Hd.
  destruct (ExtractThreadID pops) as [t| | |] eqn:Ht; try (simplify_eq; lia).
  destruct (parse_outputs rest) as [outs'|] eqn:Ho; [|simplify_eq; lia]. injection Hd as <- <-. split; [|naive_solver].
  unfold TypeOfScript, typeOfScript in Hty. do 3 (case_match; [done|]).
  destruct (isProvaAdmin pops) eqn:Ha; [|done]. unfold isProvaAdmin in Ha. unfold ExtractThreadID in Ht.
  destruct pops as [|p0 [|p1 [|]]]; try done. destruct (negb _); [done|].
  destruct (negb _); [done|]. injection Ht as <-. unfold RootThread, IssueThread in Ha. lia.
Qed.

Lemma parse_outputs_wf outs : forall parsed,
  Forall (fun o => bytes_ok (PkScript o)) outs -> parse_outputs outs = Some parsed ->
  Forall (Forall wf_pop) parsed /\ length parsed = length outs.
Proof.
  induction outs as [|o outs IH]; intros parsed Hok Hp; [by injection Hp as <-|]. apply Forall_cons in Hok as [Ho Hok].
  cbn in Hp. destruct (ParseScript (PkScript o)) as [pops| | |] eqn:Hps; try done.
  destruct (parse_outputs outs) as [l|] eqn:Hl; [|done]. injection Hp as <-.
  destruct (IH l Hok eq_refl) as [Hwf Hlen]. split; [|cbn; congruence].
  constructor; [|done]. pose proof (ParseScript_wf _ Ho) as Hr. rewrite Hps in Hr. apply Hr.
Qed.

(** A coinbase that passes the checks is not an admin transaction. *)
Lemma prova_not_admin tx : IsProvaTx tx = true -> (GetAdminDetailsMsgTx tx).1 < 0.
Proof.
  intros Hp. destruct (GetAdminDetailsMsgTx tx) as [th outs] eqn:Hd. destruct (Z.ltb_spec th 0); [done|].
  destruct (admin_details _ _ _ Hd) as (_ & first & rest & pops & Htx & Hps & Hty & _); [lia|].
  unfold IsProvaTx in Hp. rewrite Htx in Hp. destruct (_ =? 0); [done|]. cbn in Hp. rewrite Hps in Hp.
  unfold TypeOfScript, typeOfScript in Hty. destruct (isNullData pops); [done|].
  destruct (isProva pops); [done|]. by destruct (isGeneralProva pops).
Qed.

(** What the sanity checks say of an admin transaction on the root or the
    provision thread. *)
Lemma sane_admin_ops tx th outs :
  Forall (fun o => bytes_ok (PkScript o)) (tx_TxOut tx) -> CheckTransactionSanity tx = Ok tt ->
  GetAdminDetailsMsgTx tx = (th, outs) -> 0 <= th -> th <> IssueThread ->
  exists ops, Forall2 decodes outs ops.
Proof.
  intros Hok Hs Hd Hth Hne. destruct (admin_details _ _ _ Hd Hth) as (Hcase & first & rest & pops & Htx & _ & _ & Hpo).
  assert (u8 th = th) as Hu by (apply wrapu_small; unfold is_u; lia). unfold IssueThread in Hne.
  unfold CheckTransactionSanity in Hs. do 3 (case_match; [done|]). rewrite Hd in Hs.
  apply bind_Ok in Hs as ([] & _ & Hs). destruct (duplicate_inputs _ _); [done|].
  pose proof (prova_not_admin tx) as Hpn. rewrite Hd in Hpn. cbn in Hpn.
  destruct (IsCoinBase tx).
  { destruct (IsProvaTx tx); [specialize (Hpn eq_refl); lia | done]. }
  apply bind_Ok in Hs as ([] & Hs & _). rewrite Hu in Hs.
  replace ((0 <=? th) && _) with true in Hs by (unfold RootThread, ProvisionThread; lia).
  destruct (1 <? len (tx_TxIn tx)); [done|]. destruct (len (tx_TxOut tx) <? 2); [done|].
  destruct (forallb _ outs) eqn:Hall; [|done].
  rewrite Htx in Hok. apply Forall_cons in Hok as [_ Hok]. destruct (parse_outputs_wf _ _ Hok Hpo) as [Hwf _].
  clear -Hwf Hall. induction Hwf as [|out outs Hw _ IH]; [by exists []|].
  apply andb_true_iff in Hall as [Hv Hall]. destruct (IH Hall) as [ops Hops].
  destruct (valid_op_shape _ _ Hw Hv) as (p0 & p1 & c & key & -> & Hshape & _).
  destruct (ExtractAdminOpData_shape p0 p1 c key Hshape) as (id & _ & He).
  exists (mkOp (admin_op c).1 (admin_op c).2 key id :: ops). by constructor.
Qed.

(** * The total supply *)
Lemma change_supply_eq sign s v : change_supply sign s v = u64 (s + sign * v).
Proof. unfold change_supply, wrapu. by rewrite Zplus_mod, Zmult_mod_idemp_r, <- Zplus_mod. Qed.

Lemma change_supply_range sign s v : is_u 64 (change_supply sign s v).
Proof. apply wrapu_range. lia. Qed.

Lemma change_supply_add sign s v T : u64 (change_supply sign s v + sign * T) = u64 (s + sign * (v + T)).
Proof. rewrite change_supply_eq, wrapu_wrapu_add_l. f_equal. lia. Qed.

(** A loop over the outputs changes the supply by an amount that does not depend
    on the supply; the loop with the other sign changes it back. *)
Lemma destruction_total txOuts outs : forall i,
  0 <= i -> i + len outs < len txOuts ->
  exists T, forall sign s, is_u 64 s -> destruction_loop sign txOuts i outs s = Ok (u64 (s + sign * T)).
Proof.
  induction outs as [|out outs IH]; intros i Hi Hl.
  { exists 0. intros sign s Hs. cbn. rewrite Z.mul_0_r, Z.add_0_r. by rewrite wrapu_small. }
  rewrite len_cons in Hl. destruct (IH (i + 1)) as [T HT]; [lia..|]. pose proof (len_nonneg outs).
  destruct (@idx_in_range string _ txOuts (i + 1)) as (o & Ho & _); [lia|]. cbn [destruction_loop].
  destruct (bool_decide _); [|by exists T]. exists (Value o + T). intros sign s Hs.
  rewrite Ho. cbn [mbind res_bind]. rewrite HT by apply change_supply_range. by rewrite change_supply_add.
Qed.

Lemma issuance_total outs :
  exists T, forall sign s, is_u 64 s ->
    fold_left (fun s o => change_supply sign s (Value o)) outs s = u64 (s + sign * T).
Proof.
  induction outs as [|o outs [T IH]].
  { exists 0. intros sign s Hs. cbn. rewrite Z.mul_0_r, Z.add_0_r. by rewrite wrapu_small. }
  exists (Value o + T). intros sign s Hs. cbn [fold_left]. rewrite IH by apply change_supply_range.
  by rewrite change_supply_add.
Qed.

Lemma issue_supply_total tx outs :
  len outs < len (tx_TxOut tx) ->
  exists T, forall issue s, is_u 64 s -> issue_supply issue tx outs s = Ok (u64 (s + issue * T)).
Proof.
  intros Hl. unfold issue_supply, issuance_loop. destruct (1 <? _).
  - destruct (destruction_total (tx_TxOut tx) outs 0) as [T HT]; [lia..|]. exists (- T). intros issue s Hs.
    rewrite HT by done. do 2 f_equal. lia.
  - destruct (issuance_total (drop 1 (tx_TxOut tx))) as [T HT]. exists T. intros issue s Hs. by rewrite HT.
Qed.

(** * Transactions and blocks *)
Definition view_ok (v : KeyViewpoint) : Prop :=
  nodup v /\ no_nil v /\ is_u 32 (lastKeyID v) /\ is_u 64 (totalSupply v).

(** The transaction passes the checks at this view. *)
Definition tx_ok (params : Params) (v : KeyViewpoint) (tx : MsgTx) : Prop :=
  Forall (fun o => bytes_ok (PkScript o)) (tx_TxOut tx) /\ CheckTransactionSanity tx = Ok tt /\
  CheckTransactionOutputs tx v params = Ok tt.

Fixpoint txs_ok (params : Params) (v : KeyViewpoint) (txs : list MsgTx) (height : Z) : Prop :=
  match txs with
  | [] => True
  | tx :: rest =>
      tx_ok params v tx /\ forall v', connectTransaction v tx height = Ok v' -> txs_ok params v' rest height
  end.

(** The number of ASP keys that a transaction adds. *)
Definition asp_adds (tx : MsgTx) : Z :=
  let '(th, outs) := GetAdminDetailsMsgTx tx in
  if (0 <=? th) && negb (th =? IssueThread) then
    len (List.filter (fun out => match @ExtractAdminOpData string out with
                            | Ok (isAdd, t, _, _) => bool_decide (t = ASPKeySet) && isAdd
                            | _ => false end) outs)
  else 0.

(** Those of the first transaction that adds any. *)
Fixpoint first_adds (txs : list MsgTx) : Z :=
  match txs with
  | [] => 0
  | tx :: rest => if asp_adds tx =? 0 then first_adds rest else asp_adds tx
  end.

(** A transaction of an admin thread. *)
Definition touches (tx : MsgTx) (th : Z) : bool := let t := (GetAdminDetailsMsgTx tx).1 in (0 <=? t) && (t =? th).

(** What the first input of the first transaction of a thread spends. *)
Fixpoint first_spent (th : Z) (txs : list MsgTx) : option OutPoint :=
  match txs with
  | [] => None
  | tx :: rest => if touches tx th then PreviousOutPoint <$> head (tx_TxIn tx) else first_spent th rest
  end.

Lemma sane_inputs tx : CheckTransactionSanity tx = Ok tt -> exists ti rest, tx_TxIn tx = ti :: rest.
Proof. unfold CheckTransactionSanity. destruct (tx_TxIn tx) as [|ti rest]; [done | by eauto]. Qed.

Lemma count_adds_decodes outs ops :
  Forall2 decodes outs ops ->
  len (List.filter (fun out => match @ExtractAdminOpData string out with
                          | Ok (isAdd, t, _, _) => bool_decide (t = ASPKeySet) && isAdd
                          | _ => false end) outs) = count_adds ops.
Proof.
  unfold count_adds. induction 1 as [|out o outs ops Hd _ IH]; [done|]. cbn [List.filter]. rewrite Hd.
  fold (adds_asp o). destruct (adds_asp o); [by rewrite !len_cons, IH | done].
Qed.

(** What disconnecting a transaction must achieve from any view [u] with the keys and
    the supply of [v1]. *)
Definition restores (v v1 : KeyViewpoint) (tx : MsgTx) : Prop :=
  forall u, similar u v1 -> nodup u ->
  exists w, disconnect_tx u tx = Ok w /\ similar w v /\ nodup w /\
    (lastKeyID w = if asp_adds tx =? 0 then lastKeyID u else u32 (lastKeyID v + asp_adds tx - 1)) /\
    forall th, threadTips w !! th = if touches tx th then PreviousOutPoint <$> head (tx_TxIn tx) else threadTips u !! th.

Definition keeps_tips (v v1 : KeyViewpoint) (tx : MsgTx) : Prop := forall th, touches tx th = false -> threadTips v1 !! th = threadTips v !! th.

Lemma touches_details tx t outs th : GetAdminDetailsMsgTx tx = (t, outs) -> 0 <= t -> touches tx th = (t =? th).
Proof. intros Hd Ht. unfold touches. rewrite Hd. cbn. by replace (0 <=? t) with true by lia. Qed.

Lemma tip_lookup (m : gmap Z OutPoint) t op th : <[t := op]> m !! th = if t =? th then Some op else m !! th.
Proof. destruct (Z.eqb_spec t th) as [->|Hne]; [apply lookup_insert_eq | by apply lookup_insert_ne]. Qed.

(** Not an admin transaction. *)
Lemma connect_plain v tx h :
  (GetAdminDetailsMsgTx tx).1 < 0 -> connectTransaction v tx h = Ok v /\ asp_adds tx = 0 /\ restores v v tx.
Proof.
  intros Hth. assert (forall th, touches tx th = false) as Hto by (intros th; unfold touches; cbv zeta; lia).
  destruct (GetAdminDetailsMsgTx tx) as [th outs] eqn:Hd. cbn in Hth.
  assert (asp_adds tx = 0) as Ha by (unfold asp_adds; rewrite Hd; by replace (0 <=? th) with false by lia).
  unfold connectTransaction, ProcessAdminOuts, restores, disconnect_tx. rewrite Hd, Ha. unfold RootThread.
  replace (th <? 0) with true by lia. replace (0 <=? th) with false by lia.
  split_and!; [done..|]. intros u Hu Hnd. exists u. split_and!; [done..|]. intros th'. by rewrite Hto.
Qed.

(** A transaction of the issue thread. *)
Lemma connect_issue params v tx h outs :
  view_ok v -> tx_ok params v tx -> GetAdminDetailsMsgTx tx = (IssueThread, outs) ->
  exists v1, connectTransaction v tx h = Ok v1 /\ view_ok v1 /\ lastKeyID v1 = lastKeyID v /\
    asp_adds tx = 0 /\ restores v v1 tx /\ keeps_tips v v1 tx.
Proof.
  intros (Hnd & Hnil & Hl & Hsup) (Hok & (ti & ins & Hins)%sane_inputs & _) Hd.
  pose proof (fun th => touches_details tx _ _ th Hd ltac:(unfold IssueThread; lia)) as Hto.
  destruct (admin_details _ _ _ Hd) as (_ & first & rest & _ & Htx & _ & _ & Hpo); [unfold IssueThread; lia|].
  destruct (issue_supply_total tx outs) as [T HT].
  { rewrite Htx, len_cons in *. apply Forall_cons in Hok as [_ Hok]. destruct (parse_outputs_wf _ _ Hok Hpo) as [_ Hlen].
    unfold len. lia. }
  assert (asp_adds tx = 0) as Ha by (unfold asp_adds; by rewrite Hd).
  eexists. unfold connectTransaction, ProcessAdminOuts, restores, disconnect_tx. rewrite Hd, Ha.
  change (IssueThread <? 0) with false. change (u8 IssueThread) with IssueThread. rewrite Z.eqb_refl.
  change (RootThread <=? IssueThread) with true. rewrite HT by done. cbn [mbind res_bind].
  split; [done|]. split_and!; [unfold view_ok; split_and!; try done; apply wrapu_range; lia | done | done | |].
  2:{ intros th Hth. cbn. by rewrite tip_lookup, <- Hto, Hth. }
  intros u (Hsu & Hau & Hku) Hndu. cbn in Hsu, Hau. rewrite HT by (rewrite Hsu; apply wrapu_range; lia).
  cbn [mbind res_bind]. rewrite Hins. eexists. split; [done|].
  split_and!; [unfold similar; split_and!| done | done |]; cbn; [| done | exact Hku | intros th; by rewrite tip_lookup, Hto].
  - rewrite Hsu, Z.mul_1_l, wrapu_wrapu_add_l. replace (totalSupply v + T + -1 * T) with (totalSupply v) by lia.
    by apply wrapu_small.
Qed.

(** A transaction of the root or the provision thread. *)
Lemma connect_ops params v tx h th outs :
  view_ok v -> tx_ok params v tx -> GetAdminDetailsMsgTx tx = (th, outs) -> 0 <= th -> th <> IssueThread ->
  exists v1, connectTransaction v tx h = Ok v1 /\ view_ok v1 /\
    lastKeyID v1 = u32 (lastKeyID v + asp_adds tx) /\ restores v v1 tx /\ keeps_tips v v1 tx.
Proof.
  intros (Hnd & Hnil & Hl & Hsup) (Hok & Hsane & Hout) Hd Hth Hne.
  pose proof (fun th' => touches_details tx _ _ th' Hd Hth) as Hto. destruct (sane_inputs tx Hsane) as (ti & ins & Hins).
  destruct (admin_details _ _ _ Hd Hth) as (Hcase & _). assert (u8 th = th) as Hu by (apply wrapu_small; unfold is_u; lia).
  destruct (sane_admin_ops _ _ _ Hok Hsane Hd Hth Hne) as (ops & Hops).
  assert (asp_adds tx = count_adds ops) as Hadds.
  { unfold asp_adds. rewrite Hd. replace (_ && _) with true by lia. by apply count_adds_decodes. }
  unfold CheckTransactionOutputs in Hout. rewrite Hd, Hu in Hout. replace (0 <=? th) with true in Hout by lia.
  replace (th =? IssueThread) with false in Hout by lia. cbn [negb] in Hout.
  destruct (check_admin_ops_spec params v outs ops Hops _ _ Hnil Hout) as [Hap [Hla Hlu]].
  destruct (run_core_spec ops v Hnd) as (w & Hw & Hndw & (Ht & Hs & Hlw) & _ & Ha).
  exists (set_tip (SetLastKeyID w (last_add ops (lastKeyID v))) th (mkOutPoint (SigCache.TxHash tx) 0)).
  unfold connectTransaction, ProcessAdminOuts, restores, disconnect_tx. rewrite Hd, Hu, Hadds.
  replace (th <? 0) with false by lia. replace (th =? IssueThread) with false by lia. unfold RootThread.
  replace (0 <=? th) with true by lia. rewrite (apply_ops_core _ _ _ Hops), Hw. cbn [mbind res_bind].
  rewrite Hla by (symmetry; by apply wrapu_small). split; [done|]. split_and!.
  - unfold view_ok. split_and!; cbn; [done | | apply wrapu_range; lia | by rewrite Hs]. intros id.
    cbn. destruct (Ha id) as [[-> _]|(o & _ & _ & _ & ->)]; [done | by destruct (op_add o)].
  - done.
  - intros u (Hsu & Hau & Hku) Hndu. cbn in Hsu, Hau. rewrite (undo_ops_core _ _ _ Hops).
    destruct (undo_restores v ops w u) as (x & Hx & (Hax & Hkx) & Hndx & (Htx & Hsx & Hlx)); try done.
    rewrite Hx. cbn [mbind res_bind]. rewrite Hins. eexists. split; [done|].
    split_and!; [unfold similar; split_and! | | |]; cbn; try done; [congruence|]. intros th'. by rewrite tip_lookup, Hto, Htx.
  - intros th' Hth'. cbn. by rewrite tip_lookup, <- Hto, Hth', Ht.
Qed.

Lemma connect_tx params v tx h :
  view_ok v -> tx_ok params v tx ->
  exists v1, connectTransaction v tx h = Ok v1 /\ view_ok v1 /\
    lastKeyID v1 = u32 (lastKeyID v + asp_adds tx) /\ restores v v1 tx /\ keeps_tips v v1 tx.
Proof.
  intros Hv Htx. assert (u32 (lastKeyID v + 0) = lastKeyID v) as Hl by (rewrite Z.add_0_r; apply wrapu_small, Hv).
  destruct (GetAdminDetailsMsgTx tx) as [th outs] eqn:Hd. destruct (Z.ltb_spec th 0) as [Hth|Hth].
  - destruct (connect_plain v tx h) as (Hc & Ha & Hr); [by rewrite Hd|]. exists v. by rewrite Ha, Hl.
  - destruct (decide (th = IssueThread)) as [->|Hne]; [|by eapply connect_ops].
    destruct (connect_issue params v tx h outs Hv Htx Hd) as (v1 & Hc & Hv1 & Hl1 & Ha & Hr & Ht).
    exists v1. rewrite Ha, Hl. done.
Qed.

Lemma disconnect_txs_app a b : forall v,
  disconnect_txs v (a ++ b) = (w ← disconnect_txs v a; disconnect_txs w b).
Proof.
  induction a as [|tx a IH]; intros v; [done|]. cbn [app disconnect_txs].
  destruct (disconnect_tx v tx); [|done..]. apply IH.
Qed.

Lemma connect_txs_restore params h txs : forall v,
  view_ok v -> txs_ok params v txs h ->
  exists v', connect_txs v txs h = Ok v' /\ view_ok v' /\ (forall th, first_spent th txs = None -> threadTips v' !! th = threadTips v !! th) /\
  forall u, similar u v' -> nodup u -> lastKeyID u = lastKeyID v' ->
  exists w, disconnect_txs u (reverse txs) = Ok w /\ similar w v /\ nodup w /\
    (lastKeyID w = if first_adds txs =? 0 then lastKeyID v else u32 (lastKeyID v + first_adds txs - 1)) /\
    forall th, threadTips w !! th = match first_spent th txs with Some op => Some op | None => threadTips u !! th end.
Proof.
  induction txs as [|tx txs IH]; intros v Hv Hok.
  { exists v. split_and!; [done..|]. intros u Hu Hnd Hl. by exists u. }
  destruct Hok as [Htx Hok]. destruct (sane_inputs tx (proj1 (proj2 Htx))) as (ti & ins & Hins).
  destruct (connect_tx params v tx h Hv Htx) as (v1 & Hc1 & Hv1 & Hl1 & Hr1 & Ht1).
  destruct (IH v1 Hv1 (Hok _ Hc1)) as (v' & Hc & Hv' & Ht & Hr). exists v'. cbn [connect_txs]. rewrite Hc1.
  split_and!; [done | done | |].
  { intros th. cbn [first_spent]. destruct (touches tx th) eqn:Hto; [by rewrite Hins|]. intros Hn. rewrite Ht by done. by apply Ht1. }
  intros u Hu Hndu Hlu. destruct (Hr u Hu Hndu Hlu) as (x & Hx & Hsx & Hndx & Hlx & Htx').
  destruct (Hr1 x Hsx Hndx) as (w & Hw & Hsw & Hndw & Hlw & Htw). exists w.
  rewrite reverse_cons, disconnect_txs_app, Hx. cbn [mbind res_bind disconnect_txs]. rewrite Hw.
  split_and!; [done.. | |].
  - rewrite Hlw. cbn [first_adds]. destruct (Z.eqb_spec (asp_adds tx) 0) as [Ha|Ha].
    + rewrite Hlx, Hl1, Ha, Z.add_0_r. rewrite (wrapu_small 32 (lastKeyID v)) by apply Hv. done.
    + by destruct (Z.eqb_spec (asp_adds tx) 0).
  - intros th. rewrite Htw. cbn [first_spent]. destruct (touches tx th); [by rewrite Hins | apply Htx'].
Qed.

(** * Theorems *)

(** C9: a block whose transactions pass the checks connects without a panic, and
    disconnecting it gives back the admin state: the same members in every key
    set, the same key ids with their keys and the same supply.  The tip of a thread
    becomes the output that the first input of the block's first transaction of the
    thread spends, which is the tip from before when that transaction spent it, and the
    other tips stay as they were.  The last key id can differ: the code undoes the
    operations of a transaction first to last, so if the first transaction that adds
    ASP keys adds [n] of them, the last key id ends up [n - 1] too high. *)
Theorem keyview_disconnect params v block :
  view_ok v -> txs_ok params v (Transactions block) (Height block) ->
  exists v' w, connectTransactions v block = Ok v' /\ view_ok v' /\
    disconnectTransactions v' block = Ok w /\ similar w v /\
    (forall th, threadTips w !! th = match first_spent th (Transactions block) with Some op => Some op | None => threadTips v !! th end) /\
    lastKeyID w = (let n := first_adds (Transactions block) in
                   if n =? 0 then lastKeyID v else u32 (lastKeyID v + n - 1)).
Proof.
  intros Hv Hok. destruct (connect_txs_restore params _ _ v Hv Hok) as (v' & Hc & Hv' & Ht & Hr).
  destruct (Hr v') as (w & Hw & Hs & _ & Hl & Htw); [done | apply Hv' | done |]. exists v', w. split_and!; try done.
  intros th. rewrite Htw. destruct (first_spent th _) eqn:E; [done | by apply Ht].
Qed.

(** * An example

    A transaction of the provision thread that adds two ASP keys. *)
Definition example_key_bytes : bytes := Eval vm_compute in SerializeCompressed SecpPrime.example_key.
Definition example_op (id : Z) : bytes :=
  [OP_RETURN; OP_DATA_38; AdminOpASPKeyAdd] ++ example_key_bytes ++ [id; 0; 0; 0].
Definition example_tip : OutPoint := mkOutPoint (replicate 32 9) 0.
Definition example_tx : MsgTx :=
  mkMsgTx 1 [mkTxIn example_tip [] 0]
    [mkTxOut 0 [OP_1; OP_CHECKTHREAD]; mkTxOut 0 (example_op 1); mkTxOut 0 (example_op 2)] 0.
Definition example_view : KeyViewpoint := mkKeyViewpoint {[ 1 := example_tip ]} 0 0 ∅ ∅.
Definition example_params : Params := mkParams (MsgBlock.mkMsgBlock MsgBlock.example_header []) [] ∅ ∅ 0 0 100 0 0 [] 0 0 0 11 0 0 2 5000000.
Definition example_block : Block := mkBlock [example_tx] 5 (replicate 32 2) (replicate 32 3).

Definition example_pops (idb : bytes) : list parsedOpcode :=
  [mkPop (opcodeArray OP_RETURN) []; mkPop (opcodeArray OP_DATA_38) (AdminOpASPKeyAdd :: example_key_bytes ++ idb)].

Lemma example_details : GetAdminDetailsMsgTx example_tx = (1, [example_pops [1; 0; 0; 0]; example_pops [2; 0; 0; 0]]).
Proof. vm_compute. reflexivity. Qed.

Lemma example_key_parses : ParsePubKey example_key_bytes = Ok SecpPrime.example_key.
Proof.
  assert (example_key_bytes = SerializeCompressed SecpPrime.example_key) as -> by (vm_compute; reflexivity).
  apply SecpPrime.SerializeCompressed_parse, SecpPrime.valid_example_key.
Qed.

Lemma example_decodes idb : length idb = 4%nat -> decodes (example_pops idb) (mkOp true ASPKeySet SecpPrime.example_key (le_decode idb)).
Proof.
  intros Hl E. destruct idb as [|b0 [|b1 [|b2 [|b3 [|]]]]]; try discriminate Hl. unfold ExtractAdminOpData, example_pops.
  set (d := AdminOpASPKeyAdd :: example_key_bytes ++ [b0; b1; b2; b3]).
  change (idx _ 1) with (@Ok E _ (mkPop (opcodeArray OP_DATA_38) d)). cbn [mbind res_bind pop_data].
  change (slice d 1 (1 + PubKeyBytesLenCompressed)) with (@Ok E _ example_key_bytes). cbn [mbind res_bind].
  rewrite example_key_parses. reflexivity.
Qed.

Lemma valid_asp_add p0 p1 key :
  pop_value p0 = OP_RETURN -> pop_value p1 = OP_DATA_38 -> len (pop_data p1) = 38 ->
  ExtractAdminData [p0; p1] = Ok (AdminOpASPKeyAdd, key) -> IsValidAdminOp [p0; p1] 1 = true.
Proof. intros H0 H1 Hl He. unfold IsValidAdminOp. by rewrite H0, H1, He, Hl. Qed.

Lemma example_valid idb : length idb = 4%nat -> IsValidAdminOp (example_pops idb) 1 = true.
Proof.
  intros Hl. apply (valid_asp_add _ _ SecpPrime.example_key).
  - reflexivity.
  - reflexivity.
  - cbn [pop_data]. rewrite len_cons, len_app. unfold len at 2. rewrite Hl. reflexivity.
  - apply (ExtractAdminData_key _ _ _ example_key_bytes _ SecpPrime.example_key eq_refl example_key_parses).
Qed.

Lemma bytes_ok_example : Forall (fun o => bytes_ok (PkScript o)) (tx_TxOut example_tx).
Proof. unfold example_tx. cbn [tx_TxOut]. repeat (apply Forall_cons; split; [apply bytesb_ok; vm_compute; reflexivity|]). by apply Forall_nil. Qed.

Lemma example_sane : CheckTransactionSanity example_tx = Ok tt.
Proof.
  unfold CheckTransactionSanity. rewrite example_details.
  change (u8 1) with 1. cbn [forallb]. rewrite !example_valid by done. vm_compute. reflexivity.
Qed.

Lemma example_outputs : CheckTransactionOutputs example_tx example_view example_params = Ok tt.
Proof.
  unfold CheckTransactionOutputs. rewrite example_details. change (negb (0 <=? 1)) with false.
  change (u8 1 =? IssueThread) with false. cbv iota. cbn [check_admin_ops].
  rewrite (example_decodes [1; 0; 0; 0] eq_refl), (example_decodes [2; 0; 0; 0] eq_refl). reflexivity.
Qed.

Lemma example_adds : asp_adds example_tx = 2.
Proof.
  unfold asp_adds. rewrite example_details. change ((0 <=? 1) && negb (1 =? IssueThread)) with true. cbv iota.
  cbn [List.filter]. by rewrite (example_decodes [1; 0; 0; 0] eq_refl), (example_decodes [2; 0; 0; 0] eq_refl).
Qed.

Lemma keyview_disconnect_witness :
  exists v' w, connectTransactions example_view example_block = Ok v' /\
    disconnectTransactions v' example_block = Ok w /\ similar w example_view /\ threadTips w = threadTips example_view /\
    lastKeyID example_view = 0 /\ lastKeyID w = 1.
Proof.
  destruct (keyview_disconnect example_params example_view example_block) as (v' & w & Hc & _ & Hd & Hs & Ht & Hl).
  - split_and!; [intros t; unfold key_set; cbn; rewrite lookup_empty; constructor | intros id; cbn; by rewrite lookup_empty
                | unfold is_u; cbn; lia | unfold is_u; cbn; lia].
  - split; [|done]. split_and!; [apply bytes_ok_example | apply example_sane | apply example_outputs].
  - exists v', w. split_and!; [done.. | | done |].
    { apply map_eq. intros th. rewrite Ht. cbn [example_block Transactions first_spent].
      rewrite (touches_details _ _ _ th example_details) by lia. destruct (Z.eqb_spec 1 th) as [<-|]; reflexivity. }
    rewrite Hl. cbn [example_block Transactions first_adds].
    rewrite example_adds. reflexivity.
Defined.

End KeySpec.
