(* ===== verification/ScriptVal.v ===== *)
(** Validation of the scripts of transactions by several goroutines:
    [src/blockchain/scriptval.go].

    An unbuffered channel is a rendezvous: one step of the system moves an item
    or a result from one goroutine to another.  The goroutines share the cache of
    signatures; what they see of it is any cache that other goroutines can leave,
    so the work on an item takes the cache as an argument.  Reading a script or
    an amount decompresses the output in the view; the rules for the inputs have
    decompressed it before, so the view is not changed here. *)
From S2P Require Import Prelude PubKey Opcode Wire Crypto Script ScriptBuilder Standard SigCache Engine Machine.
From S2P Require Import Utxo KeyView Validate.
Import btcec Opcode wire Crypto Script ScriptBuilder Standard Engine Machine Utxo KeyView Validate.
#[local] Open Scope Z_scope.

Module ScriptVal.

Record txValidateItem := mkTxValidateItem {
  item_txInIndex : Z; item_txIn : TxIn; item_tx : MsgTx; item_sigHashes : option TxSigHashes }.

(** The fields of a validator other than its channels and caches. *)
Record txValidator := mkTxValidator { val_utxoView : UtxoViewpoint; val_keyView : KeyViewpoint; val_flags : Z }.

Section validate.
Context `{Primitives} `{SigCache.Random}.

(** A Prova script with its key ids replaced.  The text of the error about the
    replacement names the first two key ids. *)
Definition replace_script (keyView : KeyViewpoint) (pops : list parsedOpcode) (pkScript : bytes)
    : res error (list parsedOpcode * bytes) :=
  let scriptType := TypeOfScript pops in
  if bool_decide (scriptType = ProvaTy) || bool_decide (scriptType = GeneralProvaTy) then
    keyIDs ← or_rule ErrScriptMalformed (ExtractKeyIDs pops);
    let keyIdMap := LookupKeyIDs keyView keyIDs in
    pops ← match ReplaceKeyIDs pops keyIdMap with
           | Err _ => _ ← idx keyIDs 0; _ ← idx keyIDs 1; ruleError ErrScriptMalformed
           | Ok pops => Ok pops
           | Panic => Panic
           | Hang => Hang
           end;
    pkScript ← or_rule ErrScriptMalformed (UnparseScript pops);
    Ok (pops, pkScript)
  else Ok (pops, pkScript).

(** The script of an admin thread, from the keys of the thread. *)
Definition thread_script (keyView : KeyViewpoint) (pops : list parsedOpcode) (pkScript : bytes) : res error bytes :=
  if bool_decide (TypeOfScript pops = ProvaAdminTy) then
    threadID ← or_rule ErrScriptMalformed (ExtractThreadID pops);
    or_rule ErrScriptMalformed (ThreadPkScript (GetAdminKeyHashes keyView (u8 threadID)))
  else Ok pkScript.

(** The work on an item in [validateHandler]: the value sent with [sendResult]. *)
Definition validate_item (v : txValidator) (cache : option SigCache.SigCache) (txVI : txValidateItem)
    : res error unit :=
  let txIn := item_txIn txVI in
  let originTxHash := Hash (PreviousOutPoint txIn) in
  let originTxIndex := Index (PreviousOutPoint txIn) in
  match LookupEntry (val_utxoView v) originTxHash with
  | None => ruleError ErrMissingTx
  | Some txEntry =>
      '(pkScript, txEntry) ← asserted (PkScriptByIndex txEntry originTxIndex);
      match pkScript with
      | None => ruleError ErrBadTxInput
      | Some pkScript =>
          pops ← or_rule ErrScriptMalformed (ParseScript pkScript);
          '(pops, pkScript) ← replace_script (val_keyView v) pops pkScript;
          pkScript ← thread_script (val_keyView v) pops pkScript;
          '(inputAmount, txEntry) ← asserted (AmountByIndex txEntry originTxIndex);
          vm ← or_rule ErrScriptMalformed
                 (NewEngine pkScript (item_tx txVI) (item_txInIndex txVI) (val_flags v) cache
                    (item_sigHashes txVI) inputAmount);
          or_rule ErrScriptValidation (Execute vm)
      end
  end.

(** * The goroutines *)

(** A goroutine of [validateHandler]: waiting for an item or for the end, working
    on an item, waiting to send a result, or ended. *)
Inductive worker := Idle | Busy (txVI : txValidateItem) | Sending (result : option error) | Ended.

(** The loop of [Validate]: the items not yet sent, the number of results still
    to come, the workers, and the value returned ([Some None] is nil), when the
    quit channel is closed. *)
Record state := mkState {
  unsent : list txValidateItem; pending : Z; workers : list worker; returned : option (option error) }.

(** The number of goroutines, on a machine with [numCPU] processors. *)
Definition maxGoRoutines (numCPU : Z) (items : list txValidateItem) : Z :=
  let n := numCPU * 3 in
  let n := if n <=? 0 then 1 else n in
  if len items <? n then len items else n.

Definition start (numCPU : Z) (items : list txValidateItem) : state :=
  mkState items (len items) (replicate (Z.to_nat (maxGoRoutines numCPU items)) Idle)
    (if len items =? 0 then Some None else None).

(** [good] are the caches that the goroutines can leave. *)
Context (good : option SigCache.SigCache -> Prop).

Inductive step (v : txValidator) : state -> state -> Prop :=
  | step_send item items n ws j :
      0 < n -> ws !! j = Some Idle ->
      step v (mkState (item :: items) n ws None) (mkState items n (<[j := Busy item]> ws) None)
  | step_valid s item j cache :
      workers s !! j = Some (Busy item) -> good cache -> validate_item v cache item = Ok tt ->
      step v s (mkState (unsent s) (pending s) (<[j := Sending None]> (workers s)) (returned s))
  | step_invalid s item j cache e :
      workers s !! j = Some (Busy item) -> good cache -> validate_item v cache item = Err e ->
      step v s (mkState (unsent s) (pending s) (<[j := Sending (Some e)]> (workers s)) (returned s))
  | step_receive items n ws j :
      0 < n -> ws !! j = Some (Sending None) ->
      step v (mkState items n ws None) (mkState items (n - 1) (<[j := Idle]> ws) None)
  | step_fail items n ws j e :
      0 < n -> ws !! j = Some (Sending (Some e)) ->
      step v (mkState items n ws None) (mkState items (n - 1) (<[j := Ended]> ws) (Some (Some e)))
  | step_return items ws :
      step v (mkState items 0 ws None) (mkState items 0 ws (Some None))
  | step_quit_idle items n ws j r :
      ws !! j = Some Idle ->
      step v (mkState items n ws (Some r)) (mkState items n (<[j := Ended]> ws) (Some r))
  | step_quit_sending items n ws j r result :
      ws !! j = Some (Sending result) ->
      step v (mkState items n ws (Some r))
        (mkState items n (<[j := match result with None => Idle | Some _ => Ended end]> ws) (Some r)).

(** [Validate] can return [r]: nil when it is [None]. *)
Definition Validate (numCPU : Z) (v : txValidator) (items : list txValidateItem) (r : option error) : Prop :=
  exists s, rtc (step v) (start numCPU items) s /\ returned s = Some r.

(** * The items of transactions *)

(** The inputs of a transaction other than those of a coinbase, from [txInIdx] on. *)
Fixpoint input_items (tx : MsgTx) (sigHashes : option TxSigHashes) (txInIdx : Z) (ins : list TxIn)
    : list txValidateItem :=
  match ins with
  | [] => []
  | txIn :: rest =>
      if Index (PreviousOutPoint txIn) =? 0xffffffff then input_items tx sigHashes (txInIdx + 1) rest
      else mkTxValidateItem txInIdx txIn tx sigHashes :: input_items tx sigHashes (txInIdx + 1) rest
  end.

(** The hashes of a transaction, from the cache. *)
Definition cached_hashes (hashCache : SigCache.HashCache) (tx : MsgTx)
    : SigCache.HashCache * option TxSigHashes :=
  let hash := SigCache.TxHash tx in
  let hashCache := if negb (SigCache.ContainsHashes hashCache hash) then SigCache.AddSigHashes hashCache tx else hashCache in
  (hashCache, SigCache.GetSigHashes hashCache hash).

(** The new hash cache, and the possible results. *)
Definition ValidateTransactionScripts (numCPU : Z) (v : txValidator) (hashCache : SigCache.HashCache) (tx : MsgTx)
    : SigCache.HashCache * (option error -> Prop) :=
  let '(hashCache, cachedHashes) := cached_hashes hashCache tx in
  (hashCache, Validate numCPU v (input_items tx cachedHashes 0 (tx_TxIn tx))).

Fixpoint block_items (hashCache : option SigCache.HashCache) (txs : list MsgTx)
    : option SigCache.HashCache * list txValidateItem :=
  match txs with
  | [] => (hashCache, [])
  | tx :: rest =>
      let '(hashCache, cachedHashes) :=
        match hashCache with
        | Some hc => let '(hc, hashes) := cached_hashes hc tx in (Some hc, hashes)
        | None => (None, Some (NewTxSigHashes tx))
        end in
      let '(hashCache, items) := block_items hashCache rest in
      (hashCache, input_items tx cachedHashes 0 (tx_TxIn tx) ++ items)
  end.

Definition checkBlockScripts (numCPU : Z) (v : txValidator) (hashCache : option SigCache.HashCache) (txs : list MsgTx)
    : option SigCache.HashCache * (option error -> Prop) :=
  let '(hashCache, items) := block_items hashCache txs in (hashCache, Validate numCPU v items).
End validate.
End ScriptVal.
