(* ===== verification/Node.v ===== *)
(** The nodes of the chain in memory: [src/blockchain/chain.go] without the parts
    that change the main chain, [calcNextRequiredDifficulty] of
    [src/blockchain/difficulty.go], [src/blockchain/ratelimit.go],
    [isValidateKeyRateLimited] of [src/blockchain/validate.go] and
    [src/blockchain/timesorter.go].

    Nodes refer to each other, so they live in a heap and a pointer is an address
    of it; [None] is the nil pointer.  Nodes that are needed and not in memory
    are loaded from the database, which changes the state of the chain also
    where the operation fails: an operation is a function from the state to the
    new state and a result.  The locks of the chain are held throughout. *)
From S2P Require Import Prelude PubKey Wire Crypto Script SigCache Utxo GoTime Header MsgBlock Database Params Difficulty.
From S2P Require Import KeyView Validate ChainIO.
From stdpp Require Import sorting.
Import btcec wire Utxo GoTime Header Params Difficulty KeyView Validate ChainIO.
#[local] Open Scope Z_scope.

Module Node.

(** * The state of the chain *)
Record blockNode := mkBlockNode {
  node_parent : option nat; node_children : list nat; node_hash : bytes; node_parentHash : bytes; node_height : Z;
  node_workSum : Z; node_inMainChain : bool; node_version : Z; node_bits : Z; node_nonce : Z; node_timestamp : Z;
  node_merkleRoot : bytes; node_size : Z; node_signature : bytes; node_validatingPubKey : bytes }.

Record orphanBlock := mkOrphanBlock { orphan_block : MsgBlock.Block; orphan_expiration : Time }.

Record BestState := mkBestState {
  snap_Hash : bytes; snap_Height : Z; snap_Bits : Z; snap_BlockSize : Z; snap_NumTxns : Z; snap_TotalTxns : Z;
  snap_MedianTime : Time }.

(** The fields that change; [next] is the next free address of the heap.  The
    signature cache is left to the model of the script validation. *)
Record BlockChain := mkBlockChain {
  db : Database.DB;
  heap : gmap nat blockNode; next : nat;
  bestNode : nat; index : gmap bytes nat; depNodes : gmap bytes (list nat);
  threadTips : gmap Z OutPoint; lastKeyID : Z; totalSupply : Z;
  adminKeySets : gmap KeySetType PublicKeySet; aspKeyIdMap : KeyIdMap;
  orphans : gmap bytes orphanBlock; prevOrphans : gmap bytes (list orphanBlock); oldestOrphan : option orphanBlock;
  nextCheckpoint : option Checkpoint; checkpointBlock : option MsgBlock.Block;
  stateSnapshot : BestState;
  noVerify : bool; hashCache : option SigCache.HashCache }.

Definition set_db (b : BlockChain) x := mkBlockChain x (heap b) (next b) (bestNode b) (index b) (depNodes b) (threadTips b)
  (lastKeyID b) (totalSupply b) (adminKeySets b) (aspKeyIdMap b) (orphans b) (prevOrphans b) (oldestOrphan b) (nextCheckpoint b)
  (checkpointBlock b) (stateSnapshot b) (noVerify b) (hashCache b).
Definition set_heap (b : BlockChain) x n := mkBlockChain (db b) x n (bestNode b) (index b) (depNodes b) (threadTips b)
  (lastKeyID b) (totalSupply b) (adminKeySets b) (aspKeyIdMap b) (orphans b) (prevOrphans b) (oldestOrphan b) (nextCheckpoint b)
  (checkpointBlock b) (stateSnapshot b) (noVerify b) (hashCache b).
Definition set_bestNode (b : BlockChain) x := mkBlockChain (db b) (heap b) (next b) x (index b) (depNodes b) (threadTips b)
  (lastKeyID b) (totalSupply b) (adminKeySets b) (aspKeyIdMap b) (orphans b) (prevOrphans b) (oldestOrphan b) (nextCheckpoint b)
  (checkpointBlock b) (stateSnapshot b) (noVerify b) (hashCache b).
Definition set_index (b : BlockChain) x y := mkBlockChain (db b) (heap b) (next b) (bestNode b) x y (threadTips b)
  (lastKeyID b) (totalSupply b) (adminKeySets b) (aspKeyIdMap b) (orphans b) (prevOrphans b) (oldestOrphan b) (nextCheckpoint b)
  (checkpointBlock b) (stateSnapshot b) (noVerify b) (hashCache b).
Definition set_admin (b : BlockChain) tips last supply sets ids := mkBlockChain (db b) (heap b) (next b) (bestNode b) (index b)
  (depNodes b) tips last supply sets ids (orphans b) (prevOrphans b) (oldestOrphan b) (nextCheckpoint b)
  (checkpointBlock b) (stateSnapshot b) (noVerify b) (hashCache b).
Definition set_orphans (b : BlockChain) x y z := mkBlockChain (db b) (heap b) (next b) (bestNode b) (index b) (depNodes b)
  (threadTips b) (lastKeyID b) (totalSupply b) (adminKeySets b) (aspKeyIdMap b) x y z (nextCheckpoint b)
  (checkpointBlock b) (stateSnapshot b) (noVerify b) (hashCache b).
Definition set_checkpoint (b : BlockChain) x y := mkBlockChain (db b) (heap b) (next b) (bestNode b) (index b) (depNodes b)
  (threadTips b) (lastKeyID b) (totalSupply b) (adminKeySets b) (aspKeyIdMap b) (orphans b) (prevOrphans b) (oldestOrphan b) x y
  (stateSnapshot b) (noVerify b) (hashCache b).
Definition set_snapshot (b : BlockChain) x := mkBlockChain (db b) (heap b) (next b) (bestNode b) (index b) (depNodes b)
  (threadTips b) (lastKeyID b) (totalSupply b) (adminKeySets b) (aspKeyIdMap b) (orphans b) (prevOrphans b) (oldestOrphan b)
  (nextCheckpoint b) (checkpointBlock b) x (noVerify b) (hashCache b).
Definition set_hashCache (b : BlockChain) x := mkBlockChain (db b) (heap b) (next b) (bestNode b) (index b) (depNodes b)
  (threadTips b) (lastKeyID b) (totalSupply b) (adminKeySets b) (aspKeyIdMap b) (orphans b) (prevOrphans b) (oldestOrphan b)
  (nextCheckpoint b) (checkpointBlock b) (stateSnapshot b) (noVerify b) x.
Definition DisableVerify (b : BlockChain) (disable : bool) := mkBlockChain (db b) (heap b) (next b) (bestNode b) (index b) (depNodes b)
  (threadTips b) (lastKeyID b) (totalSupply b) (adminKeySets b) (aspKeyIdMap b) (orphans b) (prevOrphans b) (oldestOrphan b)
  (nextCheckpoint b) (checkpointBlock b) (stateSnapshot b) disable (hashCache b).

(** * Operations *)
Definition M (A : Type) : Type := BlockChain -> BlockChain * res error A.

#[global] Instance M_ret : MRet M := fun A a b => (b, Ok a).
#[global] Instance M_bind : MBind M := fun A B k m b =>
  match m b with
  | (b, Ok a) => k a b
  | (b, Err e) => (b, Err e)
  | (b, Panic) => (b, Panic)
  | (b, Hang) => (b, Hang)
  end.

Definition lift {A} (r : res error A) : M A := fun b => (b, r).
Definition gets {A} (f : BlockChain -> A) : M A := fun b => (b, Ok (f b)).
Definition modify (f : BlockChain -> BlockChain) : M unit := fun b => (f b, Ok tt).

(** Going on after an error. *)
Definition catch {A B} (m : M A) (k : A -> M B) (handler : error -> M B) : M B := fun b =>
  match m b with
  | (b, Ok a) => k a b
  | (b, Err e) => handler e b
  | (b, Panic) => (b, Panic)
  | (b, Hang) => (b, Hang)
  end.

(** A function in a transaction that reads. *)
Definition view_db {A} (fn : Database.DB -> res error A) : M A := fun b => (b, fn (db b)).

(** Dereferencing an address of the heap. *)
Definition deref (a : nat) : M blockNode := fun b => (b, match heap b !! a with Some n => Ok n | None => Panic end).
Definition store (a : nat) (n : blockNode) : M unit := modify (fun b => set_heap b (<[a := n]> (heap b)) (next b)).
Definition alloc (n : blockNode) : M nat := fun b => (set_heap b (<[next b := n]> (heap b)) (S (next b)), Ok (next b)).

Definition set_parent (n : blockNode) x := mkBlockNode x (node_children n) (node_hash n) (node_parentHash n) (node_height n)
  (node_workSum n) (node_inMainChain n) (node_version n) (node_bits n) (node_nonce n) (node_timestamp n) (node_merkleRoot n)
  (node_size n) (node_signature n) (node_validatingPubKey n).
Definition set_children (n : blockNode) x := mkBlockNode (node_parent n) x (node_hash n) (node_parentHash n) (node_height n)
  (node_workSum n) (node_inMainChain n) (node_version n) (node_bits n) (node_nonce n) (node_timestamp n) (node_merkleRoot n)
  (node_size n) (node_signature n) (node_validatingPubKey n).
Definition set_workSum (n : blockNode) x := mkBlockNode (node_parent n) (node_children n) (node_hash n) (node_parentHash n)
  (node_height n) x (node_inMainChain n) (node_version n) (node_bits n) (node_nonce n) (node_timestamp n) (node_merkleRoot n)
  (node_size n) (node_signature n) (node_validatingPubKey n).
Definition set_height (n : blockNode) x := mkBlockNode (node_parent n) (node_children n) (node_hash n) (node_parentHash n)
  x (node_workSum n) (node_inMainChain n) (node_version n) (node_bits n) (node_nonce n) (node_timestamp n) (node_merkleRoot n)
  (node_size n) (node_signature n) (node_validatingPubKey n).
Definition set_inMainChain (n : blockNode) x := mkBlockNode (node_parent n) (node_children n) (node_hash n) (node_parentHash n)
  (node_height n) (node_workSum n) x (node_version n) (node_bits n) (node_nonce n) (node_timestamp n) (node_merkleRoot n)
  (node_size n) (node_signature n) (node_validatingPubKey n).

(** * Nodes *)
Definition newBlockNode (blockHeader : BlockHeader) (blockHash : bytes) : blockNode :=
  mkBlockNode None [] blockHash (hdr_PrevBlock blockHeader) (hdr_Height blockHeader) (CalcWork (hdr_Bits blockHeader)) false
    (hdr_Version blockHeader) (hdr_Bits blockHeader) (hdr_Nonce blockHeader) (Unix (hdr_Timestamp blockHeader))
    (hdr_MerkleRoot blockHeader) 0 (replicate 80 0) (hdr_ValidatingPubKey blockHeader).

Definition Header (node : blockNode) : BlockHeader :=
  mkBlockHeader (node_version node) (node_parentHash node) (node_merkleRoot node) (time_Unix (node_timestamp node))
    (node_bits node) (node_height node) (node_size node) (node_nonce node) (node_validatingPubKey node) (node_signature node).

Definition FetchHeader (hash : bytes) : M BlockHeader := fun b =>
  match index b !! hash with
  | Some a => (node ← deref a; mret (Header node)) b
  | None => view_db (fun db => dbFetchHeaderByHash db hash) b
  end.

(** The first child with the hash is removed; a nil node removes nothing. *)
Fixpoint removeChildNode (h : gmap nat blockNode) (children : list nat) (node : option blockNode) : res error (list nat) :=
  match node, children with
  | None, _ => Ok children
  | Some n, [] => Ok []
  | Some n, c :: rest =>
      match h !! c with
      | None => Panic
      | Some cn =>
          if bool_decide (node_hash cn = node_hash n) then Ok rest
          else rest ← removeChildNode h rest node; Ok (c :: rest)
      end
  end.

Definition newBestState (node : blockNode) (blockSize numTxns totalTxns : Z) (medianTime : Time) : BestState :=
  mkBestState (node_hash node) (node_height node) (node_bits node) blockSize numTxns totalTxns medianTime.

(** ** Loading *)
Fixpoint adopt (a : nat) (childNodes : list nat) : M unit :=
  match childNodes with
  | [] => mret tt
  | c :: rest =>
      childNode ← deref c;
      _ ← store c (set_parent childNode (Some a));
      node ← deref a;
      _ ← store a (set_children node (node_children node ++ [c]));
      adopt a rest
  end.

Definition loadBlockNode (hash : bytes) : M nat :=
  blockHeader ← view_db (fun db => dbFetchHeaderByHash db hash);
  let node := set_inMainChain (newBlockNode blockHeader hash) true in
  let prevHash := hdr_PrevBlock blockHeader in
  idx_map ← gets index;
  deps ← gets depNodes;
  a ←
    match idx_map !! prevHash with
    | Some p =>
        parentNode ← deref p;
        a ← alloc (set_parent (set_workSum node (node_workSum parentNode + node_workSum node)) (Some p));
        parentNode ← deref p;
        _ ← store p (set_children parentNode (node_children parentNode ++ [a]));
        mret a
    | None =>
        match deps !! hash with
        | Some childNodes =>
            c ← lift (idx childNodes 0);
            childNode ← deref c;
            a ← alloc (set_workSum node (node_workSum childNode - node_workSum node));
            _ ← adopt a childNodes;
            mret a
        | None => lift (Err (AssertError "loadBlockNode: attempt to insert orphan block"))
        end
    end;
  _ ← modify (fun b => set_index b (<[hash := a]> (index b)) (<[prevHash := default [] (depNodes b !! prevHash) ++ [a]]> (depNodes b)));
  mret a.

Section chain.
Context (chainParams : Params).

Definition getPrevNodeFromBlock (block : MsgBlock.MsgBlock) : M (option nat) := fun b =>
  let prevHash := hdr_PrevBlock (MsgBlock.msg_Header block) in
  if bool_decide (prevHash = zeroHash) then (b, Ok None)
  else match index b !! prevHash with
       | Some bn => (b, Ok (Some bn))
       | None => (a ← loadBlockNode prevHash; mret (Some a)) b
       end.

Definition getPrevNodeFromNode (a : nat) : M (option nat) :=
  node ← deref a;
  match node_parent node with
  | Some p => mret (Some p)
  | None =>
      if bool_decide (node_hash node = GenesisHash chainParams) || (node_height node =? 0) then mret None
      else p ← loadBlockNode (node_parentHash node); mret (Some p)
  end.

Fixpoint relative_loop (iterNode : nat) (distance : nat) : M nat :=
  match distance with
  | O => mret iterNode
  | S distance =>
      node ← deref iterNode;
      match node_parent node with
      | Some p => relative_loop p distance
      | None =>
          if bool_decide (node_hash node = GenesisHash chainParams) then mret iterNode
          else p ← loadBlockNode (node_parentHash node); relative_loop p distance
      end
  end.

Definition relativeNode (anchor : nat) (distance : Z) : M nat := relative_loop anchor (Z.to_nat distance).

(** An error ends the loop and is dropped. *)
Fixpoint majority_loop (n : nat) (minVer numRequired numFound : Z) (iterNode : option nat) : M Z :=
  match n with
  | O => mret numFound
  | S n =>
      match iterNode with
      | Some a =>
          if numFound <? numRequired then
            node ← deref a;
            let numFound := if minVer <=? node_version node then u64 (numFound + 1) else numFound in
            catch (getPrevNodeFromNode a) (majority_loop n minVer numRequired numFound) (fun _ => mret numFound)
          else mret numFound
      | None => mret numFound
      end
  end.

Definition isMajorityVersion (minVer : Z) (startNode : option nat) (numRequired : Z) : M bool :=
  numFound ← majority_loop (Z.to_nat (BlockUpgradeNumToCheck chainParams)) minVer numRequired 0 startNode;
  mret (numRequired <=? numFound).

Definition medianTimeBlocks : nat := 11.

Fixpoint timestamps_loop (n : nat) (iterNode : option nat) : M (list Z) :=
  match n, iterNode with
  | S n, Some a =>
      node ← deref a;
      prev ← getPrevNodeFromNode a;
      ts ← timestamps_loop n prev;
      mret (node_timestamp node :: ts)
  | _, _ => mret []
  end.

Definition calcPastMedianTime (startNode : option nat) : M Time :=
  match startNode with
  | None => mret (hdr_Timestamp (MsgBlock.msg_Header (GenesisBlock chainParams)))
  | Some _ =>
      timestamps ← timestamps_loop medianTimeBlocks startNode;
      medianTimestamp ← lift (idx (merge_sort Z.le timestamps) (Z.quot (len timestamps) 2));
      mret (time_Unix medianTimestamp)
  end.

(** ** Relative lock times *)

Fixpoint lock_loop (utxoView : UtxoViewpoint) (nextHeight : Z) (ins : list TxIn) (sequenceLock : SequenceLock) : M SequenceLock :=
  match ins with
  | [] => mret sequenceLock
  | txIn :: rest =>
      match LookupEntry utxoView (Hash (PreviousOutPoint txIn)) with
      | None => lift (ruleError ErrMissingTx)
      | Some utxo =>
          let inputHeight := if ent_blockHeight utxo =? 0x7fffffff then nextHeight else ent_blockHeight utxo in
          let sequenceNum := Sequence txIn in
          let relativeLock := Z.land sequenceNum SequenceLockTimeMask in
          if Z.land sequenceNum SequenceLockTimeDisabled =? SequenceLockTimeDisabled then
            lock_loop utxoView nextHeight rest sequenceLock
          else if Z.land sequenceNum SequenceLockTimeIsSeconds =? SequenceLockTimeIsSeconds then
            best ← gets bestNode;
            bn ← deref best;
            let inputDepth := u32 (u32 (node_height bn - inputHeight) + 1) in
            blockNode ← relativeNode best inputDepth;
            medianTime ← calcPastMedianTime (Some blockNode);
            let timeLockSeconds := i64 (relativeLock ≪ SequenceLockTimeGranularity) - 1 in
            let timeLock := i64 (Unix medianTime + timeLockSeconds) in
            lock_loop utxoView nextHeight rest
              (if lock_Seconds sequenceLock <? timeLock then mkSequenceLock timeLock (lock_BlockHeight sequenceLock) else sequenceLock)
          else
            let blockHeight := i32 (i32 inputHeight + i32 (relativeLock - 1)) in
            lock_loop utxoView nextHeight rest
              (if lock_BlockHeight sequenceLock <? blockHeight then mkSequenceLock (lock_Seconds sequenceLock) blockHeight else sequenceLock)
      end
  end.

Definition calcSequenceLock (tx : MsgTx) (utxoView : UtxoViewpoint) (mempool : bool) : M SequenceLock :=
  let sequenceLock := mkSequenceLock (-1) (-1) in
  let sequenceLockActive := (2 <=? tx_Version tx) && (mempool || true) in
  if negb sequenceLockActive || IsCoinBase tx then mret sequenceLock
  else
    snapshot ← gets stateSnapshot;
    let nextHeight := u32 (snap_Height snapshot + 1) in
    lock_loop utxoView nextHeight (tx_TxIn tx) sequenceLock.

Definition LockTimeToSequence (isSeconds : bool) (locktime : Z) : Z :=
  if negb isSeconds then locktime
  else Z.lor SequenceLockTimeIsSeconds (locktime ≫ SequenceLockTimeGranularity).

(** ** The difficulty *)
Fixpoint difficulty_loop (n : nat) (firstNode : option nat) (avgDifficulty : Z) : M (option nat * Z) :=
  match n, firstNode with
  | S n, Some a =>
      node ← deref a;
      prev ← getPrevNodeFromNode a;
      difficulty_loop n prev (avgDifficulty + CompactToBig (node_bits node))
  | _, _ => mret (firstNode, avgDifficulty)
  end.

Definition calcEasiestDifficulty (bits duration : Z) : Z := PowLimitBits chainParams.

(** A division by a window of zero panics; [Div] rounds towards minus infinity for
    a positive divisor. *)
Definition calcNextRequiredDifficulty (lastNode : option nat) : M Z :=
  match lastNode with
  | None => mret (PowLimitBits chainParams)
  | Some _ =>
      '(firstNode, avgDifficulty) ← difficulty_loop (Z.to_nat (PowAveragingWindow chainParams)) lastNode 0;
      match firstNode with
      | None => mret (PowLimitBits chainParams)
      | Some _ =>
          if PowAveragingWindow chainParams =? 0 then lift Panic
          else
            medianFirstNodeTime ← calcPastMedianTime firstNode;
            medianLastNodeTime ← calcPastMedianTime lastNode;
            lift (other (nextRequiredDifficulty chainParams medianFirstNodeTime medianLastNodeTime
                    (avgDifficulty / PowAveragingWindow chainParams)))
      end
  end.

Definition CalcNextRequiredDifficulty : M Z := best ← gets bestNode; calcNextRequiredDifficulty (Some best).

(** ** Rate limits *)
Fixpoint share_loop (validatePubKey : bytes) (prevPubKeys : list bytes) (maxBlocks blockCount : Z) : bool :=
  match prevPubKeys with
  | [] => false
  | key :: rest =>
      let blockCount := if bool_decide (key = validatePubKey) then blockCount + 1 else blockCount in
      if maxBlocks <=? blockCount then true else share_loop validatePubKey rest maxBlocks blockCount
  end.

Definition IsGenerationShareRateLimited (validatePubKey : bytes) (prevPubKeys : list bytes) (maxBlocks : Z)
    (prospectiveInclusion : bool) (lastValidatePubKey : bytes) : bool :=
  let blockCount := if prospectiveInclusion && bool_decide (validatePubKey = lastValidatePubKey) then 1 else 0 in
  share_loop validatePubKey prevPubKeys maxBlocks blockCount.

Fixpoint pubkeys_loop (n : nat) (iterNode : option nat) : M (list bytes) :=
  match n, iterNode with
  | S n, Some a =>
      prev ← getPrevNodeFromNode a;
      match prev with
      | Some p =>
          node ← deref p;
          keys ← pubkeys_loop n prev;
          mret (node_validatingPubKey node :: keys)
      | None => mret []
      end
  | _, _ => mret []
  end.

Definition isValidateKeyRateLimited (a : nat) (validatePubKey : bytes) (prospectiveInclusion : bool) : M bool :=
  if ChainWindowMaxBlocks chainParams =? 0 then mret false
  else
    node ← deref a;
    let window := if prospectiveInclusion then PowAveragingWindow chainParams - 1 else PowAveragingWindow chainParams in
    prevPubKeys ← pubkeys_loop (Z.to_nat window) (Some a);
    mret (IsGenerationShareRateLimited validatePubKey prevPubKeys (ChainWindowMaxBlocks chainParams) prospectiveInclusion
            (node_validatingPubKey node)).

Definition IsValidateKeyRateLimited (validatePubKey : bytes) : M bool :=
  best ← gets bestNode; isValidateKeyRateLimited best validatePubKey true.

(** ** Side chains *)

(** Following the parents; the fuel is the number of nodes. *)
Fixpoint attach_loop (fuel : nat) (h : gmap nat blockNode) (ancestor : nat) (attachNodes : list nat) : res error (nat * list nat) :=
  match fuel with
  | O => Hang
  | S fuel =>
      match h !! ancestor with
      | None => Panic
      | Some n =>
          match node_parent n with
          | None => Ok (ancestor, attachNodes)
          | Some p =>
              if node_inMainChain n then Ok (ancestor, attachNodes)
              else attach_loop fuel h p (ancestor :: attachNodes)
          end
      end
  end.

Fixpoint detach_loop (fuel : nat) (h : gmap nat blockNode) (ancestorHash : bytes) (n : nat) : res error (list nat) :=
  match fuel with
  | O => Hang
  | S fuel =>
      match h !! n with
      | None => Panic
      | Some node =>
          match node_parent node with
          | None => Ok []
          | Some p =>
              if bool_decide (node_hash node = ancestorHash) then Ok []
              else rest ← detach_loop fuel h ancestorHash p; Ok (n :: rest)
          end
      end
  end.

Definition getReorganizeNodes (node : option nat) : M (list nat * list nat) := fun b =>
  match node with
  | None => (b, Ok ([], []))
  | Some a =>
      (b, '(ancestor, attachNodes) ← attach_loop (S (size (heap b))) (heap b) a [];
          match heap b !! ancestor with
          | None => Panic
          | Some n =>
              detachNodes ← detach_loop (S (size (heap b))) (heap b) (node_hash n) (bestNode b);
              Ok (detachNodes, attachNodes)
          end)
  end.
End chain.

End Node.
