(* ===== verification/BlockRules.v ===== *)
(** The rules for blocks: the rest of [src/blockchain/validate.go], and
    [src/blockchain/checkpoints.go].

    The configuration is a parameter: the network, the checkpoints and the result
    of one run of the script validation, whose possible results [ScriptVal]
    gives.  A view that the code passes by pointer is an argument and a result;
    after an error it is not used. *)
From S2P Require Import Prelude PubKey Wire Crypto Script Standard SigCache Engine Utxo GoTime Header MsgBlock Merkle.
From S2P Require Import Database Params Difficulty KeyView Validate ChainIO Node ScriptVal.
Import btcec wire Crypto Script Standard Engine Utxo GoTime Header Params Difficulty Validate ChainIO Node ScriptVal.
#[local] Open Scope Z_scope.

Module BlockRules.

(** * Flags *)
Definition BFFastAdd : Z := 1 ≪ 0.
Definition BFNoPoWCheck : Z := 1 ≪ 1.
Definition BFDryRun : Z := 1 ≪ 2.
Definition BFNone : Z := 0.

Definition has_flag (flags flag : Z) : bool := Z.land flags flag =? flag.

Definition CheckpointConfirmations : Z := 2016.
Definition Bip16Activation : Z := 1333238400.

Section rules.
Context `{Primitives} `{PowHash}.

(** * The sanity of a block *)
Definition checkProofOfWork (header : BlockHeader) (powLimit flags : Z) : res error unit :=
  let target := CompactToBig (hdr_Bits header) in
  if target <=? 0 then ruleError ErrUnexpectedDifficulty
  else if powLimit <? target then ruleError ErrUnexpectedDifficulty
  else if negb (has_flag flags BFNoPoWCheck) && (1 <=? hdr_Height header) then
    hashNum ← other (HashToBig (Header.BlockHash header));
    if target <? hashNum then ruleError ErrHighHash else Ok tt
  else Ok tt.

Definition CheckProofOfWork (block : MsgBlock.MsgBlock) (powLimit : Z) : res error unit :=
  checkProofOfWork (MsgBlock.msg_Header block) powLimit BFNone.

Definition checkBlockHeaderSanity (header : BlockHeader) (powLimit flags : Z) : res error unit :=
  _ ← checkProofOfWork header powLimit flags;
  if negb (Equal (hdr_Timestamp header) (time_Unix (Unix (hdr_Timestamp header)))) then ruleError ErrInvalidTime else Ok tt.

Fixpoint check_sanity (txs : list MsgTx) : res error unit :=
  match txs with
  | [] => Ok tt
  | tx :: rest => _ ← CheckTransactionSanity tx; check_sanity rest
  end.

Fixpoint duplicate_hash (existingTxHashes : gset bytes) (txs : list MsgTx) : bool :=
  match txs with
  | [] => false
  | tx :: rest =>
      let hash := SigCache.TxHash tx in
      if bool_decide (hash ∈ existingTxHashes) then true else duplicate_hash ({[hash]} ∪ existingTxHashes) rest
  end.

(** The counts are Go's int. *)
Fixpoint sigops_loop (totalSigOps : Z) (txs : list MsgTx) : res error unit :=
  match txs with
  | [] => Ok tt
  | tx :: rest =>
      let lastSigOps := totalSigOps in
      let totalSigOps := i64 (totalSigOps + CountSigOps tx) in
      if (totalSigOps <? lastSigOps) || (MaxSigOpsPerBlock <? totalSigOps) then ruleError ErrTooManySigOps
      else sigops_loop totalSigOps rest
  end.

Definition checkBlockSanity (msgBlock : MsgBlock.MsgBlock) (powLimit flags : Z) : res error unit :=
  let header := MsgBlock.msg_Header msgBlock in
  let transactions := MsgBlock.msg_Transactions msgBlock in
  _ ← checkBlockHeaderSanity header powLimit flags;
  let numTx := len transactions in
  if numTx =? 0 then ruleError ErrNoTransactions
  else if MsgBlock.MaxBlockPayload <? numTx then ruleError ErrTooManyTransactions
  else
    let serializedSize := MsgBlock.SerializeSize msgBlock in
    if negb (serializedSize =? hdr_Size header) then ruleError ErrInconsistentBlkSize
    else if MsgBlock.MaxBlockPayload <? serializedSize then ruleError ErrBlockTooBig
    else
      first ← idx transactions 0;
      if negb (IsCoinBase first) then ruleError ErrFirstTxNotCoinbase
      else
        rest ← slice transactions 1 (len transactions);
        if existsb IsCoinBase rest then ruleError ErrMultipleCoinbases
        else
          _ ← check_sanity transactions;
          root ← other (Merkle.merkle_root transactions);
          if negb (bool_decide (root = Some (hdr_MerkleRoot header))) then ruleError ErrBadMerkleRoot
          else if duplicate_hash ∅ transactions then ruleError ErrDuplicateTx
          else sigops_loop 0 transactions.

Definition CheckBlockSanity (msgBlock : MsgBlock.MsgBlock) (powLimit : Z) : res error unit := checkBlockSanity msgBlock powLimit BFNone.

(** * Checkpoints *)
Section chain.
Context (chainParams : Params) (checkpoints : list Checkpoint).

Definition HasCheckpoints : bool := 0 <? len checkpoints.

Definition LatestCheckpoint : option Checkpoint := if negb HasCheckpoints then None else last checkpoints.

(** The map that [New] builds: a later checkpoint replaces an earlier one. *)
Definition checkpointsByHeight : gmap Z Checkpoint :=
  fold_left (fun m c => <[cp_Height c := c]> m) checkpoints ∅.

Definition verifyCheckpoint (height : Z) (hash : bytes) : bool :=
  if negb HasCheckpoints then true
  else match checkpointsByHeight !! height with
       | None => true
       | Some checkpoint => bool_decide (cp_Hash checkpoint = hash)
       end.

(** The last checkpoint from position [n - 1] down whose hash satisfies [f]. *)
Fixpoint last_index (f : bytes -> res error bool) (n : nat) : res error Z :=
  match n with
  | O => Ok (-1)
  | S n =>
      checkpoint ← idx checkpoints (Z.of_nat n);
      found ← f (cp_Hash checkpoint);
      if (found : bool) then Ok (Z.of_nat n) else last_index f n
  end.

Definition next_after (checkpointIndex : Z) : res error (option Checkpoint) :=
  if negb (checkpointIndex =? -1) && (checkpointIndex <? len checkpoints - 1)
  then c ← idx checkpoints (checkpointIndex + 1); Ok (Some c) else Ok None.

Definition findPreviousCheckpoint : M (option MsgBlock.Block) := 
  if negb HasCheckpoints then mret None
  else
    block ← gets checkpointBlock;
    nxt ← gets nextCheckpoint;
    match block, nxt with
    | None, None =>
        checkpointIndex ← view_db (fun db => last_index (dbMainChainHasBlock db) (length checkpoints));
        if checkpointIndex =? -1 then
          c ← lift (idx checkpoints 0);
          _ ← modify (fun b => set_checkpoint b (Some c) (checkpointBlock b));
          mret None
        else
          checkpoint ← lift (idx checkpoints checkpointIndex);
          block ← view_db (fun db => dbFetchBlockByHash db (cp_Hash checkpoint));
          c ← lift (next_after checkpointIndex);
          _ ← modify (fun b => set_checkpoint b c (Some block));
          mret (Some block)
    | _, None => mret block
    | _, Some c =>
        best ← gets bestNode;
        bn ← deref best;
        if node_height bn <? cp_Height c then mret block
        else
          block ← view_db (fun db => dbFetchBlockByHash db (cp_Hash c));
          _ ← modify (fun b => set_checkpoint b (nextCheckpoint b) (Some block));
          checkpointIndex ← lift (last_index (fun hash => Ok (bool_decide (hash = cp_Hash c))) (length checkpoints));
          c ← lift (next_after checkpointIndex);
          _ ← modify (fun b => set_checkpoint b c (checkpointBlock b));
          mret (Some block)
    end.

Definition isNonstandardTransaction (tx : MsgTx) : bool :=
  existsb (fun txOut => bool_decide (GetScriptClass (PkScript txOut) = NonStandardTy)) (tx_TxOut tx).

(** The heights are unsigned: near the start of the chain the subtraction wraps. *)
Definition IsCheckpointCandidate (block : MsgBlock.MsgBlock) : M bool :=
  best ← gets bestNode;
  bn ← deref best;
  view_db (fun db =>
    match dbFetchHeightByHash db (MsgBlock.BlockHash block) with
    | Err e => if negb (isNotInMainChainErr e) then Err e else Ok false
    | Panic => Panic
    | Hang => Hang
    | Ok blockHeight =>
        if negb (blockHeight =? hdr_Height (MsgBlock.msg_Header block))
        then Err (OtherError "passed block height does not match the main chain height")
        else if u32 (node_height bn - CheckpointConfirmations) <? blockHeight then Ok false
        else
          prevHeader ← dbFetchHeaderByHash db (hdr_PrevBlock (MsgBlock.msg_Header block));
          nextHeader ← dbFetchHeaderByHeight db (u32 (blockHeight + 1));
          let curTime := hdr_Timestamp (MsgBlock.msg_Header block) in
          if After (hdr_Timestamp prevHeader) curTime || After curTime (hdr_Timestamp nextHeader) then Ok false
          else Ok (negb (existsb isNonstandardTransaction (MsgBlock.msg_Transactions block)))
    end).

(** * The context of a block *)
Definition too_old (minVer : Z) (header : BlockHeader) (prevNode : nat) : M unit :=
  if hdr_Version header <? minVer then
    majority ← isMajorityVersion chainParams minVer (Some prevNode) (BlockRejectNumRequired chainParams);
    if majority : bool then lift (ruleError ErrBlockVersionTooOld) else mret tt
  else mret tt.

(** A key that does not parse is an error of package btcec. *)
Definition parse_key (b : bytes) : res error PublicKey :=
  match ParsePubKey b with Ok k => Ok k | Err _ => Err (OtherError "invalid public key") | Panic => Panic | Hang => Hang end.

Definition checkBlockHeaderContext (header : BlockHeader) (prevNode : option nat) (flags : Z) : M unit :=
  match prevNode with
  | None => mret tt
  | Some prev =>
      let fastAdd := has_flag flags BFFastAdd in
      _ ← (if negb fastAdd then
             expectedDifficulty ← calcNextRequiredDifficulty chainParams prevNode;
             if negb (hdr_Bits header =? expectedDifficulty) then lift (ruleError ErrUnexpectedDifficulty)
             else
               medianTime ← calcPastMedianTime chainParams prevNode;
               if negb (After (hdr_Timestamp header) medianTime) then lift (ruleError ErrTimeTooOld)
               else
                 pubKey ← lift (parse_key (hdr_ValidatingPubKey header));
                 good ← lift (other (Header.Verify header pubKey));
                 if negb good then lift (ruleError ErrBadBlockSignature) else mret tt
           else mret tt);
      node ← deref prev;
      let blockHeight := u32 (node_height node + 1) in
      if negb (hdr_Height header =? blockHeight) then lift (ruleError ErrBadHeight)
      else if negb (verifyCheckpoint blockHeight (Header.BlockHash header)) then lift (ruleError ErrBadCheckpoint)
      else
        checkpointBlock ← findPreviousCheckpoint;
        if match checkpointBlock with
           | Some c => blockHeight <? hdr_Height (MsgBlock.msg_Header (MsgBlock.msgBlock c))
           | None => false
           end
        then lift (ruleError ErrForkTooOld)
        else if negb fastAdd then
          _ ← too_old 4 header prev;
          _ ← too_old 3 header prev;
          too_old 2 header prev
        else mret tt
  end.

Definition checkBlockContext (block : MsgBlock.MsgBlock) (prevNode : option nat) (flags : Z) : M unit :=
  match prevNode with
  | None => mret tt
  | Some prev =>
      let header := MsgBlock.msg_Header block in
      _ ← checkBlockHeaderContext header prevNode flags;
      if negb (has_flag flags BFFastAdd) then
        node ← deref prev;
        let blockHeight := u32 (node_height node + 1) in
        if forallb (fun tx => IsFinalizedTransaction tx blockHeight (Unix (hdr_Timestamp header))) (MsgBlock.msg_Transactions block)
        then mret tt else lift (ruleError ErrUnfinalizedTx)
      else mret tt
  end.

(** * Connecting a block *)
Definition checkBIP0030 (db : Database.DB) (txs : list MsgTx) (view : UtxoViewpoint) : res error UtxoViewpoint :=
  view ← fetchUtxos view db (list_to_set (map SigCache.TxHash txs));
  if existsb (fun tx => match LookupEntry view (SigCache.TxHash tx) with
                        | Some txEntry => negb (IsFullySpent txEntry)
                        | None => false
                        end) txs
  then ruleError ErrOverwriteTx
  else Ok view.

Fixpoint connect_sigops (enforceBIP0016 : bool) (i totalSigOps : Z) (utxoView : UtxoViewpoint) (txs : list MsgTx)
    : res error UtxoViewpoint :=
  match txs with
  | [] => Ok utxoView
  | tx :: rest =>
      let numsigOps := CountSigOps tx in
      '(numsigOps, utxoView) ←
        (if enforceBIP0016 then
           '(numP2SHSigOps, utxoView) ← CountP2SHSigOps tx (i =? 0) utxoView;
           Ok (i64 (numsigOps + numP2SHSigOps), utxoView)
         else Ok (numsigOps, utxoView));
      let lastSigops := totalSigOps in
      let totalSigOps := i64 (totalSigOps + numsigOps) in
      if (totalSigOps <? lastSigops) || (MaxSigOpsPerBlock <? totalSigOps) then ruleError ErrTooManySigOps
      else connect_sigops enforceBIP0016 (i + 1) totalSigOps utxoView rest
  end.

(** The transactions one after the other: the inputs are checked and spent, and
    the outputs are checked and added. *)
Fixpoint check_connect_txs (height totalFees : Z) (utxoView : UtxoViewpoint) (keyView : KeyView.KeyViewpoint)
    (stxos : option (list spentTxOut)) (txs : list MsgTx)
    : res error (Z * UtxoViewpoint * KeyView.KeyViewpoint * option (list spentTxOut)) :=
  match txs with
  | [] => Ok (totalFees, utxoView, keyView, stxos)
  | tx :: rest =>
      '(txFee, utxoView) ← CheckTransactionInputs tx height utxoView chainParams;
      let lastTotalFees := totalFees in
      let totalFees := i64 (totalFees + txFee) in
      if totalFees <? lastTotalFees then ruleError ErrBadFees
      else
        _ ← CheckTransactionOutputs tx keyView chainParams;
        '(utxoView, stxos) ← asserted (Utxo.connectTransaction utxoView tx height stxos);
        keyView ← asserted (KeyView.connectTransaction keyView tx height);
        check_connect_txs height totalFees utxoView keyView stxos rest
  end.

(** The result of one run of the script validation, which can panic or run
    forever. *)
Context (run_scripts : txValidator -> list txValidateItem -> res error unit).

Definition checkConnectBlock (a : nat) (msgBlock : MsgBlock.MsgBlock) (utxoView : UtxoViewpoint) (keyView : KeyView.KeyViewpoint)
    (stxos : option (list spentTxOut)) : M (UtxoViewpoint * KeyView.KeyViewpoint * option (list spentTxOut)) :=
  node ← deref a;
  let block := MsgBlock.utxo_block msgBlock in
  let transactions := Transactions block in
  if bool_decide (node_hash node = GenesisHash chainParams) then lift (ruleError ErrMissingTx)
  else if negb (bool_decide (bestHash utxoView = node_parentHash node)) then
    lift (Err (AssertError "inconsistent view when checking block connection"))
  else
    utxoView ← view_db (fun db => checkBIP0030 db transactions utxoView);
    utxoView ← view_db (fun db => fetchInputUtxos utxoView db block);
    let enforceBIP0016 := Bip16Activation <=? node_timestamp node in
    utxoView ← lift (connect_sigops enforceBIP0016 0 0 utxoView transactions);
    '(totalFees, utxoView, keyView, stxos) ← lift (check_connect_txs (node_height node) 0 utxoView keyView stxos transactions);
    coinbase ← lift (idx transactions 0);
    let totalAtomsOut := atoms_out (tx_TxOut coinbase) in
    let expectedAtomsOut := i64 (CalcBlockSubsidy (node_height node) chainParams + totalFees) in
    if negb (totalAtomsOut =? expectedAtomsOut) then lift (ruleError ErrBadCoinbaseValue)
    else
      noVerify ← gets noVerify;
      let runScripts := match LatestCheckpoint with
                        | Some checkpoint => if node_height node <=? cp_Height checkpoint then false else negb noVerify
                        | None => negb noVerify
                        end in
      prevNode ← getPrevNodeFromNode chainParams a;
      let scriptFlags := if enforceBIP0016 then ScriptBip16 else 0 in
      let blockHeader := MsgBlock.msg_Header msgBlock in
      der ← (if 3 <=? hdr_Version blockHeader
             then isMajorityVersion chainParams 3 prevNode (BlockEnforceNumRequired chainParams) else mret false);
      let scriptFlags := if der : bool then Z.lor scriptFlags ScriptVerifyDERSignatures else scriptFlags in
      let validateKeySet := KeyView.key_set keyView ValidateKeySet in
      pubKey ← lift (parse_key (hdr_ValidatingPubKey blockHeader));
      pos ← lift (Pos validateKeySet (Some pubKey));
      if (0 <? len validateKeySet) && (pos =? -1) then lift (ruleError ErrInvalidValidateKey)
      else
        cltv ← (if 4 <=? hdr_Version blockHeader
                then isMajorityVersion chainParams 4 prevNode (BlockEnforceNumRequired chainParams) else mret false);
        let scriptFlags := if cltv : bool then Z.lor scriptFlags ScriptVerifyCheckLockTimeVerify else scriptFlags in
        isRateLimited ← isValidateKeyRateLimited chainParams a (hdr_ValidatingPubKey blockHeader) false;
        if isRateLimited : bool then lift (ruleError ErrExcessiveChainShare)
        else
          hc ← gets hashCache;
          let '(hc', items) := block_items hc transactions in
          _ ← (if runScripts then
                 _ ← modify (fun b => set_hashCache b hc');
                 lift (run_scripts (mkTxValidator utxoView keyView scriptFlags) items)
               else mret tt);
          mret (SetBestHash utxoView (node_hash node), keyView, stxos).

(** The view of the admin state that the chain has. *)
Definition chain_keyView : M KeyView.KeyViewpoint := fun b =>
  let v := KeyView.NewKeyViewpoint in
  let v := KeyView.SetThreadTips v (threadTips b) in
  let v := KeyView.SetLastKeyID v (lastKeyID b) in
  let v := KeyView.SetTotalSupply v (totalSupply b) in
  let v := KeyView.SetKeys v (Some (adminKeySets b)) in
  (b, asserted (KeyView.SetKeyIDs v (Some (aspKeyIdMap b)))).

(** The node is not kept. *)
Definition CheckConnectBlock (msgBlock : MsgBlock.MsgBlock) : M unit :=
  best ← gets bestNode;
  prevNode ← deref best;
  let newNode := newBlockNode (MsgBlock.msg_Header msgBlock) (MsgBlock.BlockHash msgBlock) in
  a ← alloc (set_workSum (set_parent newNode (Some best)) (node_workSum prevNode + node_workSum newNode));
  keyView ← chain_keyView;
  _ ← checkConnectBlock a msgBlock (SetBestHash NewUtxoViewpoint (node_hash prevNode)) keyView None;
  mret tt.
End chain.
End rules.

End BlockRules.
