(* ===== verification/Chain.v ===== *)
(** The main chain: connecting and disconnecting blocks and reorganizing in
    [src/blockchain/chain.go], accepting blocks in [src/blockchain/accept.go],
    processing blocks and orphans in [src/blockchain/process.go], and starting
    from the database in [src/blockchain/chainio.go].

    [bestNode] is nil where it is 0, an address that is never allocated.
    Notifications and log messages are left out.  The clock is read once in an
    operation. *)
From S2P Require Import Prelude PubKey Wire Crypto Script Standard SigCache Engine Utxo GoTime Header MsgBlock Merkle.
From S2P Require Import Database Params Difficulty KeyView Validate ChainIO Node ScriptVal BlockRules.
Import btcec wire Crypto Utxo GoTime Header Params Validate ChainIO Node ScriptVal BlockRules.
#[local] Open Scope Z_scope.

Module Chain.

(** The indexes that are kept beside the chain, in buckets of their own.  [im_Init]
    is their start on a chain, which may stop half way. *)
Record IndexManager := mkIndexManager {
  im_Init : BlockChain -> Database.DB * res error unit;
  im_ConnectBlock : Database.DB -> MsgBlock.MsgBlock -> UtxoViewpoint -> res error Database.DB;
  im_DisconnectBlock : Database.DB -> MsgBlock.MsgBlock -> UtxoViewpoint -> res error Database.DB;
  im_keeps : forall db db' block view,
    ((exists b r, Node.db b = db /\ im_Init b = (db', r)) \/ im_ConnectBlock db block view = Ok db' \/
     im_DisconnectBlock db block view = Ok db') ->
    Database.metadata db' = Database.metadata db /\ Database.blocks db' = Database.blocks db /\
    forall name, name ∈ [hashIndexBucketName; heightIndexBucketName; spendJournalBucketName; utxoSetBucketName] ->
      Database.buckets db' !! name = Database.buckets db !! name
}.

Definition maxOrphanBlocks : Z := 1000.

(** A function in a transaction that writes. *)
Definition update_db (fn : Database.DB -> res error Database.DB) : M unit := fun b =>
  let '(db', r) := Database.Update (db b) fn in (set_db b db', r).

Definition dbPutBestState (db : Database.DB) (snapshot : BestState) (workSum : Z) : res error Database.DB :=
  serializedData ← other (serializeBestChainState
    (mkBestChainState (snap_Hash snapshot) (snap_Height snapshot) (snap_TotalTxns snapshot) workSum));
  db_err (Database.Put db chainStateKeyName serializedData).

Section chain.
Context `{Primitives} `{PowHash}.

Definition dbMaybeStoreBlock (db : Database.DB) (block : MsgBlock.Block) : res error Database.DB :=
  if Database.HasBlock db (MsgBlock.BlockHash (MsgBlock.msgBlock block)) then Ok db
  else db_err (Database.StoreBlock db block).

Context (chainParams : Params) (checkpoints : list Checkpoint) (indexManager : option IndexManager)
  (run_scripts : txValidator -> list txValidateItem -> res error unit).

(** * Connecting and disconnecting *)
Definition put_keys_of (db : Database.DB) (keyView : KeyView.KeyViewpoint) : res error Database.DB :=
  dbPutKeySet db (KeyView.adminKeySets keyView) (KeyView.aspKeyIdMap keyView) (KeyView.threadTips keyView)
    (KeyView.lastKeyID keyView) (KeyView.totalSupply keyView).

(** The database after a block is connected. *)
Definition connect_db (node : blockNode) (block : MsgBlock.MsgBlock) (utxoView : UtxoViewpoint) (keyView : KeyView.KeyViewpoint)
    (stxos : list spentTxOut) (state : BestState) (db : Database.DB) : res error Database.DB :=
  db ← dbPutBestState db state (node_workSum node);
  db ← dbPutBlockIndex db (MsgBlock.BlockHash block) (node_height node);
  db ← dbPutUtxoView db utxoView;
  db ← put_keys_of db keyView;
  db ← dbPutSpendJournalEntry db (MsgBlock.BlockHash block) stxos;
  match indexManager with Some im => im_ConnectBlock im db block utxoView | None => Ok db end.

Definition connectBlock (a : nat) (block : MsgBlock.MsgBlock) (utxoView : UtxoViewpoint) (keyView : KeyView.KeyViewpoint)
    (stxos : list spentTxOut) : M UtxoViewpoint :=
  best ← gets bestNode;
  bn ← deref best;
  let prevHash := hdr_PrevBlock (MsgBlock.msg_Header block) in
  if negb (bool_decide (prevHash = node_hash bn)) then
    lift (Err (AssertError "connectBlock must be called with a block that extends the main chain"))
  else
    n ← lift (asserted (countSpentOutputs (MsgBlock.utxo_block block)));
    if negb (len stxos =? n) then
      lift (Err (AssertError "connectBlock called with inconsistent spent transaction out information"))
    else
      medianTime ← calcPastMedianTime chainParams (Some a);
      snapshot ← gets stateSnapshot;
      node ← deref a;
      let numTxns := len (MsgBlock.msg_Transactions block) in
      let blockSize := MsgBlock.SerializeSize block in
      let state := newBestState node blockSize numTxns (u64 (snap_TotalTxns snapshot + numTxns)) medianTime in
      _ ← update_db (connect_db node block utxoView keyView stxos state);
      _ ← store a (set_inMainChain node true);
      _ ← modify (fun b => set_index b (<[node_hash node := a]> (index b))
                            (<[prevHash := default [] (depNodes b !! prevHash) ++ [a]]> (depNodes b)));
      _ ← modify (fun b => set_bestNode b a);
      _ ← modify (fun b => set_admin b (KeyView.threadTips keyView) (KeyView.lastKeyID keyView) (KeyView.totalSupply keyView)
                            (KeyView.adminKeySets keyView) (KeyView.aspKeyIdMap keyView));
      _ ← modify (fun b => set_snapshot b state);
      mret (commit utxoView).

(** The database after a block is disconnected; the work sum is that of the block. *)
Definition disconnect_db (node : blockNode) (block : MsgBlock.MsgBlock) (utxoView : UtxoViewpoint) (keyView : KeyView.KeyViewpoint)
    (state : BestState) (db : Database.DB) : res error Database.DB :=
  db ← dbPutBestState db state (node_workSum node);
  db ← put_keys_of db keyView;
  db ← dbRemoveBlockIndex db (MsgBlock.BlockHash block) (node_height node);
  db ← dbPutUtxoView db utxoView;
  db ← dbRemoveSpendJournalEntry db (MsgBlock.BlockHash block);
  match indexManager with Some im => im_DisconnectBlock im db block utxoView | None => Ok db end.

(** The admin state in memory is left as it is. *)
Definition disconnectBlock (a : nat) (block : MsgBlock.MsgBlock) (utxoView : UtxoViewpoint) (keyView : KeyView.KeyViewpoint)
    : M UtxoViewpoint :=
  best ← gets bestNode;
  bn ← deref best;
  node ← deref a;
  if negb (bool_decide (node_hash node = node_hash bn)) then
    lift (Err (AssertError "disconnectBlock must be called with the block at the end of the main chain"))
  else
    prevNode ← getPrevNodeFromNode chainParams a;
    medianTime ← calcPastMedianTime chainParams prevNode;
    match prevNode with
    | None => lift Panic
    | Some p =>
        prev ← deref p;
        prevBlock ← view_db (fun db => dbFetchBlockByHash db (node_hash prev));
        snapshot ← gets stateSnapshot;
        node ← deref a;
        let numTxns := len (MsgBlock.msg_Transactions (MsgBlock.msgBlock prevBlock)) in
        let blockSize := MsgBlock.SerializeSize (MsgBlock.msgBlock prevBlock) in
        let newTotalTxns := u64 (snap_TotalTxns snapshot - len (MsgBlock.msg_Transactions block)) in
        let state := newBestState prev blockSize numTxns newTotalTxns medianTime in
        _ ← update_db (disconnect_db node block utxoView keyView state);
        _ ← store a (set_inMainChain node false);
        _ ← modify (fun b => set_bestNode b (default 0%nat (node_parent node)));
        _ ← modify (fun b => set_snapshot b state);
        mret (commit utxoView)
    end.

(** * Reorganizing *)

(** The views as if the blocks were disconnected, the last block first. *)
Fixpoint check_detach (nodes : list nat) (utxoView : UtxoViewpoint) (keyView : KeyView.KeyViewpoint)
    : M (list (MsgBlock.MsgBlock * list spentTxOut) * UtxoViewpoint * KeyView.KeyViewpoint) :=
  match nodes with
  | [] => mret ([], utxoView, keyView)
  | a :: rest =>
      n ← deref a;
      loaded ← view_db (fun db => dbFetchBlockByHash db (node_hash n));
      let block := MsgBlock.msgBlock loaded in
      let ublock := MsgBlock.utxo_block block in
      utxoView ← view_db (fun db => fetchInputUtxos utxoView db ublock);
      stxos ← view_db (fun db => dbFetchSpendJournalEntry db ublock utxoView);
      utxoView ← lift (asserted (Utxo.disconnectTransactions utxoView ublock stxos));
      keyView ← lift (asserted (KeyView.disconnectTransactions keyView ublock));
      '(blocks, utxoView, keyView) ← check_detach rest utxoView keyView;
      mret ((block, stxos) :: blocks, utxoView, keyView)
  end.

(** The rules for the blocks to attach; the records are not asked for. *)
Fixpoint check_attach (nodes : list nat) (utxoView : UtxoViewpoint) (keyView : KeyView.KeyViewpoint)
    : M (list MsgBlock.MsgBlock * KeyView.KeyViewpoint) :=
  match nodes with
  | [] => mret ([], keyView)
  | a :: rest =>
      n ← deref a;
      loaded ← view_db (fun db => blockBytes ← db_err (Database.FetchBlock db (node_hash n)); other (MsgBlock.NewBlockFromBytes blockBytes));
      let block := MsgBlock.msgBlock (MsgBlock.SetHeight loaded (node_height n)) in
      '(utxoView, keyView, _) ← checkConnectBlock chainParams checkpoints run_scripts a block utxoView keyView None;
      '(blocks, keyView) ← check_attach rest utxoView keyView;
      mret (block :: blocks, keyView)
  end.

Fixpoint detach_blocks (nodes : list nat) (blocks : list (MsgBlock.MsgBlock * list spentTxOut)) (utxoView : UtxoViewpoint)
    (keyView : KeyView.KeyViewpoint) : M UtxoViewpoint :=
  match nodes, blocks with
  | a :: nodes, (block, stxos) :: blocks =>
      let ublock := MsgBlock.utxo_block block in
      utxoView ← view_db (fun db => fetchInputUtxos utxoView db ublock);
      utxoView ← lift (asserted (Utxo.disconnectTransactions utxoView ublock stxos));
      utxoView ← disconnectBlock a block utxoView keyView;
      detach_blocks nodes blocks utxoView keyView
  | _, _ => mret utxoView
  end.

(** After the first block, the maps of the chain are those of the view, which the
    next block changes. *)
Definition share_maps (shared : bool) (keyView : KeyView.KeyViewpoint) : M unit :=
  modify (fun b => if shared then set_admin b (KeyView.threadTips keyView) (lastKeyID b) (totalSupply b)
                                    (KeyView.adminKeySets keyView) (KeyView.aspKeyIdMap keyView) else b).

Fixpoint attach_blocks (nodes : list nat) (blocks : list MsgBlock.MsgBlock) (utxoView : UtxoViewpoint) (keyView : KeyView.KeyViewpoint)
    (shared : bool) : M unit :=
  match nodes, blocks with
  | a :: nodes, block :: blocks =>
      let ublock := MsgBlock.utxo_block block in
      utxoView ← view_db (fun db => fetchInputUtxos utxoView db ublock);
      _ ← lift (asserted (countSpentOutputs ublock));
      '(utxoView, stxos) ← lift (asserted (Utxo.connectTransactions utxoView ublock (Some [])));
      keyView ← lift (asserted (KeyView.connectTransactions keyView ublock));
      _ ← share_maps shared keyView;
      utxoView ← connectBlock a block utxoView keyView (default [] stxos);
      attach_blocks nodes blocks utxoView keyView true
  | _, _ => mret tt
  end.

Definition reorganizeChain (detachNodes attachNodes : list nat) (flags : Z) : M unit :=
  best ← gets bestNode;
  bn ← deref best;
  keyView ← chain_keyView;
  '(detachBlocks, utxoView, keyView) ← check_detach detachNodes (SetBestHash NewUtxoViewpoint (node_hash bn)) keyView;
  '(attachBlocks, keyView) ← check_attach attachNodes utxoView keyView;
  if has_flag flags BFDryRun then mret tt
  else
    best ← gets bestNode;
    bn ← deref best;
    utxoView ← detach_blocks detachNodes detachBlocks (SetBestHash NewUtxoViewpoint (node_hash bn)) keyView;
    _ ← attach_blocks attachNodes attachBlocks utxoView keyView false;
    firstAttachNode ← lift (idx attachNodes 0);
    _ ← catch (getPrevNodeFromNode chainParams firstAttachNode)
          (fun forkNode => match forkNode with Some _ => mret tt | None => lift Panic end) (fun _ => mret tt);
    _ ← lift (idx detachNodes 0);
    mret tt.

(** * The best chain *)
Definition add_child (a : nat) : M unit :=
  node ← deref a;
  match node_parent node with
  | None => lift Panic
  | Some p => parent ← deref p; store p (set_children parent (node_children parent ++ [a]))
  end.

(** What the dry run undoes when the function returns. *)
Definition undo_child (a : nat) : M unit :=
  node ← deref a;
  match node_parent node with
  | None => lift Panic
  | Some p =>
      parent ← deref p;
      h ← gets heap;
      children ← lift (removeChildNode h (node_children parent) (Some node));
      _ ← store p (set_children parent children);
      modify (fun b => set_index b (delete (node_hash node) (index b)) (depNodes b))
  end.

(** A deferred function runs also after an error. *)
Definition deferring {A} (m : M A) (after : M unit) : M A := fun b =>
  match m b with
  | (b, Ok a) => (_ ← after; mret a) b
  | (b, Err e) => (_ ← after; lift (Err e)) b
  | (b, Panic) => (b, Panic)
  | (b, Hang) => (b, Hang)
  end.

(** The search for the fork that is logged only reads. *)
Definition extend_side_chain (a : nat) (flags : Z) : M bool :=
  node ← deref a;
  best ← gets bestNode;
  bn ← deref best;
  if node_workSum node <=? node_workSum bn then mret false
  else
    '(detachNodes, attachNodes) ← getReorganizeNodes (Some a);
    _ ← reorganizeChain detachNodes attachNodes flags;
    mret true.

Definition connectBestChain (a : nat) (block : MsgBlock.MsgBlock) (flags : Z) : M bool :=
  let fastAdd := has_flag flags BFFastAdd in
  let dryRun := has_flag flags BFDryRun in
  node ← deref a;
  best ← gets bestNode;
  bn ← deref best;
  if bool_decide (node_parentHash node = node_hash bn) then
    let utxoView := SetBestHash NewUtxoViewpoint (node_parentHash node) in
    keyView ← chain_keyView;
    _ ← lift (asserted (countSpentOutputs (MsgBlock.utxo_block block)));
    '(utxoView, keyView, stxos) ←
      (if negb fastAdd then checkConnectBlock chainParams checkpoints run_scripts a block utxoView keyView (Some [])
       else mret (utxoView, keyView, Some []));
    if dryRun then mret true
    else
      '(utxoView, keyView, stxos) ←
        (if fastAdd then
           let ublock := MsgBlock.utxo_block block in
           utxoView ← view_db (fun db => fetchInputUtxos utxoView db ublock);
           '(utxoView, stxos) ← lift (asserted (Utxo.connectTransactions utxoView ublock stxos));
           keyView ← lift (asserted (KeyView.connectTransactions keyView ublock));
           mret (utxoView, keyView, stxos)
         else mret (utxoView, keyView, stxos));
      _ ← connectBlock a block utxoView keyView (default [] stxos);
      node ← deref a;
      _ ← (match node_parent node with Some _ => add_child a | None => mret tt end);
      mret true
  else
    _ ← modify (fun b => set_index b (<[node_hash node := a]> (index b)) (depNodes b));
    _ ← store a (set_inMainChain node false);
    _ ← add_child a;
    if dryRun then deferring (extend_side_chain a flags) (undo_child a) else extend_side_chain a flags.

Definition maybeAcceptBlock (block : MsgBlock.Block) (flags : Z) : M bool :=
  let msgBlock := MsgBlock.msgBlock block in
  prevNode ← getPrevNodeFromBlock msgBlock;
  _ ← checkBlockContext chainParams checkpoints msgBlock prevNode flags;
  _ ← update_db (fun db => dbMaybeStoreBlock db block);
  let blockHeader := MsgBlock.msg_Header msgBlock in
  let newNode := newBlockNode blockHeader (MsgBlock.BlockHash msgBlock) in
  newNode ← (match prevNode with
             | Some p =>
                 prev ← deref p;
                 mret (set_workSum (set_height (set_parent newNode (Some p)) (hdr_Height blockHeader))
                         (node_workSum prev + node_workSum newNode))
             | None => mret newNode
             end);
  a ← alloc newNode;
  connectBestChain a msgBlock flags.

(** * Orphans *)
Definition IsKnownOrphan (b : BlockChain) (hash : bytes) : bool := bool_decide (is_Some (orphans b !! hash)).

(** The fuel is the number of orphans. *)
Fixpoint orphan_root (fuel : nat) (pool : gmap bytes orphanBlock) (orphanRoot prevHash : bytes) : res error bytes :=
  match fuel with
  | O => Hang
  | S fuel =>
      match pool !! prevHash with
      | None => Ok orphanRoot
      | Some orphan =>
          orphan_root fuel pool prevHash (hdr_PrevBlock (MsgBlock.msg_Header (MsgBlock.msgBlock (orphan_block orphan))))
      end
  end.

Definition GetOrphanRoot (b : BlockChain) (hash : bytes) : res error bytes := orphan_root (S (size (orphans b))) (orphans b) hash hash.

Definition orphan_hash (o : orphanBlock) : bytes := MsgBlock.BlockHash (MsgBlock.msgBlock (orphan_block o)).
Definition orphan_prev (o : orphanBlock) : bytes := hdr_PrevBlock (MsgBlock.msg_Header (MsgBlock.msgBlock (orphan_block o))).

Definition removeOrphanBlock (b : BlockChain) (orphan : orphanBlock) : BlockChain :=
  let prevHash := orphan_prev orphan in
  let rest := filter (fun o => orphan_hash o <> orphan_hash orphan) (default [] (prevOrphans b !! prevHash)) in
  set_orphans b (delete (orphan_hash orphan) (orphans b))
    (match rest with [] => delete prevHash (prevOrphans b) | _ => <[prevHash := rest]> (prevOrphans b) end) (oldestOrphan b).

(** The orphans in some order: expired ones are removed, and the oldest of the
    others is noted. *)
Fixpoint expire_orphans (now : Time) (l : list orphanBlock) (b : BlockChain) : BlockChain :=
  match l with
  | [] => b
  | o :: rest =>
      if After now (orphan_expiration o) then expire_orphans now rest (removeOrphanBlock b o)
      else
        let older := match oldestOrphan b with
                     | None => true
                     | Some old => After (orphan_expiration old) (orphan_expiration o)
                     end in
        expire_orphans now rest (if older then set_orphans b (orphans b) (prevOrphans b) (Some o) else b)
  end.

Definition addOrphanBlock (now : Time) (block : MsgBlock.Block) : M unit := fun b =>
  let b := expire_orphans now (map snd (map_to_list (orphans b))) b in
  match (if maxOrphanBlocks <? Z.of_nat (size (orphans b)) + 1 then
           match oldestOrphan b with
           | None => None
           | Some old => let b := removeOrphanBlock b old in Some (set_orphans b (orphans b) (prevOrphans b) None)
           end
         else Some b) with
  | None => (b, Panic)
  | Some b =>
      let o := mkOrphanBlock block (mkTime (i64 (sec now + 3600)) (nsec now)) in
      (set_orphans b (<[orphan_hash o := o]> (orphans b))
         (<[orphan_prev o := default [] (prevOrphans b !! orphan_prev o) ++ [o]]> (prevOrphans b)) (oldestOrphan b), Ok tt)
  end.

Definition blockExists (hash : bytes) : M bool := fun b =>
  if bool_decide (is_Some (index b !! hash)) then (b, Ok true) else (b, Ok (Database.HasBlock (db b) hash)).

Definition HaveBlock (hash : bytes) : M bool :=
  exists_ ← blockExists hash;
  orphan ← gets (fun b => IsKnownOrphan b hash);
  mret (exists_ || orphan).

(** The orphans that wait for a hash, the first of them again and again, then the
    next hash.  Every step takes an orphan or a hash away. *)
Fixpoint process_loop (fuel : nat) (processHashes : list bytes) (flags : Z) : M unit :=
  match fuel with
  | O => lift Hang
  | S fuel =>
      match processHashes with
      | [] => mret tt
      | processHash :: rest =>
          waiting ← gets prevOrphans;
          match waiting !! processHash with
          | Some (orphan :: _) =>
              _ ← modify (fun b => removeOrphanBlock b orphan);
              _ ← maybeAcceptBlock (orphan_block orphan) flags;
              process_loop fuel (processHashes ++ [orphan_hash orphan]) flags
          | _ => process_loop fuel rest flags
          end
      end
  end.

Definition waiting_orphans (b : BlockChain) : nat := sum_list (map (fun p => length (snd p)) (map_to_list (prevOrphans b))).

Definition processOrphans (hash : bytes) (flags : Z) : M unit := fun b =>
  process_loop (2 + 2 * waiting_orphans b) [hash] flags b.

(** * Processing a block *)
Definition check_checkpoint (blockHeader : BlockHeader) (fastAdd : bool) (checkpointBlock : option MsgBlock.Block) : res error unit :=
  match checkpointBlock with
  | None => Ok tt
  | Some c =>
      let checkpointHeader := MsgBlock.msg_Header (MsgBlock.msgBlock c) in
      let checkpointTime := hdr_Timestamp checkpointHeader in
      if After checkpointTime (hdr_Timestamp blockHeader) then ruleError ErrCheckpointTimeTooOld
      else if negb fastAdd then
        let requiredTarget := Difficulty.CompactToBig (calcEasiestDifficulty chainParams (hdr_Bits checkpointHeader)
                                (Sub (hdr_Timestamp blockHeader) checkpointTime)) in
        let currentTarget := Difficulty.CompactToBig (hdr_Bits blockHeader) in
        if requiredTarget <? currentTarget then ruleError ErrDifficultyTooLow else Ok tt
      else Ok tt
  end.

(** The results: on the main chain, and an orphan. *)
Definition ProcessBlock (now : Time) (block : MsgBlock.Block) (flags : Z) : M (bool * bool) :=
  let fastAdd := has_flag flags BFFastAdd in
  let dryRun := has_flag flags BFDryRun in
  let msgBlock := MsgBlock.msgBlock block in
  let blockHash := MsgBlock.BlockHash msgBlock in
  exists_ ← blockExists blockHash;
  if exists_ : bool then lift (ruleError ErrDuplicateBlock)
  else
    orphan ← gets (fun b => IsKnownOrphan b blockHash);
    if orphan : bool then lift (ruleError ErrDuplicateBlock)
    else
      _ ← lift (checkBlockSanity msgBlock (PowLimit chainParams) flags);
      let blockHeader := MsgBlock.msg_Header msgBlock in
      checkpointBlock ← findPreviousCheckpoint checkpoints;
      _ ← lift (check_checkpoint blockHeader fastAdd checkpointBlock);
      prevHashExists ← blockExists (hdr_PrevBlock blockHeader);
      if negb prevHashExists then
        _ ← (if negb dryRun then addOrphanBlock now block else mret tt);
        mret (false, true)
      else
        isMainChain ← maybeAcceptBlock block flags;
        _ ← (if negb dryRun then processOrphans blockHash flags else mret tt);
        mret (isMainChain, false).

(** [adjusted] is the adjusted time in seconds. *)
Definition IsCurrent (adjusted : Z) : M bool :=
  best ← gets bestNode;
  bn ← deref best;
  if match LatestCheckpoint checkpoints with Some c => node_height bn <? cp_Height c | None => false end then mret false
  else mret (adjusted - 86400 <=? node_timestamp bn).

(** * Starting *)
Definition max_key_id (ids : KeyIdMap) : Z := fold_left Z.max (map fst (map_to_list ids)) 0.

(** The database of a new chain. *)
Definition create_db (genesis : MsgBlock.MsgBlock) (node : blockNode) (utxoView : UtxoViewpoint) (tips : gmap Z OutPoint)
    (lastKeyID : Z) (state : BestState) (db : Database.DB) : res error Database.DB :=
  db ← db_err (Database.CreateBucket db hashIndexBucketName);
  db ← db_err (Database.CreateBucket db heightIndexBucketName);
  db ← db_err (Database.CreateBucket db spendJournalBucketName);
  db ← db_err (Database.CreateBucket db utxoSetBucketName);
  db ← dbPutUtxoView db utxoView;
  db ← dbPutBlockIndex db (node_hash node) (node_height node);
  db ← dbPutBestState db state (node_workSum node);
  db ← dbPutKeySet db (AdminKeySets chainParams) (ASPKeyIdMap chainParams) tips lastKeyID 0;
  db_err (Database.StoreBlock db (MsgBlock.mkBlock genesis [])).

Definition createChainState : M unit :=
  let genesis := GenesisBlock chainParams in
  let header := MsgBlock.msg_Header genesis in
  let node := set_inMainChain (newBlockNode header (MsgBlock.BlockHash genesis)) true in
  a ← alloc node;
  _ ← modify (fun b => set_bestNode b a);
  _ ← modify (fun b => set_index b (<[node_hash node := a]> (index b)) (depNodes b));
  let numTxns := len (MsgBlock.msg_Transactions genesis) in
  let blockSize := MsgBlock.SerializeSize genesis in
  let state := newBestState node blockSize numTxns numTxns (time_Unix (node_timestamp node)) in
  _ ← modify (fun b => set_snapshot b state);
  coinbase ← lift (idx (MsgBlock.msg_Transactions genesis) 0);
  utxoView ← catch (lift (asserted (Utxo.connectTransaction (SetBestHash NewUtxoViewpoint (node_hash node)) coinbase 0 None)))
               (fun r => mret (fst r)) (fun _ => mret (SetBestHash NewUtxoViewpoint (node_hash node)));
  let hash := SigCache.TxHash coinbase in
  let tips := <[Standard.IssueThread := mkOutPoint hash 2]> (<[Standard.ProvisionThread := mkOutPoint hash 1]>
                (<[Standard.RootThread := mkOutPoint hash 0]> ∅)) in
  let last := max_key_id (ASPKeyIdMap chainParams) in
  _ ← modify (fun b => set_admin b tips last (totalSupply b) (AdminKeySets chainParams) (ASPKeyIdMap chainParams));
  update_db (create_db genesis node utxoView tips last state).

(** The state of the chain in the database, or [None]. *)
Definition stored_state (db : Database.DB)
    : res error (option (bestChainState * (gmap KeySetType PublicKeySet * KeyIdMap * gmap Z OutPoint * Z * Z) * bytes * MsgBlock.MsgBlock)) :=
  match Database.Get db chainStateKeyName with
  | None => Ok None
  | Some serializedData =>
      state ← deserializeBestChainState serializedData;
      match Database.Get db keySetBucketName with
      | None => Ok None
      | Some serializedKeys =>
          keys ← deserializeKeySet serializedKeys;
          blockBytes ← db_err (Database.FetchBlock db (best_hash state));
          '(block, _) ← other (MsgBlock.Deserialize blockBytes);
          Ok (Some (state, keys, blockBytes, block))
      end
  end.

Definition initChainState : M unit :=
  stored ← view_db stored_state;
  match stored with
  | None => createChainState
  | Some (state, (sets, ids, tips, lastKeyID, totalSupply), blockBytes, block) =>
      let header := MsgBlock.msg_Header (MsgBlock.msgBlock (MsgBlock.SetHeight (MsgBlock.mkBlock block blockBytes) (best_height state))) in
      let node := set_workSum (set_inMainChain (newBlockNode header (best_hash state)) true) (best_workSum state) in
      a ← alloc node;
      _ ← modify (fun b => set_bestNode b a);
      _ ← modify (fun b => set_admin b tips lastKeyID totalSupply sets ids);
      _ ← modify (fun b => set_index b (<[node_hash node := a]> (index b))
                            (<[node_parentHash node := default [] (depNodes b !! node_parentHash node) ++ [a]]> (depNodes b)));
      medianTime ← calcPastMedianTime chainParams (Some a);
      modify (fun b => set_snapshot b (newBestState node (len blockBytes) (len (MsgBlock.msg_Transactions block))
                                        (best_totalTxns state) medianTime))
  end.

(** The checkpoints must come in the order of their heights, from 1 on. *)
Fixpoint sorted_checkpoints (prevCheckpointHeight : Z) (l : list Checkpoint) : bool :=
  match l with
  | [] => true
  | c :: rest => (prevCheckpointHeight <? cp_Height c) && sorted_checkpoints (cp_Height c) rest
  end.

(** The chain before its state is loaded; the snapshot is nil. *)
Definition blank (db : Database.DB) (hashCache : option SigCache.HashCache) : BlockChain :=
  mkBlockChain db ∅ 1 0 ∅ ∅ ∅ 0 0 ∅ ∅ ∅ ∅ None None None (mkBestState [] 0 0 0 0 0 (time_Unix 0)) false hashCache.

Definition init_indexes : M unit := fun b =>
  match indexManager with
  | None => (b, Ok tt)
  | Some im => let '(db', r) := im_Init im b in (set_db b db', r)
  end.

Definition New (db : Database.DB) (hashCache : option SigCache.HashCache) : BlockChain * res error unit :=
  if negb (sorted_checkpoints 0 checkpoints)
  then (blank db hashCache, Err (AssertError "blockchain.New checkpoints are not sorted by height"))
  else (_ ← initChainState; init_indexes) (blank db hashCache).

(** * Queries *)
Definition MainChainHasBlock (hash : bytes) : M bool := view_db (fun db => dbMainChainHasBlock db hash).
Definition BlockHeightByHash (hash : bytes) : M Z := view_db (fun db => dbFetchHeightByHash db hash).
Definition BlockHashByHeight (blockHeight : Z) : M bytes := view_db (fun db => dbFetchHashByHeight db blockHeight).
Definition BlockByHeight (blockHeight : Z) : M MsgBlock.Block := view_db (fun db => dbFetchBlockByHeight db blockHeight).
Definition BlockByHash (hash : bytes) : M MsgBlock.Block := view_db (fun db => dbFetchBlockByHash db hash).

Fixpoint fetch_range (db : Database.DB) (i : Z) (n : nat) : res error (list bytes) :=
  match n with
  | O => Ok []
  | S n => hash ← dbFetchHashByHeight db i; hashes ← fetch_range db (i + 1) n; Ok (hash :: hashes)
  end.

(** [latestHeight + 1] wraps at the largest height. *)
Definition HeightRange (startHeight endHeight : Z) : M (list bytes) :=
  if endHeight <? startHeight then lift (Err (OtherError "end height of fetch range must not be less than the start height"))
  else if startHeight =? endHeight then mret []
  else
    best ← gets bestNode;
    bn ← deref best;
    let latestHeight := node_height bn in
    if latestHeight <? startHeight then mret []
    else
      let endHeight := if u32 (latestHeight + 1) <? endHeight then u32 (latestHeight + 1) else endHeight in
      view_db (fun db => fetch_range db startHeight (Z.to_nat (endHeight - startHeight))).
End chain.

End Chain.
