(* ===== verification/Example.v ===== *)
(** A small chain for evaluating the model: a genesis block with the tips of the
    three admin threads and a block that extends it.  A
    residue of the bytes stands for the proof-of-work hash. *)
From S2P Require Import Prelude PubKey Wire Crypto Script Standard SigCache Engine Utxo GoTime Header MsgBlock Merkle.
From S2P Require Import Database Params Difficulty KeyView Validate ChainIO Node ScriptVal BlockRules Chain.
Import btcec wire Crypto Standard Utxo GoTime Header Params Validate ChainIO Node ScriptVal BlockRules Chain.
#[local] Open Scope Z_scope.

Module Example.

Definition example_powhash : PowHash := {|
  sha3_Sum256 := fun b => le_encode 32 (le_decode b mod (2 ^ 255 - 19));
  sha3_length := fun b => length_le_encode 32 _;
  sha3_ok := fun b => le_encode_ok 32 _
|}.
#[local] Existing Instance example_powhash.
#[local] Existing Instance example_primitives.

Definition bytes_of {E} (r : res E bytes) : bytes := match r with Ok b => b | _ => [] end.

Definition prova_script : bytes := bytes_of (payToProvaScript (replicate 20 7) [1; 2]).
Definition thread_script_of (t : Z) : bytes := bytes_of (ProvaThreadScript t).

Definition coinbase (script : bytes) (outs : list TxOut) : MsgTx :=
  mkMsgTx 1 [mkTxIn (mkOutPoint zeroHash 0xffffffff) script 0xffffffff] outs 0.

(** A block on a parent, with the fields of its header that follow from the rest. *)
Definition a_block (prev : bytes) (height time : Z) (txs : list MsgTx) : MsgBlock.MsgBlock :=
  let root := match Merkle.merkle_root txs with Ok (Some r) => r | _ => [] end in
  let h size := mkBlockHeader 4 prev root (time_Unix time) 0x1f07ffff height size 0 (replicate 33 2) (replicate 80 0) in
  MsgBlock.mkMsgBlock (h (MsgBlock.SerializeSize (MsgBlock.mkMsgBlock (h 0) txs))) txs.

Definition genesis : MsgBlock.MsgBlock :=
  a_block zeroHash 0 1500000000 [coinbase [1; 0] (map (fun t => mkTxOut 0 (thread_script_of t)) [RootThread; ProvisionThread; IssueThread])].

Definition params : Params :=
  MainNetParams genesis (MsgBlock.BlockHash genesis) ∅ ∅.

Definition started : BlockChain := (New params [] None Database.empty_db None).1.

Definition next_block : MsgBlock.Block :=
  MsgBlock.mkBlock (a_block (MsgBlock.BlockHash genesis) 1 1500000100 [coinbase [1; 1] [mkTxOut 0 prova_script]]) [].

Definition all_valid (_ : txValidator) (_ : list txValidateItem) : res error unit := Ok tt.

Definition fast : Z := BFFastAdd + BFNoPoWCheck.

Definition processed (flags : Z) : BlockChain * res error (bool * bool) :=
  ProcessBlock params [] None all_valid (time_Unix 1500000200) next_block flags started.

Lemma run_result {A B} (r : A * B) x : r.2 = x -> r = (r.1, x).
Proof. intros <-. apply surjective_pairing. Qed.

Lemma started_ok : New params [] None Database.empty_db None = (started, Ok tt).
Proof.
  assert ((New params [] None Database.empty_db None).2 = Ok tt) as E by (vm_compute; reflexivity).
  unfold started. exact (run_result _ _ E).
Qed.

Lemma processed_ok : processed fast = ((processed fast).1, Ok (true, false)).
Proof.
  assert ((processed fast).2 = Ok (true, false)) as E by (vm_compute; reflexivity). exact (run_result _ _ E).
Qed.

Lemma dry_run_ok : processed (fast + BFDryRun) = ((processed (fast + BFDryRun)).1, Ok (true, false)).
Proof.
  assert ((processed (fast + BFDryRun)).2 = Ok (true, false)) as E by (vm_compute; reflexivity). exact (run_result _ _ E).
Qed.

Lemma restarted_ok :
  New params [] None (db (processed fast).1) None = ((New params [] None (db (processed fast).1) None).1, Ok tt).
Proof.
  assert ((New params [] None (db (processed fast).1) None).2 = Ok tt) as E by (vm_compute; reflexivity). exact (run_result _ _ E).
Qed.

Lemma processed_height : snap_Height (stateSnapshot (processed fast).1) = 1.
Proof. vm_compute. reflexivity. Qed.

End Example.
