(* ===== verification/Frame.v ===== *)
(** What the operations of a chain leave as it is.  [within R m] says that from
    every chain, and whatever the outcome, the operation [m] ends in a chain that
    is related by [R]; for a preorder it is closed under composition.  The tactic
    [framed] goes through the body of an operation. *)
From S2P Require Import Prelude PubKey Wire Crypto Script Standard SigCache Engine Utxo GoTime Header MsgBlock Merkle.
From S2P Require Import Database Params Difficulty KeyView Validate ChainIO Node ScriptVal BlockRules Chain.
Import btcec wire Crypto Utxo GoTime Header Params Validate ChainIO Node ScriptVal BlockRules Chain.
#[local] Open Scope Z_scope.

Module Frame.

Definition within {A} (R : relation BlockChain) (m : M A) : Prop := forall b, R b (m b).1.

Section rules.
Context {R : relation BlockChain} `{!PreOrder R}.

Lemma within_ret {A} (a : A) : within R (mret a).
Proof. intros b. reflexivity. Qed.

Lemma within_bind {A B} (m : M A) (k : A -> M B) : within R m -> (forall a, within R (k a)) -> within R (mbind k m).
Proof.
  intros Hm Hk b. unfold mbind, M_bind. specialize (Hm b). destruct (m b) as [b1 []]; cbn in *; [|done..].
  etrans; [exact Hm|]. apply Hk.
Qed.

Lemma within_catch {A B} (m : M A) (k : A -> M B) h :
  within R m -> (forall a, within R (k a)) -> (forall e, within R (h e)) -> within R (catch m k h).
Proof.
  intros Hm Hk Hh b. unfold catch. specialize (Hm b). destruct (m b) as [b1 []]; cbn in *; [| |done..];
    (etrans; [exact Hm|]); [apply Hk | apply Hh].
Qed.

Lemma within_lift {A} (r : res error A) : within R (lift r).
Proof. intros b. reflexivity. Qed.

Lemma within_gets {A} (f : BlockChain -> A) : within R (gets f).
Proof. intros b. reflexivity. Qed.

Lemma within_view {A} (f : Database.DB -> res error A) : within R (view_db f).
Proof. intros b. reflexivity. Qed.

Lemma within_deref a : within R (deref a).
Proof. intros b. reflexivity. Qed.

Lemma within_modify f : (forall b, R b (f b)) -> within R (modify f).
Proof. intros Hf b. apply Hf. Qed.
End rules.

Lemma within_mono {A} (R R' : relation BlockChain) (m : M A) : (forall b b', R b b' -> R' b b') -> within R m -> within R' m.
Proof. intros HR Hm b. apply HR, Hm. Qed.

(** A result is related whatever it is. *)
Lemma within_run {A} {R : relation BlockChain} (m : M A) b b' r : within R m -> m b = (b', r) -> R b b'.
Proof. intros Hm E. specialize (Hm b). by rewrite E in Hm. Qed.

Create HintDb frame.
#[export] Hint Extern 0 (within _ (mret _)) => apply within_ret : frame.
#[export] Hint Extern 0 (within _ (lift _)) => apply within_lift : frame.
#[export] Hint Extern 0 (within _ (gets _)) => apply within_gets : frame.
#[export] Hint Extern 0 (within _ (view_db _)) => apply within_view : frame.
#[export] Hint Extern 0 (within _ (deref _)) => apply within_deref : frame.

Ltac framed := repeat first
  [ solve [eauto with frame]
  | match goal with
    | |- within _ (mbind _ _) => apply within_bind; [|intros ?]
    | |- within _ (catch _ _ _) => apply within_catch; [|intros ?|intros ?]
    | |- within _ (modify _) => apply within_modify; intros ?
    end
  | match goal with |- within _ (match ?x with _ => _ end) => destruct x end
  | match goal with |- within _ (if ?x then _ else _) => destruct x end ].

(** * Reading *)

(** The parts of a chain that only the connection of blocks and the orphans
    change. *)
Record reads (b b' : BlockChain) : Prop := mkReads {
  reads_db : db b' = db b;
  reads_best : bestNode b' = bestNode b;
  reads_tips : threadTips b' = threadTips b;
  reads_last : lastKeyID b' = lastKeyID b;
  reads_supply : totalSupply b' = totalSupply b;
  reads_sets : adminKeySets b' = adminKeySets b;
  reads_ids : aspKeyIdMap b' = aspKeyIdMap b;
  reads_orphans : orphans b' = orphans b;
  reads_prev : prevOrphans b' = prevOrphans b;
  reads_oldest : oldestOrphan b' = oldestOrphan b;
  reads_snapshot : stateSnapshot b' = stateSnapshot b;
  reads_noVerify : noVerify b' = noVerify b
}.

#[global] Instance reads_preorder : PreOrder reads.
Proof. split; [by intros b|]. intros b1 b2 b3 [] []. split; congruence. Qed.

Lemma reads_store a n : within reads (store a n).
Proof. by intros b. Qed.
Lemma reads_alloc n : within reads (alloc n).
Proof. by intros b. Qed.
#[export] Hint Resolve reads_store reads_alloc : frame.

Lemma reads_adopt a cs : within reads (adopt a cs).
Proof. induction cs; cbn [adopt]; framed. Qed.
#[export] Hint Resolve reads_adopt : frame.

Lemma reads_load hash : within reads (loadBlockNode hash).
Proof. unfold loadBlockNode. framed. done. Qed.
#[export] Hint Resolve reads_load : frame.

Section chain.
Context `{Primitives} `{PowHash} (chainParams : Params) (checkpoints : list Checkpoint) (indexManager : option IndexManager)
  (run_scripts : txValidator -> list txValidateItem -> res error unit).

Lemma reads_prevBlock block : within reads (getPrevNodeFromBlock block).
Proof.
  intros b. unfold getPrevNodeFromBlock. case_bool_decide; [done|]. destruct (index b !! _); [done|].
  apply (within_bind (R := reads)); [apply reads_load | intros a; apply within_ret].
Qed.

Lemma reads_prevNode a : within reads (getPrevNodeFromNode chainParams a).
Proof. unfold getPrevNodeFromNode. framed. Qed.
Hint Resolve reads_prevBlock reads_prevNode : frame.

Lemma reads_relative d a : within reads (relative_loop chainParams a d).
Proof. revert a. induction d; intros a; cbn [relative_loop]; framed. Qed.

Lemma reads_majority_loop n v r f i : within reads (majority_loop chainParams n v r f i).
Proof. revert f i. induction n; intros f i; cbn [majority_loop]; framed. Qed.
Hint Resolve reads_majority_loop : frame.

Lemma reads_majority v i r : within reads (isMajorityVersion chainParams v i r).
Proof. unfold isMajorityVersion. framed. Qed.

Lemma reads_timestamps n i : within reads (timestamps_loop chainParams n i).
Proof. revert i. induction n; intros i; cbn [timestamps_loop]; framed. Qed.
Hint Resolve reads_majority reads_timestamps : frame.

Lemma reads_median i : within reads (calcPastMedianTime chainParams i).
Proof. unfold calcPastMedianTime. framed. Qed.

Lemma reads_difficulty_loop n i d : within reads (difficulty_loop chainParams n i d).
Proof. revert i d. induction n; intros i d; cbn [difficulty_loop]; framed. Qed.
Hint Resolve reads_median reads_difficulty_loop : frame.

Lemma reads_difficulty i : within reads (calcNextRequiredDifficulty chainParams i).
Proof. unfold calcNextRequiredDifficulty. framed. Qed.

Lemma reads_pubkeys n i : within reads (pubkeys_loop chainParams n i).
Proof. revert i. induction n; intros i; cbn [pubkeys_loop]; framed. Qed.
Hint Resolve reads_difficulty reads_pubkeys : frame.

Lemma reads_rate a k p : within reads (isValidateKeyRateLimited chainParams a k p).
Proof. unfold isValidateKeyRateLimited. framed. Qed.

Lemma reads_checkpoint : within reads (findPreviousCheckpoint checkpoints).
Proof. unfold findPreviousCheckpoint. framed; done. Qed.

Lemma reads_too_old v h p : within reads (too_old chainParams v h p).
Proof. unfold too_old. framed. Qed.
Hint Resolve reads_rate reads_checkpoint reads_too_old : frame.

Lemma reads_headerContext h p f : within reads (checkBlockHeaderContext chainParams checkpoints h p f).
Proof. unfold checkBlockHeaderContext. framed. Qed.
Hint Resolve reads_headerContext : frame.

Lemma reads_context blk p f : within reads (checkBlockContext chainParams checkpoints blk p f).
Proof. unfold checkBlockContext. framed. Qed.

Lemma reads_checkConnect a blk v k s : within reads (checkConnectBlock chainParams checkpoints run_scripts a blk v k s).
Proof. unfold checkConnectBlock. framed. done. Qed.

Lemma reads_keyView : within reads chain_keyView.
Proof. by intros b. Qed.
Hint Resolve reads_context reads_checkConnect reads_keyView : frame.

Lemma reads_check_detach nodes v k : within reads (check_detach nodes v k).
Proof. revert v k. induction nodes; intros v k; cbn [check_detach]; framed. Qed.

Lemma reads_check_attach nodes v k : within reads (check_attach chainParams checkpoints run_scripts nodes v k).
Proof. revert v k. induction nodes; intros v k; cbn [check_attach]; framed. Qed.

Lemma reads_exists hash : within reads (blockExists hash).
Proof. intros b. unfold blockExists. by case_bool_decide. Qed.

Lemma reads_reorganize a : within reads (getReorganizeNodes a).
Proof. intros b. by destruct a. Qed.
End chain.

#[export] Hint Resolve reads_prevBlock reads_prevNode reads_relative reads_majority reads_timestamps reads_median reads_difficulty
  reads_pubkeys reads_rate reads_checkpoint reads_too_old reads_headerContext reads_context reads_checkConnect reads_keyView
  reads_check_detach reads_check_attach reads_exists reads_reorganize : frame.

End Frame.
