(* ===== verification/ChainSpec.v ===== *)
(** Properties of the chain as a whole: a block is processed once, the orphans are
    processed to the end, and the database always describes the tip that the
    chain reports, so that a restart finds it. *)
From S2P Require Import Prelude PubKey Wire Crypto Script Standard SigCache Engine Utxo GoTime Header MsgBlock Merkle.
From S2P Require Import Database Params Difficulty KeyView Validate ChainIO StateSpec Node ScriptVal BlockRules Chain Example Frame.
Import btcec wire Crypto Utxo GoTime Header Params Validate ChainIO StateSpec Node ScriptVal BlockRules Chain Frame.
#[local] Open Scope Z_scope.

Module ChainSpec.

(** * The database *)

(** The admin state is stored. *)
Definition has_keys (db : Database.DB) : Prop := is_Some (Database.Get db keySetBucketName).

(** Writing to the buckets or to other metadata. *)
Definition keeps_state (db db' : Database.DB) : Prop :=
  Database.blocks db' = Database.blocks db /\ Database.Get db' chainStateKeyName = Database.Get db chainStateKeyName /\
  (has_keys db -> has_keys db').

#[global] Instance keeps_state_preorder : PreOrder keeps_state.
Proof. split; [done|]. intros x y z (H1 & H2 & H3) (H4 & H5 & H6). split_and!; [congruence..|]. eauto. Qed.

(** The widths of the fields of a snapshot. *)
Definition typed (s : BestState) : Prop :=
  length (snap_Hash s) = 32%nat /\ is_u 32 (snap_Height s) /\ is_u 64 (snap_TotalTxns s).

(** A stored best state and a snapshot of the same tip. *)
Definition same_tip (st : bestChainState) (s : BestState) : Prop :=
  best_hash st = snap_Hash s /\ best_height st = snap_Height s /\ best_totalTxns st = snap_TotalTxns s.

(** The database holds the tip of the snapshot. *)
Definition stores (db : Database.DB) (s : BestState) : Prop :=
  exists data, Database.Get db chainStateKeyName = Some data /\
    (typed s -> forall st, deserializeBestChainState data = Ok st -> same_tip st s).

Definition synced (b : BlockChain) : Prop := stores (db b) (stateSnapshot b) /\ has_keys (db b).

Lemma db_err_Ok {A} (m : res Database.ErrorCode A) a : db_err m = Ok a <-> m = Ok a.
Proof. destruct m; cbn; split; congruence. Qed.

Lemma other_Ok {A} (m : res string A) a : other m = Ok a <-> m = Ok a.
Proof. destruct m; cbn; split; congruence. Qed.

Lemma asserted_Ok {A} (m : res string A) a : asserted m = Ok a <-> m = Ok a.
Proof. destruct m; cbn; split; congruence. Qed.

Lemma stores_keeps db db' s : keeps_state db db' -> stores db s -> stores db' s.
Proof. intros (_ & H & _) (d & Hd & Hs). exists d. by rewrite H. Qed.

Lemma bucket_Put_keeps db name k v db' : Database.bucket_Put db name k v = Ok db' -> keeps_state db db'.
Proof. unfold Database.bucket_Put. destruct (Database.buckets db !! name); [|done]. case_match; [done|]. by intros [= <-]. Qed.

Lemma bucket_Delete_keeps db name k db' : Database.bucket_Delete db name k = Ok db' -> keeps_state db db'.
Proof. unfold Database.bucket_Delete. destruct (Database.buckets db !! name); [|done]. case_match; [done|]. by intros [= <-]. Qed.

Lemma Put_keeps db k v db' : k <> chainStateKeyName -> Database.Put db k v = Ok db' -> keeps_state db db'.
Proof.
  unfold Database.Put. intros Hk. case_match; [done|]. case_bool_decide; [done|]. intros [= <-].
  split_and!; [done|by apply lookup_insert_ne|]. intros Hs. by apply lookup_insert_is_Some'; right.
Qed.

Lemma CreateBucket_keeps db k db' : Database.CreateBucket db k = Ok db' -> keeps_state db db'.
Proof. unfold Database.CreateBucket. case_match; [done|]. case_bool_decide; [done|]. case_bool_decide; [done|]. by intros [= <-]. Qed.

Lemma put_entries_keeps l db db' : put_utxo_entries db l = Ok db' -> keeps_state db db'.
Proof.
  revert db. induction l as [|[h e] l IH]; intros db; cbn [put_utxo_entries].
  - by intros [= <-].
  - intros (db1 & H1 & H2)%bind_Ok. etrans; [|by apply IH]. clear -H1. revert H1. unfold put_utxo_entry.
    destruct e as [e|]; [|by intros [= <-]]. case_match; [by intros [= <-]|].
    intros (s & _ & Hs)%bind_Ok. destruct s; [apply db_err_Ok in Hs; by eapply bucket_Put_keeps|].
    apply db_err_Ok in Hs; by eapply bucket_Delete_keeps.
Qed.

Lemma dbPutUtxoView_keeps db v db' : dbPutUtxoView db v = Ok db' -> keeps_state db db'.
Proof. apply put_entries_keeps. Qed.

Lemma put_state_stores db s w db' :
  dbPutBestState db s w = Ok db' ->
  Database.blocks db' = Database.blocks db /\ stores db' s /\ (has_keys db -> has_keys db').
Proof.
  unfold dbPutBestState. intros (d & Hd%other_Ok & Hp%db_err_Ok)%bind_Ok. revert Hp. unfold Database.Put.
  case_match; [done|]. case_bool_decide; [done|]. intros [= <-].
  split_and!; [done| |intros Hs; by apply lookup_insert_is_Some'; right].
  exists d. split; [apply lookup_insert_eq|]. intros (Hl & Hh & Ht) st Hst.
  apply serialized_state_prefix in Hd as [rest ->]; [|done]. by apply stored_state_fields in Hst.
Qed.

Lemma put_keys_has db k i t l n db' : dbPutKeySet db k i t l n = Ok db' -> has_keys db'.
Proof.
  unfold dbPutKeySet. intros (d & _ & Hp%db_err_Ok)%bind_Ok. revert Hp. unfold Database.Put.
  case_match; [done|]. case_bool_decide; [done|]. intros [= <-]. exists d. apply lookup_insert_eq.
Qed.

Lemma put_keys_keeps db k i t l n db' : dbPutKeySet db k i t l n = Ok db' -> keeps_state db db'.
Proof. unfold dbPutKeySet. intros (d & _ & Hp%db_err_Ok)%bind_Ok. eapply Put_keeps; [|exact Hp]. by vm_compute. Qed.

Lemma put_index_keeps db h i db' : dbPutBlockIndex db h i = Ok db' -> keeps_state db db'.
Proof.
  unfold dbPutBlockIndex. intros (d & H1%db_err_Ok & H2%db_err_Ok)%bind_Ok.
  etrans; by eapply bucket_Put_keeps.
Qed.

Lemma remove_index_keeps db h i db' : dbRemoveBlockIndex db h i = Ok db' -> keeps_state db db'.
Proof.
  unfold dbRemoveBlockIndex. intros (d & H1%db_err_Ok & H2%db_err_Ok)%bind_Ok.
  etrans; by eapply bucket_Delete_keeps.
Qed.

Lemma put_journal_keeps db h s db' : dbPutSpendJournalEntry db h s = Ok db' -> keeps_state db db'.
Proof. unfold dbPutSpendJournalEntry. intros (d & _ & Hp%db_err_Ok)%bind_Ok. by eapply bucket_Put_keeps. Qed.

Lemma remove_journal_keeps db h db' : dbRemoveSpendJournalEntry db h = Ok db' -> keeps_state db db'.
Proof. unfold dbRemoveSpendJournalEntry. intros Hp%db_err_Ok. by eapply bucket_Delete_keeps. Qed.

Lemma store_block_state `{PowHash} db block db' :
  dbMaybeStoreBlock db block = Ok db' ->
  Database.metadata db' = Database.metadata db /\
  Database.HasBlock db' (MsgBlock.BlockHash (MsgBlock.msgBlock block)) = true /\
  forall h, Database.HasBlock db h = true -> Database.HasBlock db' h = true.
Proof.
  unfold dbMaybeStoreBlock. case_match eqn:Hh; [by intros [= <-]|]. intros Hs%db_err_Ok. revert Hs.
  unfold Database.StoreBlock. rewrite Hh. intros [= <-]. split; [done|]. unfold Database.HasBlock; cbn.
  split; [by rewrite lookup_insert_eq; case_bool_decide as Hb; [|destruct Hb; eauto]|].
  intros h Hb%bool_decide_eq_true. apply bool_decide_eq_true. by apply lookup_insert_is_Some'; right.
Qed.

Create HintDb keeps.
#[export] Hint Resolve put_keys_keeps put_index_keeps remove_index_keeps put_journal_keeps remove_journal_keeps dbPutUtxoView_keeps
  : keeps.

Section chain.
Context `{Primitives} `{PowHash} (chainParams : Params) (checkpoints : list Checkpoint) (indexManager : option IndexManager)
  (run_scripts : txValidator -> list txValidateItem -> res error unit).

Lemma index_connect_keeps db block v db' :
  match indexManager with Some im => im_ConnectBlock im db block v | None => Ok db end = Ok db' -> keeps_state db db'.
Proof.
  destruct indexManager as [im|]; [|by intros [= <-]]. intros Hc.
  destruct (im_keeps im db db' block v) as (Hm & Hb & _); [tauto|].
  split; [done|]. unfold has_keys, Database.Get. by rewrite Hm.
Qed.

Lemma index_disconnect_keeps db block v db' :
  match indexManager with Some im => im_DisconnectBlock im db block v | None => Ok db end = Ok db' -> keeps_state db db'.
Proof.
  destruct indexManager as [im|]; [|by intros [= <-]]. intros Hc.
  destruct (im_keeps im db db' block v) as (Hm & Hb & _); [tauto|].
  split; [done|]. unfold has_keys, Database.Get. by rewrite Hm.
Qed.
Hint Resolve index_connect_keeps index_disconnect_keeps : keeps.

Lemma connect_db_stores node block v k s state db db' :
  connect_db indexManager node block v k s state db = Ok db' ->
  Database.blocks db' = Database.blocks db /\ stores db' state /\ has_keys db'.
Proof.
  unfold connect_db, put_keys_of. intros (d1 & (Hb1 & Hs & _)%put_state_stores & H1)%bind_Ok.
  apply bind_Ok in H1 as (d2 & ? & (d3 & ? & (d4 & Hk4 & (d5 & ? & ?)%bind_Ok)%bind_Ok)%bind_Ok).
  assert (keeps_state d4 db') as Hk' by (transitivity d5; eauto with keeps).
  assert (keeps_state d1 db') as Hk by (transitivity d2; [|transitivity d3; [|transitivity d4]]; eauto with keeps).
  split_and!; [destruct Hk; congruence | by eapply stores_keeps |]. apply Hk'. by eapply put_keys_has.
Qed.

Lemma disconnect_db_stores node block v k state db db' :
  disconnect_db indexManager node block v k state db = Ok db' ->
  Database.blocks db' = Database.blocks db /\ stores db' state /\ has_keys db'.
Proof.
  unfold disconnect_db, put_keys_of. intros (d1 & (Hb1 & Hs & _)%put_state_stores & H1)%bind_Ok.
  apply bind_Ok in H1 as (d2 & Hk2 & (d3 & ? & (d4 & ? & (d5 & ? & ?)%bind_Ok)%bind_Ok)%bind_Ok).
  assert (keeps_state d2 db') as Hk' by (transitivity d3; [|transitivity d4; [|transitivity d5]]; eauto with keeps).
  assert (keeps_state d1 db') as Hk by (transitivity d2; eauto with keeps).
  split_and!; [destruct Hk; congruence | by eapply stores_keeps |]. apply Hk'. by eapply put_keys_has.
Qed.

(** * Connecting blocks *)

(** The orphans stay, blocks are added only, and the database follows the
    snapshot. *)
Record advances (b b' : BlockChain) : Prop := mkAdvances {
  adv_orphans : orphans b' = orphans b;
  adv_prev : prevOrphans b' = prevOrphans b;
  adv_oldest : oldestOrphan b' = oldestOrphan b;
  adv_blocks : forall h, Database.HasBlock (db b) h = true -> Database.HasBlock (db b') h = true;
  adv_sync : synced b -> synced b'
}.

#[local] Instance advances_preorder : PreOrder advances.
Proof. split; [by intros b|]. intros b1 b2 b3 [] []. split; try congruence; eauto. Qed.

Lemma reads_advances b b' : reads b b' -> advances b b'.
Proof. intros []. split; [done..| |]; unfold synced; congruence. Qed.

Lemma advances_reads {A} (m : M A) : within reads m -> within advances m.
Proof. apply within_mono, reads_advances. Qed.
Hint Extern 1 (within advances _) => apply advances_reads; solve [eauto with frame] : frame.

Lemma update_reads fn : (forall db db', fn db = Ok db' -> keeps_state db db') -> within advances (update_db fn).
Proof.
  intros Hk b. unfold update_db, Database.Update. destruct (fn (db b)) eqn:E; cbn; try (apply reads_advances; by destruct b).
  apply Hk in E as E'. split; cbn; [done..| |].
  - intros h. unfold Database.HasBlock. by destruct E' as [-> _].
  - intros [Hs Hk']. split; [by eapply stores_keeps | by apply E'].
Qed.

(** The end of [connectBlock] and of [disconnectBlock]: the database is updated, and
    then the state in memory, which cannot fail. *)
Lemma update_snapshot {A} fn (tail : unit -> M A) state :
  (forall db db', fn db = Ok db' -> Database.blocks db' = Database.blocks db /\ stores db' state /\ has_keys db') ->
  (forall b, let b' := (tail tt b).1 in orphans b' = orphans b /\ prevOrphans b' = prevOrphans b /\
     oldestOrphan b' = oldestOrphan b /\ db b' = db b /\ stateSnapshot b' = state) ->
  within advances (mbind tail (update_db fn)).
Proof.
  intros Hfn Hupd b. unfold mbind, M_bind, update_db, Database.Update.
  destruct (fn (db b)) eqn:E; cbn; try (apply reads_advances; by destruct b).
  destruct (Hfn _ _ E) as (Hb & Hs & Hkeys). destruct (Hupd (set_db b a)) as (Ho & Hp & Hold & Hd & Hsn). split; [done..| |].
  - intros h. rewrite Hd. unfold Database.HasBlock. cbn. by rewrite Hb.
  - intros _. split; by rewrite Hd, ?Hsn.
Qed.
Hint Resolve connect_db_stores disconnect_db_stores : keeps.
Hint Extern 0 (within advances (mbind _ (update_db _))) =>
  eapply update_snapshot; [eauto with keeps | by intros []] : frame.

Lemma advances_connectBlock a block v k s : within advances (connectBlock chainParams indexManager a block v k s).
Proof. unfold connectBlock. framed. Qed.

Lemma advances_disconnectBlock a block v k : within advances (disconnectBlock chainParams indexManager a block v k).
Proof. unfold disconnectBlock. framed. Qed.
Hint Resolve advances_connectBlock advances_disconnectBlock : frame.

Lemma advances_detach nodes blocks v k : within advances (detach_blocks chainParams indexManager nodes blocks v k).
Proof. revert blocks v. induction nodes; intros blocks v; cbn [detach_blocks]; framed. Qed.

Lemma advances_attach nodes blocks v k sh : within advances (attach_blocks chainParams indexManager nodes blocks v k sh).
Proof.
  revert blocks v k sh. induction nodes; intros blocks v k sh; cbn [attach_blocks]; framed. apply within_modify. by intros b; destruct sh.
Qed.
Hint Resolve advances_detach advances_attach : frame.

Lemma advances_reorganize d a f : within advances (reorganizeChain chainParams checkpoints indexManager run_scripts d a f).
Proof. unfold reorganizeChain. framed. Qed.
Hint Resolve advances_reorganize : frame.

Lemma within_deferring {A} (m : M A) after : within advances m -> within advances after -> within advances (deferring m after).
Proof.
  intros Hm Ha b. unfold deferring. specialize (Hm b). destruct (m b) as [b1 r]; cbn in *.
  destruct r; try done; (etrans; [exact Hm|]); apply (within_bind (R := advances)); try done; intros ?; framed.
Qed.

Lemma advances_add a : within advances (add_child a).
Proof. unfold add_child. framed. Qed.

Lemma advances_undo a : within advances (undo_child a).
Proof. unfold undo_child. framed. done. Qed.

Lemma advances_extend a f : within advances (extend_side_chain chainParams checkpoints indexManager run_scripts a f).
Proof. unfold extend_side_chain. framed. Qed.
Hint Resolve within_deferring advances_add advances_undo advances_extend : frame.

Lemma advances_best a block f : within advances (connectBestChain chainParams checkpoints indexManager run_scripts a block f).
Proof. unfold connectBestChain. framed; done. Qed.
Hint Resolve advances_best : frame.

Lemma advances_store block : within advances (update_db (fun db => dbMaybeStoreBlock db block)).
Proof.
  intros b. unfold update_db, Database.Update. destruct (dbMaybeStoreBlock (db b) block) eqn:E; cbn; try (apply reads_advances; by destruct b).
  apply store_block_state in E as (Hg & _ & Hb). split; cbn; [done..|done|].
  unfold synced, stores, has_keys, Database.Get. cbn. by rewrite Hg.
Qed.
Hint Resolve advances_store : frame.

Lemma advances_accept block f : within advances (maybeAcceptBlock chainParams checkpoints indexManager run_scripts block f).
Proof.
  unfold maybeAcceptBlock. apply within_bind; [framed|intros p]. apply within_bind; [framed|intros ?].
  apply within_bind; [apply advances_store|intros ?]. framed.
Qed.

Lemma M_bind_Ok {A B} (m : M A) (k : A -> M B) b b' r :
  mbind k m b = (b', Ok r) <-> exists a b1, m b = (b1, Ok a) /\ k a b1 = (b', Ok r).
Proof.
  unfold mbind, M_bind. destruct (m b) as [b1 []]; split; (try by intros (a' & b1' & [=] & ?)); (try by intros [=]).
  - intros E. eauto.
  - intros (a' & b1' & [= <- <-] & E). done.
Qed.

(** An accepted block is in the database. *)
Lemma accept_stores block f b b' r :
  maybeAcceptBlock chainParams checkpoints indexManager run_scripts block f b = (b', Ok r) ->
  Database.HasBlock (db b') (MsgBlock.BlockHash (MsgBlock.msgBlock block)) = true.
Proof.
  unfold maybeAcceptBlock. intros (p & b1 & _ & (x & b2 & _ & Hr)%M_bind_Ok)%M_bind_Ok.
  apply M_bind_Ok in Hr as (y & b3 & Hs & Hr). revert Hs. unfold update_db, Database.Update.
  destruct (dbMaybeStoreBlock (db b2) block) eqn:E; [|done..]. intros [= <- <-].
  apply store_block_state in E as (_ & Hb & _).
  match type of Hr with ?m _ = _ => assert (within advances m) as Hm by framed end.
  apply (within_run _ _ _ _ Hm) in Hr as []. eauto.
Qed.

(** * Orphans *)
Definition pool_ok (b : BlockChain) : Prop :=
  forall h l o, prevOrphans b !! h = Some l -> o ∈ l -> orphan_prev o = h.

Lemma sum_list_perm (l k : list nat) : l ≡ₚ k -> sum_list l = sum_list k.
Proof. induction 1; cbn; lia. Qed.

Definition waiting_in (m : gmap bytes (list orphanBlock)) : nat := sum_list (map (fun p => length (snd p)) (map_to_list m)).

Lemma waiting_delete m k l : m !! k = Some l -> waiting_in m = (length l + waiting_in (delete k m))%nat.
Proof. intros Hk. unfold waiting_in. by rewrite <- (sum_list_perm _ _ (fmap_Permutation _ _ _ (map_to_list_delete m k l Hk))). Qed.

Lemma waiting_insert m k l l' : m !! k = Some l -> (length l' < length l)%nat -> (waiting_in (<[k := l']> m) < waiting_in m)%nat.
Proof.
  intros Hk Hl. rewrite (waiting_delete _ k l Hk), (waiting_delete (<[k := l']> m) k l' (lookup_insert_eq _ _ _)).
  rewrite delete_insert_eq. lia.
Qed.

Lemma remove_lookup b o h :
  prevOrphans (removeOrphanBlock b o) !! h = prevOrphans b !! h \/
  h = orphan_prev o /\ (prevOrphans (removeOrphanBlock b o) !! h = None \/
    exists l, prevOrphans (removeOrphanBlock b o) !! h = Some l /\ l ⊆ default [] (prevOrphans b !! h)).
Proof.
  unfold removeOrphanBlock. cbn. destruct (decide (h = orphan_prev o)) as [->|Hne].
  - right. split; [done|]. destruct (filter _ _) eqn:E; [left; apply lookup_delete_eq|]. right. eexists.
    split; [apply lookup_insert_eq|]. rewrite <- E. intros x Hx. by apply list_elem_of_filter in Hx as [_ ?].
  - left. destruct (filter _ _); [by apply lookup_delete_ne | by apply lookup_insert_ne].
Qed.

Lemma remove_pool b o : pool_ok b -> pool_ok (removeOrphanBlock b o).
Proof.
  intros Hp h l x Hl Hx. destruct (remove_lookup b o h) as [E | [-> [E | (l' & E & Hsub)]]]; rewrite E in Hl; [by eapply Hp|done|].
  injection Hl as ->. apply Hsub in Hx. destruct (prevOrphans b !! orphan_prev o) eqn:Hd; [by eapply Hp|]. by apply elem_of_nil in Hx.
Qed.

Lemma remove_waiting b o l :
  prevOrphans b !! orphan_prev o = Some l -> o ∈ l ->
  (waiting_in (prevOrphans (removeOrphanBlock b o)) < waiting_in (prevOrphans b))%nat.
Proof.
  intros Hl Ho. unfold removeOrphanBlock. cbn. rewrite Hl. cbn [default from_option id].
  set (rest := filter _ l). assert (length rest < length l)%nat as Hlt.
  { apply length_filter_lt with o; [done|]. intros Hn. by apply Hn. }
  destruct rest eqn:E.
  - rewrite (waiting_delete _ _ _ Hl). cbn in Hlt. lia.
  - by eapply waiting_insert.
Qed.

Lemma gets_bind {A B} (f : BlockChain -> A) (k : A -> M B) b : mbind k (gets f) b = k (f b) b.
Proof. done. Qed.

Lemma modify_bind {B} f (k : unit -> M B) b : mbind k (modify f) b = k tt (f b).
Proof. done. Qed.

(** An orphan that waits for a block. *)
Definition waits (b : BlockChain) (h : bytes) (o : orphanBlock) : Prop := exists l, prevOrphans b !! h = Some l /\ o ∈ l.

Lemma remove_waits b o h x : waits (removeOrphanBlock b o) h x -> waits b h x.
Proof.
  intros (l & Hl & Hx). destruct (remove_lookup b o h) as [E | [_ [E | (l' & E & Hsub)]]]; rewrite E in Hl; [by exists l | done |].
  injection Hl as ->. apply Hsub in Hx. destruct (prevOrphans b !! h) as [k|] eqn:Hk; [by exists k | by apply elem_of_nil in Hx].
Qed.

(** The orphans [l] are accepted one after the other, each of them when its parent is
    among the accepted blocks [hs]. *)
Inductive accepts (flags : Z) : list bytes -> BlockChain -> list orphanBlock -> BlockChain -> Prop :=
  | accepts_none hs b : accepts flags hs b [] b
  | accepts_next hs b o b1 main l b' :
      orphan_prev o ∈ hs -> waits b (orphan_prev o) o ->
      maybeAcceptBlock chainParams checkpoints indexManager run_scripts (orphan_block o) flags (removeOrphanBlock b o) = (b1, Ok main) ->
      accepts flags (hs ++ [orphan_hash o]) b1 l b' -> accepts flags hs b (o :: l) b'.

(** How the loop ends: every orphan below the accepted blocks was accepted, or one of
    them was not, and its error is the result. *)
Definition drained (flags : Z) (hs : list bytes) (b : BlockChain) (out : BlockChain * res error unit) : Prop :=
  exists l b1, accepts flags hs b l b1 /\ (length l <= waiting_in (prevOrphans b))%nat /\
    (out = (b1, Ok tt) /\ (forall h o, h ∈ hs ++ map orphan_hash l -> ~ waits b1 h o) \/
     exists o b2 r, orphan_prev o ∈ hs ++ map orphan_hash l /\ waits b1 (orphan_prev o) o /\
       maybeAcceptBlock chainParams checkpoints indexManager run_scripts (orphan_block o) flags (removeOrphanBlock b1 o) = (b2, r) /\
       (forall main, r <> Ok main) /\ out = (b2, mbind (fun _ => Ok tt) r)).

Lemma drained_next flags hs b o b1 main out :
  orphan_prev o ∈ hs -> waits b (orphan_prev o) o ->
  maybeAcceptBlock chainParams checkpoints indexManager run_scripts (orphan_block o) flags (removeOrphanBlock b o) = (b1, Ok main) ->
  (waiting_in (prevOrphans b1) < waiting_in (prevOrphans b))%nat -> drained flags (hs ++ [orphan_hash o]) b1 out -> drained flags hs b out.
Proof.
  intros Hin Hw Ha Hlt (l & b2 & Hl & Hn & Hout). exists (o :: l), b2. split; [by eapply accepts_next|]. split; [simpl; lia|].
  by rewrite <- app_assoc in Hout.
Qed.

(** Every round takes away an orphan or a hash: [seen] are the hashes that were taken
    away, for which no orphan waits. *)
Lemma process_drains f flags : forall seen hs b,
  pool_ok b -> (2 * waiting_in (prevOrphans b) + length hs < f)%nat -> (forall h o, h ∈ seen -> ~ waits b h o) ->
  drained flags (seen ++ hs) b (process_loop chainParams checkpoints indexManager run_scripts f hs flags b).
Proof.
  induction f as [|f IH]; intros seen hs b Hp Hf Hs; [lia|]. cbn [process_loop].
  destruct hs as [|h rest].
  { rewrite app_nil_r. exists [], b. split; [constructor|]. split; [simpl; lia|]. left. by rewrite app_nil_r. }
  rewrite gets_bind. cbn [length] in Hf. destruct (prevOrphans b !! h) as [[|o l]|] eqn:Ho.
  2:{ rewrite modify_bind. assert (orphan_prev o = h) as <- by (eapply Hp; [done | by left]).
      assert (waits b (orphan_prev o) o) as Hw by (exists (o :: l); split; [done | by left]).
      pose proof (remove_waiting b o _ Ho ltac:(by left)) as Hlt. unfold mbind, M_bind.
      pose proof (advances_accept (orphan_block o) flags (removeOrphanBlock b o)) as Ha.
      destruct (maybeAcceptBlock _ _ _ _ _ _ _) as [b1 r] eqn:Em. cbn in Ha. destruct Ha as [_ Hprev _ _ _].
      assert (orphan_prev o ∈ seen ++ orphan_prev o :: rest) as Hin by set_solver. destruct r as [main|e| |].
      1:{ eapply drained_next; [done | done | exact Em | by rewrite Hprev |]. rewrite <- app_assoc. apply (IH seen).
          - intros x y z. rewrite Hprev. by apply (remove_pool b o).
          - cbn [length app]. rewrite Hprev, length_app. cbn [length]. lia.
          - intros h x Hh (k & Hk & Hx). rewrite Hprev in Hk. apply (Hs h x Hh). apply (remove_waits b o). by exists k. }
      all: exists [], b; split; [constructor|]; split; [simpl; lia|]; right; exists o, b1; eexists; rewrite app_nil_r; split_and!; try done. }
  all: replace (seen ++ h :: rest) with ((seen ++ [h]) ++ rest) by (by rewrite <- app_assoc); apply IH; [done | lia |];
    intros h' o [Hh | ->%list_elem_of_singleton]%elem_of_app; [by apply Hs|]; intros (k & Hk & Hx); rewrite Ho in Hk;
    first [done | injection Hk as <-; by apply elem_of_nil in Hx].
Qed.

(** * Processing *)
Record grows (b b' : BlockChain) : Prop := mkGrows {
  grow_blocks : forall h, Database.HasBlock (db b) h = true -> Database.HasBlock (db b') h = true;
  grow_sync : synced b -> synced b';
  grow_pool : pool_ok b -> pool_ok b'
}.

#[local] Instance grows_preorder : PreOrder grows.
Proof. split; [by intros b|]. intros b1 b2 b3 [] []. split; eauto. Qed.

Lemma grows_advances {A} (m : M A) : within advances m -> within grows m.
Proof.
  apply within_mono. intros b b' []. split; [done..|]. intros Hp h l o. rewrite adv_prev0. apply Hp.
Qed.

Lemma grows_reads {A} (m : M A) : within reads m -> within grows m.
Proof. intros Hm. by apply grows_advances, advances_reads. Qed.
Hint Extern 1 (within grows _) => apply grows_reads; solve [eauto with frame] : frame.

Lemma grows_accept block f : within grows (maybeAcceptBlock chainParams checkpoints indexManager run_scripts block f).
Proof. apply grows_advances, advances_accept. Qed.

Lemma grows_remove b o : grows b (removeOrphanBlock b o).
Proof. split; [done..|]. apply remove_pool. Qed.
Hint Resolve grows_accept grows_remove : frame.

Lemma grows_loop n hs f : within grows (process_loop chainParams checkpoints indexManager run_scripts n hs f).
Proof. revert hs. induction n; intros hs; cbn [process_loop]; framed. Qed.

Lemma grows_orphans hash f : within grows (processOrphans chainParams checkpoints indexManager run_scripts hash f).
Proof. intros b. apply grows_loop. Qed.

Lemma grows_expire now l b : grows b (expire_orphans now l b).
Proof.
  revert b. induction l as [|o l IH]; intros b; cbn [expire_orphans]; [done|].
  case_if; (etrans; [|apply IH]); [apply grows_remove|]. by case_if.
Qed.

Lemma grows_add now block : within grows (addOrphanBlock now block).
Proof.
  intros b. unfold addOrphanBlock. set (b1 := expire_orphans _ _ b).
  pose proof (grows_expire now (map snd (map_to_list (orphans b))) b : grows b b1) as H1. clearbody b1.
  etrans; [exact H1|]. clear H1 b.
  assert (forall b2, grows b1 b2 -> grows b1
    (let o := mkOrphanBlock block (mkTime (i64 (sec now + 3600)) (nsec now)) in
     set_orphans b2 (<[orphan_hash o := o]> (orphans b2))
         (<[orphan_prev o := default [] (prevOrphans b2 !! orphan_prev o) ++ [o]]> (prevOrphans b2)) (oldestOrphan b2))) as Hadd.
  { intros b2 H2. etrans; [exact H2|]. split; [done..|]. intros Hp h l x. cbn.
    destruct (decide (h = orphan_prev (mkOrphanBlock block (mkTime (i64 (sec now + 3600)) (nsec now))))) as [->|Hne].
    - rewrite lookup_insert_eq. intros [= <-] [Hx | ->%list_elem_of_singleton]%elem_of_app; [|done].
      destruct (prevOrphans b2 !! _) eqn:E; [by eapply Hp | by apply elem_of_nil in Hx].
    - rewrite lookup_insert_ne by done. apply Hp. }
  case_if; [|by apply Hadd]. destruct (oldestOrphan b1) as [o|]; [|done]. apply Hadd.
  transitivity (removeOrphanBlock b1 o); [apply grows_remove|]. by split.
Qed.
Hint Resolve grows_orphans grows_add : frame.

Lemma grows_process now block f : within grows (ProcessBlock chainParams checkpoints indexManager run_scripts now block f).
Proof. unfold ProcessBlock. framed. Qed.

(** * Starting *)
Lemma alloc_bind {B} n (k : nat -> M B) b :
  mbind k (alloc n) b = k (next b) (set_heap b (<[next b := n]> (heap b)) (S (next b))).
Proof. done. Qed.

Lemma create_db_stores genesis node v tips last state db db' :
  create_db chainParams genesis node v tips last state db = Ok db' -> stores db' state /\ has_keys db'.
Proof.
  unfold create_db.
  intros (d1 & _ & (d2 & _ & (d3 & _ & (d4 & _ & (d5 & _ & (d6 & _ & Hr)%bind_Ok)%bind_Ok)%bind_Ok)%bind_Ok)%bind_Ok)%bind_Ok.
  apply bind_Ok in Hr as (d7 & (_ & Hs & _)%put_state_stores & (d8 & H8 & H9%db_err_Ok)%bind_Ok).
  assert (Database.metadata db' = Database.metadata d8) as Hm.
  { revert H9. unfold Database.StoreBlock. case_match; [done|]. by intros [= <-]. }
  pose proof (put_keys_has _ _ _ _ _ _ _ H8) as Hk. apply put_keys_keeps in H8. apply (stores_keeps _ _ _ H8) in Hs.
  revert Hs Hk. unfold stores, has_keys, Database.Get. by rewrite Hm.
Qed.

Lemma create_synced b b' : createChainState chainParams b = (b', Ok tt) -> synced b' /\ prevOrphans b' = prevOrphans b.
Proof.
  unfold createChainState. rewrite alloc_bind, !modify_bind.
  intros (cb & b1 & [= <- _] & (v & b2 & Hv & Hr)%M_bind_Ok)%M_bind_Ok.
  apply (within_run (R := eq)) in Hv as <-; [|framed].
  rewrite modify_bind in Hr. unfold update_db, Database.Update in Hr.
  destruct (create_db _ _ _ _ _ _ _ _) as [db'| | |] eqn:E; try done. injection Hr as <-.
  split; [|done]. split; by apply create_db_stores in E as [].
Qed.

Lemma init_synced b b' : initChainState chainParams b = (b', Ok tt) -> synced b' /\ prevOrphans b' = prevOrphans b.
Proof.
  unfold initChainState. intros (stored & b1 & Hst & Hr)%M_bind_Ok. injection Hst as <- Hst.
  destruct stored as [[[[state [[[[sets ids] tips] last] supply]] bytes] block]|]; [|by apply create_synced].
  rewrite alloc_bind, !modify_bind in Hr. apply M_bind_Ok in Hr as (mt & b2 & Hm & Hr). apply (within_run (R := reads)) in Hm; [|apply reads_median].
  injection Hr as <-. destruct Hm as [Hdb _ _ _ _ _ _ _ Hp _ _ _]. cbn in Hdb, Hp. split; [|done].
  revert Hst. unfold stored_state. destruct (Database.Get (db b) chainStateKeyName) as [data|] eqn:Hg; [|done].
  intros (st & Hd & Hst)%bind_Ok. destruct (Database.Get (db b) keySetBucketName) as [kd|] eqn:Hk; [|done].
  apply bind_Ok in Hst as (keys & _ & (bb & _ & ([blk x] & _ & [= -> -> -> ->])%bind_Ok)%bind_Ok).
  split; cbn; rewrite Hdb; [|by exists kd]. exists data. split; [done|]. intros _ st' Hst'. rewrite Hd in Hst'. by injection Hst' as <-.
Qed.

Lemma indexes_synced b b' r : init_indexes indexManager b = (b', r) -> synced b -> synced b' /\ prevOrphans b' = prevOrphans b.
Proof.
  unfold init_indexes. destruct indexManager as [im|]; [|by intros [= <- _]].
  destruct (im_Init im b) as [db' r'] eqn:E. intros [= <- _] Hs. split; [|done].
  destruct (im_keeps im (db b) db' (GenesisBlock chainParams) NewUtxoViewpoint) as (Hm & _ & _); [left; eauto|].
  revert Hs. unfold synced, stores, has_keys, Database.Get. cbn. by rewrite Hm.
Qed.

Lemma new_synced db0 hc b : New chainParams checkpoints indexManager db0 hc = (b, Ok tt) -> synced b /\ pool_ok b.
Proof.
  unfold New. case_if; [done|]. intros ([] & b1 & Hi & Hr)%M_bind_Ok. apply init_synced in Hi as [Hs Hp].
  apply indexes_synced in Hr as [Hs' Hp']; [|done]. split; [done|]. intros h l o. rewrite Hp', Hp. cbn. by rewrite lookup_empty.
Qed.

(** A chain that was started and has processed blocks and answered queries. *)
Inductive reaches (db0 : Database.DB) : BlockChain -> Prop :=
  | reach_new hc b : New chainParams checkpoints indexManager db0 hc = (b, Ok tt) -> reaches db0 b
  | reach_process b now block flags b' r :
      reaches db0 b -> ProcessBlock chainParams checkpoints indexManager run_scripts now block flags b = (b', r) -> reaches db0 b'
  | reach_query b b' : reaches db0 b -> reads b b' -> reaches db0 b'.

Lemma reaches_inv db0 b : reaches db0 b -> synced b /\ pool_ok b.
Proof.
  induction 1 as [hc b Hn|b now block flags b' r _ [IH1 IH2] Hp|b b' _ [IH1 IH2] Hr]; [by eapply new_synced| |].
  - apply (within_run (R := grows)) in Hp as []; [eauto | apply grows_process].
  - destruct Hr. split; [by unfold synced; rewrite reads_db0, reads_snapshot0|]. intros h l o. rewrite reads_prev0. apply IH2.
Qed.

(** * The theorems *)
Lemma duplicate_known now block flags b :
  Database.HasBlock (db b) (MsgBlock.BlockHash (MsgBlock.msgBlock block)) = true \/
  IsKnownOrphan b (MsgBlock.BlockHash (MsgBlock.msgBlock block)) = true ->
  ProcessBlock chainParams checkpoints indexManager run_scripts now block flags b = (b, ruleError ErrDuplicateBlock).
Proof.
  intros Hk. unfold ProcessBlock. unfold mbind at 1, M_bind at 1, blockExists at 1. case_bool_decide; [done|].
  destruct (Database.HasBlock _ _); [done|]. rewrite gets_bind. by destruct Hk as [ | -> ].
Qed.

(** The orphan that was added is known. *)
Lemma add_known now block b b' :
  addOrphanBlock now block b = (b', Ok tt) -> IsKnownOrphan b' (MsgBlock.BlockHash (MsgBlock.msgBlock block)) = true.
Proof.
  unfold addOrphanBlock. match goal with |- context [match ?x with Some _ => _ | None => _ end] => destruct x end; [|done]. intros Hr. apply (f_equal fst) in Hr. cbn [fst] in Hr. subst b'.
  apply bool_decide_eq_true. eexists. apply lookup_insert_eq.
Qed.

(** What the chain becomes while it processes blocks, whatever their outcome. *)
Definition later : relation BlockChain :=
  rtc (fun b b' => exists now block flags r, ProcessBlock chainParams checkpoints indexManager run_scripts now block flags b = (b', r)).

Lemma later_grows b b' : later b b' -> grows b b'.
Proof.
  induction 1 as [b|b b1 b2 (now & block & flags & r & Hp) _ IH]; [reflexivity|]. etrans; [|exact IH].
  by apply (within_run (R := grows)) in Hp; [|apply grows_process].
Qed.

(** C7: a block is processed once.  After [ProcessBlock] returned without an error for
    a block whose parent is known, every later call with the block, however many
    blocks were processed in between and whatever its flags, is refused as a duplicate
    and changes nothing.  This includes a dry run: the block is stored before the rules
    for connecting it are checked, so a block that was tried is refused when it comes.
    A block that was kept as an orphan is refused as long as it is kept, and it is kept
    right after the call. *)
Theorem processed_once now block flags b b' main orphan :
  ProcessBlock chainParams checkpoints indexManager run_scripts now block flags b = (b', Ok (main, orphan)) ->
  (orphan = false -> forall b'' now' flags', later b' b'' ->
    ProcessBlock chainParams checkpoints indexManager run_scripts now' block flags' b'' = (b'', ruleError ErrDuplicateBlock)) /\
  (orphan = true -> has_flag flags BFDryRun = false -> IsKnownOrphan b' (MsgBlock.BlockHash (MsgBlock.msgBlock block)) = true) /\
  (forall b'' now' flags', IsKnownOrphan b'' (MsgBlock.BlockHash (MsgBlock.msgBlock block)) = true ->
    ProcessBlock chainParams checkpoints indexManager run_scripts now' block flags' b'' = (b'', ruleError ErrDuplicateBlock)).
Proof.
  intros Hp. split_and!; [| |intros b'' now' flags' Hk; apply duplicate_known; by right]; revert Hp; unfold ProcessBlock at 1;
  intros (ex & b1 & _ & Hp)%M_bind_Ok; (destruct ex; [done|]);
  apply M_bind_Ok in Hp as (known & b2 & _ & Hp); (destruct known; [done|]);
  apply M_bind_Ok in Hp as (x1 & b3 & _ & (x2 & b4 & _ & (x3 & b5 & _ & (prev & b6 & _ & Hp)%M_bind_Ok)%M_bind_Ok)%M_bind_Ok);
  destruct prev; cbn [negb] in Hp.
  - intros _ b'' now' flags' Hl. apply duplicate_known. left. apply M_bind_Ok in Hp as (m & b7 & Ha & Hp). apply accept_stores in Ha.
    apply M_bind_Ok in Hp as (x4 & b8 & Ho & [= <- _ _]). apply (later_grows _ _ Hl).
    apply (within_run (R := grows)) in Ho as []; [by eauto|]. framed.
  - apply M_bind_Ok in Hp as ([] & b7 & Ha & [= _ _ <-]). done.
  - apply M_bind_Ok in Hp as (m & b7 & _ & (x4 & b8 & _ & [= _ _ <-])%M_bind_Ok). done.
  - intros _ Hd. apply M_bind_Ok in Hp as ([] & b7 & Ha & [= <- _ _]). rewrite Hd in Ha. by apply add_known in Ha.
Qed.

(** C8: accepting orphans ends, with all of them accepted.  In every chain that was
    started from a database and has processed blocks, [processOrphans] accepts a list
    of orphans, no longer than the number of orphans that wait, each when its parent is
    the block that was given or one accepted before.  Then either no orphan waits for
    any of these blocks and the function returns without an error, or accepting one
    more orphan did not succeed, and the outcome of that one call is the outcome of the
    function. *)
Theorem orphans_terminate db0 b hash flags :
  reaches db0 b -> drained flags [hash] b (processOrphans chainParams checkpoints indexManager run_scripts hash flags b).
Proof.
  intros [_ Hp]%reaches_inv. apply (process_drains _ flags [] [hash]); [done | | by intros h o ?%elem_of_nil].
  unfold waiting_orphans, waiting_in. cbn [length]. lia.
Qed.

Lemma init_tip b b' data : initChainState chainParams b = (b', Ok tt) ->
  Database.Get (db b) chainStateKeyName = Some data -> has_keys (db b) ->
  exists st, deserializeBestChainState data = Ok st /\ same_tip st (stateSnapshot b').
Proof.
  unfold initChainState. intros (stored & b1 & Hst & Hr)%M_bind_Ok Hg [kd Hk]. injection Hst as <- Hst.
  revert Hst. unfold stored_state. rewrite Hg, Hk. intros (st & Hd & (keys & _ & (bb & _ & ([blk x] & _ & Hst)%bind_Ok)%bind_Ok)%bind_Ok)%bind_Ok.
  exists st. split; [done|]. injection Hst as <-. destruct keys as [[[[sets ids] tips] last] supply].
  rewrite alloc_bind, !modify_bind in Hr. apply M_bind_Ok in Hr as (mt & b2 & Hm & Hr). injection Hr as <-. done.
Qed.

(** C6: a restart finds the tip.  In every chain that was started from a database and
    has processed blocks, whatever their outcome (accepted, refused, a failed
    reorganization), the database describes the tip that the chain reports: a new
    chain started from it reports the same block, height and number of
    transactions. *)
Theorem restart_same_tip db0 b hc b' :
  reaches db0 b -> typed (stateSnapshot b) ->
  New chainParams checkpoints indexManager (db b) hc = (b', Ok tt) ->
  snap_Hash (stateSnapshot b') = snap_Hash (stateSnapshot b) /\ snap_Height (stateSnapshot b') = snap_Height (stateSnapshot b) /\
  snap_TotalTxns (stateSnapshot b') = snap_TotalTxns (stateSnapshot b).
Proof.
  intros [[(data & Hg & Hs) Hk] _]%reaches_inv Ht. specialize (Hs Ht). unfold New. case_if; [done|].
  intros ([] & b1 & Hi & Hr)%M_bind_Ok.
  assert (stateSnapshot b' = stateSnapshot b1) as ->.
  { revert Hr. unfold init_indexes. intros E%(f_equal fst). revert E. destruct indexManager; [destruct (im_Init _ _)|]; cbn; by intros <-. }
  destruct (init_tip _ _ data Hi Hg Hk) as (st & Hd & E1 & E2 & E3). destruct (Hs st Hd) as (E4 & E5 & E6). split_and!; congruence.
Qed.
End chain.

Lemma processed_once_witness :
  let b := (Example.processed (Example.fast + BFDryRun)).1 in
  @ProcessBlock example_primitives Example.example_powhash Example.params [] None Example.all_valid (time_Unix 1500000300)
    Example.next_block BFNone b = (b, ruleError ErrDuplicateBlock).
Proof.
  destruct (@processed_once example_primitives Example.example_powhash Example.params [] None Example.all_valid
    (time_Unix 1500000200) Example.next_block (Example.fast + BFDryRun) Example.started _ true false Example.dry_run_ok) as (Hrefused & _).
  apply Hrefused; [reflexivity | apply rtc_refl].
Defined.

Lemma example_reaches :
  @reaches example_primitives Example.example_powhash Example.params [] None Example.all_valid Database.empty_db (Example.processed Example.fast).1.
Proof.
  apply (@reach_process example_primitives Example.example_powhash Example.params [] None Example.all_valid Database.empty_db Example.started
    (time_Unix 1500000200) Example.next_block Example.fast (Example.processed Example.fast).1 (Ok (true, false))).
  - apply (@reach_new example_primitives Example.example_powhash Example.params [] None Example.all_valid Database.empty_db None).
    exact Example.started_ok.
  - exact Example.processed_ok.
Qed.

Lemma orphans_terminate_witness :
  @drained example_primitives Example.example_powhash Example.params [] None Example.all_valid BFNone [zeroHash] (Example.processed Example.fast).1
    (@processOrphans example_primitives Example.example_powhash Example.params [] None Example.all_valid zeroHash BFNone
      (Example.processed Example.fast).1).
Proof. apply (orphans_terminate _ _ _ _ Database.empty_db). exact example_reaches. Defined.

Lemma example_typed : typed (stateSnapshot (Example.processed Example.fast).1).
Proof. split_and!; vm_compute; by split. Qed.

Lemma restart_same_tip_witness :
  snap_Height (stateSnapshot (@New Example.example_powhash Example.params [] None (db (Example.processed Example.fast).1) None).1) = 1.
Proof.
  destruct (restart_same_tip Example.params [] None Example.all_valid Database.empty_db (Example.processed Example.fast).1 None
    (@New Example.example_powhash Example.params [] None (db (Example.processed Example.fast).1) None).1
    example_reaches example_typed Example.restarted_ok) as (_ & E & _).
  exact (eq_trans E Example.processed_height).
Defined.
End ChainSpec.
