(* ===== verification/ValidateSpec.v ===== *)
(** The goroutines that validate scripts: whatever the interleaving, they return
    nil only if every item is valid, they report the error of an item otherwise,
    and they end without a deadlock or a goroutine left behind. *)
From S2P Require Import Prelude Wire Crypto Script SigCache Engine Utxo KeyView Validate ScriptVal.
Import wire Crypto Script Engine Utxo KeyView Validate ScriptVal.
#[local] Open Scope Z_scope.

Module ValidateSpec.

Section interleavings.
Context `{Primitives} `{SigCache.Random}.
Context (good : option SigCache.SigCache -> Prop) (v : txValidator).

Definition valid (item : txValidateItem) : Prop := exists cache, good cache /\ validate_item v cache item = Ok tt.
Definition fails (e : error) (item : txValidateItem) : Prop :=
  exists cache, good cache /\ validate_item v cache item = Err e.

(** ** The workers as a collection *)
Definition busy_item (w : worker) : list txValidateItem := match w with Busy item => [item] | _ => [] end.
Definition in_flight (w : worker) : Z := match w with Busy _ | Sending _ => 1 | _ => 0 end.
Definition failed (w : worker) : Z := match w with Sending (Some _) => 1 | _ => 0 end.
Definition total (f : worker -> Z) (ws : list worker) : Z := foldr (fun w n => f w + n) 0 ws.

Lemma total_perm f ws ws' : ws ≡ₚ ws' -> total f ws = total f ws'.
Proof. unfold total. induction 1; cbn [foldr]; lia. Qed.

Lemma busy_perm ws ws' : ws ≡ₚ ws' -> flat_map busy_item ws ≡ₚ flat_map busy_item ws'.
Proof. intros Hp. by apply Permutation_flat_map. Qed.

Lemma total_nonneg f ws : (forall w, 0 <= f w) -> 0 <= total f ws.
Proof. unfold total. intros Hf. induction ws as [|w ws IH]; cbn [foldr]; [done|]. specialize (Hf w). lia. Qed.

(** One worker changes. *)
Lemma worker_split (ws : list worker) j w :
  ws !! j = Some w -> exists rest, ws ≡ₚ w :: rest /\ forall w', <[j := w']> ws ≡ₚ w' :: rest.
Proof.
  intros Hj. exists (take j ws ++ drop (S j) ws). pose proof (lookup_lt_Some _ _ _ Hj). split.
  - rewrite <- (take_drop_middle ws j w Hj) at 1. symmetry. apply Permutation_middle.
  - intros w'. rewrite insert_take_drop by done. symmetry. apply Permutation_middle.
Qed.

(** ** Safety *)

(** Every item is checked, failed, in work or not sent; while the loop runs the
    number of results to come is the number of the others. *)
Definition accounted (items : list txValidateItem) (s : state) : Prop :=
  (forall e, Sending (Some e) ∈ workers s \/ returned s = Some (Some e) -> exists item, item ∈ items /\ fails e item) /\
  (forall item, Busy item ∈ workers s \/ item ∈ unsent s -> item ∈ items) /\
  match returned s with
  | None =>
      exists checked lost, items ≡ₚ checked ++ lost ++ flat_map busy_item (workers s) ++ unsent s /\
        Forall valid checked /\ len lost = total failed (workers s) /\
        pending s = len (unsent s) + total in_flight (workers s) /\
        Ended ∉ workers s
  | Some None => Forall valid items
  | Some (Some _) => True
  end.

Lemma accounted_start numCPU items : accounted items (start numCPU items).
Proof.
  unfold accounted, start. cbn [workers returned unsent pending]. split_and!.
  - intros e [Hin|Hr]; [by apply elem_of_replicate in Hin as [? _]|]. by destruct (_ =? 0).
  - intros item [Hin|]; [by apply elem_of_replicate in Hin as [? _] | done].
  - destruct (Z.eqb_spec (len items) 0) as [Hl|Hl].
    + apply len_0 in Hl as ->. constructor.
    + exists [], []. assert (forall n, flat_map busy_item (replicate n Idle) = [] /\ total failed (replicate n Idle) = 0 /\
        total in_flight (replicate n Idle) = 0) as Hrep.
      { intros n. unfold total. induction n as [|n IH]; [done|]. cbn in *. destruct IH as (-> & -> & ->). done. }
      destruct (Hrep (Z.to_nat (maxGoRoutines numCPU items))) as (-> & -> & ->).
      split_and!; [done | constructor | done | lia |]. by intros [? _]%elem_of_replicate.
Qed.

(** A worker's change, seen from the collection. *)
Lemma elem_of_insert_worker (ws : list worker) j w w' x :
  ws !! j = Some w -> x ∈ <[j := w']> ws -> x = w' \/ x ∈ ws.
Proof.
  intros Hj Hx. destruct (worker_split ws j w Hj) as (rest & Hp & Hp'). rewrite (Hp' w'), elem_of_cons in Hx.
  destruct Hx as [->|Hx]; [by left|]. right. rewrite Hp. by right.
Qed.

(** The sums and the items in work when one worker changes from [w] to [w']. *)
Lemma worker_change (ws : list worker) j w :
  ws !! j = Some w -> exists items k n, flat_map busy_item ws ≡ₚ busy_item w ++ items /\
    total failed ws = failed w + k /\ total in_flight ws = in_flight w + n /\
    forall w', flat_map busy_item (<[j := w']> ws) ≡ₚ busy_item w' ++ items /\
      total failed (<[j := w']> ws) = failed w' + k /\ total in_flight (<[j := w']> ws) = in_flight w' + n.
Proof.
  intros Hj. destruct (worker_split ws j w Hj) as (rest & Hp & Hp').
  exists (flat_map busy_item rest), (total failed rest), (total in_flight rest).
  rewrite (busy_perm _ _ Hp), !(total_perm _ _ _ Hp). split_and!; [done..|]. intros w'.
  by rewrite (busy_perm _ _ (Hp' w')), !(total_perm _ _ _ (Hp' w')).
Qed.

Lemma not_ended (ws : list worker) j w w' :
  ws !! j = Some w -> w' <> Ended -> Ended ∉ ws -> Ended ∉ <[j := w']> ws.
Proof. intros Hj Hne Hin Hx. destruct (elem_of_insert_worker ws j w w' _ Hj Hx) as [<-|]; done. Qed.

Lemma perm_move {A} (a b c : list A) x : a ++ b ++ x :: c ≡ₚ x :: a ++ b ++ c.
Proof. rewrite !(app_assoc a b). symmetry. apply Permutation_middle. Qed.

Lemma perm_lost {A} (a b c : list A) x : a ++ b ++ x :: c ≡ₚ a ++ (x :: b) ++ c.
Proof. f_equiv. cbn [app]. symmetry. apply Permutation_middle. Qed.

(** What a step adds to the errors and to the items in work. *)
Lemma accounted_intro items s s' :
  accounted items s ->
  (forall e, Sending (Some e) ∈ workers s' \/ returned s' = Some (Some e) ->
     (Sending (Some e) ∈ workers s \/ returned s = Some (Some e)) \/ exists item, item ∈ items /\ fails e item) ->
  (forall item, Busy item ∈ workers s' \/ item ∈ unsent s' -> Busy item ∈ workers s \/ item ∈ unsent s) ->
  match returned s' with
  | None =>
      exists checked lost, items ≡ₚ checked ++ lost ++ flat_map busy_item (workers s') ++ unsent s' /\
        Forall valid checked /\ len lost = total failed (workers s') /\
        pending s' = len (unsent s') + total in_flight (workers s') /\ Ended ∉ workers s'
  | Some None => Forall valid items
  | Some (Some _) => True
  end ->
  accounted items s'.
Proof.
  intros (Herr & Hknown & _) He Hi Hst. split_and!; [|auto|done]. intros e He'. destruct (He e He'); auto.
Qed.

(** A worker that takes an item, and one that finds it valid or invalid. *)
Lemma accounted_send items item its n ws j :
  ws !! j = Some Idle -> accounted items (mkState (item :: its) n ws None) ->
  accounted items (mkState its n (<[j := Busy item]> ws) None).
Proof.
  intros Hj Hacc. apply (accounted_intro _ _ _ Hacc); cbn [workers returned unsent pending].
  { intros e [Hin|]; [|done]. left. left. by destruct (elem_of_insert_worker ws j _ _ _ Hj Hin). }
  { intros i [Hin|]; [|set_solver]. destruct (elem_of_insert_worker ws j _ _ _ Hj Hin) as [He|]; [|by left].
    injection He as ->. set_solver. }
  destruct Hacc as (_ & _ & checked & lost & Hp & Hc & Hl & Hpend & Hend). cbn [workers returned unsent pending] in *.
  destruct (worker_change ws j _ Hj) as (bs & k & m & Hb & Hk & Hm & Hw). destruct (Hw (Busy item)) as (Hb' & Hk' & Hm').
  exists checked, lost. rewrite len_cons in Hpend. cbn [failed in_flight busy_item app] in *.
  split_and!; [|done | lia | lia | by eapply not_ended].
  rewrite Hp, Hb, Hb'. cbn [app]. do 2 f_equiv. symmetry. apply Permutation_middle.
Qed.

Lemma accounted_result items s item j cache r :
  workers s !! j = Some (Busy item) -> good cache ->
  validate_item v cache item = match r with None => Ok tt | Some e => Err e end ->
  accounted items s ->
  accounted items (mkState (unsent s) (pending s) (<[j := Sending r]> (workers s)) (returned s)).
Proof.
  intros Hj Hg Hv Hacc. destruct (worker_change _ j _ Hj) as (bs & k & m & Hb & Hk & Hm & Hw).
  destruct (Hw (Sending r)) as (Hb' & Hk' & Hm'). cbn [failed in_flight busy_item app] in *.
  apply (accounted_intro _ _ _ Hacc); cbn [workers returned unsent pending].
  { intros e [Hin|Hr]; [|by left; right]. destruct (elem_of_insert_worker _ j _ _ _ Hj Hin) as [He|]; [|by left; left].
    injection He as <-. right. exists item. split; [|by exists cache]. destruct Hacc as (_ & Hknown & _). apply Hknown.
    left. by eapply list_elem_of_lookup_2. }
  { intros i [Hin|]; [|by right]. left. by destruct (elem_of_insert_worker _ j _ _ _ Hj Hin). }
  destruct Hacc as (_ & _ & Hst). destruct (returned s) as [[]|]; [done..|].
  destruct Hst as (checked & lost & Hp & Hc & Hl & Hpend & Hend). destruct r as [e|].
  - exists checked, (item :: lost). rewrite len_cons. split_and!; [|done | lia | lia | by eapply not_ended].
    rewrite Hp, Hb, Hb'. apply perm_lost.
  - exists (item :: checked), lost. split_and!; [|constructor; [by exists cache | done] | lia | lia | by eapply not_ended].
    rewrite Hp, Hb, Hb'. apply perm_move.
Qed.

(** The loop receives a result, and the other steps. *)
Lemma accounted_receive items its n ws j :
  ws !! j = Some (Sending None) -> accounted items (mkState its n ws None) ->
  accounted items (mkState its (n - 1) (<[j := Idle]> ws) None).
Proof.
  intros Hj Hacc. apply (accounted_intro _ _ _ Hacc); cbn [workers returned unsent pending].
  { intros e [Hin|]; [|done]. left. left. by destruct (elem_of_insert_worker ws j _ _ _ Hj Hin). }
  { intros i [Hin|]; [|by right]. left. by destruct (elem_of_insert_worker ws j _ _ _ Hj Hin). }
  destruct Hacc as (_ & _ & checked & lost & Hp & Hc & Hl & Hpend & Hend). cbn [workers returned unsent pending] in *.
  destruct (worker_change ws j _ Hj) as (bs & k & m & Hb & Hk & Hm & Hw). destruct (Hw Idle) as (Hb' & Hk' & Hm').
  exists checked, lost. cbn [failed in_flight busy_item app] in *.
  split_and!; [by rewrite Hp, Hb, Hb' | done | lia | lia | by eapply not_ended].
Qed.

Lemma accounted_return items its ws : accounted items (mkState its 0 ws None) -> accounted items (mkState its 0 ws (Some None)).
Proof.
  intros Hacc. apply (accounted_intro _ _ _ Hacc); cbn [workers returned unsent pending].
  { intros e [Hin|]; [by left; left | done]. }
  { done. }
  destruct Hacc as (_ & _ & checked & lost & Hp & Hc & Hl & Hpend & _). cbn [workers returned unsent pending] in *.
  pose proof (len_nonneg its). assert (forall w, 0 <= failed w <= in_flight w) as Hf by (intros [| |[]|]; cbn; lia).
  pose proof (total_nonneg in_flight ws ltac:(intros w; specialize (Hf w); lia)) as Hi.
  assert (total failed ws <= total in_flight ws) as Hle.
  { unfold total. clear -Hf. induction ws as [|w ws IH]; cbn [foldr]; [done|]. specialize (Hf w). lia. }
  assert (lost = []) as -> by (apply len_0; pose proof (len_nonneg lost); lia).
  assert (its = []) as -> by (apply len_0; lia).
  assert (flat_map busy_item ws = []) as Hbusy.
  { assert (total in_flight ws = 0) as Hz by (change (len []) with 0 in Hpend; lia). clear -Hz Hf.
    assert (forall ws, 0 <= total in_flight ws) as Hnn
      by (intros ws'; apply total_nonneg; intros w; specialize (Hf w); lia).
    unfold total in *. induction ws as [|w ws IH]; [done|]. cbn [foldr flat_map] in *. specialize (Hnn ws).
    rewrite IH by (destruct w; cbn in Hz; lia). destruct w; cbn in *; (done || lia). }
  rewrite Hbusy, !app_nil_r in Hp. by rewrite Hp.
Qed.

Lemma accounted_step items s s' : accounted items s -> step good v s s' -> accounted items s'.
Proof.
  intros Hacc Hs. destruct Hs as
    [item its n ws j Hn Hj | s item j cache Hj Hg Hv | s item j cache e Hj Hg Hv | its n ws j Hn Hj
    | its n ws j e Hn Hj | its ws | its n ws j r Hj | its n ws j r result Hj].
  - by apply accounted_send.
  - by eapply accounted_result.
  - by eapply accounted_result.
  - by apply accounted_receive.
  - apply (accounted_intro _ _ _ Hacc); cbn [workers returned unsent pending]; [| |done].
    + intros e' [Hin|He]; left; left; [by destruct (elem_of_insert_worker ws j _ _ _ Hj Hin)|].
      injection He as <-. by eapply list_elem_of_lookup_2.
    + intros i [Hin|]; [|by right]. left. by destruct (elem_of_insert_worker ws j _ _ _ Hj Hin).
  - by apply accounted_return.
  - apply (accounted_intro _ _ _ Hacc); cbn [workers returned unsent pending].
    + intros e' [Hin|He]; left; [left | by right]. by destruct (elem_of_insert_worker ws j _ _ _ Hj Hin).
    + intros i [Hin|]; [|by right]. left. by destruct (elem_of_insert_worker ws j _ _ _ Hj Hin).
    + destruct Hacc as (_ & _ & Hst). exact Hst.
  - apply (accounted_intro _ _ _ Hacc); cbn [workers returned unsent pending].
    + intros e' [Hin|He]; left; [left | by right]. destruct (elem_of_insert_worker ws j _ _ _ Hj Hin); by destruct result.
    + intros i [Hin|]; [|by right]. left. destruct (elem_of_insert_worker ws j _ _ _ Hj Hin); by destruct result.
    + destruct Hacc as (_ & _ & Hst). exact Hst.
Qed.

(** ** Termination *)
Definition cost (w : worker) : Z := match w with Ended => 0 | Idle => 1 | Sending _ => 2 | Busy _ => 3 end.

Definition measure (s : state) : Z :=
  3 * len (unsent s) + total cost (workers s) + match returned s with None => 1 | Some _ => 0 end.

Lemma vmeasure_nonneg s : 0 <= measure s.
Proof.
  unfold measure. pose proof (len_nonneg (unsent s)).
  pose proof (total_nonneg cost (workers s) ltac:(intros []; cbn; lia)). destruct (returned s); lia.
Qed.

Lemma cost_change (ws : list worker) j w w' :
  ws !! j = Some w -> total cost (<[j := w']> ws) = total cost ws - cost w + cost w'.
Proof.
  intros Hj. destruct (worker_split ws j w Hj) as (rest & Hp & Hp').
  rewrite (total_perm _ _ _ Hp), (total_perm _ _ _ (Hp' w')). unfold total. cbn [foldr]. lia.
Qed.

Lemma step_measure s s' : step good v s s' -> measure s' < measure s.
Proof.
  unfold measure. intros Hs.
  destruct Hs; cbn [workers returned unsent pending]; rewrite ?len_cons;
    try (erewrite cost_change by eassumption); cbn [cost]; try lia.
  destruct result; cbn [cost]; lia.
Qed.

Lemma step_sn s : sn (step good v) s.
Proof.
  assert (forall n s, measure s < Z.of_nat n -> sn (step good v) s) as Hall.
  { induction n as [|n IH]; intros s' Hm; [pose proof (vmeasure_nonneg s'); lia|].
    constructor. intros s'' Hs. apply IH. apply step_measure in Hs. lia. }
  apply (Hall (S (Z.to_nat (measure s)))). pose proof (vmeasure_nonneg s). lia.
Qed.

(** ** Progress *)

(** The work on every item ends with a result. *)
Definition decided (item : txValidateItem) : Prop :=
  forall cache, good cache -> validate_item v cache item = Ok tt \/ exists e, validate_item v cache item = Err e.

Lemma busy_steps s item :
  Busy item ∈ workers s -> decided item -> (exists cache, good cache) -> exists s', step good v s s'.
Proof.
  intros Hin Hd [cache Hg]. apply list_elem_of_lookup in Hin as [j Hj].
  destruct (Hd cache Hg) as [Hv|[e Hv]]; eexists; [by eapply step_valid | by eapply step_invalid].
Qed.

(** Which workers there are. *)
Lemma workers_cases (ws : list worker) :
  (exists item, Busy item ∈ ws) \/ (exists r, Sending r ∈ ws) \/ Forall (fun w => w = Idle \/ w = Ended) ws.
Proof.
  induction ws as [|w ws [[item Hin]|[[r Hin]|Hall]]]; [by right; right | left; exists item; by right | right; left; exists r; by right|].
  destruct w as [|item|r|].
  - right. right. constructor; [by left | done].
  - left. exists item. by left.
  - right. left. exists r. by left.
  - right. right. constructor; [by right | done].
Qed.

Lemma rest_total ws : Forall (fun w => w = Idle \/ w = Ended) ws -> total in_flight ws = 0.
Proof. unfold total. induction 1 as [|w ws [->| ->] _ IH]; cbn in *; lia. Qed.

(** There is always a worker: the workers never change in number. *)
Lemma step_workers s s' : step good v s s' -> length (workers s') = length (workers s).
Proof. destruct 1; cbn [workers]; by rewrite ?length_insert. Qed.

Lemma sending_total ws j r : ws !! j = Some (Sending r) -> 1 <= total in_flight ws.
Proof.
  intros Hj. destruct (worker_split ws j _ Hj) as (rest & Hp & _). rewrite (total_perm _ _ _ Hp).
  pose proof (total_nonneg in_flight rest ltac:(intros []; cbn; lia)). unfold total in *. cbn [foldr in_flight]. lia.
Qed.

Lemma progress items s :
  accounted items s -> Forall decided items -> (exists cache, good cache) -> workers s <> [] ->
  nf (step good v) s -> (exists r, returned s = Some r) /\ Forall (fun w => w = Ended) (workers s).
Proof.
  intros (_ & Hknown & Hst) Hdec Hg Hne Hnf. rewrite Forall_forall in Hdec.
  assert (forall P : Prop, (exists s', step good v s s') -> P) as Hstuck by (intros P Hs; by destruct Hnf).
  destruct (workers_cases (workers s)) as [[item Hin]|[[r Hin]|Hrest]].
  - apply Hstuck. eapply busy_steps; [done | apply Hdec, Hknown; by left | done].
  - apply Hstuck. apply list_elem_of_lookup in Hin as [j Hj]. destruct s as [its n ws [ret|]]; cbn [workers returned unsent pending] in *.
    + eexists. by eapply step_quit_sending.
    + destruct Hst as (_ & _ & _ & _ & _ & Hpend & _). pose proof (sending_total _ _ _ Hj). pose proof (len_nonneg its).
      destruct r as [e|]; eexists; [eapply step_fail | eapply step_receive]; (done || lia).
  - destruct s as [its n ws [ret|]]; cbn [workers returned unsent pending] in *.
    + split; [by exists ret|]. apply Forall_forall. intros w Hw. rewrite Forall_forall in Hrest.
      destruct (Hrest w Hw) as [->|]; [|done]. apply Hstuck. apply list_elem_of_lookup in Hw as [j Hj].
      eexists. by eapply step_quit_idle.
    + apply Hstuck. destruct Hst as (_ & _ & _ & _ & _ & Hpend & Hend). rewrite rest_total in Hpend by done.
      destruct its as [|item its]; [rewrite Hpend; eexists; by apply step_return|].
      rewrite len_cons in Hpend. pose proof (len_nonneg its). destruct ws as [|w ws]; [done|].
      apply Forall_cons in Hrest as [[->| ->] _]; [|by destruct Hend; left].
      eexists. eapply (step_send _ _ item its n _ 0); [lia | done].
Qed.

Lemma reachable_accounted numCPU items s :
  rtc (step good v) (start numCPU items) s -> accounted items s /\ length (workers s) = length (workers (start numCPU items)).
Proof.
  intros Hr. assert (accounted items (start numCPU items)) as Hacc by apply accounted_start.
  revert Hacc. induction Hr as [|s1 s2 s3 Hs _ IH]; intros Hacc; [done|].
  destruct (IH (accounted_step _ _ _ Hacc Hs)) as [? Hl]. split; [done|]. by rewrite Hl, (step_workers _ _ Hs).
Qed.

Lemma start_workers numCPU items : items <> [] -> (1 <= length (workers (start numCPU items)))%nat.
Proof.
  intros Hne. unfold start. cbn [workers]. rewrite length_replicate. unfold maxGoRoutines.
  assert (1 <= len items) by (destruct items; [done | rewrite len_cons; pose proof (len_nonneg items); lia]).
  cbv zeta. repeat case_if; lia.
Qed.
End interleavings.

(** * Theorems *)

(** C4: whatever the interleaving of the goroutines and the caches they see, the
    validation returns nil only if every item is valid, and an error only if it
    is the error of one of the items. *)
Theorem Validate_sound `{Primitives} `{SigCache.Random} good numCPU v items r :
  Validate good numCPU v items r ->
  match r with
  | None => Forall (valid good v) items
  | Some e => exists item, item ∈ items /\ fails good v e item
  end.
Proof.
  intros (s & Hr & Hret). destruct (reachable_accounted good v numCPU items s Hr) as [(Herr & _ & Hst) _].
  destruct r as [e|]; [apply Herr; by right|]. by rewrite Hret in Hst.
Qed.

(** C5: the goroutines end.  If the work on every item ends, then no
    interleaving is infinite, and where one stops the loop has returned a value
    and every goroutine has ended: there is no deadlock and no goroutine is left
    waiting on a channel. *)
Theorem Validate_terminates `{Primitives} `{SigCache.Random} good numCPU v items :
  items <> [] -> Forall (decided good v) items -> (exists cache, good cache) ->
  sn (step good v) (start numCPU items) /\
  forall s, rtc (step good v) (start numCPU items) s -> nf (step good v) s ->
    (exists r, returned s = Some r /\ Validate good numCPU v items r) /\ Forall (fun w => w = Ended) (workers s).
Proof.
  intros Hne Hdec Hg. split; [apply step_sn|]. intros s Hr Hnf.
  destruct (reachable_accounted good v numCPU items s Hr) as [Hacc Hl].
  destruct (progress good v items s Hacc Hdec Hg) as [[r Hret] Hend]; [|done|].
  - intros Hw. pose proof (start_workers numCPU items Hne) as Hlen. rewrite <- Hl, Hw in Hlen. cbn in Hlen. lia.
  - split; [|done]. exists r. split; [done|]. by exists s.
Qed.

(** * An example

    One input, whose output is not in the view. *)
#[local] Existing Instance example_primitives.
#[local] Existing Instance SigCache.example_random.

Definition example_input : TxIn := mkTxIn (mkOutPoint (replicate 32 1) 0) [] 0.
Definition example_item : txValidateItem :=
  mkTxValidateItem 0 example_input (mkMsgTx 1 [example_input] [] 0) None.
Definition example_validator : txValidator := mkTxValidator NewUtxoViewpoint NewKeyViewpoint 0.
Definition example_good (cache : option SigCache.SigCache) : Prop := cache = None.

Lemma example_fails cache : validate_item example_validator cache example_item = Err (RuleError ErrMissingTx).
Proof. reflexivity. Qed.

Lemma example_run : Validate example_good 1 example_validator [example_item] (Some (RuleError ErrMissingTx)).
Proof.
  eexists. split.
  - eapply rtc_l; [apply (step_send _ _ example_item [] 1 [Idle] 0); [lia | done]|].
    eapply rtc_l; [apply (step_invalid _ _ _ example_item 0 None (RuleError ErrMissingTx)); [done | done | apply example_fails]|].
    eapply rtc_once. by apply (step_fail _ _ _ _ _ 0 (RuleError ErrMissingTx)).
  - done.
Qed.

Lemma Validate_sound_witness : exists item, item ∈ [example_item] /\
  fails example_good example_validator (RuleError ErrMissingTx) item.
Proof.
  apply (Validate_sound example_good 1 example_validator [example_item] (Some (RuleError ErrMissingTx))).
  exact example_run.
Defined.

Lemma Validate_terminates_witness :
  sn (step example_good example_validator) (start 1 [example_item]) /\
  forall s, rtc (step example_good example_validator) (start 1 [example_item]) s ->
    nf (step example_good example_validator) s ->
    (exists r, returned s = Some r /\ Validate example_good 1 example_validator [example_item] r) /\
    Forall (fun w => w = Ended) (workers s).
Proof.
  apply (Validate_terminates example_good 1 example_validator [example_item]).
  - discriminate.
  - constructor; [|constructor]. intros cache _. right. eexists. apply example_fails.
  - by exists None.
Defined.
End ValidateSpec.
