(* ===== verification/InputSpec.v ===== *)
(** Who can spend an output of the chain: the validation of an input, from the
    view of the outputs and the admin state to the script engine.

    An input of a Prova output is accepted only with the signatures the output
    asks for, by the holders of its key hashes and of the keys registered under
    its key ids; an input of an admin thread only with two signatures by keys of
    the thread's key set. *)
From S2P Require Import Prelude PubKey SecpPrime Opcode ScriptNum Stack Wire Crypto Signature Script ScriptBuilder Standard.
From S2P Require Import SigCache Engine SigOps SigSpec Machine MachineSpec SpendSpec SpendLive.
From S2P Require Import Utxo KeyView Validate ScriptVal.
Import btcec Opcode ScriptNum Stack wire Crypto Sig Script ScriptBuilder Standard Engine SigOps SigSpec.
Import Machine MachineSpec SpendSpec SpendLive Utxo KeyView Validate ScriptVal.
#[local] Open Scope Z_scope.

Module InputSpec.

(** * The opcodes of a Prova script *)
Lemma simple_pop p b :
  wf_pop p -> pop_value p = b -> is_byte b -> op_length (opcodeArray b) = 1 -> p = mkPop (opcodeArray b) [].
Proof.
  intros (b' & Hb' & Hop & _ & Hd) Hv Hb Hl. unfold pop_value in Hv. rewrite Hop, opcodeArray_value in Hv by done.
  subst b'. rewrite Hl in Hd. destruct p as [o d]. cbn in *. by subst.
Qed.

Lemma small_int_pop p :
  wf_pop p -> isSmallInt (pop_opcode p) = true -> 1 <= asSmallInt (pop_opcode p) ->
  p = number (asSmallInt (pop_opcode p)) /\ asSmallInt (pop_opcode p) <= 16.
Proof.
  intros Hwf Hs Hn. pose proof Hwf as (b & Hb & Hop & _). unfold isSmallInt, asSmallInt in *.
  assert (op_value (pop_opcode p) = b) as Hv by (rewrite Hop; by apply opcodeArray_value).
  rewrite Hv in Hs, Hn |- *. destruct (Z.eqb_spec b OP_0) as [Heq|Hne]; [lia|]. cbn [orb] in Hs. unfold OP_1, OP_16 in *.
  assert (u8 (b - (81 - 1)) = b - 80) as Hu by (apply wrapu_small; unfold is_u; lia). rewrite Hu.
  split; [|lia]. unfold number. replace (_ <=? 16) with true by lia. unfold OP_1.
  replace (81 - 1 + (b - 80)) with b by lia. apply simple_pop; [done | done | done|].
  rewrite opcodeArray_length by done. replace ((1 <=? b) && (b <=? 75)) with false by lia.
  unfold OP_PUSHDATA1, OP_PUSHDATA2, OP_PUSHDATA4. repeat case_if; lia.
Qed.

(** An element of a Prova script: a key hash or a key id. *)
Definition element (p : parsedOpcode) : bool := (pop_value p =? OP_DATA_20) || isUint32 (pop_opcode p).

Section inputs.
Context `{Primitives} `{SigCache.Random}.

(** The hash of the key that an element stands for. *)
Definition element_hash (view : KeyViewpoint) (p : parsedOpcode) : bytes :=
  if isUint32 (pop_opcode p)
  then match keyid_of p with Some id => key_id_hash view (u32 id) | None => [] end
  else pop_data p.

Lemma key_id_hash_ok view id : len (key_id_hash view id) = 20 /\ bytes_ok (key_id_hash view id).
Proof.
  unfold key_id_hash. destruct (get_key _ _) as [k|].
  - split; [unfold len; by rewrite Hash160_length | apply Hash160_ok].
  - split; [done | by apply Forall_replicate].
Qed.

Lemma LookupKeyIDs_lookup view ids id :
  id ∈ ids -> LookupKeyIDs view ids !! id = Some (key_id_hash view id).
Proof.
  unfold LookupKeyIDs. intros Hin.
  assert (forall ids (m : gmap Z bytes), (id ∈ ids \/ m !! id = Some (key_id_hash view id)) ->
    fold_left (fun keyIdMap keyID => <[keyID := key_id_hash view keyID]> keyIdMap) ids m !! id = Some (key_id_hash view id)) as Hall.
  { clear. induction ids as [|k ids IH]; intros m Hc; cbn [fold_left].
    - destruct Hc as [Hc|]; [by apply elem_of_nil in Hc | done].
    - apply IH. destruct (decide (k = id)) as [->|Hne]; [right; apply lookup_insert_eq|].
      rewrite lookup_insert_ne by done. destruct Hc as [[->|]%elem_of_cons|]; [done | by left | by right]. }
  apply Hall. by left.
Qed.

(** The key ids of the elements, in order. *)
Lemma key_ids_loop_spec pre keys post :
  Forall (fun p => isUint32 (pop_opcode p) = true -> keyid_of p <> None) keys ->
  exists ids, key_ids_loop (pre ++ keys ++ post) (len pre) (length keys) = Ok ids /\
    forall p id, p ∈ keys -> isUint32 (pop_opcode p) = true -> keyid_of p = Some id -> u32 id ∈ ids.
Proof.
  intros Hk. revert pre. induction Hk as [|p keys Hp _ IH]; intros pre.
  { exists []. split; [done|]. intros p id Hin. by apply elem_of_nil in Hin. }
  destruct (IH (pre ++ [p])) as (ids & Hl & Hin). rewrite <- app_assoc, len_app in Hl. change (len [p]) with 1 in Hl.
  cbn [length key_ids_loop app]. rewrite idx_middle. cbn [mbind res_bind].
  unfold keyid_of in *. destruct (isUint32 (pop_opcode p)) eqn:Hu; cbn [negb].
  - specialize (Hp eq_refl). destruct (asInt32 p) as [id| | |] eqn:Hid; try done. cbn [mbind res_bind] in *.
    cbn [app] in Hl. rewrite Hl. exists (u32 id :: ids). split; [done|].
    intros q id' [->|Hq]%elem_of_cons Hu' Hid'; [rewrite Hid in Hid'; injection Hid' as <-; by left|].
    right. by eapply Hin.
  - cbn [app] in Hl. rewrite Hl. exists ids. split; [done|].
    intros q id' [->|Hq]%elem_of_cons Hu' Hid'; [congruence|]. by eapply Hin.
Qed.

Definition replaced (view : KeyViewpoint) (p : parsedOpcode) : parsedOpcode :=
  if isUint32 (pop_opcode p) then hash_push (element_hash view p) else p.

Lemma replace_loop_spec view m keys :
  Forall (fun p => isUint32 (pop_opcode p) = true ->
    exists id, keyid_of p = Some id /\ m !! u32 id = Some (key_id_hash view (u32 id))) keys ->
  forall pre post, replace_loop m (pre ++ keys ++ post) (len pre) (length keys) = Ok (pre ++ map (replaced view) keys ++ post).
Proof.
  induction 1 as [|p keys Hp _ IH]; intros pre post; [done|].
  cbn [length replace_loop app map]. rewrite idx_middle. cbn [mbind res_bind].
  assert (forall q, replace_loop m (pre ++ q :: keys ++ post) (len pre + 1) (length keys) =
    Ok (pre ++ q :: map (replaced view) keys ++ post)) as Hq.
  { intros q. specialize (IH (pre ++ [q]) post). rewrite <- !app_assoc, len_app in IH. exact IH. }
  unfold replaced at 1. unfold element_hash, keyid_of in *. destruct (isUint32 (pop_opcode p)); cbn [negb]; [|apply Hq].
  destruct (Hp eq_refl) as (id & Hid & Hm). destruct (asInt32 p) as [k| | |]; try done. injection Hid as ->.
  rewrite Hm, set_idx_middle. cbn [mbind res_bind]. apply Hq.
Qed.

(** * Replacing the key ids *)
Lemma uint32_keyid p : wf_pop p -> isUint32 (pop_opcode p) = true -> is_keyid p = true.
Proof.
  intros (b & Hb & Hop & _ & Hd) Hu. unfold is_keyid, is_hash. rewrite Hu, andb_true_r.
  unfold isUint32, isSmallInt in Hu. rewrite Hop, opcodeArray_value in Hu by done. rewrite opcodeArray_length in Hd by done.
  unfold OP_0, OP_1, OP_16, OP_DATA_1, OP_DATA_2, OP_DATA_3, OP_DATA_4, OP_PUSHDATA1, OP_PUSHDATA2, OP_PUSHDATA4 in *.
  destruct ((1 <=? b) && (b <=? 75)) eqn:Hr.
  - replace (b + 1 =? 1) with false in Hd by lia. replace (1 <? b + 1) with true in Hd by lia.
    destruct ((b =? 0) || _) eqn:Hs in Hu; lia.
  - replace (b =? 76) with false in Hd by (destruct ((b =? 0) || _) eqn:Hs in Hu; lia).
    replace (b =? 77) with false in Hd by (destruct ((b =? 0) || _) eqn:Hs in Hu; lia).
    replace (b =? 78) with false in Hd by (destruct ((b =? 0) || _) eqn:Hs in Hu; lia).
    cbn in Hd. by rewrite Hd.
Qed.

Lemma hash_element p :
  wf_pop p -> pop_value p = OP_DATA_20 -> p = hash_push (pop_data p) /\ len (pop_data p) = 20 /\ isUint32 (pop_opcode p) = false.
Proof.
  intros Hwf Hv. destruct (wf_data_len p 20 Hwf Hv) as [Hl _]; [lia|]. split_and!; [|done|].
  - destruct Hwf as (b & Hb & Hop & _). unfold pop_value in Hv. rewrite Hop, opcodeArray_value in Hv by done.
    destruct p as [o d]. cbn in *. by subst.
  - unfold isUint32, isSmallInt, pop_value in *. by rewrite Hv.
Qed.

(** Every key id of an accepted script can be read. *)
Lemma keyids_read keys ks :
  Forall wf_pop keys -> map keyid_of (List.filter is_keyid keys) = map Some ks ->
  Forall (fun p => isUint32 (pop_opcode p) = true -> keyid_of p <> None) keys.
Proof.
  intros Hwf Hks. apply Forall_forall. intros p Hp Hu. rewrite Forall_forall in Hwf.
  pose proof (uint32_keyid p (Hwf p Hp) Hu) as Hk.
  assert (keyid_of p ∈ map keyid_of (List.filter is_keyid keys)) as Hin.
  { apply list_elem_of_fmap. exists p. split; [done|]. apply list_elem_of_In, filter_In. split; [by apply list_elem_of_In | done]. }
  rewrite Hks in Hin. apply list_elem_of_fmap in Hin as (id & -> & _). done.
Qed.

Lemma replaced_elements view keys :
  Forall wf_pop keys -> forallb element keys = true ->
  Forall (fun p => isUint32 (pop_opcode p) = true -> keyid_of p <> None) keys ->
  map (replaced view) keys = map hash_push (map (element_hash view) keys) /\
  Forall (fun h => len h = 20) (map (element_hash view) keys) /\ Forall bytes_ok (map (element_hash view) keys).
Proof.
  induction 1 as [|p keys Hp Hwf IH]; intros Hel Hid; [by split_and!|].
  apply andb_true_iff in Hel as [He Hel]. apply Forall_cons in Hid as [Hi Hid]. destruct (IH Hel Hid) as (IH1 & IH2 & IH3).
  cbn [map]. rewrite IH1. clear IH IH1 Hel Hid. unfold replaced. unfold element in He.
  destruct (isUint32 (pop_opcode p)) eqn:Hu.
  - assert (len (element_hash view p) = 20 /\ bytes_ok (element_hash view p)) as [Hl Hok].
    { unfold element_hash. rewrite Hu. specialize (Hi eq_refl). destruct (keyid_of p); [apply key_id_hash_ok | done]. }
    split_and!; [done | by constructor..].
  - rewrite orb_false_r in He. apply Z.eqb_eq in He. destruct (hash_element p Hp He) as (Heq & Hl & _).
    assert (element_hash view p = pop_data p) as -> by (unfold element_hash; by rewrite Hu).
    split_and!; [by rewrite <- Heq | by constructor | constructor; [|done]]. by destruct Hp as (? & ? & ? & ? & _).
Qed.

Lemma wf_number n : 1 <= n <= 16 -> wf_pop (number n).
Proof.
  intros Hn. unfold number. replace (n <=? 16) with true by lia. unfold OP_1.
  assert (is_byte (81 - 1 + n)) as Hb by (unfold is_byte; lia). apply wf_simple; [done|].
  rewrite opcodeArray_length by done. unfold OP_PUSHDATA1, OP_PUSHDATA2, OP_PUSHDATA4.
  replace (_ && _) with false by lia. repeat case_if; lia.
Qed.

Lemma wf_hash_push h : len h = 20 -> bytes_ok h -> wf_pop (hash_push h).
Proof. intros Hl Hok. exists OP_DATA_20. split_and!; [done | done | done | exact Hl]. Qed.

Definition check_op : parsedOpcode := mkPop (opcodeArray OP_CHECKSAFEMULTISIG) [].

(** The parts of a Prova script. *)
Lemma prova_shape pm keys pn pc :
  let m := asSmallInt (pop_opcode pm) in
  Forall wf_pop (pm :: keys ++ [pn; pc]) -> isGeneralProva (pm :: keys ++ [pn; pc]) = true ->
  pm = number m /\ pn = number (len keys) /\ pc = check_op /\ 2 <= m <= 16 /\ 3 <= len keys <= 16 /\
  len (List.filter is_hash keys) < m /\
  Forall wf_pop keys /\ Forall (fun p => isUint32 (pop_opcode p) = true -> keyid_of p <> None) keys /\
  exists p, p ∈ keys /\ isUint32 (pop_opcode p) = true.
Proof.
  intros m Hwf Hg. pose proof Hg as Hg'. apply isGeneralProva_sound in Hg' as
    (pm' & keys' & pn' & pc' & Heq & Hsm & Hsn & Hpc & Hn & Hm & [Hhs Hids] & (ks & Hks & _) & _).
  injection Heq as <- Heq. apply (app_inj_2 keys keys' [pn; pc] [pn'; pc']) in Heq as [<- Heq]; [|done].
  injection Heq as <- <-. apply Forall_cons in Hwf as [Hwm Hwf].
  apply Forall_app in Hwf as [Hwk Hwf]. apply Forall_cons in Hwf as [Hwn Hwf]. apply Forall_cons in Hwf as [Hwc _].
  assert (6 <= len keys + 3) as H6.
  { unfold isGeneralProva in Hg. destruct (Z.ltb_spec (len (pm :: keys ++ [pn; pc])) 6) as [|Hl]; [done|].
    rewrite len_cons, len_app in Hl. change (len [pn; pc]) with 2 in Hl. lia. }
  destruct (small_int_pop pm Hwm Hsm) as [Hpm Hm16]; [lia|]. destruct (small_int_pop pn Hwn Hsn) as [Hpn Hn16]; [lia|].
  rewrite Hn in Hpn, Hn16. apply simple_pop in Hpc; [|done..].
  split_and!; try done; try lia; [by eapply keyids_read|].
  destruct (List.filter is_keyid keys) as [|p rest] eqn:Hf; [change (len []) with 0 in Hids; lia|].
  exists p. assert (In p (List.filter is_keyid keys)) as Hin by (rewrite Hf; by left).
  apply filter_In in Hin as [Hin Hk]. split; [by apply list_elem_of_In|]. unfold is_keyid in Hk. by apply andb_true_iff in Hk as [_ ?].
Qed.

(** The key ids of a Prova script replaced. *)
Lemma replace_ids view m keys lastops :
  let pops := number m :: keys ++ [number (len keys); lastops] in
  3 <= len keys <= 16 ->
  Forall (fun p => isUint32 (pop_opcode p) = true -> keyid_of p <> None) keys ->
  (exists p, p ∈ keys /\ isUint32 (pop_opcode p) = true) ->
  exists ids, ExtractKeyIDs pops = Ok ids /\
    ReplaceKeyIDs pops (LookupKeyIDs view ids) = Ok (number m :: map (replaced view) keys ++ [number (len keys); lastops]).
Proof.
  intros pops Hl Hread (p & Hp & Hu).
  destruct (key_ids_loop_spec [number m] keys [number (len keys); lastops] Hread) as (ids & Hids & Hin).
  assert (len pops = len keys + 3) as Hlen.
  { unfold pops. rewrite len_cons, len_app. change (len [number (len keys); lastops]) with 2. lia. }
  assert (idx pops (len pops - 2) = @Ok ErrorCode _ (number (len keys))) as Hidx.
  { replace (len pops - 2) with (len (number m :: keys)) by (rewrite len_cons; lia).
    exact (idx_middle (number m :: keys) [lastops] (number (len keys))). }
  assert (isSmallInt (pop_opcode (number (len keys))) = true /\ asSmallInt (pop_opcode (number (len keys))) = len keys) as [Hsm Has].
  { assert (len keys ∈ seqZ 3 14) as Hk by (apply elem_of_seqZ; lia). clear -Hk.
    repeat (apply elem_of_cons in Hk as [->|Hk]; [done|]). by apply elem_of_nil in Hk. }
  exists ids. unfold ExtractKeyIDs, ReplaceKeyIDs. replace (len pops <? 6) with false by lia.
  rewrite Hidx. cbn [mbind res_bind]. rewrite Hsm, Has. cbn [negb].
  replace (Z.to_nat (len keys)) with (length keys) by (unfold len; lia). split; [done|].
  rewrite decide_False.
  - apply (replace_loop_spec view (LookupKeyIDs view ids) keys) with (pre := [number m]).
    rewrite Forall_forall in Hread. apply Forall_forall. intros q Hq Huq. specialize (Hread q Hq Huq).
    destruct (keyid_of q) as [id|] eqn:Hid; [|done]. exists id. split; [done|].
    apply LookupKeyIDs_lookup. by eapply Hin.
  - rewrite Forall_forall in Hread. specialize (Hread p Hp Hu). destruct (keyid_of p) as [id|] eqn:Hid; [|done].
    intros He. pose proof (LookupKeyIDs_lookup view ids (u32 id) (Hin p id Hp Hu Hid)) as Hl'.
    by rewrite He, lookup_empty in Hl'.
Qed.

(** A Prova script with its key ids replaced is a script of [SpendSpec]. *)
Lemma replace_prova view script pm keys pn pc :
  let pops := pm :: keys ++ [pn; pc] in
  let m := asSmallInt (pop_opcode pm) in
  let pops' := safe_pops m (map (element_hash view) keys) check_op in
  Forall wf_pop pops -> isGeneralProva pops = true -> forallb element keys = true ->
  is_safe_pops m (map (element_hash view) keys) check_op /\
  exists script', replace_script view pops script = Ok (pops', script') /\ ParseScript script' = Ok pops' /\ bytes_ok script'.
Proof.
  intros pops m pops' Hwf Hg Hel. destruct (prova_shape pm keys pn pc Hwf Hg) as (Hpm & Hpn & Hpc & Hm & Hk & _ & Hwk & Hread & Hex).
  fold m in Hpm, Hm. destruct (replaced_elements view keys Hwk Hel Hread) as (Hrep & H20 & Hok).
  assert (len (map (element_hash view) keys) = len keys) as Hlk by (unfold len; by rewrite length_map).
  split; [split_and!; try lia; [done | by left]|]. assert (Forall wf_pop pops') as Hwf'.
  { unfold pops', safe_pops. cbn [app]. constructor; [apply wf_number; lia|]. rewrite <- app_assoc. apply Forall_app. split.
    - clear -H20 Hok. induction H20 as [|h hs Hh _ IH]; [constructor|]. apply Forall_cons in Hok as [Hb Hok].
      constructor; [by apply wf_hash_push | by apply IH].
    - constructor; [apply wf_number; lia|]. constructor; [|constructor]. apply wf_safe_multisig. by left. }
  destruct (unparse_wf pops' Hwf') as [Hun Hpar]. exists (concat (map pop_image pops')). split_and!; [|done|].
  - destruct (replace_ids view m keys pc Hk Hread Hex) as (ids & Hids & Hrids).
    rewrite <- Hpm, <- Hpn in Hids, Hrids. fold pops in Hids, Hrids.
    assert (pm :: map (replaced view) keys ++ [pn; pc] = pops') as Hpops.
    { unfold pops', safe_pops. rewrite Hrep, Hlk, <- Hpm, Hpc, Hpn. cbn [app]. by rewrite <- app_assoc. }
    assert (bool_decide (TypeOfScript pops = ProvaTy) || bool_decide (TypeOfScript pops = GeneralProvaTy) = true) as Hty.
    { unfold TypeOfScript, typeOfScript. assert (isNullData pops = false) as ->.
      { unfold pops. destruct keys as [|k1 [|k2 keys]]; [done | done |]. by destruct keys. }
      destruct (isProva pops); [done|]. by rewrite Hg. }
    unfold replace_script. rewrite Hty, Hids. cbn [or_rule mbind res_bind]. rewrite Hrids, Hpops. cbn [mbind res_bind].
    by rewrite Hun.
  - by apply images_ok.
Qed.

(** * The validation of an input *)

(** The item spends an output with this script and this amount. *)
Definition spends (v : txValidator) (item : txValidateItem) (script : bytes) (amount : Z) : Prop :=
  let prev := PreviousOutPoint (item_txIn item) in
  exists e e1 e2, LookupEntry (val_utxoView v) (Hash prev) = Some e /\
    PkScriptByIndex e (Index prev) = Ok (Some script, e1) /\ AmountByIndex e1 (Index prev) = Ok (amount, e2).

Definition item_ok (item : txValidateItem) : Prop :=
  Forall (fun ti => bytes_ok (SignatureScript ti)) (tx_TxIn (item_tx item)) /\
  (item_sigHashes item = None \/ item_sigHashes item = Some (NewTxSigHashes (item_tx item))).

(** The last part of the validation, once the output script is known. *)
Definition run_script (v : txValidator) (cache : option SigCache.SigCache) (item : txValidateItem)
    (script : bytes) (amount : Z) : res error unit :=
  vm ← or_rule ErrScriptMalformed
         (NewEngine script (item_tx item) (item_txInIndex item) (val_flags v) cache (item_sigHashes item) amount);
  or_rule ErrScriptValidation (Execute vm).

Lemma validate_script v cache item script amount pops pops' script' script'' :
  spends v item script amount -> ParseScript script = Ok pops ->
  replace_script (val_keyView v) pops script = Ok (pops', script') ->
  thread_script (val_keyView v) pops' script' = Ok script'' ->
  validate_item v cache item = run_script v cache item script'' amount.
Proof.
  intros (e & e1 & e2 & He & Hs & Ha) Hp Hr Ht. unfold validate_item. rewrite He, Hs. cbn [asserted mbind res_bind].
  rewrite Hp. cbn [or_rule mbind res_bind]. rewrite Hr. cbn [mbind res_bind]. rewrite Ht. cbn [mbind res_bind].
  by rewrite Ha.
Qed.

Lemma or_rule_Ok {A} c (m : res ErrorCode A) a : or_rule c m = Ok a -> m = Ok a.
Proof. by destruct m; cbn; intros [= ->]. Qed.

Lemma run_script_safe v cache item script amount m hs lastop :
  item_ok item -> bytes_ok script -> cache_ok cache ->
  ParseScript script = Ok (safe_pops m hs lastop) -> is_safe_pops m hs lastop ->
  run_script v cache item script amount = Ok tt ->
  len hs <= MaxPubKeysPerMultiSig /\
  exists rs, len rs = m /\ Forall (signs (item_tx item) (item_txInIndex item) amount) rs /\
    map (fun r => Hash160 r.1) rs ⊆+ hs.
Proof.
  intros [Htx Hh] Hok Hc Hp Hsafe Hrun. apply bind_Ok in Hrun as (vm & Hnew & Hex).
  apply or_rule_Ok in Hnew, Hex. by eapply safe_output_authorised.
Qed.

Lemma safe_not_thread m hs lastop : 1 <= len hs -> TypeOfScript (safe_pops m hs lastop) <> ProvaAdminTy.
Proof.
  intros Hl Hty. unfold TypeOfScript, typeOfScript in Hty.
  assert (isProvaAdmin (safe_pops m hs lastop) = false) as Ha.
  { destruct hs as [|h [|h' hs]]; [done..|]. unfold safe_pops. cbn. by destruct hs. }
  rewrite Ha in Hty. by repeat case_match.
Qed.

(** A list cut in two by a test. *)
Lemma filter_cut {A} (f : A -> bool) (l : list A) :
  l ≡ₚ List.filter f l ++ List.filter (fun x => negb (f x)) l.
Proof.
  induction l as [|x l IH]; [done|]. cbn [List.filter]. destruct (f x); cbn [negb app].
  - by rewrite <- IH.
  - rewrite <- Permutation_middle. by rewrite <- IH.
Qed.

(** More signatures than key hashes: one is by the key of a key id. *)
Lemma key_id_needed view keys hashes m :
  Forall wf_pop keys -> forallb element keys = true ->
  len (List.filter is_hash keys) < m -> len hashes = m -> hashes ⊆+ map (element_hash view) keys ->
  exists h p, h ∈ hashes /\ p ∈ keys /\ isUint32 (pop_opcode p) = true /\ h = element_hash view p.
Proof.
  intros Hwf Hel Hm Hl Hsub.
  rewrite (filter_cut (fun p => isUint32 (pop_opcode p)) keys), map_app in Hsub.
  apply submseteq_app_r in Hsub as (l1 & l2 & Hp & H1 & H2).
  assert (length l2 <= length (List.filter is_hash keys))%nat as Hle.
  { apply submseteq_length in H2. rewrite length_map in H2. etrans; [exact H2|]. clear -Hwf Hel.
    induction Hwf as [|p keys Hp _ IH]; [done|]. apply andb_true_iff in Hel as [He Hel]. specialize (IH Hel).
    cbn [List.filter]. unfold element in He. destruct (isUint32 (pop_opcode p)); cbn [negb].
    - destruct (is_hash p); cbn; lia.
    - rewrite orb_false_r in He. apply Z.eqb_eq in He. destruct (hash_element p Hp He) as (_ & Hl & _).
      assert (is_hash p = true) as -> by (unfold is_hash; lia). cbn. lia. }
  destruct l1 as [|h l1].
  { apply Permutation_length in Hp. cbn in Hp. unfold len in *. lia. }
  exists h. assert (h ∈ map (element_hash view) (List.filter (fun p => isUint32 (pop_opcode p)) keys)) as Hin
    by (eapply elem_of_submseteq; [|exact H1]; by left).
  apply list_elem_of_fmap in Hin as (p & -> & Hin). apply list_elem_of_In, filter_In in Hin as [Hin Hu].
  exists p. split_and!; [rewrite Hp; by left | by apply list_elem_of_In | done | done].
Qed.

(** * The script of an admin thread *)
Definition thread_op : parsedOpcode := mkPop (opcodeArray OP_CHECKTHREAD) [].

Lemma canonical_hash h : len h = 20 -> canonical_pop h = hash_push h /\ canonicalDataSize h = 21.
Proof. intros Hl. unfold canonical_pop, canonicalDataSize. by rewrite Hl. Qed.

Lemma canonical_number n data : 1 <= n <= 127 -> Bytes n = Ok data -> canonical_pop data = number n.
Proof.
  intros Hn HB. assert (forallb (fun n => match Bytes n with Ok d => bool_decide (canonical_pop d = number n) | _ => false end)
    (seqZ 1 127) = true) as Hall by (vm_compute; reflexivity).
  rewrite forallb_forall in Hall. specialize (Hall n ltac:(apply list_elem_of_In, elem_of_seqZ; lia)).
  rewrite HB in Hall. by apply bool_decide_eq_true in Hall.
Qed.

Lemma built_hashes hs : forall b pops,
  Forall (fun h => len h = 20) hs -> Forall bytes_ok hs -> built b pops ->
  len (b_script b) + 21 * len hs <= MaxScriptSize ->
  built (fold_left AddData hs b) (pops ++ map hash_push hs) /\
  len (b_script (fold_left AddData hs b)) = len (b_script b) + 21 * len hs.
Proof.
  induction hs as [|h hs IH]; intros b pops Hl Hok Hb Hs; cbn [fold_left map].
  { rewrite app_nil_r. change (len []) with 0. split; [done | lia]. }
  rewrite len_cons in *. pose proof (len_nonneg hs).
  apply Forall_cons in Hl as [Hh Hl]. apply Forall_cons in Hok as [Ho Hok]. destruct (canonical_hash h Hh) as [Hc Hsz].
  destruct (built_AddData b pops h Hb Ho) as [Hb' Hl']; [unfold MaxScriptElementSize; lia | lia |]. rewrite Hc in Hb'.
  destruct (IH (AddData b h) (pops ++ [hash_push h]) Hl Hok Hb') as [Hb'' Hl'']; [lia|].
  rewrite <- app_assoc in Hb''. split; [exact Hb'' | lia].
Qed.

Lemma ThreadPkScript_safe hs :
  2 <= len hs <= 127 -> Forall (fun h => len h = 20) hs -> Forall bytes_ok hs ->
  exists s, ThreadPkScript hs = Ok s /\ ParseScript s = Ok (safe_pops 2 hs thread_op) /\ bytes_ok s.
Proof.
  intros Hn Hl Hok. unfold ThreadPkScript. replace (len hs <? 2) with false by lia.
  destruct (built_AddOp NewScriptBuilder [] OP_2 built_new) as [B1 L1]; [done..|].
  change (len (b_script NewScriptBuilder)) with 0 in L1.
  destruct (built_hashes hs _ _ Hl Hok B1) as [B2 L2]; [unfold MaxScriptSize; lia|].
  destruct (built_AddInt64 _ _ (len hs) B2) as (b3 & data & -> & HB & B3 & L3); [lia | unfold MaxScriptSize; lia|].
  rewrite (canonical_number (len hs) data) in B3 by (done || lia). cbn [mbind res_bind].
  destruct (built_AddOp b3 _ OP_CHECKTHREAD B3) as [B4 L4]; [done | done | unfold MaxScriptSize; lia|].
  destruct (built_script _ _ B4) as (s & Hs & Heq & Hp). exists s. split_and!; [done | |].
  - rewrite Hp. unfold safe_pops. cbn [app]. by rewrite <- !app_assoc.
  - destruct B4 as (_ & Hwf & Hsc). rewrite Heq, Hsc. by apply images_ok.
Qed.

(** The keys of a thread. *)
Lemma thread_hashes_ok view th :
  Forall (fun h => len h = 20) (GetAdminKeyHashes view th) /\ Forall bytes_ok (GetAdminKeyHashes view th).
Proof.
  unfold GetAdminKeyHashes. split; apply Forall_forall; intros h (k & -> & _)%list_elem_of_fmap.
  - unfold len. by rewrite Hash160_length.
  - apply Hash160_ok.
Qed.

Lemma thread_not_prova view pops script : TypeOfScript pops = ProvaAdminTy -> replace_script view pops script = Ok (pops, script).
Proof. intros Hty. unfold replace_script. by rewrite Hty. Qed.

(** * Enough signatures *)

(** What the checks of a signature use of an engine for the input. *)
Definition input_engine (v : txValidator) (item : txValidateItem) (amount : Z) : Engine :=
  let empty := mkStack [] false in
  mkEngine [] 0 0 0 empty empty (item_tx item) (item_txInIndex item) [] 0 (val_flags v) None
    (item_sigHashes item) false [] amount.

Lemma input_engine_authorised v item amount vm rs hs :
  vm_tx vm = item_tx item -> txIdx vm = item_txInIndex item -> inputAmount vm = amount ->
  flags vm = val_flags v -> hashCache vm = item_sigHashes item ->
  Forall (well_encoded (input_engine v item amount)) rs -> authorised (input_engine v item amount) rs hs ->
  Forall (well_encoded vm) rs /\ authorised vm rs hs.
Proof.
  intros Htx Hix Ham Hfl Hhc Henc [Hsg Hsub]. split; [|split; [|done]].
  - eapply Forall_impl; [exact Henc|]. intros r. unfold well_encoded, checkHashTypeEncoding, checkSignatureEncoding,
      checkSigIntegers, checkPubKeyEncoding, hasFlag. by rewrite Hfl.
  - eapply Forall_impl; [exact Hsg|]. intros r. unfold signed, parse_signature, hasFlag, safe_hash.
    by rewrite Hfl, Htx, Hix, Ham, Hhc.
Qed.

Lemma pushes_only s0 vs : Forall2 is_push s0 vs -> isPushOnly s0 = true.
Proof.
  induction 1 as [|p x s0 vs Hp _ IH]; [done|]. unfold isPushOnly in *. cbn [forallb]. apply andb_true_iff. split; [|done].
  destruct Hp as [(n & Hn & -> & _)|[Hd ->]]; unfold pop_value; cbn [pop_opcode].
  - rewrite (proj1 (proj2 (number_opcode n (mkStack [] false) Hn))). unfold OP_1, OP_16. lia.
  - apply is_data_len in Hd. rewrite (proj2 (data_opcode _ Hd)). unfold OP_16. lia.
Qed.

(** The flag that needs another one. *)
Definition flags_ok (fl : Z) : bool :=
  negb (Z.land fl ScriptVerifyCleanStack =? ScriptVerifyCleanStack) || (Z.land fl ScriptBip16 =? ScriptBip16).

Lemma NewEngine_ok script tx i fl cache hashes amount ti s0 vs s1 :
  flags_ok fl = true -> 0 <= i -> tx_TxIn tx !! Z.to_nat i = Some ti ->
  len (SignatureScript ti) <= MaxScriptSize -> ParseScript (SignatureScript ti) = Ok s0 -> Forall2 is_push s0 vs ->
  1 <= len script <= MaxScriptSize -> ParseScript script = Ok s1 ->
  exists vm, NewEngine script tx i fl cache hashes amount = Ok vm /\
    vm_tx vm = tx /\ txIdx vm = i /\ inputAmount vm = amount /\ flags vm = fl /\ hashCache vm = hashes.
Proof.
  intros Hfl Hi Hti Hls Hs0 Hpush Hl Hs1. pose proof (pushes_only _ _ Hpush) as Hpo.
  assert (i < len (tx_TxIn tx)) as Hin by (apply lookup_lt_Some in Hti; unfold len; lia).
  unfold NewEngine. replace ((i <? 0) || (len (tx_TxIn tx) <=? i)) with false by lia.
  rewrite (proj2 (idx_Ok (E := ErrorCode) _ _ _) (conj Hi Hti)). cbn [mbind res_bind].
  replace (len script =? 0) with false by lia. rewrite andb_false_r. cbv zeta. unfold hasFlag. cbn [flags].
  unfold flags_ok in Hfl. replace (_ && negb _) with false by lia.
  assert (IsPushOnlyScript (SignatureScript ti) = true) as -> by (unfold IsPushOnlyScript; by rewrite Hs0).
  cbn [negb]. rewrite andb_false_r. cbn [parse_scripts].
  replace (MaxScriptSize <? len (SignatureScript ti)) with false by lia. rewrite Hs0. cbn [mbind res_bind].
  replace (MaxScriptSize <? len script) with false by lia. rewrite Hs1. cbn [mbind res_bind].
  change (idx [s0; s1] 0) with (@Ok ErrorCode _ s0). change (idx [s0; s1] 1) with (@Ok ErrorCode _ s1). cbn [mbind res_bind].
  rewrite Hpo. cbn [negb]. rewrite andb_false_r. eexists. by split_and!.
Qed.

Lemma safe_script_size script m hs lastop :
  bytes_ok script -> ParseScript script = Ok (safe_pops m hs lastop) -> is_safe_pops m hs lastop -> len hs <= 16 -> m <= 16 ->
  1 <= len script <= MaxScriptSize.
Proof.
  intros Hok Hp (Hm & Hn & Hhs & Hlast) Hn16 Hm16. pose proof (ParseScript_wf _ Hok) as Hwf. rewrite Hp in Hwf.
  destruct Hwf as (_ & Hs & _).
  assert (len (concat (map pop_image (map hash_push hs))) = 21 * len hs) as Hl.
  { clear -Hhs. induction Hhs as [|h hs Hh _ IH]; [done|]. cbn [map concat]. rewrite len_app, IH, len_cons.
    assert (len (pop_image (hash_push h)) = 21); [|lia].
    change (pop_image (hash_push h)) with (20 :: h). rewrite len_cons. lia. }
  assert (forall n, 1 <= n <= 16 -> len (pop_image (number n)) = 1) as Hnum.
  { intros n Hn'. assert (n ∈ seqZ 1 16) as Hin by (apply elem_of_seqZ; lia). clear -Hin.
    repeat (apply elem_of_cons in Hin as [->|Hin]; [done|]). by apply elem_of_nil in Hin. }
  assert (len (pop_image lastop) = 1) as Hlast1 by (by destruct Hlast as [->| ->]).
  unfold safe_pops in Hs. cbn [app map concat] in Hs. rewrite Hs, !map_app, !concat_app, !len_app, Hl. cbn [map concat].
  rewrite !app_nil_r, Hlast1, !Hnum by lia. unfold MaxScriptSize. lia.
Qed.

(** The engine accepts. *)
Lemma run_script_live v cache item script amount ti s0 rs hs lastop :
  item_ok item -> bytes_ok script -> cache_ok cache -> flags_ok (val_flags v) = true ->
  ParseScript script = Ok (safe_pops (len rs) hs lastop) -> is_safe_pops (len rs) hs lastop -> len hs <= 16 ->
  0 <= item_txInIndex item -> tx_TxIn (item_tx item) !! Z.to_nat (item_txInIndex item) = Some ti ->
  len (SignatureScript ti) <= MaxScriptSize -> ParseScript (SignatureScript ti) = Ok s0 ->
  Forall2 is_push s0 (push_order rs) -> Forall (well_encoded (input_engine v item amount)) rs ->
  authorised (input_engine v item amount) rs hs -> run_script v cache item script amount = Ok tt.
Proof.
  intros [Htx _] Hok Hc Hfl Hpar Hsafe Hk Hi Hti Hls Hs0 Hpush Henc Hau.
  assert (len rs <= len hs) as Hle.
  { destruct Hau as [_ Hau]. apply submseteq_length in Hau. rewrite length_map in Hau. unfold len. lia. }
  pose proof (safe_script_size script _ _ _ Hok Hpar Hsafe ltac:(lia) ltac:(lia)) as Hsz.
  destruct (NewEngine_ok script (item_tx item) (item_txInIndex item) (val_flags v) cache (item_sigHashes item) amount
    ti s0 (push_order rs) _ Hfl Hi Hti Hls Hs0 Hpush Hsz Hpar) as (vm & Hnew & Hvt & Hvi & Hva & Hvf & Hvh).
  unfold run_script. rewrite Hnew. cbn [or_rule mbind res_bind].
  destruct (input_engine_authorised v item amount vm rs hs Hvt Hvi Hva Hvf Hvh Henc Hau) as [Henc' Hau'].
  assert (Execute vm = Ok tt) as ->; [|done].
  apply (safe_output_spendable script (item_tx item) (item_txInIndex item) (val_flags v) cache (item_sigHashes item)
    amount vm ti s0 rs hs lastop); try done.
  unfold MaxPubKeysPerMultiSig. lia.
Qed.
End inputs.

(** * Theorems *)

(** C1: only the right keys spend a Prova output.  Take an input that spends an
    output whose script asks for [m] signatures among key hashes and key ids.
    Whatever its signature script is, the input is accepted only if there are [m]
    signatures of this input of this transaction, for this amount, by keys whose
    hashes are among the key hashes and the hashes of the keys registered under
    the key ids, each element counted at most once.  At least one of the
    signatures is by the key of a key id. *)
Theorem prova_input_authorised `{Primitives} `{SigCache.Random} v cache item script amount pm keys pn pc :
  spends v item script amount -> item_ok item -> bytes_ok script -> cache_ok cache ->
  ParseScript script = Ok (pm :: keys ++ [pn; pc]) -> isGeneralProva (pm :: keys ++ [pn; pc]) = true ->
  forallb element keys = true -> validate_item v cache item = Ok tt ->
  exists rs, len rs = asSmallInt (pop_opcode pm) /\
    Forall (signs (item_tx item) (item_txInIndex item) amount) rs /\
    map (fun r => Hash160 r.1) rs ⊆+ map (element_hash (val_keyView v)) keys /\
    exists r p, r ∈ rs /\ p ∈ keys /\ isUint32 (pop_opcode p) = true /\
      Hash160 r.1 = element_hash (val_keyView v) p.
Proof.
  intros Hsp Hit Hok Hc Hps Hg Hel Hval. pose proof (ParseScript_wf _ Hok) as Hwf. rewrite Hps in Hwf. destruct Hwf as [Hwf _].
  destruct (replace_prova (val_keyView v) script pm keys pn pc Hwf Hg Hel) as (Hsafe & script' & Hrep & Hpar & Hok').
  destruct (prova_shape pm keys pn pc Hwf Hg) as (_ & _ & _ & _ & _ & Hhs & Hwk & _).
  rewrite (validate_script v cache item script amount _ _ script' script' Hsp Hps Hrep) in Hval.
  2: { unfold thread_script. rewrite bool_decide_eq_false_2; [done|]. apply safe_not_thread, Hsafe. }
  destruct (run_script_safe v cache item script' amount _ _ _ Hit Hok' Hc Hpar Hsafe Hval) as (_ & rs & Hl & Hsg & Hsub).
  exists rs. split_and!; [done..|].
  destruct (key_id_needed (val_keyView v) keys (map (fun r => Hash160 r.1) rs) (len rs) Hwk Hel) as (h & p & Hh & Hp & Hu & ->); [lia | | exact Hsub |].
  { unfold len. by rewrite length_map. }
  apply list_elem_of_fmap in Hh as (r & Hr & Hin). by exists r, p.
Qed.

(** Keys with the hashes of different places differ when the hashes do. *)
Lemma submseteq_keys `{Primitives} {A} (rs : list (bytes * A)) hs : map (fun r => Hash160 r.1) rs ⊆+ hs -> NoDup hs -> NoDup (map fst rs).
Proof.
  intros [k Hk]%submseteq_Permutation Hn. rewrite Hk in Hn. apply NoDup_app in Hn as (Hn & _).
  apply (NoDup_fmap_1 Hash160). by rewrite <- list_fmap_compose.
Qed.

(** C2: only the keys of a thread spend it.  Take an input that spends the output
    of an admin thread with at most 127 keys.  It is accepted only if the thread
    has at least two keys and at most the twenty that the opcode takes, and there
    are two signatures of this input of this transaction, for this amount, by the
    keys of two different places in the thread's key set.  When no two places have the
    same key hash the two keys are different; a key that is in the set twice counts
    twice.  The rules for admin operations allow 42 keys: with more than twenty of
    them nobody can spend the thread. *)
Theorem thread_input_authorised `{Primitives} `{SigCache.Random} v cache item script amount pops th :
  spends v item script amount -> item_ok item -> cache_ok cache ->
  ParseScript script = Ok pops -> TypeOfScript pops = ProvaAdminTy -> ExtractThreadID pops = Ok th -> is_u 8 th ->
  len (GetAdminKeyHashes (val_keyView v) th) <= 127 -> validate_item v cache item = Ok tt ->
  2 <= len (GetAdminKeyHashes (val_keyView v) th) <= MaxPubKeysPerMultiSig /\
  exists rs, len rs = 2 /\ Forall (signs (item_tx item) (item_txInIndex item) amount) rs /\
    map (fun r => Hash160 r.1) rs ⊆+ GetAdminKeyHashes (val_keyView v) th /\
    (NoDup (GetAdminKeyHashes (val_keyView v) th) -> NoDup (map fst rs)).
Proof.
  intros Hsp Hit Hc Hps Hty Hth Hu Hn Hval. set (hs := GetAdminKeyHashes (val_keyView v) th) in *.
  destruct (thread_hashes_ok (val_keyView v) th) as [H20 Hok]. fold hs in H20, Hok.
  assert (thread_script (val_keyView v) pops script = or_rule ErrScriptMalformed (ThreadPkScript hs)) as Hts.
  { unfold thread_script. rewrite Hty, Hth. cbn. by rewrite wrapu_small. }
  destruct (Z.ltb_spec (len hs) 2) as [Hlt|Hge].
  { unfold ThreadPkScript in Hts. replace (len hs <? 2) with true in Hts by lia. exfalso.
    destruct Hsp as (e & e1 & e2 & He & Hs & Ha). unfold validate_item in Hval. rewrite He, Hs in Hval.
    cbn [asserted mbind res_bind] in Hval. rewrite Hps in Hval. cbn [or_rule mbind res_bind] in Hval.
    rewrite thread_not_prova in Hval by done. cbn [mbind res_bind] in Hval. by rewrite Hts in Hval. }
  destruct (ThreadPkScript_safe hs) as (s & Hs & Hp & Hok'); [lia | done | done |]. rewrite Hs in Hts.
  rewrite (validate_script v cache item script amount pops pops script s Hsp Hps) in Hval; [|by apply thread_not_prova | done].
  destruct (run_script_safe v cache item s amount 2 hs thread_op Hit Hok' Hc Hp) as (Hmax & rs & Hl & Hs2 & Hsub); [|done|].
  - split_and!; try lia; [done | by right].
  - split; [lia|]. exists rs. split_and!; [done.. |]. by apply submseteq_keys.
Qed.

(** C3: the holders of enough keys can spend a Prova output.  If the signature
    script pushes as many pairs of a key and a signature as the output asks for,
    the pairs pass the encoding checks and sign the input, and their keys belong
    to different elements of the script, then the input is accepted.  In a pair the
    key is pushed before its signature, and the pairs may be in any order. *)
Theorem prova_input_spendable `{Primitives} `{SigCache.Random} v cache item script amount pm keys pn pc ti s0 rs :
  spends v item script amount -> item_ok item -> bytes_ok script -> cache_ok cache ->
  ParseScript script = Ok (pm :: keys ++ [pn; pc]) -> isGeneralProva (pm :: keys ++ [pn; pc]) = true ->
  forallb element keys = true -> flags_ok (val_flags v) = true ->
  0 <= item_txInIndex item -> tx_TxIn (item_tx item) !! Z.to_nat (item_txInIndex item) = Some ti ->
  len (SignatureScript ti) <= MaxScriptSize -> ParseScript (SignatureScript ti) = Ok s0 ->
  Forall2 is_push s0 (push_order rs) -> len rs = asSmallInt (pop_opcode pm) ->
  Forall (well_encoded (input_engine v item amount)) rs ->
  authorised (input_engine v item amount) rs (map (element_hash (val_keyView v)) keys) ->
  validate_item v cache item = Ok tt.
Proof.
  intros Hsp Hit Hok Hc Hps Hg Hel Hfl Hi Hti Hls Hs0 Hpush Hl Henc Hau.
  pose proof (ParseScript_wf _ Hok) as Hwf. rewrite Hps in Hwf. destruct Hwf as [Hwf _].
  destruct (replace_prova (val_keyView v) script pm keys pn pc Hwf Hg Hel) as (Hsafe & script' & Hrep & Hpar & Hok').
  destruct (prova_shape pm keys pn pc Hwf Hg) as (_ & _ & _ & _ & Hk & _).
  rewrite (validate_script v cache item script amount _ _ script' script' Hsp Hps Hrep).
  2: { unfold thread_script. rewrite bool_decide_eq_false_2; [done|]. apply safe_not_thread, Hsafe. }
  rewrite <- Hl in Hpar, Hsafe. eapply run_script_live; try done.
  unfold len. rewrite length_map. unfold len in Hk. lia.
Qed.

(** * An example

    A 2-of-3 output spent with two signatures by the same key, which has all the
    hashes with the example primitives, and the output of the provision thread
    with two keys. *)
#[local] Existing Instance example_primitives.
#[local] Existing Instance SigCache.example_random.

Lemma example_Hash160 b : Hash160 b = SpendLive.example_hash.
Proof. unfold Hash160. cbn [ripemd160 example_primitives]. unfold len. by rewrite sha256_length. Qed.

Definition example_keys : list parsedOpcode :=
  [hash_push SpendLive.example_hash; mkPop (opcodeArray OP_1) []; mkPop (opcodeArray OP_2) []].
Definition example_script : bytes :=
  [OP_2; OP_DATA_20] ++ SpendLive.example_hash ++ [OP_1; OP_2; OP_3; OP_CHECKSAFEMULTISIG].
Definition two_sigs : bytes := example_sigScript ++ example_sigScript.
Definition two_input : TxIn := mkTxIn (mkOutPoint (replicate 32 1) 0) two_sigs 0.
Definition two_item : txValidateItem := mkTxValidateItem 0 two_input (mkMsgTx 1 [two_input] [mkTxOut 40 [83]] 0) None.

Definition output_view (script : bytes) : UtxoViewpoint :=
  mkUtxoViewpoint {[ replicate 32 1 := Some (mkUtxoEntry false 1 false 7 {[ 0 := mkUtxoOutput false false 50 (Some script) ]}) ]}
    zeroHash.
Definition example_keyView : KeyViewpoint :=
  mkKeyViewpoint ∅ 2 0 {[ ProvisionKeySet := [SecpPrime.example_key; SecpPrime.example_key] ]}
    (<[1 := Some SecpPrime.example_key]> {[ 2 := Some SecpPrime.example_key ]}).
Definition two_validator (script : bytes) : txValidator :=
  mkTxValidator (output_view script) example_keyView StandardVerifyFlags.

Lemma output_spent script : spends (two_validator script) two_item script 50.
Proof. eexists _, _, _. split_and!; reflexivity. Qed.

Lemma two_item_ok : item_ok two_item.
Proof.
  split; [|by left]. constructor; [|constructor]. apply bytesb_ok. vm_compute. reflexivity.
Qed.

Lemma example_element_hashes :
  map (element_hash example_keyView) example_keys = replicate 3 SpendLive.example_hash.
Proof.
  unfold example_keys. cbn [map replicate].
  assert (forall id, id = 1 \/ id = 2 -> key_id_hash example_keyView id = SpendLive.example_hash) as Hid.
  { intros id [->| ->]; exact (example_Hash160 _). }
  assert (element_hash example_keyView (mkPop (opcodeArray OP_1) []) = key_id_hash example_keyView 1) as -> by reflexivity.
  assert (element_hash example_keyView (mkPop (opcodeArray OP_2) []) = key_id_hash example_keyView 2) as -> by reflexivity.
  rewrite !Hid by auto. reflexivity.
Qed.

Lemma two_hashed script : exists h, safe_hash (input_engine (two_validator script) two_item 50) [] 1 = Ok h.
Proof. eexists. reflexivity. Qed.

Lemma two_authorised script n :
  (2 <= n)%nat ->
  authorised (input_engine (two_validator script) two_item 50) [example_pair; example_pair] (replicate n SpendLive.example_hash).
Proof.
  intros Hn. split.
  - assert (signed (input_engine (two_validator script) two_item 50) example_pair) as Hs; [|by repeat constructor].
    destruct (two_hashed script) as [h Hh].
    exists example_signature, 1, (mkSignature (X SecpPrime.example_key) 1), SecpPrime.example_key, h.
    split_and!; [reflexivity | vm_compute; reflexivity | exact example_parsed | exact Hh | reflexivity].
  - cbn [map]. rewrite !example_Hash160. destruct n as [|[|n]]; [lia..|]. cbn [replicate].
    do 2 apply submseteq_skip. apply submseteq_nil_l.
Qed.

Lemma two_encoded script : Forall (well_encoded (input_engine (two_validator script) two_item 50)) [example_pair; example_pair].
Proof.
  assert (well_encoded (input_engine (two_validator script) two_item 50) example_pair) as Hs; [|by repeat constructor].
  exists example_signature, 1. split_and!; vm_compute; reflexivity.
Qed.

Lemma two_pushes : Forall2 is_push (example_sig_pops ++ example_sig_pops) (push_order [example_pair; example_pair]).
Proof.
  change (push_order [example_pair; example_pair]) with (push_order [example_pair] ++ push_order [example_pair]).
  apply Forall2_app; apply example_pushes.
Qed.

Lemma prova_input_spendable_witness :
  validate_item (two_validator example_script) None two_item = Ok tt.
Proof.
  apply (prova_input_spendable (two_validator example_script) None two_item example_script 50 (mkPop (opcodeArray OP_2) [])
    example_keys (mkPop (opcodeArray OP_3) []) check_op two_input (example_sig_pops ++ example_sig_pops) [example_pair; example_pair]).
  - apply output_spent.
  - apply two_item_ok.
  - apply bytesb_ok. vm_compute. reflexivity.
  - exact I.
  - vm_compute. reflexivity.
  - vm_compute. reflexivity.
  - vm_compute. reflexivity.
  - vm_compute. reflexivity.
  - cbn. lia.
  - reflexivity.
  - vm_compute. discriminate.
  - vm_compute. reflexivity.
  - exact two_pushes.
  - reflexivity.
  - apply two_encoded.
  - change (val_keyView (two_validator example_script)) with example_keyView. rewrite example_element_hashes. apply two_authorised. lia.
Defined.

Lemma example_parses : ParseScript example_script =
  Ok (mkPop (opcodeArray OP_2) [] :: example_keys ++ [mkPop (opcodeArray OP_3) []; check_op]).
Proof. vm_compute. reflexivity. Qed.

Lemma bytes_ok_script : bytes_ok example_script.
Proof. apply bytesb_ok. vm_compute. reflexivity. Qed.

Lemma example_general : isGeneralProva (mkPop (opcodeArray OP_2) [] :: example_keys ++ [mkPop (opcodeArray OP_3) []; check_op]) = true.
Proof. vm_compute. reflexivity. Qed.

Lemma two_runs script script' hs lastop :
  hs = replicate (length hs) SpendLive.example_hash -> (2 <= length hs <= 16)%nat -> bytes_ok script' ->
  ParseScript script' = Ok (safe_pops 2 hs lastop) -> is_safe_pops 2 hs lastop ->
  run_script (two_validator script) None two_item script' 50 = Ok tt.
Proof.
  intros Hhs Hl Hok Hp Hsafe.
  apply (run_script_live (two_validator script) None two_item script' 50 two_input (example_sig_pops ++ example_sig_pops)
    [example_pair; example_pair] hs lastop); try done.
  - apply two_item_ok.
  - unfold len. lia.
  - exact two_pushes.
  - apply two_encoded.
  - rewrite Hhs. apply two_authorised. lia.
Qed.

Lemma example_validates : validate_item (two_validator example_script) None two_item = Ok tt.
Proof.
  pose proof (ParseScript_wf _ bytes_ok_script) as Hwf. rewrite example_parses in Hwf. destruct Hwf as [Hwf _].
  destruct (replace_prova example_keyView example_script (mkPop (opcodeArray OP_2) []) example_keys _ _ Hwf example_general
    eq_refl) as (Hsafe & script' & Hrep & Hpar & Hok').
  rewrite (validate_script (two_validator example_script) None two_item example_script 50 _ _ script' script'
    (output_spent example_script) example_parses Hrep).
  - rewrite example_element_hashes in Hpar, Hsafe.
    apply (two_runs _ _ (replicate 3 SpendLive.example_hash) check_op);
      [reflexivity | rewrite length_replicate; lia | exact Hok' | exact Hpar | exact Hsafe].
  - unfold thread_script. rewrite bool_decide_eq_false_2; [done|]. apply safe_not_thread, Hsafe.
Qed.

Lemma prova_input_authorised_witness :
  exists rs, len rs = 2 /\ Forall (signs (item_tx two_item) 0 50) rs /\
    map (fun r => Hash160 r.1) rs ⊆+ map (element_hash example_keyView) example_keys /\
    exists r p, r ∈ rs /\ p ∈ example_keys /\ isUint32 (pop_opcode p) = true /\
      Hash160 r.1 = element_hash example_keyView p.
Proof.
  apply (prova_input_authorised (two_validator example_script) None two_item example_script 50 (mkPop (opcodeArray OP_2) [])
    example_keys (mkPop (opcodeArray OP_3) []) check_op).
  - apply output_spent.
  - apply two_item_ok.
  - apply bytes_ok_script.
  - exact I.
  - apply example_parses.
  - apply example_general.
  - reflexivity.
  - apply example_validates.
Defined.

Definition example_thread : bytes := [OP_1; OP_CHECKTHREAD].
Definition example_thread_pops : list parsedOpcode := [mkPop (opcodeArray OP_1) []; thread_op].

Lemma example_thread_parses : ParseScript example_thread = Ok example_thread_pops.
Proof. reflexivity. Qed.

Lemma example_thread_hashes : GetAdminKeyHashes example_keyView 1 = replicate 2 SpendLive.example_hash.
Proof.
  change (GetAdminKeyHashes example_keyView 1) with
    (map (fun pubKey => Hash160 (SerializeCompressed pubKey)) [SecpPrime.example_key; SecpPrime.example_key]).
  cbn [map]. by rewrite example_Hash160.
Qed.

Lemma example_thread_validates : validate_item (two_validator example_thread) None two_item = Ok tt.
Proof.
  destruct (thread_hashes_ok example_keyView 1) as [H20 Hok]. rewrite example_thread_hashes in H20, Hok.
  destruct (ThreadPkScript_safe (replicate 2 SpendLive.example_hash)) as (s & Hs & Hp & Hok'); [done | done | done |].
  rewrite (validate_script (two_validator example_thread) None two_item example_thread 50 example_thread_pops
    example_thread_pops example_thread s (output_spent _) example_thread_parses).
  - apply (two_runs _ _ (replicate 2 SpendLive.example_hash) thread_op);
      [reflexivity | rewrite length_replicate; lia | exact Hok' | exact Hp |].
    split; [lia|]. split; [change (len (replicate 2 SpendLive.example_hash)) with 2; lia|].
    split; [exact H20 | right; reflexivity].
  - by apply thread_not_prova.
  - unfold thread_script. change (bool_decide (TypeOfScript example_thread_pops = ProvaAdminTy)) with true. cbv iota.
    change (ExtractThreadID example_thread_pops) with (@Ok ErrorCode _ 1). cbn [or_rule mbind res_bind].
    change (u8 1) with 1. change (val_keyView (two_validator example_thread)) with example_keyView.
    by rewrite example_thread_hashes, Hs.
Qed.

Lemma thread_input_authorised_witness :
  2 <= len (GetAdminKeyHashes example_keyView 1) <= MaxPubKeysPerMultiSig /\
  exists rs, len rs = 2 /\ Forall (signs (item_tx two_item) 0 50) rs /\
    map (fun r => Hash160 r.1) rs ⊆+ GetAdminKeyHashes example_keyView 1 /\
    (NoDup (GetAdminKeyHashes example_keyView 1) -> NoDup (map fst rs)).
Proof.
  apply (thread_input_authorised (two_validator example_thread) None two_item example_thread 50 example_thread_pops 1).
  - apply output_spent.
  - apply two_item_ok.
  - exact I.
  - apply example_thread_parses.
  - reflexivity.
  - reflexivity.
  - unfold is_u. lia.
  - change (val_keyView (two_validator example_thread)) with example_keyView. rewrite example_thread_hashes.
    vm_compute. discriminate.
  - apply example_thread_validates.
Defined.
End InputSpec.
