(* ===== verification/Treap.v ===== *)
(** The treaps of the database cache: [src/database/internal/treap].

    Nodes are in a heap of addresses, so that rotations are the assignments of
    pointers of the code and the versions of an immutable treap share nodes.  A
    priority, which the code draws at random, is an argument, and so is whether the
    slice passed as a key is nil, which bytes do not tell.  The loops that walk
    the tree take fuel; the number of nodes in the heap is enough. *)
From stdpp Require Import gmap.
From S2P Require Import Prelude.
#[local] Open Scope Z_scope.

Module Treap.

Abbreviation loc := positive.

(** The priority of a node, and whether its key was passed as a nil slice. *)
Record meta := mkMeta { meta_prio :> Z; meta_nil : bool }.

Record treapNode := mkNode { key : bytes; value : bytes; node_meta : meta; left : option loc; right : option loc }.

Definition priority (node : treapNode) : Z := meta_prio (node_meta node).

(** Only an empty slice is nil. *)
Definition nil_key (node : treapNode) : bool := meta_nil (node_meta node) && (len (key node) =? 0).

Abbreviation heap := (gmap loc treapNode).

Definition nodeFieldsSize : Z := 72.
Definition nodeSize (node : treapNode) : Z := u64 (nodeFieldsSize + (len (key node) + len (value node))).

(** [bytes.Compare]. *)
Fixpoint Compare (a b : bytes) : Z :=
  match a, b with
  | [], [] => 0
  | [], _ :: _ => -1
  | _ :: _, [] => 1
  | x :: a, y :: b => if x <? y then -1 else if y <? x then 1 else Compare a b
  end.

(** * The stack of parents (common.go)

    A static array of [staticDepth] items and a slice for the rest. *)
Definition staticDepth : Z := 128.

Record parentStack := mkParentStack { ps_index : Z; ps_items : list (option loc); ps_overflow : list (option loc) }.

Definition new_stack : parentStack := mkParentStack 0 (replicate 128 None) [].

Definition ps_Len (s : parentStack) : Z := ps_index s.

Definition ps_At (s : parentStack) (n : Z) : res string (option loc) :=
  let index := ps_index s - n - 1 in
  if index <? 0 then Ok None
  else if index <? staticDepth then idx (ps_items s) index
  else idx (ps_overflow s) (index - staticDepth).

Definition ps_Pop (s : parentStack) : res string (option loc * parentStack) :=
  if ps_index s =? 0 then Ok (None, s)
  else
    let index := ps_index s - 1 in
    if index <? staticDepth then
      node ← idx (ps_items s) index;
      items ← set_idx (ps_items s) index None;
      Ok (node, mkParentStack index items (ps_overflow s))
    else
      node ← idx (ps_overflow s) (index - staticDepth);
      overflow ← set_idx (ps_overflow s) (index - staticDepth) None;
      Ok (node, mkParentStack index (ps_items s) overflow).

(** The slice is made with a capacity that is its length. *)
Definition ps_Push (s : parentStack) (node : option loc) : res string parentStack :=
  if ps_index s <? staticDepth then
    items ← set_idx (ps_items s) (ps_index s) node;
    Ok (mkParentStack (ps_index s + 1) items (ps_overflow s))
  else
    let index := ps_index s - staticDepth in
    let overflow :=
      if index + 1 >? len (ps_overflow s)
      then ps_overflow s ++ replicate (Z.to_nat (index + 1) - length (ps_overflow s)) None
      else ps_overflow s in
    overflow ← set_idx overflow index node;
    Ok (mkParentStack (ps_index s + 1) (ps_items s) overflow).

(** * Nodes in the heap *)

(** A nil pointer, or one that is not allocated, panics. *)
Definition deref (h : heap) (p : loc) : res string treapNode :=
  match h !! p with Some node => Ok node | None => Panic end.

Definition set_left (node : treapNode) (p : option loc) : treapNode := mkNode (key node) (value node) (node_meta node) p (right node).
Definition set_right (node : treapNode) (p : option loc) : treapNode := mkNode (key node) (value node) (node_meta node) (left node) p.
Definition set_value (node : treapNode) (v : bytes) : treapNode := mkNode (key node) v (node_meta node) (left node) (right node).

Definition assign (h : heap) (p : loc) (f : treapNode -> treapNode) : res string heap :=
  node ← deref h p;
  Ok (<[p := f node]> h).

(** [newTreapNode] and [cloneTreapNode]: a node at an address that is not used. *)
Definition alloc (h : heap) (node : treapNode) : loc * heap :=
  let p := fresh (dom h) in
  (p, <[p := node]> h).

Definition newTreapNode (h : heap) (k v : bytes) (prio : meta) : loc * heap := alloc h (mkNode k v prio None None).

Definition cloneTreapNode (h : heap) (p : loc) : res string (loc * heap) :=
  node ← deref h p;
  Ok (alloc h node).

(** One of the children of [parent] is [old], and becomes [new]. *)
Definition replace_child (h : heap) (parent old : loc) (new : option loc) : res string heap :=
  node ← deref h parent;
  if bool_decide (left node = Some old) then Ok (<[parent := set_left node new]> h)
  else Ok (<[parent := set_right node new]> h).

(** A treap is its root, the number of its nodes and their size; both versions have
    these fields. *)
Record treap := mkTreap { root : option loc; count : Z; totalSize : Z }.

Definition NewMutable : treap := mkTreap None 0 0.
Definition NewImmutable : treap := mkTreap None 0 0.

Definition Reset (t : treap) : treap := mkTreap None 0 0.

Definition Len (t : treap) : Z := count t.
Definition Size (t : treap) : Z := totalSize t.

Definition fuel_of (h : heap) : nat := S (size h).

(** * Looking up *)
Fixpoint get_loop (fuel : nat) (h : heap) (k : bytes) (node parent : option loc) : res string (option loc * option loc) :=
  match node, fuel with
  | None, _ => Ok (None, None)
  | Some _, O => Hang
  | Some p, S fuel =>
      n ← deref h p;
      let compareResult := Compare k (key n) in
      if compareResult <? 0 then get_loop fuel h k (left n) (Some p)
      else if 0 <? compareResult then get_loop fuel h k (right n) (Some p)
      else Ok (Some p, parent)
  end.

Definition get (h : heap) (t : treap) (k : bytes) : res string (option loc * option loc) :=
  get_loop (fuel_of h) h k (root t) None.

Definition Has (h : heap) (t : treap) (k : bytes) : res string bool :=
  '(node, _) ← get h t k;
  Ok (match node with Some _ => true | None => false end).

Definition Get (h : heap) (t : treap) (k : bytes) : res string (option bytes) :=
  '(node, _) ← get h t k;
  match node with
  | Some p => n ← deref h p; Ok (Some (value n))
  | None => Ok None
  end.

(** * Inserting *)

(** The node is now the child of its grandparent, or the root. *)
Definition relinkGrandparent (h : heap) (r : option loc) (node parent : loc) (grandparent : option loc) : res string (heap * option loc) :=
  match grandparent with
  | None => Ok (h, Some node)
  | Some g => h ← replace_child h g parent (Some node); Ok (h, r)
  end.

(** The rotations that move a node up while its priority is below that of its parent. *)
Fixpoint rotate_up (h : heap) (r : option loc) (node : loc) (parents : list loc) : res string (heap * option loc) :=
  match parents with
  | [] => Ok (h, r)
  | parent :: rest =>
      n ← deref h node;
      p ← deref h parent;
      if priority p <=? priority n then Ok (h, r)
      else
        h ← (if bool_decide (left p = Some node)
             then (h ← assign h node (fun x => set_right x (Some parent)); assign h parent (fun x => set_left x (right n)))
             else (h ← assign h node (fun x => set_left x (Some parent)); assign h parent (fun x => set_right x (left n))));
        '(h, r) ← relinkGrandparent h r node parent (head rest);
        rotate_up h r node rest
  end.

(** The parents of the place of a key, the last one first, with the comparison with
    it; or the node of the key. *)
Fixpoint find_place (fuel : nat) (h : heap) (k : bytes) (node : option loc) (parents : list loc) (compareResult : Z)
    : res string (loc + (list loc * Z)) :=
  match node, fuel with
  | None, _ => Ok (inr (parents, compareResult))
  | Some _, O => Hang
  | Some p, S fuel =>
      n ← deref h p;
      let compareResult := Compare k (key n) in
      if compareResult <? 0 then find_place fuel h k (left n) (p :: parents) compareResult
      else if 0 <? compareResult then find_place fuel h k (right n) (p :: parents) compareResult
      else Ok (inl p)
  end.

(** Linking a new node below the last parent, and the rotations. *)
Definition link_new (h : heap) (r : option loc) (k v : bytes) (prio : meta) (parents : list loc) (compareResult : Z)
    : res string (heap * option loc) :=
  let '(node, h) := newTreapNode h k v prio in
  parent ← (match head parents with Some p => Ok p | None => Panic end);
  h ← assign h parent (fun p => if compareResult <? 0 then set_left p (Some node) else set_right p (Some node));
  rotate_up h r node parents.

Definition Mutable_Put (h : heap) (t : treap) (k : bytes) (v : option bytes) (prio : meta) : res string (heap * treap) :=
  let v := default [] v in
  match root t with
  | None =>
      let '(node, h) := newTreapNode h k v prio in
      Ok (h, mkTreap (Some node) 1 (nodeSize (mkNode k v prio None None)))
  | Some _ =>
      place ← find_place (fuel_of h) h k (root t) [] 0;
      match place with
      | inl p =>
          n ← deref h p;
          Ok (<[p := set_value n v]> h, mkTreap (root t) (count t) (u64 (u64 (totalSize t - len (value n)) + len v)))
      | inr (parents, compareResult) =>
          '(h, r) ← link_new h (root t) k v prio parents compareResult;
          Ok (h, mkTreap r (i64 (count t + 1)) (u64 (totalSize t + nodeSize (mkNode k v prio None None))))
      end
  end.

(** The walk of the immutable treap copies the nodes on the way and links the copies. *)
Fixpoint copy_place (fuel : nat) (h : heap) (k : bytes) (node : option loc) (parents : list loc) (compareResult : Z)
    : res string (heap * (loc * loc * list loc + list loc * Z)) :=
  match node, fuel with
  | None, _ => Ok (h, inr (parents, compareResult))
  | Some _, O => Hang
  | Some p, S fuel =>
      '(c, h) ← cloneTreapNode h p;
      h ← (match parents with [] => Ok h | oldParent :: _ => replace_child h oldParent p (Some c) end);
      n ← deref h p;
      let compareResult := Compare k (key n) in
      if compareResult <? 0 then copy_place fuel h k (left n) (c :: parents) compareResult
      else if 0 <? compareResult then copy_place fuel h k (right n) (c :: parents) compareResult
      else Ok (h, inl (p, c, c :: parents))
  end.

Definition Immutable_Put (h : heap) (t : treap) (k : bytes) (v : option bytes) (prio : meta) : res string (heap * treap) :=
  let v := default [] v in
  match root t with
  | None =>
      let '(node, h) := newTreapNode h k v prio in
      Ok (h, mkTreap (Some node) 1 (nodeSize (mkNode k v prio None None)))
  | Some _ =>
      '(h, place) ← copy_place (fuel_of h) h k (root t) [] 0;
      match place with
      | inl (p, c, parents) =>
          n ← deref h p;
          h ← assign h c (fun x => set_value x v);
          Ok (h, mkTreap (last parents) (count t) (u64 (u64 (totalSize t - len (value n)) + len v)))
      | inr (parents, compareResult) =>
          '(h, r) ← link_new h (last parents) k v prio parents compareResult;
          Ok (h, mkTreap r (i64 (count t + 1)) (u64 (totalSize t + nodeSize (mkNode k v prio None None))))
      end
  end.

(** * Deleting *)

(** The child that takes the place of a node: the one with the higher priority. *)
Definition choose_child (h : heap) (n : treapNode) : res string (option (loc * bool)) :=
  match left n, right n with
  | None, None => Ok None
  | None, Some r => Ok (Some (r, false))
  | Some l, None => Ok (Some (l, true))
  | Some l, Some r =>
      nl ← deref h l;
      nr ← deref h r;
      if priority nr <=? priority nl then Ok (Some (l, true)) else Ok (Some (r, false))
  end.

(** The child goes up and the node down, on the side of the child. *)
Definition rotate_down (h : heap) (node child : loc) (isLeft : bool) : res string heap :=
  c ← deref h child;
  if isLeft then
    h ← assign h child (fun x => set_right x (Some node));
    assign h node (fun x => set_left x (right c))
  else
    h ← assign h child (fun x => set_left x (Some node));
    assign h node (fun x => set_right x (left c)).

Fixpoint sink (fuel : nat) (h : heap) (r : option loc) (node : loc) (parent : option loc) : res string (heap * option loc * option loc) :=
  match fuel with
  | O => Hang
  | S fuel =>
      n ← deref h node;
      choice ← choose_child h n;
      match choice with
      | None => Ok (h, r, parent)
      | Some (child, isLeft) =>
          h ← rotate_down h node child isLeft;
          '(h, r) ← relinkGrandparent h r child node parent;
          sink fuel h r node (Some child)
      end
  end.

(** The leaf is taken from its parent. *)
Definition unlink (h : heap) (node : loc) (parent : option loc) : res string heap :=
  parent ← (match parent with Some p => Ok p | None => Panic end);
  p ← deref h parent;
  if bool_decide (right p = Some node) then Ok (<[parent := set_right p None]> h)
  else Ok (<[parent := set_left p None]> h).

Definition Mutable_Delete (h : heap) (t : treap) (k : bytes) : res string (heap * treap) :=
  '(node, parent) ← get h t k;
  match node with
  | None => Ok (h, t)
  | Some node =>
      n ← deref h node;
      match parent, left n, right n with
      | None, None, None => Ok (h, mkTreap None 0 0)
      | _, _, _ =>
          '(h, r, parent) ← sink (fuel_of h) h (root t) node parent;
          h ← unlink h node parent;
          n ← deref h node;
          Ok (h, mkTreap r (i64 (count t - 1)) (u64 (totalSize t - nodeSize n)))
      end
  end.

(** The parents of the node of a key with the node itself, the last one first. *)
Fixpoint find_node (fuel : nat) (h : heap) (k : bytes) (node : option loc) (parents : list loc) : res string (option (list loc)) :=
  match node, fuel with
  | None, _ => Ok None
  | Some _, O => Hang
  | Some p, S fuel =>
      n ← deref h p;
      let compareResult := Compare k (key n) in
      if compareResult <? 0 then find_node fuel h k (left n) (p :: parents)
      else if 0 <? compareResult then find_node fuel h k (right n) (p :: parents)
      else Ok (Some (p :: parents))
  end.

(** The copies of a path from the root, linked to each other. *)
Fixpoint copy_path (h : heap) (path newParents : list loc) : res string (heap * list loc) :=
  match path with
  | [] => Ok (h, newParents)
  | node :: path =>
      '(c, h) ← cloneTreapNode h node;
      h ← (match newParents with [] => Ok h | oldParent :: _ => replace_child h oldParent node (Some c) end);
      copy_path h path (c :: newParents)
  end.

Fixpoint sink_copy (fuel : nat) (h : heap) (r : option loc) (node : loc) (parent : option loc) : res string (heap * option loc * option loc) :=
  match fuel with
  | O => Hang
  | S fuel =>
      n ← deref h node;
      choice ← choose_child h n;
      match choice with
      | None => Ok (h, r, parent)
      | Some (child, isLeft) =>
          '(child, h) ← cloneTreapNode h child;
          h ← rotate_down h node child isLeft;
          '(h, r) ← relinkGrandparent h r child node parent;
          sink_copy fuel h r node (Some child)
      end
  end.

Definition Immutable_Delete (h : heap) (t : treap) (k : bytes) : res string (heap * treap) :=
  found ← find_node (fuel_of h) h k (root t) [];
  match found with
  | None | Some [] => Ok (h, t)
  | Some (delNode :: parents) =>
      n ← deref h delNode;
      match parents, left n, right n with
      | [], None, None => Ok (h, mkTreap None 0 0)
      | _, _, _ =>
          '(h, newParents) ← copy_path h (reverse (delNode :: parents)) [];
          match newParents with
          | [] => Panic
          | delNode :: newParents =>
              '(h, r, parent) ← sink_copy (fuel_of h) h (last newParents) delNode (head newParents);
              h ← unlink h delNode parent;
              n ← deref h delNode;
              Ok (h, mkTreap r (i64 (count t - 1)) (u64 (totalSize t - nodeSize n)))
          end
      end
  end.

(** * Visiting *)

(** A node and all the children to the left of it, on the stack. *)
Fixpoint push_left (fuel : nat) (h : heap) (node : option loc) (parents : list loc) : res string (list loc) :=
  match node, fuel with
  | None, _ => Ok parents
  | Some _, O => Hang
  | Some p, S fuel => n ← deref h p; push_left fuel h (left n) (p :: parents)
  end.

(** The callback has a state of its own and says whether to go on. *)
Fixpoint visit {St} (fn : St -> bytes -> bytes -> St * bool) (fuel : nat) (h : heap) (parents : list loc) (st : St) : res string St :=
  match parents, fuel with
  | [], _ => Ok st
  | _ :: _, O => Hang
  | p :: parents, S fuel =>
      n ← deref h p;
      let '(st, continue) := fn st (key n) (value n) in
      if continue then
        parents ← push_left (fuel_of h) h (right n) parents;
        visit fn fuel h parents st
      else Ok st
  end.

Definition ForEach {St} (fn : St -> bytes -> bytes -> St * bool) (h : heap) (t : treap) (st : St) : res string St :=
  parents ← push_left (fuel_of h) h (root t) [];
  visit fn (fuel_of h) h parents st.

End Treap.
