(* ===== verification/TreapSpec.v ===== *)
(** The treaps are ordered maps.

    A tree of addresses describes what the heap holds below a root; the walks of the
    code are described by a context, the path from a place back to the root.  Each
    operation on the heap is an operation on trees, whose entries in order are those
    of a finite map. *)
From stdpp Require Import gmap sorting.
From S2P Require Import Prelude Treap.
#[local] Open Scope Z_scope.

Module TreapSpec.
Import Treap.

(** * Keys *)
Definition klt (a b : bytes) : Prop := Compare a b < 0.

Lemma Compare_eq a b : Compare a b = 0 <-> a = b.
Proof.
  revert b; induction a as [|x a IH]; intros [|y b]; simpl; try done; try (split; [lia | done]).
  destruct (Z.ltb_spec x y); [split; [lia | intros; simplify_eq; lia]|].
  destruct (Z.ltb_spec y x); [split; [lia | intros; simplify_eq; lia]|].
  assert (x = y) as <- by lia. rewrite IH. split; [by intros -> | by intros [=]].
Qed.

Lemma Compare_flip a b : Compare b a = - Compare a b.
Proof.
  revert b; induction a as [|x a IH]; intros [|y b]; simpl; try done.
  destruct (Z.ltb_spec x y), (Z.ltb_spec y x); try lia; done.
Qed.

#[global] Instance klt_strict : StrictOrder klt.
Proof.
  split.
  - intros a. unfold complement, klt. rewrite (proj2 (Compare_eq a a) eq_refl). lia.
  - unfold klt. intros a; induction a as [|x a IH]; intros [|y b] [|z c]; simpl; try lia.
    destruct (Z.ltb_spec x y), (Z.ltb_spec y x), (Z.ltb_spec y z), (Z.ltb_spec z y),
      (Z.ltb_spec x z), (Z.ltb_spec z x); try lia. apply IH.
Qed.

Lemma Compare_pos a b : 0 < Compare a b <-> klt b a.
Proof. unfold klt. rewrite (Compare_flip a b). lia. Qed.

(** * Trees and contexts *)
Inductive tree :=
| Leaf
| Node (p : loc) (l : tree) (k v : bytes) (prio : meta) (r : tree).

Definition root_of (t : tree) : option loc :=
  match t with Leaf => None | Node p _ _ _ _ _ => Some p end.

Fixpoint locs (t : tree) : list loc :=
  match t with Leaf => [] | Node p l _ _ _ r => p :: locs l ++ locs r end.

Fixpoint entries (t : tree) : list (bytes * bytes) :=
  match t with Leaf => [] | Node _ l k v _ r => entries l ++ (k, v) :: entries r end.

Fixpoint rep (h : heap) (t : tree) : Prop :=
  match t with
  | Leaf => True
  | Node p l k v prio r => h !! p = Some (mkNode k v prio (root_of l) (root_of r)) /\ rep h l /\ rep h r
  end.

(** The parent of a place, with the other subtree: the place is on its left or right. *)
Inductive frame :=
| FL (p : loc) (k v : bytes) (prio : meta) (r : tree)
| FR (p : loc) (l : tree) (k v : bytes) (prio : meta).

Definition fill (f : frame) (t : tree) : tree :=
  match f with FL p k v prio r => Node p t k v prio r | FR p l k v prio => Node p l k v prio t end.

Definition floc (f : frame) : loc := match f with FL p _ _ _ _ => p | FR p _ _ _ _ => p end.
Definition other (f : frame) : tree := match f with FL _ _ _ _ r => r | FR _ l _ _ _ => l end.
Definition fprio (f : frame) : Z := match f with FL _ _ _ prio _ => prio | FR _ _ _ _ prio => prio end.

(** A context lists the parents, the last one first. *)
Fixpoint plug (c : list frame) (t : tree) : tree :=
  match c with [] => t | f :: c => plug c (fill f t) end.

Definition spine (c : list frame) : list loc := floc <$> c.
Definition clocs (c : list frame) : list loc := c ≫= fun f => floc f :: locs (other f).

Fixpoint before (c : list frame) : list (bytes * bytes) :=
  match c with
  | [] => []
  | FL _ _ _ _ _ :: c => before c
  | FR _ l k v _ :: c => before c ++ entries l ++ [(k, v)]
  end.

Fixpoint after (c : list frame) : list (bytes * bytes) :=
  match c with
  | [] => []
  | FL _ k v _ r :: c => (k, v) :: entries r ++ after c
  | FR _ _ _ _ _ :: c => after c
  end.

Definition fnode (f : frame) (hole : option loc) : treapNode :=
  match f with
  | FL _ k v prio r => mkNode k v prio hole (root_of r)
  | FR _ l k v prio => mkNode k v prio (root_of l) hole
  end.

Fixpoint crep (h : heap) (c : list frame) (hole : option loc) : Prop :=
  match c with
  | [] => True
  | f :: c => h !! floc f = Some (fnode f hole) /\ rep h (other f) /\ crep h c (Some (floc f))
  end.

Definition croot (c : list frame) (hole : option loc) : option loc :=
  match last (spine c) with Some p => Some p | None => hole end.

Lemma root_fill f t : root_of (fill f t) = Some (floc f).
Proof. by destruct f. Qed.

Lemma rep_fill h f t : rep h (fill f t) <-> rep h t /\ h !! floc f = Some (fnode f (root_of t)) /\ rep h (other f).
Proof. destruct f; simpl; tauto. Qed.

Lemma rep_plug h c t : rep h (plug c t) <-> rep h t /\ crep h c (root_of t).
Proof.
  revert t; induction c as [|f c IH]; intros t; simpl; [tauto|].
  rewrite IH, rep_fill, root_fill. tauto.
Qed.

Lemma croot_cons f c hole : croot (f :: c) hole = croot c (Some (floc f)).
Proof. unfold croot, spine. rewrite fmap_cons, last_cons. by destruct (last (floc <$> c)). Qed.

Lemma root_plug c t : root_of (plug c t) = croot c (root_of t).
Proof.
  revert t; induction c as [|f c IH]; intros t; [done|].
  simpl. by rewrite IH, root_fill, croot_cons.
Qed.

Lemma locs_plug c t : locs (plug c t) ≡ₚ locs t ++ clocs c.
Proof.
  revert t; induction c as [|f c IH]; intros t; simpl; [by rewrite app_nil_r|].
  rewrite IH. unfold clocs. simpl. destruct f; simpl; solve_Permutation.
Qed.

Lemma entries_plug c t : entries (plug c t) = before c ++ entries t ++ after c.
Proof.
  revert t; induction c as [|f c IH]; intros t; simpl; [by rewrite app_nil_r|].
  rewrite IH. destruct f; simpl; by rewrite <- ?app_assoc, ?app_comm_cons, <- ?app_assoc.
Qed.

Lemma spine_clocs c p : p ∈ spine c -> p ∈ clocs c.
Proof.
  induction c as [|f c IH]; simpl; [done|]. rewrite elem_of_cons. set_solver.
Qed.

(** A heap that has the same nodes at the addresses of a tree holds the same tree. *)
Lemma rep_agree h h' t : (forall p, p ∈ locs t -> h' !! p = h !! p) -> rep h t -> rep h' t.
Proof.
  induction t as [|p l IHl k v prio r IHr]; intros E; simpl in *; [done|].
  intros (Hp & Hl & Hr). rewrite E by set_solver.
  split_and!; [done | apply IHl; [|done] | apply IHr; [|done]]; intros; apply E; set_solver.
Qed.

Lemma crep_agree h h' c hole : (forall p, p ∈ clocs c -> h' !! p = h !! p) -> crep h c hole -> crep h' c hole.
Proof.
  revert hole; induction c as [|f c IH]; intros hole E; simpl in *; [done|].
  intros (Hp & Ho & Hc). unfold clocs in E; simpl in E. rewrite E by set_solver.
  split_and!; [done | apply (rep_agree h); [|done] | apply IH; [|done]]; intros; apply E; set_solver.
Qed.

Lemma rep_dom h t p : rep h t -> p ∈ locs t -> p ∈ dom h.
Proof.
  induction t as [|q l IHl k v prio r IHr]; simpl; [set_solver|].
  intros (Hq & Hl & Hr) Hp. rewrite elem_of_cons, elem_of_app in Hp.
  destruct Hp as [->|[Hp|Hp]]; auto. by apply elem_of_dom_2 in Hq.
Qed.

Lemma locs_fuel h t : rep h t -> NoDup (locs t) -> (length (locs t) <= size h)%nat.
Proof.
  intros Hr Hn. rewrite <- size_dom, <- (size_list_to_set (C := gset loc)) by done.
  apply subseteq_size. intros p. rewrite elem_of_list_to_set. by apply rep_dom.
Qed.

(** * Moving up *)

(** The node goes up while the priority of its parent is above its own. *)
Fixpoint rise (c : list frame) (n : loc) (a : tree) (k v : bytes) (prio : meta) (b : tree) : tree :=
  match c with
  | [] => Node n a k v prio b
  | f :: c' =>
      if fprio f <=? prio then plug c (Node n a k v prio b)
      else match f with
           | FL p kp vp pp r => rise c' n a k v prio (Node p b kp vp pp r)
           | FR p l kp vp pp => rise c' n (Node p l kp vp pp a) k v prio b
           end
  end.

Lemma entries_rise c n a k v prio b : entries (rise c n a k v prio b) = before c ++ entries (Node n a k v prio b) ++ after c.
Proof.
  revert a b; induction c as [|f c IH]; intros a b; [by simpl; rewrite app_nil_r|].
  cbn [rise]. case_if; [apply entries_plug|].
  destruct f; rewrite IH; simpl; by rewrite <- ?app_assoc, ?app_comm_cons, <- ?app_assoc.
Qed.

Lemma locs_rise c n a k v prio b : locs (rise c n a k v prio b) ≡ₚ locs (plug c (Node n a k v prio b)).
Proof.
  revert a b; induction c as [|f c IH]; intros a b; [done|].
  cbn [rise]. case_if; [done|].
  rewrite locs_plug. destruct f; rewrite IH, locs_plug; unfold clocs; simpl; solve_Permutation.
Qed.

(** What a step of the code leaves as it was. *)
Definition agree_off (ps : list loc) (h h' : heap) : Prop := forall q, q ∉ ps -> h' !! q = h !! q.

Lemma agree_off_trans ps qs h1 h2 h3 : agree_off ps h1 h2 -> agree_off qs h2 h3 -> agree_off (ps ++ qs) h1 h3.
Proof. intros E F q Hq. rewrite F, E; set_solver. Qed.

Lemma agree_off_mono ps qs h h' : ps ⊆ qs -> agree_off ps h h' -> agree_off qs h h'.
Proof. intros S E q Hq. apply E. set_solver. Qed.

Lemma agree_off_insert p n (h : heap) : agree_off [p] h (<[p := n]> h).
Proof. intros q Hq. apply lookup_insert_ne. set_solver. Qed.

Lemma rep_off ps h h' t : agree_off ps h h' -> (forall q, q ∈ ps -> q ∉ locs t) -> rep h t -> rep h' t.
Proof. intros E D. apply rep_agree. intros p Hp. apply E. intros Hq. by apply (D p). Qed.

Lemma crep_off ps h h' c hole : agree_off ps h h' -> (forall q, q ∈ ps -> q ∉ clocs c) -> crep h c hole -> crep h' c hole.
Proof. intros E D. apply crep_agree. intros p Hp. apply E. intros Hq. by apply (D p). Qed.

Lemma replace_child_spec h f old new :
  h !! floc f = Some (fnode f (Some old)) -> old ∉ locs (other f) ->
  replace_child h (floc f) old new = Ok (<[floc f := fnode f new]> h).
Proof.
  intros Hf Ho. unfold replace_child, deref. rewrite Hf. simpl.
  destruct f as [p k v prio r|p l k v prio]; simpl in *; [by rewrite bool_decide_true|].
  rewrite bool_decide_false; [done|]. destruct l; simpl in *; [done|]. intros [= ->]. set_solver.
Qed.

Lemma relink_spec h c old new :
  crep h c (Some old) -> NoDup (clocs c) -> old ∉ clocs c ->
  exists h', relinkGrandparent h (croot c (Some old)) new old (head (spine c)) = Ok (h', croot c (Some new)) /\
    crep h' c (Some new) /\ agree_off (take 1 (spine c)) h h'.
Proof.
  intros Hc Hn Ho. destruct c as [|f c]; simpl in *; [by exists h|].
  destruct Hc as (Hf & Hr & Hc). unfold clocs in *; simpl in *.
  apply NoDup_cons in Hn as [Hn1 Hn2].
  rewrite (replace_child_spec h f old (Some new)) by (done || set_solver).
  eexists. rewrite !croot_cons. split; [done|].
  pose proof (agree_off_insert (floc f) (fnode f (Some new)) h) as E.
  split; [|by rewrite take_0]. split_and!; [apply lookup_insert_eq| |].
  - eapply rep_off; [done| |done]. set_solver.
  - eapply crep_off; [done| |done]. unfold clocs. set_solver.
Qed.

(** One rotation: the node [n] with the children [a] and [b], in the place of its
    parent. *)
Lemma rotate_spec h f c n a k v prio b :
  rep h (plug (f :: c) (Node n a k v prio b)) -> NoDup (locs (plug (f :: c) (Node n a k v prio b))) ->
  exists h' a' b',
    (if bool_decide (left (fnode f (Some n)) = Some n)
     then (h ← assign h n (fun x => set_right x (Some (floc f))); assign h (floc f) (fun x => set_left x (root_of b)))
     else (h ← assign h n (fun x => set_left x (Some (floc f))); assign h (floc f) (fun x => set_right x (root_of a)))) = Ok h' /\
    Node n a' k v prio b' = match f with
      | FL p kp vp pp r => Node n a k v prio (Node p b kp vp pp r)
      | FR p l kp vp pp => Node n (Node p l kp vp pp a) k v prio b end /\
    rep h' (Node n a' k v prio b') /\ crep h' c (Some (floc f)) /\ agree_off [n; floc f] h h'.
Proof.
  intros Hr Hn. rewrite rep_plug in Hr. destruct Hr as ((Hn' & Ha & Hb) & Hf & Ho & Hc).
  rewrite locs_plug in Hn. unfold clocs in Hn; simpl in Hn.
  apply NoDup_cons in Hn as [N1 N2]. apply NoDup_app in N2 as (N2 & N3 & N4). apply NoDup_cons in N4 as [N5 N6].
  apply NoDup_app in N2 as (N2 & N7 & N8). apply NoDup_app in N6 as (N6 & N9 & N10).
  assert (n <> floc f) as Nf by set_solver.
  assert (forall x y, agree_off [n; floc f] h (<[floc f := x]> (<[n := y]> h))) as E.
  { intros x y q Hq. rewrite !lookup_insert_ne; set_solver. }
  assert (forall t, (forall q, q = n \/ q = floc f -> q ∉ locs t) -> rep h t -> forall x y, rep (<[floc f := x]> (<[n := y]> h)) t) as R.
  { intros t D Ht x y. eapply rep_off; [apply E| |done]. set_solver. }
  assert (forall x y, crep (<[floc f := x]> (<[n := y]> h)) c (Some (floc f))) as C.
  { intros x y. eapply crep_off; [apply E| |done]. unfold clocs in *. set_solver. }
  destruct f as [p kp vp pp r|p l kp vp pp]; simpl in *.
  - exists (<[p := mkNode kp vp pp (root_of b) (root_of r)]> (<[n := mkNode k v prio (root_of a) (Some p)]> h)), a, (Node p b kp vp pp r).
    rewrite bool_decide_true by done. unfold assign, deref. rewrite Hn'. simpl. rewrite lookup_insert_ne, Hf by done. simpl.
    rewrite lookup_insert_ne, !lookup_insert_eq by done. split_and!; try done; try (apply R; [set_solver|done]); try apply C; try apply E.
  - exists (<[p := mkNode kp vp pp (root_of l) (root_of a)]> (<[n := mkNode k v prio (Some p) (root_of b)]> h)), (Node p l kp vp pp a), b.
    rewrite bool_decide_false by (destruct l; simpl in *; [done | set_solver]).
    unfold assign, deref. rewrite Hn'. simpl. rewrite lookup_insert_ne, Hf by done. simpl.
    rewrite lookup_insert_ne, !lookup_insert_eq by done. split_and!; try done; try (apply R; [set_solver|done]); try apply C; try apply E.
Qed.

Lemma bind_ok {A B} (a : A) (f : A -> res string B) : (Ok a ≫= f) = f a.
Proof. done. Qed.

Lemma deref_spec h p n : h !! p = Some n -> deref h p = Ok n.
Proof. unfold deref. by intros ->. Qed.

Lemma rotate_up_spec c : forall h n a k v prio b,
  let t := Node n a k v prio b in
  rep h (plug c t) -> NoDup (locs (plug c t)) ->
  exists h', rotate_up h (root_of (plug c t)) n (spine c) = Ok (h', root_of (rise c n a k v prio b)) /\
    rep h' (rise c n a k v prio b) /\ agree_off (n :: spine c) h h'.
Proof.
  induction c as [|f c IH]; intros h n a k v prio b t Hr Hn; [by exists h|].
  pose proof Hr as Hr'. rewrite rep_plug in Hr'. destruct Hr' as ((Hx & _) & Hf & _).
  change (spine (f :: c)) with (floc f :: spine c). cbn [rotate_up rise].
  rewrite (deref_spec _ _ _ Hx), bind_ok, (deref_spec _ _ _ Hf), bind_ok.
  replace (priority (fnode f _)) with (fprio f) by by destruct f. unfold priority at 1; cbn [node_meta]. case_if; [by exists h|].
  destruct (rotate_spec h f c n a k v prio b Hr Hn) as (h1 & a' & b' & E1 & Et & R1 & C1 & A1).
  change (root_of t) with (Some n). cbn [Treap.right Treap.left]. cbn [Treap.right Treap.left] in E1. rewrite E1, bind_ok.
  assert (locs (plug (f :: c) t) ≡ₚ locs (Node n a' k v prio b') ++ clocs c) as Hl.
  { rewrite locs_plug, Et. unfold clocs. destruct f; simpl; solve_Permutation. }
  rewrite Hl in Hn. pose proof Hn as Hn'. apply NoDup_app in Hn' as (N1 & N2 & N3).
  assert (floc f ∈ locs (Node n a' k v prio b')) as Hp by (rewrite Et; destruct f; set_solver).
  destruct (relink_spec h1 c (floc f) n C1 N3 (N2 _ Hp)) as (h2 & E2 & C2 & A2).
  rewrite root_plug, croot_cons, E2, bind_ok.
  assert (rep h2 (plug c (Node n a' k v prio b'))) as R2.
  { apply rep_plug. split; [|done]. eapply rep_off; [exact A2| |done].
    intros q Hq Hq'. apply (N2 q); [done|]. apply spine_clocs, (subseteq_take 1), Hq. }
  assert (NoDup (locs (plug c (Node n a' k v prio b')))) as Hn2 by by rewrite locs_plug.
  destruct (IH h2 n a' k v prio b' R2 Hn2) as (h3 & E3 & R3 & A3).
  rewrite root_plug in E3. simpl in E3. exists h3. rewrite E3.
  destruct f; injection Et as <- <-; (split_and!; [done..|]);
    (eapply agree_off_mono; [|eapply agree_off_trans; [exact A1 | eapply agree_off_trans; [exact A2 | exact A3]]]);
    pose proof (subseteq_take 1 (spine c)); set_solver.
Qed.

(** * Walking down *)
Fixpoint search (k : bytes) (c : list frame) (t : tree) : list frame * tree :=
  match t with
  | Leaf => (c, Leaf)
  | Node p l kp vp pp r =>
      if Compare k kp <? 0 then search k (FL p kp vp pp r :: c) l
      else if 0 <? Compare k kp then search k (FR p l kp vp pp :: c) r
      else (c, t)
  end.

(** The tree at the place of a key is empty or has the key at its root. *)
Definition at_key (k : bytes) (t : tree) : Prop :=
  match t with Leaf => True | Node _ _ k' _ _ _ => k' = k end.

(** The entries around a place are below and above the key. *)
Definition around (k : bytes) (c : list frame) : Prop :=
  (forall e, e ∈ before c -> klt e.1 k) /\ (forall e, e ∈ after c -> klt k e.1).

Definition sorted (l : list (bytes * bytes)) : Prop := StronglySorted (fun x y => klt x.1 y.1) l.

Lemma sorted_app l1 l2 : sorted (l1 ++ l2) <-> sorted l1 /\ (forall x y, x ∈ l1 -> y ∈ l2 -> klt x.1 y.1) /\ sorted l2.
Proof. unfold sorted. rewrite StronglySorted_app. naive_solver. Qed.

Lemma sorted_cons x l : sorted (x :: l) <-> (forall y, y ∈ l -> klt x.1 y.1) /\ sorted l.
Proof. unfold sorted. rewrite StronglySorted_cons, Forall_forall. tauto. Qed.

Lemma sorted_middle l1 k v l2 : sorted (l1 ++ (k, v) :: l2) ->
  (forall e, e ∈ l1 -> klt e.1 k) /\ (forall e, e ∈ l2 -> klt k e.1).
Proof.
  intros [_ [H1 H2]]%sorted_app. apply sorted_cons in H2 as [H2 _]. split; [|done].
  intros e He. apply (H1 e (k, v)); [done | set_solver].
Qed.

Lemma search_plug k c t : plug (search k c t).1 (search k c t).2 = plug c t.
Proof.
  revert c; induction t as [|p l IHl kp vp pp r IHr]; intros c; simpl; [done|].
  case_if; [by rewrite IHl|]. case_if; [by rewrite IHr|]. done.
Qed.

Lemma search_at k c t : at_key k (search k c t).2.
Proof.
  revert c; induction t as [|p l IHl kp vp pp r IHr]; intros c; simpl; [done|].
  case_if; [apply IHl|]. case_if; [apply IHr|]. simpl. symmetry. apply Compare_eq. lia.
Qed.

Lemma search_around k c t : sorted (entries (plug c t)) -> around k c -> around k (search k c t).1.
Proof.
  revert c; induction t as [|p l IHl kp vp pp r IHr]; intros c Hs [Hb Ha]; simpl; [done|].
  rewrite entries_plug in Hs. simpl in Hs. rewrite <- app_assoc, app_assoc in Hs. simpl in Hs.
  pose proof (sorted_middle _ _ _ _ Hs) as [H1 H2].
  case_if; [|case_if; [|done]].
  - apply IHl; [by rewrite entries_plug; simpl; rewrite app_assoc|]. split; [done|]. simpl.
    assert (klt k kp) as Hk by (unfold klt; lia).
    intros e [->|He]%elem_of_cons; [done|]. transitivity kp; [done | by apply H2].
  - apply IHr; [by rewrite entries_plug; simpl; rewrite <- !app_assoc in *|]. split; [|done]. simpl.
    assert (klt kp k) as Hk by (apply Compare_pos; lia). rewrite app_assoc.
    intros e [He| ->%list_elem_of_singleton]%elem_of_app; [|done]. transitivity kp; [by apply H1 | done].
Qed.

(** The loops of the code find the place. *)
Lemma get_loop_spec fuel h k c t : rep h t -> (length (locs t) <= fuel)%nat ->
  get_loop fuel h k (root_of t) (head (spine c)) =
    Ok (match search k c t with (_, Leaf) => (None, None) | (c', Node p _ _ _ _ _) => (Some p, head (spine c')) end).
Proof.
  revert fuel c; induction t as [|p l IHl kp vp pp r IHr]; intros fuel c Hr Hf; [by destruct fuel|].
  destruct Hr as (Hp & Hl & Hr). simpl in Hf. rewrite length_app in Hf. destruct fuel as [|fuel]; [lia|].
  simpl. rewrite (deref_spec _ _ _ Hp), bind_ok. simpl. case_if; [|case_if; [|done]].
  - rewrite <- (IHl fuel (FL p kp vp pp r :: c)) by (done || lia). done.
  - rewrite <- (IHr fuel (FR p l kp vp pp :: c)) by (done || lia). done.
Qed.

(** The comparison with the last parent says on which side the place is. *)
Definition side (c : list frame) (compareResult : Z) : Prop :=
  match c with [] => True | FL _ _ _ _ _ :: _ => compareResult < 0 | FR _ _ _ _ _ :: _ => 0 < compareResult end.

Lemma find_place_spec fuel h k c t cr : rep h t -> (length (locs t) <= fuel)%nat -> side c cr ->
  exists cr', side (search k c t).1 cr' /\
    find_place fuel h k (root_of t) (spine c) cr =
      Ok (match search k c t with (c', Leaf) => inr (spine c', cr') | (_, Node p _ _ _ _ _) => inl p end).
Proof.
  revert fuel c cr; induction t as [|p l IHl kp vp pp r IHr]; intros fuel c cr Hr Hf Hs; [by exists cr; destruct fuel|].
  destruct Hr as (Hp & Hl & Hr). simpl in Hf. rewrite length_app in Hf. destruct fuel as [|fuel]; [lia|].
  simpl. rewrite (deref_spec _ _ _ Hp), bind_ok. simpl. case_if; [|case_if; [|by exists cr]].
  - apply (IHl fuel (FL p kp vp pp r :: c)); [done | lia | simpl; lia].
  - apply (IHr fuel (FR p l kp vp pp :: c)); [done | lia | simpl; lia].
Qed.

Lemma find_node_spec fuel h k c t : rep h t -> (length (locs t) <= fuel)%nat ->
  find_node fuel h k (root_of t) (spine c) =
    Ok (match search k c t with (_, Leaf) => None | (c', Node p _ _ _ _ _) => Some (p :: spine c') end).
Proof.
  revert fuel c; induction t as [|p l IHl kp vp pp r IHr]; intros fuel c Hr Hf; [by destruct fuel|].
  destruct Hr as (Hp & Hl & Hr). simpl in Hf. rewrite length_app in Hf. destruct fuel as [|fuel]; [lia|].
  simpl. rewrite (deref_spec _ _ _ Hp), bind_ok. simpl. case_if; [|case_if; [|done]].
  - apply (IHl fuel (FL p kp vp pp r :: c)); [done | lia].
  - apply (IHr fuel (FR p l kp vp pp :: c)); [done | lia].
Qed.

(** * A new node *)
Lemma assign_spec h p n f : h !! p = Some n -> assign h p f = Ok (<[p := f n]> h).
Proof. intros E. unfold assign. by rewrite (deref_spec _ _ _ E). Qed.

Lemma link_new_spec h c k v prio cr :
  rep h (plug c Leaf) -> NoDup (locs (plug c Leaf)) -> c <> [] -> side c cr ->
  let n := fresh (dom h) in
  exists h', link_new h (root_of (plug c Leaf)) k v prio (spine c) cr = Ok (h', root_of (rise c n Leaf k v prio Leaf)) /\
    rep h' (rise c n Leaf k v prio Leaf) /\ agree_off (n :: spine c) h h'.
Proof.
  intros Hr Hn Hne Hs n. destruct c as [|f c]; [done|]. pose proof (is_fresh (dom h)) as Hfresh. fold n in Hfresh.
  rewrite rep_plug in Hr. destruct Hr as (_ & Hf & Ho & Hc).
  rewrite locs_plug in Hn. unfold clocs in Hn; simpl in Hn. pose proof Hn as [Hn1 Hn2]%NoDup_cons.
  assert (forall p, p ∈ clocs (f :: c) -> p ∈ dom h) as Hd.
  { intros p Hp. apply (rep_dom h (plug (f :: c) Leaf)); [by apply rep_plug|]. by rewrite locs_plug. }
  unfold clocs in Hd; simpl in Hd. assert (n <> floc f) as Hnf by set_solver.
  unfold link_new, newTreapNode, alloc. fold n. cbn [spine fmap list_fmap head]. rewrite bind_ok.
  rewrite (assign_spec _ _ (fnode f None)) by by rewrite lookup_insert_ne. rewrite bind_ok.
  set (h1 := <[floc f := _]> _).
  assert (h1 = <[floc f := fnode f (Some n)]> (<[n := mkNode k v prio None None]> h)) as Eh.
  { unfold h1. f_equal. destruct f; simpl in Hs; simpl; case_if; done || lia. }
  assert (agree_off [n; floc f] h h1) as A1.
  { rewrite Eh. intros q Hq. rewrite !lookup_insert_ne; set_solver. }
  assert (rep h1 (plug (f :: c) (Node n Leaf k v prio Leaf))) as R1.
  { apply rep_plug. split; [split; [|done]|split; [rewrite Eh; apply lookup_insert_eq|split]].
    - rewrite Eh, lookup_insert_ne by done. apply lookup_insert_eq.
    - eapply rep_off; [exact A1| |exact Ho]. set_solver.
    - eapply crep_off; [exact A1| |exact Hc]. unfold clocs. set_solver. }
  destruct (rotate_up_spec (f :: c) h1 n Leaf k v prio Leaf R1) as (h' & E & R & A).
  { rewrite locs_plug. simpl. unfold clocs; simpl. apply NoDup_cons. set_solver. }
  exists h'. rewrite root_plug, croot_cons in *. change (floc <$> c) with (spine c). rewrite <- E. split_and!; [done..|].
  eapply agree_off_mono; [|eapply agree_off_trans; [exact A1|exact A]]. set_solver.
Qed.

(** * Moving down *)

(** A child, or its copy at [m], takes the place of its parent [n]. *)
Lemma sink_left_spec h c n k v prio b lp m al km vm pm ar :
  h !! n = Some (mkNode k v prio lp (root_of b)) -> h !! m = Some (mkNode km vm pm (root_of al) (root_of ar)) ->
  rep h al -> rep h ar -> rep h b -> crep h c (Some n) ->
  NoDup (m :: n :: locs al ++ locs ar ++ locs b ++ clocs c) ->
  exists h1 h', rotate_down h n m true = Ok h1 /\
    relinkGrandparent h1 (croot c (Some n)) m n (head (spine c)) = Ok (h', croot c (Some m)) /\
    rep h' (plug (FR m al km vm pm :: c) (Node n ar k v prio b)) /\ agree_off (m :: n :: spine c) h h'.
Proof.
  intros Hn Hm Hal Har Hb Hc [N1 N2]%NoDup_cons. pose proof N2 as [N3 N4]%NoDup_cons.
  apply NoDup_app in N4 as (_ & N5 & N4). apply NoDup_app in N4 as (_ & N6 & N4). apply NoDup_app in N4 as (_ & N7 & N8).
  set (h1 := <[n := mkNode k v prio (root_of ar) (root_of b)]> (<[m := mkNode km vm pm (root_of al) (Some n)]> h)).
  assert (agree_off [m; n] h h1) as A1.
  { intros q Hq. unfold h1. rewrite !lookup_insert_ne; set_solver. }
  assert (crep h1 c (Some n)) as C1 by (eapply crep_off; [exact A1 | set_solver | done]).
  destruct (relink_spec h1 c n m C1 N8) as (h' & E & C2 & A2); [set_solver|].
  assert (agree_off (m :: n :: take 1 (spine c)) h h') as A by (eapply (agree_off_trans [m; n]); done).
  assert (forall q, q ∈ take 1 (spine c) -> q ∈ clocs c) as T.
  { intros q Hq. apply spine_clocs, (subseteq_take 1), Hq. }
  assert (m <> n) as Hmn by set_solver. exists h1, h'.
  split_and!; [| done | |eapply agree_off_mono; [|exact A]; pose proof (subseteq_take 1 (spine c)); set_solver].
  - unfold rotate_down. rewrite (deref_spec _ _ _ Hm), bind_ok. simpl.
    rewrite (assign_spec _ _ _ _ Hm), bind_ok. erewrite assign_spec by (rewrite lookup_insert_ne; done). done.
  - simpl. apply rep_plug. split; [|done]. simpl. split_and!.
    + rewrite A2 by set_solver. unfold h1. rewrite lookup_insert_ne by done. apply lookup_insert_eq.
    + eapply rep_off; [exact A| |done]. set_solver.
    + rewrite A2 by set_solver. apply lookup_insert_eq.
    + eapply rep_off; [exact A| |done]. set_solver.
    + eapply rep_off; [exact A| |done]. set_solver.
Qed.

Lemma sink_right_spec h c n k v prio a rp m bl km vm pm br :
  h !! n = Some (mkNode k v prio (root_of a) rp) -> h !! m = Some (mkNode km vm pm (root_of bl) (root_of br)) ->
  rep h a -> rep h bl -> rep h br -> crep h c (Some n) ->
  NoDup (m :: n :: locs a ++ locs bl ++ locs br ++ clocs c) ->
  exists h1 h', rotate_down h n m false = Ok h1 /\
    relinkGrandparent h1 (croot c (Some n)) m n (head (spine c)) = Ok (h', croot c (Some m)) /\
    rep h' (plug (FL m km vm pm br :: c) (Node n a k v prio bl)) /\ agree_off (m :: n :: spine c) h h'.
Proof.
  intros Hn Hm Ha Hbl Hbr Hc [N1 N2]%NoDup_cons. pose proof N2 as [N3 N4]%NoDup_cons.
  apply NoDup_app in N4 as (_ & N5 & N4). apply NoDup_app in N4 as (_ & N6 & N4). apply NoDup_app in N4 as (_ & N7 & N8).
  set (h1 := <[n := mkNode k v prio (root_of a) (root_of bl)]> (<[m := mkNode km vm pm (Some n) (root_of br)]> h)).
  assert (agree_off [m; n] h h1) as A1.
  { intros q Hq. unfold h1. rewrite !lookup_insert_ne; set_solver. }
  assert (crep h1 c (Some n)) as C1 by (eapply crep_off; [exact A1 | set_solver | done]).
  destruct (relink_spec h1 c n m C1 N8) as (h' & E & C2 & A2); [set_solver|].
  assert (agree_off (m :: n :: take 1 (spine c)) h h') as A by (eapply (agree_off_trans [m; n]); done).
  assert (forall q, q ∈ take 1 (spine c) -> q ∈ clocs c) as T.
  { intros q Hq. apply spine_clocs, (subseteq_take 1), Hq. }
  assert (m <> n) as Hmn by set_solver. exists h1, h'.
  split_and!; [| done | |eapply agree_off_mono; [|exact A]; pose proof (subseteq_take 1 (spine c)); set_solver].
  - unfold rotate_down. rewrite (deref_spec _ _ _ Hm), bind_ok. simpl.
    rewrite (assign_spec _ _ _ _ Hm), bind_ok. erewrite assign_spec by (rewrite lookup_insert_ne; done). done.
  - simpl. apply rep_plug. split; [|done]. simpl. split_and!.
    + rewrite A2 by set_solver. unfold h1. rewrite lookup_insert_ne by done. apply lookup_insert_eq.
    + rewrite A2 by set_solver. apply lookup_insert_eq.
    + eapply rep_off; [exact A| |done]. set_solver.
    + eapply rep_off; [exact A| |done]. set_solver.
    + eapply rep_off; [exact A| |done]. set_solver.
Qed.

Lemma unlink_spec h f c n k v prio :
  rep h (plug (f :: c) (Node n Leaf k v prio Leaf)) -> NoDup (locs (plug (f :: c) (Node n Leaf k v prio Leaf))) ->
  exists h', unlink h n (Some (floc f)) = Ok h' /\ rep h' (plug (f :: c) Leaf) /\
    h' !! n = Some (mkNode k v prio None None) /\ agree_off [floc f] h h'.
Proof.
  intros Hr Hn. rewrite rep_plug in Hr. destruct Hr as ((Hn' & _) & Hf & Ho & Hc).
  rewrite locs_plug in Hn. unfold clocs in Hn; simpl in Hn.
  apply NoDup_cons in Hn as [N1 [N2 N3]%NoDup_cons]. apply NoDup_app in N3 as (_ & N4 & _).
  assert (n <> floc f) as Nf by set_solver.
  exists (<[floc f := fnode f None]> h).
  pose proof (agree_off_insert (floc f) (fnode f None) h) as A.
  split_and!; [| |by rewrite lookup_insert_ne | done].
  - unfold unlink. rewrite bind_ok, (deref_spec _ _ _ Hf), bind_ok. destruct f as [p kp vp pp r|p l kp vp pp]; simpl in *.
    + rewrite bool_decide_false by (destruct r; simpl in *; [done | set_solver]). done.
    + by rewrite bool_decide_true.
  - apply rep_plug. split; [done|]. split; [apply lookup_insert_eq|]. split.
    + eapply rep_off; [exact A| |done]. set_solver.
    + eapply crep_off; [exact A| |done]. unfold clocs. set_solver.
Qed.

(** The side of the child that goes up. *)
Definition chosen (a b : tree) : option bool :=
  match a, b with
  | Leaf, Leaf => None
  | Leaf, Node _ _ _ _ _ _ => Some false
  | Node _ _ _ _ _ _, Leaf => Some true
  | Node _ _ _ _ pa _, Node _ _ _ _ pb _ => Some (pb <=? pa)
  end.

Lemma choose_child_spec h a b k v prio : rep h a -> rep h b ->
  choose_child h (mkNode k v prio (root_of a) (root_of b)) =
    Ok (isLeft ← chosen a b; child ← root_of (if isLeft : bool then a else b); Some (child, isLeft)).
Proof.
  intros Ha Hb. unfold choose_child. destruct a as [|p al ka va pa ar], b as [|q bl kb vb pb br]; simpl in *; try done.
  rewrite (deref_spec _ _ _ (proj1 Ha)), bind_ok, (deref_spec _ _ _ (proj1 Hb)), bind_ok. unfold priority. simpl. by case_if.
Qed.

(** The node [n] is a leaf in the context [c'], and the entries around it are those
    of its subtrees and of the place it came from. *)
Record sunk (c : list frame) (n : loc) (a b : tree) (k v : bytes) (prio : meta) (h' : heap) (c' : list frame) : Prop := {
  sunk_rep : rep h' (plug c' (Node n Leaf k v prio Leaf));
  sunk_nodup : NoDup (locs (plug c' (Node n Leaf k v prio Leaf)));
  sunk_before : before c' = before c ++ entries a;
  sunk_after : after c' = entries b ++ after c;
  sunk_nil : c' = [] -> c = [] /\ a = Leaf /\ b = Leaf
}.

Lemma sunk_left c n m al km vm pm ar b k v prio h' c' q :
  sunk (FR m al km vm pm :: c) n ar b k v prio h' c' -> sunk c n (Node q al km vm pm ar) b k v prio h' c'.
Proof. intros [R N B A L]. split; [done..| | done | naive_solver]. rewrite B. simpl. by rewrite <- !app_assoc. Qed.

Lemma sunk_right c n m a bl km vm pm br k v prio h' c' q :
  sunk (FL m km vm pm br :: c) n a bl k v prio h' c' -> sunk c n a (Node q bl km vm pm br) k v prio h' c'.
Proof. intros [R N B A L]. split; [done..| | naive_solver]. rewrite A. simpl. by rewrite <- !app_assoc. Qed.

Lemma nodup_perm {A} (l k : list A) : l ≡ₚ k -> NoDup l -> NoDup k.
Proof. by intros ->. Qed.

Lemma locs_node_plug n a k v prio b c : locs (plug c (Node n a k v prio b)) ≡ₚ n :: locs a ++ locs b ++ clocs c.
Proof. rewrite locs_plug. simpl. by rewrite app_assoc. Qed.

Lemma sink_spec fuel : forall h c n a k v prio b,
  let t := plug c (Node n a k v prio b) in
  rep h t -> NoDup (locs t) -> (length (locs a) + length (locs b) < fuel)%nat ->
  exists h' c', sink fuel h (root_of t) n (head (spine c)) =
      Ok (h', root_of (plug c' (Node n Leaf k v prio Leaf)), head (spine c')) /\ sunk c n a b k v prio h' c'.
Proof.
  induction fuel as [|fuel IH]; intros h c n a k v prio b t Hr Hn Hf; [lia|].
  unfold t in *. pose proof Hr as ((Hx & Ha & Hb) & Hc)%rep_plug. simpl in Hc.
  cbn [sink]. rewrite (deref_spec _ _ _ Hx), bind_ok, choose_child_spec, bind_ok by done.
  pose proof Hn as Hn'. rewrite locs_node_plug in Hn'.
  destruct (chosen a b) as [[|]|] eqn:Ech; simpl.
  - destruct a as [|q al ka va pa ar]; [by destruct b|]. destruct Ha as (Hq & Hal & Har). simpl.
    destruct (sink_left_spec h c n k v prio b (Some q) q al ka va pa ar) as (h1 & h2 & E1 & E2 & R2 & _); [done..| |].
    { eapply nodup_perm; [|exact Hn']. simpl. solve_Permutation. }
    rewrite E1, bind_ok, root_plug. simpl. rewrite E2, bind_ok.
    destruct (IH h2 (FR q al ka va pa :: c) n ar k v prio b) as (h' & c' & E & S); [done| |simpl in Hf; rewrite length_app in Hf; lia|].
    { rewrite locs_node_plug. eapply nodup_perm; [|exact Hn']. unfold clocs; simpl. solve_Permutation. }
    rewrite root_plug, croot_cons in E. exists h', c'. split; [exact E | by eapply sunk_left].
  - destruct b as [|q bl kb vb pb br]; [by destruct a|]. destruct Hb as (Hq & Hbl & Hbr). simpl.
    destruct (sink_right_spec h c n k v prio a (Some q) q bl kb vb pb br) as (h1 & h2 & E1 & E2 & R2 & _); [done..| |].
    { eapply nodup_perm; [|exact Hn']. simpl. solve_Permutation. }
    rewrite E1, bind_ok, root_plug. simpl. rewrite E2, bind_ok.
    destruct (IH h2 (FL q kb vb pb br :: c) n a k v prio bl) as (h' & c' & E & S); [done| |simpl in Hf; rewrite length_app in Hf; lia|].
    { rewrite locs_node_plug. eapply nodup_perm; [|exact Hn']. unfold clocs; simpl. solve_Permutation. }
    rewrite root_plug, croot_cons in E. exists h', c'. split; [exact E | by eapply sunk_right].
  - destruct a, b; simpl in Ech; simplify_eq. exists h, c. split; [done|]. split; [done..| | |done]; by rewrite ?app_nil_r.
Qed.

(** * Copies *)

(** Nothing that was allocated changes. *)
Lemma subseteq_off ps (h0 h h' : heap) : h0 ⊆ h -> agree_off ps h h' -> (forall q, q ∈ ps -> q ∉ dom h0) -> h0 ⊆ h'.
Proof.
  intros S A D. apply map_subseteq_spec. intros q x Hq. rewrite A; [by eapply lookup_weaken|].
  intros Hin. apply (D q Hin), elem_of_dom. by exists x.
Qed.

Lemma rep_weaken (h h' : heap) t : h ⊆ h' -> rep h t -> rep h' t.
Proof.
  intros S. induction t as [|p l IHl k v prio r IHr]; simpl; [done|].
  intros (Hp & Hl & Hr). split_and!; eauto using lookup_weaken.
Qed.

Lemma fresh_off (h0 h : heap) : h0 ⊆ h -> fresh (dom h) ∉ dom h0.
Proof. intros S%subseteq_dom. pose proof (is_fresh (dom h)). set_solver. Qed.

Lemma clone_spec h c n a k v prio b q child :
  let t := plug c (Node n a k v prio b) in let m := fresh (dom h) in
  rep h t -> h !! q = Some child ->
  exists h', cloneTreapNode h q = Ok (m, h') /\ h' !! m = Some child /\
    h' !! n = h !! n /\ rep h' a /\ rep h' b /\ crep h' c (Some n) /\ h ⊆ h' /\ m ∉ n :: locs a ++ locs b ++ clocs c.
Proof.
  intros t m Hr Hq. unfold t in Hr. pose proof (is_fresh (dom h)) as Hm. fold m in Hm.
  assert (m ∉ n :: locs a ++ locs b ++ clocs c) as Hin.
  { intros Hp. apply Hm. eapply rep_dom; [exact Hr|]. by rewrite locs_node_plug. }
  apply rep_plug in Hr as ((Hx & Ha & Hb) & Hc). simpl in Hc.
  assert (h ⊆ <[m := child]> h) as Hs by by apply insert_subseteq, not_elem_of_dom.
  exists (<[m := child]> h). unfold cloneTreapNode. rewrite (deref_spec _ _ _ Hq), bind_ok.
  split_and!; [done | apply lookup_insert_eq | | by apply (rep_weaken h) .. | | done | done].
  - rewrite lookup_insert_ne; set_solver.
  - eapply crep_off; [apply agree_off_insert| |done]. set_solver.
Qed.

Lemma sink_copy_spec fuel : forall h0 h c n a k v prio b,
  let t := plug c (Node n a k v prio b) in
  rep h t -> NoDup (locs t) -> (length (locs a) + length (locs b) < fuel)%nat ->
  h0 ⊆ h -> (forall q, q ∈ n :: spine c -> q ∉ dom h0) ->
  exists h' c', sink_copy fuel h (root_of t) n (head (spine c)) =
      Ok (h', root_of (plug c' (Node n Leaf k v prio Leaf)), head (spine c')) /\ sunk c n a b k v prio h' c' /\
      h0 ⊆ h' /\ (forall q, q ∈ n :: spine c' -> q ∉ dom h0).
Proof.
  induction fuel as [|fuel IH]; intros h0 h c n a k v prio b t Hr Hn Hf Hs Hd; [lia|].
  unfold t in *. pose proof Hr as ((Hx & Ha & Hb) & Hc)%rep_plug. simpl in Hc.
  cbn [sink_copy]. rewrite (deref_spec _ _ _ Hx), bind_ok, choose_child_spec, bind_ok by done.
  pose proof Hn as Hn'. rewrite locs_node_plug in Hn'.
  pose proof (fresh_off h0 h Hs) as Hm0.
  destruct (chosen a b) as [[|]|] eqn:Ech; simpl.
  - destruct a as [|q al ka va pa ar]; [by destruct b|]. destruct Ha as (Hq & Hal & Har). simpl.
    destruct (clone_spec h c n _ k v prio b q _ Hr Hq) as (h1 & E1 & Hm & Hx1 & (_ & Hal1 & Har1) & Hb1 & Hc1 & Hs1 & Hfr).
    set (m := fresh (dom h)) in *. rewrite E1, bind_ok. rewrite Hx in Hx1.
    apply NoDup_cons in Hn' as [N1 N2]. simpl in N1, N2, Hfr. apply NoDup_cons in N2 as [N2 N3].
    destruct (sink_left_spec h1 c n k v prio b (Some q) m al ka va pa ar) as (h2 & h3 & E2 & E3 & R3 & A3); [done..| |].
    { rewrite !NoDup_cons, <- app_assoc in *. set_solver. }
    rewrite E2, bind_ok, root_plug. simpl. rewrite E3, bind_ok.
    destruct (IH h0 h3 (FR m al ka va pa :: c) n ar k v prio b) as (h' & c' & E & S & D); [done| |simpl in Hf; rewrite length_app in Hf; lia| | |].
    { rewrite locs_node_plug. eapply (nodup_perm (m :: n :: locs al ++ locs ar ++ locs b ++ clocs c)).
      - unfold clocs; simpl. solve_Permutation.
      - rewrite !NoDup_cons, <- app_assoc in *. set_solver. }
    { eapply subseteq_off; [|exact A3|]; [by etrans | set_solver]. }
    { set_solver. }
    rewrite root_plug, croot_cons in E. exists h', c'. split; [exact E|]. apply sunk_left with (q := q) in S. done.
  - destruct b as [|q bl kb vb pb br]; [by destruct a|]. destruct Hb as (Hq & Hbl & Hbr). simpl.
    destruct (clone_spec h c n a k v prio _ q _ Hr Hq) as (h1 & E1 & Hm & Hx1 & Ha1 & (_ & Hbl1 & Hbr1) & Hc1 & Hs1 & Hfr).
    set (m := fresh (dom h)) in *. rewrite E1, bind_ok. rewrite Hx in Hx1.
    apply NoDup_cons in Hn' as [N1 N2]. simpl in N1, N2, Hfr. rewrite <- Permutation_middle in N2. apply NoDup_cons in N2 as [N2 N3].
    destruct (sink_right_spec h1 c n k v prio a (Some q) m bl kb vb pb br) as (h2 & h3 & E2 & E3 & R3 & A3); [done..| |].
    { rewrite !NoDup_cons, <- app_assoc in *. set_solver. }
    rewrite E2, bind_ok, root_plug. simpl. rewrite E3, bind_ok.
    destruct (IH h0 h3 (FL m kb vb pb br :: c) n a k v prio bl) as (h' & c' & E & S & D); [done| |simpl in Hf; rewrite length_app in Hf; lia| | |].
    { rewrite locs_node_plug. eapply (nodup_perm (m :: n :: locs a ++ locs bl ++ locs br ++ clocs c)).
      - unfold clocs; simpl. solve_Permutation.
      - rewrite !NoDup_cons, <- app_assoc in *. set_solver. }
    { eapply subseteq_off; [|exact A3|]; [by etrans | set_solver]. }
    { set_solver. }
    rewrite root_plug, croot_cons in E. exists h', c'. split; [exact E|]. apply sunk_right with (q := q) in S. done.
  - destruct a, b; simpl in Ech; simplify_eq. exists h, c. split_and!; [done| |done..]. split; [done..| | |done]; by rewrite ?app_nil_r.
Qed.

End TreapSpec.
