(* ===== verification/TreapOps.v ===== *)
(** The operations of the mutable and the immutable treap on the map they hold. *)
From stdpp Require Import gmap sorting.
From S2P Require Import Prelude Treap TreapSpec.
#[local] Open Scope Z_scope.

Module TreapOps.
Import Treap TreapSpec.

(** * The stack of parents is a list *)
Definition content (s : parentStack) : list (option loc) := ps_items s ++ ps_overflow s.

Record stack_rep (s : parentStack) (l : list loc) : Prop := {
  sr_items : length (ps_items s) = 128%nat;
  sr_index : ps_index s = len l;
  sr_content : exists m, content s = (Some <$> reverse l) ++ replicate m None
}.

Lemma stack_new : stack_rep new_stack [].
Proof. split; [done..|]. by exists 128%nat. Qed.

Lemma stack_set s l i x : length (ps_items s) = 128%nat -> 0 <= i < len (content s) ->
  exists s', (if i <? staticDepth
    then (items ← set_idx (ps_items s) i x; Ok (mkParentStack l items (ps_overflow s)))
    else (overflow ← set_idx (ps_overflow s) (i - staticDepth) x; Ok (mkParentStack l (ps_items s) overflow))) = @Ok string _ s' /\
  ps_index s' = l /\ length (ps_items s') = 128%nat /\ content s' = <[Z.to_nat i := x]> (content s).
Proof.
  intros Hi Hr. unfold content in *. rewrite len_app in Hr. unfold staticDepth, len in *.
  destruct (Z.ltb_spec i 128).
  - rewrite set_idx_Ok, bind_ok by (unfold len; lia). eexists. split_and!; [done | done | simpl; by rewrite length_insert|].
    simpl. by rewrite insert_app_l by lia.
  - rewrite set_idx_Ok, bind_ok by (unfold len; lia). eexists. split_and!; [done..|].
    simpl. rewrite insert_app_r_alt by lia. do 2 f_equal. lia.
Qed.

Lemma stack_idx s i : length (ps_items s) = 128%nat -> 0 <= i ->
  (if i <? staticDepth then idx (ps_items s) i else idx (ps_overflow s) (i - staticDepth)) = @idx string _ (content s) i.
Proof.
  intros Hi Hr. unfold content, staticDepth, idx. destruct (Z.ltb_spec i 128).
  - by rewrite lookup_app_l by lia.
  - rewrite lookup_app_r by lia. rewrite (proj2 (Z.ltb_ge _ 0)), (proj2 (Z.ltb_ge _ 0)) by lia.
    by replace (Z.to_nat (i - 128)) with (Z.to_nat i - length (ps_items s))%nat by lia.
Qed.

Lemma stack_push s l x : stack_rep s l -> exists s', ps_Push s (Some x) = Ok s' /\ stack_rep s' (x :: l).
Proof.
  intros [Hi Hx [m Hc]]. unfold ps_Push.
  set (s1 := mkParentStack (ps_index s) (ps_items s) (ps_overflow s ++
    replicate (if ps_index s <? staticDepth then 0 else Z.to_nat (ps_index s - staticDepth + 1) - length (ps_overflow s)) None)).
  assert (length (content s) = length l + m)%nat as Hl.
  { rewrite Hc, length_app, length_fmap, length_reverse, length_replicate. lia. }
  assert (exists m1, content s1 = (Some <$> reverse l) ++ None :: replicate m1 None) as [m1 Hc1].
  { unfold content in *. simpl. rewrite app_assoc, Hc, <- app_assoc, <- replicate_add.
    rewrite length_app in Hl. unfold staticDepth, len in *. destruct (Z.ltb_spec (ps_index s) 128);
    match goal with |- exists m1, _ ++ replicate ?n _ = _ => exists (n - 1)%nat; destruct n eqn:En; [lia|] end;
    simpl; by rewrite Nat.sub_0_r. }
  destruct (stack_set s1 (ps_index s + 1) (ps_index s) (Some x)) as (s' & E & Ei & Hi' & Hc'); [done| |].
  { rewrite Hc1, Hx, len_app, len_cons. unfold len. rewrite length_fmap, length_reverse. lia. }
  exists s'. split.
  - rewrite <- E. simpl. destruct (Z.ltb_spec (ps_index s) staticDepth); [by rewrite app_nil_r|].
    rewrite Z.gtb_ltb. destruct (Z.ltb_spec (len (ps_overflow s)) (ps_index s - staticDepth + 1)) as [|Hle]; [done|].
    unfold len in Hle. replace (_ - length _)%nat with 0%nat by lia. simpl. by rewrite app_nil_r.
  - split; [done | rewrite Ei, Hx, len_cons; lia|]. exists m1. rewrite Hc', Hc1, Hx.
    replace (Z.to_nat (len l)) with (length (Some <$> reverse l) + 0)%nat by (unfold len; rewrite length_fmap, length_reverse; lia).
    rewrite insert_app_r. simpl. rewrite reverse_cons, fmap_app, <- app_assoc. done.
Qed.

Lemma stack_at s l n : stack_rep s l -> 0 <= n -> ps_At s n = Ok (l !! Z.to_nat n).
Proof.
  intros [Hi Hx [m Hc]] Hn. unfold ps_At. rewrite Hx. destruct (Z.ltb_spec (len l - n - 1) 0) as [Hlt|Hge].
  { f_equal. symmetry. apply lookup_ge_None. unfold len in Hlt. lia. }
  rewrite stack_idx by done. apply idx_Ok. split; [done|]. rewrite Hc. unfold len in *.
  rewrite lookup_app_l by (rewrite length_fmap, length_reverse; lia).
  rewrite list_lookup_fmap, reverse_lookup by lia.
  replace (length l - S (Z.to_nat (Z.of_nat (length l) - n - 1)))%nat with (Z.to_nat n) by lia.
  destruct (l !! Z.to_nat n) eqn:E; [done|]. apply lookup_ge_None in E. lia.
Qed.

Lemma stack_pop s l : stack_rep s l -> exists s', ps_Pop s = Ok (head l, s') /\ stack_rep s' (tail l).
Proof.
  intros H. pose proof H as [Hi Hx [m Hc]]. unfold ps_Pop. destruct l as [|x l]; [by exists s; rewrite Hx|].
  rewrite Hx, len_cons. pose proof (len_nonneg l) as Hl. rewrite (proj2 (Z.eqb_neq _ 0)) by lia.
  replace (1 + len l - 1) with (len l) by lia.
  rewrite reverse_cons, fmap_app, <- app_assoc in Hc. simpl in Hc.
  assert (length (Some <$> reverse l) = length l) as El by by rewrite length_fmap, length_reverse.
  destruct (stack_set s (len l) (len l) None) as (s' & E & Ei & Hi' & Hc'); [done| |].
  { rewrite Hc, len_app, len_cons. unfold len at 1 3. rewrite El. unfold len. lia. }
  assert (@idx string _ (content s) (len l) = Ok (Some x)) as Ex.
  { rewrite Hc. replace (len l) with (len (Some <$> reverse l)) by (unfold len; by rewrite El). apply idx_middle. }
  rewrite <- stack_idx in Ex by done. exists s'. split.
  - destruct (len l <? staticDepth); rewrite Ex, bind_ok.
    + destruct (set_idx _ _ _) eqn:Es; try done. rewrite bind_ok in *. by apply (inj Ok) in E as <-.
    + destruct (set_idx _ _ _) eqn:Es; try done. rewrite bind_ok in *. by apply (inj Ok) in E as <-.
  - split; [done..|]. exists (S m). rewrite Hc', Hc. simpl.
    replace (Z.to_nat (len l)) with (length (Some <$> reverse l) + 0)%nat by (rewrite El; unfold len; lia).
    by rewrite insert_app_r.
Qed.

(** * Copying the way to a place *)

(** The same parents at other addresses. *)
Definition move (n : loc) (f : frame) : frame :=
  match f with FL _ k v prio r => FL n k v prio r | FR _ l k v prio => FR n l k v prio end.

Definition like (f g : frame) : Prop := move (floc g) f = g.

Lemma before_like c d : Forall2 like c d -> before c = before d.
Proof. induction 1 as [|f g c d Hfg _ IH]; [done|]. destruct f; rewrite <- Hfg; simpl; by rewrite ?IH. Qed.

Lemma after_like c d : Forall2 like c d -> after c = after d.
Proof. induction 1 as [|f g c d Hfg _ IH]; [done|]. destruct f; rewrite <- Hfg; simpl; by rewrite ?IH. Qed.

(** Copying the node at a place and linking its parent to the copy. *)
Lemma copy_node_spec h c p l k v prio r :
  let n := fresh (dom h) in
  rep h (plug c (Node p l k v prio r)) -> NoDup (locs (plug c (Node p l k v prio r))) ->
  exists h1 h', cloneTreapNode h p = Ok (n, h1) /\
    (match spine c with [] => Ok h1 | oldParent :: _ => replace_child h1 oldParent p (Some n) end) = Ok h' /\
    rep h' (plug c (Node n l k v prio r)) /\ NoDup (locs (plug c (Node n l k v prio r))) /\
    h' !! p = Some (mkNode k v prio (root_of l) (root_of r)) /\ agree_off (n :: spine c) h h'.
Proof.
  intros n Hr Hn. pose proof Hr as ((Hp & Hl & Hr') & Hc)%rep_plug. rewrite locs_node_plug in Hn.
  apply NoDup_cons in Hn as [N1 N2].
  destruct (clone_spec h c p l k v prio r p _ Hr Hp) as (h1 & E1 & Hn1 & Hp1 & Hl1 & Hr1 & Hc1 & Hs1 & Hfr). fold n in E1, Hn1, Hfr.
  assert (NoDup (locs (plug c (Node n l k v prio r)))) as N3.
  { rewrite locs_node_plug. apply NoDup_cons. set_solver. }
  apply NoDup_app in N2 as (_ & N4 & N5). apply NoDup_app in N5 as (_ & N6 & N7).
  destruct (relink_spec h1 c p n Hc1 N7) as (h' & E2 & C2 & A2); [set_solver|].
  assert (forall q, q ∈ take 1 (spine c) -> q ∈ clocs c) as T.
  { intros q Hq. apply spine_clocs, (subseteq_take 1), Hq. }
  exists h1, h'. split_and!; [done| | |done| |].
  - destruct c as [|f c]; simpl in *; [by injection E2 as ->|]. destruct (replace_child _ _ _ _); simpl in E2; congruence.
  - apply rep_plug. split; [|done]. simpl. split_and!; [rewrite A2; [done|set_solver]| |].
    + eapply rep_off; [exact A2| |exact Hl1]. set_solver.
    + eapply rep_off; [exact A2| |exact Hr1]. set_solver.
  - rewrite A2; [by rewrite Hp1|set_solver].
  - intros q Hq. rewrite A2 by (pose proof (subseteq_take 1 (spine c)); set_solver).
    unfold cloneTreapNode in E1. rewrite (deref_spec _ _ _ Hp), bind_ok in E1.
    injection E1 as <-. apply lookup_insert_ne. set_solver.
Qed.

(** The versions before see no change: the copies are at new addresses. *)
Definition apart (h0 h : heap) (ps : list loc) : Prop := h0 ⊆ h /\ forall q, q ∈ ps -> q ∉ dom h0.

Lemma apart_step h0 h ps h' : apart h0 h ps -> agree_off (fresh (dom h) :: ps) h h' -> apart h0 h' (fresh (dom h) :: ps).
Proof.
  intros [Hs Hd] A. pose proof (fresh_off h0 h Hs).
  split; [eapply subseteq_off; [done | exact A |]|]; set_solver.
Qed.

Lemma copy_place_spec fuel h0 k t : forall h c d cr,
  Forall2 like c d -> rep h (plug d t) -> NoDup (locs (plug d t)) -> apart h0 h (spine d) ->
  (length (locs t) <= fuel)%nat -> side d cr ->
  exists h' d' cr', Forall2 like (search k c t).1 d' /\ side d' cr' /\ apart h0 h' (spine d') /\
    match (search k c t).2 with
    | Leaf => copy_place fuel h k (root_of t) (spine d) cr = Ok (h', inr (spine d', cr')) /\
        rep h' (plug d' Leaf) /\ NoDup (locs (plug d' Leaf))
    | Node p a k' v prio b => exists n,
        copy_place fuel h k (root_of t) (spine d) cr = Ok (h', inl (p, n, n :: spine d')) /\ n ∉ dom h0 /\
        h' !! p = Some (mkNode k' v prio (root_of a) (root_of b)) /\
        rep h' (plug d' (Node n a k' v prio b)) /\ NoDup (locs (plug d' (Node n a k' v prio b)))
    end.
Proof.
  revert fuel; induction t as [|p l IHl kp vp pp r IHr]; intros fuel h c d cr Hcd Hr Hn Ha Hf Hs.
  { exists h, d, cr. destruct fuel; done. }
  simpl in Hf. rewrite length_app in Hf. destruct fuel as [|fuel]; [lia|].
  destruct (copy_node_spec h d p l kp vp pp r Hr Hn) as (h1 & h2 & E1 & E2 & R2 & N2 & Hp2 & A2).
  apply (apart_step h0) in A2 as Ha2; [|done]. set (n := fresh (dom h)) in *.
  cbn [copy_place root_of search]. rewrite E1, bind_ok. destruct (match spine d with [] => _ | _ => _ end) as [h2'| | |]; simplify_eq.
  rewrite bind_ok, (deref_spec _ _ _ Hp2), bind_ok. simpl. case_if; [|case_if].
  - apply (IHl fuel h2 (FL p kp vp pp r :: c) (FL n kp vp pp r :: d)); [by constructor | done | done | done | lia | simpl; lia].
  - apply (IHr fuel h2 (FR p l kp vp pp :: c) (FR n l kp vp pp :: d)); [by constructor | done | done | done | lia | simpl; lia].
  - exists h2, d, cr. destruct Ha2 as [Ha2 Hd2]. split_and!; [done..| split; [done | set_solver] |].
    exists n. split_and!; [done | set_solver | done ..].
Qed.

Lemma copy_path_spec h0 p a k v prio b c2 : forall h c1 d1,
  let t := plug c2 (Node p a k v prio b) in
  Forall2 like c1 d1 -> rep h (plug d1 t) -> NoDup (locs (plug d1 t)) -> apart h0 h (spine d1) ->
  exists h' d' n, copy_path h (reverse (spine c2) ++ [p]) (spine d1) = Ok (h', n :: spine d') /\
    Forall2 like (c2 ++ c1) d' /\ apart h0 h' (n :: spine d') /\
    rep h' (plug d' (Node n a k v prio b)) /\ NoDup (locs (plug d' (Node n a k v prio b))).
Proof.
  induction c2 as [|f c2 IH] using rev_ind; intros h c1 d1 t Hcd Hr Hn Ha; unfold t in *.
  - destruct (copy_node_spec h d1 p a k v prio b Hr Hn) as (h1 & h2 & E1 & E2 & R2 & N2 & Hp2 & A2).
    apply (apart_step h0) in A2; [|done]. exists h2, d1, (fresh (dom h)).
    simpl. rewrite E1, bind_ok. rewrite E2. done.
  - assert (plug (c2 ++ [f]) (Node p a k v prio b) = fill f (plug c2 (Node p a k v prio b))) as Ep.
    { clear. generalize (Node p a k v prio b). induction c2; intros; simpl; auto. }
    rewrite Ep in *. set (t2 := plug c2 _) in *.
    replace (reverse (spine (c2 ++ [f])) ++ [p]) with (floc f :: reverse (spine c2) ++ [p])
      by (unfold spine; by rewrite fmap_app, reverse_app).
    rewrite <- app_assoc. simpl.
    set (n := fresh (dom h)).
    assert (exists h1 h2, cloneTreapNode h (floc f) = Ok (n, h1) /\
      (match spine d1 with [] => Ok h1 | oldParent :: _ => replace_child h1 oldParent (floc f) (Some n) end) = Ok h2 /\
      rep h2 (plug (move n f :: d1) t2) /\ NoDup (locs (plug (move n f :: d1) t2)) /\ agree_off (n :: spine d1) h h2)
      as (h1 & h2 & E1 & E2 & R2 & N2 & A2).
    { destruct f; destruct (copy_node_spec h d1 _ _ _ _ _ _ Hr Hn) as (h1 & h2 & ?); exists h1, h2; naive_solver. }
    rewrite E1, bind_ok, E2, bind_ok. apply (apart_step h0) in A2; [|done].
    assert (floc (move n f) = n) as Ef by by destruct f.
    destruct (IH h2 (f :: c1) (move n f :: d1)) as (h' & d' & m & E & L & A & R & N); [|done|done| |].
    { constructor; [unfold like; by rewrite Ef | done]. }
    { simpl. by rewrite Ef. }
    simpl in E. rewrite Ef in E. exists h', d', m. done.
Qed.

(** * The map of a treap *)
Abbreviation bmap := (gmap bytes bytes).

Definition entry_size (e : bytes * bytes) : Z := nodeFieldsSize + (len e.1 + len e.2).
Definition weight (l : list (bytes * bytes)) : Z := foldr (fun e n => entry_size e + n) 0 l.
Definition to_map (l : list (bytes * bytes)) : bmap := list_to_map l.

(** What every treap keeps: the heap holds a search tree, and the fields count it. *)
Record Holds (h : heap) (t : treap) (tr : tree) : Prop := {
  holds_root : root t = root_of tr;
  holds_rep : rep h tr;
  holds_nodup : NoDup (locs tr);
  holds_sorted : sorted (entries tr);
  holds_count : count t = i64 (len (entries tr));
  holds_size : totalSize t = u64 (weight (entries tr))
}.

Definition Represents (h : heap) (t : treap) (m : bmap) : Prop :=
  exists tr, Holds h t tr /\ m = to_map (entries tr).

(** A key on its place in a sorted list. *)
Definition placed (k : bytes) (l1 l2 : list (bytes * bytes)) : Prop :=
  (forall e, e ∈ l1 -> klt e.1 k) /\ (forall e, e ∈ l2 -> klt k e.1).

Lemma weight_app l1 l2 : weight (l1 ++ l2) = weight l1 + weight l2.
Proof. induction l1; simpl; lia. Qed.

Lemma sorted_insert l1 k v l2 : placed k l1 l2 -> sorted (l1 ++ l2) -> sorted (l1 ++ (k, v) :: l2).
Proof.
  intros [P1 P2] (S1 & S2 & S3)%sorted_app. apply sorted_app. split_and!; [done| |by apply sorted_cons].
  intros x y Hx [->|Hy]%elem_of_cons; [by apply P1 | by apply S2].
Qed.

Lemma sorted_remove l1 e l2 : sorted (l1 ++ e :: l2) -> sorted (l1 ++ l2).
Proof.
  intros (S1 & S2 & [S3 S4]%sorted_cons)%sorted_app. apply sorted_app. split_and!; [done| |done].
  intros x y Hx Hy. apply S2; [done|]. set_solver.
Qed.

Lemma klt_irrefl k : ~ klt k k.
Proof. apply StrictOrder_Irreflexive. Qed.

Lemma placed_notin k l1 l2 : placed k l1 l2 -> k ∉ l1.*1 ++ l2.*1.
Proof.
  intros [P1 P2] [Hk|Hk]%elem_of_app; apply list_elem_of_fmap in Hk as (e & -> & He).
  - by apply (klt_irrefl e.1), P1.
  - by apply (klt_irrefl e.1), P2.
Qed.

Lemma to_map_middle l1 k v l2 : placed k l1 l2 -> to_map (l1 ++ (k, v) :: l2) = <[k := v]> (to_map (l1 ++ l2)).
Proof.
  intros P%placed_notin. unfold to_map. rewrite !list_to_map_app. simpl.
  rewrite <- insert_union_r; [done|]. apply not_elem_of_list_to_map. set_solver.
Qed.

Lemma to_map_lookup_none k l1 l2 : placed k l1 l2 -> to_map (l1 ++ l2) !! k = None.
Proof. intros P%placed_notin. apply not_elem_of_list_to_map. by rewrite fmap_app. Qed.

Lemma sorted_nodup l : sorted l -> NoDup l.*1.
Proof.
  induction l as [|e l IH]; simpl; [constructor|]. intros [S1 S2]%sorted_cons. constructor; [|by apply IH].
  intros (e' & E & He)%list_elem_of_fmap. apply (klt_irrefl e.1). rewrite E at 2. by apply S1.
Qed.

Lemma size_to_map l : sorted l -> size (to_map l) = length l.
Proof.
  intros S. unfold to_map. induction l as [|e l IH]; [done|].
  pose proof (sorted_nodup _ S) as N. apply sorted_cons in S as [S1 S2]. destruct e as [k v]. simpl in *.
  apply NoDup_cons in N as [N _]. rewrite map_size_insert_None by by apply not_elem_of_list_to_map. by rewrite IH.
Qed.

(** The new node, with the size that the fields grow by. *)
Lemma holds_insert h tr tr' n s l1 k v l2 :
  entries tr = l1 ++ l2 -> placed k l1 l2 -> sorted (entries tr) ->
  rep h tr' -> NoDup (locs tr') -> entries tr' = l1 ++ (k, v) :: l2 ->
  n = i64 (len (entries tr)) -> s = u64 (weight (entries tr)) ->
  forall prio, Holds h (mkTreap (root_of tr') (i64 (n + 1)) (u64 (s + nodeSize (mkNode k v prio None None)))) tr' /\
    to_map (entries tr') = <[k := v]> (to_map (entries tr)).
Proof.
  intros E P S R N E' -> -> prio. rewrite E in *. split; [|by rewrite E', to_map_middle].
  split; simpl; [done..| | |]; rewrite E'; [by apply sorted_insert| |].
  - rewrite wraps_add_wraps, !len_app, len_cons. f_equal. lia.
  - unfold nodeSize. simpl. rewrite wrapu_wrapu_add_l, wrapu_wrapu_add_r, !weight_app. simpl. unfold entry_size. f_equal. simpl. lia.
Qed.

Lemma holds_update h tr tr' n s l1 k v0 v l2 :
  entries tr = l1 ++ (k, v0) :: l2 -> sorted (entries tr) ->
  rep h tr' -> NoDup (locs tr') -> entries tr' = l1 ++ (k, v) :: l2 ->
  n = i64 (len (entries tr)) -> s = u64 (weight (entries tr)) ->
  Holds h (mkTreap (root_of tr') n (u64 (u64 (s - len v0) + len v))) tr' /\
    to_map (entries tr') = <[k := v]> (to_map (entries tr)).
Proof.
  intros E S R N E' -> ->. rewrite E in *. pose proof (sorted_middle _ _ _ _ S) as P.
  assert (sorted (l1 ++ l2)) as S' by by eapply sorted_remove.
  split; [|by rewrite E', !to_map_middle, insert_insert_eq].
  split; simpl; [done..| | |]; rewrite E'; [by apply sorted_insert| |].
  - by rewrite !len_app, !len_cons.
  - rewrite wrapu_wrapu_sub_l, wrapu_wrapu_add_l, !weight_app. simpl. unfold entry_size. simpl. f_equal. lia.
Qed.

Lemma holds_delete h tr tr' n s l1 k v l2 prio lp rp :
  entries tr = l1 ++ (k, v) :: l2 -> sorted (entries tr) ->
  rep h tr' -> NoDup (locs tr') -> entries tr' = l1 ++ l2 ->
  n = i64 (len (entries tr)) -> s = u64 (weight (entries tr)) ->
  Holds h (mkTreap (root_of tr') (i64 (n - 1)) (u64 (s - nodeSize (mkNode k v prio lp rp)))) tr' /\
    to_map (entries tr') = delete k (to_map (entries tr)).
Proof.
  intros E S R N E' -> ->. rewrite E in *. pose proof (sorted_middle _ _ _ _ S) as P.
  split; [|rewrite E', to_map_middle, delete_insert_id; [done | by apply to_map_lookup_none | done]].
  split; simpl; [done..| | |]; rewrite E'; [by eapply sorted_remove| |].
  - unfold Z.sub. rewrite wraps_add_wraps, !len_app, len_cons. f_equal. lia.
  - unfold nodeSize. simpl. rewrite !weight_app. simpl. unfold entry_size, wrapu. simpl.
    rewrite Zminus_mod_idemp_l, Zminus_mod_idemp_r. f_equal. lia.
Qed.

(** * The operations *)

(** The place of a key in a treap. *)
Lemma holds_search h t tr k : Holds h t tr ->
  plug (search k [] tr).1 (search k [] tr).2 = tr /\ at_key k (search k [] tr).2 /\
  placed k (before (search k [] tr).1) (after (search k [] tr).1) /\ (length (locs tr) <= size h)%nat.
Proof.
  intros [_ R N S _ _]. split_and!; [apply search_plug | apply search_at | | by apply locs_fuel].
  apply search_around; [done|]. split; simpl; set_solver.
Qed.

Lemma holds_empty h : Holds h (mkTreap None 0 0) Leaf.
Proof. split; simpl; try done; constructor. Qed.

Lemma get_spec h t tr k : Holds h t tr ->
  get h t k = Ok (match search k [] tr with (_, Leaf) => (None, None) | (c', Node p _ _ _ _ _) => (Some p, head (spine c')) end).
Proof.
  intros H. destruct (holds_search h t tr k H) as (_ & _ & _ & Hf). destruct H as [Er R _ _ _ _].
  unfold get. rewrite Er. apply (get_loop_spec _ _ _ []); [done|]. unfold fuel_of. lia.
Qed.

Lemma entries_at k c p a v prio b :
  entries (plug c (Node p a k v prio b)) = (before c ++ entries a) ++ (k, v) :: (entries b ++ after c).
Proof. rewrite entries_plug. simpl. by rewrite <- !app_assoc. Qed.

Lemma Get_spec h t tr k : Holds h t tr -> Get h t k = Ok (to_map (entries tr) !! k).
Proof.
  intros H. unfold Get. rewrite (get_spec h t tr k H), bind_ok.
  destruct (holds_search h t tr k H) as (Ep & Ek & P & _).
  destruct H as [_ R _ S _ _].
  destruct (search k [] tr) as [c [|p a k' v prio b]]; simpl in *; subst tr.
  - rewrite entries_plug. simpl. by rewrite to_map_lookup_none.
  - subst k'. apply rep_plug in R as ((Hp & _) & _). rewrite (deref_spec _ _ _ Hp), bind_ok.
    rewrite entries_at in *. apply sorted_middle in S. by rewrite to_map_middle, lookup_insert_eq.
Qed.

Lemma Has_spec h t tr k : Holds h t tr -> Has h t k = Ok (bool_decide (is_Some (to_map (entries tr) !! k))).
Proof.
  intros H. pose proof (Get_spec h t tr k H) as G. unfold Get, Has in *. rewrite (get_spec h t tr k H), bind_ok in *.
  destruct (search k [] tr) as [c [|p a k' v prio b]]; simpl in *.
  - apply (inj Ok) in G as <-. done.
  - destruct (deref h p); try done. apply (inj Ok) in G as <-. done.
Qed.

(** Storing another value in a node. *)
Lemma set_value_spec h c p a k v0 v prio b :
  rep h (plug c (Node p a k v0 prio b)) -> NoDup (locs (plug c (Node p a k v0 prio b))) ->
  rep (<[p := mkNode k v prio (root_of a) (root_of b)]> h) (plug c (Node p a k v prio b)) /\
  NoDup (locs (plug c (Node p a k v prio b))).
Proof.
  intros ((_ & Ha & Hb) & Hc)%rep_plug Hn. rewrite !locs_node_plug in *. split; [|done].
  apply NoDup_cons in Hn as [Hn _]. apply rep_plug. simpl.
  split_and!; [apply lookup_insert_eq| | |];
    [eapply rep_off | eapply rep_off | eapply crep_off]; try apply agree_off_insert; done || set_solver.
Qed.

(** ** Put keeps the order of the priorities *)
Definition above (x : Z) (t : tree) : Prop := match t with Leaf => True | Node _ _ _ _ prio _ => x <= prio end.

Fixpoint min_heap (t : tree) : Prop :=
  match t with Leaf => True | Node _ l _ _ prio r => above prio l /\ above prio r /\ min_heap l /\ min_heap r end.

Definition above_head (c : list frame) (t : tree) : Prop := match c with [] => True | f :: _ => above (fprio f) t end.

Lemma above_trans x y t : x <= y -> above y t -> above x t.
Proof. destruct t; simpl; lia. Qed.

Lemma min_heap_plug c t : min_heap (plug c t) <-> min_heap t /\ above_head c t /\ min_heap (plug c Leaf).
Proof.
  revert t; induction c as [|f c IH]; intros t; simpl; [tauto|].
  rewrite (IH (fill f t)), (IH (fill f Leaf)). destruct f, c; simpl; tauto.
Qed.

Lemma min_heap_rise c : forall n a k v (prio : meta) b,
  min_heap a -> min_heap b -> above prio a -> above prio b -> above_head c a -> above_head c b ->
  min_heap (plug c Leaf) -> min_heap (rise c n a k v prio b).
Proof.
  induction c as [|f c IH]; intros n a k v prio b Ha Hb Pa Pb Ca Cb Hc; [done|]. cbn [rise].
  destruct (Z.leb_spec (fprio f) prio) as [Hle|Hgt]; [rewrite min_heap_plug; simpl; tauto|].
  simpl in Hc. rewrite min_heap_plug in Hc. destruct Hc as (Hf & Hhead & Hc).
  assert (forall t, above (fprio f) t -> above_head c t) as T.
  { intros t Ht. destruct c; [done|]. simpl in *. eapply above_trans; [|exact Ht]. by destruct f. }
  destruct f; simpl in *; apply IH; simpl; auto; tauto || lia.
Qed.

Lemma above_head_like c d t : Forall2 like c d -> above_head c t <-> above_head d t.
Proof. destruct 1 as [|f g c d Hfg _]; [done|]. rewrite <- Hfg. by destruct f. Qed.

Lemma min_heap_like c d : Forall2 like c d -> forall t, min_heap (plug c t) <-> min_heap (plug d t).
Proof.
  induction 1 as [|f g c d Hfg Hcd IH]; intros t; [done|]. simpl.
  rewrite (min_heap_plug c), (min_heap_plug d), IH, (above_head_like c d) by done. rewrite <- Hfg.
  destruct f, d; simpl; tauto.
Qed.

(** ** Put and Delete *)

Lemma put_first h t k v prio : let '(p, h') := newTreapNode h k v prio in
  root t = None -> Holds h t Leaf ->
  Holds h' (mkTreap (Some p) 1 (nodeSize (mkNode k v prio None None))) (Node p Leaf k v prio Leaf) /\ h ⊆ h'.
Proof.
  unfold newTreapNode, alloc. intros _ _. split.
  - split; simpl; try done; [split_and!; try done; apply lookup_insert_eq | apply NoDup_singleton | | ].
    + apply sorted_cons. split; [set_solver | constructor].
    + unfold nodeSize, entry_size. simpl. f_equal. lia.
  - apply insert_subseteq, not_elem_of_dom, is_fresh.
Qed.

Lemma Mutable_Put_spec h t tr k v prio : Holds h t tr ->
  exists h' t' tr', Mutable_Put h t k v prio = Ok (h', t') /\ Holds h' t' tr' /\
    to_map (entries tr') = <[k := default [] v]> (to_map (entries tr)) /\ (min_heap tr -> min_heap tr').
Proof.
  intros H. unfold Mutable_Put. set (w := default [] v).
  destruct (holds_search h t tr k H) as (Ep & Ek & P & Hf). destruct H as [Er R N S Ec Es].
  rewrite Er. destruct (root_of tr) as [p0|] eqn:E0.
  2:{ destruct tr; [|done]. destruct (put_first h t k w prio Er) as [Hh _]; [by split|].
      eexists _, _, _. split_and!; [done | exact Hh | done | done]. }
  rewrite <- E0. destruct (find_place_spec (fuel_of h) h k [] tr 0 R) as (cr & Hs & E); [unfold fuel_of; lia | done|].
  change (spine []) with (@nil loc) in E. rewrite E, bind_ok.
  destruct (search k [] tr) as [c [|p a k' v0 pr b]]; simpl in *; subst tr.
  - assert (c <> []) as Hc by by intros ->.
    destruct (link_new_spec h c k w prio cr R N Hc Hs) as (h' & E' & R' & A'). rewrite E', bind_ok.
    set (tr' := rise c _ Leaf k w prio Leaf) in *.
    assert (entries tr' = before c ++ (k, w) :: after c) as Ee by by apply entries_rise.
    destruct (holds_insert h' (plug c Leaf) tr' (count t) (totalSize t) (before c) k w (after c)) with (prio := prio) as [Hh Hm];
      [by rewrite entries_plug | done | done | done | | done | done | done |].
    { unfold tr'. rewrite locs_rise, locs_plug in *. simpl in *. apply NoDup_cons. split; [|done].
      intros Hin. apply (is_fresh (dom h)). eapply rep_dom; [exact R|]. by rewrite locs_plug. }
    eexists _, _, _. split_and!; [done | exact Hh | exact Hm|]. intros Hh'. by apply min_heap_rise; try done; destruct c.
  - subst k'. pose proof R as ((Hp & _) & _)%rep_plug. rewrite (deref_spec _ _ _ Hp), bind_ok. simpl.
    destruct (set_value_spec h c p a k v0 w pr b R N) as [R' N'].
    destruct (holds_update _ _ _ (count t) (totalSize t) _ k v0 w _ (entries_at k c p a v0 pr b) S R' N' (entries_at k c p a w pr b) Ec Es) as [Hh Hm].
    rewrite root_plug in *. eexists _, _, (plug c (Node p a k w pr b)). split; [reflexivity|]. split; [exact Hh|].
    split; [exact Hm|]. rewrite !(min_heap_plug c (Node _ _ _ _ _ _)). by destruct c.
Qed.

Lemma delete_none h t tr k : Holds h t tr -> (search k [] tr).2 = Leaf -> to_map (entries tr) = delete k (to_map (entries tr)).
Proof.
  intros H Es. destruct (holds_search h t tr k H) as (Ep & _ & P & _). rewrite Es in Ep. rewrite delete_id; [done|].
  rewrite <- Ep, entries_plug. by apply to_map_lookup_none.
Qed.

(** A node that went down was not alone. *)
Lemma unsunk c a b f c' : before (f :: c') = before c ++ entries a -> after (f :: c') = entries b ++ after c ->
  (spine c = [] -> root_of a = None -> root_of b = None -> False) /\
  (c = [] -> exists i x, chosen a b = Some i /\ root_of (if i : bool then a else b) = Some x).
Proof.
  intros B A. assert (c = [] -> a = Leaf -> b = Leaf -> False) as Hne.
  { intros -> -> ->. destruct f; simpl in *; [done|]. by destruct (before c'), (entries l). }
  split.
  - intros H1 H2 H3. apply Hne; [by destruct c | by destruct a | by destruct b].
  - intros ->. destruct a as [|? ? ? ? pa ?], b as [|? ? ? ? pb ?]; simpl; [by destruct Hne | by eauto ..|].
    destruct (pb <=? pa); eauto.
Qed.

Lemma Mutable_Delete_spec h t tr k : Holds h t tr ->
  exists h' t' tr', Mutable_Delete h t k = Ok (h', t') /\ Holds h' t' tr' /\
    to_map (entries tr') = delete k (to_map (entries tr)) /\
    (forall p parent, get h t k = Ok (Some p, parent) -> exists n, h' !! p = Some n /\ key n = k).
Proof.
  intros H. unfold Mutable_Delete. rewrite (get_spec h t tr k H), bind_ok.
  pose proof (delete_none h t tr k H) as Hdel.
  destruct (holds_search h t tr k H) as (Ep & Ek & P & Hf). pose proof H as [Er R N S Ec Es].
  destruct (search k [] tr) as [c [|p a k' v0 pr b]]; cbn [fst snd at_key] in *; [exists h, t, tr; split_and!; auto; congruence|]. subst tr k'.
  pose proof R as ((Hp & _) & _)%rep_plug. rewrite (deref_spec _ _ _ Hp), bind_ok. cbn [Treap.left Treap.right].
  assert (Hsz : (length (locs a) + length (locs b) < fuel_of h)%nat).
  { rewrite locs_node_plug in Hf. simpl in Hf. rewrite !length_app in Hf. unfold fuel_of. lia. }
  destruct (sink_spec (fuel_of h) h c p a k v0 pr b R N Hsz) as (h1 & c' & E1 & [R1 N1 B1 A1 L1]).
  destruct c' as [|f c'].
  - destruct L1 as (-> & -> & ->); [done|]. simpl. exists h, (mkTreap None 0 0), Leaf.
    split_and!; [done | apply holds_empty | unfold to_map; simpl; by rewrite delete_insert_eq|].
    intros q parent [= <- _]. by eexists.
  - destruct (unlink_spec h1 f c' p k v0 pr R1 N1) as (h2 & E2 & R2 & Hp2 & A2).
    assert (NoDup (locs (plug (f :: c') Leaf))) as N2.
    { rewrite locs_plug in *. by apply NoDup_cons in N1 as [_ N1]. }
    destruct (holds_delete h2 _ _ (count t) (totalSize t) _ k v0 _ pr None None (entries_at k c p a v0 pr b) S R2 N2) as [Hh Hm]; [|done|done|].
    { rewrite entries_plug, B1, A1. simpl. by rewrite <- app_assoc. }
    exists h2; eexists _, _. split_and!; [|exact Hh|exact Hm|intros q parent [= <- _]; by eexists].
    destruct (unsunk c a b f c' B1 A1) as [Hne _].
    rewrite Er. destruct (spine c) eqn:Eh, (root_of a) eqn:Ea, (root_of b) eqn:Eb; try by destruct Hne.
    all: rewrite E1, bind_ok; cbn [head spine fmap list_fmap]; rewrite E2, bind_ok, (deref_spec _ _ _ Hp2), bind_ok; by rewrite !root_plug, !croot_cons.
Qed.

Lemma holds_weaken (h h' : heap) t tr : h ⊆ h' -> Holds h t tr -> Holds h' t tr.
Proof. intros Hs [Er R N S Ec Es]. split; try done. by eapply rep_weaken. Qed.

Lemma last_croot n d : last (n :: spine d) = croot d (Some n).
Proof. unfold croot. rewrite last_cons. by destruct (last (spine d)). Qed.

Lemma Immutable_Put_spec h t tr k v prio : Holds h t tr ->
  exists h' t' tr', Immutable_Put h t k v prio = Ok (h', t') /\ Holds h' t' tr' /\
    to_map (entries tr') = <[k := default [] v]> (to_map (entries tr)) /\ h ⊆ h' /\ (min_heap tr -> min_heap tr').
Proof.
  intros H. unfold Immutable_Put. set (w := default [] v).
  destruct (holds_search h t tr k H) as (Ep & Ek & P & Hf). destruct H as [Er R N S Ec Es].
  rewrite Er. destruct (root_of tr) as [p0|] eqn:E0.
  2:{ destruct tr; [|done]. destruct (put_first h t k w prio Er) as [Hh Hs]; [by split|].
      eexists _, _, _. split_and!; [done | exact Hh | done | done | done]. }
  rewrite <- E0.
  destruct (copy_place_spec (fuel_of h) h k tr h [] [] 0) as (h1 & d & cr & Hl & Hs & [Ha Hd] & Hcp);
    [done | done | done | split; [done | set_solver] | unfold fuel_of; lia | done|].
  change (spine []) with (@nil loc) in Hcp.
  destruct (search k [] tr) as [c [|p a k' v0 pr b]]; cbn [fst snd at_key] in *; subst tr.
  - destruct Hcp as (E & R1 & N1). rewrite E, bind_ok.
    assert (d <> []) as Hc by (intros ->; apply Forall2_nil_inv_r in Hl; by subst).
    assert (last (spine d) = root_of (plug d Leaf)) as ->.
    { rewrite root_plug. destruct d as [|f d]; [done|]. rewrite croot_cons. apply last_croot. }
    destruct (link_new_spec h1 d k w prio cr R1 N1 Hc Hs) as (h' & E' & R' & A'). rewrite E', bind_ok.
    set (tr' := rise d _ Leaf k w prio Leaf) in *.
    assert (entries tr' = before c ++ (k, w) :: after c) as Ee.
    { unfold tr'. rewrite entries_rise. by rewrite (before_like c d), (after_like c d). }
    destruct (holds_insert h' (plug c Leaf) tr' (count t) (totalSize t) (before c) k w (after c)) with (prio := prio) as [Hh Hm];
      [by rewrite entries_plug | done | done | done | | done | done | done |].
    { unfold tr'. rewrite locs_rise, locs_plug in *. simpl in *. apply NoDup_cons. split; [|done].
      intros Hin. apply (is_fresh (dom h1)). eapply rep_dom; [exact R1|]. by rewrite locs_plug. }
    eexists _, _, tr'. split_and!; [reflexivity | exact Hh | exact Hm | |].
    + eapply subseteq_off; [exact Ha | exact A' |]. pose proof (fresh_off h h1 Ha). set_solver.
    + rewrite (min_heap_like c d Hl). intros Hh'. by apply min_heap_rise; try done; destruct d.
  - subst k'. destruct Hcp as (n & E & Hn & Hp & R1 & N1). rewrite E, bind_ok, (deref_spec _ _ _ Hp), bind_ok.
    pose proof R1 as ((Hn1 & _) & _)%rep_plug. rewrite (assign_spec _ _ _ _ Hn1), bind_ok. cbn [set_value key value node_meta priority Treap.left Treap.right].
    destruct (set_value_spec h1 d n a k v0 w pr b R1 N1) as [R' N'].
    assert (entries (plug d (Node n a k w pr b)) = (before c ++ entries a) ++ (k, w) :: (entries b ++ after c)) as Ee.
    { rewrite entries_at. by rewrite (before_like c d), (after_like c d). }
    destruct (holds_update _ _ _ (count t) (totalSize t) _ k v0 w _ (entries_at k c p a v0 pr b) S R' N' Ee Ec Es) as [Hh Hm].
    rewrite last_croot. rewrite root_plug in Hh.
    eexists _, _, (plug d (Node n a k w pr b)). split; [reflexivity|]. split; [exact Hh|]. split; [exact Hm|]. split.
    + eapply subseteq_off; [exact Ha | apply agree_off_insert |]. set_solver.
    + rewrite (min_heap_like c d Hl), !(min_heap_plug d (Node _ _ _ _ _ _)). by destruct d.
Qed.

(** The root that is given does not matter when the node is the root and goes down. *)
Lemma sink_copy_root fuel h r r' n nd : h !! n = Some nd -> choose_child h nd <> Ok None ->
  sink_copy fuel h r n None = sink_copy fuel h r' n None.
Proof.
  intros Hn Hc. destruct fuel as [|fuel]; [done|]. cbn [sink_copy]. rewrite (deref_spec _ _ _ Hn), !bind_ok.
  destruct (choose_child h nd) as [[[child isLeft]|]| | |]; done.
Qed.

Lemma Immutable_Delete_spec h t tr k : Holds h t tr ->
  exists h' t' tr', Immutable_Delete h t k = Ok (h', t') /\ Holds h' t' tr' /\
    to_map (entries tr') = delete k (to_map (entries tr)) /\ h ⊆ h'.
Proof.
  intros H. unfold Immutable_Delete.
  pose proof (delete_none h t tr k H) as Hdel.
  destruct (holds_search h t tr k H) as (Ep & Ek & P & Hf). pose proof H as [Er R N S Ec Es].
  pose proof (find_node_spec (fuel_of h) h k [] tr R) as Efn. change (spine []) with (@nil loc) in Efn.
  rewrite Er, Efn by (unfold fuel_of; lia). rewrite bind_ok. clear Efn.
  destruct (search k [] tr) as [c [|p a k' v0 pr b]]; cbn [fst snd at_key] in *; [by exists h, t, tr; auto|]. subst tr k'.
  pose proof R as ((Hp & _) & _)%rep_plug. rewrite (deref_spec _ _ _ Hp), bind_ok. cbn [Treap.left Treap.right].
  destruct (copy_path_spec h p a k v0 pr b c h [] []) as (h1 & d & n & E1 & Hl & [Ha Hd] & R1 & N1);
    [done | done | done | split; [done | set_solver]|]. rewrite app_nil_r in Hl. change (spine []) with (@nil loc) in E1.
  assert (Hsz : (length (locs a) + length (locs b) < fuel_of h1)%nat).
  { pose proof (locs_fuel _ _ R1 N1) as Hf1. rewrite locs_node_plug in Hf1. simpl in Hf1. rewrite !length_app in Hf1. unfold fuel_of. lia. }
  destruct (sink_copy_spec (fuel_of h1) h h1 d n a k v0 pr b R1 N1 Hsz Ha Hd) as (h2 & c' & E2 & [R2 N2 B2 A2 L2] & Ha2 & Hd2).
  destruct c' as [|f c'].
  - destruct L2 as (-> & -> & ->); [done|]. apply Forall2_nil_inv_r in Hl as ->. simpl. exists h, (mkTreap None 0 0), Leaf.
    split_and!; [done | apply holds_empty | | done]. unfold to_map. simpl. by rewrite delete_insert_eq.
  - destruct (unlink_spec h2 f c' n k v0 pr R2 N2) as (h3 & E3 & R3 & Hn3 & A3).
    assert (NoDup (locs (plug (f :: c') Leaf))) as N3.
    { rewrite locs_plug in *. by apply NoDup_cons in N2 as [_ N2]. }
    destruct (holds_delete h3 _ _ (count t) (totalSize t) _ k v0 _ pr None None (entries_at k c p a v0 pr b) S R3 N3) as [Hh Hm]; [|done|done|].
    { rewrite entries_plug, B2, A2, (before_like c d), (after_like c d) by done. simpl. by rewrite <- app_assoc. }
    exists h3; eexists _, _. split_and!; [|exact Hh|exact Hm|eapply subseteq_off; [exact Ha2 | exact A3|set_solver]].
    destruct (unsunk c a b f c') as [Hne Hch]; [by rewrite B2, (before_like c d) | by rewrite A2, (after_like c d)|].
    assert (sink_copy (fuel_of h1) h1 (last (spine d)) n (head (spine d)) = Ok (h2, croot c' (Some (floc f)), Some (floc f))) as E2'.
    { rewrite (root_plug (f :: c')), croot_cons in E2. change (Some (floc f)) with (head (spine (f :: c'))) at 2. rewrite <- E2. destruct d as [|g d].
      - apply Forall2_nil_inv_r in Hl as ->. pose proof R1 as (Hn1 & Ha1 & Hb1). simpl in Hn1.
        apply (sink_copy_root _ _ _ _ _ _ Hn1). rewrite choose_child_spec by done. destruct Hch as (i & x & -> & E); [done|]. simpl. by rewrite E.
      - rewrite root_plug, croot_cons. cbn [spine fmap list_fmap]. by rewrite last_croot. }
    replace (reverse (p :: spine c)) with (reverse (spine c) ++ [p]) by by rewrite reverse_cons.
    rewrite (root_plug (f :: c')), croot_cons. destruct (spine c) eqn:Esp, (root_of a) eqn:Ea, (root_of b) eqn:Eb; try by destruct Hne.
    all: rewrite E1, bind_ok; cbv beta iota; rewrite E2', bind_ok, E3, bind_ok, (deref_spec _ _ _ Hn3), bind_ok; reflexivity.
Qed.

(** ** Visiting the entries *)

(** Calling a function on the entries until it says to stop. *)
Fixpoint fold_while {St} (fn : St -> bytes -> bytes -> St * bool) (st : St) (l : list (bytes * bytes)) : St :=
  match l with
  | [] => st
  | (k, v) :: l => let '(st, continue) := fn st k v in if continue then fold_while fn st l else st
  end.

(** The nodes on the stack, each with the entries of its right subtree, in order. *)
Inductive pending (h : heap) : list loc -> list (bytes * bytes) -> Prop :=
| pending_nil : pending h [] []
| pending_cons p k v prio lp r ps l :
    h !! p = Some (mkNode k v prio lp (root_of r)) -> rep h r -> (length (locs r) <= size h)%nat -> pending h ps l ->
    pending h (p :: ps) ((k, v) :: entries r ++ l).

Lemma push_left_spec fuel h t ps l : rep h t -> (length (locs t) <= fuel)%nat -> (length (locs t) <= size h)%nat ->
  pending h ps l -> exists ps', push_left fuel h (root_of t) ps = Ok ps' /\ pending h ps' (entries t ++ l).
Proof.
  revert fuel ps l; induction t as [|p a IHa k v prio b IHb]; intros fuel ps l Hr Hf Hs Hp; [by exists ps; destruct fuel|].
  destruct Hr as (Hx & Ha & Hb). simpl in Hf, Hs. rewrite length_app in Hf, Hs. destruct fuel as [|fuel]; [lia|].
  simpl. rewrite (deref_spec _ _ _ Hx), bind_ok. simpl. rewrite <- app_assoc. simpl.
  apply IHa; [done | lia | lia |]. econstructor; done || lia.
Qed.

Lemma visit_spec {St} (fn : St -> bytes -> bytes -> St * bool) fuel h : forall ps l st,
  pending h ps l -> (length l <= fuel)%nat -> visit fn fuel h ps st = Ok (fold_while fn st l).
Proof.
  induction fuel as [|fuel IH]; intros ps l st Hp Hf; destruct Hp as [|p k v prio lp r ps l Hx Hr Hs Hp]; try done; simpl in Hf; [lia|].
  cbn [visit]. rewrite (deref_spec _ _ _ Hx), bind_ok. cbn [key value Treap.right fold_while]. destruct (fn st k v) as [st' [|]]; [|done].
  destruct (push_left_spec (fuel_of h) h r ps l) as (ps' & -> & Hp'); [done | unfold fuel_of; lia | done | done|].
  rewrite bind_ok. apply IH; [done | lia].
Qed.

Lemma length_entries t : length (entries t) = length (locs t).
Proof. induction t as [|p l IHl k v prio r IHr]; [done|]. simpl. rewrite !length_app. simpl. lia. Qed.

Lemma ForEach_spec {St} (fn : St -> bytes -> bytes -> St * bool) h t tr st :
  Holds h t tr -> ForEach fn h t st = Ok (fold_while fn st (entries tr)).
Proof.
  intros [Er R N _ _ _]. pose proof (locs_fuel _ _ R N) as Hf. unfold ForEach. rewrite Er.
  destruct (push_left_spec (fuel_of h) h tr [] []) as (ps & -> & Hp); [done | unfold fuel_of; lia | done | constructor |].
  rewrite bind_ok, app_nil_r in *. apply visit_spec; [done|]. rewrite length_entries. unfold fuel_of. lia.
Qed.

(** * Programs *)

(** Every way to use one mutable treap, with the priorities that are drawn and the
    keys that are nil. *)
Inductive call := CPut (k : bytes) (v : option bytes) (prio : meta) | CDelete (k : bytes) | CReset.

Definition exec (c : call) (h : heap) (t : treap) : res string (heap * treap) :=
  match c with
  | CPut k v prio => Mutable_Put h t k v prio
  | CDelete k => Mutable_Delete h t k
  | CReset => Ok (h, Reset t)
  end.

Fixpoint exec_all (cs : list call) (h : heap) (t : treap) : res string (heap * treap) :=
  match cs with [] => Ok (h, t) | c :: cs => '(h, t) ← exec c h t; exec_all cs h t end.

Definition apply_call (m : bmap) (c : call) : bmap :=
  match c with CPut k v _ => <[k := default [] v]> m | CDelete k => delete k m | CReset => ∅ end.

(** What a reader sees in a treap: a map, through every operation that reads. *)
Record Reads (h : heap) (t : treap) (m : bmap) : Prop := {
  reads_get : forall k, Get h t k = Ok (m !! k);
  reads_has : forall k, Has h t k = Ok (bool_decide (is_Some (m !! k)));
  reads_len : Len t = i64 (Z.of_nat (size m));
  reads_each : exists l, sorted l /\ to_map l = m /\ Size t = u64 (weight l) /\
    forall St (fn : St -> bytes -> bytes -> St * bool) st, ForEach fn h t st = Ok (fold_while fn st l)
}.

Lemma holds_reads h t tr : Holds h t tr -> Reads h t (to_map (entries tr)).
Proof.
  intros H. split.
  - intros k. by apply Get_spec.
  - intros k. by apply Has_spec.
  - destruct H as [_ _ _ S Ec _]. unfold Len. rewrite Ec. by rewrite size_to_map.
  - exists (entries tr). pose proof H as [_ _ _ S _ Es]. split_and!; [done..|]. intros. by apply ForEach_spec.
Qed.

Lemma exec_spec c h t tr : Holds h t tr ->
  exists h' t' tr', exec c h t = Ok (h', t') /\ Holds h' t' tr' /\ to_map (entries tr') = apply_call (to_map (entries tr)) c.
Proof.
  intros H. destruct c as [k v prio|k|]; simpl.
  - destruct (Mutable_Put_spec h t tr k v prio H) as (h' & t' & tr' & E & H' & M & _). by exists h', t', tr'.
  - destruct (Mutable_Delete_spec h t tr k H) as (h' & t' & tr' & E & H' & M & _). by exists h', t', tr'.
  - exists h, (mkTreap None 0 0), Leaf. split_and!; [done | apply holds_empty | done].
Qed.

Lemma exec_all_spec cs : forall h t tr, Holds h t tr ->
  exists h' t' tr', exec_all cs h t = Ok (h', t') /\ Holds h' t' tr' /\
    to_map (entries tr') = foldl apply_call (to_map (entries tr)) cs.
Proof.
  induction cs as [|c cs IH]; intros h t tr H; simpl; [by exists h, t, tr|].
  destruct (exec_spec c h t tr H) as (h1 & t1 & tr1 & E & H1 & M). rewrite E, bind_ok, <- M. by apply IH.
Qed.

(** C36: a mutable treap is the map of its calls: whatever is put, deleted and reset,
    with whatever priorities, no call fails, and reading gives the values put last, in
    the order of the keys, with their number and size. *)
Theorem mutable_treap_is_map (cs : list call) :
  exists h t, exec_all cs ∅ NewMutable = Ok (h, t) /\ Reads h t (foldl apply_call ∅ cs).
Proof.
  destruct (exec_all_spec cs ∅ NewMutable Leaf (holds_empty ∅)) as (h & t & tr & E & H & M).
  exists h, t. split; [done|]. change ∅ with (to_map (entries Leaf)) in |- *. rewrite <- M. by apply holds_reads.
Qed.

(** Every way to use immutable treaps: each step makes a new version from any of
    those before, which are listed with the last one first. *)
Inductive change := VPut (i : nat) (k : bytes) (v : option bytes) (prio : meta) | VDelete (i : nat) (k : bytes).

Definition version {A} (i : nat) (vs : list A) (d : A) : A := default d (vs !! i).

Definition derive (c : change) (h : heap) (vs : list treap) : res string (heap * treap) :=
  match c with
  | VPut i k v prio => Immutable_Put h (version i vs NewImmutable) k v prio
  | VDelete i k => Immutable_Delete h (version i vs NewImmutable) k
  end.

Fixpoint derive_all (cs : list change) (h : heap) (vs : list treap) : res string (heap * list treap) :=
  match cs with [] => Ok (h, vs) | c :: cs => '(h, t) ← derive c h vs; derive_all cs h (t :: vs) end.

Definition apply_change (ms : list bmap) (c : change) : list bmap :=
  match c with
  | VPut i k v _ => <[k := default [] v]> (version i ms ∅) :: ms
  | VDelete i k => delete k (version i ms ∅) :: ms
  end.

Lemma derive_spec c h vs ms : Forall2 (Represents h) vs ms ->
  exists h' t, derive c h vs = Ok (h', t) /\ Forall2 (Represents h') (t :: vs) (apply_change ms c).
Proof.
  intros Hv. assert (forall i, Represents h (version i vs NewImmutable) (version i ms ∅)) as Hi.
  { intros i. unfold version. destruct (vs !! i) eqn:E.
    - destruct (Forall2_lookup_l _ _ _ _ _ Hv E) as (m & -> & ?). done.
    - rewrite lookup_ge_None in E. rewrite (Forall2_length _ _ _ Hv) in E.
      rewrite (proj2 (lookup_ge_None ms i)) by done. exists Leaf. split; [apply holds_empty | done]. }
  assert (forall h' : heap, h ⊆ h' -> Forall2 (Represents h') vs ms) as Hw.
  { intros h' Hs. eapply Forall2_impl; [exact Hv|]. intros t m (tr & Ht & ->). exists tr. split; [by eapply holds_weaken | done]. }
  destruct c as [i k v prio|i k]; simpl; destruct (Hi i) as (tr & Ht & Em); rewrite Em.
  - destruct (Immutable_Put_spec h _ tr k v prio Ht) as (h' & t' & tr' & E & H' & M & Hs & _).
    exists h', t'. split; [done|]. constructor; [by exists tr' | by apply Hw].
  - destruct (Immutable_Delete_spec h _ tr k Ht) as (h' & t' & tr' & E & H' & M & Hs).
    exists h', t'. split; [done|]. constructor; [by exists tr' | by apply Hw].
Qed.

Lemma derive_all_spec cs : forall h vs ms, Forall2 (Represents h) vs ms ->
  exists h' vs', derive_all cs h vs = Ok (h', vs') /\ Forall2 (Represents h') vs' (foldl apply_change ms cs).
Proof.
  induction cs as [|c cs IH]; intros h vs ms Hv; simpl; [by exists h, vs|].
  destruct (derive_spec c h vs ms Hv) as (h1 & t & E & H1). rewrite E, bind_ok. by apply IH.
Qed.

(** C37: the versions of an immutable treap are snapshots: whatever versions are made
    from whatever earlier versions, no call fails, and every version, old or new, still
    reads as the map it was made as. *)
Theorem immutable_treap_snapshots (cs : list change) :
  exists h vs, derive_all cs ∅ [] = Ok (h, vs) /\ Forall2 (Reads h) vs (foldl apply_change [] cs).
Proof.
  destruct (derive_all_spec cs ∅ [] []) as (h & vs & E & H); [constructor|].
  exists h, vs. split; [done|]. eapply Forall2_impl; [exact H|]. intros t m (tr & Ht & ->). by apply holds_reads.
Qed.

(** ** The order of the priorities *)
Definition is_put (c : call) : bool := match c with CPut _ _ _ => true | _ => false end.

Lemma puts_min_heap cs : forall h t tr, Holds h t tr -> min_heap tr ->
  exists h' t' tr', exec_all (filter is_put cs) h t = Ok (h', t') /\ Holds h' t' tr' /\ min_heap tr'.
Proof.
  induction cs as [|c cs IH]; intros h t tr H Hm; [by exists h, t, tr|].
  rewrite filter_cons. destruct c as [k v prio|k|]; simpl; [|by eapply IH..].
  destruct (Mutable_Put_spec h t tr k v prio H) as (h1 & t1 & tr1 & E & H1 & _ & Hm1). rewrite E, bind_ok.
  apply (IH _ _ tr1); auto.
Qed.

(** A treap of three keys, and the one in the middle deleted. *)
Definition three : list call := [CPut [1] None (mkMeta 1 false); CPut [0] None (mkMeta 2 false); CPut [2] None (mkMeta 3 false); CDelete [1]].

(** C40: putting keeps the priorities in the order of a heap, the least at the root,
    whatever is put; deleting does not, since of two children the one with the greater
    priority takes the place of the node. *)
Theorem priorities_order :
  (forall cs, exists h t tr, exec_all (filter is_put cs) ∅ NewMutable = Ok (h, t) /\ Holds h t tr /\ min_heap tr) /\
  (exists h t p n q m, exec_all three ∅ NewMutable = Ok (h, t) /\ root t = Some p /\ h !! p = Some n /\
    left n = Some q /\ h !! q = Some m /\ priority m < priority n).
Proof.
  split; [intros cs; by apply (puts_min_heap cs ∅ NewMutable Leaf (holds_empty ∅))|].
  destruct (exec_all three ∅ NewMutable) as [[h t]| | |] eqn:E; vm_compute in E; try done.
  apply (inj Ok) in E. injection E as <- <-. eexists _, _, 3%positive, _, 2%positive, _. split_and!; vm_compute; reflexivity.
Qed.

End TreapOps.
