(* ===== verification/TreapIter.v ===== *)
(** The iterators of the treaps, [src/database/internal/treap/treapiter.go], and the
    order in which they go over the entries. *)
From stdpp Require Import gmap sorting.
From S2P Require Import Prelude Treap TreapSpec TreapOps.
#[local] Open Scope Z_scope.

Module TreapIter.
Import Treap TreapSpec TreapOps.

(** [it_mutable] is that of an iterator of a mutable treap, which the code keeps a
    pointer to. *)
Record Iterator := mkIterator {
  it_mutable : bool;
  it_root : option loc;
  it_node : option loc;
  it_parents : list loc;
  it_isNew : bool;
  it_seekKey : option bytes;
  it_startKey : option bytes;
  it_limitKey : option bytes
}.

Definition at_node (it : Iterator) (node : option loc) (parents : list loc) : Iterator :=
  mkIterator (it_mutable it) (it_root it) node parents (it_isNew it) (it_seekKey it) (it_startKey it) (it_limitKey it).
Definition not_new (it : Iterator) : Iterator :=
  mkIterator (it_mutable it) (it_root it) (it_node it) (it_parents it) false (it_seekKey it) (it_startKey it) (it_limitKey it).
Definition with_seekKey (it : Iterator) (k : option bytes) : Iterator :=
  mkIterator (it_mutable it) (it_root it) (it_node it) (it_parents it) (it_isNew it) k (it_startKey it) (it_limitKey it).
Definition with_root (it : Iterator) (r : option loc) : Iterator :=
  mkIterator (it_mutable it) r (it_node it) (it_parents it) (it_isNew it) (it_seekKey it) (it_startKey it) (it_limitKey it).

Definition Mutable_Iterator (t : treap) (startKey limitKey : option bytes) : Iterator :=
  mkIterator true (root t) None [] true None startKey limitKey.
Definition Immutable_Iterator (t : treap) (startKey limitKey : option bytes) : Iterator :=
  mkIterator false (root t) None [] true None startKey limitKey.

Definition limitIterator (h : heap) (it : Iterator) : res string (bool * Iterator) :=
  match it_node it with
  | None => Ok (false, it)
  | Some p =>
      n ← deref h p;
      if match it_startKey it with Some s => Compare (key n) s <? 0 | None => false end
      then Ok (false, at_node it None (it_parents it))
      else if match it_limitKey it with Some l => 0 <=? Compare (key n) l | None => false end
      then Ok (false, at_node it None (it_parents it))
      else Ok (true, it)
  end.

(** The walk of [seek]: the node that is selected and the depth it is at. *)
Fixpoint seek_loop (fuel : nat) (h : heap) (k : bytes) (exactMatch greater : bool)
    (node : option loc) (parents : list loc) (selected : option loc) (depth : nat) : res string (option loc * list loc) :=
  match node, fuel with
  | None, _ => Ok (selected, drop (length parents - depth) parents)
  | Some _, O => Hang
  | Some p, S fuel =>
      n ← deref h p;
      let compareResult := Compare k (key n) in
      if compareResult <? 0 then
        if greater then seek_loop fuel h k exactMatch greater (left n) (p :: parents) (Some p) (length parents)
        else seek_loop fuel h k exactMatch greater (left n) (p :: parents) selected depth
      else if 0 <? compareResult then
        if negb greater then seek_loop fuel h k exactMatch greater (right n) (p :: parents) (Some p) (length parents)
        else seek_loop fuel h k exactMatch greater (right n) (p :: parents) selected depth
      else if exactMatch then Ok (Some p, parents)
      else if greater then seek_loop fuel h k exactMatch greater (right n) (p :: parents) selected depth
      else seek_loop fuel h k exactMatch greater (left n) (p :: parents) selected depth
  end.

Definition seek (h : heap) (it : Iterator) (k : bytes) (exactMatch greater : bool) : res string (bool * Iterator) :=
  '(node, parents) ← seek_loop (fuel_of h) h k exactMatch greater (it_root it) [] None 0;
  limitIterator h (at_node it node parents).

Fixpoint leftmost (fuel : nat) (h : heap) (node : option loc) (parents : list loc) : res string (option loc * list loc) :=
  match node, fuel with
  | None, _ => Ok (None, parents)
  | Some _, O => Hang
  | Some p, S fuel =>
      n ← deref h p;
      match left n with None => Ok (Some p, parents) | Some _ => leftmost fuel h (left n) (p :: parents) end
  end.

Fixpoint rightmost (fuel : nat) (h : heap) (node : option loc) (parents : list loc) : res string (option loc * list loc) :=
  match node, fuel with
  | None, _ => Ok (None, parents)
  | Some _, O => Hang
  | Some p, S fuel =>
      n ← deref h p;
      match right n with None => Ok (Some p, parents) | Some _ => rightmost fuel h (right n) (p :: parents) end
  end.

(** An empty treap leaves the node as it is. *)
Definition First (h : heap) (it : Iterator) : res string (bool * Iterator) :=
  let it := not_new it in
  match it_startKey it with
  | Some s => seek h it s true true
  | None =>
      '(node, parents) ← leftmost (fuel_of h) h (it_root it) [];
      match node with
      | Some _ => Ok (true, at_node it node parents)
      | None => Ok (false, at_node it (it_node it) parents)
      end
  end.

Definition Last (h : heap) (it : Iterator) : res string (bool * Iterator) :=
  let it := not_new it in
  match it_limitKey it with
  | Some l => seek h it l false false
  | None =>
      '(node, parents) ← rightmost (fuel_of h) h (it_root it) [];
      match node with
      | Some _ => Ok (true, at_node it node parents)
      | None => Ok (false, at_node it (it_node it) parents)
      end
  end.

(** The parents while the node is their right child. *)
Fixpoint climb_right (h : heap) (node : loc) (parents : list loc) : res string (option loc * list loc) :=
  match parents with
  | [] => Ok (None, [])
  | parent :: parents =>
      p ← deref h parent;
      if bool_decide (right p = Some node) then climb_right h parent parents else Ok (Some parent, parents)
  end.

Fixpoint climb_left (h : heap) (node : loc) (parents : list loc) : res string (option loc * list loc) :=
  match parents with
  | [] => Ok (None, [])
  | parent :: parents =>
      p ← deref h parent;
      if bool_decide (left p = Some node) then climb_left h parent parents else Ok (Some parent, parents)
  end.

Definition Next (h : heap) (it : Iterator) : res string (bool * Iterator) :=
  if it_isNew it then First h it
  else match it_node it with
  | None => Ok (false, it)
  | Some p =>
      match it_seekKey it with
      | Some seekKey => seek h (with_seekKey it None) seekKey false true
      | None =>
          n ← deref h p;
          '(node, parents) ← (match right n with
            | None => climb_right h p (it_parents it)
            | Some _ => leftmost (fuel_of h) h (right n) (p :: it_parents it) end);
          limitIterator h (at_node it node parents)
      end
  end.

Definition Prev (h : heap) (it : Iterator) : res string (bool * Iterator) :=
  if it_isNew it then Last h it
  else match it_node it with
  | None => Ok (false, it)
  | Some p =>
      match it_seekKey it with
      | Some seekKey => seek h (with_seekKey it None) seekKey false false
      | None =>
          n ← deref h p;
          '(node, parents) ← (match left n with
            | None => climb_left h p (it_parents it)
            | Some _ => rightmost (fuel_of h) h (left n) (p :: it_parents it) end);
          limitIterator h (at_node it node parents)
      end
  end.

Definition Seek (h : heap) (it : Iterator) (k : bytes) : res string (bool * Iterator) :=
  seek h (not_new it) k true true.

Definition Key (h : heap) (it : Iterator) : res string (option bytes) :=
  match it_node it with None => Ok None | Some p => n ← deref h p; Ok (if nil_key n then None else Some (key n)) end.
Definition Value (h : heap) (it : Iterator) : res string (option bytes) :=
  match it_node it with None => Ok None | Some p => n ← deref h p; Ok (Some (value n)) end.
Definition Valid (it : Iterator) : bool := match it_node it with Some _ => true | None => false end.

(** The treap [t] is the one that a mutable iterator points to.  A nil key is the same
    as no key to seek. *)
Definition ForceReseek (h : heap) (t : treap) (it : Iterator) : res string Iterator :=
  if negb (it_mutable it) then Ok it
  else
    let it := with_root it (root t) in
    match it_node it with
    | None => Ok (with_seekKey it None)
    | Some p => n ← deref h p; Ok (with_seekKey it (if nil_key n then None else Some (key n)))
    end.

(** * Positions *)

(** The node with the entry [e], the entries before it and those after it. *)
Definition positioned (tr : tree) (node : option loc) (parents : list loc) (l1 : list (bytes * bytes)) (e : bytes * bytes) (l2 : list (bytes * bytes)) : Prop :=
  exists c p a prio b, node = Some p /\ parents = spine c /\ tr = plug c (Node p a e.1 e.2 prio b) /\
    l1 = before c ++ entries a /\ l2 = entries b ++ after c.

(** The first of the entries after a gap, or none. *)
Definition forward (tr : tree) (o : option loc * list loc) (l1 l2 : list (bytes * bytes)) : Prop :=
  match l2 with [] => o.1 = None | e :: l2 => positioned tr o.1 o.2 l1 e l2 end.

(** The last of the entries before a gap, or none. *)
Definition backward (tr : tree) (o : option loc * list loc) (l1 l2 : list (bytes * bytes)) : Prop :=
  (l1 = [] /\ o.1 = None) \/ exists l e, l1 = l ++ [e] /\ positioned tr o.1 o.2 l e l2.

Lemma leftmost_spec fuel h c t : rep h t -> t <> Leaf -> (length (locs t) <= fuel)%nat ->
  exists o, leftmost fuel h (root_of t) (spine c) = Ok o /\ forward (plug c t) o (before c) (entries t ++ after c).
Proof.
  revert fuel c; induction t as [|p l IHl k v prio r _]; intros fuel c Hr Hne Hf; [done|]. clear Hne.
  destruct Hr as (Hp & Hl & Hr). simpl in Hf. rewrite length_app in Hf. destruct fuel as [|fuel]; [lia|].
  cbn [leftmost root_of]. rewrite (deref_spec _ _ _ Hp), bind_ok. cbn [Treap.left].
  destruct l as [|q ll kl vl pl lr].
  - eexists. split; [done|]. simpl. exists c, p, Leaf, prio, r. simpl. by rewrite app_nil_r.
  - destruct (IHl fuel (FL p k v prio r :: c)) as (o & E & F); [done | done | lia|].
    exists o. split; [exact E|]. simpl in *. by rewrite <- !app_assoc in *.
Qed.

Lemma climb_right_spec h c : forall t p, rep h (plug c t) -> NoDup (locs (plug c t)) -> root_of t = Some p ->
  exists o, climb_right h p (spine c) = Ok o /\ forward (plug c t) o (before c ++ entries t) (after c).
Proof.
  induction c as [|f c IH]; intros t p Hr Hn Hp; simpl; [by eexists|].
  pose proof Hr as (_ & Hf & _)%rep_plug. rewrite (deref_spec _ _ _ Hf), bind_ok, Hp.
  destruct f as [q k v prio r|q l k v prio]; simpl.
  - rewrite bool_decide_false.
    + eexists. split; [done|]. simpl. exists c, q, t, prio, r. done.
    + rewrite locs_plug in Hn. unfold clocs in Hn; simpl in Hn. apply NoDup_app in Hn as (_ & Hn & _).
      destruct r; simpl in *; [done|]. intros [= ->]. destruct t; simplify_eq. apply (Hn p); set_solver.
  - rewrite bool_decide_true by done. destruct (IH (fill (FR q l k v prio) t) q) as (o & E & F); [done..|].
    exists o. split; [done|]. simpl in *. by rewrite <- !app_assoc in *.
Qed.

Lemma rightmost_spec fuel h c t : rep h t -> t <> Leaf -> (length (locs t) <= fuel)%nat ->
  exists o, rightmost fuel h (root_of t) (spine c) = Ok o /\ backward (plug c t) o (before c ++ entries t) (after c).
Proof.
  revert fuel c; induction t as [|p l _ k v prio r IHr]; intros fuel c Hr Hne Hf; [done|]. clear Hne.
  destruct Hr as (Hp & Hl & Hr). simpl in Hf. rewrite length_app in Hf. destruct fuel as [|fuel]; [lia|].
  cbn [rightmost root_of]. rewrite (deref_spec _ _ _ Hp), bind_ok. cbn [Treap.right].
  destruct r as [|q rl kr vr pr rr].
  - eexists. split; [done|]. right. exists (before c ++ entries l), (k, v). simpl. split; [by rewrite <- app_assoc|].
    by exists c, p, l, prio, Leaf.
  - destruct (IHr fuel (FR p l k v prio :: c)) as (o & E & F); [done | done | lia|].
    exists o. split; [exact E|]. simpl in *. by rewrite <- !app_assoc in *.
Qed.

Lemma climb_left_spec h c : forall t p, rep h (plug c t) -> NoDup (locs (plug c t)) -> root_of t = Some p ->
  exists o, climb_left h p (spine c) = Ok o /\ backward (plug c t) o (before c) (entries t ++ after c).
Proof.
  induction c as [|f c IH]; intros t p Hr Hn Hp; simpl; [eexists; split; [done | by left]|].
  pose proof Hr as (_ & Hf & _)%rep_plug. rewrite (deref_spec _ _ _ Hf), bind_ok, Hp.
  destruct f as [q k v prio r|q l k v prio]; simpl.
  - rewrite bool_decide_true by done. destruct (IH (fill (FL q k v prio r) t) q) as (o & E & F); [done..|].
    exists o. split; [done|]. simpl in *. by rewrite <- !app_assoc in *.
  - rewrite bool_decide_false.
    + eexists. split; [done|]. right. exists (before c ++ entries l), (k, v). rewrite <- app_assoc. split; [done|].
      simpl. by exists c, q, l, prio, t.
    + rewrite locs_plug in Hn. unfold clocs in Hn; simpl in Hn. apply NoDup_app in Hn as (_ & Hn & _).
      destruct l; simpl in *; [done|]. intros [= ->]. destruct t; simplify_eq. apply (Hn p); set_solver.
Qed.

(** * Seeking *)

(** The parent that was left last to the wanted side. *)
Fixpoint nearest (greater : bool) (c : list frame) : option (loc * list frame) :=
  match c with
  | [] => None
  | FL p _ _ _ _ :: c => if greater then Some (p, c) else nearest greater c
  | FR p _ _ _ _ :: c => if greater then nearest greater c else Some (p, c)
  end.

Definition selection (o : option (loc * list frame)) : option loc * list loc :=
  match o with Some (p, c) => (Some p, spine c) | None => (None, []) end.

Lemma nearest_forward c : forall t, forward (plug c t) (selection (nearest true c)) (before c ++ entries t) (after c).
Proof.
  induction c as [|[p k v prio r|p l k v prio] c IH]; intros t; simpl; [done| |].
  - by exists c, p, t, prio, r.
  - specialize (IH (Node p l k v prio t)). simpl in IH. by rewrite <- !app_assoc in *.
Qed.

Lemma nearest_backward c : forall t, backward (plug c t) (selection (nearest false c)) (before c) (entries t ++ after c).
Proof.
  induction c as [|[p k v prio r|p l k v prio] c IH]; intros t; simpl; [by left| |].
  - specialize (IH (Node p t k v prio r)). simpl in IH. by rewrite <- !app_assoc in *.
  - right. exists (before c ++ entries l), (k, v). rewrite <- app_assoc. split; [done|]. simpl. by exists c, p, l, prio, t.
Qed.

Lemma nearest_drop greater c p c1 : nearest greater c = Some (p, c1) -> drop (length (spine c) - length c1) (spine c) = spine c1.
Proof.
  intros E. assert (exists c2, c = c2 ++ c1) as [c2 ->].
  { induction c as [|[q ? ? ? ?|q ? ? ? ?] c IH]; simpl in E; [done|..]; destruct greater; simplify_eq;
      [by eexists [_] | destruct (IH E) as [c2 ->]; by eexists (_ :: c2) | destruct (IH E) as [c2 ->]; by eexists (_ :: c2) | by eexists [_]]. }
  unfold spine. rewrite fmap_app, length_app, !length_fmap. rewrite drop_app_length'; [done|]. rewrite length_fmap. lia.
Qed.

(** The walk goes to the right of the entries below the key, and of the key itself
    when the larger one is wanted. *)
Fixpoint walk (k : bytes) (exactMatch greater : bool) (c : list frame) (t : tree) : list frame * tree :=
  match t with
  | Leaf => (c, Leaf)
  | Node p l kp vp pp r =>
      if Compare k kp <? 0 then walk k exactMatch greater (FL p kp vp pp r :: c) l
      else if 0 <? Compare k kp then walk k exactMatch greater (FR p l kp vp pp :: c) r
      else if exactMatch then (c, t)
      else if greater then walk k exactMatch greater (FR p l kp vp pp :: c) r
      else walk k exactMatch greater (FL p kp vp pp r :: c) l
  end.

Definition depth_of (o : option (loc * list frame)) : nat := match o with Some (_, c) => length c | None => 0 end.

Lemma seek_loop_spec fuel h k ex gr : forall c t, rep h t -> (length (locs t) <= fuel)%nat ->
  seek_loop fuel h k ex gr (root_of t) (spine c) (fst <$> nearest gr c) (depth_of (nearest gr c)) =
    Ok (match walk k ex gr c t with (c', Leaf) => selection (nearest gr c') | (c', Node p _ _ _ _ _) => (Some p, spine c') end).
Proof.
  intros c t; revert fuel c; induction t as [|p l IHl kp vp pp r IHr]; intros fuel c Hr Hf.
  { assert (seek_loop fuel h k ex gr (root_of Leaf) (spine c) (fst <$> nearest gr c) (depth_of (nearest gr c)) =
      Ok (fst <$> nearest gr c, drop (length (spine c) - depth_of (nearest gr c)) (spine c))) as -> by by destruct fuel.
    simpl. f_equal. destruct (nearest gr c) as [[p c1]|] eqn:E; simpl.
    - by rewrite (nearest_drop _ _ _ _ E).
    - by rewrite Nat.sub_0_r, drop_all. }
  destruct Hr as (Hp & Hl & Hr). simpl in Hf. rewrite length_app in Hf. destruct fuel as [|fuel]; [lia|].
  cbn [seek_loop root_of walk]. rewrite (deref_spec _ _ _ Hp), bind_ok. cbn [key Treap.left Treap.right].
  pose proof (length_fmap floc c) as Hlen. change (floc <$> c) with (spine c) in Hlen. rewrite Hlen.
  specialize (IHl fuel (FL p kp vp pp r :: c) Hl ltac:(lia)). specialize (IHr fuel (FR p l kp vp pp :: c) Hr ltac:(lia)).
  simpl in IHl, IHr. case_if; [by destruct gr|]. case_if; [by destruct gr|]. destruct ex; [done|]. by destruct gr.
Qed.

(** The entries that an iterator which seeks a key leaves behind. *)
Definition passed (k : bytes) (inclusive : bool) (e : bytes * bytes) : Prop := klt e.1 k \/ (inclusive = true /\ e.1 = k).

Definition gap (k : bytes) (inclusive : bool) (l1 l2 : list (bytes * bytes)) : Prop :=
  (forall e, e ∈ l1 -> passed k inclusive e) /\ (forall e, e ∈ l2 -> ~ passed k inclusive e).

Lemma walk_plug k ex gr c t : plug (walk k ex gr c t).1 (walk k ex gr c t).2 = plug c t.
Proof.
  revert c; induction t as [|p l IHl kp vp pp r IHr]; intros c; simpl; [done|].
  repeat case_if; try done; try (by rewrite IHl); by rewrite IHr.
Qed.

Lemma klt_asym a b : klt a b -> ~ klt b a.
Proof. intros H1 H2. apply (klt_irrefl a). by transitivity b. Qed.

Lemma not_passed k i e : klt k e.1 -> ~ passed k i e.
Proof. intros H [H'|[_ E]]; [by eapply klt_asym | rewrite E in H; by apply klt_irrefl in H]. Qed.

Lemma walk_gap k ex gr c t : sorted (entries (plug c t)) -> gap k (xorb ex gr) (before c) (after c) ->
  match walk k ex gr c t with
  | (c', Leaf) => gap k (xorb ex gr) (before c') (after c')
  | (_, Node _ _ k' _ _ _) => k' = k /\ ex = true
  end.
Proof.
  revert c; induction t as [|p l IHl kp vp pp r IHr]; intros c Hs [Gb Ga]; simpl; [done|].
  pose proof Hs as Hs'. rewrite entries_at in Hs'. pose proof (sorted_middle _ _ _ _ Hs') as [S1 S2].
  assert ((forall e, e = (kp, vp) -> ~ passed k (xorb ex gr) e) -> (k = kp \/ klt k kp) ->
    gap k (xorb ex gr) (before c) ((kp, vp) :: entries r ++ after c)) as GL.
  { intros Hk Hle. split; [done|]. intros e [->|He]%elem_of_cons; [by apply Hk|]. apply not_passed.
    destruct Hle as [->|Hlt]; [by apply S2|]. transitivity kp; [done | by apply S2]. }
  assert (passed k (xorb ex gr) (kp, vp) -> (k = kp \/ klt kp k) ->
    gap k (xorb ex gr) (before c ++ entries l ++ [(kp, vp)]) (after c)) as GR.
  { intros Hk Hle. split; [|done]. rewrite app_assoc. intros e [He| ->%list_elem_of_singleton]%elem_of_app; [|done]. left.
    destruct Hle as [->|Hlt]; [by apply S1|]. transitivity kp; [by apply S1 | done]. }
  destruct (Z.ltb_spec (Compare k kp) 0) as [Hlt|Hge].
  { apply IHl; [done|]. apply GL; [|by right]. intros e ->. by apply not_passed. }
  destruct (Z.ltb_spec 0 (Compare k kp)) as [Hgt|Hle].
  { apply Compare_pos in Hgt. apply IHr; [done|]. apply GR; [by left | by right]. }
  assert (k = kp) as <- by (apply Compare_eq; lia).
  destruct ex; [done|]. destruct gr.
  - apply IHr; [done|]. apply GR; [by right | by left].
  - apply IHl; [done|]. apply GL; [|by left]. intros e -> [Hk|[Hk _]]; [by apply klt_irrefl in Hk | done].
Qed.

Definition reached (greater : bool) (tr : tree) (o : option loc * list loc) (l1 l2 : list (bytes * bytes)) : Prop :=
  if greater then forward tr o l1 l2 else backward tr o l1 l2.

(** Seeking finds the first entry that is not passed, or the last one that is. *)
Lemma seek_spec h t tr k ex gr : Holds h t tr ->
  exists o l1 l2, seek_loop (fuel_of h) h k ex gr (root t) [] None 0 = Ok o /\ entries tr = l1 ++ l2 /\
    gap k (xorb ex gr) l1 l2 /\ reached gr tr o l1 l2.
Proof.
  intros [Er R N S _ _]. pose proof (locs_fuel _ _ R N) as Hf. rewrite Er.
  pose proof (seek_loop_spec (fuel_of h) h k ex gr [] tr R ltac:(unfold fuel_of; lia)) as E.
  pose proof (walk_plug k ex gr [] tr) as Ep. pose proof (walk_gap k ex gr [] tr S) as G.
  change (spine []) with (@nil loc) in E. cbn [nearest fmap option_fmap option_map depth_of] in E. rewrite E.
  destruct (walk k ex gr [] tr) as [c [|p a k' v prio b]]; cbn [fst snd plug] in *; subst tr.
  - exists (selection (nearest gr c)), (before c), (after c). split_and!; [done | by rewrite entries_plug | apply G; split; set_solver |].
    unfold reached. destruct gr; [pose proof (nearest_forward c Leaf) as F | pose proof (nearest_backward c Leaf) as F]; [|done].
    simpl in F. by rewrite app_nil_r in F.
  - destruct G as [-> ->]; [split; set_solver|]. rewrite entries_at in S. apply sorted_middle in S as [S1 S2].
    destruct gr; simpl.
    + exists (Some p, spine c), (before c ++ entries a), ((k, v) :: entries b ++ after c).
      split_and!; [done | apply entries_at | split | by exists c, p, a, prio, b].
      * intros e He. left. by apply S1.
      * intros e [->|He]%elem_of_cons; [|by apply not_passed, S2]. intros [Hk|[Hk _]]; [by apply klt_irrefl in Hk | done].
    + exists (Some p, spine c), ((before c ++ entries a) ++ [(k, v)]), (entries b ++ after c).
      split_and!; [done | by rewrite entries_at, <- (app_assoc _ [(k, v)]) | split | right; eexists _, (k, v); split; [done | by exists c, p, a, prio, b]].
      * intros e [He| ->%list_elem_of_singleton]%elem_of_app; [left; by apply S1 | by right].
      * intros e He. by apply not_passed, S2.
Qed.

(** * Moving *)

(** The range of an iterator. *)
Definition in_range (it : Iterator) (k : bytes) : bool :=
  negb (match it_startKey it with Some s => Compare k s <? 0 | None => false end) &&
  negb (match it_limitKey it with Some l => 0 <=? Compare k l | None => false end).

(** An iterator of a tree, which has an entry. *)
Definition on (tr : tree) (it : Iterator) (l1 : list (bytes * bytes)) (e : bytes * bytes) (l2 : list (bytes * bytes)) : Prop :=
  it_root it = root_of tr /\ it_isNew it = false /\ positioned tr (it_node it) (it_parents it) l1 e l2.

(** Two iterators of the same treap and range. *)
Definition same_range (it it' : Iterator) : Prop :=
  it_mutable it' = it_mutable it /\ it_root it' = it_root it /\ it_startKey it' = it_startKey it /\ it_limitKey it' = it_limitKey it.

Lemma positioned_node h tr node parents l1 e l2 : rep h tr -> positioned tr node parents l1 e l2 ->
  exists p prio lp rp, node = Some p /\ h !! p = Some (mkNode e.1 e.2 prio lp rp).
Proof. intros R (c & p & a & prio & b & -> & _ & -> & _). apply rep_plug in R as ((Hp & _) & _). eauto 10. Qed.

(** A place in the order: the entry with those before and after it. *)
Abbreviation place := (option (list (bytes * bytes) * (bytes * bytes) * list (bytes * bytes))).

Definition stands (tr : tree) (o : option loc * list loc) (x : place) : Prop :=
  match x with None => o.1 = None | Some (l1, e, l2) => positioned tr o.1 o.2 l1 e l2 end.

Definition ahead (l1 l2 : list (bytes * bytes)) : place := match l2 with [] => None | e :: l2 => Some (l1, e, l2) end.
Definition behind (l1 l2 : list (bytes * bytes)) : place := match last l1 with None => None | Some e => Some (removelast l1, e, l2) end.

Lemma forward_stands tr o l1 l2 : forward tr o l1 l2 -> stands tr o (ahead l1 l2).
Proof. by destruct l2. Qed.

Lemma backward_stands tr o l1 l2 : backward tr o l1 l2 -> stands tr o (behind l1 l2).
Proof. intros [[-> E]|(l & e & -> & P)]; [done|]. unfold behind. by rewrite last_snoc, removelast_last. Qed.

(** The entry that was reached counts when it is in the range. *)
Definition moved (tr : tree) (it : Iterator) (x : place) (out : bool * Iterator) : Prop :=
  same_range it out.2 /\ it_isNew out.2 = false /\ it_seekKey out.2 = None /\
  match x with
  | Some (l1, e, l2) => if in_range it e.1 then out.1 = true /\ on tr out.2 l1 e l2 else out.1 = false /\ it_node out.2 = None
  | None => out.1 = false /\ it_node out.2 = None
  end.

Lemma limit_spec h tr it x o : rep h tr -> it_root it = root_of tr -> it_isNew it = false -> it_seekKey it = None ->
  stands tr o x -> exists out, limitIterator h (at_node it o.1 o.2) = Ok out /\ moved tr it x out.
Proof.
  intros R Er En Es F. unfold limitIterator, moved. simpl. destruct x as [[[l1 e] l2]|]; simpl in F.
  2:{ rewrite F. eexists. split; [done|]. simpl. unfold same_range. simpl. auto 10. }
  destruct (positioned_node h tr _ _ _ _ _ R F) as (p & prio & lp & rp & Ep & Hp).
  unfold in_range. rewrite Ep, (deref_spec _ _ _ Hp), bind_ok. simpl.
  destruct (match it_startKey it with Some s => Compare e.1 s <? 0 | None => false end); simpl;
    [|destruct (match it_limitKey it with Some l => 0 <=? Compare e.1 l | None => false end); simpl];
    (eexists; split; [done|]); unfold same_range, on; simpl; rewrite <- ?Ep; auto 15.
Qed.

Lemma positioned_parts tr node parents l1 e l2 : positioned tr node parents l1 e l2 ->
  exists c p a prio b, node = Some p /\ parents = spine c /\ tr = plug c (Node p a e.1 e.2 prio b) /\
    l1 = before c ++ entries a /\ l2 = entries b ++ after c /\ entries tr = l1 ++ e :: l2.
Proof.
  intros (c & p & a & prio & b & -> & -> & -> & -> & ->). exists c, p, a, prio, b.
  split_and!; try done. rewrite entries_at. by destruct e.
Qed.

(** The next entry, and the one before. *)
Lemma Next_spec h t tr it l1 e l2 : Holds h t tr -> on tr it l1 e l2 -> it_seekKey it = None ->
  exists out, Next h it = Ok out /\ moved tr it (ahead (l1 ++ [e]) l2) out.
Proof.
  intros [_ R N _ _ _] (Er & En & P) Es. pose proof (locs_fuel _ _ R N) as Hf.
  destruct (positioned_parts _ _ _ _ _ _ P) as (c & p & a & prio & b & Ep & Eps & -> & -> & -> & _).
  pose proof R as ((Hp & _ & Hb) & _)%rep_plug. rewrite locs_node_plug in Hf. simpl in Hf. rewrite !length_app in Hf.
  unfold Next. rewrite En, Ep, Es, (deref_spec _ _ _ Hp), bind_ok, Eps. cbn [Treap.right].
  assert (exists o, (match root_of b with None => climb_right h p (spine c) | Some _ => leftmost (fuel_of h) h (root_of b) (p :: spine c) end) = Ok o /\
    forward (plug c (Node p a e.1 e.2 prio b)) o ((before c ++ entries a) ++ [e]) (entries b ++ after c)) as (o & Eo & F).
  { destruct b as [|q bl kb vb pb br] eqn:Eb; cbn [root_of].
    - destruct (climb_right_spec h c (Node p a e.1 e.2 prio Leaf) p R N eq_refl) as (o & E & F). exists o. split; [done|].
      simpl in F. rewrite <- app_assoc. by destruct e.
    - destruct (leftmost_spec (fuel_of h) h (FR p a e.1 e.2 prio :: c) b) as (o & E & F); [by subst | by subst | subst; unfold fuel_of; lia|].
      subst b. exists o. split; [exact E|]. simpl in F |- *. rewrite <- app_assoc. by destruct e. }
  rewrite Eo, bind_ok. destruct o as [node parents]. apply (limit_spec h _ it _ (node, parents)); try done. by apply forward_stands.
Qed.

Lemma Prev_spec h t tr it l1 e l2 : Holds h t tr -> on tr it l1 e l2 -> it_seekKey it = None ->
  exists out, Prev h it = Ok out /\ moved tr it (behind l1 (e :: l2)) out.
Proof.
  intros [_ R N _ _ _] (Er & En & P) Es. pose proof (locs_fuel _ _ R N) as Hf.
  destruct (positioned_parts _ _ _ _ _ _ P) as (c & p & a & prio & b & Ep & Eps & -> & -> & -> & _).
  pose proof R as ((Hp & Ha & _) & _)%rep_plug. rewrite locs_node_plug in Hf. simpl in Hf. rewrite !length_app in Hf.
  unfold Prev. rewrite En, Ep, Es, (deref_spec _ _ _ Hp), bind_ok, Eps. cbn [Treap.left].
  assert (exists o, (match root_of a with None => climb_left h p (spine c) | Some _ => rightmost (fuel_of h) h (root_of a) (p :: spine c) end) = Ok o /\
    backward (plug c (Node p a e.1 e.2 prio b)) o (before c ++ entries a) (e :: entries b ++ after c)) as (o & Eo & F).
  { destruct a as [|q al ka va pa ar] eqn:Ea; cbn [root_of].
    - destruct (climb_left_spec h c (Node p Leaf e.1 e.2 prio b) p R N eq_refl) as (o & E & F). exists o. split; [done|].
      simpl in F |- *. rewrite app_nil_r. by destruct e.
    - destruct (rightmost_spec (fuel_of h) h (FL p e.1 e.2 prio b :: c) a) as (o & E & F); [by subst | by subst | subst; unfold fuel_of; lia|].
      subst a. exists o. split; [exact E|]. simpl in F |- *. by destruct e. }
  rewrite Eo, bind_ok. destruct o as [node parents]. apply (limit_spec h _ it _ (node, parents)); try done. by apply backward_stands.
Qed.

(** Seeking with the limits of the iterator. *)
Lemma seek_moved h t tr it k ex gr : Holds h t tr -> it_root it = root t -> it_isNew it = false -> it_seekKey it = None ->
  exists out l1 l2, seek h it k ex gr = Ok out /\ entries tr = l1 ++ l2 /\ gap k (xorb ex gr) l1 l2 /\
    moved tr it (if gr then ahead l1 l2 else behind l1 l2) out.
Proof.
  intros H Er En Es. destruct (seek_spec h t tr k ex gr H) as ([node parents] & l1 & l2 & E & El & G & Rc).
  destruct H as [Er' R _ _ _ _]. unfold seek. rewrite Er, E, bind_ok.
  destruct (limit_spec h tr it (if gr then ahead l1 l2 else behind l1 l2) (node, parents)) as (out & Eo & M); try done.
  - by rewrite Er.
  - unfold reached in Rc. destruct gr; [by apply forward_stands | by apply backward_stands].
  - by exists out, l1, l2.
Qed.

(** * Going over a range *)

(** The loop [for iter.Next()], with the keys and values it sees. *)
Fixpoint collect (fuel : nat) (h : heap) (it : Iterator) : res string (list (bytes * bytes)) :=
  match fuel with
  | O => Hang
  | S fuel =>
      '(ok, it) ← Next h it;
      if ok : bool then
        k ← Key h it;
        v ← Value h it;
        rest ← collect fuel h it;
        Ok ((default [] k, default [] v) :: rest)
      else Ok []
  end.

Fixpoint take_while (f : bytes -> bool) (l : list (bytes * bytes)) : list (bytes * bytes) :=
  match l with [] => [] | e :: l => if f e.1 then e :: take_while f l else [] end.

Lemma on_entry h t tr it l1 e l2 : Holds h t tr -> on tr it l1 e l2 ->
  exists k, Key h it = Ok k /\ default [] k = e.1 /\ Value h it = Ok (Some e.2).
Proof.
  intros [_ R _ _ _ _] (_ & _ & P). destruct (positioned_node h tr _ _ _ _ _ R P) as (p & prio & lp & rp & Ep & Hp).
  unfold Key, Value. rewrite Ep, (deref_spec _ _ _ Hp), !bind_ok. eexists. split_and!; [reflexivity | | reflexivity].
  unfold nil_key. cbn [key node_meta]. destruct (meta_nil prio); [|done]. destruct e as [[|x k] v]; [done|].
  cbn [fst andb]. by rewrite len_cons, (proj2 (Z.eqb_neq _ _)) by (pose proof (len_nonneg k); lia).
Qed.

Lemma in_range_same it it' k : same_range it it' -> in_range it' k = in_range it k.
Proof. intros (_ & _ & E1 & E2). unfold in_range. by rewrite E1, E2. Qed.

(** From where [Next] reaches the entries after a gap, the loop sees them up to the
    end of the range. *)
Lemma collect_spec h t tr fuel : Holds h t tr -> forall it l1 l2 out, (length l2 < fuel)%nat ->
  Next h it = Ok out -> moved tr it (ahead l1 l2) out -> collect fuel h it = Ok (take_while (in_range it) l2).
Proof.
  intros H. induction fuel as [|fuel IH]; intros it l1 l2 [ok it'] Hf E (Hs & En & Ek & M); [lia|].
  cbn [collect]. rewrite E, bind_ok. destruct l2 as [|e l2]; simpl in M; [by destruct M as [-> _]|].
  cbn [take_while]. destruct (in_range it e.1); destruct M as [-> M]; [|done].
  destruct (on_entry h t tr it' _ _ _ H M) as (k & -> & Ek1 & ->). rewrite !bind_ok, Ek1.
  destruct (Next_spec h t tr it' _ _ _ H M Ek) as (out' & E' & M'). simpl in Hf.
  rewrite (IH it' (l1 ++ [e]) l2 out' ltac:(lia) E' M'), bind_ok. destruct e; simpl. do 2 f_equal.
  clear - Hs. induction l2 as [|e l2 IH]; [done|]. simpl. rewrite (in_range_same _ _ _ Hs). case_if; [by rewrite IH | done].
Qed.

(** On sorted entries, the range is what is between the two keys. *)
Definition range (it : Iterator) (l : list (bytes * bytes)) : list (bytes * bytes) := filter (fun e => in_range it e.1) l.

Lemma range_none it l : (forall e, e ∈ l -> in_range it e.1 = false) -> range it l = [].
Proof.
  induction l as [|e l IH]; intros H; [done|]. unfold range in *. rewrite filter_cons, H by set_solver. simpl. apply IH. set_solver.
Qed.

Lemma take_while_range it l : sorted l -> (forall s e, it_startKey it = Some s -> e ∈ l -> ~ klt e.1 s) ->
  take_while (in_range it) l = range it l.
Proof.
  induction l as [|e l IH]; intros S Hs; [done|]. apply sorted_cons in S as [S1 S2]. cbn [take_while].
  destruct (in_range it e.1) eqn:E.
  - rewrite IH; [|done | set_solver]. unfold range. by rewrite filter_cons, E.
  - symmetry. apply range_none. intros e' [->|He]%elem_of_cons; [done|]. unfold in_range in *.
    apply andb_false_iff in E as [E|E].
    + destruct (it_startKey it) as [s|] eqn:Es; [|done]. exfalso. apply (Hs s e); [done | set_solver |]. unfold klt.
      apply negb_false_iff in E. lia.
    + destruct (it_limitKey it) as [lim|] eqn:El; [|done]. apply andb_false_iff. right. apply negb_false_iff in E. apply negb_false_iff.
      apply Z.leb_le in E. apply Z.leb_le. assert (~ klt e.1 lim) as Hn by (unfold klt; lia).
      destruct (Z_lt_dec (Compare e'.1 lim) 0) as [Hlt|]; [|lia]. destruct Hn. transitivity e'.1; [by apply S1 | done].
Qed.

(** A new iterator without a start key is at the first entry, whatever its limit. *)
Lemma First_spec h t tr it : Holds h t tr -> it_root it = root t -> it_startKey it = None -> it_node it = None -> it_seekKey it = None ->
  exists out, First h it = Ok out /\ same_range it out.2 /\ it_seekKey out.2 = None /\
    match entries tr with [] => out.1 = false | e :: l => out.1 = true /\ on tr out.2 [] e l end.
Proof.
  intros [Er R N _ _ _] Eit Es En Ek. pose proof (locs_fuel _ _ R N) as Hf. unfold First. cbn [it_startKey not_new]. rewrite Es.
  cbn [it_root not_new]. rewrite Eit, Er. destruct tr as [|p l k v prio r] eqn:Et.
  { eexists. split; [done|]. simpl. unfold same_range. simpl. by rewrite Es. }
  destruct (leftmost_spec (fuel_of h) h [] tr) as (o & E & F); [by subst | by subst | subst; unfold fuel_of; lia|].
  rewrite <- Et. change (spine []) with (@nil loc) in E. rewrite E, bind_ok. simpl in F. rewrite app_nil_r in F.
  destruct (entries tr) as [|e l'] eqn:Ee; [subst tr; simpl in Ee; by destruct (entries l)|]. simpl in F.
  destruct o as [node parents]. destruct (positioned_parts _ _ _ _ _ _ F) as (c & q & a & pr & b & Eq & _). simpl in Eq. rewrite Eq.
  eexists. split; [done|]. simpl in F |- *. unfold same_range, on. simpl. rewrite <- Eq. by rewrite Es, Eit, Er, <- Et.
Qed.

(** What the loop over a new iterator sees. *)
Lemma iterate_spec h t tr it : Holds h t tr -> it_root it = root t -> it_isNew it = true -> it_node it = None -> it_seekKey it = None ->
  collect (S (fuel_of h)) h it = Ok (match it_startKey it with
    | Some _ => range it (entries tr)
    | None => take 1 (entries tr) ++ range it (drop 1 (entries tr)) end).
Proof.
  intros H Eit En Eno Ek. pose proof H as [_ R N S _ _]. pose proof (locs_fuel _ _ R N) as Hf. rewrite <- length_entries in Hf.
  destruct (it_startKey it) as [s|] eqn:Es.
  - destruct (seek_moved h t tr (not_new it) s true true H) as (out & l1 & l2 & E & El & [G1 G2] & M); [done..|].
    rewrite El in Hf, S. rewrite length_app in Hf. pose proof S as (_ & _ & S2)%sorted_app.
    rewrite (collect_spec h t tr _ H it l1 l2 out).
    + rewrite (take_while_range it l2 S2).
      * rewrite El. unfold range. rewrite filter_app. fold (range it l1) (range it l2). rewrite (range_none it l1); [done|].
        intros e He. unfold in_range. rewrite Es. destruct (G1 e He) as [Hk|[Hk _]]; [|done]. unfold klt in Hk.
        by rewrite (proj2 (Z.ltb_lt _ _) Hk).
      * intros s' e Es' He Hk. rewrite Es in Es'. injection Es' as <-. apply (G2 e He). by left.
    + unfold fuel_of. lia.
    + unfold Next, First. rewrite En. cbn [it_startKey not_new]. by rewrite Es.
    + destruct M as (Hs & M1 & M2 & M3). done.
  - destruct (First_spec h t tr it H Eit Es Eno Ek) as ([ok it'] & E & Hs & Hk & M). cbn [collect].
    unfold Next at 1. rewrite En, E, bind_ok. destruct (entries tr) as [|e l] eqn:Ee; simpl in M; [by rewrite M|].
    destruct M as [-> M]. destruct (on_entry h t tr it' _ _ _ H M) as (k1 & -> & Ek1 & ->). rewrite !bind_ok, Ek1. simpl in Hs, Hk.
    destruct (Next_spec h t tr it' _ _ _ H M Hk) as (out' & E' & M').
    rewrite (collect_spec h t tr _ H it' [e] l out'), bind_ok; [|simpl in Hf; unfold fuel_of; lia | done | done].
    apply sorted_cons in S as [_ S]. rewrite take_while_range; [|done|].
    + destruct e; simpl. rewrite drop_0. do 2 f_equal. unfold range. apply list_filter_iff. intros x. by rewrite (in_range_same it it').
    + intros s x Es'. destruct Hs as (_ & _ & Hs & _). congruence.
Qed.

(** * Changing a treap while going over it *)

(** The loop of the documentation: the entries whose keys satisfy a condition are
    deleted, and the iterator told.  The keys it sees are returned. *)
Fixpoint purge (fuel : nat) (cond : bytes -> bool) (h : heap) (t : treap) (it : Iterator) : res string (heap * treap * list bytes) :=
  match fuel with
  | O => Hang
  | S fuel =>
      '(ok, it) ← Next h it;
      if ok : bool then
        k ← Key h it;
        let k := default [] k in
        '(h, t, it) ← (if cond k then '(h, t) ← Mutable_Delete h t k; it ← ForceReseek h t it; Ok (h, t, it) else Ok (h, t, it));
        '(h, t, seen) ← purge fuel cond h t it;
        Ok (h, t, k :: seen)
      else Ok (h, t, [])
  end.

(** ** Keys that are not nil *)
Definition named (h : heap) : Prop := map_Forall (fun _ n => meta_nil (node_meta n) = false) h.

Lemma named_deref h p n : named h -> deref h p = Ok n -> meta_nil (node_meta n) = false.
Proof. unfold deref. intros Hn. destruct (h !! p) as [x|] eqn:E; [|done]. intros [= <-]. by apply (Hn p). Qed.

Lemma named_insert h p n : named h -> meta_nil (node_meta n) = false -> named (<[p := n]> h).
Proof. intros. by apply map_Forall_insert_2. Qed.

Lemma named_assign h p f h' : (forall n, node_meta (f n) = node_meta n) -> named h -> assign h p f = Ok h' -> named h'.
Proof.
  intros Hf Hn (n & E & [= <-])%bind_Ok. apply named_insert; [done|]. rewrite Hf. by eapply named_deref.
Qed.

Lemma named_replace h p old new h' : named h -> replace_child h p old new = Ok h' -> named h'.
Proof.
  intros Hn (n & E & Hr)%bind_Ok. pose proof (named_deref _ _ _ Hn E). by case_bool_decide; injection Hr as <-; apply named_insert.
Qed.

Lemma named_relink h r node p g h' r' : named h -> relinkGrandparent h r node p g = Ok (h', r') -> named h'.
Proof.
  unfold relinkGrandparent. intros Hn. destruct g; [|by intros [= <- _]]. intros (h1 & E & [= <- _])%bind_Ok. by eapply named_replace.
Qed.

Lemma named_rotate_up parents : forall h r node h' r', named h -> rotate_up h r node parents = Ok (h', r') -> named h'.
Proof.
  induction parents as [|p rest IH]; intros h r node h' r' Hn E; cbn [rotate_up] in E; [by injection E as <- _|].
  apply bind_Ok in E as (n & _ & (m & _ & E)%bind_Ok). destruct (priority m <=? priority n); [by injection E as <- _|].
  apply bind_Ok in E as (h1 & E1 & ([h2 r2] & E2 & E)%bind_Ok). eapply IH; [|exact E]. eapply named_relink; [|exact E2].
  by case_bool_decide; apply bind_Ok in E1 as (h0 & E0 & E1); (eapply named_assign; [|eapply named_assign; [|exact Hn|exact E0]|exact E1]).
Qed.

Lemma named_put h t k v prio h' t' : meta_nil prio = false -> named h -> Mutable_Put h t k v prio = Ok (h', t') -> named h'.
Proof.
  intros Hp Hn. unfold Mutable_Put, newTreapNode, alloc. destruct (root t); [|intros [= <- _]; by apply named_insert].
  intros (place & _ & E)%bind_Ok. destruct place as [q|[parents c]].
  - apply bind_Ok in E as (n & E & [= <- _]). apply named_insert; [done|]. by apply (named_deref h q n).
  - apply bind_Ok in E as ([h1 r1] & E & [= <- _]). unfold link_new, newTreapNode, alloc in E.
    apply bind_Ok in E as (q & _ & (h2 & E2 & E)%bind_Ok). eapply named_rotate_up; [|exact E].
    eapply named_assign; [| |exact E2]; [intros n; by destruct (c <? 0) | by apply named_insert].
Qed.

Lemma named_sink fuel : forall h r node parent h' r' parent', named h -> sink fuel h r node parent = Ok (h', r', parent') -> named h'.
Proof.
  induction fuel as [|fuel IH]; intros h r node parent h' r' parent' Hn E; cbn [sink] in E; [done|].
  apply bind_Ok in E as (n & _ & (choice & _ & E)%bind_Ok). destruct choice as [[child isLeft]|]; [|by injection E as <- _ _].
  apply bind_Ok in E as (h1 & E1 & ([h2 r2] & E2 & E)%bind_Ok). eapply IH; [|exact E]. eapply named_relink; [|exact E2].
  unfold rotate_down in E1. apply bind_Ok in E1 as (c & _ & E1).
  by destruct isLeft; apply bind_Ok in E1 as (h0 & E0 & E1); (eapply named_assign; [|eapply named_assign; [|exact Hn|exact E0]|exact E1]).
Qed.

Lemma named_delete h t k h' t' : named h -> Mutable_Delete h t k = Ok (h', t') -> named h'.
Proof.
  intros Hn. unfold Mutable_Delete. intros ([node parent] & _ & E)%bind_Ok. destruct node as [node|]; [|by injection E as <- _].
  apply bind_Ok in E as (n & _ & E).
  assert (forall x, ('(h, r, parent) ← sink (fuel_of h) h (root t) node x; h ← unlink h node parent; n ← deref h node;
    Ok (h, mkTreap r (i64 (count t - 1)) (u64 (totalSize t - nodeSize n)))) = Ok (h', t') -> named h') as Hs.
  { intros x ([[h1 r1] p1] & E1 & (h2 & E2 & (m & _ & [= <- _])%bind_Ok)%bind_Ok)%bind_Ok. apply named_sink in E1; [|done].
    unfold unlink in E2. apply bind_Ok in E2 as (p & _ & (q & Eq & E2)%bind_Ok). pose proof (named_deref _ _ _ E1 Eq).
    by case_bool_decide; injection E2 as <-; apply named_insert. }
  destruct parent; [by apply (Hs _ E)|]. destruct (left n), (right n); try by apply (Hs _ E). by injection E as <- _.
Qed.

(** No key is put as a nil slice. *)
Definition no_nil_put (c : call) : bool := match c with CPut _ _ prio => negb (meta_nil prio) | _ => true end.

Lemma exec_named cs : forall h t h' t', named h -> forallb no_nil_put cs = true -> exec_all cs h t = Ok (h', t') -> named h'.
Proof.
  induction cs as [|c cs IH]; intros h t h' t' Hn Hc E; cbn [exec_all] in E; [by injection E as <- _|].
  apply andb_true_iff in Hc as [Hc Hcs]. apply bind_Ok in E as ([h1 t1] & E1 & E). eapply IH; [|exact Hcs|exact E].
  destruct c as [k v prio|k|]; cbn in *; [|exact (named_delete _ _ _ _ _ Hn E1)|by injection E1 as <- _].
  eapply named_put; [|exact Hn|exact E1]. by destruct (meta_nil prio).
Qed.

Lemma sorted_unique l l' : sorted l -> sorted l' -> to_map l = to_map l' -> l = l'.
Proof.
  intros S S' E. apply (StronglySorted_unique_strong (fun x y => klt x.1 y.1)); [|done|done|].
  - intros x y _ _ H1 H2. by apply klt_asym in H1.
  - apply (list_to_map_inj (M := gmap bytes)); [by apply sorted_nodup..|done].
Qed.

(** The place of an entry is the only one. *)
Lemma search_found k c : forall t c0, sorted (entries (plug c t)) -> (exists v, (k, v) ∈ entries t) ->
  search k c0 (plug c t) = search k (c ++ c0) t.
Proof.
  induction c as [|f c IH]; intros t c0 S [v Hv]; [done|]. simpl.
  rewrite IH; [|done|exists v; destruct f; simpl; set_solver].
  simpl in S. rewrite entries_plug in S. apply sorted_app in S as (_ & _ & (S & _ & _)%sorted_app).
  destruct f as [p kp vp pp r|p l kp vp pp]; simpl in *; apply sorted_middle in S as [S1 S2].
  - assert (klt k kp) as Hk by by apply (S1 (k, v)). unfold klt in Hk. by rewrite (proj2 (Z.ltb_lt _ _) Hk).
  - assert (klt kp k) as Hk by by apply (S2 (k, v)). apply Compare_pos in Hk.
    by rewrite (proj2 (Z.ltb_ge _ _)), (proj2 (Z.ltb_lt _ _) Hk) by lia.
Qed.

Lemma get_positioned h t tr node parents l1 e l2 : Holds h t tr -> positioned tr node parents l1 e l2 ->
  exists p, node = Some p /\ get h t e.1 = Ok (Some p, head parents).
Proof.
  intros H P. pose proof (get_spec h t tr e.1 H) as E. destruct H as [_ _ _ S _ _].
  destruct (positioned_parts _ _ _ _ _ _ P) as (c & p & a & prio & b & -> & -> & -> & _). exists p. split; [done|].
  rewrite E, (search_found e.1 c _ [] S) by (exists e.2; simpl; set_solver). simpl.
  by rewrite (proj2 (Compare_eq _ _) eq_refl), app_nil_r.
Qed.

Lemma gap_unique k i m1 m2 l1 l2 : m1 ++ m2 = l1 ++ l2 -> gap k i m1 m2 -> gap k i l1 l2 -> m1 = l1 /\ m2 = l2.
Proof.
  revert l1; induction m1 as [|x m1 IH]; intros [|y l1] E [G1 G2] [G3 G4]; simpl in *.
  - done.
  - exfalso. apply (G2 y); [subst; set_solver | apply G3; set_solver].
  - exfalso. apply (G4 x); [subst; set_solver | apply G1; set_solver].
  - injection E as <- E. destruct (IH l1 E) as [-> ->]; [| |done]; (split; [set_solver | done]).
Qed.

(** The iterator of a treap, and where its next step leads. *)
Definition ready (h : heap) (tr : tree) (it : Iterator) (l1 l2 : list (bytes * bytes)) : Prop :=
  it_mutable it = true /\ it_startKey it = None /\ it_limitKey it = None /\
  exists out, Next h it = Ok out /\ match l2 with [] => out.1 = false | e :: l2 => out.1 = true /\ on tr out.2 l1 e l2 /\ it_seekKey out.2 = None /\ same_range it out.2 end.

Lemma moved_ready h tr it l1 l2 out : it_mutable it = true -> it_startKey it = None -> it_limitKey it = None ->
  Next h it = Ok out -> moved tr it (ahead l1 l2) out -> ready h tr it l1 l2.
Proof.
  intros Em Es El E (Hs & En & Ek & M). split_and!; [done..|]. exists out. split; [done|].
  destruct l2 as [|e l2]; simpl in M; [tauto|]. unfold in_range in M. rewrite Es, El in M. simpl in M. tauto.
Qed.

(** After the entry was deleted, the iterator goes on with the next one. *)
Lemma delete_reseek h t tr it l1 e l2 : Holds h t tr -> on tr it l1 e l2 -> (e.1 = [] -> named h) -> it_mutable it = true ->
  it_startKey it = None -> it_limitKey it = None ->
  exists h' t' tr' it', Mutable_Delete h t e.1 = Ok (h', t') /\ ForceReseek h' t' it = Ok it' /\
    Holds h' t' tr' /\ entries tr' = l1 ++ l2 /\ ready h' tr' it' l1 l2.
Proof.
  intros H (Er & En & P) Hnil Em Es El. destruct (get_positioned h t tr _ _ _ _ _ H P) as (p & Ep & Eg).
  destruct (Mutable_Delete_spec h t tr e.1 H) as (h' & t' & tr' & E & H' & M & Hd). destruct (Hd p _ Eg) as (n & Hn & Ek).
  destruct (positioned_parts _ _ _ _ _ _ P) as (_ & _ & _ & _ & _ & _ & _ & _ & _ & _ & Ee).
  pose proof H as [_ _ _ S _ _]. pose proof H' as [Er' _ _ S' _ _]. rewrite Ee in S. destruct e as [k v].
  pose proof (sorted_middle _ _ _ _ S) as Pl. cbn [fst] in *.
  assert (entries tr' = l1 ++ l2) as Ee'.
  { apply sorted_unique; [done | by eapply sorted_remove|]. rewrite M, Ee, to_map_middle by done.
    apply delete_insert_id. by apply to_map_lookup_none. }
  exists h', t', tr', (with_seekKey (with_root it (root t')) (Some k)).
  assert (nil_key n = false) as Enil.
  { unfold nil_key. destruct (len (key n) =? 0) eqn:E0; [|by rewrite andb_false_r]. rewrite andb_true_r. rewrite Ek in E0.
    assert (k = []) as -> by (destruct k; [done|]; rewrite len_cons in E0; pose proof (len_nonneg k); lia).
    apply (named_delete _ _ _ _ _ (Hnil eq_refl) E p n Hn). }
  split; [done|]. split; [unfold ForceReseek; rewrite Em; simpl; by rewrite Ep, (deref_spec _ _ _ Hn), bind_ok, Enil, Ek|].
  split; [done|]. split; [done|].
  destruct (seek_moved h' t' tr' (with_seekKey (with_root it (root t')) None) k false true H') as (out & m1 & m2 & Eo & Em' & G & Mv); [done..|].
  assert (m1 = l1 /\ m2 = l2) as [-> ->].
  { apply (gap_unique k true); [by rewrite <- Em', <- Ee' | done |]. destruct Pl as [P1 P2]. split.
    - intros x Hx. left. by apply P1.
    - intros x Hx. by apply not_passed, P2. }
  eapply moved_ready; [done..| |exact Mv]. unfold Next. simpl. by rewrite En, Ep.
Qed.

Lemma purge_spec cond fuel : forall h t tr it l1 l2, Holds h t tr -> entries tr = l1 ++ l2 -> ready h tr it l1 l2 ->
  (cond [] = true -> named h) -> (length l2 < fuel)%nat ->
  exists h' t' tr', purge fuel cond h t it = Ok (h', t', l2.*1) /\ Holds h' t' tr' /\
    entries tr' = l1 ++ filter (fun e => negb (cond e.1)) l2.
Proof.
  induction fuel as [|fuel IH]; intros h t tr it l1 l2 H Ee (Em & Es & El & [ok it1] & E & M) Hnil Hf; [lia|].
  cbn [purge]. rewrite E, bind_ok. destruct l2 as [|e l2]; simpl in M.
  { rewrite M. exists h, t, tr. done. }
  destruct M as (-> & M & Ek & Hs1 & _ & Hs2 & Hs3). destruct (on_entry h t tr it1 _ _ _ H M) as (k1 & -> & Ek1 & _). rewrite bind_ok, Ek1.
  rewrite filter_cons. simpl in Hf. destruct (cond e.1) eqn:Ec; simpl.
  - destruct (delete_reseek h t tr it1 l1 e l2 H M) as (h' & t' & tr' & it' & E1 & E2 & H' & Ee' & R');
      [intros E0; apply Hnil; by rewrite <- E0 | congruence..|].
    rewrite E1, bind_ok, E2. cbn [mbind res_bind]. destruct (IH h' t' tr' it' l1 l2 H' Ee' R') as (h2 & t2 & tr2 & E3 & H2 & Ee2);
      [intros Hc; eapply named_delete; [by apply Hnil | exact E1] | lia |].
    rewrite E3. by exists h2, t2, tr2.
  - destruct (Next_spec h t tr it1 _ _ _ H M Ek) as (out & En & Mn).
    destruct (IH h t tr it1 (l1 ++ [e]) l2 H) as (h2 & t2 & tr2 & E3 & H2 & Ee2); [by rewrite <- app_assoc | | done | lia |].
    { eapply moved_ready; [congruence..|exact En|exact Mn]. }
    rewrite E3. exists h2, t2, tr2. split_and!; [done..|]. by rewrite Ee2, <- app_assoc.
Qed.

(** * The iterators of a treap that is used in any way *)

(** C39: iteration respects the range: the loop over a new iterator of a treap, whatever
    was done to the treap before, ends and sees in the order of the keys the entries
    from the start key up to the limit key; without a start key the first entry is seen
    even when it is not below the limit. *)
Theorem iteration_in_range (cs : list call) (startKey limitKey : option bytes) :
  exists h t l, exec_all cs ∅ NewMutable = Ok (h, t) /\ sorted l /\ to_map l = foldl apply_call ∅ cs /\
    let it := Mutable_Iterator t startKey limitKey in
    collect (S (fuel_of h)) h it =
      Ok (match startKey with Some _ => range it l | None => take 1 l ++ range it (drop 1 l) end).
Proof.
  destruct (exec_all_spec cs ∅ NewMutable Leaf (holds_empty ∅)) as (h & t & tr & E & H & M).
  exists h, t, (entries tr). pose proof H as [_ _ _ S _ _]. split_and!; [done..|].
  cbv zeta. by rewrite (iterate_spec h t tr (Mutable_Iterator t startKey limitKey) H).
Qed.

(** Three keys, the second of them a nil slice that is deleted. *)
Definition nil_calls : list call :=
  [CPut [2] None (mkMeta 1 false); CPut [] None (mkMeta 2 true); CPut [1] None (mkMeta 3 false)].
Definition is_empty (k : bytes) : bool := len k =? 0.

(** C38: deleting while iterating, as the documentation shows: the loop ends, sees every
    entry once in the order of the keys, and leaves the entries that it did not delete,
    unless it deletes the entry of a nil key.  For a nil key [ForceReseek] sets the key to
    seek to nil, which means not to seek: in a treap with a nil key and two others the
    loop that deletes the nil key goes on from the removed node and does not see one of
    the others. *)
Theorem delete_while_iterating :
  (forall (cs : list call) (cond : bytes -> bool), (cond [] = true -> forallb no_nil_put cs = true) ->
    exists h t l h' t', exec_all cs ∅ NewMutable = Ok (h, t) /\ sorted l /\ to_map l = foldl apply_call ∅ cs /\
      purge (S (fuel_of h)) cond h t (Mutable_Iterator t None None) = Ok (h', t', l.*1) /\
      Reads h' t' (to_map (filter (fun e => negb (cond e.1)) l))) /\
  exists h t h' t', exec_all nil_calls ∅ NewMutable = Ok (h, t) /\ Get h t [1] = Ok (Some []) /\
    purge (S (fuel_of h)) is_empty h t (Mutable_Iterator t None None) = Ok (h', t', [[]; [2]]).
Proof.
  split.
  - intros cs cond Hnil. destruct (exec_all_spec cs ∅ NewMutable Leaf (holds_empty ∅)) as (h & t & tr & E & H & M).
    pose proof H as [Er R N Hs _ _]. pose proof (locs_fuel _ _ R N) as Hf. rewrite <- length_entries in Hf.
    destruct (purge_spec cond (S (fuel_of h)) h t tr (Mutable_Iterator t None None) [] (entries tr)) as (h' & t' & tr' & Ep & H' & Ee');
      [done | done | | | unfold fuel_of; lia |].
    + split_and!; [done..|]. destruct (First_spec h t tr (Mutable_Iterator t None None) H) as (out & Eo & Hr & Hk & Ho); [done..|].
      exists out. split; [done|]. destruct (entries tr); [done|]. tauto.
    + intros Hc. eapply exec_named; [apply map_Forall_empty | by apply Hnil | exact E].
    + exists h, t, (entries tr), h', t'. split_and!; [done..|]. rewrite <- (app_nil_l (filter _ _)), <- Ee'. by apply holds_reads.
  - set (out := '(h, t) ← exec_all nil_calls ∅ NewMutable; g ← Get h t [1];
      '(h', t', seen) ← purge (S (fuel_of h)) is_empty h t (Mutable_Iterator t None None); Ok (g, seen)).
    assert (out = Ok (Some [], [[]; [2]])) as E by (vm_compute; reflexivity).
    apply bind_Ok in E as ([h t] & E1 & (g & E2 & ([[h' t'] seen] & E3 & E)%bind_Ok)%bind_Ok). injection E as -> ->.
    exists h, t, h', t'. by split_and!.
Qed.

End TreapIter.
