(* ===== verification/Policy.v ===== *)
(** The relay policy: [src/mempool/policy.go], with the errors of
    [src/mempool/error.go] and the priorities of [src/mining/policy.go].

    A float64 is a value of the standard library's specification of binary64, and
    its operations round as that specification does. *)
From Stdlib Require Import SpecFloat.
From S2P Require Import Prelude PubKey Opcode Wire Crypto Script Standard SigCache Engine Utxo GoTime Params KeyView Validate.
Import btcec Opcode wire Crypto Script Standard Engine Utxo GoTime Params KeyView Validate.
#[local] Open Scope Z_scope.

Module Policy.

(** * Floating point numbers *)
Abbreviation float64 := spec_float.
Definition of_int (n : Z) : float64 := binary_normalize 53 1024 n 0 false.
Definition fadd (x y : float64) : float64 := SFadd 53 1024 x y.
Definition fmul (x y : float64) : float64 := SFmul 53 1024 x y.
Definition fdiv (x y : float64) : float64 := SFdiv 53 1024 x y.
Definition fzero : float64 := S754_zero false.

(** * Errors *)
Definition RejectInvalid : Z := 0x10.
Definition RejectObsolete : Z := 0x11.
Definition RejectDuplicate : Z := 0x12.
Definition RejectNonstandard : Z := 0x40.
Definition RejectDust : Z := 0x41.
Definition RejectInsufficientFee : Z := 0x42.
Definition RejectCheckpoint : Z := 0x43.
Definition RejectInvalidAdmin : Z := 0x44.

(** An error of the pool: a [RuleError] with a [TxRuleError] or with an error of the
    chain in it, or an error that is passed on as it is. *)
Inductive pool_error := TxRuleError (code : Z) | ChainRuleError (code : RuleErrorCode) | Unwrapped (e : error).

Definition txRuleError {A} (c : Z) : res pool_error A := Err (TxRuleError c).

(** An error of the chain package that is a broken rule is wrapped. *)
Definition chainRuleError (e : error) : pool_error :=
  match e with RuleError c => ChainRuleError c | _ => Unwrapped e end.

Definition wrapped {A} (m : res error A) : res pool_error A :=
  match m with Ok a => Ok a | Err e => Err (chainRuleError e) | Panic => Panic | Hang => Hang end.

Definition unwrapped {A} (m : res error A) : res pool_error A :=
  match m with Ok a => Ok a | Err e => Err (Unwrapped e) | Panic => Panic | Hang => Hang end.

Definition reject_of_rule (c : RuleErrorCode) : Z :=
  match c with
  | ErrDuplicateBlock | ErrDoubleSpend => RejectDuplicate
  | ErrBlockVersionTooOld => RejectObsolete
  | ErrCheckpointTimeTooOld | ErrDifficultyTooLow | ErrBadCheckpoint | ErrForkTooOld => RejectCheckpoint
  | _ => RejectInvalid
  end.

Definition extractRejectCode (e : pool_error) : Z * bool :=
  match e with
  | ChainRuleError c => (reject_of_rule c, true)
  | Unwrapped (RuleError c) => (reject_of_rule c, true)
  | TxRuleError c => (c, true)
  | Unwrapped _ => (RejectInvalid, false)
  end.

(** The code that is sent to a peer; the text is not modelled. *)
Definition ErrToRejectErr (e : pool_error) : Z :=
  let '(rejectCode, found) := extractRejectCode e in
  if found then rejectCode else RejectInvalid.

(** An error with the code of the one before, or that of a non-standard transaction. *)
Definition not_standard {A} (m : res pool_error A) : res pool_error A :=
  match m with
  | Err e => let '(rejectCode, found) := extractRejectCode e in txRuleError (if found then rejectCode else RejectNonstandard)
  | m => m
  end.

(** * Transactions with their place in a block (provautil) *)
Record Tx := mkTx { msgTx : MsgTx; txIndex : Z }.

Definition TxIndexUnknown : Z := -1.
Definition NewTx (m : MsgTx) : Tx := mkTx m TxIndexUnknown.
Definition IsCoinbase (t : Tx) : bool := txIndex t =? 0.

(** * Fees *)
Definition maxStandardSigScriptSize : Z := 1650.
Definition MaxStandardTxSize : Z := 100000.

Definition calcMinRequiredTxRelayFee (serializedSize minRelayTxFee : Z) : Z :=
  let minFee := Z.quot (i64 (serializedSize * minRelayTxFee)) 1000 in
  let minFee := if (minFee =? 0) && (0 <? minRelayTxFee) then minRelayTxFee else minFee in
  if (minFee <? 0) || (MaxAtoms <? minFee) then MaxAtoms else minFee.

Definition isDust (txOut : TxOut) (minRelayTxFee : Z) : bool :=
  if IsUnspendable (PkScript txOut) then true
  else
    let totalSize := TxOut_SerializeSize txOut + 148 in
    Z.quot (i64 (Value txOut * 1000)) (i64 (3 * totalSize)) <? minRelayTxFee.

(** * Standard inputs *)
Fixpoint inputs_standard (thisPkScript : bytes) (hasAdminOut hasAdminIn : bool) (utxoView : UtxoViewpoint) (ins : list TxIn)
    : res pool_error UtxoViewpoint :=
  match ins with
  | [] => Ok utxoView
  | txIn :: rest =>
      let prevOut := PreviousOutPoint txIn in
      match LookupEntry utxoView (Hash prevOut) with
      | None => Panic
      | Some entry =>
          '(originPkScript, entry) ← unwrapped (asserted (PkScriptByIndex entry (Index prevOut)));
          let utxoView := set_entry utxoView (Hash prevOut) entry in
          let originPkScript := default [] originPkScript in
          hasAdminIn ←
            match GetScriptClass originPkScript with
            | ProvaAdminTy =>
                match ParseScript (SignatureScript txIn) with
                | Ok sigPops =>
                    if negb (len sigPops mod 2 =? 0) then txRuleError RejectNonstandard
                    else if negb (Index prevOut =? 0) then txRuleError RejectInvalidAdmin
                    else if negb hasAdminOut then txRuleError RejectInvalidAdmin
                    else
                      a0 ← idx thisPkScript 0;
                      b0 ← idx originPkScript 0;
                      if negb (a0 =? b0) then txRuleError RejectInvalidAdmin
                      else
                        a1 ← idx thisPkScript 1;
                        b1 ← idx originPkScript 1;
                        if negb (a1 =? b1) then txRuleError RejectInvalidAdmin else Ok true
                | Err _ => txRuleError RejectNonstandard
                | Panic => Panic
                | Hang => Hang
                end
            | NonStandardTy => txRuleError RejectNonstandard
            | _ => Ok hasAdminIn
            end;
          if hasAdminOut && negb hasAdminIn then txRuleError RejectInvalidAdmin
          else inputs_standard thisPkScript hasAdminOut hasAdminIn utxoView rest
      end
  end.

Definition checkInputsStandard (tx : MsgTx) (utxoView : UtxoViewpoint) : res pool_error UtxoViewpoint :=
  let threadInt := (GetAdminDetailsMsgTx tx).1 in
  first ← idx (tx_TxOut tx) 0;
  inputs_standard (PkScript first) (0 <=? threadInt) false utxoView (tx_TxIn tx).

(** * Standard transactions *)
Definition checkPkScriptStandard (scriptClass : ScriptClass) : res pool_error unit :=
  match scriptClass with NonStandardTy => txRuleError RejectNonstandard | _ => Ok tt end.

(** The number of outputs that only carry data. *)
Fixpoint outputs_standard (isCoinbase : bool) (threadInt minRelayTxFee : Z) (index numNullDataOutputs : Z) (outs : list TxOut)
    : res pool_error Z :=
  match outs with
  | [] => Ok numNullDataOutputs
  | txOut :: rest =>
      let hasAdminOut := 0 <=? threadInt in
      let scriptClass := GetScriptClass (PkScript txOut) in
      _ ← not_standard (checkPkScriptStandard scriptClass);
      if bool_decide (scriptClass = ProvaAdminTy) && negb (index =? 0) then txRuleError RejectInvalid
      else if hasAdminOut && negb (u8 threadInt =? IssueThread) && negb (Value txOut =? 0) then txRuleError RejectInvalid
      else if bool_decide (scriptClass = NullDataTy) then
        outputs_standard isCoinbase threadInt minRelayTxFee (index + 1) (numNullDataOutputs + 1) rest
      else if negb isCoinbase && negb hasAdminOut && isDust txOut minRelayTxFee then txRuleError RejectDust
      else outputs_standard isCoinbase threadInt minRelayTxFee (index + 1) numNullDataOutputs rest
  end.

Definition checkTransactionStandard (tx : Tx) (height : Z) (medianTimePast : Time) (minRelayTxFee maxTxVersion : Z)
    : res pool_error unit :=
  let m := msgTx tx in
  if (maxTxVersion <? tx_Version m) || (tx_Version m <? 1) then txRuleError RejectNonstandard
  else if negb (IsFinalizedTransaction m height (Unix medianTimePast)) then txRuleError RejectNonstandard
  else if MaxStandardTxSize <? SerializeSize m then txRuleError RejectNonstandard
  else if existsb (fun txIn => (maxStandardSigScriptSize <? len (SignatureScript txIn)) ||
                               negb (IsPushOnlyScript (SignatureScript txIn))) (tx_TxIn m) then txRuleError RejectNonstandard
  else
    let '(threadInt, adminOutputs) := GetAdminDetailsMsgTx m in
    let hasAdminOut := 0 <=? threadInt in
    numNullDataOutputs ← outputs_standard (IsCoinbase tx) threadInt minRelayTxFee 0 0 (tx_TxOut m);
    if negb hasAdminOut && (1 <? numNullDataOutputs) then txRuleError RejectNonstandard
    else
      let threadId := u8 threadInt in
      if hasAdminOut && ((threadId =? RootThread) || (threadId =? ProvisionThread)) then
        if 1 <? len (tx_TxIn m) then txRuleError RejectInvalid
        else if len (tx_TxOut m) <? 2 then txRuleError RejectInvalid
        else if forallb (fun adminOpOut => IsValidAdminOp adminOpOut threadId) adminOutputs then Ok tt
        else txRuleError RejectInvalid
      else Ok tt.

(** * Priorities (mining) *)
Definition UnminedHeight : Z := 0x7fffffff.
Definition MinHighPriority : float64 := fzero.

Definition minInt (a b : Z) : Z := if a <? b then a else b.

(** Reading an amount can decompress the output in the view. *)
Fixpoint input_ages (utxoView : UtxoViewpoint) (nextBlockHeight : Z) (totalInputAge : float64) (ins : list TxIn)
    : res string (float64 * UtxoViewpoint) :=
  match ins with
  | [] => Ok (totalInputAge, utxoView)
  | txIn :: rest =>
      let originHash := Hash (PreviousOutPoint txIn) in
      let originIndex := Index (PreviousOutPoint txIn) in
      match LookupEntry utxoView originHash with
      | Some txEntry =>
          if negb (IsOutputSpent txEntry originIndex) then
            let originHeight := ent_blockHeight txEntry in
            let inputAge := if originHeight =? UnminedHeight then 0 else u32 (nextBlockHeight - originHeight) in
            '(inputValue, txEntry) ← AmountByIndex txEntry originIndex;
            input_ages (set_entry utxoView originHash txEntry) nextBlockHeight
              (fadd totalInputAge (of_int (i64 (inputValue * inputAge)))) rest
          else input_ages utxoView nextBlockHeight totalInputAge rest
      | None => input_ages utxoView nextBlockHeight totalInputAge rest
      end
  end.

Definition calcInputValueAge (tx : MsgTx) (utxoView : UtxoViewpoint) (nextBlockHeight : Z) : res string (float64 * UtxoViewpoint) :=
  input_ages utxoView nextBlockHeight fzero (tx_TxIn tx).

Definition CalcPriority (tx : MsgTx) (utxoView : UtxoViewpoint) (nextBlockHeight : Z) : res string (float64 * UtxoViewpoint) :=
  let overhead := fold_left (fun n txIn => n + (41 + minInt 110 (len (SignatureScript txIn)))) (tx_TxIn tx) 0 in
  let serializedTxSize := SerializeSize tx in
  if serializedTxSize <=? overhead then Ok (fzero, utxoView)
  else
    '(inputValueAge, utxoView) ← calcInputValueAge tx utxoView nextBlockHeight;
    Ok (fdiv inputValueAge (of_int (serializedTxSize - overhead)), utxoView).

End Policy.
