(* ===== verification/PolicySpec.v ===== *)
(** The checks made on a transaction return: none of the loops below
    [maybeAcceptTransaction] uses up its fuel, so the memory pool can only wait for
    the chain. *)
From S2P Require Import Prelude PubKey Opcode Compress ScriptNum Wire Crypto Script Standard Signature SigCache Engine Utxo GoTime Params KeyView Validate Policy.
Import btcec Opcode Compress ScriptNum wire Crypto Script Standard Engine Utxo GoTime Params KeyView Validate Policy.
#[local] Open Scope Z_scope.

Module PolicySpec.

Create HintDb no_hang.

Lemma bind_no_hang {E A B} (m : res E A) (f : A -> res E B) : m <> Hang -> (forall a, f a <> Hang) -> mbind f m <> Hang.
Proof. intros Hm Hf [E1|(a & _ & E1)]%bind_Hang; [by apply Hm | by apply (Hf a)]. Qed.

(** One call, branch or binding at a time. *)
Ltac no_hang :=
  repeat match goal with
  | |- forall _, _ => intro
  | H : ?m = Hang |- Hang <> Hang => exfalso; revert H; change (m <> Hang)
  | |- mbind _ _ <> Hang => apply bind_no_hang
  | |- (match ?x with _ => _ end) <> Hang => destruct x eqn:?
  | |- _ <> Hang => first [solve [auto with no_hang nocore] | discriminate]
  end.

Lemma set_idx_no_hang {E A} (l : list A) i x : @set_idx E A l i x <> Hang.
Proof. unfold set_idx. no_hang. Qed.

#[export] Hint Resolve ParsePubKey_no_hang Sig.slice_no_hang Sig.idx_no_hang set_idx_no_hang : no_hang.

Lemma asserted_no_hang {A} (m : res string A) : m <> Hang -> asserted m <> Hang.
Proof. by destruct m. Qed.

Lemma or_rule_no_hang {A} c (m : res ErrorCode A) : m <> Hang -> or_rule c m <> Hang.
Proof. by destruct m. Qed.

Lemma wrapped_no_hang {A} (m : res error A) : m <> Hang -> wrapped m <> Hang.
Proof. by destruct m. Qed.

Lemma unwrapped_no_hang {A} (m : res error A) : m <> Hang -> unwrapped m <> Hang.
Proof. by destruct m. Qed.

Lemma not_standard_no_hang {A} (m : res pool_error A) : m <> Hang -> not_standard m <> Hang.
Proof. destruct m; simpl; [done | by case_match | done | done]. Qed.

#[export] Hint Resolve asserted_no_hang or_rule_no_hang wrapped_no_hang unwrapped_no_hang not_standard_no_hang : no_hang.

(** * Reading the outputs of a view *)
Lemma decompressScript_no_hang s : decompressScript s <> Hang.
Proof. unfold decompressScript, make_bytes, copy_at. no_hang. Qed.

#[export] Hint Resolve decompressScript_no_hang : no_hang.

Lemma maybeDecompress_no_hang o : maybeDecompress o <> Hang.
Proof. unfold maybeDecompress, decompressed. no_hang. Qed.

#[export] Hint Resolve maybeDecompress_no_hang : no_hang.

Lemma AmountByIndex_no_hang e i : AmountByIndex e i <> Hang.
Proof. unfold AmountByIndex. no_hang. Qed.

Lemma PkScriptByIndex_no_hang e i : PkScriptByIndex e i <> Hang.
Proof. unfold PkScriptByIndex. no_hang. Qed.

#[export] Hint Resolve AmountByIndex_no_hang PkScriptByIndex_no_hang : no_hang.

(** * Reading scripts *)
Lemma ParseScript_no_hang s : ParseScript s <> Hang.
Proof. unfold ParseScript. no_hang. Qed.

Lemma key_ids_loop_no_hang pops todo : forall i, key_ids_loop pops i todo <> Hang.
Proof. induction todo; intros i; cbn [key_ids_loop]; unfold asInt32, makeScriptNum, checkMinimalDataEncoding; no_hang. Qed.

#[export] Hint Resolve ParseScript_no_hang key_ids_loop_no_hang : no_hang.

Lemma ExtractKeyIDs_no_hang pops : ExtractKeyIDs pops <> Hang.
Proof. unfold ExtractKeyIDs. no_hang. Qed.

Lemma ExtractAdminOpData_no_hang {E} pops : @ExtractAdminOpData E pops <> Hang.
Proof. unfold ExtractAdminOpData, KeyIDFromAddressBuffer. no_hang. Qed.

#[export] Hint Resolve ExtractKeyIDs_no_hang ExtractAdminOpData_no_hang : no_hang.

(** * The rules *)
Lemma check_outs_no_hang tx thread outs : forall i total, check_outs tx thread i total outs <> Hang.
Proof. induction outs; intros i total; cbn [check_outs]; unfold check_admin_out; no_hang. Qed.

#[export] Hint Resolve check_outs_no_hang : no_hang.

Lemma CheckTransactionSanity_no_hang tx : CheckTransactionSanity tx <> Hang.
Proof. unfold CheckTransactionSanity. no_hang. Qed.

Lemma check_thread_in_no_hang tx o i n s : check_thread_in tx o i n s <> Hang.
Proof. unfold check_thread_in. no_hang. Qed.

#[export] Hint Resolve check_thread_in_no_hang : no_hang.

Lemma check_inputs_no_hang tx o h params ins : forall view ain i total, check_inputs tx o h params view ain i total ins <> Hang.
Proof. induction ins; intros view ain i total; cbn [check_inputs]; no_hang. Qed.

#[export] Hint Resolve check_inputs_no_hang : no_hang.

Lemma CheckTransactionInputs_no_hang tx h view params : CheckTransactionInputs tx h view params <> Hang.
Proof. unfold CheckTransactionInputs. no_hang. Qed.

Lemma p2sh_sigops_no_hang ins : forall view n, p2sh_sigops view n ins <> Hang.
Proof. induction ins; intros view n; cbn [p2sh_sigops]; no_hang. Qed.

#[export] Hint Resolve p2sh_sigops_no_hang : no_hang.

Lemma CountP2SHSigOps_no_hang tx cb view : CountP2SHSigOps tx cb view <> Hang.
Proof. unfold CountP2SHSigOps. no_hang. Qed.

Lemma check_prova_outs_no_hang kv outs : forall b, check_prova_outs kv b outs <> Hang.
Proof. induction outs; intros b; cbn [check_prova_outs]; unfold CheckProvaOutput; no_hang. Qed.

Lemma check_issue_outs_no_hang kv outs : check_issue_outs kv outs <> Hang.
Proof. induction outs; cbn [check_issue_outs]; unfold CheckProvaOutput; no_hang. Qed.

Lemma Pos_no_hang {E} set key : @Pos E set key <> Hang.
Proof. unfold Pos. generalize 0 as p. induction set; intros p; cbn [Pos_from]; no_hang. Qed.

#[export] Hint Resolve Pos_no_hang : no_hang.

Lemma check_set_op_no_hang kv params add t k : check_set_op kv params add t k <> Hang.
Proof. unfold check_set_op. no_hang. Qed.

#[export] Hint Resolve check_set_op_no_hang : no_hang.

Lemma check_admin_ops_no_hang kv params outs : forall last revoked, check_admin_ops kv params last revoked outs <> Hang.
Proof. induction outs; intros last revoked; cbn [check_admin_ops]; no_hang. Qed.

#[export] Hint Resolve check_prova_outs_no_hang check_issue_outs_no_hang check_admin_ops_no_hang : no_hang.

Lemma CheckTransactionOutputs_no_hang tx kv params : CheckTransactionOutputs tx kv params <> Hang.
Proof. unfold CheckTransactionOutputs. no_hang. Qed.

(** * The policy *)
Lemma checkPkScriptStandard_no_hang c : checkPkScriptStandard c <> Hang.
Proof. by destruct c. Qed.

#[export] Hint Resolve checkPkScriptStandard_no_hang : no_hang.

Lemma outputs_standard_no_hang cb thread fee outs : forall i n, outputs_standard cb thread fee i n outs <> Hang.
Proof. induction outs; intros i n; cbn [outputs_standard]; no_hang. Qed.

#[export] Hint Resolve outputs_standard_no_hang : no_hang.

Lemma checkTransactionStandard_no_hang tx h t fee version : checkTransactionStandard tx h t fee version <> Hang.
Proof. unfold checkTransactionStandard. no_hang. Qed.

Lemma inputs_standard_no_hang s o ins : forall ain view, inputs_standard s o ain view ins <> Hang.
Proof. induction ins; intros ain view; cbn [inputs_standard]; no_hang. Qed.

#[export] Hint Resolve inputs_standard_no_hang : no_hang.

Lemma checkInputsStandard_no_hang tx view : checkInputsStandard tx view <> Hang.
Proof. unfold checkInputsStandard. no_hang. Qed.

Lemma input_ages_no_hang h ins : forall view total, input_ages view h total ins <> Hang.
Proof. induction ins; intros view total; cbn [input_ages]; no_hang. Qed.

#[export] Hint Resolve input_ages_no_hang : no_hang.

Lemma CalcPriority_no_hang tx view h : CalcPriority tx view h <> Hang.
Proof. unfold CalcPriority, calcInputValueAge. no_hang. Qed.

#[export] Hint Resolve CheckTransactionSanity_no_hang CheckTransactionInputs_no_hang CountP2SHSigOps_no_hang CheckTransactionOutputs_no_hang
  checkTransactionStandard_no_hang checkInputsStandard_no_hang CalcPriority_no_hang : no_hang.

End PolicySpec.
