(* ===== verification/Mempool.v ===== *)
(** The memory pool: [src/mempool/mempool.go].

    The functions of the configuration that read the chain are an environment, an
    argument of the operations, since the chain changes between two calls.  The order
    in which a map is gone over is any function of the pool and the map; the clock is
    any sequence of times.  The address index, which is optional, the text of errors
    and the locks are not modelled: an operation is one step.  An operation takes the
    pool to a pool and a result; an error leaves the changes made before it. *)
From Stdlib Require Import SpecFloat.
From stdpp Require Import gmap.
From S2P Require Import Prelude PubKey Wire Crypto Script Standard SigCache Engine Utxo GoTime Params KeyView Validate ScriptVal Policy.
Import btcec wire Crypto Script Standard Engine Utxo GoTime Params KeyView Validate ScriptVal Policy.
#[local] Open Scope Z_scope.

Module Mempool.

#[global] Instance OutPoint_countable : Countable OutPoint.
Proof. refine (inj_countable' (fun o => (Hash o, Index o)) (fun x => mkOutPoint x.1 x.2) _). by intros []. Defined.

(** * State *)
Record TxDesc := mkTxDesc { desc_Tx : Tx; Added : Time; desc_Height : Z; Fee : Z; FeePerKB : Z; StartingPriority : float64 }.

Record orphanTx := mkOrphanTx { otx_tx : Tx; otx_tag : Z; expiration : Time }.

(** [ticks] counts the readings of the clock. *)
Record TxPool := mkTxPool {
  pool : gmap bytes TxDesc;
  orphans : gmap bytes orphanTx;
  orphansByPrev : gmap OutPoint (gmap bytes Tx);
  outpoints : gmap OutPoint Tx;
  pennyTotal : float64;
  lastPennyUnix : Z;
  nextExpireScan : Time;
  lastUpdated : Z;
  hashCache : SigCache.HashCache;
  ticks : nat
}.

Definition set_pool (mp : TxPool) x := mkTxPool x (orphans mp) (orphansByPrev mp) (outpoints mp) (pennyTotal mp) (lastPennyUnix mp) (nextExpireScan mp) (lastUpdated mp) (hashCache mp) (ticks mp).
Definition set_orphans (mp : TxPool) x := mkTxPool (pool mp) x (orphansByPrev mp) (outpoints mp) (pennyTotal mp) (lastPennyUnix mp) (nextExpireScan mp) (lastUpdated mp) (hashCache mp) (ticks mp).
Definition set_orphansByPrev (mp : TxPool) x := mkTxPool (pool mp) (orphans mp) x (outpoints mp) (pennyTotal mp) (lastPennyUnix mp) (nextExpireScan mp) (lastUpdated mp) (hashCache mp) (ticks mp).
Definition set_outpoints (mp : TxPool) x := mkTxPool (pool mp) (orphans mp) (orphansByPrev mp) x (pennyTotal mp) (lastPennyUnix mp) (nextExpireScan mp) (lastUpdated mp) (hashCache mp) (ticks mp).
Definition set_penny (mp : TxPool) x y := mkTxPool (pool mp) (orphans mp) (orphansByPrev mp) (outpoints mp) x y (nextExpireScan mp) (lastUpdated mp) (hashCache mp) (ticks mp).
Definition set_nextExpireScan (mp : TxPool) x := mkTxPool (pool mp) (orphans mp) (orphansByPrev mp) (outpoints mp) (pennyTotal mp) (lastPennyUnix mp) x (lastUpdated mp) (hashCache mp) (ticks mp).
Definition set_lastUpdated (mp : TxPool) x := mkTxPool (pool mp) (orphans mp) (orphansByPrev mp) (outpoints mp) (pennyTotal mp) (lastPennyUnix mp) (nextExpireScan mp) x (hashCache mp) (ticks mp).
Definition set_hashCache (mp : TxPool) x := mkTxPool (pool mp) (orphans mp) (orphansByPrev mp) (outpoints mp) (pennyTotal mp) (lastPennyUnix mp) (nextExpireScan mp) (lastUpdated mp) x (ticks mp).
Definition set_ticks (mp : TxPool) x := mkTxPool (pool mp) (orphans mp) (orphansByPrev mp) (outpoints mp) (pennyTotal mp) (lastPennyUnix mp) (nextExpireScan mp) (lastUpdated mp) (hashCache mp) x.

(** The policy of the pool. *)
Record PoolPolicy := mkPoolPolicy {
  MaxTxVersion : Z; DisableRelayPriority : bool; AcceptNonStd : bool; FreeTxRelayLimit : float64;
  MaxOrphanTxs : Z; MaxOrphanTxSize : Z; MaxSigOpsPerTx : Z; MinRelayTxFee : Z }.

(** What the pool reads of the chain, and the result of one run of the scripts, which
    can panic or run forever. *)
Record Env := mkEnv {
  FetchUtxoView : MsgTx -> res error UtxoViewpoint;
  ThreadTips : gmap Z OutPoint;
  LastKeyID : Z;
  TotalSupply : Z;
  GetKeyIDs : KeyIdMap;
  GetAdminKeySets : gmap KeySetType PublicKeySet;
  BestHeight : Z;
  MedianTimePast : Time;
  CalcSequenceLock : MsgTx -> UtxoViewpoint -> res error SequenceLock;
  run_scripts : txValidator -> list txValidateItem -> res error unit
}.

(** What is outside of the program: the clock, the order of maps, and [math.Pow]. *)
Class Runtime := {
  clock : nat -> Time;
  range : forall {A}, TxPool -> gmap bytes A -> list (bytes * A);
  Pow : float64 -> float64 -> float64;
  range_perm : forall {A} mp (m : gmap bytes A), range mp m ≡ₚ map_to_list m
}.

(** * Operations with state *)
Definition M (A : Type) : Type := TxPool -> TxPool * res pool_error A.

#[global] Instance M_ret : MRet M := fun A a mp => (mp, Ok a).
#[global] Instance M_bind : MBind M := fun A B k m mp =>
  match m mp with
  | (mp, Ok a) => k a mp
  | (mp, Err e) => (mp, Err e)
  | (mp, Panic) => (mp, Panic)
  | (mp, Hang) => (mp, Hang)
  end.

Definition lift {A} (r : res pool_error A) : M A := fun mp => (mp, r).
Definition gets {A} (f : TxPool -> A) : M A := fun mp => (mp, Ok (f mp)).
Definition modify (f : TxPool -> TxPool) : M unit := fun mp => (f mp, Ok tt).

Definition TxHash (tx : Tx) : bytes := SigCache.TxHash (msgTx tx).
Definition TxIns (tx : Tx) : list TxIn := tx_TxIn (msgTx tx).
Definition TxOuts (tx : Tx) : list TxOut := tx_TxOut (msgTx tx).

Definition orphanTTL : Z := 15 * 60.
Definition orphanExpireScanInterval : Z := 5 * 60.
Definition DefaultBlockPrioritySize : Z := 50000.

(** [Time.Add] of whole seconds. *)
Definition time_Add (t : Time) (d : Z) : Time := mkTime (i64 (sec t + d)) (nsec t).

Section mempool.
Context `{Primitives} `{Runtime}.
Context (chainParams : Params) (policy : PoolPolicy).

Definition time_Now : M Time := fun mp => (set_ticks mp (S (ticks mp)), Ok (clock (ticks mp))).

(** * Orphans *)

(** The references of an orphan are taken out of the index. *)
Fixpoint unindex (txHash : bytes) (ins : list TxIn) (idx : gmap OutPoint (gmap bytes Tx)) : gmap OutPoint (gmap bytes Tx) :=
  match ins with
  | [] => idx
  | txIn :: rest =>
      let op := PreviousOutPoint txIn in
      unindex txHash rest
        match idx !! op with
        | Some m => let m := delete txHash m in if bool_decide (m = ∅) then delete op idx else <[op := m]> idx
        | None => idx
        end
  end.

(** Going over the orphans that spend an output: those removed before they are
    reached are not seen. *)
Fixpoint each_redeemer (f : Tx -> M unit) (prevOut : OutPoint) (l : list (bytes * Tx)) : M unit :=
  match l with
  | [] => mret tt
  | (h, tx) :: l =>
      here ← gets (fun mp => orphansByPrev mp !! prevOut ≫= (.!! h));
      _ ← (match here with Some _ => f tx | None => mret tt end);
      each_redeemer f prevOut l
  end.

Definition redeemers (f : Tx -> M unit) (prevOut : OutPoint) : M unit := fun mp =>
  each_redeemer f prevOut (range mp (default ∅ (orphansByPrev mp !! prevOut))) mp.

Fixpoint each_output (f : OutPoint -> M unit) (txHash : bytes) (txOutIdx : Z) (outs : list TxOut) : M unit :=
  match outs with
  | [] => mret tt
  | _ :: rest => _ ← f (mkOutPoint txHash (u32 txOutIdx)); each_output f txHash (txOutIdx + 1) rest
  end.

Fixpoint removeOrphan_fuel (fuel : nat) (tx : Tx) (removeRedeemers : bool) : M unit :=
  match fuel with
  | O => lift Hang
  | S fuel =>
      let txHash := TxHash tx in
      found ← gets (fun mp => orphans mp !! txHash);
      match found with
      | None => mret tt
      | Some otx =>
          _ ← modify (fun mp => set_orphansByPrev mp (unindex txHash (TxIns (otx_tx otx)) (orphansByPrev mp)));
          _ ← (if removeRedeemers
               then each_output (redeemers (fun orphan => removeOrphan_fuel fuel orphan true)) txHash 0 (TxOuts tx)
               else mret tt);
          modify (fun mp => set_orphans mp (delete txHash (orphans mp)))
      end
  end.

(** The calls are nested at most as deep as there are orphans. *)
Definition removeOrphan (tx : Tx) (removeRedeemers : bool) : M unit := fun mp =>
  removeOrphan_fuel (S (S (size (orphans mp)))) tx removeRedeemers mp.

Definition RemoveOrphan (tx : Tx) : M unit := removeOrphan tx false.

(** Going over the orphans, with those removed before they are reached left out. *)
Fixpoint each_orphan {A} (f : A -> orphanTx -> M A) (a : A) (l : list (bytes * orphanTx)) : M A :=
  match l with
  | [] => mret a
  | (h, otx) :: l =>
      here ← gets (fun mp => orphans mp !! h);
      a ← (match here with Some _ => f a otx | None => mret a end);
      each_orphan f a l
  end.

Definition RemoveOrphansByTag (tag : Z) : M Z := fun mp =>
  each_orphan (fun numEvicted otx =>
    if otx_tag otx =? tag then _ ← removeOrphan (otx_tx otx) true; mret (u64 (numEvicted + 1)) else mret numEvicted)
    0 (range mp (orphans mp)) mp.

Definition expire_orphans (now : Time) : M unit := fun mp =>
  each_orphan (fun _ otx => if After now (expiration otx) then removeOrphan (otx_tx otx) true else mret tt)
    tt (range mp (orphans mp)) mp.

(** One orphan, the first that the range statement comes to. *)
Definition evict_orphan : M unit := fun mp =>
  match range mp (orphans mp) with
  | [] => (mp, Ok tt)
  | (_, otx) :: _ => removeOrphan (otx_tx otx) false mp
  end.

Definition limitNumOrphans : M unit :=
  now ← time_Now;
  next ← gets nextExpireScan;
  _ ← (if After now next then
         _ ← expire_orphans now;
         modify (fun mp => set_nextExpireScan mp (time_Add now orphanExpireScanInterval))
       else mret tt);
  n ← gets (fun mp => Z.of_nat (size (orphans mp)));
  if n + 1 <=? MaxOrphanTxs policy then mret tt else evict_orphan.

Fixpoint index_orphan (tx : Tx) (ins : list TxIn) (idx : gmap OutPoint (gmap bytes Tx)) : gmap OutPoint (gmap bytes Tx) :=
  match ins with
  | [] => idx
  | txIn :: rest =>
      let op := PreviousOutPoint txIn in
      index_orphan tx rest (<[op := <[TxHash tx := tx]> (default ∅ (idx !! op))]> idx)
  end.

Definition addOrphan (tx : Tx) (tag : Z) : M unit :=
  if MaxOrphanTxs policy <=? 0 then mret tt
  else
    _ ← limitNumOrphans;
    now ← time_Now;
    _ ← modify (fun mp => set_orphans mp (<[TxHash tx := mkOrphanTx tx tag (time_Add now orphanTTL)]> (orphans mp)));
    modify (fun mp => set_orphansByPrev mp (index_orphan tx (TxIns tx) (orphansByPrev mp))).

Definition maybeAddOrphan (tx : Tx) (tag : Z) : M unit :=
  if MaxOrphanTxSize policy <? SerializeSize (msgTx tx) then lift (txRuleError RejectNonstandard)
  else addOrphan tx tag.

Fixpoint removeOrphanDoubleSpends_ins (ins : list TxIn) : M unit :=
  match ins with
  | [] => mret tt
  | txIn :: rest =>
      _ ← redeemers (fun orphan => removeOrphan orphan true) (PreviousOutPoint txIn);
      removeOrphanDoubleSpends_ins rest
  end.

Definition removeOrphanDoubleSpends (tx : Tx) : M unit := removeOrphanDoubleSpends_ins (TxIns tx).

(** * The main pool *)
Definition isTransactionInPool (mp : TxPool) (hash : bytes) : bool := bool_decide (is_Some (pool mp !! hash)).
Definition isOrphanInPool (mp : TxPool) (hash : bytes) : bool := bool_decide (is_Some (orphans mp !! hash)).
Definition haveTransaction (mp : TxPool) (hash : bytes) : bool := isTransactionInPool mp hash || isOrphanInPool mp hash.

Definition unspend_all (ins : list TxIn) (ops : gmap OutPoint Tx) : gmap OutPoint Tx :=
  fold_left (fun ops txIn => delete (PreviousOutPoint txIn) ops) ins ops.

(** The transaction itself, when it is in the pool. *)
Definition take_out (txHash : bytes) : M unit :=
  found ← gets (fun mp => pool mp !! txHash);
  match found with
  | None => mret tt
  | Some txDesc =>
      _ ← modify (fun mp => set_outpoints mp (unspend_all (TxIns (desc_Tx txDesc)) (outpoints mp)));
      _ ← modify (fun mp => set_pool mp (delete txHash (pool mp)));
      now ← time_Now;
      modify (fun mp => set_lastUpdated mp (Unix now))
  end.

Fixpoint removeTransaction_fuel (fuel : nat) (tx : Tx) (removeRedeemers : bool) : M unit :=
  match fuel with
  | O => lift Hang
  | S fuel =>
      let txHash := TxHash tx in
      _ ← (if removeRedeemers then
             each_output (fun prevOut =>
               redeemer ← gets (fun mp => outpoints mp !! prevOut);
               match redeemer with
               | Some txRedeemer => removeTransaction_fuel fuel txRedeemer true
               | None => mret tt
               end) txHash 0 (TxOuts tx)
           else mret tt);
      take_out txHash
  end.

(** The calls are nested at most as deep as there are transactions, unless there is a
    cycle of spends, in which case the code does not return. *)
Definition removeTransaction (tx : Tx) (removeRedeemers : bool) : M unit := fun mp =>
  removeTransaction_fuel (S (S (size (pool mp)))) tx removeRedeemers mp.

Definition RemoveTransaction (tx : Tx) (removeRedeemers : bool) : M unit := removeTransaction tx removeRedeemers.

Fixpoint remove_conflicts (tx : Tx) (ins : list TxIn) : M unit :=
  match ins with
  | [] => mret tt
  | txIn :: rest =>
      redeemer ← gets (fun mp => outpoints mp !! PreviousOutPoint txIn);
      _ ← (match redeemer with
           | Some txRedeemer => if bool_decide (TxHash txRedeemer = TxHash tx) then mret tt else removeTransaction txRedeemer true
           | None => mret tt
           end);
      remove_conflicts tx rest
  end.

Definition RemoveDoubleSpends (tx : Tx) : M unit := remove_conflicts tx (TxIns tx).

Definition spend_all (tx : Tx) (ins : list TxIn) (ops : gmap OutPoint Tx) : gmap OutPoint Tx :=
  fold_left (fun ops txIn => <[PreviousOutPoint txIn := tx]> ops) ins ops.

Definition addTransaction (utxoView : UtxoViewpoint) (tx : Tx) (height fee : Z) : M TxDesc :=
  added ← time_Now;
  '(priority, _) ← lift (unwrapped (asserted (CalcPriority (msgTx tx) utxoView height)));
  let txD := mkTxDesc tx added height fee (Z.quot (i64 (fee * 1000)) (SerializeSize (msgTx tx))) priority in
  _ ← modify (fun mp => set_pool mp (<[TxHash tx := txD]> (pool mp)));
  _ ← modify (fun mp => set_outpoints mp (spend_all tx (TxIns tx) (outpoints mp)));
  now ← time_Now;
  _ ← modify (fun mp => set_lastUpdated mp (Unix now));
  mret txD.

Definition checkPoolDoubleSpend (mp : TxPool) (tx : Tx) : res pool_error unit :=
  if existsb (fun txIn => bool_decide (is_Some (outpoints mp !! PreviousOutPoint txIn))) (TxIns tx)
  then txRuleError RejectDuplicate else Ok tt.

(** A missing or fully spent entry. *)
Definition absent (entry : option UtxoEntry) : bool := match entry with Some e => IsFullySpent e | None => true end.

Fixpoint add_pool_outs (mp : TxPool) (utxoView : UtxoViewpoint) (l : list (bytes * option UtxoEntry)) : UtxoViewpoint :=
  match l with
  | [] => utxoView
  | (originHash, entry) :: l =>
      add_pool_outs mp
        (if negb (absent entry) then utxoView
         else match pool mp !! originHash with
              | Some poolTxDesc => AddTxOuts utxoView (msgTx (desc_Tx poolTxDesc)) UnminedHeight
              | None => utxoView
              end) l
  end.

Definition fetchInputUtxos (env : Env) (mp : TxPool) (tx : Tx) : res error UtxoViewpoint :=
  utxoView ← FetchUtxoView env (msgTx tx);
  Ok (add_pool_outs mp utxoView (range mp (entries utxoView))).

Definition FetchTransaction (mp : TxPool) (txHash : bytes) : option Tx := desc_Tx <$> pool mp !! txHash.

(** * Accepting a transaction *)
Definition env_keyView (env : Env) : res error KeyViewpoint :=
  let v := NewKeyViewpoint in
  let v := SetThreadTips v (ThreadTips env) in
  let v := SetTotalSupply v (TotalSupply env) in
  let v := SetLastKeyID v (LastKeyID env) in
  v ← asserted (SetKeyIDs v (Some (GetKeyIDs env)));
  Ok (SetKeys v (Some (GetAdminKeySets env))).

(** The rate limit of transactions with a low fee. *)
Definition decay (n : Z) : float64 := Pow (fdiv (of_int 599) (of_int 600)) (of_int n).

Definition limit_rate (serializedSize : Z) : M unit :=
  now ← time_Now;
  let nowUnix := Unix now in
  _ ← modify (fun mp => set_penny mp (fmul (pennyTotal mp) (decay (i64 (nowUnix - lastPennyUnix mp)))) nowUnix);
  total ← gets pennyTotal;
  if SFleb (fmul (fmul (FreeTxRelayLimit policy) (of_int 10)) (of_int 1000)) total
  then lift (txRuleError RejectInsufficientFee)
  else modify (fun mp => set_penny mp (fadd (pennyTotal mp) (of_int serializedSize)) (lastPennyUnix mp)).

(** The checks up to the missing parents: the view of the inputs, without the
    transaction itself. *)
Definition accept_inputs (env : Env) (tx : Tx) (rejectDupOrphans : bool) (mp : TxPool) : res pool_error (UtxoViewpoint * KeyViewpoint) :=
  let txHash := TxHash tx in
  if isTransactionInPool mp txHash || (rejectDupOrphans && isOrphanInPool mp txHash) then txRuleError RejectDuplicate
  else
    _ ← wrapped (CheckTransactionSanity (msgTx tx));
    if IsCoinBase (msgTx tx) then txRuleError RejectInvalid
    else if 0x7fffffff <? tx_LockTime (msgTx tx) then txRuleError RejectNonstandard
    else
      let nextBlockHeight := u32 (BestHeight env + 1) in
      _ ← (if negb (AcceptNonStd policy)
           then not_standard (checkTransactionStandard tx nextBlockHeight (MedianTimePast env) (MinRelayTxFee policy) (MaxTxVersion policy))
           else Ok tt);
      _ ← checkPoolDoubleSpend mp tx;
      utxoView ← wrapped (fetchInputUtxos env mp tx);
      keyView ← unwrapped (env_keyView env);
      if match LookupEntry utxoView txHash with Some e => negb (IsFullySpent e) | None => false end
      then txRuleError RejectDuplicate
      else Ok (mkUtxoViewpoint (delete txHash (entries utxoView)) (bestHash utxoView), keyView).

(** The rules for the inputs and outputs; the fee and the view. *)
Definition accept_rules (env : Env) (tx : Tx) (utxoView : UtxoViewpoint) (keyView : KeyViewpoint) : res pool_error (Z * UtxoViewpoint) :=
  let m := msgTx tx in
  let nextBlockHeight := u32 (BestHeight env + 1) in
  sequenceLock ← wrapped (CalcSequenceLock env m utxoView);
  if negb (SequenceLockActive sequenceLock (i32 nextBlockHeight) (Unix (MedianTimePast env))) then txRuleError RejectNonstandard
  else
    '(txFee, utxoView) ← wrapped (CheckTransactionInputs m nextBlockHeight utxoView chainParams);
    _ ← unwrapped (CheckTransactionOutputs m keyView chainParams);
    utxoView ← (if negb (AcceptNonStd policy) then not_standard (checkInputsStandard m utxoView) else Ok utxoView);
    '(numSigOps, utxoView) ← wrapped (CountP2SHSigOps m false utxoView);
    let numSigOps := i64 (numSigOps + CountSigOps m) in
    if MaxSigOpsPerTx policy <? numSigOps then txRuleError RejectNonstandard else Ok (txFee, utxoView).

Definition maybeAcceptTransaction (env : Env) (tx : Tx) (isNew rateLimit rejectDupOrphans : bool) : M (list bytes * option TxDesc) :=
  checked ← gets (accept_inputs env tx rejectDupOrphans);
  '(utxoView, keyView) ← lift checked;
  missingParents ← gets (fun mp => (filter (fun e => absent e.2) (range mp (entries utxoView))).*1);
  if 0 <? len missingParents then mret (missingParents, None)
  else
    '(txFee, utxoView) ← lift (accept_rules env tx utxoView keyView);
    let nextBlockHeight := u32 (BestHeight env + 1) in
    let serializedSize := SerializeSize (msgTx tx) in
    let minFee := calcMinRequiredTxRelayFee serializedSize (MinRelayTxFee policy) in
    if (DefaultBlockPrioritySize - 1000 <=? serializedSize) && (txFee <? minFee) then lift (txRuleError RejectInsufficientFee)
    else
      utxoView ← (if isNew && negb (DisableRelayPriority policy) && (txFee <? minFee) then
                    '(currentPriority, utxoView) ← lift (unwrapped (asserted (CalcPriority (msgTx tx) utxoView nextBlockHeight)));
                    if SFleb currentPriority MinHighPriority then lift (txRuleError RejectInsufficientFee) else mret utxoView
                  else mret utxoView);
      _ ← (if rateLimit && (txFee <? minFee) then limit_rate serializedSize else mret tt);
      hc ← gets hashCache;
      let '(hc, cachedHashes) := cached_hashes hc (msgTx tx) in
      _ ← modify (fun mp => set_hashCache mp hc);
      _ ← lift (wrapped (run_scripts env (mkTxValidator utxoView keyView StandardVerifyFlags) (input_items (msgTx tx) cachedHashes 0 (TxIns tx))));
      txD ← addTransaction utxoView tx (BestHeight env) txFee;
      mret ([], Some txD).

Definition MaybeAcceptTransaction (env : Env) (tx : Tx) (isNew rateLimit : bool) : M (list bytes * option TxDesc) :=
  maybeAcceptTransaction env tx isNew rateLimit true.

(** * Orphans that are no longer orphans *)

(** A call whose error is looked at, as the code does where it does not return it. *)
Definition attempt {A} (m : M A) : M (pool_error + A) := fun mp =>
  match m mp with
  | (mp, Ok a) => (mp, Ok (inr a))
  | (mp, Err e) => (mp, Ok (inl e))
  | (mp, Panic) => (mp, Panic)
  | (mp, Hang) => (mp, Hang)
  end.

(** The orphans that spend an output, until one is accepted or turns out invalid. *)
Fixpoint try_orphans (env : Env) (l : list (bytes * Tx)) : M (option TxDesc) :=
  match l with
  | [] => mret None
  | (_, tx) :: l =>
      outcome ← attempt (maybeAcceptTransaction env tx true true false);
      match outcome with
      | inl _ => _ ← removeOrphan tx true; mret None
      | inr (missing, txD) =>
          if 0 <? len missing then try_orphans env l
          else _ ← removeOrphan tx false; mret txD
      end
  end.

Fixpoint process_outputs (env : Env) (txHash : bytes) (txOutIdx : Z) (outs : list TxOut) : M (list TxDesc) :=
  match outs with
  | [] => mret []
  | _ :: rest =>
      let prevOut := mkOutPoint txHash (u32 txOutIdx) in
      found ← gets (fun mp => range mp <$> orphansByPrev mp !! prevOut);
      accepted ← (match found with Some l => try_orphans env l | None => mret None end);
      more ← process_outputs env txHash (txOutIdx + 1) rest;
      mret (match accepted with Some txD => txD :: more | None => more end)
  end.

(** The list of transactions to process, the first one first. *)
Fixpoint process_list (env : Env) (fuel : nat) (processList : list Tx) : M (list TxDesc) :=
  match processList, fuel with
  | [], _ => mret []
  | _ :: _, O => lift Hang
  | processItem :: rest, S fuel =>
      accepted ← process_outputs env (TxHash processItem) 0 (TxOuts processItem);
      more ← process_list env fuel (rest ++ (desc_Tx <$> accepted));
      mret (accepted ++ more)
  end.

Fixpoint remove_double_spends (accepted : list TxDesc) : M unit :=
  match accepted with
  | [] => mret tt
  | txD :: rest => _ ← removeOrphanDoubleSpends (desc_Tx txD); remove_double_spends rest
  end.

(** Each transaction on the list but the first was an orphan. *)
Definition processOrphans (env : Env) (acceptedTx : Tx) : M (list TxDesc) :=
  n ← gets (fun mp => size (orphans mp));
  acceptedTxns ← process_list env (S n) [acceptedTx];
  _ ← removeOrphanDoubleSpends acceptedTx;
  _ ← remove_double_spends acceptedTxns;
  mret acceptedTxns.

Definition ProcessOrphans (env : Env) (acceptedTx : Tx) : M (list TxDesc) := processOrphans env acceptedTx.

Definition ProcessTransaction (env : Env) (tx : Tx) (allowOrphan rateLimit : bool) (tag : Z) : M (list TxDesc) :=
  '(missingParents, txD) ← maybeAcceptTransaction env tx true rateLimit true;
  if len missingParents =? 0 then
    newTxs ← processOrphans env tx;
    txD ← lift (match txD with Some txD => Ok txD | None => Panic end);
    mret (txD :: newTxs)
  else if negb allowOrphan then lift (txRuleError RejectDuplicate)
  else _ ← maybeAddOrphan tx tag; mret [].

(** * Reading *)
Definition Count (mp : TxPool) : Z := Z.of_nat (size (pool mp)).
Definition TxHashes (mp : TxPool) : list bytes := (range mp (pool mp)).*1.
Definition TxDescs (mp : TxPool) : list TxDesc := (range mp (pool mp)).*2.

Definition New (hc : SigCache.HashCache) : TxPool :=
  mkTxPool ∅ ∅ ∅ ∅ fzero 0 (time_Add (clock 0) orphanExpireScanInterval) 0 hc 1.

End mempool.
End Mempool.
