(* ===== verification/MempoolSpec.v ===== *)
(** The memory pool stays consistent.

    The index of spent outputs says which transaction of the pool spends an output, so
    that no two do, and the index of orphans lists the orphans by what they spend.  All
    operations keep this, whatever the chain, the clock and the order of maps are. *)
From stdpp Require Import gmap.
From S2P Require Import Prelude PubKey Wire Crypto Script Standard SigCache Engine Utxo GoTime Params KeyView Validate ScriptVal Policy Mempool.
Import btcec wire Crypto Script Standard Engine Utxo GoTime Params KeyView Validate ScriptVal Policy Mempool.
#[local] Open Scope Z_scope.

Module MempoolSpec.

Definition spends (tx : Tx) : list OutPoint := PreviousOutPoint <$> TxIns tx.

(** * The index of orphans *)
Definition refs (idx : gmap OutPoint (gmap bytes Tx)) (op : OutPoint) (h : bytes) : option Tx := idx !! op ≫= (.!! h).

Definition no_empty (idx : gmap OutPoint (gmap bytes Tx)) : Prop := forall op m, idx !! op = Some m -> m <> ∅.

Lemma refs_insert idx op m op' h : refs (<[op := m]> idx) op' h = if decide (op' = op) then m !! h else refs idx op' h.
Proof. unfold refs. destruct (decide (op' = op)) as [->|]; [by rewrite lookup_insert_eq | by rewrite lookup_insert_ne]. Qed.

Lemma refs_delete idx op op' h : refs (delete op idx) op' h = if decide (op' = op) then None else refs idx op' h.
Proof. unfold refs. destruct (decide (op' = op)) as [->|]; [by rewrite lookup_delete_eq | by rewrite lookup_delete_ne]. Qed.

Lemma refs_unindex h ins idx op h' :
  refs (unindex h ins idx) op h' = if decide (h' = h /\ op ∈ PreviousOutPoint <$> ins) then None else refs idx op h'.
Proof.
  revert idx; induction ins as [|txIn ins IH]; intros idx; simpl.
  { rewrite decide_False; [done|]. set_solver. }
  rewrite IH. set (o := PreviousOutPoint txIn). clear IH.
  assert (refs match idx !! o with Some m => if bool_decide (delete h m = ∅) then delete o idx else <[o := delete h m]> idx | None => idx end op h' =
    if decide (h' = h /\ op = o) then None else refs idx op h') as ->.
  { destruct (idx !! o) as [m|] eqn:Eo.
    - transitivity (if decide (op = o) then delete h m !! h' else refs idx op h').
      { case_bool_decide as Em; [|apply refs_insert]. rewrite refs_delete. case_decide; [by rewrite Em | done]. }
      destruct (decide (op = o)) as [->|]; [|by rewrite decide_False by naive_solver].
      destruct (decide (h' = h)) as [->|]; [by rewrite lookup_delete_eq, decide_True|].
      rewrite lookup_delete_ne, decide_False by naive_solver. unfold refs. by rewrite Eo.
    - case_decide as Hc; [|done]. destruct Hc as [_ ->]. unfold refs. by rewrite Eo. }
  repeat case_decide; set_solver.
Qed.

Lemma unindex_nonempty h ins idx : no_empty idx -> no_empty (unindex h ins idx).
Proof.
  revert idx; induction ins as [|txIn ins IH]; intros idx Hn; simpl; [done|]. apply IH.
  destruct (idx !! PreviousOutPoint txIn) as [m|]; [|done]. case_bool_decide as Hm; intros op m' Ho.
  - apply lookup_delete_Some in Ho as [_ Ho]. by eapply Hn.
  - apply lookup_insert_Some in Ho as [[_ <-]|[_ Ho]]; [done | by eapply Hn].
Qed.

Lemma refs_index tx ins idx op h :
  refs (index_orphan tx ins idx) op h = if decide (h = TxHash tx /\ op ∈ PreviousOutPoint <$> ins) then Some tx else refs idx op h.
Proof.
  revert idx; induction ins as [|txIn ins IH]; intros idx; simpl.
  { rewrite decide_False; [done|]. set_solver. }
  rewrite IH, refs_insert. destruct (decide (op = PreviousOutPoint txIn)) as [->|].
  - destruct (decide (h = TxHash tx)) as [->|].
    + rewrite lookup_insert_eq. by repeat case_decide; set_solver.
    + rewrite lookup_insert_ne by done. rewrite !decide_False by naive_solver. unfold refs. by destruct (idx !! _).
  - repeat case_decide; set_solver.
Qed.

Lemma index_nonempty tx ins idx : no_empty idx -> no_empty (index_orphan tx ins idx).
Proof.
  revert idx; induction ins as [|txIn ins IH]; intros idx Hn; simpl; [done|]. apply IH.
  intros op m Ho. apply lookup_insert_Some in Ho as [[_ <-]|[_ Ho]]; [apply insert_non_empty | by eapply Hn].
Qed.

(** The orphans and their index agree, but for those [X] that are being removed. *)
Record orphans_ok (X : gset bytes) (mp : TxPool) : Prop := {
  oo_hash : forall h o, orphans mp !! h = Some o -> TxHash (otx_tx o) = h;
  oo_refs : forall op h tx, refs (orphansByPrev mp) op h = Some tx <->
    h ∉ X /\ exists o, orphans mp !! h = Some o /\ otx_tx o = tx /\ op ∈ spends tx;
  oo_nonempty : no_empty (orphansByPrev mp);
  oo_present : X ⊆ dom (orphans mp)
}.

(** Only orphans were removed, and none of [X]. *)
Record shrunk (X : gset bytes) (mp mp' : TxPool) : Prop := {
  sh_sub : orphans mp' ⊆ orphans mp;
  sh_keep : forall h, h ∈ X -> orphans mp' !! h = orphans mp !! h;
  sh_pool : pool mp' = pool mp;
  sh_outpoints : outpoints mp' = outpoints mp
}.

#[global] Instance shrunk_pre X : PreOrder (shrunk X).
Proof.
  split; [by intros mp; split|]. intros a b c [S1 K1 P1 O1] [S2 K2 P2 O2].
  split; [by etrans | | congruence..]. intros h Hh. by rewrite K2, K1.
Qed.

Lemma shrunk_mono X Y mp mp' : Y ⊆ X -> shrunk X mp mp' -> shrunk Y mp mp'.
Proof. intros HY [S K P O]. split; try done. intros h Hh. apply K. set_solver. Qed.

Lemma refs_shrunk X mp mp' op h tx : orphans_ok X mp -> orphans_ok X mp' -> shrunk X mp mp' ->
  refs (orphansByPrev mp') op h = Some tx -> refs (orphansByPrev mp) op h = Some tx.
Proof.
  intros H H' [S _ _ _] (Hx & o & Ho & Et & Hs)%(oo_refs _ _ H'). apply (oo_refs _ _ H). split; [done|].
  exists o. split_and!; [by eapply lookup_weaken | done | done].
Qed.

Section spec.
Context `{Prim : Primitives} `{Run : Runtime}.

(** Running operations one after the other. *)
Lemma run_bind {A B} (m : M A) (k : A -> M B) mp mp1 a : m mp = (mp1, Ok a) -> (m ≫= k) mp = k a mp1.
Proof. intros E. unfold mbind, M_bind. by rewrite E. Qed.

Lemma run_gets {A B} (f : TxPool -> A) (k : A -> M B) mp : (gets f ≫= k) mp = k (f mp) mp.
Proof. done. Qed.

Lemma run_modify {B} f (k : unit -> M B) mp : (modify f ≫= k) mp = k tt (f mp).
Proof. done. Qed.

(** A way to remove one orphan, used for all that redeem an output. *)
Definition removes (X : gset bytes) (N : nat) (f : Tx -> M unit) : Prop := forall mp tx,
  orphans_ok X mp -> TxHash tx ∉ X -> (size (orphans mp) <= N)%nat ->
  exists mp', f tx mp = (mp', Ok tt) /\ orphans_ok X mp' /\ shrunk X mp mp' /\ orphans mp' !! TxHash tx = None.

Lemma shrunk_size X mp mp' : shrunk X mp mp' -> (size (orphans mp') <= size (orphans mp))%nat.
Proof. intros [S _ _ _]. by apply map_subseteq_size. Qed.

Lemma each_redeemer_spec X N f op l : removes X N f -> forall mp,
  orphans_ok X mp -> (size (orphans mp) <= N)%nat -> (forall h tx, (h, tx) ∈ l -> TxHash tx = h) ->
  exists mp', each_redeemer f op l mp = (mp', Ok tt) /\ orphans_ok X mp' /\ shrunk X mp mp' /\
    forall h, h ∈ l.*1 -> refs (orphansByPrev mp') op h = None.
Proof.
  intros Hf. induction l as [|[h tx] l IH]; intros mp Hok HN Hl.
  { exists mp. split_and!; [done..|]. simpl. set_solver. }
  cbn [each_redeemer]. rewrite run_gets. fold (refs (orphansByPrev mp) op h).
  assert (exists mp1, (match refs (orphansByPrev mp) op h with Some _ => f tx | None => mret tt end) mp = (mp1, Ok tt) /\
    orphans_ok X mp1 /\ shrunk X mp mp1 /\ refs (orphansByPrev mp1) op h = None) as (mp1 & E1 & H1 & S1 & R1).
  { destruct (refs (orphansByPrev mp) op h) as [tx'|] eqn:Er; [|by exists mp].
    pose proof (Hl h tx ltac:(set_solver)) as Eh. apply (oo_refs _ _ Hok) in Er as (Hx & _).
    destruct (Hf mp tx Hok) as (mp1 & E1 & H1 & S1 & R1); [by rewrite Eh | done |]. exists mp1. split_and!; try done.
    destruct (refs (orphansByPrev mp1) op h) eqn:Er1; [|done]. apply (oo_refs _ _ H1) in Er1 as (_ & o & Ho & _). congruence. }
  rewrite (run_bind _ _ _ _ _ E1). pose proof (shrunk_size _ _ _ S1).
  destruct (IH mp1 H1 ltac:(lia)) as (mp2 & E2 & H2 & S2 & R2); [set_solver|].
  exists mp2. split_and!; [done | done | by etrans |]. intros h' [->|Hh']%elem_of_cons; [|by apply R2].
  simpl. destruct (refs (orphansByPrev mp2) op h) eqn:Er2; [|done]. pose proof (refs_shrunk X mp1 mp2 op h _ H1 H2 S2 Er2). congruence.
Qed.

Lemma range_keys {A} (mp : TxPool) (m : gmap bytes A) h x : (h, x) ∈ range mp m <-> m !! h = Some x.
Proof. rewrite range_perm. apply elem_of_map_to_list. Qed.

Lemma redeemers_spec X N f op mp : removes X N f -> orphans_ok X mp -> (size (orphans mp) <= N)%nat ->
  exists mp', redeemers f op mp = (mp', Ok tt) /\ orphans_ok X mp' /\ shrunk X mp mp' /\ orphansByPrev mp' !! op = None.
Proof.
  intros Hf Hok HN. unfold redeemers.
  assert (forall h tx, (h, tx) ∈ range mp (default ∅ (orphansByPrev mp !! op)) <-> refs (orphansByPrev mp) op h = Some tx) as Hr.
  { intros h tx. rewrite range_keys. unfold refs. by destruct (orphansByPrev mp !! op). }
  destruct (each_redeemer_spec X N f op (range mp (default ∅ (orphansByPrev mp !! op))) Hf mp Hok HN) as (mp' & E & H' & S' & R').
  { intros h tx Hin%Hr. apply (oo_refs _ _ Hok) in Hin as (_ & o & Ho & <- & _). by apply (oo_hash _ _ Hok). }
  exists mp'. split_and!; [exact E | done | done |]. destruct (orphansByPrev mp' !! op) as [m|] eqn:Em; [|done].
  exfalso. apply (oo_nonempty _ _ H' op m Em). apply map_empty. intros h. destruct (m !! h) as [tx|] eqn:Eh; [|done].
  assert (refs (orphansByPrev mp') op h = Some tx) as Er by (unfold refs; by rewrite Em).
  rewrite R' in Er; [done|]. apply list_elem_of_fmap. exists (h, tx). split; [done|]. apply Hr.
  by eapply refs_shrunk.
Qed.

Lemma each_output_spec X N f (g : OutPoint -> M unit) h i outs :
  (forall op mp, orphans_ok X mp -> (size (orphans mp) <= N)%nat -> exists mp', g op mp = (mp', Ok tt) /\ orphans_ok X mp' /\ shrunk X mp mp' /\ f op mp') ->
  forall mp, orphans_ok X mp -> (size (orphans mp) <= N)%nat ->
  exists mp', each_output g h i outs mp = (mp', Ok tt) /\ orphans_ok X mp' /\ shrunk X mp mp'.
Proof.
  intros Hg. revert i; induction outs as [|o outs IH]; intros i mp Hok HN; [by exists mp|].
  cbn [each_output]. destruct (Hg (mkOutPoint h (u32 i)) mp Hok HN) as (mp1 & E1 & H1 & S1 & _).
  rewrite (run_bind _ _ _ _ _ E1). pose proof (shrunk_size _ _ _ S1).
  destruct (IH (i + 1) mp1 H1 ltac:(lia)) as (mp2 & E2 & H2 & S2). exists mp2. split_and!; [done | done | by etrans].
Qed.

(** * Removing an orphan *)

(** The references go first. *)
Lemma unindex_ok X mp tx otx : orphans_ok X mp -> orphans mp !! TxHash tx = Some otx -> TxHash tx ∉ X ->
  orphans_ok ({[TxHash tx]} ∪ X) (set_orphansByPrev mp (unindex (TxHash tx) (TxIns (otx_tx otx)) (orphansByPrev mp))).
Proof.
  intros [Hh Hr Hne Hp] Eo HX. split; [done| |by apply unindex_nonempty|].
  - intros op h t. simpl. rewrite refs_unindex. case_decide as Hc.
    + destruct Hc as [-> _]. split; [done|]. set_solver.
    + rewrite Hr. split; intros (Hx & o & Ho & <- & Hs); (split; [|by exists o]); [|set_solver].
      intros [->%elem_of_singleton|]%elem_of_union; [|done]. apply Hc. split; [done|]. rewrite Eo in Ho. by injection Ho as <-.
  - apply union_subseteq. split; [|done]. apply singleton_subseteq_l, elem_of_dom. by exists otx.
Qed.

(** The orphan itself goes last. *)
Lemma delete_ok X mp h : orphans_ok ({[h]} ∪ X) mp -> h ∉ X -> orphans_ok X (set_orphans mp (delete h (orphans mp))).
Proof.
  intros [Hh Hr Hne Hp] HX. split; simpl; [| |done|].
  - intros h' o [_ Ho]%lookup_delete_Some. by apply Hh.
  - intros op h' t. rewrite Hr. split.
    + intros (Hx & o & Ho & Et & Hs). split; [set_solver|]. exists o. rewrite lookup_delete_ne by set_solver. done.
    + intros (Hx & o & [Hne' Ho]%lookup_delete_Some & Et & Hs). split; [set_solver | by exists o].
  - rewrite dom_delete. set_solver.
Qed.

Lemma removeOrphan_fuel_spec fuel : forall X mp tx rr,
  orphans_ok X mp -> TxHash tx ∉ X -> (size (orphans mp) < fuel + size X)%nat ->
  exists mp', removeOrphan_fuel fuel tx rr mp = (mp', Ok tt) /\ orphans_ok X mp' /\ shrunk X mp mp' /\
    orphans mp' !! TxHash tx = None /\ (rr = false -> orphans mp' = delete (TxHash tx) (orphans mp)).
Proof.
  induction fuel as [|fuel IH]; intros X mp tx rr Hok HX Hf.
  { pose proof (subseteq_size _ _ (oo_present _ _ Hok)) as Hs. rewrite size_dom in Hs. lia. }
  cbn [removeOrphan_fuel]. rewrite run_gets. destruct (orphans mp !! TxHash tx) as [otx|] eqn:Eo.
  2:{ exists mp. split_and!; [done..|]. intros _. by rewrite delete_id. }
  rewrite run_modify. set (mp1 := set_orphansByPrev mp _). set (Y := {[TxHash tx]} ∪ X).
  assert (orphans_ok Y mp1) as Hok1 by by apply unindex_ok.
  assert (size Y = S (size X)) as SY by (unfold Y; rewrite size_union, size_singleton by set_solver; lia).
  assert (exists mp2, (if rr then each_output (redeemers (fun orphan => removeOrphan_fuel fuel orphan true)) (TxHash tx) 0 (TxOuts tx) else mret tt) mp1 = (mp2, Ok tt) /\
    orphans_ok Y mp2 /\ shrunk Y mp1 mp2 /\ (rr = false -> mp2 = mp1)) as (mp2 & E2 & H2 & S2 & Hrr).
  { destruct rr; [|by exists mp1].
    destruct (each_output_spec Y (size (orphans mp)) (fun _ _ => True) (redeemers (fun orphan => removeOrphan_fuel fuel orphan true)) (TxHash tx) 0 (TxOuts tx))
      with (mp := mp1) as (mp2 & E2 & H2 & S2); [|done|done|by exists mp2].
    intros op m Hm HN. destruct (redeemers_spec Y (size (orphans mp)) (fun orphan => removeOrphan_fuel fuel orphan true) op m) as (m' & E' & H' & S' & _); [|done|done|by exists m'].
    intros m1 t Hm1 Ht HN1. destruct (IH Y m1 t true Hm1 Ht ltac:(lia)) as (m2 & ? & ? & ? & ? & _). by exists m2. }
  rewrite (run_bind _ _ _ _ _ E2). eexists. split; [reflexivity|]. split_and!.
  - by apply delete_ok.
  - destruct S2 as [Ss Sk Sp So]. split; simpl; [|intros h Hh|done..].
    + etrans; [apply delete_subseteq | done].
    + rewrite lookup_delete_ne by set_solver. apply Sk. set_solver.
  - apply lookup_delete_eq.
  - intros Err. by rewrite (Hrr Err).
Qed.

Lemma removeOrphan_spec mp tx rr : orphans_ok ∅ mp ->
  exists mp', removeOrphan tx rr mp = (mp', Ok tt) /\ orphans_ok ∅ mp' /\ shrunk ∅ mp mp' /\
    orphans mp' !! TxHash tx = None /\ (rr = false -> orphans mp' = delete (TxHash tx) (orphans mp)).
Proof. intros Hok. apply removeOrphan_fuel_spec; [done | set_solver | lia]. Qed.

Lemma removeOrphan_removes N : removes ∅ N (fun tx => removeOrphan tx true).
Proof.
  intros mp tx Hok _ _. destruct (removeOrphan_spec mp tx true Hok) as (mp' & E & H' & S & R & _). by exists mp'.
Qed.

(** Every orphan that spends an output spent by the transaction is gone. *)
Lemma removeOrphanDoubleSpends_spec tx mp : orphans_ok ∅ mp ->
  exists mp', removeOrphanDoubleSpends tx mp = (mp', Ok tt) /\ orphans_ok ∅ mp' /\ shrunk ∅ mp mp' /\
    forall h o op, orphans mp' !! h = Some o -> op ∈ spends (otx_tx o) -> op ∉ spends tx.
Proof.
  unfold removeOrphanDoubleSpends, spends at 2. revert mp; induction (TxIns tx) as [|txIn ins IH]; intros mp Hok.
  { exists mp. split_and!; [done..|]. simpl. set_solver. }
  cbn [removeOrphanDoubleSpends_ins].
  destruct (redeemers_spec ∅ (size (orphans mp)) (fun tx => removeOrphan tx true) (PreviousOutPoint txIn) mp) as (mp1 & E1 & H1 & S1 & R1);
    [apply removeOrphan_removes | done | done |].
  rewrite (run_bind _ _ _ _ _ E1). destruct (IH mp1 H1) as (mp2 & E2 & H2 & S2 & R2).
  exists mp2. split_and!; [done | done | by etrans |]. intros h o op Ho Hs [->|Hin]%elem_of_cons; [|by eapply R2].
  assert (refs (orphansByPrev mp2) (PreviousOutPoint txIn) h = Some (otx_tx o)) as Er.
  { apply (oo_refs _ _ H2). split; [set_solver | by exists o]. }
  pose proof (refs_shrunk ∅ mp1 mp2 _ _ _ H1 H2 S2 Er) as Er1. unfold refs in Er1. by rewrite R1 in Er1.
Qed.

(** ** The limit *)
Lemma each_orphan_spec {A} (f : A -> orphanTx -> M A) l :
  (forall a o mp, orphans_ok ∅ mp -> exists mp' a', f a o mp = (mp', Ok a') /\ orphans_ok ∅ mp' /\ shrunk ∅ mp mp') ->
  forall a mp, orphans_ok ∅ mp -> exists mp' a', each_orphan f a l mp = (mp', Ok a') /\ orphans_ok ∅ mp' /\ shrunk ∅ mp mp'.
Proof.
  intros Hf. induction l as [|[h o] l IH]; intros a mp Hok; [by exists mp, a|].
  cbn [each_orphan]. rewrite run_gets.
  assert (exists mp1 a1, (match orphans mp !! h with Some _ => f a o | None => mret a end) mp = (mp1, Ok a1) /\ orphans_ok ∅ mp1 /\ shrunk ∅ mp mp1)
    as (mp1 & a1 & E1 & H1 & S1) by (destruct (orphans mp !! h); [by apply Hf | by exists mp, a]).
  rewrite (run_bind _ _ _ _ _ E1). destruct (IH a1 mp1 H1) as (mp2 & a2 & E2 & H2 & S2).
  exists mp2, a2. split_and!; [done | done | by etrans].
Qed.

Lemma RemoveOrphansByTag_spec tag mp : orphans_ok ∅ mp ->
  exists mp' n, RemoveOrphansByTag tag mp = (mp', Ok n) /\ orphans_ok ∅ mp' /\ shrunk ∅ mp mp'.
Proof.
  intros Hok. unfold RemoveOrphansByTag. apply each_orphan_spec; [|done]. intros a o m Hm.
  case_if; [|by exists m, a]. destruct (removeOrphan_spec m (otx_tx o) true Hm) as (m' & E & H' & S & _).
  exists m', (u64 (a + 1)). by rewrite (run_bind _ _ _ _ _ E).
Qed.

Lemma expire_orphans_spec now mp : orphans_ok ∅ mp ->
  exists mp' u, expire_orphans now mp = (mp', Ok u) /\ orphans_ok ∅ mp' /\ shrunk ∅ mp mp'.
Proof.
  intros Hok. unfold expire_orphans. apply each_orphan_spec; [|done]. intros a o m Hm.
  case_if; [|by exists m, tt]. destruct (removeOrphan_spec m (otx_tx o) true Hm) as (m' & E & H' & S & _). by exists m', tt.
Qed.

Lemma evict_orphan_spec mp : orphans_ok ∅ mp ->
  exists mp', evict_orphan mp = (mp', Ok tt) /\ orphans_ok ∅ mp' /\ shrunk ∅ mp mp' /\ size (orphans mp') = pred (size (orphans mp)).
Proof.
  intros Hok. unfold evict_orphan. destruct (range mp (orphans mp)) as [|[h o] l] eqn:El.
  - exists mp. split_and!; [done..|]. pose proof (range_perm mp (orphans mp)) as P. rewrite El in P.
    apply Permutation_nil_l in P. symmetry in P. apply map_to_list_empty_iff in P. by rewrite P.
  - assert (orphans mp !! h = Some o) as Ho by (apply (range_keys mp); rewrite El; set_solver).
    destruct (removeOrphan_spec mp (otx_tx o) false Hok) as (mp' & E & H' & S & _ & Hd). exists mp'. split_and!; [done..|].
    rewrite Hd, map_size_delete by done. rewrite (oo_hash _ _ Hok _ _ Ho), Ho. lia.
Qed.

Context (policy : PoolPolicy).

Lemma limitNumOrphans_spec mp : orphans_ok ∅ mp ->
  exists mp', limitNumOrphans policy mp = (mp', Ok tt) /\ orphans_ok ∅ mp' /\ shrunk ∅ mp mp' /\
    (0 < MaxOrphanTxs policy -> Z.of_nat (size (orphans mp)) <= MaxOrphanTxs policy -> Z.of_nat (size (orphans mp')) + 1 <= MaxOrphanTxs policy).
Proof.
  intros Hok. unfold limitNumOrphans. set (now := clock (ticks mp)). set (mp0 := set_ticks mp (S (ticks mp))).
  rewrite (run_bind time_Now _ mp mp0 now eq_refl), run_gets.
  assert (orphans_ok ∅ mp0) as H0 by by destruct Hok. assert (shrunk ∅ mp mp0) as S0 by by split.
  assert (exists mp1, (if After now (nextExpireScan mp0)
    then (_ ← expire_orphans now; modify (fun mp => set_nextExpireScan mp (time_Add now orphanExpireScanInterval))) else mret tt) mp0 = (mp1, Ok tt) /\
    orphans_ok ∅ mp1 /\ shrunk ∅ mp0 mp1) as (mp1 & E1 & H1 & S1).
  { case_if; [|by exists mp0]. destruct (expire_orphans_spec now mp0 H0) as (mp1 & [] & E1 & H1 & S1).
    eexists. rewrite (run_bind _ _ _ _ _ E1). split_and!; [reflexivity | by destruct H1 | by destruct S1]. }
  rewrite (run_bind _ _ _ _ _ E1), run_gets. pose proof (shrunk_size _ _ _ S1) as Hsz. change (orphans mp0) with (orphans mp) in Hsz.
  destruct (Z.leb_spec (Z.of_nat (size (orphans mp1)) + 1) (MaxOrphanTxs policy)).
  - exists mp1. split_and!; [done | done | by etrans | lia].
  - destruct (evict_orphan_spec mp1 H1) as (mp2 & E2 & H2 & S2 & Hp). exists mp2. split_and!; [done | done | by etrans; [|etrans] | lia].
Qed.

(** A new orphan, with its references. *)
Lemma insert_ok mp tx tag e : orphans_ok ∅ mp -> orphans mp !! TxHash tx = None ->
  orphans_ok ∅ (set_orphansByPrev (set_orphans mp (<[TxHash tx := mkOrphanTx tx tag e]> (orphans mp)))
    (index_orphan tx (TxIns tx) (orphansByPrev mp))).
Proof.
  intros [Hh Hr Hne _] Hnew. split; simpl; [| |by apply index_nonempty | set_solver].
  - intros h o [[<- <-]|[_ Ho]]%lookup_insert_Some; [done | by apply Hh].
  - intros op h t. rewrite refs_index. case_decide as Hc.
    + destruct Hc as [-> Hin]. split.
      * intros [= <-]. split; [set_solver|]. eexists. rewrite lookup_insert_eq. done.
      * intros (_ & o & Ho & <- & _). rewrite lookup_insert_eq in Ho. by injection Ho as <-.
    + rewrite Hr. split; intros (Hx & o & Ho & <- & Hs); (split; [done|]).
      * exists o. rewrite lookup_insert_ne by congruence. done.
      * apply lookup_insert_Some in Ho as [[<- <-]|[_ Ho]]; [by destruct Hc | by exists o].
Qed.

Lemma addOrphan_spec tx tag mp : orphans_ok ∅ mp -> orphans mp !! TxHash tx = None ->
  Z.of_nat (size (orphans mp)) <= Z.max 0 (MaxOrphanTxs policy) ->
  exists mp', addOrphan policy tx tag mp = (mp', Ok tt) /\ orphans_ok ∅ mp' /\ pool mp' = pool mp /\ outpoints mp' = outpoints mp /\
    dom (orphans mp') ⊆ {[TxHash tx]} ∪ dom (orphans mp) /\ Z.of_nat (size (orphans mp')) <= Z.max 0 (MaxOrphanTxs policy).
Proof.
  intros Hok Hnew Hsz. unfold addOrphan. destruct (Z.leb_spec (MaxOrphanTxs policy) 0).
  { exists mp. split_and!; [done..| set_solver | done]. }
  destruct (limitNumOrphans_spec mp Hok) as (mp1 & E1 & H1 & [Ss _ Sp So] & Hl). specialize (Hl ltac:(lia) ltac:(lia)).
  rewrite (run_bind _ _ _ _ _ E1). eexists. split; [reflexivity|].
  assert (orphans mp1 !! TxHash tx = None) as Hnew1.
  { destruct (orphans mp1 !! TxHash tx) eqn:E; [|done]. apply (lookup_weaken _ _ _ _ E) in Ss. congruence. }
  split_and!; [apply (insert_ok (set_ticks mp1 _)); [by destruct H1 | done] | done | done | |].
  - simpl. rewrite dom_insert. apply subseteq_dom in Ss. set_solver.
  - simpl. rewrite map_size_insert_None by done. lia.
Qed.

(** * The transactions of the pool *)
Record pool_ok (mp : TxPool) : Prop := {
  po_hash : forall h d, pool mp !! h = Some d -> TxHash (desc_Tx d) = h;
  po_spent : forall op tx, outpoints mp !! op = Some tx <-> exists d, pool mp !! TxHash tx = Some d /\ desc_Tx d = tx /\ op ∈ spends tx
}.

Lemma lookup_unspend ins ops op : unspend_all ins ops !! op = if decide (op ∈ PreviousOutPoint <$> ins) then None else ops !! op.
Proof.
  unfold unspend_all. revert ops; induction ins as [|txIn ins IH]; intros ops; [rewrite decide_False by (simpl; set_solver); done|].
  cbn [fold_left fmap list_fmap].
  rewrite IH. destruct (decide (op = PreviousOutPoint txIn)) as [->|].
  - rewrite lookup_delete_eq. by repeat case_decide; set_solver.
  - rewrite lookup_delete_ne by done. by repeat case_decide; set_solver.
Qed.

Lemma lookup_spend tx ins ops op : spend_all tx ins ops !! op = if decide (op ∈ PreviousOutPoint <$> ins) then Some tx else ops !! op.
Proof.
  unfold spend_all. revert ops; induction ins as [|txIn ins IH]; intros ops; [rewrite decide_False by (simpl; set_solver); done|].
  cbn [fold_left fmap list_fmap].
  rewrite IH. destruct (decide (op = PreviousOutPoint txIn)) as [->|].
  - rewrite lookup_insert_eq. by repeat case_decide; set_solver.
  - rewrite lookup_insert_ne by done. by repeat case_decide; set_solver.
Qed.

(** No two transactions of the pool spend the same output. *)
Lemma pool_conflict mp h1 h2 d1 d2 op : pool_ok mp -> pool mp !! h1 = Some d1 -> pool mp !! h2 = Some d2 ->
  op ∈ spends (desc_Tx d1) -> op ∈ spends (desc_Tx d2) -> h1 = h2.
Proof.
  intros [Hh Hs] H1 H2 S1 S2. pose proof (Hh _ _ H1) as E1. pose proof (Hh _ _ H2) as E2.
  assert (outpoints mp !! op = Some (desc_Tx d1)) as O1 by (apply Hs; exists d1; by rewrite E1).
  assert (outpoints mp !! op = Some (desc_Tx d2)) as O2 by (apply Hs; exists d2; by rewrite E2). congruence.
Qed.

Lemma take_out_spec h mp : pool_ok mp ->
  exists mp', take_out h mp = (mp', Ok tt) /\ pool_ok mp' /\ pool mp' = delete h (pool mp) /\
    orphans mp' = orphans mp /\ orphansByPrev mp' = orphansByPrev mp.
Proof.
  intros Hok. pose proof Hok as [Hh Hs]. unfold take_out. rewrite run_gets. destruct (pool mp !! h) as [d|] eqn:Ed.
  2:{ exists mp. split_and!; [done | done | by rewrite delete_id | done..]. }
  eexists. split; [reflexivity|]. split_and!; [|done..]. split; simpl.
  - intros h' d' [_ Hd']%lookup_delete_Some. by apply Hh.
  - intros op tx. rewrite lookup_unspend. case_decide as Hc.
    + split; [done|]. intros (d' & [Hne Hd']%lookup_delete_Some & <- & Hin). destruct Hne.
      by apply (pool_conflict mp h _ d d' op Hok).
    + rewrite Hs. split; intros (d' & Hd' & <- & Hin).
      * exists d'. split_and!; [|done..]. rewrite lookup_delete_ne; [done|]. intros E. rewrite <- E, Ed in Hd'. injection Hd' as <-. done.
      * apply lookup_delete_Some in Hd' as [_ Hd']. by exists d'.
Qed.

(** What removing a transaction can change. *)
Record lessened (mp mp' : TxPool) : Prop := {
  le_ok : pool_ok mp';
  le_sub : pool mp' ⊆ pool mp;
  le_orphans : orphans mp' = orphans mp;
  le_index : orphansByPrev mp' = orphansByPrev mp
}.

Lemma lessened_refl mp : pool_ok mp -> lessened mp mp.
Proof. by split. Qed.

Lemma lessened_trans a b c : lessened a b -> lessened b c -> lessened a c.
Proof. intros [? S1 O1 I1] [? S2 O2 I2]. split; [done | by etrans | congruence..]. Qed.

Lemma each_output_lessened (g : OutPoint -> M unit) h i outs :
  (forall op mp, pool_ok mp -> lessened mp (g op mp).1 /\ ((g op mp).2 = Ok tt \/ (g op mp).2 = Hang)) ->
  forall mp, pool_ok mp -> lessened mp (each_output g h i outs mp).1 /\ ((each_output g h i outs mp).2 = Ok tt \/ (each_output g h i outs mp).2 = Hang).
Proof.
  intros Hg. revert i; induction outs as [|o outs IH]; intros i mp Hok; [split; [by apply lessened_refl | by left]|].
  cbn [each_output]. unfold mbind, M_bind. destruct (Hg (mkOutPoint h (u32 i)) mp Hok) as [L R].
  destruct (g _ mp) as [mp1 r]. simpl in *. destruct R as [-> | ->]; [|split; [done | by right]].
  destruct (IH (i + 1) mp1 (le_ok _ _ L)) as [L2 R2]. split; [by eapply lessened_trans | done].
Qed.

Lemma removeTransaction_lessened fuel : forall tx rr mp, pool_ok mp ->
  lessened mp (removeTransaction_fuel fuel tx rr mp).1 /\
  ((removeTransaction_fuel fuel tx rr mp).2 = Ok tt \/ (removeTransaction_fuel fuel tx rr mp).2 = Hang).
Proof.
  induction fuel as [|fuel IH]; intros tx rr mp Hok; [split; [by apply lessened_refl | by right]|].
  cbn [removeTransaction_fuel]. set (loop := if rr then _ else _).
  assert (lessened mp (loop mp).1 /\ ((loop mp).2 = Ok tt \/ (loop mp).2 = Hang)) as [L R].
  { unfold loop. destruct rr; [|split; [by apply lessened_refl | by left]]. apply each_output_lessened; [|done].
    intros op m Hm. rewrite run_gets. destruct (outpoints m !! op); [by apply IH | split; [by apply lessened_refl | by left]]. }
  unfold mbind, M_bind. destruct (loop mp) as [mp1 r]. simpl in *. destruct R as [-> | ->]; [|split; [done | by right]].
  destruct (take_out_spec (TxHash tx) mp1 (le_ok _ _ L)) as (mp2 & E & H2 & P2 & O2 & I2). rewrite E. simpl. split; [|by left].
  eapply lessened_trans; [done|]. split; [done | rewrite P2; apply delete_subseteq | done..].
Qed.

(** * Accepting a transaction *)
Context (chainParams : Params).

(** The pools are as before. *)
Record same_pools (mp mp' : TxPool) : Prop := {
  sp_pool : pool mp' = pool mp;
  sp_outpoints : outpoints mp' = outpoints mp;
  sp_orphans : orphans mp' = orphans mp;
  sp_index : orphansByPrev mp' = orphansByPrev mp
}.

#[local] Instance same_pools_pre : PreOrder same_pools.
Proof. split; [by split|]. intros a b c [] []. split; congruence. Qed.

Lemma limit_rate_same n mp : same_pools mp (limit_rate policy n mp).1.
Proof.
  unfold limit_rate. rewrite (run_bind time_Now _ mp _ _ eq_refl), run_modify, run_gets. case_if; by split.
Qed.

(** What holds of a transaction that was accepted: the checks that were made, with the
    views they were made against. *)
Record accepted (env : Env) (tx : Tx) (rejectDupOrphans : bool) (mp mp' : TxPool) (txD : TxDesc) : Prop := {
  ac_tx : desc_Tx txD = tx;
  ac_pool : pool mp' = <[TxHash tx := txD]> (pool mp);
  ac_outpoints : outpoints mp' = spend_all tx (TxIns tx) (outpoints mp);
  ac_orphans : orphans mp' = orphans mp;
  ac_index : orphansByPrev mp' = orphansByPrev mp;
  ac_checked : exists utxoView keyView, accept_inputs policy env tx rejectDupOrphans mp = Ok (utxoView, keyView) /\
    (forall h e, entries utxoView !! h = Some e -> absent e = false) /\
    exists utxoView' utxoView'' hashes, accept_rules chainParams policy env tx utxoView keyView = Ok (Fee txD, utxoView') /\
      run_scripts env (mkTxValidator utxoView'' keyView StandardVerifyFlags) (input_items (msgTx tx) hashes 0 (TxIns tx)) = Ok tt
}.

Lemma addTransaction_spec view tx height fee mp :
  same_pools mp (addTransaction view tx height fee mp).1 /\ (forall txD, (addTransaction view tx height fee mp).2 <> Ok txD) \/
  exists mp' txD, addTransaction view tx height fee mp = (mp', Ok txD) /\ desc_Tx txD = tx /\ Fee txD = fee /\
    pool mp' = <[TxHash tx := txD]> (pool mp) /\ outpoints mp' = spend_all tx (TxIns tx) (outpoints mp) /\
    orphans mp' = orphans mp /\ orphansByPrev mp' = orphansByPrev mp.
Proof.
  unfold addTransaction. rewrite (run_bind time_Now _ mp _ _ eq_refl).
  destruct (unwrapped (asserted (CalcPriority (msgTx tx) view height))) as [[prio v]|e| |]; [|left; split; done..].
  right. eexists _, _. split; [reflexivity|]. done.
Qed.

Lemma absent_missing (mp : TxPool) (m : gmap bytes (option UtxoEntry)) :
  len (filter (fun e => absent e.2) (range mp m)).*1 <= 0 -> forall h e, m !! h = Some e -> absent e = false.
Proof.
  intros Hl h e He. destruct (absent e) eqn:Ea; [|done]. exfalso.
  assert ((h, e) ∈ filter (fun e => absent e.2) (range mp m)) as Hin by (apply list_elem_of_filter; split; [simpl; by rewrite Ea | by apply range_keys]).
  destruct (filter _ _) as [|x l] eqn:Ef; [set_solver|]. rewrite fmap_cons, len_cons in Hl. pose proof (len_nonneg (l.*1)). lia.
Qed.

Lemma maybeAccept_outcome env tx isNew rl rd mp :
  let '(mp', r) := maybeAcceptTransaction chainParams policy env tx isNew rl rd mp in
  (same_pools mp mp' /\ forall missing txD, r = Ok (missing, txD) -> 0 < len missing) \/
  (exists txD, r = Ok ([], Some txD) /\ accepted env tx rd mp mp' txD).
Proof.
  unfold maybeAcceptTransaction. rewrite run_gets.
  destruct (accept_inputs policy env tx rd mp) as [[view kv]|e| |] eqn:Ei; [|by left..].
  rewrite (run_bind (lift (Ok (view, kv))) _ mp mp (view, kv) eq_refl), run_gets.
  set (missing := (filter _ _).*1). destruct (Z.ltb_spec 0 (len missing)) as [Hm|Hm].
  { left. split; [done|]. by intros ? ? [= <- <-]. }
  pose proof (absent_missing mp _ Hm) as Habs.
  destruct (accept_rules chainParams policy env tx view kv) as [[fee view']|e| |] eqn:Er; [|by left..].
  rewrite (run_bind (lift (Ok (fee, view'))) _ mp mp (fee, view') eq_refl).
  set (minFee := calcMinRequiredTxRelayFee _ _). case_if; [by left|].
  set (prio := if isNew && _ && _ then _ else mret view').
  assert ((exists v, prio mp = (mp, Ok v)) \/ exists r, prio mp = (mp, r) /\ forall v, r <> Ok v) as [[v Ep]|(r & Ep & Hr)].
  { unfold prio. case_if; [|left; by eexists]. unfold lift, mbind, M_bind.
    destruct (unwrapped _) as [[p v]|e| |]; [|right; by eexists..]. case_if; [right; by eexists | left; by eexists]. }
  2:{ unfold mbind at 1, M_bind at 1. rewrite Ep. destruct r as [v| | |]; [by destruct (Hr v)|by left..]. }
  rewrite (run_bind _ _ _ _ _ Ep). clear Ep prio.
  set (rate := if rl && _ then _ else mret tt).
  assert (same_pools mp (rate mp).1) as Sr by (unfold rate; case_if; [apply limit_rate_same | done]).
  unfold mbind at 1, M_bind at 1. destruct (rate mp) as [mp1 [[]|e| |]]; simpl in Sr; [|by left..]. clear rate.
  rewrite run_gets. destruct (cached_hashes (hashCache mp1) (msgTx tx)) as [hc hashes]. rewrite run_modify.
  set (mp2 := set_hashCache mp1 hc). assert (same_pools mp mp2) as S2 by (by destruct Sr).
  destruct (run_scripts env _ _) as [[]|e| |] eqn:Es; cbn [wrapped]; [|by left..].
  rewrite (run_bind (lift (Ok tt)) _ mp2 mp2 tt eq_refl). unfold mbind, M_bind.
  destruct (addTransaction_spec v tx (BestHeight env) fee mp2) as [[Sa Na]|(mp3 & txD & E3 & Et & Ef & P3 & O3 & Or3 & I3)].
  - destruct (addTransaction _ _ _ _ mp2) as [mp3 [txD|e| |]]; simpl in *; [by destruct (Na txD)|left; split; [by etrans | done]..].
  - rewrite E3. right. exists txD. split; [done|]. destruct S2 as [Sp2 So2 Sor2 Si2].
    split; [done | by rewrite P3, Sp2 | by rewrite O3, So2 | by rewrite Or3, Sor2 | by rewrite I3, Si2|].
    exists view, kv. split_and!; [done..|]. exists view', v, hashes. by rewrite Ef.
Qed.

End spec.
End MempoolSpec.
