(* ===== verification/MempoolInv.v ===== *)
(** Every operation of the memory pool keeps it consistent, processing orphans ends,
    and removing a transaction removes what depends on it. *)
From stdpp Require Import gmap.
From S2P Require Import Prelude PubKey Wire Crypto Script Standard SigCache Engine Utxo GoTime Params KeyView Validate ScriptVal Policy Mempool MempoolSpec.
Import btcec wire Crypto Script Standard Engine Utxo GoTime Params KeyView Validate ScriptVal Policy Mempool MempoolSpec.
#[local] Open Scope Z_scope.

Module MempoolInv.

#[local] Opaque TxHash.

Section inv.
Context `{Prim : Primitives} `{Run : Runtime}.
Context (chainParams : Params) (policy : PoolPolicy).

(** The pool and its indexes agree, a transaction is in one pool only, and the orphans
    are within their limit. *)
Record consistent (mp : TxPool) : Prop := {
  con_pool : pool_ok mp;
  con_orphans : orphans_ok ∅ mp;
  con_disjoint : dom (pool mp) ## dom (orphans mp);
  con_limit : Z.of_nat (size (orphans mp)) <= Z.max 0 (MaxOrphanTxs policy)
}.

Lemma consistent_same mp mp' : same_pools mp mp' -> consistent mp -> consistent mp'.
Proof.
  intros [Ep Eo Er Ei] [[Hh Hs] [Oh Or On Op] D L].
  split; [split; rewrite ?Ep, ?Eo; done | split; rewrite ?Er, ?Ei; done | by rewrite Ep, Er | by rewrite Er].
Qed.

Lemma consistent_shrunk mp mp' : shrunk ∅ mp mp' -> orphans_ok ∅ mp' -> consistent mp -> consistent mp'.
Proof.
  intros Sh Ho [[Hh Hs] _ D L]. pose proof (shrunk_size _ _ _ Sh). destruct Sh as [Ss _ Ep Eo].
  split; [split; rewrite ?Ep, ?Eo; done | done | rewrite Ep; apply subseteq_dom in Ss; set_solver | lia].
Qed.

Lemma consistent_lessened mp mp' : lessened mp mp' -> consistent mp -> consistent mp'.
Proof.
  intros [Hp Ss Eo Ei] [_ [Oh Or On Op] D L].
  split; [done | split; rewrite ?Eo, ?Ei; done | rewrite Eo; apply subseteq_dom in Ss; set_solver | by rewrite Eo].
Qed.

(** * Accepting *)
Lemma accept_inputs_new env tx rd mp v : accept_inputs policy env tx rd mp = Ok v ->
  pool mp !! TxHash tx = None /\ (rd = true -> orphans mp !! TxHash tx = None) /\
  (forall op, op ∈ spends tx -> outpoints mp !! op = None).
Proof.
  unfold accept_inputs. unfold isTransactionInPool, isOrphanInPool.
  destruct (pool mp !! TxHash tx) eqn:Ep; [done|]. rewrite bool_decide_false by apply is_Some_None. simpl.
  destruct (rd && bool_decide (is_Some (orphans mp !! TxHash tx))) eqn:Eo; [done|]. intros E.
  apply bind_Ok in E as (_ & _ & E). do 2 (case_match; [done|]). apply bind_Ok in E as (_ & _ & E).
  apply bind_Ok in E as ([] & Ed & _). unfold checkPoolDoubleSpend in Ed. case_match eqn:Ex; [done|].
  split_and!; [done | intros ->; simpl in Eo; apply bool_decide_eq_false in Eo; by apply eq_None_not_Some |].
  intros op (txIn & -> & Hin)%list_elem_of_fmap. destruct (outpoints mp !! _) eqn:Eop; [|done]. exfalso.
  assert (existsb (fun txIn => bool_decide (is_Some (outpoints mp !! PreviousOutPoint txIn))) (TxIns tx) = true) as Hc; [|congruence].
  apply existsb_exists. exists txIn. split; [by apply list_elem_of_In|]. by rewrite Eop.
Qed.

(** A new transaction that spends what no other one of the pool spends. *)
Lemma insert_pool_ok mp mp' tx txD : pool_ok mp -> pool mp !! TxHash tx = None -> (forall op, op ∈ spends tx -> outpoints mp !! op = None) ->
  desc_Tx txD = tx -> pool mp' = <[TxHash tx := txD]> (pool mp) -> outpoints mp' = spend_all tx (TxIns tx) (outpoints mp) -> pool_ok mp'.
Proof.
  intros [Hh Hs] Hn Hc Et Ep Eo. split; rewrite Ep, ?Eo.
  - intros h d [[<- <-]|[_ Hd]]%lookup_insert_Some; [by rewrite Et | by apply Hh].
  - intros op t. rewrite lookup_spend. fold (spends tx). case_decide as Hin.
    + split; [intros [= <-]; exists txD; by rewrite lookup_insert_eq|]. intros (d & Hd & <- & Hin').
      apply lookup_insert_Some in Hd as [[_ <-]|[_ Hd]]; [by rewrite Et|].
      assert (outpoints mp !! op = Some (desc_Tx d)) as E by (apply Hs; by exists d). rewrite Hc in E; done.
    + rewrite Hs. split; intros (d & Hd & <- & Hin').
      * exists d. rewrite lookup_insert_ne; [done|]. intros E. rewrite <- E, Hn in Hd. discriminate Hd.
      * apply lookup_insert_Some in Hd as [[_ <-]|[_ Hd]]; [by rewrite Et in Hin' | by exists d].
Qed.

Lemma accepted_pool_ok env tx rd mp mp' txD : pool_ok mp -> accepted policy chainParams env tx rd mp mp' txD -> pool_ok mp'.
Proof.
  intros Hp [Et Ep Eo _ _ (v & kv & Ei & _)]. destruct (accept_inputs_new _ _ _ _ _ Ei) as (Hn & _ & Hc).
  by apply (insert_pool_ok mp mp' tx txD).
Qed.

Lemma accepted_consistent env tx mp mp' txD : consistent mp -> accepted policy chainParams env tx true mp mp' txD -> consistent mp'.
Proof.
  intros [Hp [Oh Or On Op] D L] A. pose proof (accepted_pool_ok _ _ _ _ _ _ Hp A) as Hp'.
  destruct A as [Et Ep Eo Er Ei (v & kv & Eai & _)]. destruct (accept_inputs_new _ _ _ _ _ Eai) as (Hn & Hno & _).
  specialize (Hno eq_refl). split; [done | split; rewrite ?Er, ?Ei; done | | by rewrite Er].
  rewrite Ep, Er, dom_insert. apply not_elem_of_dom in Hno. set_solver.
Qed.

(** An orphan that is accepted leaves the orphans. *)
Lemma accepted_orphan env tx mp mp' txD : consistent mp -> accepted policy chainParams env tx false mp mp' txD ->
  is_Some (orphans mp !! TxHash tx) ->
  exists mp2, removeOrphan tx false mp' = (mp2, Ok tt) /\ consistent mp2 /\ (size (orphans mp2) < size (orphans mp))%nat /\ pool mp2 = pool mp'.
Proof.
  intros [Hp [Oh Or On Op] D L] A [o Ho]. pose proof (accepted_pool_ok _ _ _ _ _ _ Hp A) as Hp'.
  destruct A as [Et Ep Eo Er Ei _].
  destruct (removeOrphan_spec mp' tx false) as (mp2 & E & H2 & [Ss _ Ep2 Eo2] & _ & Hd); [split; rewrite ?Er, ?Ei; done|].
  specialize (Hd eq_refl). rewrite Er in Hd.
  assert (size (orphans mp2) < size (orphans mp))%nat as Hlt.
  { rewrite Hd, map_size_delete, Ho. assert (size (orphans mp) <> 0%nat); [|lia]. intros Hz%map_size_empty_inv. by rewrite Hz in Ho. }
  exists mp2. split_and!; [done | | done..]. destruct Hp' as [Hh' Hs'].
  split; [split; rewrite ?Ep2, ?Eo2; done | done | | lia].
  rewrite Ep2, Ep, Hd, dom_insert, dom_delete. set_solver.
Qed.

(** * Orphans that are accepted *)

(** A call of [maybeAcceptTransaction] that does not return. *)
Definition stuck (env : Env) : Prop := exists tx m, (maybeAcceptTransaction chainParams policy env tx true true false m).2 = Hang.

(** How a step of the processing ends: the pool has grown by the transactions [ds],
    each of which was an orphan, or the step was stopped. *)
Definition ends {A} (env : Env) (ds : A -> list TxDesc) (mp : TxPool) (out : TxPool * res pool_error A) : Prop :=
  consistent out.1 /\ (size (orphans out.1) <= size (orphans mp))%nat /\ pool mp ⊆ pool out.1 /\
  match out.2 with
  | Ok a => (length (ds a) + size (orphans out.1) <= size (orphans mp))%nat /\ forall d, d ∈ ds a -> pool out.1 !! TxHash (desc_Tx d) = Some d
  | Err _ => False
  | Panic => True
  | Hang => stuck env
  end.

Lemma ends_same {A} env (ds : A -> list TxDesc) a mp : consistent mp -> ds a = [] -> ends env ds mp (mp, Ok a).
Proof. intros Hc E. split_and!; simpl; [done | lia | done |]. rewrite E. split; [simpl; lia | by intros d ?%not_elem_of_nil]. Qed.

(** A call after a call. *)
Lemma ends_after {A} env (ds : A -> list TxDesc) mp mp1 out : ends env ds mp1 out ->
  (size (orphans mp1) <= size (orphans mp))%nat -> pool mp ⊆ pool mp1 -> ends env ds mp out.
Proof.
  intros (C & S & P & R) S1 P1. split_and!; [done | lia | by etrans |].
  destruct out.2; [destruct R; split; [lia | done] | done..].
Qed.

Lemma try_orphans_ends env l : forall mp, consistent mp ->
  (forall h tx, (h, tx) ∈ l -> is_Some (orphans mp !! TxHash tx)) -> ends env option_list mp (try_orphans chainParams policy env l mp).
Proof.
  induction l as [|[h tx] l IH]; intros mp Hc Hl; [by apply ends_same|].
  cbn [try_orphans]. pose proof (maybeAccept_outcome policy chainParams env tx true true false mp) as Ho.
  unfold attempt, mbind, M_bind. destruct (maybeAcceptTransaction _ _ _ _ _ _ _ mp) as [mp1 r] eqn:Em.
  destruct Ho as [[Hs Hm]|(txD & -> & A)].
  - pose proof (consistent_same _ _ Hs Hc) as Hc1. pose proof (sp_orphans _ _ Hs) as Eo. pose proof (sp_pool _ _ Hs) as Ep.
    destruct r as [[missing txD]|e| |].
    + rewrite (proj2 (Z.ltb_lt _ _) (Hm _ _ eq_refl)).
      apply (ends_after _ _ _ mp1); [apply IH; [done | rewrite Eo; set_solver] | by rewrite Eo | by rewrite Ep].
    + destruct (removeOrphan_spec mp1 tx true (con_orphans _ Hc1)) as (mp2 & E & H2 & S2 & _). rewrite E.
      pose proof (shrunk_size _ _ _ S2) as Hz. rewrite Eo in Hz.
      apply (ends_after _ _ _ mp2); [apply ends_same; [by eapply consistent_shrunk | done] | done | by rewrite (sh_pool _ _ _ S2), Ep].
    + split_and!; simpl; [done | by rewrite Eo | by rewrite Ep | done].
    + split_and!; simpl; [done | by rewrite Eo | by rewrite Ep | exists tx, mp; by rewrite Em].
  - destruct (accepted_orphan env tx mp mp1 txD Hc A) as (mp2 & E & C2 & Hlt & P2); [by apply (Hl h); set_solver|].
    destruct A as [Et Ep _ _ _ (v & kv & Ei & _)]. destruct (accept_inputs_new _ _ _ _ _ Ei) as (Hn & _).
    change (0 <? len []) with false. cbv beta iota. rewrite E. split_and!; simpl; [done | lia | rewrite P2, Ep; by apply insert_subseteq |]. split; [lia|].
    intros d ->%list_elem_of_singleton. by rewrite P2, Ep, Et, lookup_insert_eq.
Qed.

Lemma process_outputs_ends env h outs : forall i mp, consistent mp ->
  ends env id mp (process_outputs chainParams policy env h i outs mp).
Proof.
  induction outs as [|o outs IH]; intros i mp Hc; [by apply ends_same|].
  cbn [process_outputs]. rewrite run_gets. set (prevOut := mkOutPoint h (u32 i)).
  set (step := match range mp <$> orphansByPrev mp !! prevOut with Some l => try_orphans chainParams policy env l | None => mret None end).
  assert (ends env option_list mp (step mp)) as (C1 & S1 & P1 & R1).
  { unfold step. destruct (orphansByPrev mp !! prevOut) as [m|] eqn:Em; [|by apply ends_same].
    apply try_orphans_ends; [done|]. intros h' tx Hin%range_keys.
    assert (refs (orphansByPrev mp) prevOut h' = Some tx) as Er by (unfold refs; by rewrite Em).
    apply (oo_refs _ _ (con_orphans _ Hc)) in Er as (_ & x & Hx & <- & _).
    rewrite (oo_hash _ _ (con_orphans _ Hc) _ _ Hx). by eexists. }
  unfold mbind at 1, M_bind at 1. destruct (step mp) as [mp1 [a|e| |]]; simpl in *; [|by split_and!..].
  destruct (IH (i + 1) mp1 C1) as (C2 & S2 & P2 & R2). unfold mbind, M_bind.
  destruct (process_outputs _ _ _ _ _ _ mp1) as [mp2 [more|e| |]]; simpl in *; [|split_and!; simpl; try done; solve [lia | by etrans]..].
  destruct R1 as [L1 D1], R2 as [L2 D2]. replace (match a with Some txD => txD :: more | None => more end) with (option_list a ++ more) by by destruct a.
  split_and!; simpl; [done | lia | by etrans |]. split; [rewrite length_app; unfold id in *; lia |].
  intros d [Hd|Hd]%elem_of_app; [eapply lookup_weaken; [by apply D1 | done] | by apply D2].
Qed.

Lemma process_list_ends env fuel : forall l mp, consistent mp -> (length l + size (orphans mp) <= fuel)%nat ->
  ends env id mp (process_list chainParams policy env fuel l mp).
Proof.
  induction fuel as [|fuel IH]; intros [|tx l] mp Hc Hf; [by apply ends_same | simpl in Hf; lia | by apply ends_same |].
  cbn [process_list]. destruct (process_outputs_ends env (TxHash tx) (TxOuts tx) 0 mp Hc) as (C1 & S1 & P1 & R1).
  unfold mbind at 1, M_bind at 1. destruct (process_outputs _ _ _ _ _ _ mp) as [mp1 [a|e| |]]; simpl in *; [|by split_and!..].
  destruct R1 as [L1 D1]. unfold id in *.
  destruct (IH (l ++ (desc_Tx <$> a)) mp1 C1) as (C2 & S2 & P2 & R2); [rewrite length_app, length_fmap; lia|].
  unfold mbind, M_bind. destruct (process_list _ _ _ _ _ mp1) as [mp2 [more|e| |]]; simpl in *; [|split_and!; simpl; try done; solve [lia | by etrans]..].
  destruct R2 as [L2 D2]. split_and!; simpl; [done | lia | by etrans |]. split; [rewrite length_app; lia|].
  intros d [Hd|Hd]%elem_of_app; [eapply lookup_weaken; [by apply D1 | done] | by apply D2].
Qed.

(** No orphan spends what the transaction spends. *)
Definition unrivalled (mp : TxPool) (tx : Tx) : Prop := forall h o op, orphans mp !! h = Some o -> op ∈ spends (otx_tx o) -> op ∉ spends tx.

Lemma unrivalled_shrunk X mp mp' tx : shrunk X mp mp' -> unrivalled mp tx -> unrivalled mp' tx.
Proof. intros [S _ _ _] U h o op Ho. apply (U h). by eapply lookup_weaken. Qed.

Lemma remove_double_spends_spec ds : forall mp, consistent mp ->
  exists mp', remove_double_spends ds mp = (mp', Ok tt) /\ consistent mp' /\ shrunk ∅ mp mp' /\ forall d, d ∈ ds -> unrivalled mp' (desc_Tx d).
Proof.
  induction ds as [|d ds IH]; intros mp Hc; [exists mp; split_and!; [done..|by intros d ?%not_elem_of_nil]|]. cbn [remove_double_spends].
  destruct (removeOrphanDoubleSpends_spec (desc_Tx d) mp (con_orphans _ Hc)) as (mp1 & E1 & H1 & S1 & U1).
  rewrite (run_bind _ _ _ _ _ E1). destruct (IH mp1) as (mp2 & E2 & C2 & S2 & U2); [by eapply consistent_shrunk|].
  exists mp2. split_and!; [done | done | by etrans |]. intros d' [->|Hd]%elem_of_cons; [by eapply unrivalled_shrunk | by apply U2].
Qed.

(** Processing ends with a consistent pool, unless accepting one orphan does not end. *)
Lemma processOrphans_ends env tx mp : consistent mp ->
  exists mp' r, processOrphans chainParams policy env tx mp = (mp', r) /\ ends env id mp (mp', r) /\
    forall ds, r = Ok ds -> unrivalled mp' tx /\ forall d, d ∈ ds -> unrivalled mp' (desc_Tx d).
Proof.
  intros Hc. unfold processOrphans. rewrite run_gets.
  destruct (process_list_ends env (S (size (orphans mp))) [tx] mp Hc) as (C1 & S1 & P1 & R1); [simpl; lia|].
  unfold mbind at 1, M_bind at 1. destruct (process_list _ _ _ _ _ mp) as [mp1 [a|e| |]]; simpl in *;
    [|by do 2 eexists; split_and!..].
  destruct (removeOrphanDoubleSpends_spec tx mp1 (con_orphans _ C1)) as (mp2 & E2 & H2 & S2 & U2).
  rewrite (run_bind _ _ _ _ _ E2). destruct (remove_double_spends_spec a mp2) as (mp3 & E3 & C3 & S3 & U3); [by eapply consistent_shrunk|].
  rewrite (run_bind _ _ _ _ _ E3). pose proof (shrunk_size _ _ _ S2). pose proof (shrunk_size _ _ _ S3). destruct R1 as [L1 D1].
  assert (pool mp3 = pool mp1) as E by (rewrite (sh_pool _ _ _ S3); apply S2).
  exists mp3, (Ok a). split; [reflexivity|]. split; [split_and!; simpl; [done | lia | by rewrite E |]; split; [unfold id in *; lia | by rewrite E]|].
  intros ds [= <-]. split; [by eapply unrivalled_shrunk | done].
Qed.

(** * Removing a transaction and what depends on it *)

(** [h2] spends an output of [h1]. *)
Definition child (mp : TxPool) (h1 h2 : bytes) : Prop :=
  exists d op, pool mp !! h2 = Some d /\ op ∈ spends (desc_Tx d) /\ Hash op = h1.

(** The spends in the pool have no cycle. *)
Definition ranked (rank : bytes -> nat) (mp : TxPool) : Prop := forall h1 h2, child mp h1 h2 -> (rank h1 < rank h2)%nat.

Definition higher (rank : bytes -> nat) (mp : TxPool) (h : bytes) : nat := size (filter (fun x => (rank h < rank x.1)%nat) (pool mp)).

(** The transactions that were removed, and nothing else, with all that spend their
    outputs. *)
Record removal (mp : TxPool) (ps : list bytes) (mp' : TxPool) : Prop := {
  rm_less : lessened mp mp';
  rm_descendants : forall h, is_Some (pool mp !! h) -> pool mp' !! h = None -> exists p, p ∈ ps /\ rtc (child mp) p h;
  rm_closed : forall hp dp i h d, pool mp !! hp = Some dp -> pool mp' !! hp = None ->
    0 <= i < len (TxOuts (desc_Tx dp)) -> pool mp' !! h = Some d -> mkOutPoint hp (u32 i) ∉ spends (desc_Tx d)
}.

Lemma child_sub mp mp' h1 h2 : pool mp' ⊆ pool mp -> child mp' h1 h2 -> child mp h1 h2.
Proof. intros S (d & op & Hd & Hin & E). exists d, op. split_and!; [by eapply lookup_weaken | done..]. Qed.

Lemma ranked_sub rank mp mp' : pool mp' ⊆ pool mp -> ranked rank mp -> ranked rank mp'.
Proof. intros S R h1 h2 C. apply R. by eapply child_sub. Qed.

Lemma higher_sub rank mp mp' h : pool mp' ⊆ pool mp -> (higher rank mp' h <= higher rank mp h)%nat.
Proof. intros S. unfold higher. apply map_subseteq_size. by apply map_filter_subseteq_mono. Qed.

Lemma higher_child rank mp h1 h2 : ranked rank mp -> child mp h1 h2 -> (higher rank mp h2 < higher rank mp h1)%nat.
Proof.
  intros R C. pose proof (R _ _ C) as Hlt. destruct C as (d & op & Hd & _). unfold higher.
  apply map_subset_size. split.
  - apply map_subseteq_spec. intros h x [Hx Hr]%map_lookup_filter_Some. apply map_lookup_filter_Some. simpl in *. split; [done | lia].
  - intros Hs. assert (filter (fun x => (rank h1 < rank x.1)%nat) (pool mp) !! h2 = Some d) as E by by apply map_lookup_filter_Some.
    apply (lookup_weaken _ _ _ _ E) in Hs. apply map_lookup_filter_Some in Hs as [_ Hs]. simpl in Hs. lia.
Qed.

Lemma removal_refl mp ps : pool_ok mp -> removal mp ps mp.
Proof. intros Hok. split; [by apply lessened_refl | |]; [intros h [d Hd] Hn | intros hp dp i h d Hp Hn]; congruence. Qed.

Lemma removal_trans mp ps mp1 mp2 : removal mp ps mp1 -> removal mp1 ps mp2 -> removal mp ps mp2.
Proof.
  intros [L1 D1 C1] [L2 D2 C2]. split; [by eapply lessened_trans | |].
  - intros h Hh Hn. destruct (pool mp1 !! h) eqn:E1; [|by apply D1].
    destruct (D2 h) as (p & Hp & Hr); [by rewrite E1 | done |]. exists p. split; [done|].
    eapply rtc_subrel; [|exact Hr]. intros x y. apply child_sub, L1.
  - intros hp dp i h d Hp Hn Hi Hd. destruct (pool mp1 !! hp) as [dp1|] eqn:E1.
    + pose proof (lookup_weaken _ _ _ _ E1 (le_sub _ _ L1)) as E. rewrite Hp in E. injection E as <-. by eapply C2.
    + eapply C1; [done..|]. by eapply lookup_weaken; [|apply L2].
Qed.

Lemma removal_weaken mp ps qs mp' : (forall p, p ∈ ps -> exists q, q ∈ qs /\ rtc (child mp) q p) -> removal mp ps mp' -> removal mp qs mp'.
Proof.
  intros Hq [L D C]. split; [done | | done]. intros h Hh Hn. destruct (D h Hh Hn) as (p & Hp & Hr).
  destruct (Hq p Hp) as (q & Hq' & Hr'). exists q. split; [done | by etrans].
Qed.

Lemma outpoints_sub mp mp' : pool_ok mp -> lessened mp mp' -> outpoints mp' ⊆ outpoints mp.
Proof.
  intros [_ Hs] [[_ Hs'] Ss _ _]. apply map_subseteq_spec. intros op tx (d & Hd & Et & Hin)%Hs'. apply Hs.
  exists d. split_and!; [by eapply lookup_weaken | done..].
Qed.

Lemma take_out_removal h dp mp : pool_ok mp -> pool mp !! h = Some dp ->
  (forall j, 0 <= j < len (TxOuts (desc_Tx dp)) -> outpoints mp !! mkOutPoint h (u32 j) = None) ->
  exists mp', take_out h mp = (mp', Ok tt) /\ removal mp [h] mp' /\ pool mp' !! h = None.
Proof.
  intros Hok Hp Hout. destruct (take_out_spec h mp Hok) as (mp' & E & H' & P' & O' & I').
  assert (lessened mp mp') as L by (split; [done | rewrite P'; apply delete_subseteq | done..]).
  exists mp'. split_and!; [done | split; [done | |] | rewrite P'; apply lookup_delete_eq].
  - intros h' [d Hd] Hn. rewrite P' in Hn. apply lookup_delete_None in Hn as [<-|Hn]; [|congruence]. exists h. split; [set_solver | done].
  - intros hp dp' i h' d Hp' Hn Hi Hd Hin. rewrite P' in Hn. apply lookup_delete_None in Hn as [<-|Hn]; [|congruence].
    rewrite Hp in Hp'. injection Hp' as <-.
    assert (outpoints mp' !! mkOutPoint h (u32 i) = Some (desc_Tx d)) as Eo.
    { apply (po_spent _ H'). exists d. by rewrite (po_hash _ H' _ _ Hd). }
    pose proof (lookup_weaken _ _ _ _ Eo (outpoints_sub _ _ Hok L)) as Eo'. rewrite (Hout i Hi) in Eo'. discriminate Eo'.
Qed.

(** The transactions that spend the outputs are removed one after the other. *)
Lemma redeemers_removal rank fuel (rf : Tx -> M unit) h :
  (forall t d mp, pool_ok mp -> ranked rank mp -> pool mp !! TxHash t = Some d -> desc_Tx d = t -> (higher rank mp (TxHash t) < fuel)%nat ->
    exists mp', rf t mp = (mp', Ok tt) /\ removal mp [TxHash t] mp' /\ pool mp' !! TxHash t = None) ->
  let g := fun prevOut => redeemer ← gets (fun mp => outpoints mp !! prevOut); match redeemer with Some t => rf t | None => mret tt end in
  forall outs i mp, pool_ok mp -> ranked rank mp -> (higher rank mp h <= fuel)%nat ->
  exists mp', each_output g h i outs mp = (mp', Ok tt) /\ removal mp [h] mp' /\
    forall j, i <= j < i + len outs -> outpoints mp' !! mkOutPoint h (u32 j) = None.
Proof.
  intros Hrf g. induction outs as [|o outs IH]; intros i mp Hok Hr Hf.
  { exists mp. split_and!; [done | by apply removal_refl |]. rewrite len_nil. lia. }
  cbn [each_output]. set (op := mkOutPoint h (u32 i)).
  assert (exists mp1, g op mp = (mp1, Ok tt) /\ removal mp [h] mp1 /\ outpoints mp1 !! op = None) as (mp1 & E1 & R1 & O1).
  { unfold g. rewrite run_gets. destruct (outpoints mp !! op) as [t|] eqn:Eo; [|exists mp; split_and!; [done | by apply removal_refl | done]].
    apply (po_spent _ Hok) in Eo as (d & Hd & Et & Hin).
    assert (child mp h (TxHash t)) as C by (exists d, op; by rewrite Et). pose proof (higher_child rank mp _ _ Hr C).
    destruct (Hrf t d mp Hok Hr Hd Et) as (mp1 & E1 & R1 & G1); [lia|]. exists mp1. split_and!; [done | |].
    - eapply removal_weaken; [|exact R1]. intros p ->%list_elem_of_singleton. exists h. split; [set_solver | by apply rtc_once].
    - destruct (outpoints mp1 !! op) as [t'|] eqn:E'; [|done].
      pose proof (lookup_weaken _ _ _ _ E' (outpoints_sub _ _ Hok (rm_less _ _ _ R1))) as Eo'.
      assert (outpoints mp !! op = Some t) as Eo by (apply (po_spent _ Hok); by exists d). rewrite Eo in Eo'. injection Eo' as <-.
      apply (po_spent _ (le_ok _ _ (rm_less _ _ _ R1))) in E' as (d' & Hd' & _). congruence. }
  rewrite (run_bind _ _ _ _ _ E1). pose proof (rm_less _ _ _ R1) as L1. pose proof (higher_sub rank mp mp1 h (le_sub _ _ L1)).
  destruct (IH (i + 1) mp1) as (mp2 & E2 & R2 & O2); [apply L1 | by eapply ranked_sub; [apply L1|] | lia |].
  exists mp2. split_and!; [done | by eapply removal_trans |]. intros j Hj. rewrite len_cons in Hj.
  destruct (decide (j = i)) as [->|]; [|apply O2; lia]. destruct (outpoints mp2 !! mkOutPoint h (u32 i)) eqn:E'; [|done].
  pose proof (lookup_weaken _ _ _ _ E' (outpoints_sub _ _ (le_ok _ _ L1) (rm_less _ _ _ R2))) as E''. unfold op in O1. congruence.
Qed.

Lemma removeTransaction_fuel_spec rank fuel : forall t d mp, pool_ok mp -> ranked rank mp ->
  pool mp !! TxHash t = Some d -> TxOuts (desc_Tx d) = TxOuts t -> (higher rank mp (TxHash t) < fuel)%nat ->
  exists mp', removeTransaction_fuel fuel t true mp = (mp', Ok tt) /\ removal mp [TxHash t] mp' /\ pool mp' !! TxHash t = None.
Proof.
  induction fuel as [|fuel IH]; intros t d mp Hok Hr Hd Eouts Hf; [lia|]. cbn [removeTransaction_fuel].
  destruct (redeemers_removal rank fuel (fun t => removeTransaction_fuel fuel t true) (TxHash t)) with (outs := TxOuts t) (i := 0) (mp := mp)
    as (mp1 & E1 & R1 & O1); [|done|done|lia|].
  { intros t' d' m Hm Hrm Hd' Et'. apply (IH t' d' m); [done..|]. by rewrite Et'. }
  rewrite (run_bind _ _ _ _ _ E1). pose proof (rm_less _ _ _ R1) as L1.
  destruct (pool mp1 !! TxHash t) as [d1|] eqn:Ed1.
  - pose proof (lookup_weaken _ _ _ _ Ed1 (le_sub _ _ L1)) as Ed. rewrite Hd in Ed. injection Ed as <-.
    destruct (take_out_removal (TxHash t) d mp1) as (mp2 & E2 & R2 & G2); [apply L1 | done | |].
    { intros j Hj. apply O1. by rewrite <- Eouts. }
    exists mp2. split_and!; [done | by eapply removal_trans | done].
  - destruct (take_out_spec (TxHash t) mp1 (le_ok _ _ L1)) as (mp2 & E2 & H2 & P2 & O2 & I2).
    rewrite delete_id in P2 by done. exists mp2. split_and!; [done | | by rewrite P2].
    destruct L1 as [? S1 Or1 Ir1], R1 as [_ D1 C1]. split; [split; [done | by rewrite P2 | congruence..] | |]; rewrite P2; done.
Qed.

(** A transaction of the pool is removed with all that depend on it, and the call ends. *)
Lemma removeTransaction_spec rank t d mp : pool_ok mp -> ranked rank mp -> pool mp !! TxHash t = Some d -> TxOuts (desc_Tx d) = TxOuts t ->
  exists mp', removeTransaction t true mp = (mp', Ok tt) /\ removal mp [TxHash t] mp' /\ pool mp' !! TxHash t = None.
Proof.
  intros Hok Hr Hd Eo. apply (removeTransaction_fuel_spec rank _ t d); [done..|].
  unfold higher. pose proof (map_size_filter (fun x : bytes * TxDesc => (rank (TxHash t) < rank x.1)%nat) (pool mp)). lia.
Qed.

(** The transactions that spend what another one spends. *)
Definition conflicts (mp : TxPool) (tx : Tx) (h : bytes) : Prop :=
  h <> TxHash tx /\ exists d op, pool mp !! h = Some d /\ op ∈ spends (desc_Tx d) /\ op ∈ spends tx.

Lemma remove_conflicts_spec rank tx ins : forall mp, pool_ok mp -> ranked rank mp -> (PreviousOutPoint <$> ins) ⊆ spends tx ->
  exists mp' ps, remove_conflicts tx ins mp = (mp', Ok tt) /\ removal mp ps mp' /\ (forall p, p ∈ ps -> conflicts mp tx p) /\
    forall h d op, pool mp' !! h = Some d -> op ∈ spends (desc_Tx d) -> op ∈ PreviousOutPoint <$> ins -> h = TxHash tx.
Proof.
  induction ins as [|txIn ins IH]; intros mp Hok Hr Hins.
  { exists mp, []. split_and!; [done | by apply removal_refl | set_solver | simpl; set_solver]. }
  cbn [remove_conflicts]. rewrite run_gets. set (op := PreviousOutPoint txIn) in *.
  set (step := match outpoints mp !! op with Some t => _ | None => _ end).
  assert (exists mp1 ps, step mp = (mp1, Ok tt) /\ removal mp ps mp1 /\ (forall p, p ∈ ps -> conflicts mp tx p) /\
    forall h d, pool mp1 !! h = Some d -> op ∈ spends (desc_Tx d) -> h = TxHash tx) as (mp1 & ps1 & E1 & R1 & C1 & O1).
  { unfold step. destruct (outpoints mp !! op) as [t|] eqn:Eo.
    - pose proof Eo as (d & Hd & Et & Hin)%(po_spent _ Hok). case_bool_decide as Eh.
      + exists mp, []. split_and!; [reflexivity | exact (removal_refl mp [] Hok) | intros p []%not_elem_of_nil |]. intros h d' Hd' Hin'. rewrite <- Eh.
        clear Eh. eapply (pool_conflict mp h _ d' d op); [done..|by rewrite Et].
      + destruct (removeTransaction_spec rank t d mp Hok Hr Hd) as (mp1 & E1 & R1 & G1); [by rewrite Et|].
        exists mp1, [TxHash t]. split_and!; [exact E1 | exact R1 | |].
        * intros p ->%list_elem_of_singleton. split; [done|]. exists d, op. rewrite Et. split_and!; [done | done | set_solver].
        * intros h d' Hd' Hin'. exfalso. pose proof (rm_less _ _ _ R1) as L1.
          assert (h = TxHash t) as ->; [|congruence].
          eapply (pool_conflict mp h _ d' d op); [done | by eapply lookup_weaken; [|apply L1] | done | done | by rewrite Et].
    - exists mp, []. split_and!; [reflexivity | exact (removal_refl mp [] Hok) | intros p []%not_elem_of_nil |]. intros h d Hd Hin. exfalso.
      assert (outpoints mp !! op = Some (desc_Tx d)) as E; [|congruence]. apply (po_spent _ Hok). exists d. by rewrite (po_hash _ Hok _ _ Hd). }
  rewrite (run_bind _ _ _ _ _ E1). pose proof (rm_less _ _ _ R1) as L1.
  destruct (IH mp1) as (mp2 & ps2 & E2 & R2 & C2 & O2); [apply L1 | by eapply ranked_sub; [apply L1|] | set_solver |].
  exists mp2, (ps1 ++ ps2). split_and!; [done | | |].
  - eapply removal_trans; [eapply removal_weaken; [|exact R1] | eapply removal_weaken; [|exact R2]]; intros p Hp; exists p; (split; [set_solver | done]).
  - intros p [Hp|Hp]%elem_of_app; [by apply C1|]. destruct (C2 p Hp) as (Hne & d & op' & Hd & Hin & Hs).
    split; [done|]. exists d, op'. split_and!; [by eapply lookup_weaken; [|apply L1] | done..].
  - intros h d op' Hd Hin [->|Hop]%elem_of_cons; [|by eapply O2]. apply (O1 h d); [|done].
    eapply lookup_weaken; [exact Hd | apply (rm_less _ _ _ R2)].
Qed.

End inv.
End MempoolInv.
