(* ===== verification/MempoolOps.v ===== *)
(** Sequences of calls of the memory pool: the pool is consistent after each of them,
    calls return when the chain answers, and a confirmed transaction leaves no
    transaction that conflicts with it. *)
From stdpp Require Import gmap.
From S2P Require Import Prelude PubKey Wire Crypto Script Standard SigCache Engine Utxo GoTime Params KeyView Validate ScriptVal Policy PolicySpec Mempool MempoolSpec MempoolInv KeySpec.
Import btcec wire Crypto Script Standard Engine Utxo GoTime Params KeyView Validate ScriptVal Policy PolicySpec Mempool MempoolSpec MempoolInv.
#[local] Open Scope Z_scope.

Module MempoolOps.

#[local] Opaque TxHash.

Section ops.
Context `{Prim : Primitives} `{Run : Runtime}.
Context (chainParams : Params) (policy : PoolPolicy).

(** * Accepting a transaction returns *)

(** The chain answers the questions of the pool, and the runs of the scripts end. *)
Definition answers (env : Env) : Prop :=
  (forall m, FetchUtxoView env m <> Hang) /\ (forall m v, CalcSequenceLock env m v <> Hang) /\
  (forall v items, run_scripts env v items <> Hang).

Definition returns {A} (m : M A) : Prop := forall mp, (m mp).2 <> Hang.

Lemma returns_bind {A B} (m : M A) (k : A -> M B) : returns m -> (forall a, returns (k a)) -> returns (m ≫= k).
Proof.
  intros Hm Hk mp. specialize (Hm mp). unfold mbind, M_bind. destruct (m mp) as [mp1 [a|e| |]]; [apply Hk | done..].
Qed.

Lemma returns_lift {A} (r : res pool_error A) : r <> Hang -> returns (lift r).
Proof. by intros Hr mp. Qed.

Lemma limit_rate_returns n : returns (limit_rate policy n).
Proof. unfold limit_rate. repeat (apply returns_bind; [by intros ?|intros ?]). by case_if. Qed.

Lemma accept_inputs_returns env tx rd mp : answers env -> accept_inputs policy env tx rd mp <> Hang.
Proof.
  intros [Hf _]. assert (wrapped (fetchInputUtxos env mp tx) <> Hang) as Hw.
  { apply wrapped_no_hang. unfold fetchInputUtxos. apply bind_no_hang; [apply Hf | done]. }
  unfold accept_inputs, checkPoolDoubleSpend, env_keyView, SetKeyIDs, KeyIdMap_DeepCopy, txRuleError.
  no_hang. apply unwrapped_no_hang. no_hang. apply asserted_no_hang. no_hang.
Qed.

Lemma accept_rules_returns env tx view kv : answers env -> accept_rules chainParams policy env tx view kv <> Hang.
Proof.
  intros (_ & Hs & _). assert (wrapped (CalcSequenceLock env (msgTx tx) view) <> Hang) as Hw by apply wrapped_no_hang, Hs.
  unfold accept_rules, txRuleError. no_hang.
Qed.

Lemma addTransaction_returns view tx h fee : returns (addTransaction view tx h fee).
Proof.
  unfold addTransaction. apply returns_bind; [by intros ?|]. intros added.
  apply returns_bind; [apply returns_lift; auto with no_hang nocore|]. intros [p v].
  by repeat (apply returns_bind; [by intros ?|intros ?]).
Qed.

Lemma maybeAccept_returns env tx isNew rl rd : answers env -> returns (maybeAcceptTransaction chainParams policy env tx isNew rl rd).
Proof.
  intros Ha mp. unfold maybeAcceptTransaction. rewrite run_gets. pose proof (accept_inputs_returns env tx rd mp Ha) as Hi.
  revert Hi. generalize (accept_inputs policy env tx rd mp) as checked. intros checked Hi. revert mp.
  apply returns_bind; [by apply returns_lift|]. intros [view kv]. apply returns_bind; [by intros ?|]. intros missing.
  case_if; [by intros ?|]. apply returns_bind; [by apply returns_lift, accept_rules_returns|]. intros [fee view'].
  case_if; [by intros ?|]. apply returns_bind.
  { case_if; [|by intros ?]. apply returns_bind; [apply returns_lift; auto with no_hang nocore|]. intros [p v]. by case_if; intros ?. }
  intros v. apply returns_bind; [case_if; [apply limit_rate_returns | by intros ?]|]. intros _.
  apply returns_bind; [by intros ?|]. intros hc. destruct (cached_hashes hc (msgTx tx)) as [hc' hashes].
  apply returns_bind; [by intros ?|]. intros _. apply returns_bind; [by apply returns_lift, wrapped_no_hang, Ha|]. intros _.
  apply returns_bind; [apply addTransaction_returns|]. by intros txD mp.
Qed.

(** * Calls *)

(** The calls that change the pool, each with the chain as it is at that time. *)
Inductive call :=
  | Process (env : Env) (tx : Tx) (allowOrphan rateLimit : bool) (tag : Z)
  | MaybeAccept (env : Env) (tx : Tx) (isNew rateLimit : bool)
  | Remove (tx : Tx) (removeRedeemers : bool)
  | DoubleSpends (tx : Tx)
  | Orphan (tx : Tx)
  | OrphansByTag (tag : Z)
  | Orphans (env : Env) (acceptedTx : Tx).

(** The pool after a call, however it ends. *)
Definition perform (mp : TxPool) (c : call) : TxPool :=
  match c with
  | Process env tx allowOrphan rateLimit tag => (ProcessTransaction chainParams policy env tx allowOrphan rateLimit tag mp).1
  | MaybeAccept env tx isNew rateLimit => (MaybeAcceptTransaction chainParams policy env tx isNew rateLimit mp).1
  | Remove tx removeRedeemers => (RemoveTransaction tx removeRedeemers mp).1
  | DoubleSpends tx => (RemoveDoubleSpends tx mp).1
  | Orphan tx => (RemoveOrphan tx mp).1
  | OrphansByTag tag => (RemoveOrphansByTag tag mp).1
  | Orphans env acceptedTx => (ProcessOrphans chainParams policy env acceptedTx mp).1
  end.

Definition session (hc : SigCache.HashCache) (calls : list call) : TxPool := fold_left perform calls (New hc).

Lemma New_consistent hc : consistent policy (New hc).
Proof.
  split; [split | split | |]; cbn [New pool orphans orphansByPrev outpoints].
  - intros h d Hd. by rewrite lookup_empty in Hd.
  - intros op tx. rewrite lookup_empty. split; [done|]. intros (d & Hd & _). by rewrite lookup_empty in Hd.
  - intros h o Ho. by rewrite lookup_empty in Ho.
  - intros op h tx. unfold refs. rewrite lookup_empty. split; [done|]. intros (_ & o & Ho & _). by rewrite lookup_empty in Ho.
  - intros op m Hm. by rewrite lookup_empty in Hm.
  - set_solver.
  - set_solver.
  - rewrite map_size_empty. lia.
Qed.

Lemma remove_conflicts_lessened tx ins : forall mp, pool_ok mp -> lessened mp (remove_conflicts tx ins mp).1.
Proof.
  induction ins as [|txIn ins IH]; intros mp Hok; [by apply lessened_refl|]. cbn [remove_conflicts]. rewrite run_gets.
  set (step := match outpoints mp !! _ with Some t => _ | None => _ end).
  assert (lessened mp (step mp).1) as L.
  { unfold step. destruct (outpoints mp !! _); [|by apply lessened_refl]. case_if; [by apply lessened_refl | by apply removeTransaction_lessened]. }
  unfold mbind, M_bind. destruct (step mp) as [mp1 [a|e| |]]; simpl in L; [|done..]. eapply lessened_trans; [done | by apply IH, L].
Qed.

Lemma consistent_maybeAccept env tx isNew rl mp mp' r : consistent policy mp ->
  maybeAcceptTransaction chainParams policy env tx isNew rl true mp = (mp', r) -> consistent policy mp'.
Proof.
  intros Hc E. pose proof (maybeAccept_outcome policy chainParams env tx isNew rl true mp) as Ho. rewrite E in Ho.
  destruct Ho as [[S _]|(txD & -> & A)]; [by eapply consistent_same | by eapply accepted_consistent].
Qed.

(** A transaction whose parents are missing is in neither pool. *)
Lemma maybeAccept_missing env tx isNew rl mp mp' missing txD : 0 < len missing ->
  maybeAcceptTransaction chainParams policy env tx isNew rl true mp = (mp', Ok (missing, txD)) ->
  pool mp' !! TxHash tx = None /\ orphans mp' !! TxHash tx = None.
Proof.
  intros Hm E. pose proof (maybeAccept_outcome policy chainParams env tx isNew rl true mp) as Ho. rewrite E in Ho.
  destruct Ho as [[[Ep _ Eo _] _]|(d & [= -> _] & _)]; [|done]. rewrite Ep, Eo.
  unfold maybeAcceptTransaction in E. rewrite run_gets in E.
  destruct (accept_inputs policy env tx true mp) as [v|e| |] eqn:Ei; [|done..].
  destruct (accept_inputs_new _ _ _ _ _ _ Ei) as (Hp & Hor & _). split; [done | by apply Hor].
Qed.

Lemma maybeAddOrphan_consistent tx tag mp : consistent policy mp -> pool mp !! TxHash tx = None -> orphans mp !! TxHash tx = None ->
  consistent policy (maybeAddOrphan policy tx tag mp).1 /\ (maybeAddOrphan policy tx tag mp).2 <> Hang.
Proof.
  intros Hc Hp Ho. unfold maybeAddOrphan. case_if; [done|]. destruct Hc as [[Hh Hs] Hor D L].
  destruct (addOrphan_spec policy tx tag mp Hor Ho L) as (mp' & E & H' & Ep & Eo & Ed & L'). rewrite E. split; [|done]. simpl.
  split; [split; rewrite ?Ep, ?Eo; done | done | | done]. rewrite Ep. apply not_elem_of_dom in Hp. set_solver.
Qed.

(** What was processed is in the pool, and no orphan competes with it. *)
Definition settled (tx : Tx) (mp : TxPool) (ds : list TxDesc) : Prop :=
  (exists txD rest, ds = txD :: rest /\ desc_Tx txD = tx) /\
  forall d, d ∈ ds -> pool mp !! TxHash (desc_Tx d) = Some d /\ unrivalled mp (desc_Tx d).

Lemma ProcessTransaction_ends env tx allowOrphan rl tag mp : consistent policy mp ->
  exists mp' r, ProcessTransaction chainParams policy env tx allowOrphan rl tag mp = (mp', r) /\ consistent policy mp' /\
    (answers env -> r <> Hang) /\ forall ds, r = Ok ds -> ds = [] \/ settled tx mp' ds.
Proof.
  intros Hc. unfold ProcessTransaction. pose proof (maybeAccept_outcome policy chainParams env tx true rl true mp) as Ho.
  pose proof (fun Ha => maybeAccept_returns env tx true rl true Ha mp) as Hr. unfold mbind at 1, M_bind at 1.
  destruct (maybeAcceptTransaction _ _ _ _ _ _ _ mp) as [mp1 r] eqn:Em. pose proof (consistent_maybeAccept _ _ _ _ _ _ _ Hc Em) as C1.
  destruct Ho as [[_ Hm]|(txD & -> & A)].
  - destruct r as [[missing txD]|e| |]; [|solve [exists mp1; eexists; split; [reflexivity|]; split_and!; [exact C1 | intros Ha; first [discriminate | by destruct (Hr Ha)] | intros ds Hd; discriminate Hd]]..]. specialize (Hm _ _ eq_refl).
    destruct (maybeAccept_missing _ _ _ _ _ _ _ _ Hm Em) as [Hp Hor]. replace (len missing =? 0) with false by lia.
    destruct allowOrphan; simpl; [|by exists mp1; eexists; split_and!]. destruct (maybeAddOrphan_consistent tx tag mp1 C1 Hp Hor) as [C2 R2].
    unfold mbind, M_bind. destruct (maybeAddOrphan policy tx tag mp1) as [mp2 [[]|e| |]]; simpl in C2, R2; [|solve [exists mp2; eexists; split; [reflexivity|]; split_and!; [exact C2 | first [discriminate | by destruct R2] | intros ds Hd; discriminate Hd]]..].
    exists mp2, (Ok []). split_and!; [done.. |]. intros ds [= <-]. by left.
  - change (len (A := bytes) [] =? 0) with true. cbv beta iota. destruct (processOrphans_ends chainParams policy env tx mp1 C1) as (mp2 & r & E & (C2 & S2 & P2 & R2) & U2).
    unfold mbind at 1, M_bind at 1. rewrite E. simpl in *. destruct r as [ds|e| |]; [|done|by exists mp2; eexists; split_and!|].
    + exists mp2, (Ok (txD :: ds)). split_and!; [done.. |]. intros ? [= <-]. right. destruct (U2 _ eq_refl) as [Ut Ud], R2 as [_ D2].
      pose proof (ac_tx _ _ _ _ _ _ _ _ A) as Et. split; [by exists txD, ds|]. intros d [->|Hd]%elem_of_cons; [|by auto].
      rewrite Et. split; [|done]. eapply lookup_weaken; [|exact P2]. by rewrite (ac_pool _ _ _ _ _ _ _ _ A), lookup_insert_eq.
    + exists mp2, Hang. split_and!; [done | done | | done]. intros Ha. exfalso. destruct R2 as (t & m & Ht).
      by apply (maybeAccept_returns env t true true false Ha m).
Qed.

Lemma perform_consistent c mp : consistent policy mp -> consistent policy (perform mp c).
Proof.
  intros Hc. destruct c; cbn [perform].
  - destruct (ProcessTransaction_ends env tx allowOrphan rateLimit tag mp Hc) as (mp' & r & -> & C & _). exact C.
  - unfold MaybeAcceptTransaction. destruct (maybeAcceptTransaction _ _ _ _ _ _ _ mp) as [mp' r] eqn:E. by eapply consistent_maybeAccept.
  - eapply consistent_lessened; [|exact Hc]. apply removeTransaction_lessened, Hc.
  - eapply consistent_lessened; [|exact Hc]. apply remove_conflicts_lessened, Hc.
  - unfold RemoveOrphan. destruct (removeOrphan_spec mp tx false (con_orphans _ _ Hc)) as (mp' & -> & H' & S & _). by eapply consistent_shrunk.
  - destruct (RemoveOrphansByTag_spec tag mp (con_orphans _ _ Hc)) as (mp' & n & -> & H' & S). by eapply consistent_shrunk.
  - unfold ProcessOrphans. destruct (processOrphans_ends chainParams policy env acceptedTx mp Hc) as (mp' & r & -> & (C & _) & _). exact C.
Qed.

Lemma session_consistent hc calls : consistent policy (session hc calls).
Proof.
  unfold session. generalize (New_consistent hc). generalize (New hc) as mp.
  induction calls as [|c calls IH]; intros mp Hc; [done|]. by apply IH, perform_consistent.
Qed.

(** C10: after any sequence of calls on a new memory pool, whatever the chain says, in
    whatever order maps are gone over and however each call ended, the pool and its
    indexes agree: an output is in the index of spent outputs exactly when a transaction
    of the pool spends it, an orphan is in the index of orphans exactly under the outputs
    it spends, no transaction is both in the pool and an orphan, and there are no more
    orphans than the policy allows.  So no two transactions of the pool spend the same
    output. *)
Theorem pool_consistent hc calls : let mp := session hc calls in consistent policy mp /\
  forall h1 h2 d1 d2 op, pool mp !! h1 = Some d1 -> pool mp !! h2 = Some d2 ->
    op ∈ spends (desc_Tx d1) -> op ∈ spends (desc_Tx d2) -> h1 = h2 /\ d1 = d2.
Proof.
  intros mp. pose proof (session_consistent hc calls) as Hc. split; [exact Hc|]. intros h1 h2 d1 d2 op H1 H2 O1 O2.
  assert (h1 = h2) as -> by (eapply (pool_conflict mp h1 h2 d1 d2 op); [apply Hc | done..]).
  split; [reflexivity|]. rewrite H1 in H2. by injection H2.
Qed.


(** C12: when the spends in the pool have no cycle, [RemoveDoubleSpends], which is called for
    each confirmed transaction, returns.  No transaction is left in the pool that spends an
    output spent by the confirmed one; what was removed conflicts with it or depends,
    through spent outputs, on a transaction that does; and no transaction is left that
    spends an output of a removed one. *)
Theorem double_spends_removed hc calls rank tx : let mp := session hc calls in ranked rank mp ->
  exists mp', RemoveDoubleSpends tx mp = (mp', Ok tt) /\ pool mp' ⊆ pool mp /\ orphans mp' = orphans mp /\
    (forall h, ~ conflicts mp' tx h) /\
    (forall h, is_Some (pool mp !! h) -> pool mp' !! h = None -> exists p, conflicts mp tx p /\ rtc (child mp) p h) /\
    (forall hp dp i h d, pool mp !! hp = Some dp -> pool mp' !! hp = None -> 0 <= i < len (TxOuts (desc_Tx dp)) ->
      pool mp' !! h = Some d -> mkOutPoint hp (u32 i) ∉ spends (desc_Tx d)).
Proof.
  intros mp Hr. destruct (remove_conflicts_spec rank tx (TxIns tx) mp) as (mp' & ps & E & R & C & O); [apply session_consistent | done | done |].
  exists mp'. split; [exact E|]. split_and!; [apply R | apply R | | | apply R].
  - intros h (Hne & d & op & Hd & Hin & Ht). apply Hne. exact (O h d op Hd Hin Ht).
  - intros h Hh Hn. destruct (rm_descendants _ _ _ R h Hh Hn) as (p & Hp & Hrt). exists p. split; [by apply C | exact Hrt].
Qed.

End ops.

(** * An example

    A transaction that spends a coin of the chain, and one that spends its output. *)
#[local] Existing Instance example_primitives.

Definition example_runtime : Runtime := {|
  clock := fun n => mkTime (63600000000 + Z.of_nat n) 0;
  range := fun A _ m => map_to_list m;
  Pow := fun x _ => x;
  range_perm := fun A _ m => Permutation_refl _
|}.
#[local] Existing Instance example_runtime.

Definition example_script : bytes := Eval vm_compute in match payToProvaScript (replicate 20 7) [1; 2] with Ok b => b | _ => [] end.

Definition spending (op : OutPoint) (amount : Z) : Tx := NewTx (mkMsgTx 1 [mkTxIn op [] 0xffffffff] [mkTxOut amount example_script] 0).

Definition a_coin : OutPoint := mkOutPoint (replicate 32 9) 0.
Definition parent_tx : Tx := spending a_coin 9000.
Definition child_tx : Tx := spending (mkOutPoint (TxHash parent_tx) 0) 8000.
Definition rival : Tx := spending a_coin 7000.

Definition a_chain : gmap bytes UtxoEntry :=
  {[Hash a_coin := mkUtxoEntry false 1 false 5 {[0 := mkUtxoOutput false false 10000 (Some example_script)]}]}.

Definition a_view (m : MsgTx) : UtxoViewpoint :=
  mkUtxoViewpoint (list_to_map ((fun txIn => let h := Hash (PreviousOutPoint txIn) in (h, a_chain !! h)) <$> tx_TxIn m)) zeroHash.

Definition an_env : Env :=
  mkEnv (fun m => Ok (a_view m)) ∅ 2 0 {[1 := Some (mkPublicKey 1 1); 2 := Some (mkPublicKey 2 2)]} ∅ 10 (mkTime 63600000000 0)
    (fun _ _ => Ok (mkSequenceLock (-1) (-1))) (fun _ _ => Ok tt).

Definition a_policy : PoolPolicy := mkPoolPolicy 2 false false (of_int 15) 10 5000 1000 100.

Definition a_params : Params := KeySpec.KeySpec.example_params.
Definition some_calls : list call := [Process an_env child_tx true true 1; Process an_env parent_tx true true 1].
Definition a_session : TxPool := session a_params a_policy (SigCache.NewHashCache 10) some_calls.

(** The orphan is accepted with its parent. *)
Lemma a_session_pool : Count a_session = 2 /\ size (orphans a_session) = 0%nat.
Proof. split; vm_compute; reflexivity. Qed.



(** A way to see that there is no cycle. *)
Definition ranked_by (rank : bytes -> nat) (mp : TxPool) : bool :=
  forallb (fun x => forallb (fun op => bool_decide (rank (Hash op) < rank x.1)%nat) (spends (desc_Tx x.2))) (map_to_list (pool mp)).

Lemma ranked_by_ranked rank mp : ranked_by rank mp = true -> ranked rank mp.
Proof.
  unfold ranked_by. rewrite forallb_forall. intros Hf h1 h2 (d & op & Hd & Hin & <-). apply elem_of_map_to_list, list_elem_of_In in Hd.
  specialize (Hf _ Hd). rewrite forallb_forall in Hf. specialize (Hf op). apply bool_decide_eq_true in Hf; [done | by apply list_elem_of_In].
Qed.

Definition a_rank (h : bytes) : nat := if bool_decide (h = TxHash child_tx) then 2 else if bool_decide (h = TxHash parent_tx) then 1 else 0.

Lemma a_session_ranked : ranked a_rank a_session.
Proof. apply ranked_by_ranked. vm_compute. reflexivity. Qed.

(** The parent conflicts, and the child goes with it. *)
Lemma double_spends_removed_witness : Count (RemoveDoubleSpends rival a_session).1 = 0 /\
  exists mp', RemoveDoubleSpends rival a_session = (mp', Ok tt) /\ pool mp' ⊆ pool a_session /\ orphans mp' = orphans a_session /\
    (forall h, ~ conflicts mp' rival h) /\
    (forall h, is_Some (pool a_session !! h) -> pool mp' !! h = None -> exists p, conflicts a_session rival p /\ rtc (child a_session) p h) /\
    (forall hp dp i h d, pool a_session !! hp = Some dp -> pool mp' !! hp = None -> 0 <= i < len (TxOuts (desc_Tx dp)) ->
      pool mp' !! h = Some d -> mkOutPoint hp (u32 i) ∉ spends (desc_Tx d)).
Proof.
  split; [vm_compute; reflexivity|].
  exact (double_spends_removed a_params a_policy (SigCache.NewHashCache 10) some_calls a_rank rival a_session_ranked).
Defined.

End MempoolOps.
